(* ===== verification/_CoqProject ===== *)
-Q . S2P
Prelude.v
Modifiers.v
Leb128.v
DexOpcodes.v
DexInstruction.v
DexCode.v
StaticVerifier.v
StaticVerifierFacts.v
StaticVerifierTheorems.v
DexToDex.v
ShadowFrame.v
Float.v
Memory.v
ClassHierarchy.v
Heap.v
Transactions.v
InterpreterCommon.v
InterpreterSwitch.v
InterpreterLogic.v
InterpreterSafety.v
InterpreterSteps.v
InterpreterTheorems.v
InterpreterRun.v
InterpreterArithmetic.v
InterpreterControl.v
InterpreterGrowth.v
InterpreterSuspension.v
InterpreterGoto.v
InterpreterEquivalence.v
Locations.v
ParallelMove.v
ParallelMoveX86.v
Concurrency.v
LockWord.v
Monitor.v
MonitorInvariant.v
MonitorSteps.v
MonitorLogic.v
MonitorPrograms.v
MonitorLocking.v
MonitorWaiting.v
MonitorHash.v
MonitorDeflation.v
MonitorClient.v
MonitorTheorems.v
MonitorSolo.v
MonitorSequential.v
MonitorUncontended.v
MonitorReturns.v
MonitorRefinement.v
HashSet.v
HashSetLoad.v
HashSetProbing.v
HashSetInvariant.v
HashSetErase.v
HashSetTheorems.v
Utf.v
DexLookup.v
DexLookupTheorems.v
InternTable.v
InternTableFacts.v
InternTableTheorems.v
