(* ===== verification/Prelude.v ===== *)
(** * Verification of the Android runtime (ART): shared prelude

    ** The program

    ART executes Android applications.  It reads dex files (runtime/dex_file.cc),
    verifies each method before it runs (runtime/verifier), may rewrite its code
    (compiler/dex/dex_to_dex_compiler.cc) or compile it (compiler/optimizing), and
    otherwise interprets it (runtime/interpreter) on a heap of objects
    (runtime/mirror).  The development follows that path: the parts that decide what
    a method may do, and the parts that do it.

    ** Files

    - Prelude: faults, the state monad, integers at their width, arrays.
    - Modifiers (runtime/modifiers.h, invoke_type.h), DexOpcodes
      (dex_instruction_list.h), DexInstruction (dex_instruction.{h,cc}, -inl.h),
      DexCode (dex_file.{h,cc}), Leb128 (leb128.h): the dex format as far as code
      items need it.
    - StaticVerifier, StaticVerifierFacts, StaticVerifierTheorems
      (verifier/method_verifier.{h,cc}, instruction_flags.h): the static passes of
      [MethodVerifier].  The verifier's fields are the record [MethodVerifier]; every
      pass is a computation over it.
    - DexToDex (compiler/dex/dex_to_dex_compiler.cc): the in-place rewriting of
      verified code.
    - ShadowFrame (stack.h, jvalue.h), Float, Memory, ClassHierarchy
      (mirror/class.h, class-inl.h), Heap (mirror/object-inl.h, array-inl.h, ...),
      Transactions (transaction.{h,cc}): what instructions work on.  [World] is the
      state of a thread and of the objects it can reach.
    - InterpreterCommon (interpreter/interpreter_common.{h,cc}), InterpreterSwitch
      (interpreter_switch_impl.cc), InterpreterGoto (interpreter_goto_table_impl.cc):
      the two interpreters.  The rest of the runtime is the class [Runtime], and
      what is relied on is the class [RuntimeLaws] of InterpreterLogic.
    - InterpreterLogic, InterpreterSafety, InterpreterSteps, InterpreterTheorems,
      InterpreterRun, InterpreterArithmetic, InterpreterControl, InterpreterGrowth,
      InterpreterSuspension, InterpreterEquivalence: their theorems.
    - Locations, ParallelMove, ParallelMoveX86 (compiler/optimizing/locations.h,
      parallel_move_resolver.{h,cc}, code_generator_x86.cc): moves between locations.
    - Concurrency: threads as programs of atomic actions on a shared state, their
      interleavings, and a rely-guarantee logic for them.
    - LockWord (lock_word.h, lock_word-inl.h) and Monitor (monitor.{h,cc}, thread-inl.h,
      thread.cc, thread_list.cc, mirror/object.cc, gc/heap.cc): locks of objects.
      [State] has the lock words, the monitors, the threads, the list of monitors, the
      mutator lock and the seed of the hash codes; every operation is a program, with
      one action for each access to memory that other threads can see between, and
      locks and condition variables as actions that wait.
    - MonitorInvariant, MonitorSteps, MonitorLogic, MonitorPrograms, MonitorLocking,
      MonitorWaiting, MonitorHash, MonitorDeflation, MonitorClient, MonitorTheorems: the
      invariant, what every thread relies on, a specification for each operation, and
      the theorems for threads that perform any operations.
    - MonitorSolo, MonitorSequential, MonitorUncontended, MonitorReturns,
      MonitorRefinement: a specification of locks without representation, and that the
      operations of Monitor return and do what it says when they do not overlap.
    - HashSet (base/hash_set.h): the open hash set of the runtime; a set is the record of
      its fields.  HashSetLoad (load factors as doubles), HashSetProbing (the circle of
      buckets), HashSetInvariant, HashSetErase, HashSetTheorems: its theorems.
    - Utf (utf.cc, utf-inl.h), DexLookup (dex_file.{h,cc}, -inl.h) and DexLookupTheorems:
      the strings of dex files, the lookups of identifiers and the parsing of signatures.
    - InternTable (intern_table.{h,cc}, mirror/string.cc, transaction.{h,cc}): interned
      strings and their undo, on HashSet, Utf and DexLookup.  InternTableFacts,
      InternTableTheorems: its theorems.

    ** What the theorems show

    - Verification is sound ([Verify_sound]) and ends on every input
      ([Verify_terminates]): an accepted method is tiled by instructions, and
      operands, branches, switch and array payloads, try blocks and handlers stay in
      range.  Where it does not hold on malformed code, a theorem says so
      ([Verify_faults_on_malformed_code], [CheckArrayData_size_overflow]).
    - Verified code is safe to interpret ([step_safe], [ExecuteSwitchImpl_safe]), and
      rewriting keeps it verified ([Compile_preserves_verification]).
    - The two interpreters agree ([goto_equals_switch]) but for one instruction
      ([RETURN_OBJECT_differs]); integer instructions are Java's
      ([arithmetic_is_Java]); switches and handlers go where the dex file says
      ([switch_is_linear_search], [FindCatchBlock_first_match]); the thread can always
      be suspended soon ([suspension_is_never_far]).
    - The object layer: subtyping ([IsAssignableFrom_correct],
      [IsAssignableFrom_transitive]), frames ([shadow_frame_read_after_write],
      [shadow_frame_invariant]), rollback of transactions ([transaction_rollback],
      [transaction_rollback_float]).
    - Parallel moves have the effect of moving all at once, for every code generator
      that keeps the contract ([EmitNativeCode_correct]) and for x86
      ([x86_parallel_move]).
    - Encodings: LEB128, catch handlers, locations, modified UTF-8
      ([modified_utf8_roundtrip]).
    - Hash sets are bags, whatever is inserted and removed ([hash_set_refines_bag]), but
      for sets that were shrunk ([shrunk_set_find_hangs]).
    - Lookups in sorted dex files find what is there ([FindStringId_correct],
      [member_lookup_correct], [CreateSignature_correct]); the lookup of UTF-16 strings
      finds nothing ([FindStringId_utf16_never_finds]).
    - The intern table is a map from characters to one reference
      ([interning_refines_map]), and a transaction undoes what it interned
      ([interning_rolls_back]).
    - Locks, for any number of threads and every interleaving: mutual exclusion
      ([mutual_exclusion]), what operations return and throw
      ([operations_return_as_specified]), stable hash codes ([identity_hash_stable]),
      lock words and counts that agree with what threads have done
      ([lock_words_well_formed], [finished_threads_balanced]), and no failing check
      ([only_illegal_exits_abort]) but one ([illegal_exit_aborts]).  A notification can
      be lost ([interrupted_thread_takes_notification]) and the generation of hash codes
      can hang ([hash_generation_hangs]).  These theorems hold in every state that can
      be reached; that operations return is shown where no two of them overlap
      ([locks_refine_java]).

    ** Bounds

    Integers are [Z] with the wrap-around of their type written out ([wrapU], [wrapS]).
    A loop that is not structural takes a bound; that the bound suffices is proved
    where a result is claimed: the walk over code units and the passes of the verifier
    by the number of code units, the loops up the class hierarchy by the number of
    classes, the binary searches by the length of the array, the parallel move
    resolver by the number of moves, the probes of a hash set by the number of buckets,
    which twice the number of elements and 1000 bounds.  A run of an interpreter is bounded by a number of
    instructions that the theorems quantify over, as methods need not terminate.
    A thread of Monitor that has used up its bound never acts again; the theorems hold
    for every bound, and what they state holds in every state on the way, so that they
    cover all finite runs of the unbounded loops.

    ** Not modelled

    - The data-flow pass of the verifier: it needs the class linker.  What it would
      rule out is the fault [BadReference].
    - The class linker, allocation, JNI, reflection and native methods: operations of
      [Runtime] with named laws.
    - The garbage collectors: references are addresses that stay put, but for the intern
      table, where a collector is a function from references to references.
    - Of threads: birth and death, checkpoints and suspension by the debugger; of
      monitors: lock profiling and descriptions for the debugger.  Memory is sequentially
      consistent.
    - Of hash sets: hash maps, moves of whole sets, statistics; of dex files: opening and
      checking them, class data, annotations, debug information; of the intern table: its
      lock, which every operation holds, and the condition variable on which callers wait
      while new interns are not allowed.
    - Code generators other than the parallel moves of x86, the Quick and portable
      compilers, assemblers and disassemblers.
    - Files and processes: oat, ELF, image and zip readers and writers, start-up,
      signals, the debugger, the command-line tools. *)

From Stdlib Require Export ZArith Lia.
From stdpp Require Export base list gmap.

#[global] Open Scope Z_scope.

(** ** Faulting computations

    Most of the modelled C++ can go wrong in ways the language leaves
    undefined or turns into an abort: an index outside an array, a failed
    [DCHECK]/[CHECK], a [LOG(FATAL)].  A computation of type [res A] either
    produces a value or names such a fault; theorems of the form
    [f x = Ok y] therefore also say that none of them happens. *)

Inductive fault : Type :=
  | OutOfBounds      (**r read or write outside the array it is aimed at *)
  | CheckFailed      (**r a [DCHECK] or [CHECK] does not hold *)
  | Fatal            (**r [LOG(FATAL)], [UNREACHABLE()] *)
  | External         (**r control leaves the modelled part of the runtime *)
  | BadReference     (**r an address holds no object, or an object, field or method
                          that is not of the class needed *)
  | OutOfFuel.       (**r the bound given to a loop was too small *)

Inductive res (A : Type) : Type :=
  | Ok (a : A)
  | Fault (f : fault).
Arguments Ok {A} _.
Arguments Fault {A} _.

#[export] Instance fault_eq_dec : EqDecision fault.
Proof. solve_decision. Defined.
#[export] Instance res_eq_dec {A} `{EqDecision A} : EqDecision (res A).
Proof. solve_decision. Defined.

#[export] Instance res_ret : MRet res := fun A a => Ok a.
#[export] Instance res_bind : MBind res :=
  fun A B f m => match m with Ok a => f a | Fault e => Fault e end.
#[export] Instance res_fmap : FMap res :=
  fun A B f m => match m with Ok a => Ok (f a) | Fault e => Fault e end.

Definition check (b : bool) : res unit :=
  if b then Ok tt else Fault CheckFailed.

Lemma bind_ok {A B} (m : res A) (f : A -> res B) b :
  m ≫= f = Ok b <-> exists a, m = Ok a /\ f a = Ok b.
Proof.
  destruct m as [a|e]; simpl; split.
  - eauto.
  - by intros (a' & [= ->] & ?).
  - done.
  - by intros (a' & ? & ?).
Qed.

Lemma fmap_ok {A B} (m : res A) (f : A -> B) b :
  f <$> m = Ok b <-> exists a, m = Ok a /\ b = f a.
Proof.
  destruct m as [a|e]; simpl; split.
  - intros [= <-]; eauto.
  - by intros (a' & [= ->] & ->).
  - done.
  - by intros (a' & ? & ?).
Qed.

Lemma check_ok b u : check b = Ok u <-> b = true.
Proof. destruct b, u; simpl; split; done. Qed.

(** Take apart a successful computation in the hypotheses. *)
Ltac inv_res :=
  repeat match goal with
  | H : mbind _ _ = Ok _ |- _ =>
      let a := fresh "a" in let E := fresh "E" in
      apply bind_ok in H; destruct H as (a & E & H)
  | H : fmap _ _ = Ok _ |- _ =>
      let a := fresh "a" in let E := fresh "E" in
      apply fmap_ok in H; destruct H as (a & E & H)
  | H : check _ = Ok _ |- _ => apply check_ok in H
  | H : mret _ = Ok _ |- _ => injection H; clear H; intros; subst
  | H : Ok _ = Ok _ |- _ => injection H; clear H; intros; subst
  | H : Fault _ = Ok _ |- _ => discriminate H
  | H : (_, _) = (_, _) |- _ => injection H; clear H; intros; subst
  end.

(** ** Computations over a state

    The methods of an object, and the steps of an interpreter, are functions of
    its fields that return a value and the fields as they leave them. *)

Definition M (S A : Type) : Type := S -> res (A * S).

Section StateMonad.
Context {S : Type}.

#[export] Instance M_ret : MRet (M S) := fun A a s => Ok (a, s).
#[export] Instance M_bind : MBind (M S) :=
  fun A B f m s => match m s with Ok (a, s) => f a s | Fault e => Fault e end.
#[export] Instance M_fmap : FMap (M S) :=
  fun A B f m s => match m s with Ok (a, s) => Ok (f a, s) | Fault e => Fault e end.

Definition lift {A} (m : res A) : M S A := fun s => a ← m; Ok (a, s).
Definition gets {A} (f : S -> A) : M S A := fun s => Ok (f s, s).
Definition modify (f : S -> S) : M S unit := fun s => Ok (tt, f s).

Lemma M_bind_ok {A B} (m : M S A) (f : A -> M S B) s r :
  (m ≫= f) s = Ok r <-> exists a s1, m s = Ok (a, s1) /\ f a s1 = Ok r.
Proof.
  unfold mbind, M_bind. destruct (m s) as [[a s1]|e]; split.
  - eauto.
  - by intros (? & ? & [= <- <-] & ?).
  - done.
  - by intros (? & ? & ? & ?).
Qed.

Lemma M_fmap_ok {A B} (m : M S A) (f : A -> B) s b s' :
  (f <$> m) s = Ok (b, s') <-> exists a, m s = Ok (a, s') /\ b = f a.
Proof.
  unfold fmap, M_fmap. destruct (m s) as [[a s1]|e]; split.
  - intros [= <- <-]; eauto.
  - by intros (? & [= <- <-] & ->).
  - done.
  - by intros (? & ? & ?).
Qed.

Lemma lift_ok {A} (m : res A) s a s' : lift m s = Ok (a, s') <-> m = Ok a /\ s' = s.
Proof.
  unfold lift. destruct m as [x|e]; simpl; split;
    [by intros [= <- <-]| |done|by intros [? _]].
  by intros [[= ->] ->].
Qed.

Lemma mret_ok {A} (a b : A) s s' : (mret a : M S A) s = Ok (b, s') <-> b = a /\ s' = s.
Proof. unfold mret, M_ret. split; [by intros [= -> ->]|by intros [-> ->]]. Qed.

Lemma gets_ok {A} (f : S -> A) s a s' : gets f s = Ok (a, s') <-> a = f s /\ s' = s.
Proof. unfold gets. split; [by intros [= <- <-]|by intros [-> ->]]. Qed.

Lemma modify_ok (f : S -> S) s u s' : modify f s = Ok (u, s') <-> s' = f s.
Proof. unfold modify. destruct u. split; [by intros [= ->]|by intros ->]. Qed.
End StateMonad.

(** Running the first part of a sequence. *)
Lemma M_bind_step {S A B} (m : M S A) (k : A -> M S B) s a s' :
  m s = Ok (a, s') -> (m ≫= k) s = k a s'.
Proof. intros H. unfold mbind, M_bind. by rewrite H. Qed.
Lemma M_bind_Ok {S A B} (a : A) (k : A -> M S B) s : (lift (Ok a) ≫= k) s = k a s.
Proof. done. Qed.
Lemma M_bind_assoc {S A B C} (m : M S A) (k : A -> M S B) (h : B -> M S C) s :
  ((m ≫= k) ≫= h) s = (m ≫= (fun a => k a ≫= h)) s.
Proof. unfold mbind, M_bind. by destruct (m s) as [[a s']|]. Qed.

Lemma M_bind_ret {S A B} (a : A) (k : A -> M S B) s : (mret a ≫= k) s = k a s.
Proof. done. Qed.

Lemma M_bind_gets {S A B} (f : S -> A) (k : A -> M S B) s : (gets f ≫= k) s = k (f s) s.
Proof. done. Qed.
Lemma M_bind_modify {S B} (f : S -> S) (k : unit -> M S B) s : (modify f ≫= k) s = k tt (f s).
Proof. done. Qed.

(** Take apart a successful computation over a state in the hypotheses. *)
Ltac inv_M :=
  repeat match goal with
  | H : (@mbind (M _) _ _ _ _ _) _ = Ok _ |- _ =>
      let a := fresh "a" in let v := fresh "v" in let E := fresh "E" in
      apply M_bind_ok in H; destruct H as (a & v & E & H)
  | H : (@fmap (M _) _ _ _ _ _) _ = Ok _ |- _ =>
      let a := fresh "a" in let E := fresh "E" in
      apply M_fmap_ok in H; destruct H as (a & E & H)
  | H : lift _ _ = Ok _ |- _ => apply lift_ok in H; destruct H as [H ->]
  | H : gets _ _ = Ok _ |- _ => apply gets_ok in H; destruct H as [H ->]
  | H : modify _ _ = Ok _ |- _ => apply modify_ok in H; subst
  | H : (@mret (M _) _ _ _) _ = Ok _ |- _ => apply mret_ok in H; destruct H as [H ->]
  | H : check _ = Ok _ |- _ => apply check_ok in H
  | H : true = false |- _ => discriminate H
  | H : false = true |- _ => discriminate H
  | H : (_, _) = (_, _) |- _ => injection H; clear H; intros; subst
  end.

(** ** Machine integers

    A [w]-bit unsigned value is a [Z] in [0, 2^w); a signed one is a [Z] in
    [-2^(w-1), 2^(w-1)).  Conversions wrap, as the compilers ART is built with
    do. *)

Definition wrapU (w x : Z) : Z := x mod 2 ^ w.
Definition wrapS (w x : Z) : Z := (x + 2 ^ (w - 1)) mod 2 ^ w - 2 ^ (w - 1).

Definition uint8 (x : Z) : Z := wrapU 8 x.
Definition uint16 (x : Z) : Z := wrapU 16 x.
Definition uint32 (x : Z) : Z := wrapU 32 x.
Definition uint64 (x : Z) : Z := wrapU 64 x.
Definition int8 (x : Z) : Z := wrapS 8 x.
Definition int16 (x : Z) : Z := wrapS 16 x.
Definition int32 (x : Z) : Z := wrapS 32 x.
Definition int64 (x : Z) : Z := wrapS 64 x.

Definition fitsU (w x : Z) : Prop := 0 <= x < 2 ^ w.
Definition fitsS (w x : Z) : Prop := - 2 ^ (w - 1) <= x < 2 ^ (w - 1).

Lemma wrapU_fits w x : 0 <= w -> fitsU w (wrapU w x).
Proof. intros. unfold fitsU, wrapU. apply Z.mod_pos_bound. lia. Qed.

Lemma pow2_half w : 0 < w -> 2 ^ w = 2 * 2 ^ (w - 1).
Proof. intros. rewrite <- Z.pow_succ_r by lia. f_equal; lia. Qed.

Lemma wrapS_fits w x : 0 < w -> fitsS w (wrapS w x).
Proof.
  intros. unfold fitsS, wrapS. pose proof (pow2_half w).
  pose proof (Z.mod_pos_bound (x + 2 ^ (w - 1)) (2 ^ w)). lia.
Qed.

Lemma wrapU_id w x : fitsU w x -> wrapU w x = x.
Proof. apply Z.mod_small. Qed.

Lemma wrapS_id w x : 0 < w -> fitsS w x -> wrapS w x = x.
Proof.
  unfold fitsS, wrapS. intros ? ?. pose proof (pow2_half w).
  rewrite Z.mod_small; lia.
Qed.

Lemma wrapS_wrapU w x : 0 < w -> wrapS w (wrapU w x) = wrapS w x.
Proof. intros. unfold wrapS, wrapU. by rewrite Zplus_mod_idemp_l. Qed.

Lemma wrapU_wrapS w x : 0 < w -> wrapU w (wrapS w x) = wrapU w x.
Proof.
  intros. unfold wrapS, wrapU. rewrite Zminus_mod_idemp_l. f_equal; lia.
Qed.

(** Two values agree at width [w] exactly when their unsigned images do; this
    is how signed results are compared with the unsigned arithmetic they are
    computed by. *)
Lemma wrapS_congr w x y : 0 < w -> wrapU w x = wrapU w y -> wrapS w x = wrapS w y.
Proof.
  intros Hw H. rewrite <- (wrapS_wrapU w x), <- (wrapS_wrapU w y) by done. by rewrite H.
Qed.

(** Replace the named conversions by their arithmetic and let [lia] finish. *)
Ltac unfold_ints :=
  unfold uint8, uint16, uint32, uint64, int8, int16, int32, int64,
    fitsU, fitsS, wrapU, wrapS in *;
  change (2 ^ 8) with 256 in *; change (2 ^ 16) with 65536 in *;
  change (2 ^ 32) with 4294967296 in *;
  change (2 ^ 64) with 18446744073709551616 in *;
  change (2 ^ (8 - 1)) with 128 in *; change (2 ^ (16 - 1)) with 32768 in *;
  change (2 ^ (32 - 1)) with 2147483648 in *;
  change (2 ^ (64 - 1)) with 9223372036854775808 in *.
Ltac int_lia := unfold_ints; Z.div_mod_to_equations; lia.

Lemma uint8_range x : 0 <= uint8 x < 256. Proof. int_lia. Qed.
Lemma uint16_range x : 0 <= uint16 x < 65536. Proof. int_lia. Qed.
Lemma uint32_range x : 0 <= uint32 x < 4294967296. Proof. int_lia. Qed.
Lemma int8_range x : -128 <= int8 x < 128. Proof. int_lia. Qed.
Lemma int16_range x : -32768 <= int16 x < 32768. Proof. int_lia. Qed.
Lemma int32_range x : -2147483648 <= int32 x < 2147483648. Proof. int_lia. Qed.

(** *** Bit fields as arithmetic *)

Lemma land_ones_mod a n : 0 <= n -> Z.land a (Z.ones n) = a mod 2 ^ n.
Proof. intros. by apply Z.land_ones. Qed.

Lemma land_0xf a : Z.land a 0xf = a mod 16.
Proof. change 0xf with (Z.ones 4). by rewrite Z.land_ones. Qed.
Lemma land_0x1f a : Z.land a 0x1f = a mod 32.
Proof. change 0x1f with (Z.ones 5). by rewrite Z.land_ones. Qed.
Lemma land_0x3f a : Z.land a 0x3f = a mod 64.
Proof. change 0x3f with (Z.ones 6). by rewrite Z.land_ones. Qed.
Lemma land_0x7f a : Z.land a 0x7f = a mod 128.
Proof. change 0x7f with (Z.ones 7). by rewrite Z.land_ones. Qed.
Lemma land_0xff a : Z.land a 0xff = a mod 256.
Proof. change 0xff with (Z.ones 8). by rewrite Z.land_ones. Qed.

Lemma shiftl_mul a n : 0 <= n -> Z.shiftl a n = a * 2 ^ n.
Proof. apply Z.shiftl_mul_pow2. Qed.
Lemma shiftr_div a n : 0 <= n -> Z.shiftr a n = a / 2 ^ n.
Proof. apply Z.shiftr_div_pow2. Qed.

Lemma testbit_above a n i : 0 <= a < 2 ^ n -> 0 <= n <= i -> Z.testbit a i = false.
Proof.
  intros Ha Hi. rewrite <- (Z.mod_small a (2 ^ n)) by done.
  apply Z.mod_pow2_bits_high. lia.
Qed.

(** A disjunction of a low part and a shifted part is their sum. *)
Lemma lor_low_high a b n :
  0 <= n -> 0 <= a < 2 ^ n -> Z.lor a (Z.shiftl b n) = a + b * 2 ^ n.
Proof.
  intros Hn Ha. rewrite <- Z.shiftl_mul_pow2 by done.
  enough (Z.land a (Z.shiftl b n) = 0) as H0
    by (rewrite <- Z.add_lor_land; lia).
  apply Z.bits_inj'; intros i Hi. rewrite Z.land_spec, Z.bits_0.
  destruct (Z.lt_ge_cases i n).
  - rewrite Z.shiftl_spec_low by lia. apply andb_false_r.
  - by rewrite (testbit_above a n) by lia.
Qed.

Create Rewrite HintDb bitfield.
#[export] Hint Rewrite land_0xf land_0x1f land_0x3f land_0x7f land_0xff : bitfield.

(** ** Arrays

    C++ arrays are lists indexed by [Z]; an access outside the array is the
    fault [OutOfBounds]. *)

Definition zget {A} (l : list A) (i : Z) : res A :=
  if i <? 0 then Fault OutOfBounds
  else match l !! Z.to_nat i with Some a => Ok a | None => Fault OutOfBounds end.

Definition zset {A} (l : list A) (i : Z) (a : A) : res (list A) :=
  if (i <? 0) || (Z.of_nat (length l) <=? i) then Fault OutOfBounds
  else Ok (<[Z.to_nat i := a]> l).

Abbreviation zlength l := (Z.of_nat (length l)).

Section Arrays.
Context {A : Type}.
Implicit Types l : list A.

Lemma zget_ok l i a : zget l i = Ok a <-> 0 <= i /\ l !! Z.to_nat i = Some a.
Proof.
  unfold zget. destruct (Z.ltb_spec i 0).
  - split; [done|lia].
  - destruct (l !! _); split.
    + intros [= <-]. done.
    + intros [_ [= <-]]. done.
    + done.
    + intros [_ ?]. done.
Qed.

Lemma zget_bounds l i a : zget l i = Ok a -> 0 <= i < zlength l.
Proof. rewrite zget_ok. intros [? ?%lookup_lt_Some]. lia. Qed.

Lemma zget_in_bounds l i : 0 <= i < zlength l -> exists a, zget l i = Ok a.
Proof.
  intros ?. destruct (lookup_lt_is_Some_2 l (Z.to_nat i)) as [a ?]; [lia|].
  exists a. apply zget_ok. split; [lia|done].
Qed.

Lemma zset_ok l i a l' :
  zset l i a = Ok l' <-> 0 <= i < zlength l /\ l' = <[Z.to_nat i := a]> l.
Proof.
  unfold zset. destruct (Z.ltb_spec i 0); simpl; [split; [done|lia]|].
  destruct (Z.leb_spec (zlength l) i); simpl; split.
  - done.
  - lia.
  - intros [= <-]. split; [lia|done].
  - intros [_ ->]. done.
Qed.

Lemma zset_in_bounds l i a : 0 <= i < zlength l -> zset l i a = Ok (<[Z.to_nat i := a]> l).
Proof. intros. apply zset_ok. split; [lia|done]. Qed.

Lemma zset_length l i a l' : zset l i a = Ok l' -> length l' = length l.
Proof. rewrite zset_ok. intros [_ ->]. apply length_insert. Qed.

Lemma zget_zset_eq l i a l' : zset l i a = Ok l' -> zget l' i = Ok a.
Proof.
  rewrite zset_ok, zget_ok. intros [? ->]. split; [lia|].
  apply list_lookup_insert_eq. lia.
Qed.

Lemma zget_zset_ne l i j a l' : zset l i a = Ok l' -> i <> j -> zget l' j = zget l j.
Proof.
  rewrite zset_ok. intros [? ->] ?. unfold zget. destruct (Z.ltb_spec j 0); [done|].
  rewrite list_lookup_insert_ne by lia. done.
Qed.

Lemma zget_app_l l1 l2 i : i < zlength l1 -> zget (l1 ++ l2) i = zget l1 i.
Proof.
  intros. unfold zget. destruct (Z.ltb_spec i 0); [done|].
  rewrite lookup_app_l by lia. done.
Qed.
End Arrays.

Lemma zget_Forall {A} (P : A -> Prop) l i a : Forall P l -> zget l i = Ok a -> P a.
Proof. rewrite zget_ok. intros HF [_ Hl]. by eapply Forall_lookup_1. Qed.
