(* ===== verification/Modifiers.v ===== *)
(** * Access flags (runtime/modifiers.h) and kinds of calls (runtime/invoke_type.h)

    The bits of the access flags of classes, fields and methods that the modelled
    code tests. *)

From S2P Require Import Prelude.

Definition kAccStatic : Z := 0x0008.
Definition kAccVolatile : Z := 0x0040.
Definition kAccNative : Z := 0x0100.
Definition kAccInterface : Z := 0x0200.
Definition kAccAbstract : Z := 0x0400.
Definition kAccConstructor : Z := 0x00010000.
Definition kAccClassIsFinalizable : Z := 0x80000000.

Definition has_access (flags bit : Z) : bool := negb (Z.land flags bit =? 0).

Inductive InvokeType : Type := kStatic | kDirect | kVirtual | kSuper | kInterface.

#[export] Instance InvokeType_eq_dec : EqDecision InvokeType.
Proof. solve_decision. Defined.
