(* ===== verification/Leb128.v ===== *)
(** * LEB128 (runtime/leb128.h)

    The variable-length integers of the dex format: the decoders that advance a
    data pointer, the encoders, and the size functions that predict how many
    bytes an encoder writes.  A data pointer [const uint8_t*] is the list of
    bytes from it to the end of the buffer; reading past the end is the fault
    [OutOfBounds].  An output position is the list of bytes written so far. *)

From S2P Require Import Prelude.

(** [*(ptr++)] *)
Definition next_byte (ptr : list Z) : res (Z * list Z) :=
  match ptr with
  | b :: ptr => Ok (b, ptr)
  | [] => Fault OutOfBounds
  end.

Definition DecodeUnsignedLeb128 (data : list Z) : res (Z * list Z) :=
  '(result, ptr) ← next_byte data;
  if result >? 0x7f then
    '(cur, ptr) ← next_byte ptr;
    let result := Z.lor (Z.land result 0x7f) (Z.shiftl (Z.land cur 0x7f) 7) in
    if cur >? 0x7f then
      '(cur, ptr) ← next_byte ptr;
      let result := Z.lor result (Z.shiftl (Z.land cur 0x7f) 14) in
      if cur >? 0x7f then
        '(cur, ptr) ← next_byte ptr;
        let result := Z.lor result (Z.shiftl (Z.land cur 0x7f) 21) in
        if cur >? 0x7f then
          '(cur, ptr) ← next_byte ptr;
          let result := Z.lor result (int32 (Z.shiftl cur 28)) in
          Ok (uint32 result, ptr)
        else Ok (uint32 result, ptr)
      else Ok (uint32 result, ptr)
    else Ok (uint32 result, ptr)
  else Ok (uint32 result, ptr).

Definition DecodeUnsignedLeb128P1 (data : list Z) : res (Z * list Z) :=
  '(v, ptr) ← DecodeUnsignedLeb128 data;
  Ok (int32 (v - 1), ptr).

(** [(result << n) >> n] on an [int32_t]: sign extension from bit [31 - n]. *)
Definition sign_extend_from (result n : Z) : Z := Z.shiftr (int32 (Z.shiftl result n)) n.

Definition DecodeSignedLeb128 (data : list Z) : res (Z * list Z) :=
  '(result, ptr) ← next_byte data;
  if result <=? 0x7f then Ok (sign_extend_from result 25, ptr)
  else
    '(cur, ptr) ← next_byte ptr;
    let result := Z.lor (Z.land result 0x7f) (Z.shiftl (Z.land cur 0x7f) 7) in
    if cur <=? 0x7f then Ok (sign_extend_from result 18, ptr)
    else
      '(cur, ptr) ← next_byte ptr;
      let result := Z.lor result (Z.shiftl (Z.land cur 0x7f) 14) in
      if cur <=? 0x7f then Ok (sign_extend_from result 11, ptr)
      else
        '(cur, ptr) ← next_byte ptr;
        let result := Z.lor result (Z.shiftl (Z.land cur 0x7f) 21) in
        if cur <=? 0x7f then Ok (sign_extend_from result 4, ptr)
        else
          '(cur, ptr) ← next_byte ptr;
          Ok (Z.lor result (int32 (Z.shiftl cur 28)), ptr).

(** [CLZ] of utils.h at 32 bits, defined for a non-zero argument. *)
Definition CLZ (x : Z) : Z := 31 - Z.log2 x.

Definition UnsignedLeb128Size (data : Z) : Z :=
  let x := 6 + 32 - CLZ (Z.lor data 1) in
  Z.shiftr (x * 37) 8.

Definition SignedLeb128Size (data : Z) : Z :=
  let data := Z.lxor data (Z.shiftr data 31) in
  let x := 1 + 6 + 32 - CLZ (Z.lor data 1) in
  Z.shiftr (x * 37) 8.

(** The loop of [EncodeUnsignedLeb128] and of [Leb128Encoder::PushBackUnsigned];
    it runs at most four times on a 32-bit value. *)
Fixpoint unsigned_loop (fuel : nat) (out value : Z) : res (list Z) :=
  match fuel with
  | O => Fault OutOfFuel
  | S fuel =>
      if value =? 0 then Ok [out]
      else
        rest ← unsigned_loop fuel (Z.land value 0x7f) (Z.shiftr value 7);
        Ok (Z.lor out 0x80 :: rest)
  end.

(** The loop of [EncodeSignedLeb128] and of [Leb128Encoder::PushBackSigned]. *)
Fixpoint signed_loop (fuel : nat) (out value extra_bits : Z) : res (list Z) :=
  match fuel with
  | O => Fault OutOfFuel
  | S fuel =>
      if extra_bits =? 0 then Ok [out]
      else
        let value := Z.shiftr value 7 in
        rest ← signed_loop fuel (Z.land value 0x7f) value (Z.shiftr extra_bits 7);
        Ok (Z.lor out 0x80 :: rest)
  end.

Definition EncodeUnsignedLeb128 (dest : list Z) (value : Z) : res (list Z) :=
  bytes ← unsigned_loop 5 (Z.land value 0x7f) (Z.shiftr value 7);
  Ok (dest ++ bytes).

Definition EncodeSignedLeb128 (dest : list Z) (value : Z) : res (list Z) :=
  let extra_bits := Z.shiftr (uint32 (Z.lxor value (Z.shiftr value 31))) 6 in
  bytes ← signed_loop 5 (Z.land value 0x7f) value extra_bits;
  Ok (dest ++ bytes).

Module Leb128Encoder.
(** [data_]: the vector the encoder pushes to. *)
Definition PushBackUnsigned (data : list Z) (value : Z) : res (list Z) :=
  bytes ← unsigned_loop 5 (Z.land value 0x7f) (Z.shiftr value 7);
  Ok (data ++ bytes).

Definition PushBackSigned (data : list Z) (value : Z) : res (list Z) :=
  let extra_bits := Z.shiftr (uint32 (Z.lxor value (Z.shiftr value 31))) 6 in
  bytes ← signed_loop 5 (Z.land value 0x7f) value extra_bits;
  Ok (data ++ bytes).

Fixpoint InsertBackUnsigned (data : list Z) (values : list Z) : res (list Z) :=
  match values with
  | [] => Ok data
  | cur :: values => data ← PushBackUnsigned data cur; InsertBackUnsigned data values
  end.

Fixpoint InsertBackSigned (data : list Z) (values : list Z) : res (list Z) :=
  match values with
  | [] => Ok data
  | cur :: values => data ← PushBackSigned data cur; InsertBackSigned data values
  end.
End Leb128Encoder.

(** Read [n] values one after the other, as the users of the encoded vectors do. *)
Fixpoint decode_many (decode : list Z -> res (Z * list Z)) (n : nat) (data : list Z)
    : res (list Z * list Z) :=
  match n with
  | O => Ok ([], data)
  | S n =>
      '(v, data) ← decode data;
      '(vs, data) ← decode_many decode n data;
      Ok (v :: vs, data)
  end.

Example uleb_624485 : EncodeUnsignedLeb128 [] 624485 = Ok [0xE5; 0x8E; 0x26].
Proof. reflexivity. Qed.
Example sleb_m128 : EncodeSignedLeb128 [] (-128) = Ok [0x80; 0x7f].
Proof. reflexivity. Qed.
Example sleb_dec : DecodeSignedLeb128 [0x80; 0x7f; 9] = Ok (-128, [9]).
Proof. reflexivity. Qed.

(** ** Arithmetic of the septets *)

Lemma set_continuation b : 0 <= b < 128 -> Z.lor b 0x80 = b + 128.
Proof. intros. change (Z.lor b 0x80) with (Z.lor b (Z.shiftl 1 7)). rewrite lor_low_high; lia. Qed.

Lemma drop_continuation b : 0 <= b < 128 -> Z.land (b + 128) 0x7f = b.
Proof. intros. rewrite land_0x7f. rewrite <- (Z.mod_small b 128) at 2 by done.
  by rewrite <- (Z_mod_plus_full b 1 128). Qed.

Lemma septet_range x : 0 <= Z.land x 0x7f < 128.
Proof. rewrite land_0x7f. apply Z.mod_pos_bound. lia. Qed.

Lemma shiftr7_div x : Z.shiftr x 7 = x / 128.
Proof. by rewrite Z.shiftr_div_pow2. Qed.

(** Evaluate a decoder on bytes that are given as sums: settle each
    continuation test, drop the continuation bits and turn the disjunctions
    into sums. *)
Ltac leb_tests :=
  repeat match goal with
  | |- context [?a >? ?b] => rewrite (proj2 (Z.gtb_lt a b)) by lia
  | |- context [?a >? ?b] =>
      replace (a >? b) with false by (symmetry; rewrite Z.gtb_ltb; apply Z.ltb_ge; lia)
  | |- context [?a <=? ?b] => rewrite (proj2 (Z.leb_le a b)) by lia
  | |- context [?a <=? ?b] => rewrite (proj2 (Z.leb_gt a b)) by lia
  end.
Ltac leb_sums :=
  rewrite ?drop_continuation by lia;
  rewrite ?(land_0x7f _), ?(Z.mod_small _ 128) by lia;
  repeat match goal with
  | |- context [Z.lor ?x (Z.shiftl ?y ?n)] =>
      lazymatch x with context [Z.lor] => fail | _ => rewrite (lor_low_high x y n) by lia end
  end.

Section Decode.
Context (rest : list Z).

Lemma decode_unsigned_1 a : 0 <= a < 128 ->
  DecodeUnsignedLeb128 (a :: rest) = Ok (a, rest).
Proof. intros. unfold DecodeUnsignedLeb128; simpl. leb_tests. do 2 f_equal. int_lia. Qed.

Lemma decode_unsigned_2 a b : 0 <= a < 128 -> 0 <= b < 128 ->
  DecodeUnsignedLeb128 (a + 128 :: b :: rest) = Ok (a + b * 128, rest).
Proof.
  intros. unfold DecodeUnsignedLeb128; simpl. leb_tests. leb_sums. do 2 f_equal. int_lia.
Qed.

Lemma decode_unsigned_3 a b c : 0 <= a < 128 -> 0 <= b < 128 -> 0 <= c < 128 ->
  DecodeUnsignedLeb128 (a + 128 :: b + 128 :: c :: rest) =
    Ok (a + b * 128 + c * 16384, rest).
Proof.
  intros. unfold DecodeUnsignedLeb128; simpl. leb_tests. leb_sums. do 2 f_equal. int_lia.
Qed.

Lemma decode_unsigned_4 a b c d :
  0 <= a < 128 -> 0 <= b < 128 -> 0 <= c < 128 -> 0 <= d < 128 ->
  DecodeUnsignedLeb128 (a + 128 :: b + 128 :: c + 128 :: d :: rest) =
    Ok (a + b * 128 + c * 16384 + d * 2097152, rest).
Proof.
  intros. unfold DecodeUnsignedLeb128; simpl. leb_tests. leb_sums. do 2 f_equal. int_lia.
Qed.

Lemma fifth_septet e : int32 (Z.shiftl e 28) = Z.shiftl (wrapS 4 e) 28.
Proof.
  rewrite !Z.shiftl_mul_pow2 by lia. unfold_ints. change (2 ^ 4) with 16.
  change (2 ^ (4 - 1)) with 8. change (2 ^ 28) with 268435456.
  Z.div_mod_to_equations. lia.
Qed.

(** The fifth byte may carry garbage above its low four bits. *)
Lemma decode_unsigned_5 a b c d e :
  0 <= a < 128 -> 0 <= b < 128 -> 0 <= c < 128 -> 0 <= d < 128 ->
  DecodeUnsignedLeb128 (a + 128 :: b + 128 :: c + 128 :: d + 128 :: e :: rest) =
    Ok (a + b * 128 + c * 16384 + d * 2097152 + (e mod 16) * 268435456, rest).
Proof.
  intros. unfold DecodeUnsignedLeb128; simpl. leb_tests. rewrite fifth_septet. leb_sums.
  do 2 f_equal. unfold wrapS. change (2 ^ 4) with 16. change (2 ^ (4 - 1)) with 8.
  int_lia.
Qed.

Lemma sign_extend_from_wrapS r n :
  n = 25 \/ n = 18 \/ n = 11 \/ n = 4 -> sign_extend_from r n = wrapS (32 - n) r.
Proof.
  intros Hn. unfold sign_extend_from.
  rewrite Z.shiftl_mul_pow2, Z.shiftr_div_pow2 by lia. unfold_ints.
  destruct Hn as [->|[->|[->| ->]]]; simpl; Z.div_mod_to_equations; lia.
Qed.

Lemma decode_signed_1 a : 0 <= a < 128 ->
  DecodeSignedLeb128 (a :: rest) = Ok (wrapS 7 a, rest).
Proof.
  intros. unfold DecodeSignedLeb128; simpl. leb_tests.
  by rewrite sign_extend_from_wrapS by lia.
Qed.

Lemma decode_signed_2 a b : 0 <= a < 128 -> 0 <= b < 128 ->
  DecodeSignedLeb128 (a + 128 :: b :: rest) = Ok (wrapS 14 (a + b * 128), rest).
Proof.
  intros. unfold DecodeSignedLeb128; simpl. leb_tests. leb_sums.
  by rewrite sign_extend_from_wrapS by lia.
Qed.

Lemma decode_signed_3 a b c : 0 <= a < 128 -> 0 <= b < 128 -> 0 <= c < 128 ->
  DecodeSignedLeb128 (a + 128 :: b + 128 :: c :: rest) =
    Ok (wrapS 21 (a + b * 128 + c * 16384), rest).
Proof.
  intros. unfold DecodeSignedLeb128; simpl. leb_tests. leb_sums.
  by rewrite sign_extend_from_wrapS by lia.
Qed.

Lemma decode_signed_4 a b c d :
  0 <= a < 128 -> 0 <= b < 128 -> 0 <= c < 128 -> 0 <= d < 128 ->
  DecodeSignedLeb128 (a + 128 :: b + 128 :: c + 128 :: d :: rest) =
    Ok (wrapS 28 (a + b * 128 + c * 16384 + d * 2097152), rest).
Proof.
  intros. unfold DecodeSignedLeb128; simpl. leb_tests. leb_sums.
  by rewrite sign_extend_from_wrapS by lia.
Qed.

Lemma decode_signed_5 a b c d e :
  0 <= a < 128 -> 0 <= b < 128 -> 0 <= c < 128 -> 0 <= d < 128 ->
  DecodeSignedLeb128 (a + 128 :: b + 128 :: c + 128 :: d + 128 :: e :: rest) =
    Ok (a + b * 128 + c * 16384 + d * 2097152 + wrapS 4 e * 268435456, rest).
Proof.
  intros. unfold DecodeSignedLeb128; simpl. leb_tests. rewrite fifth_septet. by leb_sums.
Qed.
End Decode.

(** ** What the encoders write *)

Lemma unsigned_loop_done fuel out : unsigned_loop (S fuel) out 0 = Ok [out].
Proof. done. Qed.

Lemma unsigned_loop_more fuel out value :
  0 <= out < 128 -> value <> 0 ->
  unsigned_loop (S fuel) out value =
    cons (out + 128) <$> unsigned_loop fuel (value mod 128) (value / 128).
Proof.
  intros ? ?. simpl. rewrite (proj2 (Z.eqb_neq value 0)) by done.
  rewrite set_continuation, land_0x7f, shiftr7_div by done. by destruct (unsigned_loop _ _ _).
Qed.

Lemma signed_loop_done fuel out value : signed_loop (S fuel) out value 0 = Ok [out].
Proof. done. Qed.

Lemma signed_loop_more fuel out value extra :
  0 <= out < 128 -> extra <> 0 ->
  signed_loop (S fuel) out value extra =
    cons (out + 128) <$> signed_loop fuel ((value / 128) mod 128) (value / 128) (extra / 128).
Proof.
  intros ? ?. simpl. rewrite (proj2 (Z.eqb_neq extra 0)) by done.
  rewrite set_continuation, land_0x7f, !shiftr7_div by done. by destruct (signed_loop _ _ _ _).
Qed.

(** [value ^ (value >> 31)] is the value with its sign folded away. *)
Lemma fold_sign v : fitsS 32 v -> Z.lxor v (Z.shiftr v 31) = if v <? 0 then - v - 1 else v.
Proof.
  intros Hv. rewrite Z.shiftr_div_pow2 by lia. destruct (Z.ltb_spec v 0).
  - replace (v / 2 ^ 31) with (-1) by int_lia. rewrite Z.lxor_m1_r. unfold Z.lnot. lia.
  - replace (v / 2 ^ 31) with 0 by int_lia. apply Z.lxor_0_r.
Qed.

Lemma log2_lor_1 m k : 0 <= m -> 0 <= k -> m < 2 ^ k -> 0 < k -> Z.log2 (Z.lor m 1) < k.
Proof.
  intros. rewrite Z.log2_lor by lia. change (Z.log2 1) with 0.
  destruct (Z.eq_dec m 0) as [->|]; [simpl; lia|].
  pose proof (proj1 (Z.log2_lt_pow2 m k ltac:(lia))). lia.
Qed.

Lemma log2_lor_1_ge m k : 0 <= k -> 2 ^ k <= m -> k <= Z.log2 (Z.lor m 1).
Proof.
  intros. rewrite Z.log2_lor by lia. change (Z.log2 1) with 0.
  pose proof (proj1 (Z.log2_le_pow2 m k ltac:(lia))). lia.
Qed.

(** The size functions divide by seven with a multiplication; on the range of
    bit counts that occurs the result is exact. *)
Lemma unsigned_size_cases v k :
  0 <= v -> 0 <= k < 5 -> (k = 0 \/ 2 ^ (7 * k) <= v) -> v < 2 ^ (7 * (k + 1)) ->
  UnsignedLeb128Size v = k + 1.
Proof.
  intros Hv Hk Hlo Hhi. unfold UnsignedLeb128Size, CLZ. rewrite Z.shiftr_div_pow2 by lia.
  pose proof (log2_lor_1 v (7 * (k + 1)) Hv ltac:(lia) Hhi ltac:(lia)).
  assert (7 * k <= Z.log2 (Z.lor v 1)).
  { destruct Hlo as [->|]; [apply Z.log2_nonneg|]. by apply log2_lor_1_ge; [lia|]. }
  change (2 ^ 8) with 256. Z.div_mod_to_equations. lia.
Qed.

Lemma signed_size_cases v k :
  fitsS 32 v -> 0 <= k < 5 ->
  (k = 0 \/ 2 ^ (7 * k - 1) <= (if v <? 0 then - v - 1 else v)) ->
  (if v <? 0 then - v - 1 else v) < 2 ^ (7 * (k + 1) - 1) ->
  SignedLeb128Size v = k + 1.
Proof.
  intros Hv Hk Hlo Hhi. unfold SignedLeb128Size, CLZ. rewrite fold_sign by done.
  set (m := if v <? 0 then - v - 1 else v) in *.
  assert (0 <= m) by (subst m; destruct (Z.ltb_spec v 0); lia).
  rewrite Z.shiftr_div_pow2 by lia.
  pose proof (log2_lor_1 m (7 * (k + 1) - 1) ltac:(lia) ltac:(lia) Hhi ltac:(lia)).
  assert (7 * k - 1 <= Z.log2 (Z.lor m 1)).
  { destruct Hlo as [->|]; [pose proof (Z.log2_nonneg (Z.lor m 1)); lia|].
    destruct (Z.eq_dec k 0) as [->|]; [pose proof (Z.log2_nonneg (Z.lor m 1)); lia|].
    by apply log2_lor_1_ge; [lia|]. }
  change (2 ^ 8) with 256. Z.div_mod_to_equations. lia.
Qed.

Ltac leb_arith := unfold wrapS; simpl; Z.div_mod_to_equations; lia.

(** One more septet is written; the loop ends; the bytes decode to the value. *)
Ltac leb_more :=
  repeat first
    [ rewrite unsigned_loop_more by leb_arith | rewrite signed_loop_more by leb_arith ].
Ltac leb_done :=
  match goal with
  | |- context [unsigned_loop (S ?f) ?o ?v] =>
      replace v with 0 by leb_arith; rewrite (unsigned_loop_done f o)
  | |- context [signed_loop (S ?f) ?o ?v ?e] =>
      replace e with 0 by leb_arith; rewrite (signed_loop_done f o v)
  end.
Ltac leb_case size decode :=
  leb_more; leb_done; eexists; split_and!;
  [ done | by rewrite size by lia | repeat constructor; leb_arith
  | intros rest; simpl; rewrite decode by leb_arith; do 2 f_equal; leb_arith ].

Lemma unsigned_bytes v :
  fitsU 32 v ->
  exists bytes, unsigned_loop 5 (Z.land v 0x7f) (Z.shiftr v 7) = Ok bytes /\
    Z.of_nat (length bytes) = UnsignedLeb128Size v /\
    Forall (fun b => 0 <= b < 256) bytes /\
    forall rest, DecodeUnsignedLeb128 (bytes ++ rest) = Ok (v, rest).
Proof.
  intros Hv. unfold fitsU in Hv. rewrite land_0x7f, shiftr7_div.
  destruct (Z.lt_ge_cases v 128); [|destruct (Z.lt_ge_cases v 16384);
    [|destruct (Z.lt_ge_cases v 2097152); [|destruct (Z.lt_ge_cases v 268435456)]]].
  - leb_case (unsigned_size_cases v 0) decode_unsigned_1.
  - leb_case (unsigned_size_cases v 1) decode_unsigned_2.
  - leb_case (unsigned_size_cases v 2) decode_unsigned_3.
  - leb_case (unsigned_size_cases v 3) decode_unsigned_4.
  - leb_case (unsigned_size_cases v 4) decode_unsigned_5.
Qed.

Lemma signed_bytes v :
  fitsS 32 v ->
  exists bytes,
    signed_loop 5 (Z.land v 0x7f) v
      (Z.shiftr (uint32 (Z.lxor v (Z.shiftr v 31))) 6) = Ok bytes /\
    Z.of_nat (length bytes) = SignedLeb128Size v /\
    Forall (fun b => 0 <= b < 256) bytes /\
    forall rest, DecodeSignedLeb128 (bytes ++ rest) = Ok (v, rest).
Proof.
  intros Hv. rewrite land_0x7f, fold_sign, Z.shiftr_div_pow2 by (done || lia).
  pose proof (signed_size_cases v) as Hsize. specialize (fun k => Hsize k Hv).
  set (m := if v <? 0 then - v - 1 else v) in *.
  assert (Hm : v < 0 /\ m = - v - 1 \/ 0 <= v /\ m = v)
    by (subst m; destruct (Z.ltb_spec v 0); lia).
  clearbody m. unfold fitsS in Hv. change (2 ^ (32 - 1)) with 2147483648 in Hv.
  replace (uint32 m) with m by int_lia.
  destruct (Z.lt_ge_cases m 64); [|destruct (Z.lt_ge_cases m 8192);
    [|destruct (Z.lt_ge_cases m 1048576); [|destruct (Z.lt_ge_cases m 134217728)]]].
  - leb_case (Hsize 0) decode_signed_1.
  - leb_case (Hsize 1) decode_signed_2.
  - leb_case (Hsize 2) decode_signed_3.
  - leb_case (Hsize 3) decode_signed_4.
  - leb_case (Hsize 4) decode_signed_5.
Qed.

#[global] Arguments DecodeUnsignedLeb128 : simpl never.
#[global] Arguments DecodeSignedLeb128 : simpl never.

Definition sum_sizes (size : Z -> Z) (values : list Z) : Z :=
  foldr (fun v acc => size v + acc) 0 values.

Lemma unsigned_vector values :
  Forall (fitsU 32) values ->
  exists bytes,
    (forall data, Leb128Encoder.InsertBackUnsigned data values = Ok (data ++ bytes)) /\
    Z.of_nat (length bytes) = sum_sizes UnsignedLeb128Size values /\
    forall rest,
      decode_many DecodeUnsignedLeb128 (length values) (bytes ++ rest) = Ok (values, rest).
Proof.
  induction 1 as [|v vs Hv Hvs (tl & Hins & Hlen & Hdec)].
  - exists []. split_and!; [|done..]. intros data. simpl. by rewrite app_nil_r.
  - destruct (unsigned_bytes v Hv) as (hd & Hhd & Hsz & _ & Hd).
    exists (hd ++ tl). split_and!.
    + intros data. simpl. unfold Leb128Encoder.PushBackUnsigned. rewrite Hhd. simpl.
      by rewrite Hins, <- app_assoc.
    + rewrite length_app. unfold sum_sizes in *. simpl. lia.
    + intros rest. simpl. rewrite <- app_assoc, Hd. simpl. by rewrite Hdec.
Qed.

(** C30: a [Leb128Encoder] fed any sequence of 32-bit values terminates and appends
    exactly as many bytes as [UnsignedLeb128Size] announces for them, and
    [DecodeUnsignedLeb128] applied once per value reads the same sequence back,
    stopping at whatever follows in the buffer. *)
Theorem leb128_unsigned_vector_roundtrip (data values rest : list Z) :
  Forall (fitsU 32) values ->
  exists bytes,
    Leb128Encoder.InsertBackUnsigned data values = Ok (data ++ bytes) /\
    Z.of_nat (length bytes) = sum_sizes UnsignedLeb128Size values /\
    decode_many DecodeUnsignedLeb128 (length values) (bytes ++ rest) = Ok (values, rest).
Proof.
  intros Hvs. destruct (unsigned_vector values Hvs) as (bytes & Hins & Hlen & Hdec). eauto.
Qed.

(** Encoding any 32-bit signed value terminates, writes exactly
    [SignedLeb128Size] bytes, and [DecodeSignedLeb128] reads the value back and
    leaves the data pointer just past it. *)
Theorem leb128_signed_roundtrip (dest rest : list Z) (value : Z) :
  fitsS 32 value ->
  exists bytes,
    EncodeSignedLeb128 dest value = Ok (dest ++ bytes) /\
    Z.of_nat (length bytes) = SignedLeb128Size value /\
    DecodeSignedLeb128 (bytes ++ rest) = Ok (value, rest).
Proof.
  intros Hv. destruct (signed_bytes value Hv) as (bytes & He & Hs & _ & Hd).
  exists bytes. unfold EncodeSignedLeb128. rewrite He. by split_and!.
Qed.

(** Witnesses: the theorems at concrete inputs. *)
Example leb128_unsigned_vector_roundtrip_witness :
  exists bytes,
    Leb128Encoder.InsertBackUnsigned [7] [0; 300; 4294967295] = Ok ([7] ++ bytes) /\
    Z.of_nat (length bytes) = sum_sizes UnsignedLeb128Size [0; 300; 4294967295] /\
    decode_many DecodeUnsignedLeb128 3 (bytes ++ [9]) = Ok ([0; 300; 4294967295], [9]).
Proof.
  apply (leb128_unsigned_vector_roundtrip [7] [0; 300; 4294967295] [9]).
  repeat constructor; unfold fitsU; simpl; lia.
Defined.

Example leb128_signed_roundtrip_witness :
  exists bytes,
    EncodeSignedLeb128 [] (-2147483648) = Ok ([] ++ bytes) /\
    Z.of_nat (length bytes) = SignedLeb128Size (-2147483648) /\
    DecodeSignedLeb128 (bytes ++ [1]) = Ok (-2147483648, [1]).
Proof.
  apply (leb128_signed_roundtrip [] [1] (-2147483648)). unfold fitsS; simpl; lia.
Defined.
