(* ===== verification/DexOpcodes.v ===== *)
(** * The Dalvik instruction set (runtime/dex_instruction_list.h)

    The enumeration of the 256 opcodes, the 24 instruction formats, the
    property flags, and the table [DEX_INSTRUCTION_LIST] that gives every opcode
    its mnemonic, format, flags and verification flags, row for row. *)

From stdpp Require Import strings.
From S2P Require Import Prelude.

(** [Instruction::Code], the enumeration generated by [INSTRUCTION_ENUM]. *)
Inductive Code : Type :=
  | NOP | MOVE | MOVE_FROM16 | MOVE_16 | MOVE_WIDE | MOVE_WIDE_FROM16 | MOVE_WIDE_16
  | MOVE_OBJECT | MOVE_OBJECT_FROM16 | MOVE_OBJECT_16 | MOVE_RESULT | MOVE_RESULT_WIDE
  | MOVE_RESULT_OBJECT | MOVE_EXCEPTION | RETURN_VOID | RETURN | RETURN_WIDE
  | RETURN_OBJECT | CONST_4 | CONST_16 | CONST | CONST_HIGH16 | CONST_WIDE_16
  | CONST_WIDE_32 | CONST_WIDE | CONST_WIDE_HIGH16 | CONST_STRING | CONST_STRING_JUMBO
  | CONST_CLASS | MONITOR_ENTER | MONITOR_EXIT | CHECK_CAST | INSTANCE_OF
  | ARRAY_LENGTH | NEW_INSTANCE | NEW_ARRAY | FILLED_NEW_ARRAY | FILLED_NEW_ARRAY_RANGE
  | FILL_ARRAY_DATA | THROW | GOTO | GOTO_16 | GOTO_32 | PACKED_SWITCH | SPARSE_SWITCH
  | CMPL_FLOAT | CMPG_FLOAT | CMPL_DOUBLE | CMPG_DOUBLE | CMP_LONG | IF_EQ | IF_NE
  | IF_LT | IF_GE | IF_GT | IF_LE | IF_EQZ | IF_NEZ | IF_LTZ | IF_GEZ | IF_GTZ | IF_LEZ
  | UNUSED_3E | UNUSED_3F | UNUSED_40 | UNUSED_41 | UNUSED_42 | UNUSED_43 | AGET
  | AGET_WIDE | AGET_OBJECT | AGET_BOOLEAN | AGET_BYTE | AGET_CHAR | AGET_SHORT | APUT
  | APUT_WIDE | APUT_OBJECT | APUT_BOOLEAN | APUT_BYTE | APUT_CHAR | APUT_SHORT | IGET
  | IGET_WIDE | IGET_OBJECT | IGET_BOOLEAN | IGET_BYTE | IGET_CHAR | IGET_SHORT | IPUT
  | IPUT_WIDE | IPUT_OBJECT | IPUT_BOOLEAN | IPUT_BYTE | IPUT_CHAR | IPUT_SHORT | SGET
  | SGET_WIDE | SGET_OBJECT | SGET_BOOLEAN | SGET_BYTE | SGET_CHAR | SGET_SHORT | SPUT
  | SPUT_WIDE | SPUT_OBJECT | SPUT_BOOLEAN | SPUT_BYTE | SPUT_CHAR | SPUT_SHORT
  | INVOKE_VIRTUAL | INVOKE_SUPER | INVOKE_DIRECT | INVOKE_STATIC | INVOKE_INTERFACE
  | RETURN_VOID_BARRIER | INVOKE_VIRTUAL_RANGE | INVOKE_SUPER_RANGE
  | INVOKE_DIRECT_RANGE | INVOKE_STATIC_RANGE | INVOKE_INTERFACE_RANGE | UNUSED_79
  | UNUSED_7A | NEG_INT | NOT_INT | NEG_LONG | NOT_LONG | NEG_FLOAT | NEG_DOUBLE
  | INT_TO_LONG | INT_TO_FLOAT | INT_TO_DOUBLE | LONG_TO_INT | LONG_TO_FLOAT
  | LONG_TO_DOUBLE | FLOAT_TO_INT | FLOAT_TO_LONG | FLOAT_TO_DOUBLE | DOUBLE_TO_INT
  | DOUBLE_TO_LONG | DOUBLE_TO_FLOAT | INT_TO_BYTE | INT_TO_CHAR | INT_TO_SHORT
  | ADD_INT | SUB_INT | MUL_INT | DIV_INT | REM_INT | AND_INT | OR_INT | XOR_INT
  | SHL_INT | SHR_INT | USHR_INT | ADD_LONG | SUB_LONG | MUL_LONG | DIV_LONG | REM_LONG
  | AND_LONG | OR_LONG | XOR_LONG | SHL_LONG | SHR_LONG | USHR_LONG | ADD_FLOAT
  | SUB_FLOAT | MUL_FLOAT | DIV_FLOAT | REM_FLOAT | ADD_DOUBLE | SUB_DOUBLE
  | MUL_DOUBLE | DIV_DOUBLE | REM_DOUBLE | ADD_INT_2ADDR | SUB_INT_2ADDR
  | MUL_INT_2ADDR | DIV_INT_2ADDR | REM_INT_2ADDR | AND_INT_2ADDR | OR_INT_2ADDR
  | XOR_INT_2ADDR | SHL_INT_2ADDR | SHR_INT_2ADDR | USHR_INT_2ADDR | ADD_LONG_2ADDR
  | SUB_LONG_2ADDR | MUL_LONG_2ADDR | DIV_LONG_2ADDR | REM_LONG_2ADDR | AND_LONG_2ADDR
  | OR_LONG_2ADDR | XOR_LONG_2ADDR | SHL_LONG_2ADDR | SHR_LONG_2ADDR | USHR_LONG_2ADDR
  | ADD_FLOAT_2ADDR | SUB_FLOAT_2ADDR | MUL_FLOAT_2ADDR | DIV_FLOAT_2ADDR
  | REM_FLOAT_2ADDR | ADD_DOUBLE_2ADDR | SUB_DOUBLE_2ADDR | MUL_DOUBLE_2ADDR
  | DIV_DOUBLE_2ADDR | REM_DOUBLE_2ADDR | ADD_INT_LIT16 | RSUB_INT | MUL_INT_LIT16
  | DIV_INT_LIT16 | REM_INT_LIT16 | AND_INT_LIT16 | OR_INT_LIT16 | XOR_INT_LIT16
  | ADD_INT_LIT8 | RSUB_INT_LIT8 | MUL_INT_LIT8 | DIV_INT_LIT8 | REM_INT_LIT8
  | AND_INT_LIT8 | OR_INT_LIT8 | XOR_INT_LIT8 | SHL_INT_LIT8 | SHR_INT_LIT8
  | USHR_INT_LIT8 | IGET_QUICK | IGET_WIDE_QUICK | IGET_OBJECT_QUICK | IPUT_QUICK
  | IPUT_WIDE_QUICK | IPUT_OBJECT_QUICK | INVOKE_VIRTUAL_QUICK
  | INVOKE_VIRTUAL_RANGE_QUICK | IPUT_BOOLEAN_QUICK | IPUT_BYTE_QUICK | IPUT_CHAR_QUICK
  | IPUT_SHORT_QUICK | UNUSED_EF | UNUSED_F0 | UNUSED_F1 | UNUSED_F2 | UNUSED_F3
  | UNUSED_F4 | UNUSED_F5 | UNUSED_F6 | UNUSED_F7 | UNUSED_F8 | UNUSED_F9 | UNUSED_FA
  | UNUSED_FB | UNUSED_FC | UNUSED_FD | UNUSED_FE | UNUSED_FF.

(** [RSUB_INT_LIT16 = RSUB_INT] in the same enumeration. *)
Abbreviation RSUB_INT_LIT16 := RSUB_INT.

(** [Instruction::Format], in declaration order: the C++ compares formats with
    [<=]. *)
Inductive Format : Type :=
  | k10x | k12x | k11n | k11x | k10t | k20t | k22x | k21t | k21s | k21h | k21c | k23x
  | k22b | k22t | k22s | k22c | k32x | k30t | k31t | k31i | k31c | k35c | k3rc | k51l.

Definition format_rank (f : Format) : Z :=
  match f with
  | k10x => 0 | k12x => 1 | k11n => 2 | k11x => 3 | k10t => 4 | k20t => 5 | k22x => 6
  | k21t => 7 | k21s => 8 | k21h => 9 | k21c => 10 | k23x => 11 | k22b => 12 | k22t => 13
  | k22s => 14 | k22c => 15 | k32x => 16 | k30t => 17 | k31t => 18 | k31i => 19
  | k31c => 20 | k35c => 21 | k3rc => 22 | k51l => 23
  end.

#[export] Instance Format_eq_dec : EqDecision Format.
Proof. solve_decision. Defined.

(** The kind of constant-pool reference an instruction carries. *)
Inductive IndexType : Type :=
  | kUnknown | kNone | kTypeRef | kStringRef | kMethodRef | kFieldRef.

(** [Instruction::Flags] *)
Definition kBranch : Z := 0x000001.
Definition kContinue : Z := 0x000002.
Definition kSwitch : Z := 0x000004.
Definition kThrow : Z := 0x000008.
Definition kReturn : Z := 0x000010.
Definition kInvoke : Z := 0x000020.
Definition kUnconditional : Z := 0x000040.
Definition kAdd : Z := 0x000080.
Definition kSubtract : Z := 0x000100.
Definition kMultiply : Z := 0x000200.
Definition kDivide : Z := 0x000400.
Definition kRemainder : Z := 0x000800.
Definition kAnd : Z := 0x001000.
Definition kOr : Z := 0x002000.
Definition kXor : Z := 0x004000.
Definition kShl : Z := 0x008000.
Definition kShr : Z := 0x010000.
Definition kUshr : Z := 0x020000.
Definition kCast : Z := 0x040000.
Definition kStore : Z := 0x080000.
Definition kLoad : Z := 0x100000.
Definition kClobber : Z := 0x200000.
Definition kRegCFieldOrConstant : Z := 0x400000.
Definition kRegBFieldOrConstant : Z := 0x800000.

(** [Instruction::VerifyFlag] *)
Definition kVerifyNone : Z := 0x000000.
Definition kVerifyRegA : Z := 0x000001.
Definition kVerifyRegAWide : Z := 0x000002.
Definition kVerifyRegB : Z := 0x000004.
Definition kVerifyRegBField : Z := 0x000008.
Definition kVerifyRegBMethod : Z := 0x000010.
Definition kVerifyRegBNewInstance : Z := 0x000020.
Definition kVerifyRegBString : Z := 0x000040.
Definition kVerifyRegBType : Z := 0x000080.
Definition kVerifyRegBWide : Z := 0x000100.
Definition kVerifyRegC : Z := 0x000200.
Definition kVerifyRegCField : Z := 0x000400.
Definition kVerifyRegCNewArray : Z := 0x000800.
Definition kVerifyRegCType : Z := 0x001000.
Definition kVerifyRegCWide : Z := 0x002000.
Definition kVerifyArrayData : Z := 0x004000.
Definition kVerifyBranchTarget : Z := 0x008000.
Definition kVerifySwitchTargets : Z := 0x010000.
Definition kVerifyVarArg : Z := 0x020000.
Definition kVerifyVarArgNonZero : Z := 0x040000.
Definition kVerifyVarArgRange : Z := 0x080000.
Definition kVerifyVarArgRangeNonZero : Z := 0x100000.
Definition kVerifyRuntimeOnly : Z := 0x200000.
Definition kVerifyError : Z := 0x400000.

Record instruction_row : Type := V {
  row_opcode : Z;
  row_cname : Code;
  row_pname : string;
  row_format : Format;
  row_has_result : bool;
  row_index : IndexType;
  row_flags : Z;
  row_verify : Z;
}.

Declare Scope flag_scope.
Delimit Scope flag_scope with flag.
Infix ".|" := Z.lor (at level 50, left associativity) : flag_scope.

(** The table, rows 0x00 to 0x7F. *)
Definition DEX_INSTRUCTION_LIST_00_7F : list instruction_row := [
  V 0x00 NOP "nop" k10x false kNone kContinue kVerifyNone;
  V 0x01 MOVE "move" k12x true kNone kContinue (kVerifyRegA .| kVerifyRegB)%flag;
  V 0x02 MOVE_FROM16 "move/from16" k22x true kNone kContinue (kVerifyRegA .| kVerifyRegB)%flag;
  V 0x03 MOVE_16 "move/16" k32x true kNone kContinue (kVerifyRegA .| kVerifyRegB)%flag;
  V 0x04 MOVE_WIDE "move-wide" k12x true kNone kContinue (kVerifyRegAWide .| kVerifyRegBWide)%flag;
  V 0x05 MOVE_WIDE_FROM16 "move-wide/from16" k22x true kNone kContinue (kVerifyRegAWide .| kVerifyRegBWide)%flag;
  V 0x06 MOVE_WIDE_16 "move-wide/16" k32x true kNone kContinue (kVerifyRegAWide .| kVerifyRegBWide)%flag;
  V 0x07 MOVE_OBJECT "move-object" k12x true kNone kContinue (kVerifyRegA .| kVerifyRegB)%flag;
  V 0x08 MOVE_OBJECT_FROM16 "move-object/from16" k22x true kNone kContinue (kVerifyRegA .| kVerifyRegB)%flag;
  V 0x09 MOVE_OBJECT_16 "move-object/16" k32x true kNone kContinue (kVerifyRegA .| kVerifyRegB)%flag;
  V 0x0A MOVE_RESULT "move-result" k11x true kNone kContinue kVerifyRegA;
  V 0x0B MOVE_RESULT_WIDE "move-result-wide" k11x true kNone kContinue kVerifyRegAWide;
  V 0x0C MOVE_RESULT_OBJECT "move-result-object" k11x true kNone kContinue kVerifyRegA;
  V 0x0D MOVE_EXCEPTION "move-exception" k11x true kNone kContinue kVerifyRegA;
  V 0x0E RETURN_VOID "return-void" k10x false kNone kReturn kVerifyNone;
  V 0x0F RETURN "return" k11x false kNone kReturn kVerifyRegA;
  V 0x10 RETURN_WIDE "return-wide" k11x false kNone kReturn kVerifyRegAWide;
  V 0x11 RETURN_OBJECT "return-object" k11x false kNone kReturn kVerifyRegA;
  V 0x12 CONST_4 "const/4" k11n true kNone (kContinue .| kRegBFieldOrConstant)%flag kVerifyRegA;
  V 0x13 CONST_16 "const/16" k21s true kNone (kContinue .| kRegBFieldOrConstant)%flag kVerifyRegA;
  V 0x14 CONST "const" k31i true kNone (kContinue .| kRegBFieldOrConstant)%flag kVerifyRegA;
  V 0x15 CONST_HIGH16 "const/high16" k21h true kNone (kContinue .| kRegBFieldOrConstant)%flag kVerifyRegA;
  V 0x16 CONST_WIDE_16 "const-wide/16" k21s true kNone (kContinue .| kRegBFieldOrConstant)%flag kVerifyRegAWide;
  V 0x17 CONST_WIDE_32 "const-wide/32" k31i true kNone (kContinue .| kRegBFieldOrConstant)%flag kVerifyRegAWide;
  V 0x18 CONST_WIDE "const-wide" k51l true kNone (kContinue .| kRegBFieldOrConstant)%flag kVerifyRegAWide;
  V 0x19 CONST_WIDE_HIGH16 "const-wide/high16" k21h true kNone (kContinue .| kRegBFieldOrConstant)%flag kVerifyRegAWide;
  V 0x1A CONST_STRING "const-string" k21c true kStringRef (kContinue .| kThrow)%flag (kVerifyRegA .| kVerifyRegBString)%flag;
  V 0x1B CONST_STRING_JUMBO "const-string/jumbo" k31c true kStringRef (kContinue .| kThrow)%flag (kVerifyRegA .| kVerifyRegBString)%flag;
  V 0x1C CONST_CLASS "const-class" k21c true kTypeRef (kContinue .| kThrow)%flag (kVerifyRegA .| kVerifyRegBType)%flag;
  V 0x1D MONITOR_ENTER "monitor-enter" k11x false kNone (kContinue .| kThrow .| kClobber)%flag kVerifyRegA;
  V 0x1E MONITOR_EXIT "monitor-exit" k11x false kNone (kContinue .| kThrow .| kClobber)%flag kVerifyRegA;
  V 0x1F CHECK_CAST "check-cast" k21c true kTypeRef (kContinue .| kThrow)%flag (kVerifyRegA .| kVerifyRegBType)%flag;
  V 0x20 INSTANCE_OF "instance-of" k22c true kTypeRef (kContinue .| kThrow)%flag (kVerifyRegA .| kVerifyRegB .| kVerifyRegCType)%flag;
  V 0x21 ARRAY_LENGTH "array-length" k12x true kNone (kContinue .| kThrow)%flag (kVerifyRegA .| kVerifyRegB)%flag;
  V 0x22 NEW_INSTANCE "new-instance" k21c true kTypeRef (kContinue .| kThrow .| kClobber)%flag (kVerifyRegA .| kVerifyRegBNewInstance)%flag;
  V 0x23 NEW_ARRAY "new-array" k22c true kTypeRef (kContinue .| kThrow .| kClobber)%flag (kVerifyRegA .| kVerifyRegB .| kVerifyRegCNewArray)%flag;
  V 0x24 FILLED_NEW_ARRAY "filled-new-array" k35c false kTypeRef (kContinue .| kThrow .| kClobber)%flag (kVerifyRegBType .| kVerifyVarArg)%flag;
  V 0x25 FILLED_NEW_ARRAY_RANGE "filled-new-array/range" k3rc false kTypeRef (kContinue .| kThrow .| kClobber)%flag (kVerifyRegBType .| kVerifyVarArgRange)%flag;
  V 0x26 FILL_ARRAY_DATA "fill-array-data" k31t false kNone (kContinue .| kThrow .| kClobber)%flag (kVerifyRegA .| kVerifyArrayData)%flag;
  V 0x27 THROW "throw" k11x false kNone kThrow kVerifyRegA;
  V 0x28 GOTO "goto" k10t false kNone (kBranch .| kUnconditional)%flag kVerifyBranchTarget;
  V 0x29 GOTO_16 "goto/16" k20t false kNone (kBranch .| kUnconditional)%flag kVerifyBranchTarget;
  V 0x2A GOTO_32 "goto/32" k30t false kNone (kBranch .| kUnconditional)%flag kVerifyBranchTarget;
  V 0x2B PACKED_SWITCH "packed-switch" k31t false kNone (kContinue .| kSwitch)%flag (kVerifyRegA .| kVerifySwitchTargets)%flag;
  V 0x2C SPARSE_SWITCH "sparse-switch" k31t false kNone (kContinue .| kSwitch)%flag (kVerifyRegA .| kVerifySwitchTargets)%flag;
  V 0x2D CMPL_FLOAT "cmpl-float" k23x true kNone kContinue (kVerifyRegA .| kVerifyRegB .| kVerifyRegC)%flag;
  V 0x2E CMPG_FLOAT "cmpg-float" k23x true kNone kContinue (kVerifyRegA .| kVerifyRegB .| kVerifyRegC)%flag;
  V 0x2F CMPL_DOUBLE "cmpl-double" k23x true kNone kContinue (kVerifyRegA .| kVerifyRegBWide .| kVerifyRegCWide)%flag;
  V 0x30 CMPG_DOUBLE "cmpg-double" k23x true kNone kContinue (kVerifyRegA .| kVerifyRegBWide .| kVerifyRegCWide)%flag;
  V 0x31 CMP_LONG "cmp-long" k23x true kNone kContinue (kVerifyRegA .| kVerifyRegBWide .| kVerifyRegCWide)%flag;
  V 0x32 IF_EQ "if-eq" k22t false kNone (kContinue .| kBranch)%flag (kVerifyRegA .| kVerifyRegB .| kVerifyBranchTarget)%flag;
  V 0x33 IF_NE "if-ne" k22t false kNone (kContinue .| kBranch)%flag (kVerifyRegA .| kVerifyRegB .| kVerifyBranchTarget)%flag;
  V 0x34 IF_LT "if-lt" k22t false kNone (kContinue .| kBranch)%flag (kVerifyRegA .| kVerifyRegB .| kVerifyBranchTarget)%flag;
  V 0x35 IF_GE "if-ge" k22t false kNone (kContinue .| kBranch)%flag (kVerifyRegA .| kVerifyRegB .| kVerifyBranchTarget)%flag;
  V 0x36 IF_GT "if-gt" k22t false kNone (kContinue .| kBranch)%flag (kVerifyRegA .| kVerifyRegB .| kVerifyBranchTarget)%flag;
  V 0x37 IF_LE "if-le" k22t false kNone (kContinue .| kBranch)%flag (kVerifyRegA .| kVerifyRegB .| kVerifyBranchTarget)%flag;
  V 0x38 IF_EQZ "if-eqz" k21t false kNone (kContinue .| kBranch)%flag (kVerifyRegA .| kVerifyBranchTarget)%flag;
  V 0x39 IF_NEZ "if-nez" k21t false kNone (kContinue .| kBranch)%flag (kVerifyRegA .| kVerifyBranchTarget)%flag;
  V 0x3A IF_LTZ "if-ltz" k21t false kNone (kContinue .| kBranch)%flag (kVerifyRegA .| kVerifyBranchTarget)%flag;
  V 0x3B IF_GEZ "if-gez" k21t false kNone (kContinue .| kBranch)%flag (kVerifyRegA .| kVerifyBranchTarget)%flag;
  V 0x3C IF_GTZ "if-gtz" k21t false kNone (kContinue .| kBranch)%flag (kVerifyRegA .| kVerifyBranchTarget)%flag;
  V 0x3D IF_LEZ "if-lez" k21t false kNone (kContinue .| kBranch)%flag (kVerifyRegA .| kVerifyBranchTarget)%flag;
  V 0x3E UNUSED_3E "unused-3e" k10x false kUnknown 0 kVerifyError;
  V 0x3F UNUSED_3F "unused-3f" k10x false kUnknown 0 kVerifyError;
  V 0x40 UNUSED_40 "unused-40" k10x false kUnknown 0 kVerifyError;
  V 0x41 UNUSED_41 "unused-41" k10x false kUnknown 0 kVerifyError;
  V 0x42 UNUSED_42 "unused-42" k10x false kUnknown 0 kVerifyError;
  V 0x43 UNUSED_43 "unused-43" k10x false kUnknown 0 kVerifyError;
  V 0x44 AGET "aget" k23x true kNone (kContinue .| kThrow .| kLoad)%flag (kVerifyRegA .| kVerifyRegB .| kVerifyRegC)%flag;
  V 0x45 AGET_WIDE "aget-wide" k23x true kNone (kContinue .| kThrow .| kLoad)%flag (kVerifyRegAWide .| kVerifyRegB .| kVerifyRegC)%flag;
  V 0x46 AGET_OBJECT "aget-object" k23x true kNone (kContinue .| kThrow .| kLoad)%flag (kVerifyRegA .| kVerifyRegB .| kVerifyRegC)%flag;
  V 0x47 AGET_BOOLEAN "aget-boolean" k23x true kNone (kContinue .| kThrow .| kLoad)%flag (kVerifyRegA .| kVerifyRegB .| kVerifyRegC)%flag;
  V 0x48 AGET_BYTE "aget-byte" k23x true kNone (kContinue .| kThrow .| kLoad)%flag (kVerifyRegA .| kVerifyRegB .| kVerifyRegC)%flag;
  V 0x49 AGET_CHAR "aget-char" k23x true kNone (kContinue .| kThrow .| kLoad)%flag (kVerifyRegA .| kVerifyRegB .| kVerifyRegC)%flag;
  V 0x4A AGET_SHORT "aget-short" k23x true kNone (kContinue .| kThrow .| kLoad)%flag (kVerifyRegA .| kVerifyRegB .| kVerifyRegC)%flag;
  V 0x4B APUT "aput" k23x false kNone (kContinue .| kThrow .| kStore)%flag (kVerifyRegA .| kVerifyRegB .| kVerifyRegC)%flag;
  V 0x4C APUT_WIDE "aput-wide" k23x false kNone (kContinue .| kThrow .| kStore)%flag (kVerifyRegAWide .| kVerifyRegB .| kVerifyRegC)%flag;
  V 0x4D APUT_OBJECT "aput-object" k23x false kNone (kContinue .| kThrow .| kStore)%flag (kVerifyRegA .| kVerifyRegB .| kVerifyRegC)%flag;
  V 0x4E APUT_BOOLEAN "aput-boolean" k23x false kNone (kContinue .| kThrow .| kStore)%flag (kVerifyRegA .| kVerifyRegB .| kVerifyRegC)%flag;
  V 0x4F APUT_BYTE "aput-byte" k23x false kNone (kContinue .| kThrow .| kStore)%flag (kVerifyRegA .| kVerifyRegB .| kVerifyRegC)%flag;
  V 0x50 APUT_CHAR "aput-char" k23x false kNone (kContinue .| kThrow .| kStore)%flag (kVerifyRegA .| kVerifyRegB .| kVerifyRegC)%flag;
  V 0x51 APUT_SHORT "aput-short" k23x false kNone (kContinue .| kThrow .| kStore)%flag (kVerifyRegA .| kVerifyRegB .| kVerifyRegC)%flag;
  V 0x52 IGET "iget" k22c true kFieldRef (kContinue .| kThrow .| kLoad .| kRegCFieldOrConstant)%flag (kVerifyRegA .| kVerifyRegB .| kVerifyRegCField)%flag;
  V 0x53 IGET_WIDE "iget-wide" k22c true kFieldRef (kContinue .| kThrow .| kLoad .| kRegCFieldOrConstant)%flag (kVerifyRegAWide .| kVerifyRegB .| kVerifyRegCField)%flag;
  V 0x54 IGET_OBJECT "iget-object" k22c true kFieldRef (kContinue .| kThrow .| kLoad .| kRegCFieldOrConstant)%flag (kVerifyRegA .| kVerifyRegB .| kVerifyRegCField)%flag;
  V 0x55 IGET_BOOLEAN "iget-boolean" k22c true kFieldRef (kContinue .| kThrow .| kLoad .| kRegCFieldOrConstant)%flag (kVerifyRegA .| kVerifyRegB .| kVerifyRegCField)%flag;
  V 0x56 IGET_BYTE "iget-byte" k22c true kFieldRef (kContinue .| kThrow .| kLoad .| kRegCFieldOrConstant)%flag (kVerifyRegA .| kVerifyRegB .| kVerifyRegCField)%flag;
  V 0x57 IGET_CHAR "iget-char" k22c true kFieldRef (kContinue .| kThrow .| kLoad .| kRegCFieldOrConstant)%flag (kVerifyRegA .| kVerifyRegB .| kVerifyRegCField)%flag;
  V 0x58 IGET_SHORT "iget-short" k22c true kFieldRef (kContinue .| kThrow .| kLoad .| kRegCFieldOrConstant)%flag (kVerifyRegA .| kVerifyRegB .| kVerifyRegCField)%flag;
  V 0x59 IPUT "iput" k22c false kFieldRef (kContinue .| kThrow .| kStore .| kRegCFieldOrConstant)%flag (kVerifyRegA .| kVerifyRegB .| kVerifyRegCField)%flag;
  V 0x5A IPUT_WIDE "iput-wide" k22c false kFieldRef (kContinue .| kThrow .| kStore .| kRegCFieldOrConstant)%flag (kVerifyRegAWide .| kVerifyRegB .| kVerifyRegCField)%flag;
  V 0x5B IPUT_OBJECT "iput-object" k22c false kFieldRef (kContinue .| kThrow .| kStore .| kRegCFieldOrConstant)%flag (kVerifyRegA .| kVerifyRegB .| kVerifyRegCField)%flag;
  V 0x5C IPUT_BOOLEAN "iput-boolean" k22c false kFieldRef (kContinue .| kThrow .| kStore .| kRegCFieldOrConstant)%flag (kVerifyRegA .| kVerifyRegB .| kVerifyRegCField)%flag;
  V 0x5D IPUT_BYTE "iput-byte" k22c false kFieldRef (kContinue .| kThrow .| kStore .| kRegCFieldOrConstant)%flag (kVerifyRegA .| kVerifyRegB .| kVerifyRegCField)%flag;
  V 0x5E IPUT_CHAR "iput-char" k22c false kFieldRef (kContinue .| kThrow .| kStore .| kRegCFieldOrConstant)%flag (kVerifyRegA .| kVerifyRegB .| kVerifyRegCField)%flag;
  V 0x5F IPUT_SHORT "iput-short" k22c false kFieldRef (kContinue .| kThrow .| kStore .| kRegCFieldOrConstant)%flag (kVerifyRegA .| kVerifyRegB .| kVerifyRegCField)%flag;
  V 0x60 SGET "sget" k21c true kFieldRef (kContinue .| kThrow .| kLoad .| kRegBFieldOrConstant)%flag (kVerifyRegA .| kVerifyRegBField)%flag;
  V 0x61 SGET_WIDE "sget-wide" k21c true kFieldRef (kContinue .| kThrow .| kLoad .| kRegBFieldOrConstant)%flag (kVerifyRegAWide .| kVerifyRegBField)%flag;
  V 0x62 SGET_OBJECT "sget-object" k21c true kFieldRef (kContinue .| kThrow .| kLoad .| kRegBFieldOrConstant)%flag (kVerifyRegA .| kVerifyRegBField)%flag;
  V 0x63 SGET_BOOLEAN "sget-boolean" k21c true kFieldRef (kContinue .| kThrow .| kLoad .| kRegBFieldOrConstant)%flag (kVerifyRegA .| kVerifyRegBField)%flag;
  V 0x64 SGET_BYTE "sget-byte" k21c true kFieldRef (kContinue .| kThrow .| kLoad .| kRegBFieldOrConstant)%flag (kVerifyRegA .| kVerifyRegBField)%flag;
  V 0x65 SGET_CHAR "sget-char" k21c true kFieldRef (kContinue .| kThrow .| kLoad .| kRegBFieldOrConstant)%flag (kVerifyRegA .| kVerifyRegBField)%flag;
  V 0x66 SGET_SHORT "sget-short" k21c true kFieldRef (kContinue .| kThrow .| kLoad .| kRegBFieldOrConstant)%flag (kVerifyRegA .| kVerifyRegBField)%flag;
  V 0x67 SPUT "sput" k21c false kFieldRef (kContinue .| kThrow .| kStore .| kRegBFieldOrConstant)%flag (kVerifyRegA .| kVerifyRegBField)%flag;
  V 0x68 SPUT_WIDE "sput-wide" k21c false kFieldRef (kContinue .| kThrow .| kStore .| kRegBFieldOrConstant)%flag (kVerifyRegAWide .| kVerifyRegBField)%flag;
  V 0x69 SPUT_OBJECT "sput-object" k21c false kFieldRef (kContinue .| kThrow .| kStore .| kRegBFieldOrConstant)%flag (kVerifyRegA .| kVerifyRegBField)%flag;
  V 0x6A SPUT_BOOLEAN "sput-boolean" k21c false kFieldRef (kContinue .| kThrow .| kStore .| kRegBFieldOrConstant)%flag (kVerifyRegA .| kVerifyRegBField)%flag;
  V 0x6B SPUT_BYTE "sput-byte" k21c false kFieldRef (kContinue .| kThrow .| kStore .| kRegBFieldOrConstant)%flag (kVerifyRegA .| kVerifyRegBField)%flag;
  V 0x6C SPUT_CHAR "sput-char" k21c false kFieldRef (kContinue .| kThrow .| kStore .| kRegBFieldOrConstant)%flag (kVerifyRegA .| kVerifyRegBField)%flag;
  V 0x6D SPUT_SHORT "sput-short" k21c false kFieldRef (kContinue .| kThrow .| kStore .| kRegBFieldOrConstant)%flag (kVerifyRegA .| kVerifyRegBField)%flag;
  V 0x6E INVOKE_VIRTUAL "invoke-virtual" k35c false kMethodRef (kContinue .| kThrow .| kInvoke)%flag (kVerifyRegBMethod .| kVerifyVarArgNonZero)%flag;
  V 0x6F INVOKE_SUPER "invoke-super" k35c false kMethodRef (kContinue .| kThrow .| kInvoke)%flag (kVerifyRegBMethod .| kVerifyVarArgNonZero)%flag;
  V 0x70 INVOKE_DIRECT "invoke-direct" k35c false kMethodRef (kContinue .| kThrow .| kInvoke)%flag (kVerifyRegBMethod .| kVerifyVarArgNonZero)%flag;
  V 0x71 INVOKE_STATIC "invoke-static" k35c false kMethodRef (kContinue .| kThrow .| kInvoke)%flag (kVerifyRegBMethod .| kVerifyVarArg)%flag;
  V 0x72 INVOKE_INTERFACE "invoke-interface" k35c false kMethodRef (kContinue .| kThrow .| kInvoke)%flag (kVerifyRegBMethod .| kVerifyVarArgNonZero)%flag;
  V 0x73 RETURN_VOID_BARRIER "return-void-barrier" k10x false kNone kReturn kVerifyNone;
  V 0x74 INVOKE_VIRTUAL_RANGE "invoke-virtual/range" k3rc false kMethodRef (kContinue .| kThrow .| kInvoke)%flag (kVerifyRegBMethod .| kVerifyVarArgRangeNonZero)%flag;
  V 0x75 INVOKE_SUPER_RANGE "invoke-super/range" k3rc false kMethodRef (kContinue .| kThrow .| kInvoke)%flag (kVerifyRegBMethod .| kVerifyVarArgRangeNonZero)%flag;
  V 0x76 INVOKE_DIRECT_RANGE "invoke-direct/range" k3rc false kMethodRef (kContinue .| kThrow .| kInvoke)%flag (kVerifyRegBMethod .| kVerifyVarArgRangeNonZero)%flag;
  V 0x77 INVOKE_STATIC_RANGE "invoke-static/range" k3rc false kMethodRef (kContinue .| kThrow .| kInvoke)%flag (kVerifyRegBMethod .| kVerifyVarArgRange)%flag;
  V 0x78 INVOKE_INTERFACE_RANGE "invoke-interface/range" k3rc false kMethodRef (kContinue .| kThrow .| kInvoke)%flag (kVerifyRegBMethod .| kVerifyVarArgRangeNonZero)%flag;
  V 0x79 UNUSED_79 "unused-79" k10x false kUnknown 0 kVerifyError;
  V 0x7A UNUSED_7A "unused-7a" k10x false kUnknown 0 kVerifyError;
  V 0x7B NEG_INT "neg-int" k12x true kNone kContinue (kVerifyRegA .| kVerifyRegB)%flag;
  V 0x7C NOT_INT "not-int" k12x true kNone kContinue (kVerifyRegA .| kVerifyRegB)%flag;
  V 0x7D NEG_LONG "neg-long" k12x true kNone kContinue (kVerifyRegAWide .| kVerifyRegBWide)%flag;
  V 0x7E NOT_LONG "not-long" k12x true kNone kContinue (kVerifyRegAWide .| kVerifyRegBWide)%flag;
  V 0x7F NEG_FLOAT "neg-float" k12x true kNone kContinue (kVerifyRegA .| kVerifyRegB)%flag].

(** The table, rows 0x80 to 0xFF. *)
Definition DEX_INSTRUCTION_LIST_80_FF : list instruction_row := [
  V 0x80 NEG_DOUBLE "neg-double" k12x true kNone kContinue (kVerifyRegAWide .| kVerifyRegBWide)%flag;
  V 0x81 INT_TO_LONG "int-to-long" k12x true kNone (kContinue .| kCast)%flag (kVerifyRegAWide .| kVerifyRegB)%flag;
  V 0x82 INT_TO_FLOAT "int-to-float" k12x true kNone (kContinue .| kCast)%flag (kVerifyRegA .| kVerifyRegB)%flag;
  V 0x83 INT_TO_DOUBLE "int-to-double" k12x true kNone (kContinue .| kCast)%flag (kVerifyRegAWide .| kVerifyRegB)%flag;
  V 0x84 LONG_TO_INT "long-to-int" k12x true kNone (kContinue .| kCast)%flag (kVerifyRegA .| kVerifyRegBWide)%flag;
  V 0x85 LONG_TO_FLOAT "long-to-float" k12x true kNone (kContinue .| kCast)%flag (kVerifyRegA .| kVerifyRegBWide)%flag;
  V 0x86 LONG_TO_DOUBLE "long-to-double" k12x true kNone (kContinue .| kCast)%flag (kVerifyRegAWide .| kVerifyRegBWide)%flag;
  V 0x87 FLOAT_TO_INT "float-to-int" k12x true kNone (kContinue .| kCast)%flag (kVerifyRegA .| kVerifyRegB)%flag;
  V 0x88 FLOAT_TO_LONG "float-to-long" k12x true kNone (kContinue .| kCast)%flag (kVerifyRegAWide .| kVerifyRegB)%flag;
  V 0x89 FLOAT_TO_DOUBLE "float-to-double" k12x true kNone (kContinue .| kCast)%flag (kVerifyRegAWide .| kVerifyRegB)%flag;
  V 0x8A DOUBLE_TO_INT "double-to-int" k12x true kNone (kContinue .| kCast)%flag (kVerifyRegA .| kVerifyRegBWide)%flag;
  V 0x8B DOUBLE_TO_LONG "double-to-long" k12x true kNone (kContinue .| kCast)%flag (kVerifyRegAWide .| kVerifyRegBWide)%flag;
  V 0x8C DOUBLE_TO_FLOAT "double-to-float" k12x true kNone (kContinue .| kCast)%flag (kVerifyRegA .| kVerifyRegBWide)%flag;
  V 0x8D INT_TO_BYTE "int-to-byte" k12x true kNone (kContinue .| kCast)%flag (kVerifyRegA .| kVerifyRegB)%flag;
  V 0x8E INT_TO_CHAR "int-to-char" k12x true kNone (kContinue .| kCast)%flag (kVerifyRegA .| kVerifyRegB)%flag;
  V 0x8F INT_TO_SHORT "int-to-short" k12x true kNone (kContinue .| kCast)%flag (kVerifyRegA .| kVerifyRegB)%flag;
  V 0x90 ADD_INT "add-int" k23x true kNone (kContinue .| kAdd)%flag (kVerifyRegA .| kVerifyRegB .| kVerifyRegC)%flag;
  V 0x91 SUB_INT "sub-int" k23x true kNone (kContinue .| kSubtract)%flag (kVerifyRegA .| kVerifyRegB .| kVerifyRegC)%flag;
  V 0x92 MUL_INT "mul-int" k23x true kNone (kContinue .| kMultiply)%flag (kVerifyRegA .| kVerifyRegB .| kVerifyRegC)%flag;
  V 0x93 DIV_INT "div-int" k23x true kNone (kContinue .| kThrow .| kDivide)%flag (kVerifyRegA .| kVerifyRegB .| kVerifyRegC)%flag;
  V 0x94 REM_INT "rem-int" k23x true kNone (kContinue .| kThrow .| kRemainder)%flag (kVerifyRegA .| kVerifyRegB .| kVerifyRegC)%flag;
  V 0x95 AND_INT "and-int" k23x true kNone (kContinue .| kAnd)%flag (kVerifyRegA .| kVerifyRegB .| kVerifyRegC)%flag;
  V 0x96 OR_INT "or-int" k23x true kNone (kContinue .| kOr)%flag (kVerifyRegA .| kVerifyRegB .| kVerifyRegC)%flag;
  V 0x97 XOR_INT "xor-int" k23x true kNone (kContinue .| kXor)%flag (kVerifyRegA .| kVerifyRegB .| kVerifyRegC)%flag;
  V 0x98 SHL_INT "shl-int" k23x true kNone (kContinue .| kShl)%flag (kVerifyRegA .| kVerifyRegB .| kVerifyRegC)%flag;
  V 0x99 SHR_INT "shr-int" k23x true kNone (kContinue .| kShr)%flag (kVerifyRegA .| kVerifyRegB .| kVerifyRegC)%flag;
  V 0x9A USHR_INT "ushr-int" k23x true kNone (kContinue .| kUshr)%flag (kVerifyRegA .| kVerifyRegB .| kVerifyRegC)%flag;
  V 0x9B ADD_LONG "add-long" k23x true kNone (kContinue .| kAdd)%flag (kVerifyRegAWide .| kVerifyRegBWide .| kVerifyRegCWide)%flag;
  V 0x9C SUB_LONG "sub-long" k23x true kNone (kContinue .| kSubtract)%flag (kVerifyRegAWide .| kVerifyRegBWide .| kVerifyRegCWide)%flag;
  V 0x9D MUL_LONG "mul-long" k23x true kNone (kContinue .| kMultiply)%flag (kVerifyRegAWide .| kVerifyRegBWide .| kVerifyRegCWide)%flag;
  V 0x9E DIV_LONG "div-long" k23x true kNone (kContinue .| kThrow .| kDivide)%flag (kVerifyRegAWide .| kVerifyRegBWide .| kVerifyRegCWide)%flag;
  V 0x9F REM_LONG "rem-long" k23x true kNone (kContinue .| kThrow .| kRemainder)%flag (kVerifyRegAWide .| kVerifyRegBWide .| kVerifyRegCWide)%flag;
  V 0xA0 AND_LONG "and-long" k23x true kNone (kContinue .| kAnd)%flag (kVerifyRegAWide .| kVerifyRegBWide .| kVerifyRegCWide)%flag;
  V 0xA1 OR_LONG "or-long" k23x true kNone (kContinue .| kOr)%flag (kVerifyRegAWide .| kVerifyRegBWide .| kVerifyRegCWide)%flag;
  V 0xA2 XOR_LONG "xor-long" k23x true kNone (kContinue .| kXor)%flag (kVerifyRegAWide .| kVerifyRegBWide .| kVerifyRegCWide)%flag;
  V 0xA3 SHL_LONG "shl-long" k23x true kNone (kContinue .| kShl)%flag (kVerifyRegAWide .| kVerifyRegBWide .| kVerifyRegC)%flag;
  V 0xA4 SHR_LONG "shr-long" k23x true kNone (kContinue .| kShr)%flag (kVerifyRegAWide .| kVerifyRegBWide .| kVerifyRegC)%flag;
  V 0xA5 USHR_LONG "ushr-long" k23x true kNone (kContinue .| kUshr)%flag (kVerifyRegAWide .| kVerifyRegBWide .| kVerifyRegC)%flag;
  V 0xA6 ADD_FLOAT "add-float" k23x true kNone (kContinue .| kAdd)%flag (kVerifyRegA .| kVerifyRegB .| kVerifyRegC)%flag;
  V 0xA7 SUB_FLOAT "sub-float" k23x true kNone (kContinue .| kSubtract)%flag (kVerifyRegA .| kVerifyRegB .| kVerifyRegC)%flag;
  V 0xA8 MUL_FLOAT "mul-float" k23x true kNone (kContinue .| kMultiply)%flag (kVerifyRegA .| kVerifyRegB .| kVerifyRegC)%flag;
  V 0xA9 DIV_FLOAT "div-float" k23x true kNone (kContinue .| kDivide)%flag (kVerifyRegA .| kVerifyRegB .| kVerifyRegC)%flag;
  V 0xAA REM_FLOAT "rem-float" k23x true kNone (kContinue .| kRemainder)%flag (kVerifyRegA .| kVerifyRegB .| kVerifyRegC)%flag;
  V 0xAB ADD_DOUBLE "add-double" k23x true kNone (kContinue .| kAdd)%flag (kVerifyRegAWide .| kVerifyRegBWide .| kVerifyRegCWide)%flag;
  V 0xAC SUB_DOUBLE "sub-double" k23x true kNone (kContinue .| kSubtract)%flag (kVerifyRegAWide .| kVerifyRegBWide .| kVerifyRegCWide)%flag;
  V 0xAD MUL_DOUBLE "mul-double" k23x true kNone (kContinue .| kMultiply)%flag (kVerifyRegAWide .| kVerifyRegBWide .| kVerifyRegCWide)%flag;
  V 0xAE DIV_DOUBLE "div-double" k23x true kNone (kContinue .| kDivide)%flag (kVerifyRegAWide .| kVerifyRegBWide .| kVerifyRegCWide)%flag;
  V 0xAF REM_DOUBLE "rem-double" k23x true kNone (kContinue .| kRemainder)%flag (kVerifyRegAWide .| kVerifyRegBWide .| kVerifyRegCWide)%flag;
  V 0xB0 ADD_INT_2ADDR "add-int/2addr" k12x true kNone (kContinue .| kAdd)%flag (kVerifyRegA .| kVerifyRegB)%flag;
  V 0xB1 SUB_INT_2ADDR "sub-int/2addr" k12x true kNone (kContinue .| kSubtract)%flag (kVerifyRegA .| kVerifyRegB)%flag;
  V 0xB2 MUL_INT_2ADDR "mul-int/2addr" k12x true kNone (kContinue .| kMultiply)%flag (kVerifyRegA .| kVerifyRegB)%flag;
  V 0xB3 DIV_INT_2ADDR "div-int/2addr" k12x true kNone (kContinue .| kThrow .| kDivide)%flag (kVerifyRegA .| kVerifyRegB)%flag;
  V 0xB4 REM_INT_2ADDR "rem-int/2addr" k12x true kNone (kContinue .| kThrow .| kRemainder)%flag (kVerifyRegA .| kVerifyRegB)%flag;
  V 0xB5 AND_INT_2ADDR "and-int/2addr" k12x true kNone (kContinue .| kAnd)%flag (kVerifyRegA .| kVerifyRegB)%flag;
  V 0xB6 OR_INT_2ADDR "or-int/2addr" k12x true kNone (kContinue .| kOr)%flag (kVerifyRegA .| kVerifyRegB)%flag;
  V 0xB7 XOR_INT_2ADDR "xor-int/2addr" k12x true kNone (kContinue .| kXor)%flag (kVerifyRegA .| kVerifyRegB)%flag;
  V 0xB8 SHL_INT_2ADDR "shl-int/2addr" k12x true kNone (kContinue .| kShl)%flag (kVerifyRegA .| kVerifyRegB)%flag;
  V 0xB9 SHR_INT_2ADDR "shr-int/2addr" k12x true kNone (kContinue .| kShr)%flag (kVerifyRegA .| kVerifyRegB)%flag;
  V 0xBA USHR_INT_2ADDR "ushr-int/2addr" k12x true kNone (kContinue .| kUshr)%flag (kVerifyRegA .| kVerifyRegB)%flag;
  V 0xBB ADD_LONG_2ADDR "add-long/2addr" k12x true kNone (kContinue .| kAdd)%flag (kVerifyRegAWide .| kVerifyRegBWide)%flag;
  V 0xBC SUB_LONG_2ADDR "sub-long/2addr" k12x true kNone (kContinue .| kSubtract)%flag (kVerifyRegAWide .| kVerifyRegBWide)%flag;
  V 0xBD MUL_LONG_2ADDR "mul-long/2addr" k12x true kNone (kContinue .| kMultiply)%flag (kVerifyRegAWide .| kVerifyRegBWide)%flag;
  V 0xBE DIV_LONG_2ADDR "div-long/2addr" k12x true kNone (kContinue .| kThrow .| kDivide)%flag (kVerifyRegAWide .| kVerifyRegBWide)%flag;
  V 0xBF REM_LONG_2ADDR "rem-long/2addr" k12x true kNone (kContinue .| kThrow .| kRemainder)%flag (kVerifyRegAWide .| kVerifyRegBWide)%flag;
  V 0xC0 AND_LONG_2ADDR "and-long/2addr" k12x true kNone (kContinue .| kAnd)%flag (kVerifyRegAWide .| kVerifyRegBWide)%flag;
  V 0xC1 OR_LONG_2ADDR "or-long/2addr" k12x true kNone (kContinue .| kOr)%flag (kVerifyRegAWide .| kVerifyRegBWide)%flag;
  V 0xC2 XOR_LONG_2ADDR "xor-long/2addr" k12x true kNone (kContinue .| kXor)%flag (kVerifyRegAWide .| kVerifyRegBWide)%flag;
  V 0xC3 SHL_LONG_2ADDR "shl-long/2addr" k12x true kNone (kContinue .| kShl)%flag (kVerifyRegAWide .| kVerifyRegB)%flag;
  V 0xC4 SHR_LONG_2ADDR "shr-long/2addr" k12x true kNone (kContinue .| kShr)%flag (kVerifyRegAWide .| kVerifyRegB)%flag;
  V 0xC5 USHR_LONG_2ADDR "ushr-long/2addr" k12x true kNone (kContinue .| kUshr)%flag (kVerifyRegAWide .| kVerifyRegB)%flag;
  V 0xC6 ADD_FLOAT_2ADDR "add-float/2addr" k12x true kNone (kContinue .| kAdd)%flag (kVerifyRegA .| kVerifyRegB)%flag;
  V 0xC7 SUB_FLOAT_2ADDR "sub-float/2addr" k12x true kNone (kContinue .| kSubtract)%flag (kVerifyRegA .| kVerifyRegB)%flag;
  V 0xC8 MUL_FLOAT_2ADDR "mul-float/2addr" k12x true kNone (kContinue .| kMultiply)%flag (kVerifyRegA .| kVerifyRegB)%flag;
  V 0xC9 DIV_FLOAT_2ADDR "div-float/2addr" k12x true kNone (kContinue .| kDivide)%flag (kVerifyRegA .| kVerifyRegB)%flag;
  V 0xCA REM_FLOAT_2ADDR "rem-float/2addr" k12x true kNone (kContinue .| kRemainder)%flag (kVerifyRegA .| kVerifyRegB)%flag;
  V 0xCB ADD_DOUBLE_2ADDR "add-double/2addr" k12x true kNone (kContinue .| kAdd)%flag (kVerifyRegAWide .| kVerifyRegBWide)%flag;
  V 0xCC SUB_DOUBLE_2ADDR "sub-double/2addr" k12x true kNone (kContinue .| kSubtract)%flag (kVerifyRegAWide .| kVerifyRegBWide)%flag;
  V 0xCD MUL_DOUBLE_2ADDR "mul-double/2addr" k12x true kNone (kContinue .| kMultiply)%flag (kVerifyRegAWide .| kVerifyRegBWide)%flag;
  V 0xCE DIV_DOUBLE_2ADDR "div-double/2addr" k12x true kNone (kContinue .| kDivide)%flag (kVerifyRegAWide .| kVerifyRegBWide)%flag;
  V 0xCF REM_DOUBLE_2ADDR "rem-double/2addr" k12x true kNone (kContinue .| kRemainder)%flag (kVerifyRegAWide .| kVerifyRegBWide)%flag;
  V 0xD0 ADD_INT_LIT16 "add-int/lit16" k22s true kNone (kContinue .| kAdd .| kRegCFieldOrConstant)%flag (kVerifyRegA .| kVerifyRegB)%flag;
  V 0xD1 RSUB_INT "rsub-int" k22s true kNone (kContinue .| kSubtract .| kRegCFieldOrConstant)%flag (kVerifyRegA .| kVerifyRegB)%flag;
  V 0xD2 MUL_INT_LIT16 "mul-int/lit16" k22s true kNone (kContinue .| kMultiply .| kRegCFieldOrConstant)%flag (kVerifyRegA .| kVerifyRegB)%flag;
  V 0xD3 DIV_INT_LIT16 "div-int/lit16" k22s true kNone (kContinue .| kThrow .| kDivide .| kRegCFieldOrConstant)%flag (kVerifyRegA .| kVerifyRegB)%flag;
  V 0xD4 REM_INT_LIT16 "rem-int/lit16" k22s true kNone (kContinue .| kThrow .| kRemainder .| kRegCFieldOrConstant)%flag (kVerifyRegA .| kVerifyRegB)%flag;
  V 0xD5 AND_INT_LIT16 "and-int/lit16" k22s true kNone (kContinue .| kAnd .| kRegCFieldOrConstant)%flag (kVerifyRegA .| kVerifyRegB)%flag;
  V 0xD6 OR_INT_LIT16 "or-int/lit16" k22s true kNone (kContinue .| kOr .| kRegCFieldOrConstant)%flag (kVerifyRegA .| kVerifyRegB)%flag;
  V 0xD7 XOR_INT_LIT16 "xor-int/lit16" k22s true kNone (kContinue .| kXor .| kRegCFieldOrConstant)%flag (kVerifyRegA .| kVerifyRegB)%flag;
  V 0xD8 ADD_INT_LIT8 "add-int/lit8" k22b true kNone (kContinue .| kAdd .| kRegCFieldOrConstant)%flag (kVerifyRegA .| kVerifyRegB)%flag;
  V 0xD9 RSUB_INT_LIT8 "rsub-int/lit8" k22b true kNone (kContinue .| kSubtract .| kRegCFieldOrConstant)%flag (kVerifyRegA .| kVerifyRegB)%flag;
  V 0xDA MUL_INT_LIT8 "mul-int/lit8" k22b true kNone (kContinue .| kMultiply .| kRegCFieldOrConstant)%flag (kVerifyRegA .| kVerifyRegB)%flag;
  V 0xDB DIV_INT_LIT8 "div-int/lit8" k22b true kNone (kContinue .| kThrow .| kDivide .| kRegCFieldOrConstant)%flag (kVerifyRegA .| kVerifyRegB)%flag;
  V 0xDC REM_INT_LIT8 "rem-int/lit8" k22b true kNone (kContinue .| kThrow .| kRemainder .| kRegCFieldOrConstant)%flag (kVerifyRegA .| kVerifyRegB)%flag;
  V 0xDD AND_INT_LIT8 "and-int/lit8" k22b true kNone (kContinue .| kAnd .| kRegCFieldOrConstant)%flag (kVerifyRegA .| kVerifyRegB)%flag;
  V 0xDE OR_INT_LIT8 "or-int/lit8" k22b true kNone (kContinue .| kOr .| kRegCFieldOrConstant)%flag (kVerifyRegA .| kVerifyRegB)%flag;
  V 0xDF XOR_INT_LIT8 "xor-int/lit8" k22b true kNone (kContinue .| kXor .| kRegCFieldOrConstant)%flag (kVerifyRegA .| kVerifyRegB)%flag;
  V 0xE0 SHL_INT_LIT8 "shl-int/lit8" k22b true kNone (kContinue .| kShl .| kRegCFieldOrConstant)%flag (kVerifyRegA .| kVerifyRegB)%flag;
  V 0xE1 SHR_INT_LIT8 "shr-int/lit8" k22b true kNone (kContinue .| kShr .| kRegCFieldOrConstant)%flag (kVerifyRegA .| kVerifyRegB)%flag;
  V 0xE2 USHR_INT_LIT8 "ushr-int/lit8" k22b true kNone (kContinue .| kUshr .| kRegCFieldOrConstant)%flag (kVerifyRegA .| kVerifyRegB)%flag;
  V 0xE3 IGET_QUICK "iget-quick" k22c true kFieldRef (kContinue .| kThrow .| kLoad .| kRegCFieldOrConstant)%flag (kVerifyRegA .| kVerifyRegB .| kVerifyRuntimeOnly)%flag;
  V 0xE4 IGET_WIDE_QUICK "iget-wide-quick" k22c true kFieldRef (kContinue .| kThrow .| kLoad .| kRegCFieldOrConstant)%flag (kVerifyRegAWide .| kVerifyRegB .| kVerifyRuntimeOnly)%flag;
  V 0xE5 IGET_OBJECT_QUICK "iget-object-quick" k22c true kFieldRef (kContinue .| kThrow .| kLoad .| kRegCFieldOrConstant)%flag (kVerifyRegA .| kVerifyRegB .| kVerifyRuntimeOnly)%flag;
  V 0xE6 IPUT_QUICK "iput-quick" k22c false kFieldRef (kContinue .| kThrow .| kStore .| kRegCFieldOrConstant)%flag (kVerifyRegA .| kVerifyRegB .| kVerifyRuntimeOnly)%flag;
  V 0xE7 IPUT_WIDE_QUICK "iput-wide-quick" k22c false kFieldRef (kContinue .| kThrow .| kStore .| kRegCFieldOrConstant)%flag (kVerifyRegAWide .| kVerifyRegB .| kVerifyRuntimeOnly)%flag;
  V 0xE8 IPUT_OBJECT_QUICK "iput-object-quick" k22c false kFieldRef (kContinue .| kThrow .| kStore .| kRegCFieldOrConstant)%flag (kVerifyRegA .| kVerifyRegB .| kVerifyRuntimeOnly)%flag;
  V 0xE9 INVOKE_VIRTUAL_QUICK "invoke-virtual-quick" k35c false kMethodRef (kContinue .| kThrow .| kInvoke)%flag (kVerifyVarArgNonZero .| kVerifyRuntimeOnly)%flag;
  V 0xEA INVOKE_VIRTUAL_RANGE_QUICK "invoke-virtual/range-quick" k3rc false kMethodRef (kContinue .| kThrow .| kInvoke)%flag (kVerifyVarArgRangeNonZero .| kVerifyRuntimeOnly)%flag;
  V 0xEB IPUT_BOOLEAN_QUICK "iput-boolean-quick" k22c false kFieldRef (kContinue .| kThrow .| kStore .| kRegCFieldOrConstant)%flag (kVerifyRegA .| kVerifyRegB .| kVerifyRuntimeOnly)%flag;
  V 0xEC IPUT_BYTE_QUICK "iput-byte-quick" k22c false kFieldRef (kContinue .| kThrow .| kStore .| kRegCFieldOrConstant)%flag (kVerifyRegA .| kVerifyRegB .| kVerifyRuntimeOnly)%flag;
  V 0xED IPUT_CHAR_QUICK "iput-char-quick" k22c false kFieldRef (kContinue .| kThrow .| kStore .| kRegCFieldOrConstant)%flag (kVerifyRegA .| kVerifyRegB .| kVerifyRuntimeOnly)%flag;
  V 0xEE IPUT_SHORT_QUICK "iput-short-quick" k22c false kFieldRef (kContinue .| kThrow .| kStore .| kRegCFieldOrConstant)%flag (kVerifyRegA .| kVerifyRegB .| kVerifyRuntimeOnly)%flag;
  V 0xEF UNUSED_EF "unused-ef" k10x false kUnknown 0 kVerifyError;
  V 0xF0 UNUSED_F0 "unused-f0" k10x false kUnknown 0 kVerifyError;
  V 0xF1 UNUSED_F1 "unused-f1" k10x false kUnknown 0 kVerifyError;
  V 0xF2 UNUSED_F2 "unused-f2" k10x false kUnknown 0 kVerifyError;
  V 0xF3 UNUSED_F3 "unused-f3" k10x false kUnknown 0 kVerifyError;
  V 0xF4 UNUSED_F4 "unused-f4" k10x false kUnknown 0 kVerifyError;
  V 0xF5 UNUSED_F5 "unused-f5" k10x false kUnknown 0 kVerifyError;
  V 0xF6 UNUSED_F6 "unused-f6" k10x false kUnknown 0 kVerifyError;
  V 0xF7 UNUSED_F7 "unused-f7" k10x false kUnknown 0 kVerifyError;
  V 0xF8 UNUSED_F8 "unused-f8" k10x false kUnknown 0 kVerifyError;
  V 0xF9 UNUSED_F9 "unused-f9" k10x false kUnknown 0 kVerifyError;
  V 0xFA UNUSED_FA "unused-fa" k10x false kUnknown 0 kVerifyError;
  V 0xFB UNUSED_FB "unused-fb" k10x false kUnknown 0 kVerifyError;
  V 0xFC UNUSED_FC "unused-fc" k10x false kUnknown 0 kVerifyError;
  V 0xFD UNUSED_FD "unused-fd" k10x false kUnknown 0 kVerifyError;
  V 0xFE UNUSED_FE "unused-fe" k10x false kUnknown 0 kVerifyError;
  V 0xFF UNUSED_FF "unused-ff" k10x false kUnknown 0 kVerifyError].

Definition DEX_INSTRUCTION_LIST : list instruction_row :=
  DEX_INSTRUCTION_LIST_00_7F ++ DEX_INSTRUCTION_LIST_80_FF.

(** The value of an enumerator. *)
Definition code_index (c : Code) : Z :=
  match c with
  | NOP => 0x00 | MOVE => 0x01 | MOVE_FROM16 => 0x02 | MOVE_16 => 0x03 | MOVE_WIDE => 0x04
  | MOVE_WIDE_FROM16 => 0x05 | MOVE_WIDE_16 => 0x06 | MOVE_OBJECT => 0x07
  | MOVE_OBJECT_FROM16 => 0x08 | MOVE_OBJECT_16 => 0x09 | MOVE_RESULT => 0x0A
  | MOVE_RESULT_WIDE => 0x0B | MOVE_RESULT_OBJECT => 0x0C | MOVE_EXCEPTION => 0x0D
  | RETURN_VOID => 0x0E | RETURN => 0x0F | RETURN_WIDE => 0x10 | RETURN_OBJECT => 0x11
  | CONST_4 => 0x12 | CONST_16 => 0x13 | CONST => 0x14 | CONST_HIGH16 => 0x15
  | CONST_WIDE_16 => 0x16 | CONST_WIDE_32 => 0x17 | CONST_WIDE => 0x18
  | CONST_WIDE_HIGH16 => 0x19 | CONST_STRING => 0x1A | CONST_STRING_JUMBO => 0x1B
  | CONST_CLASS => 0x1C | MONITOR_ENTER => 0x1D | MONITOR_EXIT => 0x1E | CHECK_CAST => 0x1F
  | INSTANCE_OF => 0x20 | ARRAY_LENGTH => 0x21 | NEW_INSTANCE => 0x22 | NEW_ARRAY => 0x23
  | FILLED_NEW_ARRAY => 0x24 | FILLED_NEW_ARRAY_RANGE => 0x25 | FILL_ARRAY_DATA => 0x26
  | THROW => 0x27 | GOTO => 0x28 | GOTO_16 => 0x29 | GOTO_32 => 0x2A
  | PACKED_SWITCH => 0x2B | SPARSE_SWITCH => 0x2C | CMPL_FLOAT => 0x2D | CMPG_FLOAT => 0x2E
  | CMPL_DOUBLE => 0x2F | CMPG_DOUBLE => 0x30 | CMP_LONG => 0x31 | IF_EQ => 0x32
  | IF_NE => 0x33 | IF_LT => 0x34 | IF_GE => 0x35 | IF_GT => 0x36 | IF_LE => 0x37
  | IF_EQZ => 0x38 | IF_NEZ => 0x39 | IF_LTZ => 0x3A | IF_GEZ => 0x3B | IF_GTZ => 0x3C
  | IF_LEZ => 0x3D | UNUSED_3E => 0x3E | UNUSED_3F => 0x3F | UNUSED_40 => 0x40
  | UNUSED_41 => 0x41 | UNUSED_42 => 0x42 | UNUSED_43 => 0x43 | AGET => 0x44
  | AGET_WIDE => 0x45 | AGET_OBJECT => 0x46 | AGET_BOOLEAN => 0x47 | AGET_BYTE => 0x48
  | AGET_CHAR => 0x49 | AGET_SHORT => 0x4A | APUT => 0x4B | APUT_WIDE => 0x4C
  | APUT_OBJECT => 0x4D | APUT_BOOLEAN => 0x4E | APUT_BYTE => 0x4F | APUT_CHAR => 0x50
  | APUT_SHORT => 0x51 | IGET => 0x52 | IGET_WIDE => 0x53 | IGET_OBJECT => 0x54
  | IGET_BOOLEAN => 0x55 | IGET_BYTE => 0x56 | IGET_CHAR => 0x57 | IGET_SHORT => 0x58
  | IPUT => 0x59 | IPUT_WIDE => 0x5A | IPUT_OBJECT => 0x5B | IPUT_BOOLEAN => 0x5C
  | IPUT_BYTE => 0x5D | IPUT_CHAR => 0x5E | IPUT_SHORT => 0x5F | SGET => 0x60
  | SGET_WIDE => 0x61 | SGET_OBJECT => 0x62 | SGET_BOOLEAN => 0x63 | SGET_BYTE => 0x64
  | SGET_CHAR => 0x65 | SGET_SHORT => 0x66 | SPUT => 0x67 | SPUT_WIDE => 0x68
  | SPUT_OBJECT => 0x69 | SPUT_BOOLEAN => 0x6A | SPUT_BYTE => 0x6B | SPUT_CHAR => 0x6C
  | SPUT_SHORT => 0x6D | INVOKE_VIRTUAL => 0x6E | INVOKE_SUPER => 0x6F
  | INVOKE_DIRECT => 0x70 | INVOKE_STATIC => 0x71 | INVOKE_INTERFACE => 0x72
  | RETURN_VOID_BARRIER => 0x73 | INVOKE_VIRTUAL_RANGE => 0x74 | INVOKE_SUPER_RANGE => 0x75
  | INVOKE_DIRECT_RANGE => 0x76 | INVOKE_STATIC_RANGE => 0x77
  | INVOKE_INTERFACE_RANGE => 0x78 | UNUSED_79 => 0x79 | UNUSED_7A => 0x7A
  | NEG_INT => 0x7B | NOT_INT => 0x7C | NEG_LONG => 0x7D | NOT_LONG => 0x7E
  | NEG_FLOAT => 0x7F | NEG_DOUBLE => 0x80 | INT_TO_LONG => 0x81 | INT_TO_FLOAT => 0x82
  | INT_TO_DOUBLE => 0x83 | LONG_TO_INT => 0x84 | LONG_TO_FLOAT => 0x85
  | LONG_TO_DOUBLE => 0x86 | FLOAT_TO_INT => 0x87 | FLOAT_TO_LONG => 0x88
  | FLOAT_TO_DOUBLE => 0x89 | DOUBLE_TO_INT => 0x8A | DOUBLE_TO_LONG => 0x8B
  | DOUBLE_TO_FLOAT => 0x8C | INT_TO_BYTE => 0x8D | INT_TO_CHAR => 0x8E
  | INT_TO_SHORT => 0x8F | ADD_INT => 0x90 | SUB_INT => 0x91 | MUL_INT => 0x92
  | DIV_INT => 0x93 | REM_INT => 0x94 | AND_INT => 0x95 | OR_INT => 0x96 | XOR_INT => 0x97
  | SHL_INT => 0x98 | SHR_INT => 0x99 | USHR_INT => 0x9A | ADD_LONG => 0x9B
  | SUB_LONG => 0x9C | MUL_LONG => 0x9D | DIV_LONG => 0x9E | REM_LONG => 0x9F
  | AND_LONG => 0xA0 | OR_LONG => 0xA1 | XOR_LONG => 0xA2 | SHL_LONG => 0xA3
  | SHR_LONG => 0xA4 | USHR_LONG => 0xA5 | ADD_FLOAT => 0xA6 | SUB_FLOAT => 0xA7
  | MUL_FLOAT => 0xA8 | DIV_FLOAT => 0xA9 | REM_FLOAT => 0xAA | ADD_DOUBLE => 0xAB
  | SUB_DOUBLE => 0xAC | MUL_DOUBLE => 0xAD | DIV_DOUBLE => 0xAE | REM_DOUBLE => 0xAF
  | ADD_INT_2ADDR => 0xB0 | SUB_INT_2ADDR => 0xB1 | MUL_INT_2ADDR => 0xB2
  | DIV_INT_2ADDR => 0xB3 | REM_INT_2ADDR => 0xB4 | AND_INT_2ADDR => 0xB5
  | OR_INT_2ADDR => 0xB6 | XOR_INT_2ADDR => 0xB7 | SHL_INT_2ADDR => 0xB8
  | SHR_INT_2ADDR => 0xB9 | USHR_INT_2ADDR => 0xBA | ADD_LONG_2ADDR => 0xBB
  | SUB_LONG_2ADDR => 0xBC | MUL_LONG_2ADDR => 0xBD | DIV_LONG_2ADDR => 0xBE
  | REM_LONG_2ADDR => 0xBF | AND_LONG_2ADDR => 0xC0 | OR_LONG_2ADDR => 0xC1
  | XOR_LONG_2ADDR => 0xC2 | SHL_LONG_2ADDR => 0xC3 | SHR_LONG_2ADDR => 0xC4
  | USHR_LONG_2ADDR => 0xC5 | ADD_FLOAT_2ADDR => 0xC6 | SUB_FLOAT_2ADDR => 0xC7
  | MUL_FLOAT_2ADDR => 0xC8 | DIV_FLOAT_2ADDR => 0xC9 | REM_FLOAT_2ADDR => 0xCA
  | ADD_DOUBLE_2ADDR => 0xCB | SUB_DOUBLE_2ADDR => 0xCC | MUL_DOUBLE_2ADDR => 0xCD
  | DIV_DOUBLE_2ADDR => 0xCE | REM_DOUBLE_2ADDR => 0xCF | ADD_INT_LIT16 => 0xD0
  | RSUB_INT => 0xD1 | MUL_INT_LIT16 => 0xD2 | DIV_INT_LIT16 => 0xD3
  | REM_INT_LIT16 => 0xD4 | AND_INT_LIT16 => 0xD5 | OR_INT_LIT16 => 0xD6
  | XOR_INT_LIT16 => 0xD7 | ADD_INT_LIT8 => 0xD8 | RSUB_INT_LIT8 => 0xD9
  | MUL_INT_LIT8 => 0xDA | DIV_INT_LIT8 => 0xDB | REM_INT_LIT8 => 0xDC
  | AND_INT_LIT8 => 0xDD | OR_INT_LIT8 => 0xDE | XOR_INT_LIT8 => 0xDF
  | SHL_INT_LIT8 => 0xE0 | SHR_INT_LIT8 => 0xE1 | USHR_INT_LIT8 => 0xE2
  | IGET_QUICK => 0xE3 | IGET_WIDE_QUICK => 0xE4 | IGET_OBJECT_QUICK => 0xE5
  | IPUT_QUICK => 0xE6 | IPUT_WIDE_QUICK => 0xE7 | IPUT_OBJECT_QUICK => 0xE8
  | INVOKE_VIRTUAL_QUICK => 0xE9 | INVOKE_VIRTUAL_RANGE_QUICK => 0xEA
  | IPUT_BOOLEAN_QUICK => 0xEB | IPUT_BYTE_QUICK => 0xEC | IPUT_CHAR_QUICK => 0xED
  | IPUT_SHORT_QUICK => 0xEE | UNUSED_EF => 0xEF | UNUSED_F0 => 0xF0 | UNUSED_F1 => 0xF1
  | UNUSED_F2 => 0xF2 | UNUSED_F3 => 0xF3 | UNUSED_F4 => 0xF4 | UNUSED_F5 => 0xF5
  | UNUSED_F6 => 0xF6 | UNUSED_F7 => 0xF7 | UNUSED_F8 => 0xF8 | UNUSED_F9 => 0xF9
  | UNUSED_FA => 0xFA | UNUSED_FB => 0xFB | UNUSED_FC => 0xFC | UNUSED_FD => 0xFD
  | UNUSED_FE => 0xFE | UNUSED_FF => 0xFF
  end.

(** [static_cast<Code>(z)] for a byte [z]. *)
Definition Code_of_byte (z : Z) : Code :=
  match DEX_INSTRUCTION_LIST !! Z.to_nat z with
  | Some r => row_cname r
  | None => NOP
  end.

(** The row of an opcode, through which the five arrays [kInstructionNames],
    [kInstructionFormats], [kInstructionFlags], [kInstructionVerifyFlags] and
    [kInstructionSizeInCodeUnits] are generated. *)
Definition instruction_row_of (c : Code) : instruction_row :=
  match DEX_INSTRUCTION_LIST !! Z.to_nat (code_index c) with
  | Some r => r
  | None => V 0 NOP "nop" k10x false kNone kContinue kVerifyNone
  end.

Definition kInstructionNames (c : Code) : string := row_pname (instruction_row_of c).
Definition kInstructionFormats (c : Code) : Format := row_format (instruction_row_of c).
Definition kInstructionFlags (c : Code) : Z := row_flags (instruction_row_of c).
Definition kInstructionVerifyFlags (c : Code) : Z := row_verify (instruction_row_of c).

Definition format_between (lo f hi : Format) : bool :=
  (format_rank lo <=? format_rank f) && (format_rank f <=? format_rank hi).

Definition kInstructionSizeInCodeUnits (c : Code) : Z :=
  let format := row_format (instruction_row_of c) in
  if row_opcode (instruction_row_of c) =? code_index NOP then -1
  else if format_between k10x format k10t then 1
  else if format_between k20t format k22c then 2
  else if format_between k32x format k3rc then 3
  else if bool_decide (format = k51l) then 5 else -1.

(** ** Reasoning over all opcodes *)

Definition all_codes : list Code := row_cname <$> DEX_INSTRUCTION_LIST.

Lemma Code_of_byte_index c : Code_of_byte (code_index c) = c.
Proof. by destruct c. Qed.

Lemma code_index_range c : 0 <= code_index c < 256.
Proof. destruct c; simpl; lia. Qed.

Lemma code_index_inj c d : code_index c = code_index d -> c = d.
Proof. intros H. by rewrite <- (Code_of_byte_index c), H, Code_of_byte_index. Qed.

#[export] Instance Code_eq_dec : EqDecision Code.
Proof.
  intros c d. destruct (decide (code_index c = code_index d)) as [H|H].
  - left. by apply code_index_inj.
  - right. by intros ->.
Defined.

Lemma all_codes_complete c : In c all_codes.
Proof.
  apply list_elem_of_In, list_elem_of_fmap.
  exists (instruction_row_of c). split; [by destruct c|].
  apply list_elem_of_lookup. exists (Z.to_nat (code_index c)). by destruct c.
Qed.

(** A decidable fact about opcodes is settled by evaluating it on the table. *)
Lemma forall_codes (P : Code -> bool) : forallb P all_codes = true -> forall c, P c = true.
Proof. intros H c. by apply (proj1 (forallb_forall P all_codes) H), all_codes_complete. Qed.

Lemma byte_cases (P : Z -> bool) z :
  forallb (fun n => P (Z.of_nat n)) (seq 0 256) = true -> 0 <= z < 256 -> P z = true.
Proof.
  intros H Hz. rewrite forallb_forall in H. specialize (H (Z.to_nat z)).
  rewrite Z2Nat.id in H by lia. apply H. apply in_seq. lia.
Qed.

Lemma code_index_of_byte z : 0 <= z < 256 -> code_index (Code_of_byte z) = z.
Proof.
  intros Hz. apply Z.eqb_eq. revert Hz. by apply (byte_cases (fun z => code_index (Code_of_byte z) =? z)).
Qed.
