(* ===== verification/DexInstruction.v ===== *)
(** * Instruction decoding (runtime/dex_instruction.h, -inl.h and .cc)

    An [Instruction*] is a position in an array of 16-bit code units.  The
    accessors are translated one by one, with the [DCHECK]s they carry: an
    operand accessor used on an instruction of another format, or fed the first
    code unit of another instruction, is the fault [CheckFailed], and a fetch
    outside the code array is [OutOfBounds]. *)

From stdpp Require Import strings.
From S2P Require Import Prelude DexOpcodes.

Record Instruction : Type := At {
  insns : list Z;    (**r the code units of the method *)
  pos : Z;           (**r where the instruction starts *)
}.

(** NOP-encoded payload signatures. *)
Definition kPackedSwitchSignature : Z := 0x0100.
Definition kSparseSwitchSignature : Z := 0x0200.
Definition kArrayDataSignature : Z := 0x0300.

Definition kMaxVarArgRegs : Z := 5.

Definition Fetch16 (i : Instruction) (offset : Z) : res Z := zget (insns i) (pos i + offset).

Definition Fetch32 (i : Instruction) (offset : Z) : res Z :=
  lo ← Fetch16 i offset; hi ← Fetch16 i (offset + 1);
  Ok (Z.lor lo (uint32 (Z.shiftl hi 16))).

Definition RelativeAt (i : Instruction) (offset : Z) : Instruction :=
  At (insns i) (pos i + offset).

Definition GetDexPc (i : Instruction) : Z := uint32 (pos i).

(** [DCHECK_EQ(inst_data, Fetch16(0))] *)
Definition dcheck_data (i : Instruction) (inst_data : Z) : res unit :=
  w ← Fetch16 i 0; check (inst_data =? w).

(** [Opcode(inst_data)] and [Opcode()] *)
Definition Opcode_data (i : Instruction) (inst_data : Z) : res Code :=
  dcheck_data i inst_data;; Ok (Code_of_byte (Z.land inst_data 0xFF)).
Definition Opcode (i : Instruction) : res Code :=
  inst_data ← Fetch16 i 0; Opcode_data i inst_data.

Definition FormatOf (opcode : Code) : Format := kInstructionFormats opcode.
Definition FlagsOf (opcode : Code) : Z := kInstructionFlags opcode.
Definition VerifyFlagsOf (opcode : Code) : Z := kInstructionVerifyFlags opcode.
Definition Name (opcode : Code) : string := kInstructionNames opcode.

Definition InstA (i : Instruction) (inst_data : Z) : res Z :=
  dcheck_data i inst_data;; Ok (uint8 (Z.land (Z.shiftr inst_data 8) 0x0f)).
Definition InstB (i : Instruction) (inst_data : Z) : res Z :=
  dcheck_data i inst_data;; Ok (uint8 (Z.shiftr inst_data 12)).
Definition InstAA (i : Instruction) (inst_data : Z) : res Z :=
  dcheck_data i inst_data;; Ok (uint8 (Z.shiftr inst_data 8)).

(** [DCHECK_EQ(FormatOf(Opcode()), f)] *)
Definition dcheck_format (i : Instruction) (f : Format) : res unit :=
  opcode ← Opcode i; check (bool_decide (FormatOf opcode = f)).

(** ** Operand A *)

Definition VRegA_10t (i : Instruction) (inst_data : Z) : res Z :=
  dcheck_format i k10t;; aa ← InstAA i inst_data; Ok (int8 aa).

Definition VRegA_10x (i : Instruction) (inst_data : Z) : res Z :=
  dcheck_format i k10x;; InstAA i inst_data.

Definition VRegA_11n (i : Instruction) (inst_data : Z) : res Z :=
  dcheck_format i k11n;; InstA i inst_data.

Definition VRegA_11x (i : Instruction) (inst_data : Z) : res Z :=
  dcheck_format i k11x;; InstAA i inst_data.

Definition VRegA_12x (i : Instruction) (inst_data : Z) : res Z :=
  dcheck_format i k12x;; InstA i inst_data.

Definition VRegA_20t (i : Instruction) : res Z :=
  dcheck_format i k20t;; w ← Fetch16 i 1; Ok (int16 w).

Definition VRegA_21c (i : Instruction) (inst_data : Z) : res Z :=
  dcheck_format i k21c;; InstAA i inst_data.

Definition VRegA_21h (i : Instruction) (inst_data : Z) : res Z :=
  dcheck_format i k21h;; InstAA i inst_data.

Definition VRegA_21s (i : Instruction) (inst_data : Z) : res Z :=
  dcheck_format i k21s;; InstAA i inst_data.

Definition VRegA_21t (i : Instruction) (inst_data : Z) : res Z :=
  dcheck_format i k21t;; InstAA i inst_data.

Definition VRegA_22b (i : Instruction) (inst_data : Z) : res Z :=
  dcheck_format i k22b;; InstAA i inst_data.

Definition VRegA_22c (i : Instruction) (inst_data : Z) : res Z :=
  dcheck_format i k22c;; InstA i inst_data.

Definition VRegA_22s (i : Instruction) (inst_data : Z) : res Z :=
  dcheck_format i k22s;; InstA i inst_data.

Definition VRegA_22t (i : Instruction) (inst_data : Z) : res Z :=
  dcheck_format i k22t;; InstA i inst_data.

Definition VRegA_22x (i : Instruction) (inst_data : Z) : res Z :=
  dcheck_format i k22x;; InstAA i inst_data.

Definition VRegA_23x (i : Instruction) (inst_data : Z) : res Z :=
  dcheck_format i k23x;; InstAA i inst_data.

Definition VRegA_30t (i : Instruction) : res Z :=
  dcheck_format i k30t;; w ← Fetch32 i 1; Ok (int32 w).

Definition VRegA_31c (i : Instruction) (inst_data : Z) : res Z :=
  dcheck_format i k31c;; InstAA i inst_data.

Definition VRegA_31i (i : Instruction) (inst_data : Z) : res Z :=
  dcheck_format i k31i;; InstAA i inst_data.

Definition VRegA_31t (i : Instruction) (inst_data : Z) : res Z :=
  dcheck_format i k31t;; InstAA i inst_data.

Definition VRegA_32x (i : Instruction) : res Z :=
  dcheck_format i k32x;; Fetch16 i 1.

Definition VRegA_35c (i : Instruction) (inst_data : Z) : res Z :=
  dcheck_format i k35c;; InstB i inst_data.

Definition VRegA_3rc (i : Instruction) (inst_data : Z) : res Z :=
  dcheck_format i k3rc;; InstAA i inst_data.

Definition VRegA_51l (i : Instruction) (inst_data : Z) : res Z :=
  dcheck_format i k51l;; InstAA i inst_data.

(** ** Operand B *)

Definition VRegB_11n (i : Instruction) (inst_data : Z) : res Z :=
  dcheck_format i k11n;; b ← InstB i inst_data; Ok (int8 (Z.shiftr (int32 (Z.shiftl b 28)) 28)).

Definition VRegB_12x (i : Instruction) (inst_data : Z) : res Z :=
  dcheck_format i k12x;; InstB i inst_data.

Definition VRegB_21c (i : Instruction) : res Z :=
  dcheck_format i k21c;; Fetch16 i 1.

Definition VRegB_21h (i : Instruction) : res Z :=
  dcheck_format i k21h;; Fetch16 i 1.

Definition VRegB_21s (i : Instruction) : res Z :=
  dcheck_format i k21s;; w ← Fetch16 i 1; Ok (int16 w).

Definition VRegB_21t (i : Instruction) : res Z :=
  dcheck_format i k21t;; w ← Fetch16 i 1; Ok (int16 w).

Definition VRegB_22b (i : Instruction) : res Z :=
  dcheck_format i k22b;; w ← Fetch16 i 1; Ok (uint8 (Z.land w 0xff)).

Definition VRegB_22c (i : Instruction) (inst_data : Z) : res Z :=
  dcheck_format i k22c;; InstB i inst_data.

Definition VRegB_22s (i : Instruction) (inst_data : Z) : res Z :=
  dcheck_format i k22s;; InstB i inst_data.

Definition VRegB_22t (i : Instruction) (inst_data : Z) : res Z :=
  dcheck_format i k22t;; InstB i inst_data.

Definition VRegB_22x (i : Instruction) : res Z :=
  dcheck_format i k22x;; Fetch16 i 1.

Definition VRegB_23x (i : Instruction) : res Z :=
  dcheck_format i k23x;; w ← Fetch16 i 1; Ok (uint8 (Z.land w 0xff)).

Definition VRegB_31c (i : Instruction) : res Z :=
  dcheck_format i k31c;; Fetch32 i 1.

Definition VRegB_31i (i : Instruction) : res Z :=
  dcheck_format i k31i;; w ← Fetch32 i 1; Ok (int32 w).

Definition VRegB_31t (i : Instruction) : res Z :=
  dcheck_format i k31t;; w ← Fetch32 i 1; Ok (int32 w).

Definition VRegB_32x (i : Instruction) : res Z :=
  dcheck_format i k32x;; Fetch16 i 2.

Definition VRegB_35c (i : Instruction) : res Z :=
  dcheck_format i k35c;; Fetch16 i 1.

Definition VRegB_3rc (i : Instruction) : res Z :=
  dcheck_format i k3rc;; Fetch16 i 1.

Definition VRegB_51l (i : Instruction) : res Z :=
  dcheck_format i k51l;; lo ← Fetch32 i 1; hi ← Fetch32 i 3;
  Ok (Z.lor lo (uint64 (Z.shiftl hi 32))).

(** ** Operand C *)

Definition VRegC_22b (i : Instruction) : res Z :=
  dcheck_format i k22b;; w ← Fetch16 i 1; Ok (int8 (Z.shiftr w 8)).

Definition VRegC_22c (i : Instruction) : res Z :=
  dcheck_format i k22c;; Fetch16 i 1.

Definition VRegC_22s (i : Instruction) : res Z :=
  dcheck_format i k22s;; w ← Fetch16 i 1; Ok (int16 w).

Definition VRegC_22t (i : Instruction) : res Z :=
  dcheck_format i k22t;; w ← Fetch16 i 1; Ok (int16 w).

Definition VRegC_23x (i : Instruction) : res Z :=
  dcheck_format i k23x;; w ← Fetch16 i 1; Ok (uint8 (Z.shiftr w 8)).

Definition VRegC_35c (i : Instruction) : res Z :=
  dcheck_format i k35c;; w ← Fetch16 i 2; Ok (uint8 (Z.land w 0x0f)).

Definition VRegC_3rc (i : Instruction) : res Z :=
  dcheck_format i k3rc;; Fetch16 i 2.

(** ** Access by format *)

(** The overloads without [inst_data]: [VRegX_f() = VRegX_f(Fetch16(0))]. *)
Definition fetched (acc : Instruction -> Z -> res Z) (i : Instruction) : res Z :=
  inst_data ← Fetch16 i 0; acc i inst_data.

Definition HasVRegA (i : Instruction) : res bool :=
  opcode ← Opcode i;
  Ok match FormatOf opcode with
     | k10t | k10x | k11n | k11x | k12x | k20t | k21c | k21h | k21s | k21t | k22b | k22c
     | k22s | k22t | k22x | k23x | k30t | k31c | k31i | k31t | k32x | k35c | k3rc | k51l =>
         true
     end.

Definition VRegA (i : Instruction) : res Z :=
  opcode ← Opcode i;
  v ← match FormatOf opcode with
      | k10t => fetched VRegA_10t i
      | k10x => fetched VRegA_10x i
      | k11n => fetched VRegA_11n i
      | k11x => fetched VRegA_11x i
      | k12x => fetched VRegA_12x i
      | k20t => VRegA_20t i
      | k21c => fetched VRegA_21c i
      | k21h => fetched VRegA_21h i
      | k21s => fetched VRegA_21s i
      | k21t => fetched VRegA_21t i
      | k22b => fetched VRegA_22b i
      | k22c => fetched VRegA_22c i
      | k22s => fetched VRegA_22s i
      | k22t => fetched VRegA_22t i
      | k22x => fetched VRegA_22x i
      | k23x => fetched VRegA_23x i
      | k30t => VRegA_30t i
      | k31c => fetched VRegA_31c i
      | k31i => fetched VRegA_31i i
      | k31t => fetched VRegA_31t i
      | k32x => VRegA_32x i
      | k35c => fetched VRegA_35c i
      | k3rc => fetched VRegA_3rc i
      | k51l => fetched VRegA_51l i
      end;
  Ok (int32 v).

Definition HasVRegB (i : Instruction) : res bool :=
  opcode ← Opcode i;
  Ok match FormatOf opcode with
     | k11n | k12x | k21c | k21h | k21s | k21t | k22b | k22c | k22s | k22t | k22x | k23x
     | k31c | k31i | k31t | k32x | k35c | k3rc | k51l => true
     | _ => false
     end.

Definition HasWideVRegB (i : Instruction) : res bool :=
  opcode ← Opcode i; Ok (bool_decide (FormatOf opcode = k51l)).

Definition VRegB (i : Instruction) : res Z :=
  opcode ← Opcode i;
  v ← match FormatOf opcode with
      | k11n => fetched VRegB_11n i
      | k12x => fetched VRegB_12x i
      | k21c => VRegB_21c i
      | k21h => VRegB_21h i
      | k21s => VRegB_21s i
      | k21t => VRegB_21t i
      | k22b => VRegB_22b i
      | k22c => fetched VRegB_22c i
      | k22s => fetched VRegB_22s i
      | k22t => fetched VRegB_22t i
      | k22x => VRegB_22x i
      | k23x => VRegB_23x i
      | k31c => VRegB_31c i
      | k31i => VRegB_31i i
      | k31t => VRegB_31t i
      | k32x => VRegB_32x i
      | k35c => VRegB_35c i
      | k3rc => VRegB_3rc i
      | k51l => VRegB_51l i
      | _ => Fault Fatal
      end;
  Ok (int32 v).

Definition WideVRegB (i : Instruction) : res Z := VRegB_51l i.

Definition HasVRegC (i : Instruction) : res bool :=
  opcode ← Opcode i;
  Ok match FormatOf opcode with
     | k22b | k22c | k22s | k22t | k23x | k35c | k3rc => true
     | _ => false
     end.

Definition VRegC (i : Instruction) : res Z :=
  opcode ← Opcode i;
  v ← match FormatOf opcode with
      | k22b => VRegC_22b i
      | k22c => VRegC_22c i
      | k22s => VRegC_22s i
      | k22t => VRegC_22t i
      | k23x => VRegC_23x i
      | k35c => VRegC_35c i
      | k3rc => VRegC_3rc i
      | _ => Fault Fatal
      end;
  Ok (int32 v).

Definition HasVarArgs (i : Instruction) : res bool :=
  opcode ← Opcode i; Ok (bool_decide (FormatOf opcode = k35c)).

(** The entries of [arg] that the call writes, in order; the others keep whatever
    the array held. *)
Definition GetVarArgs (i : Instruction) (inst_data : Z) : res (list Z) :=
  dcheck_format i k35c;;
  regList ← Fetch16 i 2;
  count ← InstB i inst_data;
  check (count <=? 5);;
  arg4 ← InstA i inst_data;
  let arg3 := Z.land (Z.shiftr regList 12) 0x0f in
  let arg2 := Z.land (Z.shiftr regList 8) 0x0f in
  let arg1 := Z.land (Z.shiftr regList 4) 0x0f in
  let arg0 := Z.land regList 0x0f in
  Ok match count with
     | 5 => [arg0; arg1; arg2; arg3; arg4]
     | 4 => [arg0; arg1; arg2; arg3]
     | 3 => [arg0; arg1; arg2]
     | 2 => [arg0; arg1]
     | 1 => [arg0]
     | _ => []
     end.

(** ** Sizes and successors *)

Definition SizeInCodeUnitsComplexOpcode (i : Instruction) : res Z :=
  w0 ← Fetch16 i 0;
  if w0 =? kPackedSwitchSignature then
    n ← Fetch16 i 1; Ok (4 + n * 2)
  else if w0 =? kSparseSwitchSignature then
    n ← Fetch16 i 1; Ok (2 + n * 4)
  else if w0 =? kArrayDataSignature then
    element_size ← Fetch16 i 1;
    w2 ← Fetch16 i 2; w3 ← Fetch16 i 3;
    let length := Z.lor w2 (uint32 (Z.shiftl w3 16)) in
    Ok (4 + uint32 (uint32 (element_size * length) + 1) / 2)
  else if Z.land w0 0xFF =? 0 then Ok 1
  else Fault Fatal.

Definition SizeInCodeUnits (i : Instruction) : res Z :=
  opcode ← Opcode i;
  let result := kInstructionSizeInCodeUnits opcode in
  if result <? 0 then SizeInCodeUnitsComplexOpcode i else Ok result.

Definition Next (i : Instruction) : res Instruction :=
  n ← SizeInCodeUnits i; Ok (RelativeAt i n).

Definition dcheck_format_between (i : Instruction) (lo hi : Format) : res unit :=
  opcode ← Opcode i; check (format_between lo (FormatOf opcode) hi).

Definition Next_1xx (i : Instruction) : res Instruction :=
  dcheck_format_between i k10x k10t;; Ok (RelativeAt i 1).
Definition Next_2xx (i : Instruction) : res Instruction :=
  dcheck_format_between i k20t k22c;; Ok (RelativeAt i 2).
Definition Next_3xx (i : Instruction) : res Instruction :=
  dcheck_format_between i k32x k3rc;; Ok (RelativeAt i 3).
Definition Next_51l (i : Instruction) : res Instruction :=
  dcheck_format i k51l;; Ok (RelativeAt i 5).

(** ** In-place changes, used by the dex-to-dex compiler *)

Definition store16 (i : Instruction) (offset w : Z) : res Instruction :=
  code ← zset (insns i) (pos i + offset) w; Ok (At code (pos i)).

Definition SetOpcode (i : Instruction) (opcode : Code) : res Instruction :=
  w ← Fetch16 i 0;
  store16 i 0 (uint16 (Z.lor (Z.land w 0xff00) (code_index opcode))).

Definition SetVRegA_10x (i : Instruction) (val : Z) : res Instruction :=
  dcheck_format i k10x;;
  w ← Fetch16 i 0;
  store16 i 0 (uint16 (Z.lor (Z.shiftl val 8) (Z.land w 0x00ff))).

Definition SetVRegB_3rc (i : Instruction) (val : Z) : res Instruction :=
  dcheck_format i k3rc;; store16 i 1 val.
Definition SetVRegB_35c (i : Instruction) (val : Z) : res Instruction :=
  dcheck_format i k35c;; store16 i 1 val.
Definition SetVRegC_22c (i : Instruction) (val : Z) : res Instruction :=
  dcheck_format i k22c;; store16 i 1 val.

(** ** Properties recorded in the table *)

Definition has_flag (flags bit : Z) : bool := negb (Z.land flags bit =? 0).

Definition IsBranch (i : Instruction) : res bool :=
  opcode ← Opcode i; Ok (has_flag (kInstructionFlags opcode) kBranch).
Definition IsUnconditional (i : Instruction) : res bool :=
  opcode ← Opcode i; Ok (has_flag (kInstructionFlags opcode) kUnconditional).
Definition IsSwitch (i : Instruction) : res bool :=
  opcode ← Opcode i; Ok (has_flag (kInstructionFlags opcode) kSwitch).
Definition IsThrow (i : Instruction) : res bool :=
  opcode ← Opcode i; Ok (has_flag (kInstructionFlags opcode) kThrow).
Definition IsReturn (i : Instruction) : res bool :=
  opcode ← Opcode i; Ok (has_flag (kInstructionFlags opcode) kReturn).
Definition IsInvoke (i : Instruction) : res bool :=
  opcode ← Opcode i; Ok (has_flag (kInstructionFlags opcode) kInvoke).

Definition IsBasicBlockEnd (i : Instruction) : res bool :=
  branch ← IsBranch i;
  ret ← IsReturn i;
  opcode ← Opcode i;
  Ok (branch || ret || bool_decide (opcode = THROW)).

Definition CanFlowThrough (i : Instruction) : res bool :=
  insn ← Fetch16 i 0;
  Ok (has_flag (FlagsOf (Code_of_byte (Z.land insn 0xFF))) kContinue).

Definition GetTargetOffset (i : Instruction) : res Z :=
  opcode ← Opcode i;
  match FormatOf opcode with
  | k22t => VRegC_22t i
  | k21t => VRegB_21t i
  | k10t => fetched VRegA_10t i
  | k20t => VRegA_20t i
  | k30t => VRegA_30t i
  | _ => Fault Fatal
  end.

Definition verify_bits (i : Instruction) (mask : Z) : res Z :=
  opcode ← Opcode i; Ok (Z.land (kInstructionVerifyFlags opcode) mask).

Local Open Scope flag_scope.

Definition GetVerifyTypeArgumentA (i : Instruction) : res Z :=
  verify_bits i (kVerifyRegA .| kVerifyRegAWide).
Definition GetVerifyTypeArgumentB (i : Instruction) : res Z :=
  verify_bits i (kVerifyRegB .| kVerifyRegBField .| kVerifyRegBMethod .|
    kVerifyRegBNewInstance .| kVerifyRegBString .| kVerifyRegBType .| kVerifyRegBWide).
Definition GetVerifyTypeArgumentC (i : Instruction) : res Z :=
  verify_bits i (kVerifyRegC .| kVerifyRegCField .| kVerifyRegCNewArray .|
    kVerifyRegCType .| kVerifyRegCWide).
Definition GetVerifyExtraFlags (i : Instruction) : res Z :=
  verify_bits i (kVerifyArrayData .| kVerifyBranchTarget .| kVerifySwitchTargets .|
    kVerifyVarArg .| kVerifyVarArgNonZero .| kVerifyVarArgRange .|
    kVerifyVarArgRangeNonZero .| kVerifyError).
Definition GetVerifyIsRuntimeOnly (i : Instruction) : res bool :=
  opcode ← Opcode i; Ok (has_flag (kInstructionVerifyFlags opcode) kVerifyRuntimeOnly).

Local Close Scope flag_scope.

(** ** Facts about decoding *)

(** Code units are 16-bit. *)
Definition code_ok (code : list Z) : Prop := Forall (fitsU 16) code.

Lemma Fetch16_range i off w : code_ok (insns i) -> Fetch16 i off = Ok w -> 0 <= w < 65536.
Proof. intros Hc Hf. apply (zget_Forall _ _ _ _ Hc Hf). Qed.

Lemma Fetch16_in_bounds i off :
  0 <= pos i + off < zlength (insns i) -> exists w, Fetch16 i off = Ok w.
Proof. apply zget_in_bounds. Qed.

Lemma Fetch16_bounds i off w : Fetch16 i off = Ok w -> 0 <= pos i + off < zlength (insns i).
Proof. apply zget_bounds. Qed.

Lemma dcheck_data_ok i w : Fetch16 i 0 = Ok w -> dcheck_data i w = Ok tt.
Proof. intros H. unfold dcheck_data. rewrite H. simpl. by rewrite Z.eqb_refl. Qed.

Lemma Opcode_data_ok i w :
  Fetch16 i 0 = Ok w -> Opcode_data i w = Ok (Code_of_byte (w mod 256)).
Proof.
  intros H. unfold Opcode_data. rewrite (dcheck_data_ok i w H). simpl.
  by rewrite land_0xff.
Qed.

Lemma Opcode_fetch i : Opcode i = (w ← Fetch16 i 0; Ok (Code_of_byte (w mod 256))).
Proof.
  unfold Opcode. destruct (Fetch16 i 0) eqn:E; simpl; [|done]. by apply Opcode_data_ok.
Qed.

Lemma Opcode_ok i c :
  Opcode i = Ok c <-> exists w, Fetch16 i 0 = Ok w /\ c = Code_of_byte (w mod 256).
Proof.
  rewrite Opcode_fetch, bind_ok. split; intros (w & Hw & H); exists w; split; auto; congruence.
Qed.

Lemma dcheck_format_ok i c f : Opcode i = Ok c -> FormatOf c = f -> dcheck_format i f = Ok tt.
Proof.
  intros Ho Hf. unfold dcheck_format. rewrite Ho. simpl. by rewrite bool_decide_eq_true_2.
Qed.

(** The number of code units an instruction format occupies: the leading digit
    of its name. *)
Definition format_size (f : Format) : Z :=
  match f with
  | k10x | k12x | k11n | k11x | k10t => 1
  | k20t | k22x | k21t | k21s | k21h | k21c | k23x | k22b | k22t | k22s | k22c => 2
  | k32x | k30t | k31t | k31i | k31c | k35c | k3rc => 3
  | k51l => 5
  end.

(** The size array agrees with the formats, [NOP] excepted. *)
Lemma size_of_format c :
  kInstructionSizeInCodeUnits c = if decide (c = NOP) then -1 else format_size (FormatOf c).
Proof. by destruct c. Qed.

(** An instruction at [i] with opcode [c] whose code units all lie in the array. *)
Record fits (i : Instruction) (c : Code) : Prop := {
  fits_code : code_ok (insns i);
  fits_opcode : Opcode i = Ok c;
  fits_size : pos i + format_size (FormatOf c) <= zlength (insns i);
}.

(** The fixed-size code units of an instruction that fits. *)
Lemma fits_unit i c off :
  fits i c -> 0 <= off < format_size (FormatOf c) ->
  exists w, Fetch16 i off = Ok w /\ 0 <= w < 65536.
Proof.
  intros [Hc Ho Hs] Hoff. apply Opcode_ok in Ho as (w0 & H0 & _).
  apply Fetch16_bounds in H0.
  destruct (Fetch16_in_bounds i off) as [w Hw]; [lia|].
  exists w. split; [done|]. by eapply Fetch16_range.
Qed.

Lemma Fetch32_units i off w w' :
  Fetch16 i off = Ok w -> Fetch16 i (off + 1) = Ok w' ->
  0 <= w < 65536 -> 0 <= w' < 65536 -> Fetch32 i off = Ok (w + w' * 65536).
Proof.
  intros Hw Hw' ? ?. unfold Fetch32. rewrite Hw, Hw'. simpl. f_equal.
  replace (uint32 (Z.shiftl w' 16)) with (Z.shiftl w' 16)
    by (rewrite Z.shiftl_mul_pow2; int_lia).
  rewrite lor_low_high; lia.
Qed.

(** *** Every accessor on its own format

    On an instruction that fits, the accessor of the right format succeeds,
    agrees with the format-independent [VRegA]/[VRegB]/[VRegC], and stays in the
    range its C++ type promises. *)

Definition view (acc generic : res Z) (lo hi : Z) : Prop :=
  exists v, acc = Ok v /\ generic = Ok v /\ lo <= v < hi.

Ltac head_of t := lazymatch t with ?f _ => head_of f | _ => t end.

Ltac unit_at Hu off :=
  let w := fresh "w" in let Hw := fresh "Hw" in let Hr := fresh "Hr" in
  destruct (Hu off ltac:(lia)) as (w & Hw & Hr).

Ltac view_arith :=
  rewrite ?Z.shiftr_div_pow2, ?Z.shiftl_mul_pow2, ?land_0xff, ?land_0xf by lia;
  unfold_ints; simpl; Z.div_mod_to_equations; lia.

Ltac solve_view :=
  let Hf := fresh "Hf" in let HF := fresh "HF" in let H0 := fresh "H0" in
  intros Hf HF H0;
  match type of H0 with Fetch16 ?i 0 = Ok ?d =>
  match type of HF with FormatOf ?c = ?k =>
  let Ho := fresh "Ho" in let Hu := fresh "Hu" in
  pose proof (fits_opcode i c Hf) as Ho;
  pose proof (Fetch16_range i 0 d (fits_code i c Hf) H0);
  pose proof (fun off => fits_unit i c off Hf) as Hu; rewrite HF in Hu; simpl in Hu;
  unfold view, VRegA, VRegB, VRegC, fetched; rewrite Ho; simpl; rewrite HF, ?H0; simpl;
  match goal with |- exists v, ?acc = Ok v /\ _ => let h := head_of acc in unfold h end;
  rewrite (dcheck_format_ok i c k Ho HF); simpl;
  unfold InstA, InstB, InstAA; rewrite ?(dcheck_data_ok i d H0); simpl;
  try unit_at Hu 1; try unit_at Hu 2;
  repeat (erewrite Fetch32_units by eassumption);
  repeat match goal with Hw : Fetch16 i _ = Ok _ |- _ => rewrite Hw; clear Hw end; simpl;
  eexists; split_and!; [reflexivity|f_equal; view_arith|view_arith|view_arith]
  end end.

Section Views.
Context (i : Instruction) (c : Code) (d : Z).

Lemma VRegA_10t_view : fits i c -> FormatOf c = k10t -> Fetch16 i 0 = Ok d ->
  view (VRegA_10t i d) (VRegA i) (-128) 128.
Proof. solve_view. Qed.

Lemma VRegA_11n_view : fits i c -> FormatOf c = k11n -> Fetch16 i 0 = Ok d ->
  view (VRegA_11n i d) (VRegA i) 0 16.
Proof. solve_view. Qed.

Lemma VRegA_11x_view : fits i c -> FormatOf c = k11x -> Fetch16 i 0 = Ok d ->
  view (VRegA_11x i d) (VRegA i) 0 256.
Proof. solve_view. Qed.

Lemma VRegA_12x_view : fits i c -> FormatOf c = k12x -> Fetch16 i 0 = Ok d ->
  view (VRegA_12x i d) (VRegA i) 0 16.
Proof. solve_view. Qed.

Lemma VRegA_21c_view : fits i c -> FormatOf c = k21c -> Fetch16 i 0 = Ok d ->
  view (VRegA_21c i d) (VRegA i) 0 256.
Proof. solve_view. Qed.

Lemma VRegA_21h_view : fits i c -> FormatOf c = k21h -> Fetch16 i 0 = Ok d ->
  view (VRegA_21h i d) (VRegA i) 0 256.
Proof. solve_view. Qed.

Lemma VRegA_21s_view : fits i c -> FormatOf c = k21s -> Fetch16 i 0 = Ok d ->
  view (VRegA_21s i d) (VRegA i) 0 256.
Proof. solve_view. Qed.

Lemma VRegA_21t_view : fits i c -> FormatOf c = k21t -> Fetch16 i 0 = Ok d ->
  view (VRegA_21t i d) (VRegA i) 0 256.
Proof. solve_view. Qed.

Lemma VRegA_22b_view : fits i c -> FormatOf c = k22b -> Fetch16 i 0 = Ok d ->
  view (VRegA_22b i d) (VRegA i) 0 256.
Proof. solve_view. Qed.

Lemma VRegA_22c_view : fits i c -> FormatOf c = k22c -> Fetch16 i 0 = Ok d ->
  view (VRegA_22c i d) (VRegA i) 0 16.
Proof. solve_view. Qed.

Lemma VRegA_22s_view : fits i c -> FormatOf c = k22s -> Fetch16 i 0 = Ok d ->
  view (VRegA_22s i d) (VRegA i) 0 16.
Proof. solve_view. Qed.

Lemma VRegA_22t_view : fits i c -> FormatOf c = k22t -> Fetch16 i 0 = Ok d ->
  view (VRegA_22t i d) (VRegA i) 0 16.
Proof. solve_view. Qed.

Lemma VRegA_22x_view : fits i c -> FormatOf c = k22x -> Fetch16 i 0 = Ok d ->
  view (VRegA_22x i d) (VRegA i) 0 256.
Proof. solve_view. Qed.

Lemma VRegA_23x_view : fits i c -> FormatOf c = k23x -> Fetch16 i 0 = Ok d ->
  view (VRegA_23x i d) (VRegA i) 0 256.
Proof. solve_view. Qed.

Lemma VRegA_31c_view : fits i c -> FormatOf c = k31c -> Fetch16 i 0 = Ok d ->
  view (VRegA_31c i d) (VRegA i) 0 256.
Proof. solve_view. Qed.

Lemma VRegA_31i_view : fits i c -> FormatOf c = k31i -> Fetch16 i 0 = Ok d ->
  view (VRegA_31i i d) (VRegA i) 0 256.
Proof. solve_view. Qed.

Lemma VRegA_31t_view : fits i c -> FormatOf c = k31t -> Fetch16 i 0 = Ok d ->
  view (VRegA_31t i d) (VRegA i) 0 256.
Proof. solve_view. Qed.

Lemma VRegA_35c_view : fits i c -> FormatOf c = k35c -> Fetch16 i 0 = Ok d ->
  view (VRegA_35c i d) (VRegA i) 0 16.
Proof. solve_view. Qed.

Lemma VRegA_3rc_view : fits i c -> FormatOf c = k3rc -> Fetch16 i 0 = Ok d ->
  view (VRegA_3rc i d) (VRegA i) 0 256.
Proof. solve_view. Qed.

Lemma VRegA_51l_view : fits i c -> FormatOf c = k51l -> Fetch16 i 0 = Ok d ->
  view (VRegA_51l i d) (VRegA i) 0 256.
Proof. solve_view. Qed.

Lemma VRegA_20t_view : fits i c -> FormatOf c = k20t -> Fetch16 i 0 = Ok d ->
  view (VRegA_20t i) (VRegA i) (-32768) 32768.
Proof. solve_view. Qed.

Lemma VRegA_30t_view : fits i c -> FormatOf c = k30t -> Fetch16 i 0 = Ok d ->
  view (VRegA_30t i) (VRegA i) (-2147483648) 2147483648.
Proof. solve_view. Qed.

Lemma VRegA_32x_view : fits i c -> FormatOf c = k32x -> Fetch16 i 0 = Ok d ->
  view (VRegA_32x i) (VRegA i) 0 65536.
Proof. solve_view. Qed.

Lemma VRegB_11n_view : fits i c -> FormatOf c = k11n -> Fetch16 i 0 = Ok d ->
  view (VRegB_11n i d) (VRegB i) (-8) 8.
Proof. solve_view. Qed.

Lemma VRegB_12x_view : fits i c -> FormatOf c = k12x -> Fetch16 i 0 = Ok d ->
  view (VRegB_12x i d) (VRegB i) 0 16.
Proof. solve_view. Qed.

Lemma VRegB_22c_view : fits i c -> FormatOf c = k22c -> Fetch16 i 0 = Ok d ->
  view (VRegB_22c i d) (VRegB i) 0 16.
Proof. solve_view. Qed.

Lemma VRegB_22s_view : fits i c -> FormatOf c = k22s -> Fetch16 i 0 = Ok d ->
  view (VRegB_22s i d) (VRegB i) 0 16.
Proof. solve_view. Qed.

Lemma VRegB_22t_view : fits i c -> FormatOf c = k22t -> Fetch16 i 0 = Ok d ->
  view (VRegB_22t i d) (VRegB i) 0 16.
Proof. solve_view. Qed.

Lemma VRegB_21c_view : fits i c -> FormatOf c = k21c -> Fetch16 i 0 = Ok d ->
  view (VRegB_21c i) (VRegB i) 0 65536.
Proof. solve_view. Qed.

Lemma VRegB_21h_view : fits i c -> FormatOf c = k21h -> Fetch16 i 0 = Ok d ->
  view (VRegB_21h i) (VRegB i) 0 65536.
Proof. solve_view. Qed.

Lemma VRegB_21s_view : fits i c -> FormatOf c = k21s -> Fetch16 i 0 = Ok d ->
  view (VRegB_21s i) (VRegB i) (-32768) 32768.
Proof. solve_view. Qed.

Lemma VRegB_21t_view : fits i c -> FormatOf c = k21t -> Fetch16 i 0 = Ok d ->
  view (VRegB_21t i) (VRegB i) (-32768) 32768.
Proof. solve_view. Qed.

Lemma VRegB_22b_view : fits i c -> FormatOf c = k22b -> Fetch16 i 0 = Ok d ->
  view (VRegB_22b i) (VRegB i) 0 256.
Proof. solve_view. Qed.

Lemma VRegB_22x_view : fits i c -> FormatOf c = k22x -> Fetch16 i 0 = Ok d ->
  view (VRegB_22x i) (VRegB i) 0 65536.
Proof. solve_view. Qed.

Lemma VRegB_23x_view : fits i c -> FormatOf c = k23x -> Fetch16 i 0 = Ok d ->
  view (VRegB_23x i) (VRegB i) 0 256.
Proof. solve_view. Qed.

Lemma VRegB_31i_view : fits i c -> FormatOf c = k31i -> Fetch16 i 0 = Ok d ->
  view (VRegB_31i i) (VRegB i) (-2147483648) 2147483648.
Proof. solve_view. Qed.

Lemma VRegB_31t_view : fits i c -> FormatOf c = k31t -> Fetch16 i 0 = Ok d ->
  view (VRegB_31t i) (VRegB i) (-2147483648) 2147483648.
Proof. solve_view. Qed.

Lemma VRegB_32x_view : fits i c -> FormatOf c = k32x -> Fetch16 i 0 = Ok d ->
  view (VRegB_32x i) (VRegB i) 0 65536.
Proof. solve_view. Qed.

Lemma VRegB_35c_view : fits i c -> FormatOf c = k35c -> Fetch16 i 0 = Ok d ->
  view (VRegB_35c i) (VRegB i) 0 65536.
Proof. solve_view. Qed.

Lemma VRegB_3rc_view : fits i c -> FormatOf c = k3rc -> Fetch16 i 0 = Ok d ->
  view (VRegB_3rc i) (VRegB i) 0 65536.
Proof. solve_view. Qed.

Lemma VRegC_22b_view : fits i c -> FormatOf c = k22b -> Fetch16 i 0 = Ok d ->
  view (VRegC_22b i) (VRegC i) (-128) 128.
Proof. solve_view. Qed.

Lemma VRegC_22c_view : fits i c -> FormatOf c = k22c -> Fetch16 i 0 = Ok d ->
  view (VRegC_22c i) (VRegC i) 0 65536.
Proof. solve_view. Qed.

Lemma VRegC_22s_view : fits i c -> FormatOf c = k22s -> Fetch16 i 0 = Ok d ->
  view (VRegC_22s i) (VRegC i) (-32768) 32768.
Proof. solve_view. Qed.

Lemma VRegC_22t_view : fits i c -> FormatOf c = k22t -> Fetch16 i 0 = Ok d ->
  view (VRegC_22t i) (VRegC i) (-32768) 32768.
Proof. solve_view. Qed.

Lemma VRegC_23x_view : fits i c -> FormatOf c = k23x -> Fetch16 i 0 = Ok d ->
  view (VRegC_23x i) (VRegC i) 0 256.
Proof. solve_view. Qed.

Lemma VRegC_35c_view : fits i c -> FormatOf c = k35c -> Fetch16 i 0 = Ok d ->
  view (VRegC_35c i) (VRegC i) 0 16.
Proof. solve_view. Qed.

Lemma VRegC_3rc_view : fits i c -> FormatOf c = k3rc -> Fetch16 i 0 = Ok d ->
  view (VRegC_3rc i) (VRegC i) 0 65536.
Proof. solve_view. Qed.
End Views.
