(* ===== verification/DexCode.v ===== *)
(** * Code items and exception handlers (runtime/dex_file.h and .cc)

    A code item with its instruction array, its try items and the encoded catch
    handler lists that follow them; the binary search for the try item that
    covers an address; and [CatchHandlerIterator], which decodes a handler list
    while it is walked. *)

From S2P Require Import Prelude Leb128 DexOpcodes DexInstruction.

Record TryItem : Type := MkTryItem {
  start_addr_ : Z;
  insn_count_ : Z;
  handler_off_ : Z;
}.

(** [insns_] is followed in memory by the try items and the handler data; the
    three arrays are kept apart here. *)
Record CodeItem : Type := MkCodeItem {
  registers_size_ : Z;
  ins_size_ : Z;
  outs_size_ : Z;
  tries_size_ : Z;
  insns_size_in_code_units_ : Z;
  insns_ : list Z;
  try_items_ : list TryItem;
  handlers_ : list Z;
}.

Definition kDexNoIndex : Z := 0xFFFFFFFF.
Definition kDexNoIndex16 : Z := 0xFFFF.

Definition GetTryItems (code_item : CodeItem) (offset : Z) : res TryItem :=
  zget (try_items_ code_item) offset.

(** The handler data from [offset] on. *)
Definition GetCatchHandlerData (code_item : CodeItem) (offset : Z) : res (list Z) :=
  if (offset <? 0) || (zlength (handlers_ code_item) <? offset) then Fault OutOfBounds
  else Ok (drop (Z.to_nat offset) (handlers_ code_item)).

(** The loop of [DexFile::FindTryItem]. *)
Fixpoint FindTryItem_loop (fuel : nat) (code_item : CodeItem) (address min max : Z) : res Z :=
  match fuel with
  | O => Fault OutOfFuel
  | S fuel =>
      if min <=? max then
        let mid := min + (max - min) ÷ 2 in
        ti ← GetTryItems code_item mid;
        let start := start_addr_ ti in
        let end_ := uint32 (start + insn_count_ ti) in
        if address <? start then FindTryItem_loop fuel code_item address min (mid - 1)
        else if address >=? end_ then FindTryItem_loop fuel code_item address (mid + 1) max
        else Ok mid
      else Ok (-1)
  end.

Definition FindTryItem (code_item : CodeItem) (address : Z) : res Z :=
  FindTryItem_loop (S (Z.to_nat (tries_size_ code_item))) code_item address
    0 (tries_size_ code_item - 1).

Definition FindCatchHandlerOffset (code_item : CodeItem) (address : Z) : res Z :=
  try_item ← FindTryItem code_item address;
  if try_item =? -1 then Ok (-1)
  else ti ← GetTryItems code_item try_item; Ok (handler_off_ ti).

Module CatchHandlerIterator.
Record t : Type := Mk {
  handler_type_idx_ : Z;
  handler_address_ : Z;
  current_data_ : list Z;     (**r [NULL] when there is no handler list *)
  remaining_count_ : Z;
  catch_all_ : bool;
}.

Definition HasNext (it : t) : bool := negb (remaining_count_ it =? -1) || catch_all_ it.
Definition GetHandlerTypeIndex (it : t) : Z := handler_type_idx_ it.
Definition GetHandlerAddress (it : t) : Z := handler_address_ it.

Definition EndDataPointer (it : t) : res (list Z) :=
  check (negb (HasNext it));; Ok (current_data_ it).

Definition Next (it : t) : res t :=
  if remaining_count_ it >? 0 then
    '(type_idx, data) ← DecodeUnsignedLeb128 (current_data_ it);
    '(address, data) ← DecodeUnsignedLeb128 data;
    Ok (Mk (uint16 type_idx) address data (remaining_count_ it - 1) (catch_all_ it))
  else if catch_all_ it then
    '(address, data) ← DecodeUnsignedLeb128 (current_data_ it);
    Ok (Mk kDexNoIndex16 address data (remaining_count_ it) false)
  else
    Ok (Mk (handler_type_idx_ it) (handler_address_ it) (current_data_ it) (-1)
          (catch_all_ it)).

(** [Init(const uint8_t* handler_data)]; the fields of [handler_] are those of
    the iterator being initialised. *)
Definition Init_data (type_idx address : Z) (handler_data : list Z) : res t :=
  '(count, data) ← DecodeSignedLeb128 handler_data;
  if count <=? 0 then Next (Mk type_idx address data (int32 (- count)) true)
  else Next (Mk type_idx address data count false).

(** [Init(code_item, offset)] *)
Definition Init (code_item : CodeItem) (offset : Z) : res t :=
  let address := uint32 (-1) in
  if offset >=? 0 then
    data ← GetCatchHandlerData code_item offset; Init_data 0 address data
  else
    let it := Mk 0 address [] (-1) false in
    check (negb (HasNext it));; Ok it.

(** [CatchHandlerIterator(code_item, address)] *)
Definition at_address (code_item : CodeItem) (address : Z) : res t :=
  offset ←
    (if tries_size_ code_item =? 0 then Ok (-1)
     else if tries_size_ code_item =? 1 then
       tries ← GetTryItems code_item 0;
       let start := start_addr_ tries in
       if address >=? start then
         let end_ := uint32 (start + insn_count_ tries) in
         if address <? end_ then Ok (handler_off_ tries) else Ok (-1)
       else Ok (-1)
     else FindCatchHandlerOffset code_item address);
  Init code_item offset.

(** [CatchHandlerIterator(code_item, try_item)] *)
Definition of_try_item (code_item : CodeItem) (try_item : TryItem) : res t :=
  Init code_item (handler_off_ try_item).

(** [CatchHandlerIterator(handler_data)] *)
Definition of_data (handler_data : list Z) : res t := Init_data 0 0 handler_data.

(** [for (; it.HasNext(); it.Next())]: the handlers the loop sees, and where
    the iterator ends up. *)
Fixpoint walk (fuel : nat) (it : t) : res (list (Z * Z) * t) :=
  match fuel with
  | O => Fault OutOfFuel
  | S fuel =>
      if HasNext it then
        it' ← Next it;
        '(rest, final) ← walk fuel it';
        Ok ((GetHandlerTypeIndex it, GetHandlerAddress it) :: rest, final)
      else Ok ([], it)
  end.
End CatchHandlerIterator.

(** ** The try item that covers an address *)

Definition covers (ti : TryItem) (address : Z) : Prop :=
  start_addr_ ti <= address < start_addr_ ti + insn_count_ ti.

(** What the dex format promises of the try items: they are as many as
    announced, ordered by address and do not overlap, and their ends are
    addresses too. *)
Record tries_wf (code_item : CodeItem) : Prop := {
  tries_count : tries_size_ code_item = zlength (try_items_ code_item);
  tries_fit : forall k ti, try_items_ code_item !! k = Some ti ->
    0 <= start_addr_ ti /\ 0 <= insn_count_ ti /\ start_addr_ ti + insn_count_ ti < 2 ^ 32;
  tries_ordered : forall j k ti tk, (j < k)%nat ->
    try_items_ code_item !! j = Some ti -> try_items_ code_item !! k = Some tk ->
    start_addr_ ti + insn_count_ ti <= start_addr_ tk;
}.

(** [r] is the index of the item covering [address], or [-1] if there is none. *)
Definition try_item_at (code_item : CodeItem) (address r : Z) : Prop :=
  (r = -1 /\ forall k ti, try_items_ code_item !! k = Some ti -> ~ covers ti address) \/
  (exists ti, 0 <= r /\ try_items_ code_item !! Z.to_nat r = Some ti /\ covers ti address).

Section FindTryItem.
Context (code_item : CodeItem) (address : Z).
Context (Hwf : tries_wf code_item).

Local Abbreviation items := (try_items_ code_item).

Lemma FindTryItem_loop_correct fuel min max :
  0 <= min -> max < zlength items -> max - min + 1 < Z.of_nat fuel -> min <= max + 1 ->
  (forall k ti, Z.of_nat k < min -> items !! k = Some ti ->
     start_addr_ ti + insn_count_ ti <= address) ->
  (forall k ti, max < Z.of_nat k -> items !! k = Some ti -> address < start_addr_ ti) ->
  exists r, FindTryItem_loop fuel code_item address min max = Ok r /\
    try_item_at code_item address r.
Proof.
  revert min max. induction fuel as [|fuel IH]; intros min max Hmin Hmax Hfuel Hle Hlo Hhi;
    [lia|]. simpl. destruct (Z.leb_spec min max).
  - set (mid := min + (max - min) ÷ 2).
    assert (Hmid : min <= mid <= max).
    { subst mid. rewrite Z.quot_div_nonneg by lia. Z.div_mod_to_equations. lia. }
    destruct (zget_in_bounds items mid) as [ti Hti]; [lia|].
    unfold GetTryItems. rewrite Hti. simpl. apply zget_ok in Hti as [_ Hti].
    pose proof (tries_fit _ Hwf _ _ Hti) as (Hs & Hc & He).
    replace (uint32 (start_addr_ ti + insn_count_ ti)) with (start_addr_ ti + insn_count_ ti)
      by int_lia.
    destruct (Z.ltb_spec address (start_addr_ ti)); [|rewrite Z.geb_leb;
      destruct (Z.leb_spec (start_addr_ ti + insn_count_ ti) address)].
    + apply IH; try lia; [done|]. intros k tk Hk Htk.
      destruct (decide (k = Z.to_nat mid)) as [->|Hne]; [congruence|].
      pose proof (tries_ordered _ Hwf (Z.to_nat mid) k ti tk ltac:(lia) Hti Htk). lia.
    + apply IH; try lia; [|done]. intros k tk Hk Htk.
      destruct (decide (k = Z.to_nat mid)) as [->|Hne]; [congruence|].
      pose proof (tries_ordered _ Hwf k (Z.to_nat mid) tk ti ltac:(lia) Htk Hti).
      pose proof (tries_fit _ Hwf _ _ Hti). lia.
    + exists mid. split; [done|]. right. exists ti. unfold covers. split_and!; auto; lia.
  - exists (-1). split; [done|]. left. split; [done|]. intros k ti Hk [? ?].
    destruct (Z.lt_ge_cases (Z.of_nat k) min) as [Hlt|Hge].
    + specialize (Hlo k ti Hlt Hk). lia.
    + specialize (Hhi k ti ltac:(lia) Hk). lia.
Qed.

Lemma FindTryItem_spec :
  exists r, FindTryItem code_item address = Ok r /\ try_item_at code_item address r.
Proof.
  pose proof (tries_count _ Hwf). apply FindTryItem_loop_correct; try lia.
  intros k ti Hk Hti%lookup_lt_Some. lia.
Qed.

Lemma covers_unique j k tj tk :
  items !! j = Some tj -> items !! k = Some tk ->
  covers tj address -> covers tk address -> j = k.
Proof.
  intros Hj Hk [? ?] [? ?]. destruct (Nat.lt_trichotomy j k) as [Hjk|[Hjk|Hjk]]; [|done|].
  - pose proof (tries_ordered _ Hwf j k tj tk Hjk Hj Hk). lia.
  - pose proof (tries_ordered _ Hwf k j tk tj Hjk Hk Hj). lia.
Qed.

Lemma try_item_at_unique r s :
  try_item_at code_item address r -> try_item_at code_item address s -> r = s.
Proof.
  intros [[-> Hr]|(tr & ? & Htr & Hcr)] [[-> Hs]|(ts & ? & Hts & Hcs)]; [done|..].
  - by destruct (Hr _ _ Hts).
  - by destruct (Hs _ _ Htr).
  - pose proof (covers_unique _ _ _ _ Htr Hts Hcr Hcs). lia.
Qed.
End FindTryItem.

(** C27: on the try items the dex format allows (ordered, disjoint),
    [DexFile::FindTryItem] always terminates with the index of the one item that
    covers the address, or with -1 when no item does. *)
Theorem FindTryItem_correct (code_item : CodeItem) (address : Z) :
  tries_wf code_item ->
  exists r, FindTryItem code_item address = Ok r /\
    forall s, try_item_at code_item address s <-> s = r.
Proof.
  intros Hwf. destruct (FindTryItem_spec code_item address Hwf) as (r & Hr & Hat).
  exists r. split; [done|]. intros s. split; [|by intros ->].
  intros Hs. by eapply try_item_at_unique.
Qed.

(** ** Handler lists

    The encoding the dex format defines for a handler list: the number of typed
    handlers, negated (or zero) when a catch-all follows, then the type index and
    address of each, then the address of the catch-all. *)
Definition encode_handlers (typed : list (Z * Z)) (all : option Z) : res (list Z) :=
  let n := zlength typed in
  data ← Leb128Encoder.PushBackSigned [] (if all is Some _ then - n else n);
  Leb128Encoder.InsertBackUnsigned data
    (concat ((fun '(t, a) => [t; a]) <$> typed) ++ match all with Some a => [a] | None => [] end).

(** The handlers as the iterator reports them. *)
Definition reported (typed : list (Z * Z)) (all : option Z) : list (Z * Z) :=
  typed ++ match all with Some a => [(kDexNoIndex16, a)] | None => [] end.

Section Walk.
Import CatchHandlerIterator.

Context (rest : list Z).

(** [bytes] are the remaining entries of the list. *)
Definition entries (typed : list (Z * Z)) (all : option Z) (bytes : list Z) : Prop :=
  decode_many DecodeUnsignedLeb128
    (length (concat ((fun '(t, a) => [t; a]) <$> typed) ++
             match all with Some a => [a] | None => [] end)) bytes =
  Ok (concat ((fun '(t, a) => [t; a]) <$> typed) ++
      match all with Some a => [a] | None => [] end, rest).

Definition handler_ok (h : Z * Z) : Prop := 0 <= h.1 < 65536.

Lemma entries_typed t a typed all bytes :
  entries ((t, a) :: typed) all bytes ->
  exists b1 b2, DecodeUnsignedLeb128 bytes = Ok (t, b1) /\
    DecodeUnsignedLeb128 b1 = Ok (a, b2) /\ entries typed all b2.
Proof.
  unfold entries. cbn [fmap list_fmap concat app length]. simpl decode_many. intros H.
  apply bind_ok in H as ([v1 b1] & H1 & H). apply bind_ok in H as ([vs b2] & H2 & H).
  apply bind_ok in H2 as ([v2 b3] & H2 & H3). apply bind_ok in H3 as ([vs' b4] & H3 & H4).
  injection H4 as <- <-. injection H as -> -> -> ->. eauto.
Qed.

Lemma entries_all a bytes :
  entries [] (Some a) bytes -> DecodeUnsignedLeb128 bytes = Ok (a, rest).
Proof.
  unfold entries. simpl. intros H. apply bind_ok in H as ([v b] & H1 & H).
  simpl in H. by injection H as -> ->.
Qed.

Lemma walk_cons fuel it it' hs final :
  HasNext it = true -> Next it = Ok it' -> walk fuel it' = Ok (hs, final) ->
  walk (S fuel) it = Ok ((handler_type_idx_ it, handler_address_ it) :: hs, final).
Proof. intros H1 H2 H3. simpl. rewrite H1, H2. simpl. by rewrite H3. Qed.

Lemma walk_nil fuel it : HasNext it = false -> walk (S fuel) it = Ok ([], it).
Proof. intros H. simpl. by rewrite H. Qed.

Lemma Next_typed ty ad data n all t a b1 b2 :
  0 < n -> 0 <= t < 65536 ->
  DecodeUnsignedLeb128 data = Ok (t, b1) -> DecodeUnsignedLeb128 b1 = Ok (a, b2) ->
  Next (Mk ty ad data n all) = Ok (Mk t a b2 (n - 1) all).
Proof.
  intros Hn Ht H1 H2. unfold Next. simpl. rewrite (proj2 (Z.gtb_lt n 0)) by done.
  rewrite H1. simpl. rewrite H2. simpl. do 2 f_equal. int_lia.
Qed.

Lemma Next_all ty ad data a b :
  DecodeUnsignedLeb128 data = Ok (a, b) ->
  Next (Mk ty ad data 0 true) = Ok (Mk kDexNoIndex16 a b 0 false).
Proof. intros H. unfold Next. simpl. by rewrite H. Qed.

Definition exhausted (it : t) : Prop := HasNext it = false /\ current_data_ it = rest.

(** From an iterator that holds handler [h], with the rest of the list ahead. *)
Lemma walk_entries typed all h bytes fuel :
  Forall handler_ok typed -> entries typed all bytes -> (length typed + 2 < fuel)%nat ->
  exists final,
    walk fuel (Mk h.1 h.2 bytes (zlength typed) (bool_decide (is_Some all))) =
      Ok (h :: reported typed all, final) /\ exhausted final.
Proof.
  intros Hok. revert h bytes fuel. induction Hok as [|[t a] typed Ht Hok IH];
    intros [hty had] bytes fuel He Hfuel; (destruct fuel as [|fuel]; [simpl in Hfuel; lia|]).
  - destruct all as [a|].
    + destruct fuel as [|[|fuel]]; [simpl in Hfuel; lia..|]. eexists. split.
      * erewrite walk_cons; [done|done|by apply Next_all, entries_all|].
        erewrite walk_cons; [done..|]. by rewrite walk_nil.
      * done.
    + destruct fuel as [|fuel]; [simpl in Hfuel; lia|]. eexists. split.
      * erewrite walk_cons; [done|done..|]. by rewrite walk_nil.
      * unfold entries in He. simpl in He. by injection He as ->.
  - destruct (entries_typed _ _ _ _ _ He) as (b1 & b2 & H1 & H2 & He').
    destruct (IH (t, a) b2 fuel He' ltac:(simpl in Hfuel; lia)) as (final & Hw & Hx).
    exists final. split; [|done].
    erewrite walk_cons; [done|done|by eapply Next_typed|].
    by replace (zlength ((t, a) :: typed) - 1) with (zlength typed) by (simpl; lia).
Qed.

(** The whole list, from the construction of the iterator. *)
Lemma walk_of_data typed all bytes count :
  Forall handler_ok typed -> entries typed all bytes -> zlength typed < 2 ^ 31 ->
  typed <> [] \/ is_Some all ->
  DecodeSignedLeb128 count =
    Ok (if all is Some _ then - zlength typed else zlength typed, bytes) ->
  exists it final, of_data count = Ok it /\
    walk (length typed + 3) it = Ok (reported typed all, final) /\ exhausted final.
Proof.
  intros Hok He Hlen Hne Hcount.
  assert (Hinit : of_data count =
    Next (Mk 0 0 bytes (zlength typed) (bool_decide (is_Some all)))).
  { unfold of_data, Init_data. rewrite Hcount. simpl. destruct all as [a|].
    - rewrite (proj2 (Z.leb_le _ 0)) by lia. do 2 f_equal. int_lia.
    - destruct typed; [by destruct Hne as [?|[? ?]]|]. done. }
  rewrite Hinit. destruct Hok as [|[t a] typed Ht Hok].
  - destruct all as [a|]; [|by destruct Hne as [?|[? ?]]].
    eexists _, _. split_and!; [by apply Next_all, entries_all|..].
    + change (length [] + 3)%nat with 3%nat. erewrite walk_cons; [done..|]. by rewrite walk_nil.
    + done.
  - destruct (entries_typed _ _ _ _ _ He) as (b1 & b2 & H1 & H2 & He').
    destruct (walk_entries typed all (t, a) b2 (length typed + 4) Hok He' ltac:(lia))
      as (final & Hw & Hx).
    eexists _, final. split_and!; [by eapply Next_typed|..|done].
    replace (length ((t, a) :: typed) + 3)%nat with (length typed + 4)%nat by (simpl; lia).
    by replace (zlength ((t, a) :: typed) - 1) with (zlength typed) by (simpl; lia).
Qed.
End Walk.

(** C28: whatever handler list the dex encoding describes (typed handlers in order,
    then possibly a catch-all), [CatchHandlerIterator] decodes exactly those
    handlers in that order, reports the catch-all with the index
    [kDexNoIndex16], stops, and its [EndDataPointer] is the first byte after the
    list, where the next list starts. *)
Theorem CatchHandlerIterator_roundtrip (typed : list (Z * Z)) (all : option Z) (rest : list Z) :
  Forall (fun h => fitsU 16 h.1 /\ fitsU 32 h.2) typed ->
  (forall a, all = Some a -> fitsU 32 a) ->
  zlength typed < 2 ^ 31 -> typed <> [] \/ is_Some all ->
  exists bytes it final,
    encode_handlers typed all = Ok bytes /\
    CatchHandlerIterator.of_data (bytes ++ rest) = Ok it /\
    CatchHandlerIterator.walk (length typed + 3) it = Ok (reported typed all, final) /\
    CatchHandlerIterator.EndDataPointer final = Ok rest.
Proof.
  intros Hty Hall Hlen Hne.
  set (n := if all is Some _ then - zlength typed else zlength typed).
  set (vs := concat ((fun '(t, a) => [t; a]) <$> typed) ++
             match all with Some a => [a] | None => [] end).
  assert (Hvs : Forall (fitsU 32) vs).
  { apply Forall_app_2.
    - clear -Hty. induction Hty as [|[t a] typed [Ht Ha] _ IH]; simpl; [constructor|].
      constructor; [unfold fitsU in *; simpl in *; lia|]. by constructor.
    - destruct all; [apply Forall_singleton; auto|constructor]. }
  assert (Hn : fitsS 32 n) by (unfold n, fitsS; destruct all; simpl; lia).
  destruct (unsigned_vector vs Hvs) as (tl & Htl & _ & Hdec).
  destruct (signed_bytes n Hn) as (hd & Hhd & _ & _ & Hcount).
  destruct (walk_of_data rest typed all (tl ++ rest) (hd ++ tl ++ rest)) as
    (it & final & Hit & Hw & Hx & Hd); [..|done|done|by rewrite Hcount|].
  - eapply Forall_impl; [done|]. intros h [? _]. done.
  - apply Hdec.
  - exists (hd ++ tl), it, final. split_and!; [|by rewrite <- app_assoc|done|].
    + unfold encode_handlers, Leb128Encoder.PushBackSigned. fold n vs. rewrite Hhd. simpl.
      apply Htl.
    + unfold CatchHandlerIterator.EndDataPointer. rewrite Hx. simpl. by rewrite Hd.
Qed.

(** ** Witnesses *)

Definition two_tries : CodeItem :=
  MkCodeItem 4 1 0 2 20 (replicate 20 0) [MkTryItem 2 4 1; MkTryItem 8 6 4] [2].

Lemma two_tries_wf : tries_wf two_tries.
Proof.
  split; [done|..].
  - intros [|[|k]] ti; intros [= <-]; simpl; lia.
  - intros [|[|j]] [|[|k]] ti tk ?; try lia; intros [= <-] [= <-]; simpl; lia.
Qed.

Example FindTryItem_correct_witness :
  exists r, FindTryItem two_tries 9 = Ok r /\
    forall s, try_item_at two_tries 9 s <-> s = r.
Proof. apply (FindTryItem_correct two_tries 9 two_tries_wf). Defined.

Example FindTryItem_two_tries :
  (FindTryItem two_tries 9, FindTryItem two_tries 6, FindTryItem two_tries 5) =
    (Ok 1, Ok (-1), Ok 0).
Proof. reflexivity. Qed.

Example CatchHandlerIterator_roundtrip_witness :
  exists bytes it final,
    encode_handlers [(3, 200); (65534, 7)] (Some 70000) = Ok bytes /\
    CatchHandlerIterator.of_data (bytes ++ [1; 2]) = Ok it /\
    CatchHandlerIterator.walk 5 it =
      Ok (reported [(3, 200); (65534, 7)] (Some 70000), final) /\
    CatchHandlerIterator.EndDataPointer final = Ok [1; 2].
Proof.
  apply (CatchHandlerIterator_roundtrip [(3, 200); (65534, 7)] (Some 70000) [1; 2]).
  - repeat first [apply Forall_cons; split | apply Forall_nil]; unfold fitsU; simpl; lia.
  - intros a [= <-]. unfold fitsU. lia.
  - simpl; lia.
  - by left.
Defined.
