(* ===== verification/StaticVerifier.v ===== *)
(** * The static passes of the method verifier (runtime/verifier/method_verifier.cc)

    [MethodVerifier::Verify] runs three passes over the code units before it
    starts the data-flow analysis: instruction boundaries
    ([ComputeWidthsAndCountOps]), try blocks and handlers
    ([ScanTryCatchBlocks]) and operands and branch targets
    ([VerifyInstructions]).  They are modelled whole, as computations over the
    verifier's fields; the data-flow pass [VerifyCodeFlow] is not part of this
    file.

    The verifier sees untrusted code: the fault [OutOfBounds] of a pass is a read
    or write outside the arrays the C++ allocates, [CheckFailed] an assertion of
    a debug build. *)

From S2P Require Import Prelude Modifiers Leb128 DexOpcodes DexInstruction DexCode.

(** ** One byte of flags per code unit (runtime/verifier/instruction_flags.h) *)

Module InstructionFlags.
Definition kVisited : Z := 0.
Definition kChanged : Z := 1.
Definition kOpcode : Z := 2.
Definition kInTry : Z := 3.
Definition kBranchTarget : Z := 4.
Definition kCompileTimeInfoPoint : Z := 5.
Definition kReturn : Z := 6.

(** [flags_ |= 1 << bit], [flags_ &= ~(1 << bit)], [(flags_ & (1 << bit)) != 0] *)
Definition set (flags bit : Z) : Z := uint8 (Z.lor flags (Z.shiftl 1 bit)).
Definition clear (flags bit : Z) : Z := uint8 (Z.land flags (Z.lnot (Z.shiftl 1 bit))).
Definition get (flags bit : Z) : bool := negb (Z.land flags (Z.shiftl 1 bit) =? 0).

Definition SetIsOpcode (flags : Z) : Z := set flags kOpcode.
Definition IsOpcode (flags : Z) : bool := get flags kOpcode.
Definition SetInTry (flags : Z) : Z := set flags kInTry.
Definition IsInTry (flags : Z) : bool := get flags kInTry.
Definition SetBranchTarget (flags : Z) : Z := set flags kBranchTarget.
Definition IsBranchTarget (flags : Z) : bool := get flags kBranchTarget.
Definition SetCompileTimeInfoPoint (flags : Z) : Z := set flags kCompileTimeInfoPoint.
Definition IsCompileTimeInfoPoint (flags : Z) : bool := get flags kCompileTimeInfoPoint.
Definition SetReturn (flags : Z) : Z := set flags kReturn.
Definition IsReturn (flags : Z) : bool := get flags kReturn.
Definition SetCompileTimeInfoPointAndReturn (flags : Z) : Z :=
  SetReturn (SetCompileTimeInfoPoint flags).
End InstructionFlags.

(** ** The verifier's environment and fields *)

Inductive VerifyError : Type :=
  | VERIFY_ERROR_BAD_CLASS_HARD | VERIFY_ERROR_BAD_CLASS_SOFT
  | VERIFY_ERROR_NO_CLASS | VERIFY_ERROR_NO_FIELD | VERIFY_ERROR_NO_METHOD
  | VERIFY_ERROR_ACCESS_CLASS | VERIFY_ERROR_ACCESS_FIELD | VERIFY_ERROR_ACCESS_METHOD
  | VERIFY_ERROR_CLASS_CHANGE | VERIFY_ERROR_INSTANTIATION.

(** What a verification is given and does not change. *)
Record VerifierEnv : Type := MkVerifierEnv {
  code_item_ : option CodeItem;     (**r [nullptr] for native and abstract methods *)
  insns_address : Z;                (**r the address of [code_item_->insns_] *)
  method_access_flags_ : Z;
  string_ids_size_ : Z;             (**r the index bounds of the dex file header *)
  type_ids_size_ : Z;
  field_ids_size_ : Z;
  method_ids_size_ : Z;
  type_descriptors : list (list Z); (**r the strings [StringByTypeIdx] finds, as bytes *)
  is_compiler : bool;               (**r [Runtime::Current()->IsCompiler()] *)
  verify_to_dump_ : bool;
  can_load_classes_ : bool;
  allow_soft_failures_ : bool;
}.


Record MethodVerifier : Type := MkMethodVerifier {
  insn_flags_ : list Z;
  failures_ : list VerifyError;
  have_pending_hard_failure_ : bool;
  have_pending_runtime_throw_failure_ : bool;
  new_instance_count_ : Z;
  monitor_enter_count_ : Z;
  has_check_casts_ : bool;
  has_virtual_or_interface_invokes_ : bool;
}.

Definition initial_verifier : MethodVerifier :=
  MkMethodVerifier [] [] false false 0 0 false false.

Definition with_insn_flags (flags : list Z) (v : MethodVerifier) : MethodVerifier :=
  MkMethodVerifier flags (failures_ v) (have_pending_hard_failure_ v)
    (have_pending_runtime_throw_failure_ v) (new_instance_count_ v) (monitor_enter_count_ v)
    (has_check_casts_ v) (has_virtual_or_interface_invokes_ v).

(** ** Computations over the fields *)

Abbreviation verif := (M MethodVerifier).

(** [insn_flags_[idx]] and [insn_flags_[idx].SetX()] *)
Definition insn_flag (idx : Z) : verif Z := fun v =>
  f ← zget (insn_flags_ v) idx; Ok (f, v).
Definition update_insn_flag (idx : Z) (set : Z -> Z) : verif unit := fun v =>
  f ← zget (insn_flags_ v) idx;
  flags ← zset (insn_flags_ v) idx (set f);
  Ok (tt, with_insn_flags flags v).

(** [result && m], where [m] is not run when [result] is false. *)
Definition and_then (result : bool) (m : verif bool) : verif bool :=
  if result then m else mret false.

Section Passes.
Context (env : VerifierEnv).

Definition Fail (error : VerifyError) : verif unit := fun v =>
  let soft_to_runtime := is_compiler env || negb (can_load_classes_ env) in
  match error with
  | VERIFY_ERROR_NO_CLASS | VERIFY_ERROR_NO_FIELD | VERIFY_ERROR_NO_METHOD
  | VERIFY_ERROR_ACCESS_CLASS | VERIFY_ERROR_ACCESS_FIELD | VERIFY_ERROR_ACCESS_METHOD
  | VERIFY_ERROR_INSTANTIATION | VERIFY_ERROR_CLASS_CHANGE =>
      let error := if soft_to_runtime then VERIFY_ERROR_BAD_CLASS_SOFT else error in
      Ok (tt, MkMethodVerifier (insn_flags_ v) (failures_ v ++ [error])
                (have_pending_hard_failure_ v)
                (if soft_to_runtime then have_pending_runtime_throw_failure_ v else true)
                (new_instance_count_ v) (monitor_enter_count_ v)
                (has_check_casts_ v) (has_virtual_or_interface_invokes_ v))
  | VERIFY_ERROR_BAD_CLASS_SOFT =>
      Ok (tt, MkMethodVerifier (insn_flags_ v) (failures_ v ++ [error])
                (if negb (allow_soft_failures_ env) then true
                 else have_pending_hard_failure_ v)
                (have_pending_runtime_throw_failure_ v)
                (new_instance_count_ v) (monitor_enter_count_ v)
                (has_check_casts_ v) (has_virtual_or_interface_invokes_ v))
  | VERIFY_ERROR_BAD_CLASS_HARD =>
      Ok (tt, MkMethodVerifier (insn_flags_ v) (failures_ v ++ [error]) true
                (have_pending_runtime_throw_failure_ v)
                (new_instance_count_ v) (monitor_enter_count_ v)
                (has_check_casts_ v) (has_virtual_or_interface_invokes_ v))
  end.

(** [Fail(VERIFY_ERROR_BAD_CLASS_HARD); return false;] *)
Definition reject : verif bool := Fail VERIFY_ERROR_BAD_CLASS_HARD;; mret false.

(** The passes run on a method that has code. *)
Context (code_item : CodeItem).

Local Abbreviation insn_count := (insns_size_in_code_units_ code_item).
Local Abbreviation insn_at := (At (insns_ code_item)).

(** *** Instruction boundaries *)

Definition note_opcode (opcode : Code) : verif unit :=
  match opcode with
  | APUT_OBJECT | CHECK_CAST => modify (fun v =>
      MkMethodVerifier (insn_flags_ v) (failures_ v) (have_pending_hard_failure_ v)
        (have_pending_runtime_throw_failure_ v) (new_instance_count_ v)
        (monitor_enter_count_ v) true (has_virtual_or_interface_invokes_ v))
  | INVOKE_VIRTUAL | INVOKE_VIRTUAL_RANGE | INVOKE_INTERFACE | INVOKE_INTERFACE_RANGE =>
      modify (fun v =>
      MkMethodVerifier (insn_flags_ v) (failures_ v) (have_pending_hard_failure_ v)
        (have_pending_runtime_throw_failure_ v) (new_instance_count_ v)
        (monitor_enter_count_ v) (has_check_casts_ v) true)
  | _ => mret tt
  end.

Definition bump (b : bool) (n : Z) : Z := if b then n + 1 else n.

(** The [while] loop; every instruction advances [dex_pc]. *)
Fixpoint ComputeWidths_loop (fuel : nat) (inst : Instruction)
    (dex_pc new_instance_count monitor_enter_count : Z) : verif (Z * Z * Z) :=
  match fuel with
  | O => lift (Fault OutOfFuel)
  | S fuel =>
      if dex_pc <? insn_count then
        opcode ← lift (Opcode inst);
        note_opcode opcode;;
        inst_size ← lift (SizeInCodeUnits inst);
        update_insn_flag dex_pc InstructionFlags.SetIsOpcode;;
        ComputeWidths_loop fuel (RelativeAt inst inst_size) (dex_pc + inst_size)
          (bump (bool_decide (opcode = NEW_INSTANCE)) new_instance_count)
          (bump (bool_decide (opcode = MONITOR_ENTER)) monitor_enter_count)
      else mret (dex_pc, new_instance_count, monitor_enter_count)
  end.

Definition ComputeWidthsAndCountOps : verif bool :=
  '(dex_pc, new_instance_count, monitor_enter_count) ←
    ComputeWidths_loop (S (Z.to_nat insn_count)) (insn_at 0) 0 0 0;
  if negb (dex_pc =? insn_count) then reject
  else
    modify (fun v =>
      MkMethodVerifier (insn_flags_ v) (failures_ v) (have_pending_hard_failure_ v)
        (have_pending_runtime_throw_failure_ v) new_instance_count monitor_enter_count
        (has_check_casts_ v) (has_virtual_or_interface_invokes_ v));;
    mret true.

(** *** Try blocks and handlers *)

Definition CheckNotMoveResult (insn_idx : Z) : verif bool :=
  w ← lift (zget (insns_ code_item) insn_idx);
  if (Z.land w 0xff >=? code_index MOVE_RESULT) &&
     (Z.land w 0xff <=? code_index MOVE_RESULT_OBJECT)
  then reject else mret true.

(** Mark the instructions of one try block. *)
Fixpoint mark_try (fuel : nat) (inst : Instruction) (dex_pc end_ : Z) : verif unit :=
  match fuel with
  | O => lift (Fault OutOfFuel)
  | S fuel =>
      if dex_pc <? end_ then
        update_insn_flag dex_pc InstructionFlags.SetInTry;;
        insn_size ← lift (SizeInCodeUnits inst);
        mark_try fuel (RelativeAt inst insn_size) (dex_pc + insn_size) end_
      else mret tt
  end.

Fixpoint scan_tries (n : nat) (idx : Z) : verif bool :=
  match n with
  | O => mret true
  | S n =>
      try_item ← lift (GetTryItems code_item idx);
      let start := start_addr_ try_item in
      let end_ := uint32 (start + insn_count_ try_item) in
      if (start >=? end_) || (start >=? insn_count) || (end_ >? insn_count) then reject
      else
        flags ← insn_flag start;
        if negb (InstructionFlags.IsOpcode flags) then reject
        else
          mark_try (S (Z.to_nat (end_ - start))) (insn_at start) start end_;;
          scan_tries n (idx + 1)
  end.

(** The handlers of one list; resolving the exception type has no lasting
    effect on the verifier, a failure to resolve is cleared at once. *)
Fixpoint scan_handlers (fuel : nat) (iterator : CatchHandlerIterator.t)
    : verif (bool * CatchHandlerIterator.t) :=
  match fuel with
  | O => lift (Fault OutOfFuel)
  | S fuel =>
      if CatchHandlerIterator.HasNext iterator then
        let dex_pc := CatchHandlerIterator.GetHandlerAddress iterator in
        flags ← insn_flag dex_pc;
        if negb (InstructionFlags.IsOpcode flags) then
          reject;; mret (false, iterator)
        else
          ok ← CheckNotMoveResult dex_pc;
          if negb ok then reject;; mret (false, iterator)
          else
            update_insn_flag dex_pc InstructionFlags.SetBranchTarget;;
            iterator ← lift (CatchHandlerIterator.Next iterator);
            scan_handlers fuel iterator
      else mret (true, iterator)
  end.

Fixpoint scan_handler_lists (n : nat) (handlers_ptr : list Z) : verif bool :=
  match n with
  | O => mret true
  | S n =>
      iterator ← lift (CatchHandlerIterator.of_data handlers_ptr);
      '(ok, iterator) ← scan_handlers (length handlers_ptr + 3) iterator;
      if negb ok then mret false
      else
        handlers_ptr ← lift (CatchHandlerIterator.EndDataPointer iterator);
        scan_handler_lists n handlers_ptr
  end.

Definition ScanTryCatchBlocks : verif bool :=
  let tries_size := tries_size_ code_item in
  if tries_size =? 0 then mret true
  else
    ok ← scan_tries (Z.to_nat tries_size) 0;
    if negb ok then mret false
    else
      handlers_ptr ← lift (GetCatchHandlerData code_item 0);
      '(handlers_size, handlers_ptr) ← lift (DecodeUnsignedLeb128 handlers_ptr);
      scan_handler_lists (Z.to_nat handlers_size) handlers_ptr.

(** *** Operands *)

Definition CheckRegisterIndex (idx : Z) : verif bool :=
  if idx >=? registers_size_ code_item then reject else mret true.

Definition CheckWideRegisterIndex (idx : Z) : verif bool :=
  if uint32 (idx + 1) >=? registers_size_ code_item then reject else mret true.

Definition CheckFieldIndex (idx : Z) : verif bool :=
  if idx >=? field_ids_size_ env then reject else mret true.

Definition CheckMethodIndex (idx : Z) : verif bool :=
  if idx >=? method_ids_size_ env then reject else mret true.

Definition CheckStringIndex (idx : Z) : verif bool :=
  if idx >=? string_ids_size_ env then reject else mret true.

Definition CheckTypeIndex (idx : Z) : verif bool :=
  if idx >=? type_ids_size_ env then reject else mret true.

(** [descriptor[0]] of a NUL-terminated string. *)
Definition first_char (descriptor : list Z) : Z :=
  match descriptor with ch :: _ => ch | [] => 0 end.

Definition CheckNewInstance (idx : Z) : verif bool :=
  if idx >=? type_ids_size_ env then reject
  else
    descriptor ← lift (zget (type_descriptors env) idx);
    if negb (first_char descriptor =? 76 (* 'L' *)) then reject else mret true.

Fixpoint count_brackets (descriptor : list Z) : Z :=
  match descriptor with
  | 91 (* '[' *) :: cp => 1 + count_brackets cp
  | _ => 0
  end.

Definition CheckNewArray (idx : Z) : verif bool :=
  if idx >=? type_ids_size_ env then reject
  else
    descriptor ← lift (zget (type_descriptors env) idx);
    let bracket_count := count_brackets descriptor in
    if bracket_count =? 0 then reject
    else if bracket_count >? 255 then reject
    else mret true.

Definition CheckArrayData (cur_offset : Z) : verif bool :=
  lift (check (cur_offset <? insn_count));;
  w1 ← lift (Fetch16 (insn_at cur_offset) 1);
  w2 ← lift (Fetch16 (insn_at cur_offset) 2);
  let array_data_offset := int32 (Z.lor w1 (Z.shiftl w2 16)) in
  if (int32 (int32 cur_offset + array_data_offset) <? 0) ||
     (uint32 (cur_offset + array_data_offset + 2) >=? insn_count)
  then reject
  else
    let array_data := cur_offset + array_data_offset in
    if negb (Z.land (insns_address env + 2 * array_data) 0x03 =? 0) then reject
    else
      value_width ← lift (Fetch16 (insn_at array_data) 1);
      value_count ← lift (Fetch32 (insn_at array_data) 2);
      let table_size :=
        uint32 (4 + uint32 (uint32 (value_width * value_count) + 1) / 2) in
      if uint32 (cur_offset + array_data_offset + table_size) >? insn_count then reject
      else mret true.

(** *** Branches *)

(** [(offset, conditional, self okay)], or nothing when the opcode is no branch. *)
Definition GetBranchOffset (cur_offset : Z) : res (option (Z * bool * bool)) :=
  w0 ← Fetch16 (insn_at cur_offset) 0;
  match Code_of_byte (Z.land w0 0xff) with
  | GOTO => Ok (Some (Z.shiftr (int16 w0) 8, false, false))
  | GOTO_32 =>
      w1 ← Fetch16 (insn_at cur_offset) 1;
      w2 ← Fetch16 (insn_at cur_offset) 2;
      Ok (Some (int32 (Z.lor w1 (uint32 (Z.shiftl w2 16))), false, true))
  | GOTO_16 =>
      w1 ← Fetch16 (insn_at cur_offset) 1;
      Ok (Some (int16 w1, false, false))
  | IF_EQ | IF_NE | IF_LT | IF_GE | IF_GT | IF_LE
  | IF_EQZ | IF_NEZ | IF_LTZ | IF_GEZ | IF_GTZ | IF_LEZ =>
      w1 ← Fetch16 (insn_at cur_offset) 1;
      Ok (Some (int16 w1, true, false))
  | _ => Ok None
  end.

Definition CheckBranchTarget (cur_offset : Z) : verif bool :=
  branch ← lift (GetBranchOffset cur_offset);
  match branch with
  | None => mret false
  | Some (offset, _, selfOkay) =>
      if negb selfOkay && (offset =? 0) then reject
      else if negb (int64 (cur_offset + offset) =? uint32 (cur_offset + offset)) then reject
      else
        let abs_offset := int32 (uint32 (cur_offset + offset)) in
        if (abs_offset <? 0) || (uint32 abs_offset >=? insn_count) then reject
        else
          flags ← insn_flag abs_offset;
          if negb (InstructionFlags.IsOpcode flags) then reject
          else update_insn_flag abs_offset InstructionFlags.SetBranchTarget;; mret true
  end.

(** *** Switches *)

(** [(int32_t) table[k] | (int32_t) (table[k + 1] << 16)] *)
Definition table_word (table : Z) (k : Z) : res Z :=
  lo ← Fetch16 (insn_at table) k;
  hi ← Fetch16 (insn_at table) (k + 1);
  Ok (Z.lor lo (int32 (Z.shiftl hi 16))).

(** The keys from [targ] on ascend from [last_key]. *)
Fixpoint check_keys (n : nat) (table keys_offset targ last_key : Z) : verif bool :=
  match n with
  | O => mret true
  | S n =>
      key ← lift (table_word table (keys_offset + targ * 2));
      if key <=? last_key then reject
      else check_keys n table keys_offset (targ + 1) key
  end.

Fixpoint check_targets (n : nat) (cur_offset table targets_offset targ : Z) : verif bool :=
  match n with
  | O => mret true
  | S n =>
      offset ← lift (table_word table (targets_offset + targ * 2));
      let abs_offset := int32 (cur_offset + offset) in
      if (abs_offset <? 0) || (abs_offset >=? int32 insn_count) then reject
      else
        flags ← insn_flag abs_offset;
        if negb (InstructionFlags.IsOpcode flags) then reject
        else
          update_insn_flag abs_offset InstructionFlags.SetBranchTarget;;
          check_targets n cur_offset table targets_offset (targ + 1)
  end.

Definition CheckSwitchTargets (cur_offset : Z) : verif bool :=
  lift (check (cur_offset <? insn_count));;
  w0 ← lift (Fetch16 (insn_at cur_offset) 0);
  w1 ← lift (Fetch16 (insn_at cur_offset) 1);
  w2 ← lift (Fetch16 (insn_at cur_offset) 2);
  let switch_offset := int32 (Z.lor w1 (Z.shiftl w2 16)) in
  if (int32 (int32 cur_offset + switch_offset) <? 0) ||
     (uint32 (cur_offset + switch_offset + 2) >=? insn_count)
  then reject
  else
    let switch_insns := cur_offset + switch_offset in
    if negb (Z.land (insns_address env + 2 * switch_insns) 0x03 =? 0) then reject
    else
      switch_count ← lift (Fetch16 (insn_at switch_insns) 1);
      let packed := Z.land w0 0xff =? code_index PACKED_SWITCH in
      let targets_offset := if packed then 4 else 2 + 2 * switch_count in
      let keys_offset := if packed then -1 else 2 in
      let expected_signature :=
        if packed then kPackedSwitchSignature else kSparseSwitchSignature in
      let table_size := uint32 (targets_offset + switch_count * 2) in
      signature ← lift (Fetch16 (insn_at switch_insns) 0);
      if negb (signature =? expected_signature) then reject
      else if uint32 (cur_offset + switch_offset + table_size) >? insn_count then reject
      else
        keys_ok ←
          (if (keys_offset >? 0) && (switch_count >? 1) then
             last_key ← lift (table_word switch_insns keys_offset);
             check_keys (Z.to_nat (switch_count - 1)) switch_insns keys_offset 1 last_key
           else mret true);
        if negb keys_ok then mret false
        else check_targets (Z.to_nat switch_count) cur_offset switch_insns targets_offset 0.

(** *** Argument lists of invokes *)

Fixpoint check_args (n : nat) (idx : Z) (arg : list Z) : verif bool :=
  match n with
  | O => mret true
  | S n =>
      a ← lift (zget arg idx);
      if a >=? registers_size_ code_item then reject else check_args n (idx + 1) arg
  end.

Definition CheckVarArgRegs (vA : Z) (arg : list Z) : verif bool :=
  if vA >? kMaxVarArgRegs then reject else check_args (Z.to_nat vA) 0 arg.

Definition CheckVarArgRangeRegs (vA vC : Z) : verif bool :=
  if uint32 (vA + vC) >? registers_size_ code_item then reject else mret true.

(** *** All operands of one instruction *)

(** [result && CheckX(inst->VRegY())]: the accessor returns an [int32_t] that
    the check takes as a [uint32_t]. *)
Definition operand (result : bool) (reg : res Z) (chk : Z -> verif bool) : verif bool :=
  and_then result (r ← lift reg; chk (uint32 r)).

Definition verify_argument_A (inst : Instruction) (result : bool) : verif bool :=
  kind ← lift (GetVerifyTypeArgumentA inst);
  if kind =? kVerifyRegA then operand result (VRegA inst) CheckRegisterIndex
  else if kind =? kVerifyRegAWide then operand result (VRegA inst) CheckWideRegisterIndex
  else mret result.

Definition verify_argument_B (inst : Instruction) (result : bool) : verif bool :=
  kind ← lift (GetVerifyTypeArgumentB inst);
  if kind =? kVerifyRegB then operand result (VRegB inst) CheckRegisterIndex
  else if kind =? kVerifyRegBField then operand result (VRegB inst) CheckFieldIndex
  else if kind =? kVerifyRegBMethod then operand result (VRegB inst) CheckMethodIndex
  else if kind =? kVerifyRegBNewInstance then operand result (VRegB inst) CheckNewInstance
  else if kind =? kVerifyRegBString then operand result (VRegB inst) CheckStringIndex
  else if kind =? kVerifyRegBType then operand result (VRegB inst) CheckTypeIndex
  else if kind =? kVerifyRegBWide then operand result (VRegB inst) CheckWideRegisterIndex
  else mret result.

Definition verify_argument_C (inst : Instruction) (result : bool) : verif bool :=
  kind ← lift (GetVerifyTypeArgumentC inst);
  if kind =? kVerifyRegC then operand result (VRegC inst) CheckRegisterIndex
  else if kind =? kVerifyRegCField then operand result (VRegC inst) CheckFieldIndex
  else if kind =? kVerifyRegCNewArray then operand result (VRegC inst) CheckNewArray
  else if kind =? kVerifyRegCType then operand result (VRegC inst) CheckTypeIndex
  else if kind =? kVerifyRegCWide then operand result (VRegC inst) CheckWideRegisterIndex
  else mret result.

(** The fourth [switch]; [inl] is its [return false]. *)
Definition verify_extra (inst : Instruction) (code_offset : Z) (result : bool)
    : verif (unit + bool) :=
  kind ← lift (GetVerifyExtraFlags inst);
  if kind =? kVerifyArrayData then inr <$> and_then result (CheckArrayData code_offset)
  else if kind =? kVerifyBranchTarget then
    inr <$> and_then result (CheckBranchTarget code_offset)
  else if kind =? kVerifySwitchTargets then
    inr <$> and_then result (CheckSwitchTargets code_offset)
  else if (kind =? kVerifyVarArgNonZero) || (kind =? kVerifyVarArg) then
    vA ← lift (VRegA inst);
    if (kind =? kVerifyVarArgNonZero) && (vA <=? 0) then
      Fail VERIFY_ERROR_BAD_CLASS_HARD;; mret (inl tt)
    else
      inst_data ← lift (Fetch16 inst 0);
      args ← lift (GetVarArgs inst inst_data);
      inr <$> and_then result (CheckVarArgRegs (uint32 vA) args)
  else if (kind =? kVerifyVarArgRangeNonZero) || (kind =? kVerifyVarArgRange) then
    vA ← lift (VRegA inst);
    if (kind =? kVerifyVarArgRangeNonZero) && (vA <=? 0) then
      Fail VERIFY_ERROR_BAD_CLASS_HARD;; mret (inl tt)
    else
      inr <$> and_then result
        (vC ← lift (VRegC inst); CheckVarArgRangeRegs (uint32 vA) (uint32 vC))
  else if kind =? kVerifyError then
    Fail VERIFY_ERROR_BAD_CLASS_HARD;; mret (inr false)
  else mret (inr result).

Definition VerifyInstruction (inst : Instruction) (code_offset : Z) : verif bool :=
  result ← verify_argument_A inst true;
  result ← verify_argument_B inst result;
  result ← verify_argument_C inst result;
  extra ← verify_extra inst code_offset result;
  match extra with
  | inl _ => mret false
  | inr result =>
      runtime_only ← lift (GetVerifyIsRuntimeOnly inst);
      if runtime_only && is_compiler env && negb (verify_to_dump_ env) then
        Fail VERIFY_ERROR_BAD_CLASS_HARD;; mret false
      else mret result
  end.

Fixpoint VerifyInstructions_loop (fuel : nat) (inst : Instruction) (dex_pc : Z)
    : verif bool :=
  match fuel with
  | O => lift (Fault OutOfFuel)
  | S fuel =>
      if dex_pc <? insn_count then
        ok ← VerifyInstruction inst dex_pc;
        if negb ok then
          failures ← gets failures_;
          lift (check (negb (length failures =? 0)%nat));;
          mret false
        else
          branch ← lift (IsBranch inst);
          switch ← lift (IsSwitch inst);
          throw ← lift (IsThrow inst);
          return_ ← lift (IsReturn inst);
          (if branch || switch || throw then
             update_insn_flag dex_pc InstructionFlags.SetCompileTimeInfoPoint
           else if (return_ : bool) then
             update_insn_flag dex_pc InstructionFlags.SetCompileTimeInfoPointAndReturn
           else mret tt);;
          inst_size ← lift (SizeInCodeUnits inst);
          VerifyInstructions_loop fuel (RelativeAt inst inst_size) (dex_pc + inst_size)
      else mret true
  end.

Definition VerifyInstructions : verif bool :=
  update_insn_flag 0 InstructionFlags.SetBranchTarget;;
  update_insn_flag 0 InstructionFlags.SetCompileTimeInfoPoint;;
  VerifyInstructions_loop (S (Z.to_nat insn_count)) (insn_at 0) 0.
End Passes.

(** [Verify]; the data-flow analysis and the compiler's callback are arguments. *)
Definition Verify (env : VerifierEnv) (VerifyCodeFlow MethodVerified : verif bool)
    : verif bool :=
  match code_item_ env with
  | None =>
      if Z.land (method_access_flags_ env) (Z.lor kAccNative kAccAbstract) =? 0
      then reject env else mret true
  | Some code_item =>
      if ins_size_ code_item >? registers_size_ code_item then reject env
      else
        modify (with_insn_flags
          (replicate (Z.to_nat (insns_size_in_code_units_ code_item)) 0));;
        result ← ComputeWidthsAndCountOps env code_item;
        result ← and_then result (ScanTryCatchBlocks env code_item);
        result ← and_then result (VerifyInstructions env code_item);
        result ← and_then result VerifyCodeFlow;
        if result && is_compiler env then MethodVerified else mret result
  end.
