(* ===== verification/StaticVerifierFacts.v ===== *)
(** * What the static passes of the verifier guarantee

    [ComputeWidthsAndCountOps] marks exactly the addresses reached by walking
    from instruction to instruction ([instruction_start]), and the two later
    passes accept only code whose operands, branch targets, switch tables and
    handlers are in order ([instruction_ok]).  The interpreter's memory safety
    rests on these facts. *)

From S2P Require Import Prelude Modifiers Leb128 DexOpcodes DexInstruction DexCode StaticVerifier.

(** ** Taking apart computations over the verifier's fields *)

Lemma reject_ok env v b v' : reject env v = Ok (b, v') -> b = false.
Proof. unfold reject. rewrite M_bind_ok. by intros (? & ? & _ & [-> _]%mret_ok). Qed.

Ltac inv_verif :=
  repeat (inv_M; match goal with
  | H : reject _ _ = Ok (true, _) |- _ => apply reject_ok in H; discriminate H
  end); inv_M.

(** ** The opcode bits survive every other flag *)

Definition opcode_bits (v : MethodVerifier) : list bool :=
  InstructionFlags.IsOpcode <$> insn_flags_ v.

(** [m] does not change which code units are marked as opcodes. *)
Definition keeps {A} (m : verif A) : Prop :=
  forall v a v', m v = Ok (a, v') -> opcode_bits v' = opcode_bits v.

Create HintDb verif.

Lemma keeps_bind {A B} (m : verif A) (f : A -> verif B) :
  keeps m -> (forall a, keeps (f a)) -> keeps (m ≫= f).
Proof.
  intros Hm Hf v b v' H. inv_verif. by rewrite (Hf _ _ _ _ H), (Hm _ _ _ E).
Qed.

Lemma keeps_fmap {A B} (m : verif A) (f : A -> B) : keeps m -> keeps (f <$> m).
Proof. intros Hm v b v' H. inv_verif. eauto. Qed.

Lemma keeps_lift {A} (m : res A) : keeps (lift m).
Proof. intros v a v' H. by inv_verif. Qed.

Lemma keeps_mret {A} (a : A) : keeps (mret a).
Proof. intros v b v' H. by inv_verif. Qed.

Lemma keeps_insn_flag idx : keeps (insn_flag idx).
Proof. intros v a v' H. unfold insn_flag in H. by inv_res. Qed.

Lemma keeps_gets {A} (f : MethodVerifier -> A) : keeps (gets f).
Proof. intros v a v' H. by inv_verif. Qed.

Lemma keeps_Fail env e : keeps (Fail env e).
Proof. intros v a v' H. unfold Fail in H. by destruct e; inv_res. Qed.

Lemma keeps_update idx set :
  (forall f, InstructionFlags.IsOpcode (set f) = InstructionFlags.IsOpcode f) ->
  keeps (update_insn_flag idx set).
Proof.
  intros Hs v a v' H. unfold update_insn_flag in H. inv_res.
  apply zset_ok in E0 as [_ ->]. apply zget_ok in E as [_ E].
  unfold opcode_bits. simpl. rewrite list_fmap_insert. apply list_insert_id.
  by rewrite list_lookup_fmap, E, Hs.
Qed.

Lemma keeps_and_then b m : keeps m -> keeps (and_then b m).
Proof. intros. destruct b; [done|apply keeps_mret]. Qed.

#[export] Hint Resolve keeps_bind keeps_fmap keeps_lift keeps_mret keeps_insn_flag
  keeps_gets keeps_Fail keeps_and_then : verif.

Lemma get_testbit flags bit :
  0 <= bit -> InstructionFlags.get flags bit = Z.testbit flags bit.
Proof.
  intros Hb. unfold InstructionFlags.get. rewrite Z.shiftl_1_l.
  destruct (Z.testbit flags bit) eqn:E.
  - apply negb_true_iff, Z.eqb_neq. intros H0.
    assert (Z.testbit (Z.land flags (2 ^ bit)) bit = true) as H1
      by (by rewrite Z.land_spec, E, Z.pow2_bits_true by lia).
    by rewrite H0, Z.bits_0 in H1.
  - apply negb_false_iff, Z.eqb_eq, Z.bits_inj'. intros i Hi.
    rewrite Z.land_spec, Z.bits_0. destruct (decide (i = bit)) as [->|]; [by rewrite E|].
    by rewrite (Z.pow2_bits_false bit i), andb_false_r by lia.
Qed.

Lemma get_set flags bit bit' :
  0 <= bit < 8 -> 0 <= bit' < 8 ->
  InstructionFlags.get (InstructionFlags.set flags bit) bit' =
  (bit =? bit') || InstructionFlags.get flags bit'.
Proof.
  intros. rewrite !get_testbit by lia. unfold InstructionFlags.set, uint8, wrapU.
  rewrite Z.mod_pow2_bits_low, Z.lor_spec, Z.shiftl_1_l, Z.pow2_bits_eqb by lia.
  by rewrite orb_comm.
Qed.

Lemma IsOpcode_SetBranchTarget f :
  InstructionFlags.IsOpcode (InstructionFlags.SetBranchTarget f) = InstructionFlags.IsOpcode f.
Proof. by apply get_set. Qed.
Lemma IsOpcode_SetInTry f :
  InstructionFlags.IsOpcode (InstructionFlags.SetInTry f) = InstructionFlags.IsOpcode f.
Proof. by apply get_set. Qed.
Lemma IsOpcode_SetCompileTimeInfoPoint f :
  InstructionFlags.IsOpcode (InstructionFlags.SetCompileTimeInfoPoint f) =
  InstructionFlags.IsOpcode f.
Proof. by apply get_set. Qed.
Lemma IsOpcode_SetCompileTimeInfoPointAndReturn f :
  InstructionFlags.IsOpcode (InstructionFlags.SetCompileTimeInfoPointAndReturn f) =
  InstructionFlags.IsOpcode f.
Proof.
  unfold InstructionFlags.SetCompileTimeInfoPointAndReturn.
  rewrite <- (IsOpcode_SetCompileTimeInfoPoint f). by apply get_set.
Qed.

#[export] Hint Resolve keeps_update IsOpcode_SetBranchTarget IsOpcode_SetInTry
  IsOpcode_SetCompileTimeInfoPoint IsOpcode_SetCompileTimeInfoPointAndReturn : verif.

(** Decompose a pass along its branches. *)
Ltac keeps_tac :=
  repeat first
    [ progress intros
    | lazymatch goal with
      | |- keeps (mbind _ _) => apply keeps_bind
      | |- keeps (fmap _ _) => apply keeps_fmap
      | |- keeps (and_then _ _) => apply keeps_and_then
      end
    | solve [auto with verif]
    | match goal with
      | |- keeps (match ?x with _ => _ end) => destruct x
      | |- keeps (let _ := _ in _) => cbv zeta
      end ].

Section KeepsChecks.
Context (env : VerifierEnv) (code_item : CodeItem).

Lemma keeps_reject : keeps (reject env).
Proof. unfold reject. keeps_tac. Qed.
Hint Resolve keeps_reject : verif.

Lemma keeps_mark_try fuel inst dex_pc end_ : keeps (mark_try fuel inst dex_pc end_).
Proof. revert inst dex_pc. induction fuel; intros; simpl; keeps_tac. Qed.
Hint Resolve keeps_mark_try : verif.

Lemma keeps_scan_tries n idx : keeps (scan_tries env code_item n idx).
Proof. revert idx. induction n; intros; simpl; keeps_tac. Qed.

Lemma keeps_CheckNotMoveResult idx : keeps (CheckNotMoveResult env code_item idx).
Proof. unfold CheckNotMoveResult. keeps_tac. Qed.
Hint Resolve keeps_CheckNotMoveResult : verif.

Lemma keeps_scan_handlers fuel it : keeps (scan_handlers env code_item fuel it).
Proof. revert it. induction fuel; intros; simpl; keeps_tac. Qed.
Hint Resolve keeps_scan_handlers : verif.

Lemma keeps_scan_handler_lists n p : keeps (scan_handler_lists env code_item n p).
Proof. revert p. induction n; intros; simpl; keeps_tac. Qed.

Lemma keeps_ScanTryCatchBlocks : keeps (ScanTryCatchBlocks env code_item).
Proof.
  unfold ScanTryCatchBlocks.
  pose proof keeps_scan_tries. pose proof keeps_scan_handler_lists. keeps_tac.
Qed.

Lemma keeps_check_keys n t k i l : keeps (check_keys env code_item n t k i l).
Proof. revert i l. induction n; intros; simpl; keeps_tac. Qed.
Lemma keeps_check_targets n c t o i : keeps (check_targets env code_item n c t o i).
Proof. revert i. induction n; intros; simpl; keeps_tac. Qed.
Lemma keeps_check_args n i args : keeps (check_args env code_item n i args).
Proof. revert i. induction n; intros; simpl; keeps_tac. Qed.
Hint Resolve keeps_check_keys keeps_check_targets keeps_check_args : verif.

Lemma keeps_arguments inst result :
  keeps (verify_argument_A env code_item inst result) /\
  keeps (verify_argument_B env code_item inst result) /\
  keeps (verify_argument_C env code_item inst result).
Proof.
  unfold verify_argument_A, verify_argument_B, verify_argument_C, operand,
    CheckRegisterIndex, CheckWideRegisterIndex, CheckFieldIndex, CheckMethodIndex,
    CheckNewInstance, CheckStringIndex, CheckTypeIndex, CheckNewArray.
  split_and!; keeps_tac.
Qed.

Lemma keeps_extra inst pc result : keeps (verify_extra env code_item inst pc result).
Proof.
  unfold verify_extra, CheckArrayData, CheckBranchTarget, CheckSwitchTargets,
    CheckVarArgRegs, CheckVarArgRangeRegs. keeps_tac.
Qed.

Lemma keeps_VerifyInstruction inst pc : keeps (VerifyInstruction env code_item inst pc).
Proof.
  unfold VerifyInstruction. pose proof keeps_extra. pose proof keeps_arguments as HA.
  repeat (apply keeps_bind; [apply HA|intros]). keeps_tac.
Qed.

Lemma keeps_VerifyInstructions_loop fuel inst pc :
  keeps (VerifyInstructions_loop env code_item fuel inst pc).
Proof.
  revert inst pc. pose proof keeps_VerifyInstruction.
  induction fuel; intros; simpl; keeps_tac.
Qed.

Lemma keeps_VerifyInstructions : keeps (VerifyInstructions env code_item).
Proof.
  unfold VerifyInstructions. pose proof keeps_VerifyInstructions_loop. keeps_tac.
Qed.
End KeepsChecks.

(** ** Instruction boundaries *)

(** [idx] is reached from [pc] by stepping over whole instructions. *)
Inductive walks_to (code : list Z) : Z -> Z -> Prop :=
  | walks_here pc : 0 <= pc < zlength code -> walks_to code pc pc
  | walks_step pc n idx :
      0 <= pc < zlength code -> SizeInCodeUnits (At code pc) = Ok n ->
      walks_to code (pc + n) idx -> walks_to code pc idx.

Definition instruction_start (code : list Z) (pc : Z) : Prop := walks_to code 0 pc.

Lemma walks_snoc code pc idx n :
  walks_to code pc idx -> SizeInCodeUnits (At code idx) = Ok n ->
  0 <= idx + n < zlength code -> walks_to code pc (idx + n).
Proof.
  induction 1 as [pc ?|pc m idx ? ? ? IH]; intros; [|eauto using walks_to].
  eapply walks_step; eauto. by apply walks_here.
Qed.

Lemma walks_bounds code pc idx : walks_to code pc idx -> 0 <= idx < zlength code.
Proof. by induction 1. Qed.

Lemma SizeInCodeUnits_pos i n : code_ok (insns i) -> SizeInCodeUnits i = Ok n -> 0 < n.
Proof.
  intros Hc. unfold SizeInCodeUnits. intros H. inv_res. rewrite size_of_format in *.
  destruct (decide (a = NOP)); simpl in H.
  - unfold SizeInCodeUnitsComplexOpcode in H. inv_res.
    repeat case_match; inv_res; try lia.
    + apply Fetch16_range in E1; [lia|done].
    + apply Fetch16_range in E1; [lia|done].
    + enough (0 <= uint32 (uint32 (a1 * Z.lor a2 (uint32 (Z.shiftl a3 16))) + 1) / 2) by lia.
      apply Z.div_pos; [apply uint32_range|lia].
  - destruct (FormatOf a); simpl in H; inv_res; lia.
Qed.

(** An instruction occupies at least the code units of its format. *)
Lemma format_size_le i c n :
  code_ok (insns i) -> Opcode i = Ok c -> SizeInCodeUnits i = Ok n ->
  format_size (FormatOf c) <= n.
Proof.
  intros Hc Ho Hs. pose proof (SizeInCodeUnits_pos i n Hc Hs).
  unfold SizeInCodeUnits in Hs. rewrite Ho in Hs. simpl in Hs. rewrite size_of_format in Hs.
  destruct (decide (c = NOP)) as [->|]; [simpl; lia|].
  destruct (FormatOf c); simpl in *; inv_res; lia.
Qed.

(** A code item as the rest of the runtime hands it to the verifier: the size
    field is the length of the array and the fields fit their types. *)
Record code_item_wf (ci : CodeItem) : Prop := {
  wf_size : insns_size_in_code_units_ ci = zlength (insns_ ci);
  wf_small : zlength (insns_ ci) < 2 ^ 31;
  wf_units : code_ok (insns_ ci);
  wf_registers : 0 <= registers_size_ ci < 65536;
}.

(** The opcode bit of one code unit. *)
Definition marked (v : MethodVerifier) (idx : Z) : Prop := zget (opcode_bits v) idx = Ok true.

Lemma marked_flag v idx :
  marked v idx <->
  exists f, zget (insn_flags_ v) idx = Ok f /\ InstructionFlags.IsOpcode f = true.
Proof.
  unfold marked, opcode_bits. setoid_rewrite zget_ok. rewrite list_lookup_fmap.
  destruct (insn_flags_ v !! Z.to_nat idx) as [f|]; simpl; split.
  - intros [? [= ?]]. eauto.
  - intros (g & [? [= <-]] & ->). done.
  - by intros [? ?].
  - by intros (g & [? ?] & ?).
Qed.

Lemma insn_flag_marked v idx f v' :
  insn_flag idx v = Ok (f, v') -> v' = v /\ (InstructionFlags.IsOpcode f = true -> marked v idx).
Proof.
  unfold insn_flag. intros. inv_res. split; [done|]. intros. apply marked_flag. eauto.
Qed.

Lemma SetIsOpcode_marked pc v u v' :
  update_insn_flag pc InstructionFlags.SetIsOpcode v = Ok (u, v') ->
  length (opcode_bits v') = length (opcode_bits v) /\
  forall idx, marked v' idx <-> marked v idx \/ idx = pc.
Proof.
  unfold update_insn_flag. intros. inv_res. apply zset_ok in E0 as [Hb ->].
  unfold marked, opcode_bits. simpl. rewrite list_fmap_insert, length_insert.
  split; [done|]. intros idx. rewrite !zget_ok.
  replace (InstructionFlags.IsOpcode (InstructionFlags.SetIsOpcode a)) with true
    by (symmetry; by apply get_set).
  destruct (decide (idx = pc)) as [->|].
  - split; [by right|]. intros _. split; [lia|].
    apply list_lookup_insert_eq. rewrite length_fmap. lia.
  - destruct (decide (0 <= idx)); [|by split; [intros []|intros [[]|]]].
    rewrite list_lookup_insert_ne by lia. split; [by left|]. by intros [|].
Qed.

Lemma keeps_note_opcode c : keeps (note_opcode c).
Proof. intros v a v' H. destruct c; simpl in H; by inv_verif. Qed.

Section Boundaries.
Context (env : VerifierEnv) (ci : CodeItem) (Hwf : code_item_wf ci).
Local Abbreviation code := (insns_ ci).

Lemma ComputeWidths_loop_sound fuel pc n m v e n' m' v' :
  0 <= pc ->
  ComputeWidths_loop ci fuel (At code pc) pc n m v = Ok ((e, n', m'), v') ->
  pc <= e /\ length (opcode_bits v') = length (opcode_bits v) /\
  (forall idx, marked v' idx <-> marked v idx \/ walks_to code pc idx) /\
  (forall idx, walks_to code pc idx ->
     exists s, SizeInCodeUnits (At code idx) = Ok s /\ idx + s <= e).
Proof.
  revert pc n m v. induction fuel as [|fuel IH]; intros pc n m v Hpc H; simpl in H;
    [inv_verif; done|].
  rewrite (wf_size ci Hwf) in H. destruct (Z.ltb_spec pc (zlength code)) as [Hlt|].
  - inv_verif. pose proof (keeps_note_opcode _ _ _ _ E0) as K0.
    apply SetIsOpcode_marked in E2 as [L2 M2].
    unfold RelativeAt in H. simpl in H.
    pose proof (SizeInCodeUnits_pos (At code pc) _ (wf_units ci Hwf) E1).
    assert (0 <= pc + a1) as Hn by lia.
    assert (forall idx, walks_to code pc idx <-> idx = pc \/ walks_to code (pc + a1) idx) as W.
    { intros idx. split; [|intros [->|?]; eauto using walks_to].
      inversion 1 as [|? ? ? ? E1' Hw']; subst; [auto|].
      rewrite E1 in E1'. injection E1' as <-. auto. }
    destruct (IH _ _ _ _ Hn H) as (? & L & M & S). split_and!.
    + lia.
    + congruence.
    + intros idx. rewrite M, M2, W. unfold marked. rewrite K0. tauto.
    + intros idx [->|Hw]%W; eauto.
  - inv_verif. split_and!; [lia|done| |].
    + intros idx. split; [by left|]. intros [?|Hw]; [done|]. inversion Hw; lia.
    + intros idx Hw. inversion Hw; lia.
Qed.

(** Code whose first pass succeeded is cut into whole instructions. *)
Definition tiled : Prop :=
  forall idx, instruction_start code idx ->
    exists s, SizeInCodeUnits (At code idx) = Ok s /\ idx + s <= zlength code.

Lemma ComputeWidths_sound v v' :
  ComputeWidthsAndCountOps env ci v = Ok (true, v') ->
  (forall idx, ~ marked v idx) ->
  length (opcode_bits v') = length (opcode_bits v) /\
  (forall idx, marked v' idx <-> instruction_start code idx) /\ tiled.
Proof.
  unfold ComputeWidthsAndCountOps. intros H H0. inv_verif.
  destruct a as [[e n] m]. apply ComputeWidths_loop_sound in E as (_ & L & M & S); [|lia].
  rewrite (wf_size ci Hwf) in H.
  destruct (Z.eqb_spec e (zlength code)) as [->|]; simpl in H; [|inv_verif].
  inv_verif. split_and!; [done| |done].
  intros idx. unfold marked, opcode_bits. simpl.
  change (marked v0 idx <-> instruction_start code idx). rewrite M.
  split; [intros [?%H0|?]; done|by right].
Qed.

Lemma tiled_fits pc c :
  tiled -> instruction_start code pc -> Opcode (At code pc) = Ok c -> fits (At code pc) c.
Proof.
  intros Ht Hs Ho. destruct (Ht pc Hs) as (s & Hs' & Hle). split; [apply Hwf|done|].
  pose proof (format_size_le (At code pc) c s (wf_units ci Hwf) Ho Hs'). simpl. lia.
Qed.
End Boundaries.

(** ** The specification of an accepted instruction *)

(** [Opcode c] is listed with the verify flag [f]. *)
Definition flagged (c : Code) (f : Z) : Prop := has_flag (kInstructionVerifyFlags c) f = true.

#[export] Instance flagged_dec c f : Decision (flagged c f).
Proof. unfold flagged. apply _. Defined.

Section Specification.
Context (env : VerifierEnv) (ci : CodeItem).
Local Abbreviation code := (insns_ ci).

Definition register_ok (r : Z) : Prop := 0 <= r < registers_size_ ci.
Definition pair_ok (r : Z) : Prop := 0 <= r /\ r + 1 < registers_size_ ci.
Definition index_ok (bound r : Z) : Prop := 0 <= uint32 r < bound.

Definition operand_ok (reg : res Z) (P : Z -> Prop) : Prop := exists r, reg = Ok r /\ P r.

(** A branch leads to an instruction, itself only where that is allowed. *)
Definition branch_ok (pc : Z) : Prop :=
  exists off cond self, GetBranchOffset ci pc = Ok (Some (off, cond, self)) /\
    instruction_start code (pc + off) /\ (self = false -> off <> 0).

(** The layout of the two kinds of switch tables. *)
Definition switch_signature (c : Code) : Z :=
  if decide (c = PACKED_SWITCH) then kPackedSwitchSignature else kSparseSwitchSignature.
Definition switch_targets (c : Code) (count : Z) : Z :=
  if decide (c = PACKED_SWITCH) then 4 else 2 + 2 * count.

Record switch_ok (pc : Z) (c : Code) (off count : Z) : Prop := {
  sw_offset : VRegB (At code pc) = Ok off;
  sw_start : 0 <= pc + off;
  sw_aligned : Z.land (insns_address env + 2 * (pc + off)) 0x03 = 0;
  sw_signature : Fetch16 (At code (pc + off)) 0 = Ok (switch_signature c);
  sw_count : Fetch16 (At code (pc + off)) 1 = Ok count;
  sw_end : pc + off + switch_targets c count + 2 * count <= zlength code;
  sw_keys : c <> PACKED_SWITCH -> forall k, 0 < k < count ->
    exists key key', table_word ci (pc + off) (2 + (k - 1) * 2) = Ok key /\
      table_word ci (pc + off) (2 + k * 2) = Ok key' /\ key < key';
  sw_targets : forall k, 0 <= k < count ->
    exists t, table_word ci (pc + off) (switch_targets c count + k * 2) = Ok t /\
      instruction_start code (pc + t);
}.

(** A fill-array-data payload lies in the code, unless its size overflows. *)
Definition array_data_ok (pc : Z) : Prop :=
  exists off width count, VRegB (At code pc) = Ok off /\ 0 <= pc + off /\
    Fetch16 (At code (pc + off)) 1 = Ok width /\ Fetch32 (At code (pc + off)) 2 = Ok count /\
    (width * count < 2 ^ 31 -> pc + off + 4 + (width * count + 1) / 2 <= zlength code).

Definition arguments_ok (pc : Z) : Prop :=
  exists d args, Fetch16 (At code pc) 0 = Ok d /\ GetVarArgs (At code pc) d = Ok args /\
    VRegA (At code pc) = Ok (zlength args) /\ Forall register_ok args.

Definition range_ok (pc : Z) : Prop :=
  exists a c, VRegA (At code pc) = Ok a /\ VRegC (At code pc) = Ok c /\
    0 <= a /\ 0 <= c /\ c + a <= registers_size_ ci.

Record instruction_ok (pc : Z) (c : Code) : Prop := {
  ok_fits : fits (At code pc) c;
  ok_no_error : ~ flagged c kVerifyError;
  ok_A : flagged c kVerifyRegA -> operand_ok (VRegA (At code pc)) register_ok;
  ok_A_wide : flagged c kVerifyRegAWide -> operand_ok (VRegA (At code pc)) pair_ok;
  ok_B : flagged c kVerifyRegB -> operand_ok (VRegB (At code pc)) register_ok;
  ok_B_wide : flagged c kVerifyRegBWide -> operand_ok (VRegB (At code pc)) pair_ok;
  ok_C : flagged c kVerifyRegC -> operand_ok (VRegC (At code pc)) register_ok;
  ok_C_wide : flagged c kVerifyRegCWide -> operand_ok (VRegC (At code pc)) pair_ok;
  ok_B_field : flagged c kVerifyRegBField ->
    operand_ok (VRegB (At code pc)) (index_ok (field_ids_size_ env));
  ok_B_method : flagged c kVerifyRegBMethod ->
    operand_ok (VRegB (At code pc)) (index_ok (method_ids_size_ env));
  ok_B_string : flagged c kVerifyRegBString ->
    operand_ok (VRegB (At code pc)) (index_ok (string_ids_size_ env));
  ok_B_type : flagged c kVerifyRegBType \/ flagged c kVerifyRegBNewInstance ->
    operand_ok (VRegB (At code pc)) (index_ok (type_ids_size_ env));
  ok_C_field : flagged c kVerifyRegCField ->
    operand_ok (VRegC (At code pc)) (index_ok (field_ids_size_ env));
  ok_C_type : flagged c kVerifyRegCType \/ flagged c kVerifyRegCNewArray ->
    operand_ok (VRegC (At code pc)) (index_ok (type_ids_size_ env));
  ok_branch : flagged c kVerifyBranchTarget -> branch_ok pc;
  ok_switch : flagged c kVerifySwitchTargets -> exists off count, switch_ok pc c off count;
  ok_array_data : flagged c kVerifyArrayData -> array_data_ok pc;
  ok_arguments :
    flagged c kVerifyVarArg \/ flagged c kVerifyVarArgNonZero -> arguments_ok pc;
  ok_range :
    flagged c kVerifyVarArgRange \/ flagged c kVerifyVarArgRangeNonZero -> range_ok pc;
  ok_nonzero :
    flagged c kVerifyVarArgNonZero \/ flagged c kVerifyVarArgRangeNonZero ->
    operand_ok (VRegA (At code pc)) (fun a => 0 < a);
}.
End Specification.

(** *** The flag groups of the table

    Each [switch] of [VerifyInstruction] compares the bits of a group with one
    flag, so it is complete only if no opcode has two flags of a group. *)

Definition verify_groups : list (list Z) :=
  [ [kVerifyRegA; kVerifyRegAWide];
    [kVerifyRegB; kVerifyRegBField; kVerifyRegBMethod; kVerifyRegBNewInstance;
     kVerifyRegBString; kVerifyRegBType; kVerifyRegBWide];
    [kVerifyRegC; kVerifyRegCField; kVerifyRegCNewArray; kVerifyRegCType; kVerifyRegCWide];
    [kVerifyArrayData; kVerifyBranchTarget; kVerifySwitchTargets; kVerifyVarArg;
     kVerifyVarArgNonZero; kVerifyVarArgRange; kVerifyVarArgRangeNonZero; kVerifyError] ].

Definition mask (g : list Z) : Z := foldr Z.lor 0 g.

Definition group_exclusive (c : Code) : bool :=
  forallb (fun g => forallb (fun f =>
    negb (has_flag (kInstructionVerifyFlags c) f) ||
    (Z.land (kInstructionVerifyFlags c) (mask g) =? f)) g) verify_groups.

Lemma groups_exclusive c : group_exclusive c = true.
Proof. revert c. apply forall_codes. vm_compute. reflexivity. Qed.

Lemma flagged_group c g f :
  In g verify_groups -> In f g -> flagged c f ->
  Z.land (kInstructionVerifyFlags c) (mask g) = f.
Proof.
  intros Hg Hf Hc. pose proof (groups_exclusive c) as H. unfold group_exclusive in H.
  rewrite forallb_forall in H. specialize (H g Hg).
  rewrite forallb_forall in H. specialize (H f Hf). unfold flagged in Hc.
  rewrite Hc in H. simpl in H. by apply Z.eqb_eq.
Qed.

Lemma verify_bits_flagged i c g f :
  Opcode i = Ok c -> In g verify_groups -> In f g -> flagged c f ->
  verify_bits i (mask g) = Ok f.
Proof.
  intros Ho Hg Hf Hc. unfold verify_bits. rewrite Ho. simpl. f_equal.
  by apply flagged_group.
Qed.

(** Register operands are never negative. *)
Definition register_formats_ok (c : Code) : bool :=
  let has f := has_flag (kInstructionVerifyFlags c) f in
  implb (has kVerifyRegA || has kVerifyRegAWide)
    match FormatOf c with k10x | k10t | k20t | k30t => false | _ => true end &&
  implb (has kVerifyRegB || has kVerifyRegBWide)
    match FormatOf c with
    | k12x | k22c | k22s | k22t | k22b | k22x | k23x | k32x => true
    | _ => false
    end &&
  implb (has kVerifyRegC || has kVerifyRegCWide) (bool_decide (FormatOf c = k23x)).

Lemma register_formats c : register_formats_ok c = true.
Proof. revert c. apply forall_codes. vm_compute. reflexivity. Qed.

Definition extra_formats_ok (c : Code) : bool :=
  let has f := has_flag (kInstructionVerifyFlags c) f in
  implb (has kVerifySwitchTargets || has kVerifyArrayData) (bool_decide (FormatOf c = k31t)) &&
  implb (has kVerifyVarArg || has kVerifyVarArgNonZero) (bool_decide (FormatOf c = k35c)) &&
  implb (has kVerifyVarArgRange || has kVerifyVarArgRangeNonZero)
    (bool_decide (FormatOf c = k3rc)).

Lemma extra_formats c :
  (flagged c kVerifySwitchTargets \/ flagged c kVerifyArrayData -> FormatOf c = k31t) /\
  (flagged c kVerifyVarArg \/ flagged c kVerifyVarArgNonZero -> FormatOf c = k35c) /\
  (flagged c kVerifyVarArgRange \/ flagged c kVerifyVarArgRangeNonZero -> FormatOf c = k3rc).
Proof.
  assert (extra_formats_ok c = true) as H
    by (revert c; apply forall_codes; vm_compute; reflexivity).
  apply andb_prop in H as [[H1 H2]%andb_prop H3]. unfold flagged.
  split_and!; (intros [Hf|Hf]; rewrite Hf, ?orb_true_r in *; simpl in *;
    eapply bool_decide_eq_true_1; eassumption).
Qed.

(** The value of a register operand, from the [view] of its format. *)
Lemma view_generic acc generic lo hi :
  view acc generic lo hi -> 0 <= lo -> hi <= 65536 ->
  exists r, generic = Ok r /\ 0 <= r < 65536.
Proof. intros (r & _ & H & ?) ? ?. exists r. split; [done|lia]. Qed.

Section RegisterOperands.
Context (i : Instruction) (c : Code) (Hf : fits i c).

Local Lemma fits_fetch : exists d, Fetch16 i 0 = Ok d.
Proof. destruct (proj1 (Opcode_ok i c) (fits_opcode _ _ Hf)) as (d & H & _). eauto. Qed.

Lemma VRegA_register :
  flagged c kVerifyRegA \/ flagged c kVerifyRegAWide ->
  exists r, VRegA i = Ok r /\ 0 <= r < 65536.
Proof.
  intros HA. pose proof (register_formats c) as HR.
  apply andb_prop in HR as [[HR _]%andb_prop _].
  replace (_ || _) with true in HR
    by (unfold flagged in HA; destruct HA as [-> | ->]; by rewrite ?orb_true_r).
  destruct fits_fetch as [d H0]. destruct (FormatOf c) eqn:HF; try done;
    (eapply view_generic; [eauto using VRegA_11n_view, VRegA_11x_view, VRegA_12x_view,
      VRegA_21c_view, VRegA_21h_view, VRegA_21s_view, VRegA_21t_view, VRegA_22b_view,
      VRegA_22c_view, VRegA_22s_view, VRegA_22t_view, VRegA_22x_view, VRegA_23x_view,
      VRegA_31c_view, VRegA_31i_view, VRegA_31t_view, VRegA_35c_view, VRegA_3rc_view,
      VRegA_51l_view, VRegA_32x_view|lia|lia]).
Qed.

Lemma VRegB_register :
  flagged c kVerifyRegB \/ flagged c kVerifyRegBWide ->
  exists r, VRegB i = Ok r /\ 0 <= r < 65536.
Proof.
  intros HA. pose proof (register_formats c) as HR.
  apply andb_prop in HR as [[_ HR]%andb_prop _].
  replace (_ || _) with true in HR
    by (unfold flagged in HA; destruct HA as [-> | ->]; by rewrite ?orb_true_r).
  destruct fits_fetch as [d H0]. destruct (FormatOf c) eqn:HF; try done;
    (eapply view_generic; [eauto using VRegB_12x_view, VRegB_22c_view, VRegB_22s_view,
      VRegB_22t_view, VRegB_22b_view, VRegB_22x_view, VRegB_23x_view, VRegB_32x_view
      |lia|lia]).
Qed.

Lemma VRegC_register :
  flagged c kVerifyRegC \/ flagged c kVerifyRegCWide ->
  exists r, VRegC i = Ok r /\ 0 <= r < 65536.
Proof.
  intros HA. pose proof (register_formats c) as HR.
  apply andb_prop in HR as [_ HR].
  replace (_ || _) with true in HR
    by (unfold flagged in HA; destruct HA as [-> | ->]; by rewrite ?orb_true_r).
  destruct fits_fetch as [d H0]. destruct (FormatOf c) eqn:HF; try done.
  eapply view_generic; [eauto using VRegC_23x_view|lia|lia].
Qed.
End RegisterOperands.

(** ** Soundness of the operand checks *)

Ltac eval_eqb H :=
  repeat match type of H with context [?a =? ?b] =>
    let r := eval vm_compute in (a =? b) in
    first [unify r true | unify r false]; change (a =? b) with r in H end.

Lemma operand_true result reg chk v v' :
  operand result reg chk v = Ok (true, v') ->
  result = true /\ exists r, reg = Ok r /\ chk (uint32 r) v = Ok (true, v').
Proof. unfold operand, and_then. intros. destruct result; inv_verif. eauto. Qed.

Section Soundness.
Context (env : VerifierEnv) (ci : CodeItem) (Hwf : code_item_wf ci).
Local Abbreviation code := (insns_ ci).

Lemma verify_argument_true inst result v v' :
  (verify_argument_A env ci inst result v = Ok (true, v') -> result = true) /\
  (verify_argument_B env ci inst result v = Ok (true, v') -> result = true) /\
  (verify_argument_C env ci inst result v = Ok (true, v') -> result = true).
Proof.
  unfold verify_argument_A, verify_argument_B, verify_argument_C.
  split_and!; intros; inv_verif;
    repeat case_match; inv_verif; eauto; by eapply operand_true.
Qed.

Lemma verify_extra_true inst pc result v v' :
  verify_extra env ci inst pc result v = Ok (inr true, v') -> result = true.
Proof.
  destruct result; [done|]. unfold verify_extra, and_then. intros. inv_verif.
  repeat (case_match; inv_verif; simplify_eq).
Qed.

Lemma VerifyInstruction_true inst pc v v' :
  VerifyInstruction env ci inst pc v = Ok (true, v') ->
  exists v1 v2 v3,
    verify_argument_A env ci inst true v = Ok (true, v1) /\
    verify_argument_B env ci inst true v1 = Ok (true, v2) /\
    verify_argument_C env ci inst true v2 = Ok (true, v3) /\
    verify_extra env ci inst pc true v3 = Ok (inr true, v').
Proof.
  unfold VerifyInstruction. intros. inv_verif. destruct a2 as [?|b]; inv_verif.
  case_match; inv_verif. subst b.
  pose proof (verify_extra_true _ _ _ _ _ E2); subst.
  pose proof (proj2 (proj2 (verify_argument_true _ _ _ _)) E1); subst.
  pose proof (proj1 (proj2 (verify_argument_true _ _ _ _)) E0); subst.
  eauto 10.
Qed.

Lemma CheckRegisterIndex_true idx v v' :
  CheckRegisterIndex env ci idx v = Ok (true, v') -> idx < registers_size_ ci.
Proof. unfold CheckRegisterIndex. case_match; intros; inv_verif. lia. Qed.

Lemma CheckWideRegisterIndex_true idx v v' :
  CheckWideRegisterIndex env ci idx v = Ok (true, v') ->
  uint32 (idx + 1) < registers_size_ ci.
Proof. unfold CheckWideRegisterIndex. case_match; intros; inv_verif. lia. Qed.

Lemma CheckIndex_true idx bound v v' :
  (if idx >=? bound then reject env else mret true) v = Ok (true, v') -> idx < bound.
Proof. case_match; intros; inv_verif. lia. Qed.

Lemma CheckNewInstance_true idx v v' :
  CheckNewInstance env idx v = Ok (true, v') -> idx < type_ids_size_ env.
Proof. unfold CheckNewInstance. case_match; intros; inv_verif. lia. Qed.

Lemma CheckNewArray_true idx v v' :
  CheckNewArray env idx v = Ok (true, v') -> idx < type_ids_size_ env.
Proof. unfold CheckNewArray. case_match; intros; inv_verif. lia. Qed.

(** From a checked operand to its specification. *)
Lemma register_operand (get : Instruction -> res Z) i r v v' :
  (exists r, get i = Ok r /\ 0 <= r < 65536) -> get i = Ok r ->
  CheckRegisterIndex env ci (uint32 r) v = Ok (true, v') ->
  operand_ok (get i) (register_ok ci).
Proof.
  intros (r' & H' & Hr) H Hc. rewrite H in H'. injection H' as <-.
  exists r. split; [done|]. apply CheckRegisterIndex_true in Hc. unfold register_ok.
  revert Hc. int_lia.
Qed.

Lemma pair_operand (get : Instruction -> res Z) i r v v' :
  (exists r, get i = Ok r /\ 0 <= r < 65536) -> get i = Ok r ->
  CheckWideRegisterIndex env ci (uint32 r) v = Ok (true, v') ->
  operand_ok (get i) (pair_ok ci).
Proof.
  intros (r' & H' & Hr) H Hc. rewrite H in H'. injection H' as <-.
  exists r. split; [done|]. apply CheckWideRegisterIndex_true in Hc. unfold pair_ok.
  revert Hc. int_lia.
Qed.

Lemma index_operand (reg : res Z) r bound :
  reg = Ok r -> uint32 r < bound -> operand_ok reg (index_ok bound).
Proof. intros H Hr. exists r. split; [done|]. split; [apply uint32_range|done]. Qed.

(** Select the branch of the [switch] that a flag leads to. *)
Local Ltac by_flag Hf :=
  let Hc := fresh "Hc" in intros Hc;
  match goal with
  | E : _ = Ok ?k, H : context [?k =? _] |- _ =>
      match type of Hc with flagged ?c ?f =>
        let Hk := fresh "Hk" in
        assert (k = f) as Hk;
        [ let g := match type of E with
            | GetVerifyTypeArgumentA _ = _ => constr:(0%nat)
            | GetVerifyTypeArgumentB _ = _ => constr:(1%nat)
            | GetVerifyTypeArgumentC _ = _ => constr:(2%nat)
            | GetVerifyExtraFlags _ = _ => constr:(3%nat)
            end in
          let gs := eval vm_compute in (nth g verify_groups []) in
          let Hb := fresh "Hb" in
          pose proof (verify_bits_flagged _ c gs f (fits_opcode _ _ Hf)
            ltac:(simpl; tauto) ltac:(simpl; tauto) Hc) as Hb;
          assert (Ok k = Ok f) as Hkf by (rewrite <- E; exact Hb);
          by injection Hkf
        | subst k; eval_eqb H; cbv beta iota in H ]
      end
  end.

Lemma argument_A_ok i c v v' :
  fits i c -> verify_argument_A env ci i true v = Ok (true, v') ->
  (flagged c kVerifyRegA -> operand_ok (VRegA i) (register_ok ci)) /\
  (flagged c kVerifyRegAWide -> operand_ok (VRegA i) (pair_ok ci)).
Proof.
  unfold verify_argument_A. intros Hf H. inv_verif. split; by_flag Hf;
    apply operand_true in H as (_ & r & Hr & H);
    eauto using register_operand, pair_operand, VRegA_register.
Qed.

Lemma argument_B_ok i c v v' :
  fits i c -> verify_argument_B env ci i true v = Ok (true, v') ->
  (flagged c kVerifyRegB -> operand_ok (VRegB i) (register_ok ci)) /\
  (flagged c kVerifyRegBWide -> operand_ok (VRegB i) (pair_ok ci)) /\
  (flagged c kVerifyRegBField -> operand_ok (VRegB i) (index_ok (field_ids_size_ env))) /\
  (flagged c kVerifyRegBMethod -> operand_ok (VRegB i) (index_ok (method_ids_size_ env))) /\
  (flagged c kVerifyRegBString -> operand_ok (VRegB i) (index_ok (string_ids_size_ env))) /\
  (flagged c kVerifyRegBType \/ flagged c kVerifyRegBNewInstance ->
   operand_ok (VRegB i) (index_ok (type_ids_size_ env))).
Proof.
  unfold verify_argument_B. intros Hf H. inv_verif. split_and!.
  6: intros [Ht|Hn]; [revert Ht|revert Hn].
  all: by_flag Hf; apply operand_true in H as (_ & r & Hr & H);
    eauto using register_operand, pair_operand, VRegB_register, index_operand,
      CheckIndex_true, CheckNewInstance_true.
Qed.

Lemma argument_C_ok i c v v' :
  fits i c -> verify_argument_C env ci i true v = Ok (true, v') ->
  (flagged c kVerifyRegC -> operand_ok (VRegC i) (register_ok ci)) /\
  (flagged c kVerifyRegCWide -> operand_ok (VRegC i) (pair_ok ci)) /\
  (flagged c kVerifyRegCField -> operand_ok (VRegC i) (index_ok (field_ids_size_ env))) /\
  (flagged c kVerifyRegCType \/ flagged c kVerifyRegCNewArray ->
   operand_ok (VRegC i) (index_ok (type_ids_size_ env))).
Proof.
  unfold verify_argument_C. intros Hf H. inv_verif. split_and!.
  4: intros [Ht|Hn]; [revert Ht|revert Hn].
  all: by_flag Hf; apply operand_true in H as (_ & r & Hr & H);
    eauto using register_operand, pair_operand, VRegC_register, index_operand,
      CheckIndex_true, CheckNewArray_true.
Qed.

(** *** Branches *)

Lemma GetBranchOffset_range pc off cond self :
  GetBranchOffset ci pc = Ok (Some (off, cond, self)) -> -2147483648 <= off < 2147483648.
Proof.
  unfold GetBranchOffset. intros. inv_res.
  assert (forall w, -2147483648 <= int16 w < 2147483648) as H16 by (intros w; int_lia).
  assert (forall w, -2147483648 <= Z.shiftr (int16 w) 8 < 2147483648) as H8
    by (intros w; rewrite shiftr_div by lia; int_lia).
  repeat case_match; inv_res; simplify_eq; auto using int32_range.
Qed.

Lemma CheckBranchTarget_true pc v v' :
  0 <= pc < zlength code -> CheckBranchTarget env ci pc v = Ok (true, v') ->
  exists off cond self, GetBranchOffset ci pc = Ok (Some (off, cond, self)) /\
    marked v (pc + off) /\ (self = false -> off <> 0).
Proof.
  unfold CheckBranchTarget. intros Hpc H. inv_verif.
  pose proof (wf_small _ Hwf). rewrite (wf_size _ Hwf) in H.
  destruct a as [[[off cond] self]|]; [|inv_verif].
  pose proof (GetBranchOffset_range _ _ _ _ E).
  destruct (negb self && (off =? 0)) eqn:Hself; [inv_verif|].
  destruct (Z.eqb_spec (int64 (pc + off)) (uint32 (pc + off))) as [Hov|]; simpl in H;
    [|inv_verif].
  case_match eqn:Hr; [inv_verif|]. apply orb_false_iff in Hr as [Hr _].
  assert (int32 (uint32 (pc + off)) = pc + off) as Ha by (revert Hov Hr; int_lia).
  rewrite Ha in H. inv_verif. case_match eqn:Ho; [inv_verif|].
  apply insn_flag_marked in E0 as [-> Hm]. apply negb_false_iff in Ho.
  exists off, cond, self. split_and!; [done|auto|].
  intros ->. simpl in Hself. lia.
Qed.

(** *** Tables *)

Lemma table_offset i c w1 w2 :
  fits i c -> FormatOf c = k31t -> Fetch16 i 1 = Ok w1 -> Fetch16 i 2 = Ok w2 ->
  VRegB i = Ok (int32 (Z.lor w1 (Z.shiftl w2 16))).
Proof.
  intros Hf HF H1 H2. destruct (fits_fetch i c Hf) as [d H0].
  destruct (VRegB_31t_view i c d Hf HF H0) as (r & Hr & -> & _). f_equal.
  unfold VRegB_31t in Hr. rewrite (dcheck_format_ok i c k31t (fits_opcode _ _ Hf) HF) in Hr.
  simpl in Hr. pose proof (Fetch16_range _ _ _ (fits_code _ _ Hf) H1).
  pose proof (Fetch16_range _ _ _ (fits_code _ _ Hf) H2).
  rewrite (Fetch32_units i 1 w1 w2) in Hr by done. simpl in Hr. inv_res.
  by rewrite lor_low_high by lia.
Qed.

Lemma table_start pc off :
  0 <= pc < zlength code -> -2147483648 <= off < 2147483648 ->
  (int32 (int32 pc + off) <? 0) || (uint32 (pc + off + 2) >=? zlength code) = false ->
  0 <= pc + off /\ pc + off + 2 < zlength code.
Proof.
  intros Hpc Hoff [H1 H2]%orb_false_iff. pose proof (wf_small _ Hwf).
  assert (0 <= pc + off < 2147483648) by (revert H1; clear H2; int_lia).
  revert H2. int_lia.
Qed.

Lemma check_keys_true n table keys_offset targ last_key v v' :
  check_keys env ci n table keys_offset targ last_key v = Ok (true, v') ->
  v' = v /\
  (table_word ci table (keys_offset + (targ - 1) * 2) = Ok last_key ->
   forall k, targ <= k < targ + Z.of_nat n ->
     exists key key', table_word ci table (keys_offset + (k - 1) * 2) = Ok key /\
       table_word ci table (keys_offset + k * 2) = Ok key' /\ key < key').
Proof.
  revert targ last_key v. induction n as [|n IH]; intros targ last_key v H; simpl in H.
  - inv_verif. split; [done|]. intros; lia.
  - inv_verif. case_match eqn:Hk; [inv_verif|]. apply IH in H as [-> H].
    split; [done|]. intros H0 k Hk'. destruct (decide (k = targ)) as [->|].
    + exists last_key, a. split_and!; [done|done|lia].
    + apply H; [by replace (targ + 1 - 1) with targ by lia|lia].
Qed.

Lemma table_word_range table k w : table_word ci table k = Ok w -> -2147483648 <= w < 2147483648.
Proof.
  unfold table_word. intros. inv_res.
  apply Fetch16_range in E; [|apply Hwf]. apply Fetch16_range in E0; [|apply Hwf].
  destruct (decide (a0 < 32768)).
  - replace (int32 (Z.shiftl a0 16)) with (Z.shiftl a0 16)
      by (rewrite shiftl_mul by lia; int_lia).
    rewrite lor_low_high by lia. lia.
  - replace (int32 (Z.shiftl a0 16)) with (Z.shiftl (a0 - 65536) 16)
      by (rewrite !shiftl_mul by lia; int_lia).
    rewrite lor_low_high by lia. lia.
Qed.

Lemma check_targets_true n pc table targets_offset targ v v' :
  0 <= pc < zlength code ->
  check_targets env ci n pc table targets_offset targ v = Ok (true, v') ->
  forall k, targ <= k < targ + Z.of_nat n ->
    exists t, table_word ci table (targets_offset + k * 2) = Ok t /\ marked v (pc + t).
Proof.
  intros Hpc. revert targ v. induction n as [|n IH]; intros targ v H k Hk; [lia|].
  simpl in H. rewrite (wf_size _ Hwf) in H. inv_verif. case_match eqn:Hr; [inv_verif|].
  pose proof (wf_small _ Hwf). pose proof (table_word_range _ _ _ E).
  apply orb_false_iff in Hr as [Hr1 Hr2].
  assert (int32 (pc + a) = pc + a) as Ha by (revert Hr1 Hr2; int_lia).
  rewrite Ha in *. inv_verif. case_match eqn:Ho; [inv_verif|]. inv_verif.
  apply insn_flag_marked in E0 as [-> Hm]. apply negb_false_iff in Ho.
  destruct (decide (k = targ)) as [->|]; [eauto|].
  destruct (IH _ _ H k) as (t & Ht & Mt); [lia|]. exists t. split; [done|].
  unfold marked in *. erewrite <- keeps_update; [done| |done]. auto with verif.
Qed.

Lemma opcode_byte i c w :
  Opcode i = Ok c -> Fetch16 i 0 = Ok w -> Z.land w 0xff = code_index c.
Proof.
  intros Ho Hw. apply Opcode_ok in Ho as (w' & Hw' & ->). rewrite Hw in Hw'.
  injection Hw' as <-. rewrite land_0xff, code_index_of_byte; [done|].
  apply Z.mod_pos_bound. lia.
Qed.

Lemma is_packed i c w :
  Opcode i = Ok c -> Fetch16 i 0 = Ok w ->
  (Z.land w 0xff =? code_index PACKED_SWITCH) = bool_decide (c = PACKED_SWITCH).
Proof.
  intros Ho Hw. rewrite (opcode_byte i c w Ho Hw).
  destruct (Z.eqb_spec (code_index c) (code_index PACKED_SWITCH)) as [H|H].
  - apply code_index_inj in H as ->. done.
  - rewrite bool_decide_eq_false_2; [done|]. by intros ->.
Qed.

Lemma switch_signature_bool c :
  switch_signature c =
  if bool_decide (c = PACKED_SWITCH) then kPackedSwitchSignature else kSparseSwitchSignature.
Proof. unfold switch_signature. by destruct (decide (c = PACKED_SWITCH)) as [->|]; [|rewrite bool_decide_eq_false_2]. Qed.

Lemma switch_targets_bool c count :
  switch_targets c count = if bool_decide (c = PACKED_SWITCH) then 4 else 2 + 2 * count.
Proof. unfold switch_targets. by destruct (decide (c = PACKED_SWITCH)) as [->|]; [|rewrite bool_decide_eq_false_2]. Qed.

Lemma switch_table_end pc off size :
  0 <= pc + off < zlength code -> 0 <= size < 2 ^ 20 ->
  (uint32 (pc + off + uint32 size) >? zlength code) = false ->
  pc + off + size <= zlength code.
Proof. intros ? ? H. pose proof (wf_small _ Hwf). revert H. int_lia. Qed.

Lemma CheckSwitchTargets_true pc c v v' :
  0 <= pc < zlength code -> fits (At code pc) c -> FormatOf c = k31t ->
  (forall idx, marked v idx -> instruction_start code idx) ->
  CheckSwitchTargets env ci pc v = Ok (true, v') -> exists off count, switch_ok env ci pc c off count.
Proof.
  intros Hpc Hf HF Hm. unfold CheckSwitchTargets. intros H.
  rewrite (wf_size _ Hwf) in H. inv_verif.
  rewrite (is_packed _ c _ (fits_opcode _ _ Hf) E0) in H.
  pose proof (table_offset _ c _ _ Hf HF E1 E2) as Hoff.
  set (off := int32 (Z.lor a1 (Z.shiftl a2 16))) in *. assert (-2147483648 <= off < 2147483648) as Hor by apply int32_range.
  case_match eqn:Hs; [inv_verif|]. destruct (table_start pc off Hpc Hor Hs) as [Hs1 Hs2].
  case_match eqn:Hal; [inv_verif|]. inv_verif.
  apply (Fetch16_range (At code (pc + off))) in E3 as Hcount; [|apply Hwf].
  rewrite <- switch_signature_bool, <- (switch_targets_bool c a3) in H.
  set (ko := if bool_decide _ then -1 else 2) in H.
  destruct (Z.eqb_spec a4 (switch_signature c)) as [->|]; simpl in H; [|inv_verif].
  case_match eqn:Hend; [inv_verif|]. inv_verif. destruct a4; simpl in H; [|inv_verif].
  exists off, a3. assert (v0 = v) as ->.
  { case_match; inv_verif; [by apply check_keys_true in E5 as [-> _]|done]. }
  split; [done|done| |done|done| | |].
  - by apply negb_false_iff, Z.eqb_eq in Hal.
  - rewrite <- Z.add_assoc. eapply switch_table_end; [lia| |by rewrite Z.mul_comm in Hend].
    unfold switch_targets. destruct (decide _); lia.
  - intros Hc k Hk. subst ko. rewrite bool_decide_eq_false_2 in E5 by done. simpl in E5.
    destruct (Z.gtb_spec a3 1); [|lia]. simpl in E5. inv_verif.
    apply check_keys_true in E5 as [_ H']. apply H'; [done|lia].
  - intros k Hk. destruct (check_targets_true _ _ _ _ _ _ _ Hpc H k) as (t & ? & ?);
      [lia|eauto].
Qed.

Lemma CheckArrayData_true pc c v v' :
  0 <= pc < zlength code -> fits (At code pc) c -> FormatOf c = k31t ->
  CheckArrayData env ci pc v = Ok (true, v') -> array_data_ok ci pc.
Proof.
  intros Hpc Hf HF. unfold CheckArrayData. intros H. rewrite (wf_size _ Hwf) in H. inv_verif.
  pose proof (table_offset _ c _ _ Hf HF E0 E1) as Hoff.
  set (off := int32 (Z.lor a0 (Z.shiftl a1 16))) in *.
  assert (-2147483648 <= off < 2147483648) as Hor by apply int32_range.
  case_match eqn:Hs; [inv_verif|]. destruct (table_start pc off Hpc Hor Hs) as [Hs1 Hs2].
  case_match eqn:Hal; [inv_verif|]. inv_verif. case_match eqn:Hend; [inv_verif|].
  exists off, a2, a3. split_and!; [done..|]. intros Hsmall.
  assert (0 <= a2 /\ 0 <= a3) as [? ?].
  { split; [by eapply (Fetch16_range (At code (pc + off))); [apply Hwf|]|].
    unfold Fetch32 in E3. inv_res. apply Z.lor_nonneg. split; [|apply uint32_range].
    by eapply (Fetch16_range (At code (pc + off))); [apply Hwf|]. }
  assert (0 <= a2 * a3) by lia. pose proof (wf_small _ Hwf).
  set (p := a2 * a3) in *. clearbody p off. revert Hend. clear - Hs1 Hs2 Hsmall H2 H3. int_lia.
Qed.

Lemma check_args_true n idx args v v' :
  check_args env ci n idx args v = Ok (true, v') ->
  forall k, idx <= k < idx + Z.of_nat n ->
    exists a, zget args k = Ok a /\ a < registers_size_ ci.
Proof.
  revert idx v. induction n as [|n IH]; intros idx v H k Hk; [lia|].
  simpl in H. inv_verif. case_match eqn:Hr; [inv_verif|].
  destruct (decide (k = idx)) as [->|]; [exists a; split; [done|lia]|].
  eapply IH; [done|lia].
Qed.

Lemma GetVarArgs_length i d args :
  code_ok (insns i) -> Fetch16 i 0 = Ok d -> GetVarArgs i d = Ok args ->
  InstB i d = Ok (zlength args) /\ zlength args <= 5 /\ Forall (fun a => 0 <= a) args.
Proof.
  intros Hc Hd. unfold GetVarArgs. intros H. inv_res. apply Z.leb_le in E2.
  pose proof (Fetch16_range _ _ _ Hc Hd).
  assert (0 <= a1) as Ha1
    by (unfold InstB in E1; inv_res; rewrite shiftr_div by lia; int_lia).
  assert (0 <= a3) as Ha3.
  { unfold InstA in E3. inv_res. apply uint8_range. }
  assert (forall x, 0 <= Z.land x 15) as Hl by (intros x; apply Z.land_nonneg; right; lia).
  assert (a1 = 0 \/ a1 = 1 \/ a1 = 2 \/ a1 = 3 \/ a1 = 4 \/ a1 = 5) as Hcase by lia.
  destruct_or! Hcase; subst a1; simpl; split_and!; try done;
    repeat (apply Forall_cons; split); auto.
Qed.

Lemma arguments_true pc c v v' d args n :
  fits (At code pc) c -> FormatOf c = k35c -> Fetch16 (At code pc) 0 = Ok d ->
  GetVarArgs (At code pc) d = Ok args -> VRegA (At code pc) = Ok n ->
  CheckVarArgRegs env ci (uint32 n) args v = Ok (true, v') -> arguments_ok ci pc.
Proof.
  intros Hf HF Hd Hg Hn. unfold CheckVarArgRegs. case_match; intros; inv_verif.
  destruct (GetVarArgs_length _ _ _ (fits_code _ _ Hf) Hd Hg) as (Hb & Hlen & Hpos).
  destruct (VRegA_35c_view _ c d Hf HF Hd) as (n' & Hn' & Hn'' & Hr).
  rewrite Hn in Hn''. injection Hn'' as <-.
  unfold VRegA_35c in Hn'. inv_res. rewrite Hb in Hn'. injection Hn' as <-.
  exists d, args. split_and!; [done..|]. apply Forall_lookup. intros k x Ha. split.
  - by apply (Forall_lookup_1 _ _ _ _ Hpos Ha).
  - apply lookup_lt_Some in Ha as Hk.
    destruct (check_args_true _ _ _ _ _ H0 (Z.of_nat k)) as (a' & Ha' & ?);
      [revert Hk; int_lia|].
    apply zget_ok in Ha' as [_ Ha']. rewrite Nat2Z.id in Ha'. congruence.
Qed.

Lemma range_true pc c v v' a cc :
  fits (At code pc) c -> FormatOf c = k3rc -> VRegA (At code pc) = Ok a ->
  VRegC (At code pc) = Ok cc ->
  CheckVarArgRangeRegs env ci (uint32 a) (uint32 cc) v = Ok (true, v') -> range_ok ci pc.
Proof.
  intros Hf HF Ha Hc. destruct (fits_fetch _ _ Hf) as [d H0].
  destruct (VRegA_3rc_view _ c d Hf HF H0) as (a' & _ & Ha' & Har).
  destruct (VRegC_3rc_view _ c d Hf HF H0) as (c' & _ & Hc' & Hcr).
  rewrite Ha in Ha'. rewrite Hc in Hc'. simplify_eq.
  unfold CheckVarArgRangeRegs. case_match eqn:Hr; intros; inv_verif.
  exists a', c'. split_and!; [done..|lia|lia|]. revert Hr. int_lia.
Qed.

Record extra_ok (pc : Z) (c : Code) : Prop := {
  extra_no_error : ~ flagged c kVerifyError;
  extra_branch : flagged c kVerifyBranchTarget -> branch_ok ci pc;
  extra_switch : flagged c kVerifySwitchTargets -> exists off count, switch_ok env ci pc c off count;
  extra_array_data : flagged c kVerifyArrayData -> array_data_ok ci pc;
  extra_arguments :
    flagged c kVerifyVarArg \/ flagged c kVerifyVarArgNonZero -> arguments_ok ci pc;
  extra_range :
    flagged c kVerifyVarArgRange \/ flagged c kVerifyVarArgRangeNonZero -> range_ok ci pc;
  extra_nonzero :
    flagged c kVerifyVarArgNonZero \/ flagged c kVerifyVarArgRangeNonZero ->
    operand_ok (VRegA (At code pc)) (fun a => 0 < a);
}.

Lemma verify_extra_ok pc c v v' :
  0 <= pc < zlength code -> fits (At code pc) c ->
  (forall idx, marked v idx -> instruction_start code idx) ->
  verify_extra env ci (At code pc) pc true v = Ok (inr true, v') -> extra_ok pc c.
Proof.
  unfold verify_extra. intros Hpc Hf Hm H. inv_verif.
  destruct (extra_formats c) as (HF1 & HF2 & HF3). split.
  - by_flag Hf. inv_verif. done.
  - by_flag Hf. inv_verif. simplify_eq. simpl in E0.
    apply CheckBranchTarget_true in E0 as (off & cond & self & ? & ? & ?); [|done].
    exists off, cond, self. auto.
  - by_flag Hf. inv_verif. simplify_eq. simpl in E0.
    eapply CheckSwitchTargets_true; eauto.
  - by_flag Hf. inv_verif. simplify_eq. simpl in E0. eapply CheckArrayData_true; eauto.
  - intros Hc. specialize (HF2 Hc). revert Hc. intros [Hc|Hc]; revert Hc; by_flag Hf; simpl in H;
      inv_verif; try case_match; inv_verif; simplify_eq; simpl in *;
      eapply arguments_true; eauto.
  - intros Hc. specialize (HF3 Hc). revert Hc. intros [Hc|Hc]; revert Hc; by_flag Hf; simpl in H;
      inv_verif; try case_match; inv_verif; simplify_eq; simpl in *; inv_verif;
      eapply range_true; eauto.
  - intros [Hc|Hc]; revert Hc; by_flag Hf; simpl in H; inv_verif; case_match eqn:Hz;
      inv_verif; simplify_eq; apply Z.leb_gt in Hz; by eexists.
Qed.

Lemma VerifyInstruction_ok pc v v' :
  tiled ci -> (forall idx, marked v idx <-> instruction_start code idx) ->
  instruction_start code pc -> VerifyInstruction env ci (At code pc) pc v = Ok (true, v') ->
  exists c, Opcode (At code pc) = Ok c /\ instruction_ok env ci pc c.
Proof.
  intros Ht Hm Hs H. apply VerifyInstruction_true in H as (v1 & v2 & v3 & HA & HB & HC & HE).
  assert (exists c, Opcode (At code pc) = Ok c) as [c Hc].
  { unfold verify_argument_A, GetVerifyTypeArgumentA, verify_bits in HA. inv_verif.
    inv_res. eauto. }
  pose proof (tiled_fits ci Hwf pc c Ht Hs Hc) as Hf.
  pose proof (proj1 (keeps_arguments _ _ _ _) _ _ _ HA) as K1.
  pose proof (proj1 (proj2 (keeps_arguments _ _ _ _)) _ _ _ HB) as K2.
  pose proof (proj2 (proj2 (keeps_arguments _ _ _ _)) _ _ _ HC) as K3.
  apply (argument_A_ok _ c) in HA as (? & ?); [|done].
  apply (argument_B_ok _ c) in HB as (? & ? & ? & ? & ? & ?); [|done].
  apply (argument_C_ok _ c) in HC as (? & ? & ? & ?); [|done].
  apply (verify_extra_ok _ c) in HE as []; [|by eapply walks_bounds|done|].
  - exists c. split; [done|]. by split.
  - intros idx Hi. apply Hm. unfold marked in *. congruence.
Qed.

Lemma VerifyInstructions_loop_ok fuel pc v v' :
  tiled ci -> (forall idx, marked v idx <-> instruction_start code idx) ->
  (pc < zlength code -> instruction_start code pc) ->
  VerifyInstructions_loop env ci fuel (At code pc) pc v = Ok (true, v') ->
  forall idx, walks_to code pc idx ->
    exists c, Opcode (At code idx) = Ok c /\ instruction_ok env ci idx c.
Proof.
  intros Ht. revert pc v. induction fuel as [|fuel IH]; intros pc v Hm Hs H idx Hi;
    simpl in H; [done|].
  rewrite (wf_size _ Hwf) in H. pose proof (walks_bounds _ _ _ Hi).
  destruct (Z.ltb_spec pc (zlength code)); [|inversion Hi; lia].
  inv_verif. destruct a; simpl in H; [|inv_verif]. inv_verif.
  pose proof (keeps_VerifyInstruction _ _ _ _ _ _ _ E) as K1.
  eapply (fun Hk : keeps _ => Hk _ _ _) in E4 as K2; [|keeps_tac].
  inversion Hi as [|? n ? ? En Hw]; subst.
  - eapply VerifyInstruction_ok; eauto.
  - rewrite E5 in En. injection En as <-. unfold RelativeAt in H. simpl in H.
    eapply IH; [| |exact H|exact Hw].
    + intros idx'. rewrite <- Hm. unfold marked. by rewrite K2, K1.
    + intros. apply walks_snoc; [by apply Hs|done|]. split; [|done].
      pose proof (walks_bounds _ _ _ (Hs H1)).
      pose proof (SizeInCodeUnits_pos (At code pc) _ (wf_units _ Hwf) E5). lia.
Qed.
End Soundness.

(** ** Try blocks and handlers *)

(** [q] is where one of the [n] handler lists stored from [p] on begins. *)
Inductive list_starts : nat -> list Z -> list Z -> Prop :=
  | list_here n p : list_starts (S n) p p
  | list_next n p it fuel es final p' q :
      CatchHandlerIterator.of_data p = Ok it ->
      CatchHandlerIterator.walk fuel it = Ok (es, final) ->
      CatchHandlerIterator.EndDataPointer final = Ok p' ->
      list_starts n p' q -> list_starts (S n) p q.

(** The handlers of the list at [p], all of them satisfying [P]. *)
Definition handlers_at (P : Z -> Prop) (p : list Z) : Prop :=
  exists it fuel es final, CatchHandlerIterator.of_data p = Ok it /\
    CatchHandlerIterator.walk fuel it = Ok (es, final) /\ Forall (fun e => P e.2) es.

Lemma walk_mono fuel fuel' it r :
  CatchHandlerIterator.walk fuel it = Ok r -> (fuel <= fuel')%nat ->
  CatchHandlerIterator.walk fuel' it = Ok r.
Proof.
  revert fuel' it r. induction fuel as [|fuel IH]; intros fuel' it r H Hle; [done|].
  destruct fuel' as [|fuel']; [lia|]. simpl in *. case_match; [|done].
  inv_res. rewrite E. simpl. destruct a0 as [rest final].
  rewrite (IH fuel' _ _ E0) by lia. done.
Qed.

Lemma walk_agree fuel fuel' it r r' :
  CatchHandlerIterator.walk fuel it = Ok r -> CatchHandlerIterator.walk fuel' it = Ok r' ->
  r = r'.
Proof.
  intros H H'. apply (walk_mono _ (fuel + fuel')) in H; [|lia].
  apply (walk_mono _ (fuel + fuel')) in H'; [|lia]. congruence.
Qed.

#[local] Arguments mark_try : simpl never.

Section TryBlocks.
Context (env : VerifierEnv) (ci : CodeItem) (Hwf : code_item_wf ci).
Local Abbreviation code := (insns_ ci).

(** A try block starts at an instruction and stays inside the code. *)
Definition try_block_ok (P : Z -> Prop) (t : TryItem) : Prop :=
  P (start_addr_ t) /\
  start_addr_ t < uint32 (start_addr_ t + insn_count_ t) <= zlength code.

Lemma scan_tries_true n idx v v' :
  scan_tries env ci n idx v = Ok (true, v') ->
  forall k, idx <= k < idx + Z.of_nat n ->
    exists t, GetTryItems ci k = Ok t /\ try_block_ok (marked v) t.
Proof.
  revert idx v. induction n as [|n IH]; intros idx v H k Hk; [lia|].
  simpl in H. rewrite (wf_size _ Hwf) in H. inv_verif.
  case_match eqn:Hr; inv_verif. case_match eqn:Ho; inv_verif.
  apply insn_flag_marked in E0 as [-> Hm]. apply negb_false_iff in Ho.
  pose proof (keeps_mark_try _ _ _ _ _ _ _ E1) as K.
  destruct (decide (k = idx)) as [->|].
  - exists a. split; [done|]. split; [auto|]. lia.
  - destruct (IH _ _ H k) as (t & Ht & Mt); [lia|]. exists t. split; [done|].
    unfold try_block_ok, marked in *. by rewrite K in Mt.
Qed.

Lemma scan_handlers_true fuel it v it' v' :
  scan_handlers env ci fuel it v = Ok ((true, it'), v') ->
  exists es, CatchHandlerIterator.walk fuel it = Ok (es, it') /\
    Forall (fun e => marked v e.2) es.
Proof.
  revert it v. induction fuel as [|fuel IH]; intros it v H; simpl in H; [done|].
  simpl. case_match eqn:Hn.
  - inv_verif. case_match eqn:Ho; inv_verif. destruct a0; simpl in H; inv_verif.
    apply insn_flag_marked in E as [-> Hm]. apply negb_false_iff in Ho.
    pose proof (keeps_CheckNotMoveResult _ _ _ _ _ _ E0) as K0.
    eapply keeps_update in E1 as K1; [|auto with verif].
    destruct (IH _ _ H) as (es & Hw & Hes). rewrite E2. simpl. rewrite Hw. simpl.
    eexists. split; [done|]. apply Forall_cons. split; [by apply Hm|].
    eapply Forall_impl; [exact Hes|]. intros e. unfold marked. by rewrite K1, K0.
  - inv_verif. by exists [].
Qed.

Lemma scan_handler_lists_true n p v v' :
  scan_handler_lists env ci n p v = Ok (true, v') ->
  forall q, list_starts n p q -> handlers_at (marked v) q.
Proof.
  revert p v. induction n as [|n IH]; intros p v H q Hq; [inversion Hq|].
  simpl in H. inv_verif. destruct a0 as [[] it']; simpl in H; inv_verif.
  pose proof (keeps_scan_handlers _ _ _ _ _ _ _ E0) as K.
  apply scan_handlers_true in E0 as (es & Hw & Hes).
  inversion Hq as [|? ? it fuel es' final p' ? Hit Hwalk Hend Hq']; subst.
  - exists a, (length q + 3)%nat, es, it'. done.
  - rewrite E in Hit. injection Hit as ->.
    pose proof (walk_agree _ _ _ _ _ Hw Hwalk) as [= -> ->].
    rewrite E1 in Hend. injection Hend as ->.
    destruct (IH _ _ H q Hq') as (it1 & f1 & es1 & fin1 & ? & ? & Hes1).
    exists it1, f1, es1, fin1. split_and!; [done|done|].
    eapply Forall_impl; [exact Hes1|]. intros e. unfold marked. by rewrite K.
Qed.

(** The lists behind the first byte or bytes of the handler data, which hold
    their number. *)
Definition handler_list (q : list Z) : Prop :=
  exists n data p, GetCatchHandlerData ci 0 = Ok data /\
    DecodeUnsignedLeb128 data = Ok (n, p) /\ list_starts (Z.to_nat n) p q.

Lemma ScanTryCatchBlocks_true v v' :
  ScanTryCatchBlocks env ci v = Ok (true, v') ->
  (forall k, 0 <= k < tries_size_ ci ->
     exists t, GetTryItems ci k = Ok t /\ try_block_ok (marked v) t) /\
  (tries_size_ ci <> 0 -> forall q, handler_list q -> handlers_at (marked v) q).
Proof.
  unfold ScanTryCatchBlocks. destruct (Z.eqb_spec (tries_size_ ci) 0); intros H.
  - inv_verif. split; [lia|done].
  - inv_verif. destruct a; simpl in H; inv_verif. destruct a0 as [m p].
    pose proof (keeps_scan_tries _ _ _ _ _ _ _ E) as K. split.
    + intros k Hk. eapply scan_tries_true; [done|lia].
    + intros _ q (m' & data & p' & Hd & Hm & Hq). rewrite E0 in Hd. injection Hd as <-.
      rewrite E1 in Hm. injection Hm as <- <-.
      destruct (scan_handler_lists_true _ _ _ _ H q Hq) as (it & f & es & fin & ? & ? & Hes).
      exists it, f, es, fin. split_and!; [done|done|].
      eapply Forall_impl; [exact Hes|]. intros e. unfold marked. by rewrite K.
Qed.
End TryBlocks.

(** ** The guarantee of the static passes *)

(** Everything the three passes establish about accepted code. *)
Record statically_ok (env : VerifierEnv) (ci : CodeItem) : Prop := {
  so_registers : ins_size_ ci <= registers_size_ ci;
  so_nonempty : 0 < zlength (insns_ ci);
  so_tiled : tiled ci;
  so_instructions : forall pc, instruction_start (insns_ ci) pc ->
    exists c, Opcode (At (insns_ ci) pc) = Ok c /\ instruction_ok env ci pc c;
  so_tries : forall k, 0 <= k < tries_size_ ci ->
    exists t, GetTryItems ci k = Ok t /\ try_block_ok ci (instruction_start (insns_ ci)) t;
  so_handlers : tries_size_ ci <> 0 ->
    forall q, handler_list ci q -> handlers_at (instruction_start (insns_ ci)) q;
}.

Lemma not_marked_replicate n v idx : ~ marked (with_insn_flags (replicate n 0) v) idx.
Proof.
  intros (f & Hf & Ho)%marked_flag. apply zget_ok in Hf as [_ Hf].
  simpl in Hf. apply lookup_replicate in Hf as [-> _]. by vm_compute in Ho.
Qed.
