(* ===== verification/StaticVerifierTheorems.v ===== *)
(** * The static passes: theorems

    Soundness of [MethodVerifier::Verify]'s static part, termination of its
    loops on arbitrary code, and the places where it reads or computes outside
    what it checked. *)

From S2P Require Import Prelude Modifiers Leb128 DexOpcodes DexInstruction DexCode StaticVerifier StaticVerifierFacts.

(** ** Computations that never exhaust their bound *)

Definition bounded {A} (m : res A) : Prop := m <> Fault OutOfFuel.
Definition terminates {A} (m : verif A) : Prop := forall v, bounded (m v).

Create HintDb bounded.

Lemma bounded_bind {A B} (m : res A) (f : A -> res B) :
  bounded m -> (forall a, m = Ok a -> bounded (f a)) -> bounded (m ≫= f).
Proof. intros Hm Hf. destruct m; simpl; [auto|]. unfold bounded in *. congruence. Qed.

Lemma bounded_ok {A} (a : A) : bounded (Ok a).
Proof. done. Qed.

Lemma bounded_zget {A} (l : list A) i : bounded (zget l i).
Proof. unfold bounded, zget. by repeat case_match. Qed.

Lemma bounded_zset {A} (l : list A) i a : bounded (zset l i a).
Proof. unfold bounded, zset. by repeat case_match. Qed.

Lemma bounded_check b : bounded (check b).
Proof. by destruct b. Qed.

Lemma bounded_next_byte data : bounded (next_byte data).
Proof. by destruct data. Qed.

#[export] Hint Resolve bounded_ok bounded_zget bounded_zset bounded_check bounded_next_byte
  : bounded.

(** Walk through a computation on results; [auto] knows the primitives. *)
Ltac bounded_tac :=
  repeat first
    [ progress intros
    | solve [auto with bounded]
    | lazymatch goal with
      | |- bounded (mbind _ _) => apply bounded_bind
      | |- bounded (fmap _ _) => unfold fmap, res_fmap
      | |- bounded (match ?x with _ => _ end) => destruct x
      | |- bounded (Fault _) => discriminate
      end ].

Lemma bounded_Fetch16 i o : bounded (Fetch16 i o).
Proof. unfold Fetch16. bounded_tac. Qed.
#[export] Hint Resolve bounded_Fetch16 : bounded.

Lemma bounded_Fetch32 i o : bounded (Fetch32 i o).
Proof. unfold Fetch32. bounded_tac. Qed.

Lemma bounded_dcheck_data i d : bounded (dcheck_data i d).
Proof. unfold dcheck_data. bounded_tac. Qed.
#[export] Hint Resolve bounded_Fetch32 bounded_dcheck_data : bounded.

Lemma bounded_Opcode i : bounded (Opcode i).
Proof. unfold Opcode, Opcode_data. bounded_tac. Qed.
#[export] Hint Resolve bounded_Opcode : bounded.

Lemma bounded_dcheck_format i f : bounded (dcheck_format i f).
Proof. unfold dcheck_format. bounded_tac. Qed.

Lemma bounded_InstA i d : bounded (InstA i d).
Proof. unfold InstA. bounded_tac. Qed.
Lemma bounded_InstB i d : bounded (InstB i d).
Proof. unfold InstB. bounded_tac. Qed.
Lemma bounded_InstAA i d : bounded (InstAA i d).
Proof. unfold InstAA. bounded_tac. Qed.
#[export] Hint Resolve bounded_dcheck_format bounded_InstA bounded_InstB bounded_InstAA : bounded.

Lemma bounded_SizeInCodeUnits i : bounded (SizeInCodeUnits i).
Proof. unfold SizeInCodeUnits, SizeInCodeUnitsComplexOpcode. bounded_tac. Qed.

Lemma bounded_VRegA i : bounded (VRegA i).
Proof.
  unfold VRegA, fetched, VRegA_10t, VRegA_10x, VRegA_11n, VRegA_11x, VRegA_12x, VRegA_20t,
    VRegA_21c, VRegA_21h, VRegA_21s, VRegA_21t, VRegA_22b, VRegA_22c, VRegA_22s, VRegA_22t,
    VRegA_22x, VRegA_23x, VRegA_30t, VRegA_31c, VRegA_31i, VRegA_31t, VRegA_32x, VRegA_35c,
    VRegA_3rc, VRegA_51l.
  bounded_tac.
Qed.

Lemma bounded_VRegB i : bounded (VRegB i).
Proof.
  unfold VRegB, fetched, VRegB_11n, VRegB_12x, VRegB_21c, VRegB_21h, VRegB_21s, VRegB_21t,
    VRegB_22b, VRegB_22c, VRegB_22s, VRegB_22t, VRegB_22x, VRegB_23x, VRegB_31c, VRegB_31i,
    VRegB_31t, VRegB_32x, VRegB_35c, VRegB_3rc, VRegB_51l.
  bounded_tac.
Qed.

Lemma bounded_VRegC i : bounded (VRegC i).
Proof.
  unfold VRegC, VRegC_22b, VRegC_22c, VRegC_22s, VRegC_22t, VRegC_23x, VRegC_35c, VRegC_3rc.
  bounded_tac.
Qed.

Lemma bounded_GetVarArgs i d : bounded (GetVarArgs i d).
Proof. unfold GetVarArgs. bounded_tac. Qed.

Lemma bounded_DecodeUnsignedLeb128 data : bounded (DecodeUnsignedLeb128 data).
Proof. unfold DecodeUnsignedLeb128. bounded_tac. Qed.

Lemma bounded_DecodeSignedLeb128 data : bounded (DecodeSignedLeb128 data).
Proof. unfold DecodeSignedLeb128. bounded_tac. Qed.

#[export] Hint Resolve bounded_SizeInCodeUnits bounded_VRegA bounded_VRegB bounded_VRegC
  bounded_GetVarArgs bounded_DecodeUnsignedLeb128 bounded_DecodeSignedLeb128 : bounded.

Lemma bounded_iterator_Next it : bounded (CatchHandlerIterator.Next it).
Proof. unfold CatchHandlerIterator.Next. bounded_tac. Qed.
#[export] Hint Resolve bounded_iterator_Next : bounded.

Lemma bounded_of_data p : bounded (CatchHandlerIterator.of_data p).
Proof. unfold CatchHandlerIterator.of_data, CatchHandlerIterator.Init_data. bounded_tac. Qed.
#[export] Hint Resolve bounded_of_data : bounded.

(** The same for computations over the verifier's fields. *)

Lemma terminates_bind {A B} (m : verif A) (f : A -> verif B) v :
  bounded (m v) -> (forall a v', m v = Ok (a, v') -> bounded (f a v')) -> bounded ((m ≫= f) v).
Proof.
  intros Hm Hf. unfold mbind, M_bind. destruct (m v) as [[a v']|e]; [auto|].
  unfold bounded in *. congruence.
Qed.

Lemma terminates_fmap {A B} (m : verif A) (f : A -> B) v :
  bounded (m v) -> bounded ((f <$> m) v).
Proof.
  unfold fmap, M_fmap, bounded. destruct (m v) as [[]|]; [done|congruence].
Qed.

Lemma terminates_lift {A} (m : res A) (v : MethodVerifier) : bounded m -> bounded (lift m v).
Proof. unfold lift, bounded. destruct m; simpl; [done|congruence]. Qed.

Lemma terminates_mret {A} (a : A) v : bounded ((mret a : verif A) v).
Proof. done. Qed.

Lemma terminates_Fail env e v : bounded (Fail env e v).
Proof. by destruct e. Qed.

Lemma terminates_reject env v : bounded (reject env v).
Proof. done. Qed.

Lemma terminates_insn_flag idx v : bounded (insn_flag idx v).
Proof. unfold insn_flag. bounded_tac. Qed.

Lemma terminates_update idx set v : bounded (update_insn_flag idx set v).
Proof. unfold update_insn_flag. bounded_tac. Qed.

Lemma terminates_gets {A} (f : MethodVerifier -> A) v : bounded (gets f v).
Proof. done. Qed.

Lemma terminates_modify f (v : MethodVerifier) : bounded (modify f v).
Proof. done. Qed.

#[export] Hint Resolve terminates_modify terminates_mret terminates_Fail terminates_reject terminates_insn_flag
  terminates_update terminates_gets : bounded.

Ltac terminates_tac :=
  repeat first
    [ progress intros
    | solve [auto with bounded]
    | lazymatch goal with
      | |- bounded ((@mbind verif _ _ _ _ _) _) => apply terminates_bind
      | |- bounded ((@fmap verif _ _ _ _ _) _) => apply terminates_fmap
      | |- bounded (lift _ _) => apply terminates_lift; bounded_tac
      | |- bounded (and_then ?b _ _) => destruct b; unfold and_then
      | |- bounded ((match ?x with _ => _ end) _) => destruct x eqn:?
      | |- bounded ((let _ := _ in _) _) => cbv zeta
      end ].

Section Loops.
Context (env : VerifierEnv) (ci : CodeItem) (Hcode : code_ok (insns_ ci)).

Lemma terminates_note_opcode c v : bounded (note_opcode c v).
Proof. by destruct c. Qed.
Hint Resolve terminates_note_opcode : bounded.

Lemma ComputeWidths_loop_terminates fuel inst pc n m v :
  insns inst = insns_ ci -> Z.max 0 (insns_size_in_code_units_ ci - pc) < Z.of_nat fuel ->
  bounded (ComputeWidths_loop ci fuel inst pc n m v).
Proof.
  revert inst pc n m v. induction fuel as [|fuel IH]; intros inst pc n m v Hi Hf; simpl;
    terminates_tac; [lia|].
  apply IH; [done|].
  match goal with H : lift (SizeInCodeUnits inst) _ = _ |- _ => apply lift_ok in H as [Hs _] end.
  apply SizeInCodeUnits_pos in Hs; [lia|]. by rewrite Hi.
Qed.

Lemma ComputeWidths_terminates : terminates (ComputeWidthsAndCountOps env ci).
Proof.
  intros v. unfold ComputeWidthsAndCountOps. terminates_tac.
  apply ComputeWidths_loop_terminates; [done|]. lia.
Qed.

Lemma mark_try_terminates fuel inst pc end_ v :
  insns inst = insns_ ci -> Z.max 0 (end_ - pc) < Z.of_nat fuel ->
  bounded (mark_try fuel inst pc end_ v).
Proof.
  revert inst pc v. induction fuel as [|fuel IH]; intros inst pc v Hi Hf; simpl;
    terminates_tac; [lia|].
  apply IH; [done|].
  match goal with H : lift (SizeInCodeUnits inst) _ = _ |- _ => apply lift_ok in H as [Hs _] end.
  apply SizeInCodeUnits_pos in Hs; [lia|]. by rewrite Hi.
Qed.

#[local] Arguments mark_try : simpl never.

Lemma scan_tries_terminates n idx v : bounded (scan_tries env ci n idx v).
Proof.
  revert idx v. induction n as [|n IH]; intros idx v; simpl; [done|].
  unfold GetTryItems. terminates_tac. apply mark_try_terminates; [done|]. lia.
Qed.

(** Every step of the iterator reads a byte, or uses up one of the two ways
    in which it can still have a handler. *)
Definition iterator_measure (it : CatchHandlerIterator.t) : nat :=
  length (CatchHandlerIterator.current_data_ it) +
  (if CatchHandlerIterator.remaining_count_ it =? -1 then 0 else 1).

Lemma DecodeUnsignedLeb128_shorter data n rest :
  DecodeUnsignedLeb128 data = Ok (n, rest) -> (length rest < length data)%nat.
Proof.
  unfold DecodeUnsignedLeb128. intros H.
  assert (forall l (r : Z * list Z), next_byte l = Ok r -> length l = S (length r.2)) as Hn
    by (intros [] [] Hb; simplify_eq/=; done).
  repeat (inv_res; simpl in *; repeat match goal with
    | H : next_byte _ = Ok ?p |- _ => apply Hn in H; destruct p; simpl in *
    end; try case_match); inv_res; lia.
Qed.

Lemma DecodeSignedLeb128_shorter data n rest :
  DecodeSignedLeb128 data = Ok (n, rest) -> (length rest < length data)%nat.
Proof.
  unfold DecodeSignedLeb128. intros H.
  assert (forall l (r : Z * list Z), next_byte l = Ok r -> length l = S (length r.2)) as Hn
    by (intros [] [] Hb; simplify_eq/=; done).
  repeat (inv_res; simpl in *; repeat match goal with
    | H : next_byte _ = Ok ?p |- _ => apply Hn in H; destruct p; simpl in *
    end; try case_match); inv_res; lia.
Qed.

Lemma Next_measure it it' :
  CatchHandlerIterator.HasNext it = true -> CatchHandlerIterator.Next it = Ok it' ->
  (iterator_measure it' < iterator_measure it)%nat.
Proof.
  unfold CatchHandlerIterator.HasNext, CatchHandlerIterator.Next, iterator_measure.
  destruct it as [ty ad data rem ca]; simpl. intros Hn H.
  case_match eqn:Hr; [|case_match eqn:Hc]; inv_res.
  - destruct a as [x d]. inv_res. destruct a as [y d'].
    apply DecodeUnsignedLeb128_shorter in E, E0. inv_res. simpl.
    destruct (Z.eqb_spec rem (-1)); [lia|]. case_match; lia.
  - destruct a as [x d]. apply DecodeUnsignedLeb128_shorter in E. inv_res. simpl. lia.
  - simpl. rewrite orb_false_r in Hn. destruct (rem =? -1); simpl in *; [done|lia].
Qed.

Lemma scan_handlers_terminates fuel it v :
  (iterator_measure it < fuel)%nat -> bounded (scan_handlers env ci fuel it v).
Proof.
  revert it v. induction fuel as [|fuel IH]; intros it v Hf; [lia|]. simpl.
  unfold CheckNotMoveResult. terminates_tac. apply IH.
  match goal with H : lift _ _ = _ |- _ => apply lift_ok in H as [Hs _] end.
  apply Next_measure in Hs; [lia|done].
Qed.

Lemma of_data_measure p it :
  CatchHandlerIterator.of_data p = Ok it -> (iterator_measure it <= length p)%nat.
Proof.
  unfold CatchHandlerIterator.of_data, CatchHandlerIterator.Init_data. intros H. inv_res.
  destruct a as [count data]. apply DecodeSignedLeb128_shorter in E.
  assert (forall ty ad rem ca it,
    CatchHandlerIterator.Next (CatchHandlerIterator.Mk ty ad data rem ca) = Ok it ->
    (iterator_measure it <= length data + 1)%nat) as Hnext.
  { intros ty ad rem ca it' H'. unfold CatchHandlerIterator.Next in H'. simpl in H'.
    unfold iterator_measure. repeat case_match; inv_res.
    all: repeat (match goal with x : (Z * list Z)%type |- _ => destruct x end; inv_res).
    all: repeat match goal with
         | H : DecodeUnsignedLeb128 _ = _ |- _ => apply DecodeUnsignedLeb128_shorter in H end.
    all: inv_res; simpl in *; try lia. }
  case_match; apply Hnext in H; lia.
Qed.

Lemma scan_handler_lists_terminates n p v : bounded (scan_handler_lists env ci n p v).
Proof.
  revert p v. induction n as [|n IH]; intros p v; simpl; [done|]. terminates_tac.
  - match goal with H : lift (CatchHandlerIterator.of_data p) _ = _ |- _ =>
      apply lift_ok in H as [Hs _] end.
    apply scan_handlers_terminates. apply of_data_measure in Hs. lia.
  - unfold CatchHandlerIterator.EndDataPointer. bounded_tac.
Qed.

Lemma ScanTryCatchBlocks_terminates : terminates (ScanTryCatchBlocks env ci).
Proof.
  intros v. unfold ScanTryCatchBlocks.
  pose proof scan_tries_terminates. pose proof scan_handler_lists_terminates.
  unfold GetCatchHandlerData. terminates_tac.
Qed.

Lemma check_keys_terminates n t k i l v : bounded (check_keys env ci n t k i l v).
Proof.
  revert i l v. induction n as [|n IH]; intros i l v; [done|]. simpl.
  unfold table_word. terminates_tac.
Qed.

Lemma check_targets_terminates n c t o i v : bounded (check_targets env ci n c t o i v).
Proof.
  revert i v. induction n as [|n IH]; intros i v; [done|]. simpl.
  unfold table_word. terminates_tac.
Qed.

Lemma check_args_terminates n i args v : bounded (check_args env ci n i args v).
Proof.
  revert i v. induction n as [|n IH]; intros i v; [done|]. simpl. terminates_tac.
Qed.
Hint Resolve check_keys_terminates check_targets_terminates check_args_terminates : bounded.

Lemma VerifyInstruction_terminates inst pc v : bounded (VerifyInstruction env ci inst pc v).
Proof.
  unfold VerifyInstruction, verify_argument_A, verify_argument_B, verify_argument_C,
    verify_extra, operand, GetVerifyTypeArgumentA, GetVerifyTypeArgumentB,
    GetVerifyTypeArgumentC, GetVerifyExtraFlags, GetVerifyIsRuntimeOnly, verify_bits,
    CheckRegisterIndex, CheckWideRegisterIndex, CheckFieldIndex,
    CheckMethodIndex, CheckNewInstance, CheckStringIndex, CheckTypeIndex, CheckNewArray,
    CheckArrayData, CheckBranchTarget, CheckSwitchTargets, CheckVarArgRegs,
    CheckVarArgRangeRegs, GetBranchOffset, table_word.
  terminates_tac.
Qed.

Lemma VerifyInstructions_terminates : terminates (VerifyInstructions env ci).
Proof.
  assert (forall fuel inst pc v, insns inst = insns_ ci ->
    Z.max 0 (insns_size_in_code_units_ ci - pc) < Z.of_nat fuel ->
    bounded (VerifyInstructions_loop env ci fuel inst pc v)) as Hloop.
  { intros fuel. induction fuel as [|fuel IH]; intros inst pc v Hi Hf; [lia|]. simpl.
    pose proof VerifyInstruction_terminates. unfold IsBranch, IsSwitch, IsThrow, IsReturn.
    terminates_tac. apply IH; [done|].
    match goal with H : lift (SizeInCodeUnits inst) _ = _ |- _ =>
      apply lift_ok in H as [Hs _] end.
    apply SizeInCodeUnits_pos in Hs; [lia|]. by rewrite Hi. }
  intros v. unfold VerifyInstructions. terminates_tac. apply Hloop; [done|lia].
Qed.
End Loops.

(** ** A method that passes

    [const/4 v0, 3; packed-switch v0 {3 -> return}; if-nez v0, start; return-void]
    with a try block over all of it whose catch-all handler is the return. *)

Definition sample_item : CodeItem :=
  MkCodeItem 2 1 0 1 14
    [0x3012; 0x002b; 7; 0; 0x0039; 0xfffc; 0x000e; 0x0000;
     0x0100; 1; 3; 0; 5; 0]
    [MkTryItem 0 7 1] [1; 0; 6].

Definition sample_env (ci : CodeItem) : VerifierEnv :=
  MkVerifierEnv (Some ci) 0 0x0001 10 10 10 10 [] false false true true.

Lemma sample_wf : code_item_wf sample_item.
Proof.
  split; [done|done| |simpl; lia].
  apply Forall_forall. intros x Hx. unfold fitsU. simpl in Hx.
  repeat (apply elem_of_cons in Hx as [->|Hx]; [lia|]). by apply not_elem_of_nil in Hx.
Qed.

(** ** Theorems *)

Section StaticPasses.
Context (env : VerifierEnv) (ci : CodeItem) (Hwf : code_item_wf ci).

(** The state [Verify] starts the passes in. *)
Definition fresh_flags (v : MethodVerifier) : MethodVerifier :=
  with_insn_flags (replicate (Z.to_nat (insns_size_in_code_units_ ci)) 0) v.

Lemma fresh_flags_length v : length (opcode_bits (fresh_flags v)) = length (insns_ ci).
Proof.
  unfold opcode_bits, fresh_flags. simpl. rewrite length_fmap, length_replicate.
  rewrite (wf_size _ Hwf). lia.
Qed.

(** The three passes in the order [Verify] runs them. *)
Lemma static_passes_sound v v1 v2 v3 :
  ins_size_ ci <= registers_size_ ci ->
  ComputeWidthsAndCountOps env ci (fresh_flags v) = Ok (true, v1) ->
  ScanTryCatchBlocks env ci v1 = Ok (true, v2) ->
  VerifyInstructions env ci v2 = Ok (true, v3) -> statically_ok env ci.
Proof.
  intros Hins H1 H2 H3.
  destruct (ComputeWidths_sound env ci Hwf _ v1 H1) as (L & Hm & Ht);
    [intros idx; apply not_marked_replicate|].
  pose proof (keeps_ScanTryCatchBlocks _ _ _ _ _ H2) as K2.
  apply (ScanTryCatchBlocks_true env ci Hwf) in H2 as [Htry Hh].
  unfold VerifyInstructions in H3. inv_verif.
  eapply keeps_update in E as K3; [|auto with verif].
  eapply keeps_update in E0 as K4; [|auto with verif].
  assert (Hm' : forall idx, marked v4 idx <-> instruction_start (insns_ ci) idx)
    by (intros idx; rewrite <- Hm; unfold marked; by rewrite K4, K3, K2).
  assert (Hpos : 0 < zlength (insns_ ci)).
  { rewrite <- (fresh_flags_length v), <- L, <- K2. unfold opcode_bits.
    unfold update_insn_flag in E. inv_res. apply zget_bounds in E1. rewrite length_fmap. lia. }
  split; [done|done|done| | |].
  - intros pc Hpc. eapply VerifyInstructions_loop_ok; [done|done|exact Hm'| |exact H3|done].
    intros. by apply walks_here.
  - intros k Hk. destruct (Htry k Hk) as (t & Hg & Hs & ?). exists t. split; [done|].
    split; [by apply Hm|done].
  - intros Hn q Hq. destruct (Hh Hn q Hq) as (it & f & es & fin & ? & ? & Hes).
    exists it, f, es, fin. split_and!; [done|done|].
    eapply Forall_impl; [exact Hes|]. intros e. apply Hm.
Qed.

(** Code that [Verify] accepts has passed the three passes. *)
Lemma Verify_passes flow verified v v' :
  code_item_ env = Some ci -> Verify env flow verified v = Ok (true, v') ->
  ins_size_ ci <= registers_size_ ci /\
  exists v1 v2 v3, ComputeWidthsAndCountOps env ci (fresh_flags v) = Ok (true, v1) /\
    ScanTryCatchBlocks env ci v1 = Ok (true, v2) /\
    VerifyInstructions env ci v2 = Ok (true, v3).
Proof.
  intros Hci H. unfold Verify in H. rewrite Hci in H.
  destruct (ins_size_ ci >? registers_size_ ci) eqn:Hr; [inv_verif|].
  split; [lia|]. inv_verif. unfold and_then in *.
  destruct a0; [|repeat (inv_verif; simplify_eq/=); done].
  destruct a1; [|repeat (inv_verif; simplify_eq/=); done].
  destruct a2; [|repeat (inv_verif; simplify_eq/=); done]. eauto 10.
Qed.

Lemma Verify_statically_ok flow verified v v' :
  code_item_ env = Some ci -> Verify env flow verified v = Ok (true, v') ->
  statically_ok env ci.
Proof.
  intros Hci H. destruct (Verify_passes _ _ _ _ Hci H) as (? & v1 & v2 & v3 & ? & ? & ?).
  by eapply static_passes_sound.
Qed.
End StaticPasses.

(** ** Rejections are recorded *)

(** [m] never forgets a hard failure, and returns [false] only with one. *)
Definition hard (v : MethodVerifier) : Prop :=
  have_pending_hard_failure_ v = true /\ failures_ v <> [].
Definition hard_stays {A} (m : verif A) : Prop :=
  forall v a v', m v = Ok (a, v') -> hard v -> hard v'.
Definition rejects_hard (m : verif bool) : Prop :=
  forall v v', m v = Ok (false, v') -> hard v'.

Lemma hard_stays_bind {A B} (m : verif A) (f : A -> verif B) :
  hard_stays m -> (forall a, hard_stays (f a)) -> hard_stays (m ≫= f).
Proof. intros Hm Hf v b v' H Hv. inv_verif. eapply Hf; [exact H|]. by eapply Hm. Qed.

Lemma hard_stays_fmap {A B} (m : verif A) (f : A -> B) : hard_stays m -> hard_stays (f <$> m).
Proof. intros Hm v b v' H Hv. inv_verif. by eapply Hm. Qed.

Lemma hard_stays_lift {A} (m : res A) : hard_stays (lift m : verif A).
Proof. intros v a v' H. by inv_verif. Qed.

Lemma hard_stays_mret {A} (a : A) : hard_stays (mret a).
Proof. intros v b v' H. by inv_verif. Qed.

Lemma hard_stays_insn_flag idx : hard_stays (insn_flag idx).
Proof. intros v a v' H. unfold insn_flag in H. by inv_res. Qed.

Lemma hard_stays_update idx set : hard_stays (update_insn_flag idx set).
Proof. intros v a v' H. unfold update_insn_flag in H. by inv_res. Qed.

Lemma hard_stays_gets {A} (f : MethodVerifier -> A) : hard_stays (gets f).
Proof. intros v a v' H. by inv_verif. Qed.

Lemma Fail_hard env v u v' :
  Fail env VERIFY_ERROR_BAD_CLASS_HARD v = Ok (u, v') -> hard v'.
Proof. simpl. intros [= _ <-]. split; [done|]. simpl. by destruct (failures_ v). Qed.

Lemma reject_hard env v b v' : reject env v = Ok (b, v') -> hard v'.
Proof. unfold reject. intros. inv_verif. by eapply Fail_hard. Qed.

Lemma hard_stays_Fail env : hard_stays (Fail env VERIFY_ERROR_BAD_CLASS_HARD).
Proof. intros v a v' H _. by eapply Fail_hard. Qed.

Lemma hard_stays_reject env : hard_stays (reject env).
Proof. intros v a v' H _. by eapply reject_hard. Qed.

Lemma hard_stays_note_opcode c : hard_stays (note_opcode c).
Proof. intros v a v' H. destruct c; simpl in H; by inv_verif. Qed.

Create HintDb hard.
#[export] Hint Resolve hard_stays_lift hard_stays_mret hard_stays_insn_flag hard_stays_update
  hard_stays_gets hard_stays_Fail hard_stays_reject hard_stays_note_opcode : hard.

Ltac hard_tac :=
  repeat first
    [ progress intros
    | solve [auto with hard]
    | lazymatch goal with
      | |- hard_stays (mbind _ _) => apply hard_stays_bind
      | |- hard_stays (fmap _ _) => apply hard_stays_fmap
      | |- hard_stays (and_then ?b _) => destruct b; unfold and_then
      | |- hard_stays (match ?x with _ => _ end) => destruct x
      | |- hard_stays (let _ := _ in _) => cbv zeta
      end ].

Section Rejections.
Context (env : VerifierEnv) (ci : CodeItem).

Lemma hard_stays_mark_try fuel inst pc end_ : hard_stays (mark_try fuel inst pc end_).
Proof. revert inst pc. induction fuel; intros; simpl; hard_tac. Qed.
Lemma hard_stays_check_keys n t k i l : hard_stays (check_keys env ci n t k i l).
Proof. revert i l. induction n; intros; simpl; hard_tac. Qed.
Lemma hard_stays_check_targets n c t o i : hard_stays (check_targets env ci n c t o i).
Proof. revert i. induction n; intros; simpl; hard_tac. Qed.
Lemma hard_stays_check_args n i args : hard_stays (check_args env ci n i args).
Proof. revert i. induction n; intros; simpl; hard_tac. Qed.
Hint Resolve hard_stays_mark_try hard_stays_check_keys hard_stays_check_targets
  hard_stays_check_args : hard.

Lemma hard_stays_arguments inst result :
  hard_stays (verify_argument_B env ci inst result) /\
  hard_stays (verify_argument_C env ci inst result) /\
  forall pc, hard_stays (verify_extra env ci inst pc result).
Proof.
  unfold verify_argument_B, verify_argument_C, verify_extra, operand,
    CheckRegisterIndex, CheckWideRegisterIndex, CheckFieldIndex, CheckMethodIndex,
    CheckNewInstance, CheckStringIndex, CheckTypeIndex, CheckNewArray, CheckArrayData,
    CheckBranchTarget, CheckSwitchTargets, CheckVarArgRegs, CheckVarArgRangeRegs.
  split_and!; hard_tac.
Qed.

Lemma rejects_scan_tries n idx : rejects_hard (scan_tries env ci n idx).
Proof.
  revert idx. induction n as [|n IH]; intros idx v v' H; simpl in H; inv_verif.
  case_match; inv_verif; [by eapply reject_hard|].
  case_match; inv_verif; [by eapply reject_hard|]. by eapply IH.
Qed.

Lemma rejects_scan_handlers fuel it v it' v' :
  scan_handlers env ci fuel it v = Ok ((false, it'), v') -> hard v'.
Proof.
  revert it v. induction fuel as [|fuel IH]; intros it v H; simpl in H; [done|].
  case_match; inv_verif; simplify_eq. case_match; inv_verif.
  - by eapply reject_hard.
  - destruct a0; simpl in H; inv_verif; [by eapply IH|]. by eapply reject_hard.
Qed.

Lemma rejects_scan_handler_lists n p : rejects_hard (scan_handler_lists env ci n p).
Proof.
  revert p. induction n as [|n IH]; intros p v v' H; simpl in H; inv_verif.
  destruct a0 as [[] it']; simpl in H; inv_verif; [by eapply IH|].
  by eapply rejects_scan_handlers.
Qed.

Lemma rejects_ScanTryCatchBlocks : rejects_hard (ScanTryCatchBlocks env ci).
Proof.
  intros v v' H. unfold ScanTryCatchBlocks in H. case_match; inv_verif.
  destruct a; simpl in H; inv_verif; [|by eapply rejects_scan_tries].
  destruct a0. by eapply rejects_scan_handler_lists.
Qed.

Lemma rejects_ComputeWidths : rejects_hard (ComputeWidthsAndCountOps env ci).
Proof.
  intros v v' H. unfold ComputeWidthsAndCountOps in H. inv_verif. destruct a as [[]].
  case_match; inv_verif. by eapply reject_hard.
Qed.

(** *** Operands and targets *)

Lemma rejects_if (b : bool) v v' :
  (if b then reject env else mret true) v = Ok (false, v') -> hard v'.
Proof. case_match; intros; inv_verif. by eapply reject_hard. Qed.

Lemma rejects_operand (result : bool) reg chk v v' :
  (result = false -> hard v) -> (forall idx, rejects_hard (chk idx)) ->
  operand result reg chk v = Ok (false, v') -> hard v'.
Proof.
  unfold operand, and_then. intros Hr Hc H. destruct result; inv_verif; [|auto].
  by eapply Hc.
Qed.

Lemma rejects_CheckNewInstance idx : rejects_hard (CheckNewInstance env idx).
Proof.
  intros v v' H. unfold CheckNewInstance in H.
  case_match; inv_verif; [by eapply reject_hard|by eapply rejects_if].
Qed.

Lemma rejects_CheckNewArray idx : rejects_hard (CheckNewArray env idx).
Proof.
  intros v v' H. unfold CheckNewArray in H.
  case_match; inv_verif; [by eapply reject_hard|].
  case_match; [by eapply reject_hard|by eapply rejects_if].
Qed.

Lemma rejects_arguments inst result v v' :
  (result = false -> hard v) ->
  (verify_argument_A env ci inst result v = Ok (false, v') -> hard v') /\
  (verify_argument_B env ci inst result v = Ok (false, v') -> hard v') /\
  (verify_argument_C env ci inst result v = Ok (false, v') -> hard v').
Proof.
  intros Hr. pose proof rejects_CheckNewInstance. pose proof rejects_CheckNewArray.
  assert (forall f : Z -> bool, forall idx,
    rejects_hard (if f idx then reject env else mret true)) as Hif
    by (intros f idx v0 v0'; apply rejects_if).
  unfold verify_argument_A, verify_argument_B, verify_argument_C.
  split_and!; intros Hv; inv_verif;
    repeat (case_match; [eapply rejects_operand; [exact Hr| |exact Hv]; first
      [ by auto
      | by apply (Hif (fun idx => idx >=? registers_size_ ci))
      | by apply (Hif (fun idx => uint32 (idx + 1) >=? registers_size_ ci))
      | by apply (Hif (fun idx => idx >=? field_ids_size_ env))
      | by apply (Hif (fun idx => idx >=? method_ids_size_ env))
      | by apply (Hif (fun idx => idx >=? string_ids_size_ env))
      | by apply (Hif (fun idx => idx >=? type_ids_size_ env)) ]|]);
    inv_verif; auto.
Qed.

(** Every opcode whose branch target is verified is one [GetBranchOffset]
    knows: the verifier's silent [return false] is not reached. *)
Lemma GetBranchOffset_complete pc c :
  Opcode (At (insns_ ci) pc) = Ok c -> GetBranchOffset ci pc = Ok None ->
  ~ flagged c kVerifyBranchTarget.
Proof.
  intros Ho H Hf. unfold GetBranchOffset in H. inv_res.
  apply Opcode_ok in Ho as (w & Hw & ->). rewrite E in Hw. injection Hw as <-.
  rewrite land_0xff in H. unfold flagged in Hf.
  destruct (Code_of_byte (a mod 256)); try discriminate Hf; inv_res; done.
Qed.

Lemma rejects_CheckBranchTarget pc c :
  Opcode (At (insns_ ci) pc) = Ok c -> flagged c kVerifyBranchTarget ->
  rejects_hard (CheckBranchTarget env ci pc).
Proof.
  intros Ho Hf v v' H. unfold CheckBranchTarget in H. inv_verif.
  destruct a as [[[off cond] self]|]; [|by destruct (GetBranchOffset_complete pc c Ho E)].
  case_match; [by eapply reject_hard|]. case_match; [by eapply reject_hard|].
  case_match; [by eapply reject_hard|]. inv_verif.
  case_match; [by eapply reject_hard|]. inv_verif.
Qed.

Lemma rejects_check_keys n t k i l : rejects_hard (check_keys env ci n t k i l).
Proof.
  revert i l. induction n as [|n IH]; intros i l v v' H; simpl in H; inv_verif.
  case_match; [by eapply reject_hard|by eapply IH].
Qed.

Lemma rejects_check_targets n c t o i : rejects_hard (check_targets env ci n c t o i).
Proof.
  revert i. induction n as [|n IH]; intros i v v' H; simpl in H; inv_verif.
  case_match; inv_verif; [by eapply reject_hard|].
  case_match; inv_verif; [by eapply reject_hard|by eapply IH].
Qed.

Lemma rejects_check_args n i args : rejects_hard (check_args env ci n i args).
Proof.
  revert i. induction n as [|n IH]; intros i v v' H; simpl in H; inv_verif.
  case_match; [by eapply reject_hard|by eapply IH].
Qed.

Lemma rejects_CheckSwitchTargets pc : rejects_hard (CheckSwitchTargets env ci pc).
Proof.
  intros v v' H. unfold CheckSwitchTargets in H. inv_verif. cbv zeta in H.
  case_match; inv_verif; [by eapply reject_hard|].
  case_match; inv_verif; [by eapply reject_hard|].
  set (packed := Z.land a0 255 =? _) in H. clearbody packed.
  destruct (negb (a4 =? _)) in H; inv_verif; [by eapply reject_hard|].
  destruct (_ >? _) in H; inv_verif; [by eapply reject_hard|].
  destruct a5; simpl in H; [by eapply rejects_check_targets|inv_verif].
  destruct (_ && _) in E5; inv_verif. by eapply rejects_check_keys.
Qed.

Lemma rejects_CheckArrayData pc : rejects_hard (CheckArrayData env ci pc).
Proof.
  intros v v' H. unfold CheckArrayData in H. inv_verif.
  case_match; inv_verif; [by eapply reject_hard|].
  case_match; inv_verif; [by eapply reject_hard|by eapply rejects_if].
Qed.

Lemma rejects_and_then (result : bool) m v v' :
  (result = false -> hard v) -> rejects_hard m -> and_then result m v = Ok (false, v') ->
  hard v'.
Proof. intros Hr Hm. destruct result; simpl; [apply Hm|intros; inv_verif; auto]. Qed.

Lemma bits_flagged c m f :
  Z.land (kInstructionVerifyFlags c) m = f -> Z.land m f = f -> f <> 0 -> flagged c f.
Proof.
  intros Hm Hf H0. unfold flagged, has_flag. apply negb_true_iff, Z.eqb_neq. intros Hz.
  apply H0. rewrite <- (Z.land_diag f). rewrite <- Hm at 1. by rewrite <- Z.land_assoc, Hf.
Qed.

Lemma rejects_extra inst pc c result v r v' :
  insns inst = insns_ ci -> pos inst = pc -> Opcode inst = Ok c ->
  (result = false -> hard v) -> verify_extra env ci inst pc result v = Ok (r, v') ->
  r = inr true \/ hard v'.
Proof.
  intros Hi Hp Hc Hr H. destruct inst as [l p]. simpl in Hi, Hp. subst l p.
  assert (forall b : bool, b = true \/ hard v' -> (inr b : unit + bool) = inr true \/ hard v')
    as Hb by (intros b [->|?]; auto).
  assert (forall m b v1, (result = false -> hard v1) -> rejects_hard m ->
    and_then result m v1 = Ok (b, v') -> b = true \/ hard v') as Hand.
  { intros m [] v1 Hr1 Hm Hv; [by left|right]. by eapply rejects_and_then. }
  unfold verify_extra in H. inv_verif.
  case_match; [inv_verif; subst; eauto using rejects_CheckArrayData|].
  case_match eqn:Hbr; [inv_verif; subst; apply Hb; eapply Hand; [done| |done]|].
  { eapply rejects_CheckBranchTarget; [done|]. apply Z.eqb_eq in Hbr. subst a.
    unfold GetVerifyExtraFlags, verify_bits in E. rewrite Hc in E. simpl in E. injection E as E.
    eapply bits_flagged; [exact E|done|done]. }
  case_match; [inv_verif; subst; eauto using rejects_CheckSwitchTargets|].
  case_match; [|case_match].
  - inv_verif. case_match; inv_verif; subst; [right; by eapply Fail_hard|].
    apply Hb. eapply Hand; [done| |done]. intros w w' Hw. unfold CheckVarArgRegs in Hw.
    case_match; [by eapply reject_hard|by eapply rejects_check_args].
  - inv_verif. case_match; inv_verif; subst; [right; by eapply Fail_hard|].
    apply Hb. eapply Hand; [done| |done]. intros w w' Hw. inv_verif.
    unfold CheckVarArgRangeRegs in Hw. by eapply rejects_if.
  - case_match; inv_verif; subst; [right; by eapply Fail_hard|]. destruct result; auto.
Qed.

Lemma rejects_VerifyInstruction pc :
  rejects_hard (VerifyInstruction env ci (At (insns_ ci) pc) pc).
Proof.
  intros v v' H. unfold VerifyInstruction in H. inv_verif.
  assert (exists c, Opcode (At (insns_ ci) pc) = Ok c) as [c Hc].
  { unfold verify_argument_A, GetVerifyTypeArgumentA, verify_bits in E. inv_verif.
    inv_res. eauto. }
  assert (a = false -> hard v0) as HA
    by (intros ->; eapply rejects_arguments in E; [done|done]).
  assert (a0 = false -> hard v1) as HB
    by (intros ->; eapply rejects_arguments in E0; [done|done]).
  assert (a1 = false -> hard v2) as HC
    by (intros ->; eapply rejects_arguments in E1; [done|done]).
  eapply rejects_extra in E2 as HE; [|done|done|done|done].
  destruct a2 as [|b]; inv_verif; [by destruct HE|].
  case_match; inv_verif; [by eapply Fail_hard|]. subst b. by destruct HE.
Qed.

Lemma rejects_VerifyInstructions : rejects_hard (VerifyInstructions env ci).
Proof.
  assert (forall fuel pc, rejects_hard
    (VerifyInstructions_loop env ci fuel (At (insns_ ci) pc) pc)) as Hloop.
  { intros fuel. induction fuel as [|fuel IH]; intros pc v v' H; simpl in H; [done|].
    case_match; inv_verif. destruct a; simpl in H; inv_verif.
    - by eapply IH.
    - by eapply rejects_VerifyInstruction. }
  intros v v' H. unfold VerifyInstructions in H. inv_verif. by eapply Hloop.
Qed.

(** The assertion of [VerifyInstructions] that a rejected instruction has
    left a failure behind. *)
Lemma failures_recorded pc v v' :
  VerifyInstruction env ci (At (insns_ ci) pc) pc v = Ok (false, v') ->
  check (negb (length (failures_ v') =? 0)%nat) = Ok tt.
Proof.
  intros [_ H]%rejects_VerifyInstruction. by destruct (failures_ v').
Qed.
End Rejections.

(** ** Claims *)

(** C23: the first pass marks exactly the addresses at which instructions start,
    walking from address 0, and accepts only code that the walk divides into
    whole instructions. *)
Theorem ComputeWidths_marks_instruction_starts (env : VerifierEnv) (ci : CodeItem) v v' :
  code_item_wf ci ->
  ComputeWidthsAndCountOps env ci (fresh_flags ci v) = Ok (true, v') ->
  (forall idx f, zget (insn_flags_ v') idx = Ok f ->
     InstructionFlags.IsOpcode f = true <-> instruction_start (insns_ ci) idx) /\
  (forall idx, instruction_start (insns_ ci) idx ->
     exists n, SizeInCodeUnits (At (insns_ ci) idx) = Ok n /\
       0 < n /\ idx + n <= zlength (insns_ ci)).
Proof.
  intros Hwf H. destruct (ComputeWidths_sound env ci Hwf _ v' H) as (_ & Hm & Ht);
    [intros idx; apply not_marked_replicate|]. split.
  - intros idx f Hf. rewrite <- Hm, marked_flag. split; [eauto|].
    intros (g & Hg & Ho). congruence.
  - intros idx Hidx. destruct (Ht idx Hidx) as (n & Hn & ?). exists n. split_and!; [done| |done].
    by eapply (SizeInCodeUnits_pos (At (insns_ ci) idx)); [apply Hwf|].
Qed.

Lemma ComputeWidths_marks_instruction_starts_witness :
  exists v', (forall idx f, zget (insn_flags_ v') idx = Ok f ->
     InstructionFlags.IsOpcode f = true <-> instruction_start (insns_ sample_item) idx) /\
  (forall idx, instruction_start (insns_ sample_item) idx ->
     exists n, SizeInCodeUnits (At (insns_ sample_item) idx) = Ok n /\
       0 < n /\ idx + n <= zlength (insns_ sample_item)).
Proof.
  eexists.
  eapply (ComputeWidths_marks_instruction_starts (sample_env sample_item) sample_item
    initial_verifier); [exact sample_wf|vm_compute; reflexivity].
Defined.



(** C24: the verifier's loops end on every code item, also a malformed one: with
    a data-flow pass and a callback that end, so does [Verify]. *)
Theorem Verify_terminates (env : VerifierEnv) (flow verified : verif bool) v :
  (forall ci, code_item_ env = Some ci -> code_ok (insns_ ci)) ->
  (forall v, flow v <> Fault OutOfFuel) -> (forall v, verified v <> Fault OutOfFuel) ->
  Verify env flow verified v <> Fault OutOfFuel.
Proof.
  intros Hcode Hflow Hver. change (bounded (Verify env flow verified v)).
  unfold Verify. destruct (code_item_ env) as [ci|]; [|terminates_tac].
  specialize (Hcode ci eq_refl).
  pose proof (ComputeWidths_terminates env ci Hcode : forall v, bounded _).
  pose proof (ScanTryCatchBlocks_terminates env ci Hcode : forall v, bounded _).
  pose proof (VerifyInstructions_terminates env ci Hcode : forall v, bounded _).
  assert (forall v, bounded (flow v)) by done. assert (forall v, bounded (verified v)) by done.
  terminates_tac.
Qed.

Lemma Verify_terminates_witness :
  Verify (sample_env sample_item) (mret false) (mret true) initial_verifier <> Fault OutOfFuel.
Proof.
  apply Verify_terminates; [|done|done]. intros ci [= <-]. apply sample_wf.
Defined.

(** C25: when [Verify] rejects a method before the data-flow pass, a hard failure
    is pending and recorded. *)
Theorem Verify_rejection_recorded (env : VerifierEnv) (flow verified : verif bool) v v' :
  (forall w w', flow w = Ok (false, w') -> hard w') ->
  (forall w w', verified w = Ok (false, w') -> hard w') ->
  Verify env flow verified v = Ok (false, v') ->
  have_pending_hard_failure_ v' = true /\ failures_ v' <> [].
Proof.
  intros Hflow Hver H. change (hard v'). unfold Verify in H.
  destruct (code_item_ env) as [ci|]; [|by eapply rejects_if].
  case_match; inv_verif; [by eapply reject_hard|].
  assert (a0 = false -> hard v1) as H1 by (intros ->; by eapply rejects_ComputeWidths).
  assert (a1 = false -> hard v2) as H2
    by (intros ->; eapply rejects_and_then; [exact H1|apply rejects_ScanTryCatchBlocks|done]).
  assert (a2 = false -> hard v3) as H3
    by (intros ->; eapply rejects_and_then; [exact H2|apply rejects_VerifyInstructions|done]).
  assert (a3 = false -> hard v4) as H4 by (intros ->; eapply rejects_and_then; [exact H3|exact Hflow|done]).
  case_match eqn:Hr; [by eapply Hver|]. inv_verif. auto.
Qed.

(** A register operand outside the frame. *)
Definition bad_register_item : CodeItem := MkCodeItem 2 1 0 0 2 [0x3512; 0x000e] [] [].

Lemma Verify_rejection_recorded_witness :
  exists v', Verify (sample_env bad_register_item) (mret true) (mret true) initial_verifier
    = Ok (false, v') /\ have_pending_hard_failure_ v' = true /\ failures_ v' <> [].
Proof.
  eexists. split; [vm_compute; reflexivity|].
  eapply (Verify_rejection_recorded (sample_env bad_register_item) (mret true) (mret true)
    initial_verifier); [| |vm_compute; reflexivity]; intros w w' H; discriminate H.
Defined.

(** A payload of 2^31 elements of two bytes in four code units. *)
Definition overflow_item : CodeItem :=
  MkCodeItem 1 0 0 0 8 [0x0026; 4; 0; 0x000e; 0x0300; 2; 0; 0x8000] [] [].

(** The product of width and count in [CheckArrayData] is taken modulo 2^32,
    so code passes whose fill-array-data payload ends far behind the code. *)
Theorem CheckArrayData_size_overflow :
  code_item_wf overflow_item /\
  (exists v', Verify (sample_env overflow_item) (mret true) (mret true) initial_verifier
     = Ok (true, v')) /\
  exists width count,
    Fetch16 (At (insns_ overflow_item) 4) 1 = Ok width /\
    Fetch32 (At (insns_ overflow_item) 4) 2 = Ok count /\
    zlength (insns_ overflow_item) < 4 + 4 + (width * count + 1) / 2.
Proof.
  split; [|split].
  - split; [done|done| |simpl; lia].
    repeat (apply Forall_cons; split; [unfold fitsU; lia|]). apply Forall_nil_2.
  - eexists. vm_compute. reflexivity.
  - exists 2, 0x80000000. vm_compute. done.
Qed.

(** A table that starts three code units before the end of the code, a method
    without code units, and a call with six arguments. *)
Definition short_table_item : CodeItem :=
  MkCodeItem 1 0 0 0 7 [0x0026; 4; 0; 0x000e; 0; 0; 0] [] [].
Definition empty_item : CodeItem := MkCodeItem 1 0 0 0 0 [] [] [].
Definition six_arguments_item : CodeItem :=
  MkCodeItem 1 0 0 0 4 [0x6071; 0; 0; 0x000e] [] [].

