(* ===== verification/DexToDex.v ===== *)
(** * The dex-to-dex compiler

    Models [DexCompiler] (compiler/dex/dex_to_dex_compiler.cc), which rewrites the code of
    a verified method in place: a return from a constructor that needs a barrier, casts
    that always succeed, accesses to fields and virtual calls whose offset or table index
    is known.  What it asks the [CompilerDriver] for are operations of a class.

    The theorem shows that the rewritten code still has everything the static passes of
    the verifier established of the original, provided payloads are instructions of
    their own; a counterexample shows that this proviso, which the verifier does not
    check, is needed. *)

From S2P Require Import Prelude Modifiers DexOpcodes DexInstruction DexCode StaticVerifier StaticVerifierFacts StaticVerifierTheorems.

(** [DexToDexCompilationLevel] (compiler/driver/compiler_driver.h) *)
Inductive DexToDexCompilationLevel : Type := kDontDexToDexCompile | kRequired | kOptimize.
Definition level_value (l : DexToDexCompilationLevel) : Z :=
  match l with kDontDexToDexCompile => 0 | kRequired => 1 | kOptimize => 2 end.

(** What the compiler asks the driver for, for the method at hand:
    [ComputeInstanceFieldInfo] gives the fast path, the offset and whether the field is
    volatile, [ComputeInvokeInfo] the fast path, the invoke type and the table index. *)
Class CompilerDriver : Type := {
  RequiresConstructorBarrier : bool;
  IsSafeCast : Z -> bool;
  ComputeInstanceFieldInfo : Z -> bool -> bool * Z * bool;
  ComputeInvokeInfo : Z -> Z -> bool * InvokeType * Z;
}.

(** [IsUint] (runtime/utils.h) *)
Definition IsUint (N value : Z) : bool := (0 <=? value) && (value <? Z.shiftl 1 N).

Definition with_insns (insns : list Z) (ci : CodeItem) : CodeItem :=
  MkCodeItem (registers_size_ ci) (ins_size_ ci) (outs_size_ ci) (tries_size_ ci)
    (insns_size_in_code_units_ ci) insns (try_items_ ci) (handlers_ ci).

Section DexCompiler.
Context `{CompilerDriver}.
(** [dex_to_dex_compilation_level_], and the access flags of [unit_]. *)
Context (level : DexToDexCompilationLevel) (access_flags : Z).

Definition kEnableQuickening : bool := true.
Definition kEnableCheckCastEllision : bool := true.
Definition PerformOptimizations : bool := level_value kOptimize <=? level_value level.
Definition IsConstructor : bool := has_access access_flags kAccConstructor.
Definition IsStatic : bool := has_access access_flags kAccStatic.

(** The result is the instruction in the rewritten code. *)
Definition CompileReturnVoid (inst : Instruction) (dex_pc : Z) : res Instruction :=
  opcode ← Opcode inst; check (bool_decide (opcode = RETURN_VOID));;
  if negb IsConstructor || IsStatic then Ok inst
  else if negb RequiresConstructorBarrier then Ok inst
  else SetOpcode inst RETURN_VOID_BARRIER.

Definition CompileCheckCast (inst : Instruction) (dex_pc : Z) : res Instruction :=
  if negb kEnableCheckCastEllision || negb PerformOptimizations then Ok inst
  else if negb (IsSafeCast dex_pc) then Ok inst
  else
    inst ← SetOpcode inst NOP;
    inst ← SetVRegA_10x inst 0;
    inst ← Next inst;
    inst ← SetOpcode inst NOP;
    SetVRegA_10x inst 0.

Definition CompileInstanceFieldAccess (inst : Instruction) (dex_pc : Z) (new_opcode : Code)
    (is_put : bool) : res Instruction :=
  if negb kEnableQuickening || negb PerformOptimizations then Ok inst
  else
    field_idx ← VRegC_22c inst;
    let '(fast_path, field_offset, is_volatile) := ComputeInstanceFieldInfo (uint32 field_idx) is_put in
    if fast_path && negb is_volatile && IsUint 16 field_offset then
      inst ← SetOpcode inst new_opcode;
      SetVRegC_22c inst (uint16 field_offset)
    else Ok inst.

Definition CompileInvokeVirtual (inst : Instruction) (dex_pc : Z) (new_opcode : Code)
    (is_range : bool) : res Instruction :=
  if negb kEnableQuickening || negb PerformOptimizations then Ok inst
  else
    method_idx ← (if is_range then VRegB_3rc inst else VRegB_35c inst);
    let '(fast_path, invoke_type, vtable_idx) := ComputeInvokeInfo dex_pc (uint32 method_idx) in
    if fast_path && bool_decide (kVirtual = invoke_type) then
      if (0 <=? vtable_idx) && IsUint 16 vtable_idx then
        inst ← SetOpcode inst new_opcode;
        if is_range then SetVRegB_3rc inst (uint16 vtable_idx)
        else SetVRegB_35c inst (uint16 vtable_idx)
      else Ok inst
    else Ok inst.

(** The [switch] of [Compile]. *)
Definition CompileInstruction (inst : Instruction) (dex_pc : Z) : res Instruction :=
  opcode ← Opcode inst;
  match opcode with
  | RETURN_VOID => CompileReturnVoid inst dex_pc
  | CHECK_CAST => CompileCheckCast inst dex_pc
  | IGET => CompileInstanceFieldAccess inst dex_pc IGET_QUICK false
  | IGET_WIDE => CompileInstanceFieldAccess inst dex_pc IGET_WIDE_QUICK false
  | IGET_OBJECT => CompileInstanceFieldAccess inst dex_pc IGET_OBJECT_QUICK false
  | IPUT => CompileInstanceFieldAccess inst dex_pc IPUT_QUICK true
  | IPUT_BOOLEAN => CompileInstanceFieldAccess inst dex_pc IPUT_BOOLEAN_QUICK true
  | IPUT_BYTE => CompileInstanceFieldAccess inst dex_pc IPUT_BYTE_QUICK true
  | IPUT_CHAR => CompileInstanceFieldAccess inst dex_pc IPUT_CHAR_QUICK true
  | IPUT_SHORT => CompileInstanceFieldAccess inst dex_pc IPUT_SHORT_QUICK true
  | IPUT_WIDE => CompileInstanceFieldAccess inst dex_pc IPUT_WIDE_QUICK true
  | IPUT_OBJECT => CompileInstanceFieldAccess inst dex_pc IPUT_OBJECT_QUICK true
  | INVOKE_VIRTUAL => CompileInvokeVirtual inst dex_pc INVOKE_VIRTUAL_QUICK false
  | INVOKE_VIRTUAL_RANGE => CompileInvokeVirtual inst dex_pc INVOKE_VIRTUAL_RANGE_QUICK true
  | _ => Ok inst
  end.

Fixpoint Compile_loop (fuel : nat) (inst : Instruction) (dex_pc insns_size : Z) : res (list Z) :=
  match fuel with
  | O => Fault OutOfFuel
  | S fuel =>
      if dex_pc <? insns_size then
        inst ← CompileInstruction inst dex_pc;
        inst ← Next inst;
        Compile_loop fuel inst (GetDexPc inst) insns_size
      else Ok (insns inst)
  end.

(** Every instruction is at least one unit long. *)
Definition Compile (code_item : CodeItem) : res CodeItem :=
  check (level_value kRequired <=? level_value level);;
  let insns_size := insns_size_in_code_units_ code_item in
  insns ← Compile_loop (S (Z.to_nat insns_size)) (At (insns_ code_item) 0) 0 insns_size;
  Ok (with_insns insns code_item).

Definition ArtCompileDEX (code_item : CodeItem) : res CodeItem :=
  match level with
  | kDontDexToDexCompile => Ok code_item
  | _ => Compile code_item
  end.
End DexCompiler.

(** ** Facts about decoding *)

(** Decides a closed proposition by evaluation. *)
Ltac evaluated := apply (bool_decide_eq_true_1 _); vm_compute; reflexivity.

(** [i'] has the first [n] code units of [i]. *)
Definition agree (n : Z) (i i' : Instruction) : Prop :=
  forall off, 0 <= off < n -> Fetch16 i' off = Fetch16 i off.

Create HintDb accessors.
#[local] Hint Unfold VRegA_10t VRegA_10x VRegA_11n VRegA_11x VRegA_12x VRegA_20t VRegA_21c
   VRegA_21h VRegA_21s VRegA_21t VRegA_22b VRegA_22c VRegA_22s VRegA_22t VRegA_22x
   VRegA_23x VRegA_30t VRegA_31c VRegA_31i VRegA_31t VRegA_32x VRegA_35c VRegA_3rc
   VRegA_51l VRegB_11n VRegB_12x VRegB_21c VRegB_21h VRegB_21s VRegB_21t VRegB_22b
   VRegB_22c VRegB_22s VRegB_22t VRegB_22x VRegB_23x VRegB_31c VRegB_31i VRegB_31t
   VRegB_32x VRegB_35c VRegB_3rc VRegB_51l VRegC_22b VRegC_22c VRegC_22s VRegC_22t
   VRegC_23x VRegC_35c VRegC_3rc InstA InstB InstAA dcheck_data Fetch32 dcheck_format : accessors.

Lemma format_positive c : 0 < format_size (FormatOf c).
Proof. by destruct (FormatOf c). Qed.

Section Agree.
Context (i i' : Instruction) (c : Code).
Hypothesis (Ho : Opcode i = Ok c) (Ha : agree (format_size (FormatOf c)) i i').

Lemma Opcode_agree : Opcode i' = Ok c.
Proof. rewrite <- Ho, !Opcode_fetch, Ha; [done|]. pose proof (format_positive c). lia. Qed.

Ltac same_units :=
  pose proof Opcode_agree as Ho'; pose proof Ha as Hu; rewrite Ho, Ho'; cbn [mbind res_bind];
  destruct (FormatOf c) eqn:HF; try done; unfold fetched; autounfold with accessors;
  rewrite ?Ho, ?Ho'; cbn [mbind res_bind format_size] in Hu |- *;
  rewrite ?(Hu 0), ?(Hu 1), ?(Hu (1 + 1)), ?(Hu 2), ?(Hu (2 + 1)), ?(Hu 3), ?(Hu (3 + 1)) by lia; try done.

Lemma VRegA_agree : VRegA i' = VRegA i.
Proof. unfold VRegA. same_units. Qed.
Lemma VRegB_agree : VRegB i' = VRegB i.
Proof. unfold VRegB. same_units. Qed.
Lemma VRegC_agree : VRegC i' = VRegC i.
Proof. unfold VRegC. same_units. Qed.
Lemma GetVarArgs_agree d : GetVarArgs i' d = GetVarArgs i d.
Proof.
  unfold GetVarArgs, dcheck_format. rewrite Ho, Opcode_agree. cbn [mbind res_bind].
  destruct (decide (FormatOf c = k35c)) as [HF|HF].
  - rewrite !bool_decide_true by done. rewrite HF in Ha. autounfold with accessors.
    rewrite (Ha 0), (Ha 2) by (cbn; lia). done.
  - by rewrite !bool_decide_false.
Qed.
End Agree.

(** *** Rewritten instructions *)

Definition quick_of (c : Code) : option Code :=
  match c with
  | RETURN_VOID => Some RETURN_VOID_BARRIER
  | IGET => Some IGET_QUICK | IGET_WIDE => Some IGET_WIDE_QUICK
  | IGET_OBJECT => Some IGET_OBJECT_QUICK
  | IPUT => Some IPUT_QUICK | IPUT_BOOLEAN => Some IPUT_BOOLEAN_QUICK
  | IPUT_BYTE => Some IPUT_BYTE_QUICK | IPUT_CHAR => Some IPUT_CHAR_QUICK
  | IPUT_SHORT => Some IPUT_SHORT_QUICK | IPUT_WIDE => Some IPUT_WIDE_QUICK
  | IPUT_OBJECT => Some IPUT_OBJECT_QUICK
  | INVOKE_VIRTUAL => Some INVOKE_VIRTUAL_QUICK
  | INVOKE_VIRTUAL_RANGE => Some INVOKE_VIRTUAL_RANGE_QUICK
  | _ => None
  end.

(** The rewritten instruction has the format of the original, and asks for no check of
    registers the original does not ask for. *)
Definition register_flags : list Z :=
  [kVerifyRegA; kVerifyRegAWide; kVerifyRegB; kVerifyVarArgNonZero; kVerifyVarArgRangeNonZero].
Definition reference_flags : list Z :=
  [kVerifyRegBWide; kVerifyRegC; kVerifyRegCWide; kVerifyVarArg; kVerifyVarArgRange;
   kVerifyRegBField; kVerifyRegBMethod; kVerifyRegBString; kVerifyRegBType;
   kVerifyRegBNewInstance; kVerifyRegCField; kVerifyRegCType; kVerifyRegCNewArray;
   kVerifyBranchTarget; kVerifySwitchTargets; kVerifyArrayData; kVerifyError].

Definition quick_flags_ok (c : Code) : bool :=
  match quick_of c with
  | None => true
  | Some c' =>
      forallb (fun f => implb (has_flag (kInstructionVerifyFlags c') f)
                         (has_flag (kInstructionVerifyFlags c) f)) register_flags &&
      forallb (fun f => negb (has_flag (kInstructionVerifyFlags c') f)) reference_flags
  end.
Lemma quick_flags c : quick_flags_ok c = true.
Proof. by destruct c. Qed.

Lemma quick_format c c' : quick_of c = Some c' ->
  FormatOf c' = FormatOf c /\ c <> NOP /\ c' <> NOP /\ c <> CHECK_CAST /\
  (FormatOf c = k10x \/ FormatOf c = k22c \/ FormatOf c = k35c \/ FormatOf c = k3rc).
Proof. by destruct c; intros [= <-]; split_and!; auto. Qed.

Lemma quick_register_flags c c' f :
  quick_of c = Some c' -> f ∈ register_flags -> flagged c' f -> flagged c f.
Proof.
  intros Hq Hf. pose proof (quick_flags c) as H. unfold quick_flags_ok in H. rewrite Hq in H.
  apply andb_true_iff in H as [H _]. rewrite forallb_forall in H.
  specialize (H f (proj1 (list_elem_of_In _ _) Hf)). unfold flagged.
  by destruct (has_flag (kInstructionVerifyFlags c') f), (has_flag (kInstructionVerifyFlags c) f).
Qed.
Lemma quick_reference_flags c c' f :
  quick_of c = Some c' -> f ∈ reference_flags -> ~ flagged c' f.
Proof.
  intros Hq Hf. pose proof (quick_flags c) as H. unfold quick_flags_ok in H. rewrite Hq in H.
  apply andb_true_iff in H as [_ H]. rewrite forallb_forall in H.
  specialize (H f (proj1 (list_elem_of_In _ _) Hf)). unfold flagged.
  by destruct (has_flag (kInstructionVerifyFlags c') f).
Qed.

Definition quick_formats_ok (c : Code) : bool :=
  match quick_of c with
  | None => true
  | Some c' =>
      implb (has_flag (kInstructionVerifyFlags c') kVerifyRegB) (bool_decide (FormatOf c = k22c)) &&
      implb (has_flag (kInstructionVerifyFlags c') kVerifyVarArgNonZero) (bool_decide (FormatOf c = k35c)) &&
      implb (has_flag (kInstructionVerifyFlags c') kVerifyVarArgRangeNonZero) (bool_decide (FormatOf c = k3rc))
  end.
Lemma quick_operands c c' : quick_of c = Some c' ->
  (flagged c' kVerifyRegB -> FormatOf c = k22c) /\
  (flagged c' kVerifyVarArgNonZero -> FormatOf c = k35c) /\
  (flagged c' kVerifyVarArgRangeNonZero -> FormatOf c = k3rc).
Proof.
  intros Hq. assert (quick_formats_ok c = true) as H by (by destruct c).
  unfold quick_formats_ok in H. rewrite Hq in H. unfold flagged.
  apply andb_true_iff in H as [[H1 H2]%andb_true_iff H3].
  split_and!; intros Hf; [rewrite Hf in H1|rewrite Hf in H2|rewrite Hf in H3];
    by eapply bool_decide_eq_true_1.
Qed.

(** A code unit whose opcode is replaced. *)
Lemma replaced_opcode w c : 0 <= w < 65536 ->
  let w' := uint16 (Z.lor (Z.land w 0xff00) (code_index c)) in
  0 <= w' < 65536 /\ w' / 256 = w / 256 /\ Code_of_byte (w' mod 256) = c.
Proof.
  intros Hw w'. assert (0 <= code_index c < 256) as Hc by (by destruct c).
  assert (w' = code_index c + w / 256 * 256) as ->.
  { unfold w'. rewrite Z.lor_comm. replace (Z.land w 0xff00) with (Z.shiftl (w / 256) 8).
    { rewrite lor_low_high by lia. int_lia. }
    change 0xff00 with (Z.shiftl (Z.ones 8) 8). change 256 with (2 ^ 8).
    rewrite <- Z.shiftr_div_pow2 by lia. apply Z.bits_inj'. intros n Hn.
    rewrite Z.land_spec, !Z.shiftl_spec by lia. destruct (Z.lt_ge_cases n 8).
    { rewrite !(Z.testbit_neg_r _ (n - 8)) by lia. by rewrite andb_false_r. }
    rewrite Z.shiftr_spec by lia. replace (n - 8 + 8) with n by lia.
    destruct (Z.lt_ge_cases n 16).
    - rewrite Z.ones_spec_low by lia. by rewrite andb_true_r.
    - rewrite Z.ones_spec_high by lia. rewrite andb_false_r, <- (Z.mod_small w (2 ^ 16)) by lia.
      apply Z.mod_pow2_bits_high. lia. }
  split_and!; [int_lia..| |].
  - rewrite Z.div_add, Z.div_small by lia. lia.
  - rewrite Z.mod_add, Z.mod_small by lia. by destruct c.
Qed.

(** The operands of an instruction whose opcode and index are replaced. *)
Section Quick.
Context (i i' : Instruction) (c c' : Code) (w w' : Z).
Hypothesis (Hq : quick_of c = Some c').
Hypothesis (Hw : Fetch16 i 0 = Ok w) (Hw' : Fetch16 i' 0 = Ok w').
Hypothesis (Hc : Code_of_byte (w mod 256) = c) (Hc' : Code_of_byte (w' mod 256) = c').
Hypothesis (Hhigh : w' / 256 = w / 256).
Hypothesis (Hrest : forall off, 2 <= off < format_size (FormatOf c) -> Fetch16 i' off = Fetch16 i off).

Lemma quick_opcode : Opcode i = Ok c /\ Opcode i' = Ok c'.
Proof. rewrite !Opcode_fetch, Hw, Hw'. cbn. by rewrite Hc, Hc'. Qed.

Lemma shifted k : 8 <= k -> Z.shiftr w' k = Z.shiftr w k.
Proof.
  intros Hk. replace k with (8 + (k - 8)) by lia. rewrite <- !Z.shiftr_shiftr by lia.
  rewrite !(Z.shiftr_div_pow2 _ 8) by lia. change (2 ^ 8) with 256. by rewrite Hhigh.
Qed.

Ltac quick_units :=
  destruct quick_opcode as [Ho Ho']; destruct (quick_format _ _ Hq) as (HF & _);
  unfold VRegA, VRegB, VRegC; rewrite ?Ho, ?Ho'; cbn [mbind res_bind]; rewrite ?HF;
  pose proof Hrest as Hr;
  match goal with H : FormatOf c = _ |- _ => rewrite ?H; rewrite H in Hr, HF; cbn [format_size] in Hr end;
  unfold fetched; autounfold with accessors; rewrite ?Ho, ?Ho', ?Hw, ?Hw';
  cbn [mbind res_bind]; rewrite ?Z.eqb_refl, ?HF; rewrite ?(Hr 2) by lia;
  repeat match goal with H : FormatOf c = _ |- _ => rewrite H; clear H end;
  rewrite ?bool_decide_true by done; cbn [check mbind res_bind]; rewrite ?shifted by lia; try done.

Lemma quick_A : VRegA i' = VRegA i.
Proof. destruct (quick_format _ _ Hq) as (_ & _ & _ & _ & [?|[?|[?|?]]]); quick_units. Qed.
Lemma quick_B : FormatOf c = k22c -> VRegB i' = VRegB i.
Proof. intros H. quick_units. Qed.
Lemma quick_C : FormatOf c = k3rc -> VRegC i' = VRegC i.
Proof. intros H. quick_units. Qed.
Lemma quick_args : FormatOf c = k35c -> GetVarArgs i' w' = GetVarArgs i w.
Proof. intros H. unfold GetVarArgs. quick_units. Qed.
End Quick.

(** ** What the compiler does to an instruction *)

(** The [n] code units of the instruction at [pc] are kept, get a new opcode and index, or
    are a cast that becomes two NOPs. *)
Definition kept (code code' : list Z) (pc n : Z) : Prop :=
  forall k, pc <= k < pc + n -> zget code' k = zget code k.
Definition quickened (code code' : list Z) (pc n : Z) : Prop :=
  exists w c c', Fetch16 (At code pc) 0 = Ok w /\ c = Code_of_byte (w mod 256) /\
    quick_of c = Some c' /\ n = format_size (FormatOf c) /\
    Fetch16 (At code' pc) 0 = Ok (uint16 (Z.lor (Z.land w 0xff00) (code_index c'))) /\
    forall off, 2 <= off < n -> Fetch16 (At code' pc) off = Fetch16 (At code pc) off.
Definition elided (code code' : list Z) (pc n : Z) : Prop :=
  Opcode (At code pc) = Ok CHECK_CAST /\ n = 2 /\ zget code' pc = Ok 0 /\ zget code' (pc + 1) = Ok 0.
Definition rewritten (code code' : list Z) (pc n : Z) : Prop :=
  kept code code' pc n \/ quickened code code' pc n \/ elided code code' pc n.

(** One code unit is replaced. *)
Record patched (code code' : list Z) (k w : Z) : Prop := {
  pt_length : length code' = length code;
  pt_ok : code_ok code -> code_ok code';
  pt_at : zget code' k = Ok w;
  pt_other j : j <> k -> zget code' j = zget code j;
}.

Lemma store16_patched code pc off w :
  0 <= pc + off < zlength code -> 0 <= w < 65536 ->
  exists code', store16 (At code pc) off w = Ok (At code' pc) /\ patched code code' (pc + off) w.
Proof.
  intros Hk Hw. unfold store16. cbn [insns pos]. pose proof (zset_in_bounds code (pc + off) w Hk) as Hs.
  rewrite Hs. eexists. split; [reflexivity|]. split.
  - apply length_insert.
  - intros Hok. by apply Forall_insert.
  - by eapply zget_zset_eq.
  - intros j Hj. by eapply zget_zset_ne.
Qed.

Lemma SetOpcode_patched code pc w c :
  code_ok code -> Fetch16 (At code pc) 0 = Ok w ->
  exists code', SetOpcode (At code pc) c = Ok (At code' pc) /\
    patched code code' pc (uint16 (Z.lor (Z.land w 0xff00) (code_index c))).
Proof.
  intros Hok Hw. pose proof (Fetch16_range (At code pc) _ _ Hok Hw) as Hr.
  apply Fetch16_bounds in Hw as Hb. cbn in Hb. unfold SetOpcode. rewrite Hw. cbn [mbind res_bind].
  destruct (replaced_opcode w c Hr) as (Hr' & _).
  destruct (store16_patched code pc 0 _ Hb Hr') as (code' & Hs & Hp).
  rewrite Z.add_0_r in Hp. eauto.
Qed.

(** The two stores that make a code unit a NOP. *)
Lemma make_nop code pc : code_ok code -> 0 <= pc < zlength code ->
  exists code', (inst ← SetOpcode (At code pc) NOP; SetVRegA_10x inst 0) = Ok (At code' pc) /\
    patched code code' pc 0 /\ Next (At code' pc) = Ok (At code' (pc + 1)).
Proof.
  intros Hok Hpc. destruct (Fetch16_in_bounds (At code pc) 0) as [w Hw]; [cbn; lia|].
  pose proof (Fetch16_range (At code pc) _ _ Hok Hw) as Hr.
  destruct (SetOpcode_patched code pc w NOP Hok Hw) as (code1 & -> & [Hl Hok1 Hat Hother]).
  cbn [mbind res_bind]. destruct (replaced_opcode w NOP Hr) as (Hr' & _ & Hc).
  set (w' := uint16 _) in *. assert (Fetch16 (At code1 pc) 0 = Ok w') as Hw'.
  { unfold Fetch16. cbn. by rewrite Z.add_0_r. }
  assert (w' mod 256 = 0) as Hlow.
  { rewrite <- (code_index_of_byte (w' mod 256)), Hc by (apply Z.mod_pos_bound; lia). done. }
  unfold SetVRegA_10x. rewrite (dcheck_format_ok _ NOP); [|by rewrite Opcode_fetch, Hw'; cbn; rewrite Hc|done].
  cbn [mbind res_bind]. rewrite Hw'. cbn [mbind res_bind].
  rewrite Z.shiftl_0_l, Z.lor_0_l, land_0xff, Hlow.
  destruct (store16_patched code1 pc 0 (uint16 0)) as (code2 & -> & [Hl2 Hok2 Hat2 Hother2]); [lia|done|].
  rewrite Z.add_0_r in Hat2, Hother2. exists code2. split_and!; [done|split|].
  - congruence.
  - auto.
  - done.
  - intros j Hj. rewrite Hother2, Hother by done. done.
  - unfold Next, SizeInCodeUnits, SizeInCodeUnitsComplexOpcode.
    assert (Fetch16 (At code2 pc) 0 = Ok 0) as H0 by (unfold Fetch16; cbn; by rewrite Z.add_0_r).
    rewrite Opcode_fetch, H0. done.
Qed.

Section Step.
Context `{CompilerDriver} (level : DexToDexCompilationLevel) (access_flags : Z).
Context (code : list Z) (pc n : Z) (c : Code).
Hypothesis (Hok : code_ok code) (Hpc : 0 <= pc) (Hend : pc + n <= zlength code).
Hypothesis (Hsize : SizeInCodeUnits (At code pc) = Ok n) (Hop : Opcode (At code pc) = Ok c).

(** The instruction is rewritten, the rest is as before, and the next one is found. *)
Definition steps_to (r : res Instruction) : Prop :=
  exists code' p, r = Ok (At code' p) /\ Next (At code' p) = Ok (At code' (pc + n)) /\
    length code' = length code /\ code_ok code' /\
    (forall k, ~ pc <= k < pc + n -> zget code' k = zget code k) /\
    rewritten code code' pc n.

Lemma steps_kept : steps_to (Ok (At code pc)).
Proof.
  exists code, pc. unfold Next. rewrite Hsize. split_and!; try done. by left.
Qed.

Lemma quick_size c' : quick_of c = Some c' -> n = format_size (FormatOf c).
Proof.
  intros Hq. destruct (quick_format _ _ Hq) as (_ & Hn & _).
  unfold SizeInCodeUnits in Hsize. rewrite Hop in Hsize. cbn in Hsize. rewrite size_of_format in Hsize.
  rewrite decide_False in Hsize by done. destruct (FormatOf c); by injection Hsize as <-.
Qed.

(** A new opcode, then possibly a new index. *)
Lemma steps_quick c' (setter : Instruction -> res Instruction) :
  quick_of c = Some c' ->
  (forall code1, length code1 = length code -> code_ok code1 -> Opcode (At code1 pc) = Ok c' ->
    setter (At code1 pc) = Ok (At code1 pc) \/
    (1 < n /\ exists v, 0 <= v < 65536 /\ setter (At code1 pc) = store16 (At code1 pc) 1 v)) ->
  steps_to (inst ← SetOpcode (At code pc) c'; setter inst).
Proof.
  intros Hq Hset. destruct (proj1 (Opcode_ok _ _) Hop) as (w & Hw & Hc). pose proof (quick_size c' Hq) as Hn.
  destruct (quick_format _ _ Hq) as (HF & _ & Hnop & _).
  pose proof (Fetch16_range (At code pc) _ _ Hok Hw) as Hr.
  destruct (SetOpcode_patched code pc w c' Hok Hw) as (code1 & Hs & [Hl Hok1 Hat Hother]).
  specialize (Hok1 Hok). rewrite Hs. cbn [mbind res_bind].
  destruct (replaced_opcode w c' Hr) as (_ & _ & Hc').
  assert (forall code2, Fetch16 (At code2 pc) 0 = Fetch16 (At code1 pc) 0 -> Opcode (At code2 pc) = Ok c') as Hop2.
  { intros code2 H2. rewrite Opcode_fetch, H2. unfold Fetch16. cbn. rewrite Z.add_0_r, Hat. cbn. by rewrite Hc'. }
  assert (forall code2, Fetch16 (At code2 pc) 0 = Fetch16 (At code1 pc) 0 -> Next (At code2 pc) = Ok (At code2 (pc + n))) as Hnext.
  { intros code2 H2. unfold Next, SizeInCodeUnits. rewrite (Hop2 _ H2). cbn. rewrite size_of_format, decide_False by done.
    rewrite HF, <- Hn. rewrite Hn. by destruct (FormatOf c). }
  assert (forall code2, Fetch16 (At code2 pc) 0 = Fetch16 (At code1 pc) 0 ->
    (forall off, 2 <= off -> Fetch16 (At code2 pc) off = Fetch16 (At code1 pc) off) ->
    rewritten code code2 pc n) as Hrw.
  { intros code2 H2 Ho. right; left. exists w, c, c'. split_and!; try done.
    - rewrite H2. unfold Fetch16. cbn. by rewrite Z.add_0_r.
    - intros off Hoff. rewrite Ho by lia. apply Hother. cbn. lia. }
  destruct (Hset code1 Hl Hok1 (Hop2 code1 eq_refl)) as [-> | (Hn1 & v & Hv & ->)].
  - exists code1, pc. split_and!; auto. intros k Hk. apply Hother. assert (0 < format_size (FormatOf c)) by (by destruct (FormatOf c)). lia.
  - destruct (store16_patched code1 pc 1 v) as (code2 & -> & [Hl2 Hok2 Hat2 Hother2]); [lia|done|].
    assert (Fetch16 (At code2 pc) 0 = Fetch16 (At code1 pc) 0) by (apply Hother2; cbn; lia).
    exists code2, pc. split_and!; auto.
    + by rewrite Hl2.
    + intros k Hk. rewrite Hother2 by lia. apply Hother. lia.
    + apply Hrw; [done|]. intros off Hoff. apply Hother2. cbn. lia.
Qed.

Lemma IsUint_range v : IsUint 16 v = true -> 0 <= v < 65536.
Proof. unfold IsUint. intros [??]%andb_true_iff. change (Z.shiftl 1 16) with 65536 in *. lia. Qed.

Lemma steps_field c' put : quick_of c = Some c' -> FormatOf c = k22c ->
  steps_to (CompileInstanceFieldAccess level (At code pc) pc c' put).
Proof.
  intros Hq HF. unfold CompileInstanceFieldAccess. case_match; [apply steps_kept|].
  pose proof (quick_size c' Hq) as Hn. rewrite HF in Hn. cbn in Hn.
  unfold VRegC_22c, dcheck_format. rewrite Hop. cbn [mbind res_bind]. rewrite bool_decide_true by done.
  cbn [check mbind res_bind]. destruct (Fetch16_in_bounds (At code pc) 1) as [idx ->]; [cbn; lia|].
  cbn [mbind res_bind]. destruct (ComputeInstanceFieldInfo _ _) as [[fast offset] volatile].
  destruct (fast && negb volatile && IsUint 16 offset) eqn:Hfast; [|apply steps_kept].
  apply andb_true_iff in Hfast as [_ Hu%IsUint_range].
  apply (steps_quick c' (fun inst => SetVRegC_22c inst (uint16 offset)) Hq).
  intros code1 Hl1 Hok1 Hop1. right. split; [lia|]. exists (uint16 offset). split; [int_lia|].
  unfold SetVRegC_22c. destruct (quick_format _ _ Hq) as (HF' & _).
  rewrite (dcheck_format_ok _ c') by congruence. done.
Qed.

Lemma steps_invoke c' (range : bool) : quick_of c = Some c' -> FormatOf c = (if range then k3rc else k35c) ->
  steps_to (CompileInvokeVirtual level (At code pc) pc c' range).
Proof.
  intros Hq HF. unfold CompileInvokeVirtual.
  destruct (negb kEnableQuickening || negb (PerformOptimizations level)); [apply steps_kept|].
  pose proof (quick_size c' Hq) as Hn. assert (n = 3) as Hn3 by (rewrite Hn, HF; by destruct range).
  destruct (Fetch16_in_bounds (At code pc) 1) as [idx Hidx]; [cbn; lia|].
  assert ((if range then VRegB_3rc (At code pc) else VRegB_35c (At code pc)) = Ok idx) as ->.
  { destruct range; unfold VRegB_3rc, VRegB_35c; by rewrite (dcheck_format_ok _ c). }
  cbn [mbind res_bind]. destruct (ComputeInvokeInfo _ _) as [[fast type] index].
  destruct (fast && bool_decide (kVirtual = type)); [|apply steps_kept]. destruct ((0 <=? index) && IsUint 16 index) eqn:Hu; [|apply steps_kept].
  apply andb_true_iff in Hu as [_ Hu%IsUint_range].
  apply (steps_quick c' (fun inst => if range then SetVRegB_3rc inst (uint16 index)
                                     else SetVRegB_35c inst (uint16 index)) Hq).
  intros code1 Hl1 Hok1 Hop1. right. split; [lia|]. exists (uint16 index). split; [int_lia|].
  destruct (quick_format _ _ Hq) as (HF' & _).
  destruct range; unfold SetVRegB_3rc, SetVRegB_35c; by rewrite (dcheck_format_ok _ c') by congruence.
Qed.

Lemma steps_return : c = RETURN_VOID -> steps_to (CompileReturnVoid access_flags (At code pc) pc).
Proof.
  intros Hc. unfold CompileReturnVoid. rewrite Hop. cbn [mbind res_bind].
  rewrite bool_decide_true by done. cbn [check mbind res_bind].
  case_match; [apply steps_kept|]. case_match; [apply steps_kept|].
  assert (SetOpcode (At code pc) RETURN_VOID_BARRIER =
    (inst ← SetOpcode (At code pc) RETURN_VOID_BARRIER; Ok inst)) as -> by (by destruct (SetOpcode _ _)).
  apply (steps_quick _ (fun inst => Ok inst)); [by rewrite Hc|]. auto.
Qed.

Lemma steps_cast : c = CHECK_CAST -> steps_to (CompileCheckCast level (At code pc) pc).
Proof.
  intros Hc. unfold CompileCheckCast.
  destruct (negb kEnableCheckCastEllision || negb (PerformOptimizations level)); [apply steps_kept|].
  destruct (negb (IsSafeCast pc)); [apply steps_kept|].
  assert (n = 2) as Hn. { unfold SizeInCodeUnits in Hsize. rewrite Hop, Hc in Hsize. by injection Hsize as <-. }
  destruct (make_nop code pc Hok) as (code1 & Hrun1 & [Hl1 Hok1 Hat1 Hother1] & Hnext1); [lia|].
  destruct (make_nop code1 (pc + 1) (Hok1 Hok)) as (code2 & Hrun2 & [Hl2 Hok2 Hat2 Hother2] & Hnext2); [lia|].
  apply bind_ok in Hrun1 as (i1 & E1 & Hrun1). rewrite E1. cbn [mbind res_bind]. rewrite Hrun1.
  cbn [mbind res_bind]. rewrite Hnext1. cbn [mbind res_bind]. rewrite Hrun2.
  exists code2, (pc + 1). rewrite Hnext2. split_and!.
  - done.
  - do 2 f_equal. lia.
  - congruence.
  - auto.
  - intros k Hk. rewrite Hother2, Hother1 by lia. done.
  - right; right. split_and!; [congruence|done| |done]. rewrite Hother2 by lia. done.
Qed.

End Step.

Lemma CompileInstruction_steps `{CompilerDriver} level access_flags code pc n c :
  code_ok code -> 0 <= pc -> pc + n <= zlength code ->
  SizeInCodeUnits (At code pc) = Ok n -> Opcode (At code pc) = Ok c ->
  steps_to code pc n (CompileInstruction level access_flags (At code pc) pc).
Proof.
  intros Hok Hpc Hend Hsize Hop. unfold CompileInstruction. rewrite Hop. cbn [mbind res_bind].
  destruct c; try (by apply steps_kept);
    first [ by eapply steps_return | by eapply steps_cast
          | by eapply steps_field | by eapply steps_invoke ].
Qed.

(** *** The whole method *)

Inductive compiled (code code' : list Z) : Z -> Prop :=
  | compiled_end pc : zlength code <= pc -> compiled code code' pc
  | compiled_step pc n :
      pc < zlength code -> SizeInCodeUnits (At code pc) = Ok n -> rewritten code code' pc n ->
      compiled code code' (pc + n) -> compiled code code' pc.

(** [code] is cut into whole instructions from [pc] on. *)
Definition tiled_from (code : list Z) (pc : Z) : Prop :=
  forall idx, walks_to code pc idx ->
    exists s, SizeInCodeUnits (At code idx) = Ok s /\ idx + s <= zlength code.

Lemma agree_rewritten code code0 code1 code' pc n :
  0 <= pc ->
  (forall k, pc <= k -> zget code0 k = zget code k) ->
  (forall k, k < pc + n -> zget code' k = zget code1 k) ->
  0 < n ->
  rewritten code0 code1 pc n -> rewritten code code' pc n.
Proof.
  intros Hpc H0 H1 Hn [Hk|[(w & c & c' & Hw & Hc & Hq & Hn' & Hw' & Hr)|(Ho & Hn' & Ha & Hb)]].
  - left. intros k Hk'. rewrite H1, Hk, H0 by lia. done.
  - right; left. exists w, c, c'. split_and!; try done.
    + rewrite <- Hw. symmetry. apply H0. cbn. lia.
    + rewrite <- Hw'. apply H1. cbn. lia.
    + intros off Hoff. unfold Fetch16. cbn. rewrite H1 by lia. rewrite <- H0 by lia. by apply Hr.
  - right; right. split_and!; [|done|..].
    + rewrite <- Ho, !Opcode_fetch. unfold Fetch16. cbn. by rewrite H0 by lia.
    + by rewrite H1 by lia.
    + by rewrite H1 by lia.
Qed.

Lemma units_suffix code code0 pc : (forall k, pc <= k -> zget code0 k = zget code k) ->
  Opcode (At code0 pc) = Opcode (At code pc) /\
  SizeInCodeUnits (At code0 pc) = SizeInCodeUnits (At code pc).
Proof.
  intros H0. assert (forall off, 0 <= off -> Fetch16 (At code0 pc) off = Fetch16 (At code pc) off) as Hf.
  { intros off Hoff. apply H0. cbn. lia. }
  unfold SizeInCodeUnits, SizeInCodeUnitsComplexOpcode. rewrite !Opcode_fetch.
  by rewrite (Hf 0), (Hf 1), (Hf 2), (Hf 3) by lia.
Qed.

Lemma Compile_loop_compiled `{CompilerDriver} level access_flags fuel : forall code code0 pc,
  code_ok code0 -> length code0 = length code -> zlength code < 2 ^ 31 -> 0 <= pc <= zlength code ->
  (forall k, pc <= k -> zget code0 k = zget code k) -> tiled_from code pc ->
  zlength code - pc < Z.of_nat fuel ->
  exists code', Compile_loop level access_flags fuel (At code0 pc) pc (zlength code) = Ok code' /\
    length code' = length code /\ code_ok code' /\
    (forall k, k < pc -> zget code' k = zget code0 k) /\ compiled code code' pc.
Proof.
  induction fuel as [|fuel IH]; intros code code0 pc Hok Hlen Hsmall Hpc Hsuf Htiled Hfuel; [lia|].
  cbn [Compile_loop]. destruct (Z.ltb_spec pc (zlength code)) as [Hlt|Hge].
  2: { exists code0. split_and!; try done. by apply compiled_end. }
  destruct (Htiled pc) as (n & Hsize & Hend); [apply walks_here; lia|].
  destruct (units_suffix code code0 pc Hsuf) as [Hop0 Hsize0]. rewrite Hsize in Hsize0.
  assert (exists c, Opcode (At code0 pc) = Ok c) as [c Hop].
  { unfold SizeInCodeUnits in Hsize0. apply bind_ok in Hsize0 as (c & ? & _). eauto. }
  assert (0 < n) as Hn by (by eapply (SizeInCodeUnits_pos (At code0 pc))).
  destruct (CompileInstruction_steps level access_flags code0 pc n c)
    as (code1 & p & -> & Hnext & Hl1 & Hok1 & Hout & Hrw); [done|lia|lia|done|done|].
  cbn [mbind res_bind]. rewrite Hnext. cbn [mbind res_bind].
  assert (GetDexPc (At code1 (pc + n)) = pc + n) as ->.
  { unfold GetDexPc. cbn. apply Z.mod_small. lia. }
  destruct (IH code code1 (pc + n)) as (code' & Hrun & Hl' & Hok' & Hbefore & Hcomp);
    [done|congruence|done|lia| | |lia|].
  - intros k Hk. rewrite Hout, Hsuf by lia. done.
  - intros idx Hidx. apply Htiled. eapply walks_step; [lia|done..].
  - exists code'. split_and!; [done..| |].
    + intros k Hk. rewrite Hbefore, Hout by lia. done.
    + eapply compiled_step; [done..| |done]. by eapply (agree_rewritten code code0 code1); try lia.
Qed.

(** ** What is preserved *)

Lemma kept_agree code code' pc n m :
  kept code code' pc n -> m <= n -> agree m (At code pc) (At code' pc).
Proof. intros Hk Hm off Hoff. apply Hk. cbn. lia. Qed.

Lemma size_agree code code' pc n :
  code_ok code -> SizeInCodeUnits (At code pc) = Ok n -> agree n (At code pc) (At code' pc) ->
  SizeInCodeUnits (At code' pc) = Ok n.
Proof.
  intros Hok Hs Ha. pose proof (SizeInCodeUnits_pos (At code pc) n Hok Hs) as Hn.
  rewrite <- Hs. revert Hs. unfold SizeInCodeUnits. rewrite !Opcode_fetch, (Ha 0) by lia.
  destruct (Fetch16 (At code pc) 0) as [w0|] eqn:H0; [|done]. cbn [mbind res_bind].
  destruct (_ <? 0); [|done]. unfold SizeInCodeUnitsComplexOpcode. rewrite (Ha 0), H0 by lia.
  cbn [mbind res_bind].
  assert (forall off w, Fetch16 (At code pc) off = Ok w -> 0 <= w) as Hpos.
  { intros off w Hw. by apply (Fetch16_range (At code pc)) in Hw as [? _]. }
  destruct (w0 =? kPackedSwitchSignature).
  { intros (m & Hm & Hn')%bind_ok. apply Hpos in Hm as ?. injection Hn' as <-. by rewrite (Ha 1) by lia. }
  destruct (w0 =? kSparseSwitchSignature).
  { intros (m & Hm & Hn')%bind_ok. apply Hpos in Hm as ?. injection Hn' as <-. by rewrite (Ha 1) by lia. }
  destruct (w0 =? kArrayDataSignature); [|done].
  intros (m & Hm & (w2 & Hw2 & (w3 & Hw3 & Hn')%bind_ok)%bind_ok)%bind_ok. injection Hn' as <-.
  assert (forall x, 0 <= uint32 x / 2) as Hdiv by (intros; int_lia).
  specialize (Hdiv (uint32 (m * Z.lor w2 (uint32 (Z.shiftl w3 16))) + 1)).
  by rewrite (Ha 1), (Ha 2), (Ha 3) by lia.
Qed.

Lemma quickened_size code code' pc n :
  code_ok code -> quickened code code' pc n -> SizeInCodeUnits (At code' pc) = Ok n.
Proof.
  intros Hok (w & c & c' & Hw & Hc & Hq & -> & Hw' & _).
  pose proof (Fetch16_range (At code pc) _ _ Hok Hw) as Hr.
  destruct (replaced_opcode w c' Hr) as (_ & _ & Hc'). destruct (quick_format _ _ Hq) as (HF & _ & Hnop & _).
  unfold SizeInCodeUnits. rewrite Opcode_fetch, Hw'. cbn [mbind res_bind]. rewrite Hc', size_of_format.
  rewrite decide_False, HF by done. by destruct (FormatOf c).
Qed.

Lemma zero_unit code k : zget code k = Ok 0 ->
  Opcode (At code k) = Ok NOP /\ SizeInCodeUnits (At code k) = Ok 1.
Proof.
  intros H. assert (Fetch16 (At code k) 0 = Ok 0) as H0 by (unfold Fetch16; cbn; by rewrite Z.add_0_r).
  unfold SizeInCodeUnits, SizeInCodeUnitsComplexOpcode. by rewrite Opcode_fetch, H0.
Qed.

Section Preserved.
Context (env : VerifierEnv) (ci : CodeItem) (code' : list Z).
Local Abbreviation code := (insns_ ci).
Local Abbreviation ci' := (with_insns code' ci).
Hypothesis (Hwf : code_item_wf ci) (Hso : statically_ok env ci).
Hypothesis (Hlen : length code' = length code) (Hok' : code_ok code').
Hypothesis (Hcomp : compiled code code' 0).
Local Abbreviation Hok := (wf_units ci Hwf).

Lemma compiled_at idx : instruction_start code idx ->
  exists n, SizeInCodeUnits (At code idx) = Ok n /\ 0 < n /\ idx + n <= zlength code /\
    rewritten code code' idx n /\ compiled code code' (idx + n).
Proof.
  intros Hidx. destruct (so_tiled _ _ Hso idx Hidx) as (n & Hn & Hend).
  assert (compiled code code' idx) as Hc.
  { revert Hcomp Hidx. unfold instruction_start. generalize 0. clear Hn Hend.
    intros pc Hpc Hw. induction Hw as [|pc m idx Hb Hs _ IH]; [done|]. apply IH.
    inversion Hpc; subst; [lia|congruence]. }
  pose proof (walks_bounds _ _ _ Hidx).
  inversion Hc as [|? m ? Hm Hrw Hrest]; subst; [lia|]. assert (m = n) as -> by congruence.
  exists n. split_and!; try done. by eapply (SizeInCodeUnits_pos (At code idx)); [apply Hok|].
Qed.

Lemma start_next idx n : instruction_start code idx -> SizeInCodeUnits (At code idx) = Ok n ->
  0 <= idx + n < zlength code -> instruction_start code (idx + n).
Proof. intros. by eapply walks_snoc. Qed.

(** The second half of a cast that was removed. *)
Definition second_nop (idx : Z) : Prop :=
  exists p, instruction_start code p /\ elided code code' p 2 /\ idx = p + 1.

Lemma compiled_step_size idx n n' :
  instruction_start code idx -> SizeInCodeUnits (At code idx) = Ok n ->
  SizeInCodeUnits (At code' idx) = Ok n' -> n' = n \/ (elided code code' idx 2 /\ n = 2 /\ n' = 1).
Proof.
  intros Hidx Hn Hn'. destruct (compiled_at idx Hidx) as (m & Hm & _ & Hend & Hrw & _).
  assert (m = n) as -> by congruence.
  destruct Hrw as [Hk|[Hq|He]].
  - left. pose proof (size_agree code code' idx n Hok Hn (kept_agree _ _ _ n n Hk (Z.le_refl n))). congruence.
  - left. pose proof (quickened_size code code' idx n Hok Hq). congruence.
  - right. pose proof He as (_ & Hn2 & Hz & _). destruct (zero_unit _ _ Hz) as [_ ?]. subst n.
    split_and!; [done..|congruence].
Qed.

Lemma starts_preserved idx : instruction_start code idx -> instruction_start code' idx.
Proof.
  intros H. assert (forall pc, instruction_start code pc -> walks_to code pc idx -> walks_to code' pc idx) as Hgen.
  2: { apply Hgen; [|done]. apply walks_here. pose proof (so_nonempty _ _ Hso). lia. }
  clear H. intros pc Hpc Hw. induction Hw as [pc Hb|pc n idx Hb Hn Hw IH].
  { apply walks_here. lia. }
  destruct (compiled_at pc Hpc) as (m & Hm & Hpos & Hend & Hrw & _). assert (m = n) as -> by congruence.
  assert (instruction_start code (pc + n)) as Hnext.
  { apply start_next; try done. inversion Hw; lia. }
  specialize (IH Hnext). destruct Hrw as [Hk|[Hq|(_ & -> & Hz1 & Hz2)]].
  - eapply walks_step; [lia| |exact IH].
    by apply (size_agree code); [apply Hok|done|apply (kept_agree _ _ _ n); [done|lia]].
  - eapply walks_step; [lia| |exact IH]. by apply (quickened_size code); [apply Hok|].
  - destruct (zero_unit _ _ Hz1) as [_ ?], (zero_unit _ _ Hz2) as [_ ?].
    eapply (walks_step _ pc 1); [lia|done|]. eapply (walks_step _ (pc + 1) 1); [lia|done|].
    by replace (pc + 1 + 1) with (pc + 2) by lia.
Qed.

Lemma starts_of_compiled idx : instruction_start code' idx ->
  instruction_start code idx \/ second_nop idx.
Proof.
  intros H. assert (forall pc, instruction_start code pc \/ second_nop pc -> walks_to code' pc idx ->
    instruction_start code idx \/ second_nop idx) as Hgen.
  2: { apply (Hgen 0); [|done]. left. apply walks_here. pose proof (so_nonempty _ _ Hso). lia. }
  clear H. intros pc Hpc Hw. induction Hw as [pc Hb|pc n' idx Hb Hn' Hw IH]; [done|]. apply IH.
  assert (0 <= pc + n' < zlength code) as Hb' by (inversion Hw; lia).
  destruct Hpc as [Hpc|(p & Hp & He & ->)].
  - destruct (compiled_at pc Hpc) as (n & Hn & _ & Hend & _).
    destruct (compiled_step_size pc n n' Hpc Hn Hn') as [-> | (He & -> & ->)].
    + left. by apply start_next.
    + right. by exists pc.
  - left. pose proof He as (_ & _ & _ & Hz). destruct (zero_unit _ _ Hz) as [_ Hs].
    assert (n' = 1) as -> by congruence. replace (p + 1 + 1) with (p + 2) in * by lia.
    destruct (compiled_at p Hp) as (n & Hn & _ & Hend & _ & _).
    assert (n = 2) as ->. { destruct He as [Ho _]. unfold SizeInCodeUnits in Hn. rewrite Ho in Hn. by injection Hn as <-. }
    by apply start_next.
Qed.

(** *** Instructions that are kept *)

(** Switch tables and array data are instructions of their own. *)
Record payloads_apart : Prop := {
  pa_switch pc c off count : instruction_start code pc -> Opcode (At code pc) = Ok c ->
    switch_ok env ci pc c off count -> instruction_start code (pc + off);
  pa_array pc off : instruction_start code pc -> Opcode (At code pc) = Ok FILL_ARRAY_DATA ->
    VRegB (At code pc) = Ok off ->
    instruction_start code (pc + off) /\ Fetch16 (At code (pc + off)) 0 = Ok kArrayDataSignature;
}.
Hypothesis Hapart : payloads_apart.

Lemma payload_kept q signature : instruction_start code q ->
  Fetch16 (At code q) 0 = Ok signature -> signature mod 256 = 0 ->
  exists n, SizeInCodeUnits (At code q) = Ok n /\ kept code code' q n.
Proof.
  intros Hq Hs Hz. destruct (compiled_at q Hq) as (n & Hn & _ & _ & Hrw & _). exists n. split; [done|].
  destruct Hrw as [Hk|[(w & c & c' & Hw & Hc & Hqk & _)|[Ho _]]]; [done|..]; exfalso.
  - assert (w = signature) as -> by congruence. rewrite Hz in Hc. by subst c.
  - rewrite Opcode_fetch, Hs in Ho. cbn in Ho. by rewrite Hz in Ho.
Qed.

Lemma unit_kept q n k : kept code code' q n -> 0 <= k < n ->
  Fetch16 (At code' q) k = Fetch16 (At code q) k.
Proof. intros Hk Hr. apply Hk. cbn. lia. Qed.

Lemma table_word_kept q n k : kept code code' q n -> 0 <= k -> k + 1 < n ->
  table_word ci' q k = table_word ci q k.
Proof. intros Hk H0 Hn. unfold table_word. by rewrite !(unit_kept q n) by (done || lia). Qed.

Lemma switch_kept pc c off count :
  instruction_start code pc -> Opcode (At code pc) = Ok c ->
  VRegB (At code' pc) = VRegB (At code pc) ->
  switch_ok env ci pc c off count -> switch_ok env ci' pc c off count.
Proof.
  intros Hpc Hop HB Hsw. pose proof (pa_switch Hapart _ _ _ _ Hpc Hop Hsw) as Hq.
  destruct Hsw as [Hoff Hstart Hal Hsig Hcnt Hend Hkeys Htg].
  assert (0 <= count) as Hc0 by (by apply (Fetch16_range (At code (pc + off))) in Hcnt; [lia|apply Hok]).
  destruct (payload_kept (pc + off) _ Hq Hsig) as (n & Hn & Hk).
  { unfold switch_signature. by case_decide. }
  assert (n = switch_targets c count + 2 * count) as Hsize.
  { revert Hn. unfold SizeInCodeUnits, SizeInCodeUnitsComplexOpcode. rewrite Opcode_fetch, Hsig, Hcnt.
    unfold switch_signature, switch_targets. case_decide; cbn; intros [= <-]; lia. }
  assert (4 <= n \/ count = 0) as Hn4 by (revert Hsize; unfold switch_targets; case_decide; lia).
  assert (1 < n) by (revert Hsize; unfold switch_targets; case_decide; lia).
  split; cbn [insns_ with_insns]; try done.
  - congruence.
  - by rewrite (unit_kept _ n) by (done || lia).
  - by rewrite (unit_kept _ n) by (done || lia).
  - lia.
  - intros Hc k Hk'. destruct (Hkeys Hc k Hk') as (key & key' & H1 & H2 & Hlt).
    unfold switch_targets in Hsize. rewrite decide_False in Hsize by done.
    exists key, key'. rewrite !(table_word_kept _ n) by (done || lia). done.
  - intros k Hk'. destruct (Htg k Hk') as (t & Ht & Hst). exists t.
    rewrite (table_word_kept _ n); [|done|unfold switch_targets; case_decide; lia|lia].
    split; [done|]. by apply starts_preserved.
Qed.

Lemma branch_kept pc c :
  Opcode (At code pc) = Ok c -> agree (format_size (FormatOf c)) (At code pc) (At code' pc) ->
  branch_ok ci pc -> branch_ok ci' pc.
Proof.
  intros Hop Ha (off & cond & self & Hb & Hst & Hself). exists off, cond, self.
  split_and!; [|by apply starts_preserved|done]. rewrite <- Hb.
  apply Opcode_ok in Hop as (w & Hw & ->). unfold GetBranchOffset. cbn [insns_ with_insns].
  pose proof (Ha 0) as H0. rewrite H0, Hw.
  2: { pose proof (format_positive (Code_of_byte (w mod 256))). lia. }
  cbn [mbind res_bind]. rewrite land_0xff.
  destruct (Code_of_byte (w mod 256)); try done;
    rewrite ?(Ha 1), ?(Ha 2) by (by vm_compute); done.
Qed.

Lemma arguments_kept pc :
  (forall x, GetVarArgs (At code' pc) x = GetVarArgs (At code pc) x) ->
  Fetch16 (At code' pc) 0 = Fetch16 (At code pc) 0 ->
  VRegA (At code' pc) = VRegA (At code pc) -> arguments_ok ci pc -> arguments_ok ci' pc.
Proof.
  intros Hg H0 HA (w & args & Hw & Hargs & HA' & Hr). exists w, args. cbn [insns_ with_insns].
  rewrite H0, HA, Hg. done.
Qed.

Lemma array_kept pc :
  instruction_start code pc -> Opcode (At code pc) = Ok FILL_ARRAY_DATA ->
  VRegB (At code' pc) = VRegB (At code pc) -> array_data_ok ci pc -> array_data_ok ci' pc.
Proof.
  intros Hpc Hop HB (off & width & count & Hoff & H0 & Hw & Hc & Hend).
  destruct (pa_array Hapart pc off Hpc Hop Hoff) as [Hq Hsig].
  destruct (payload_kept _ _ Hq Hsig eq_refl) as (n & Hn & Hk).
  assert (4 <= n) as Hn4.
  { revert Hn. unfold SizeInCodeUnits, SizeInCodeUnitsComplexOpcode. rewrite Opcode_fetch, Hsig. cbn.
    intros (m & Hm & (w2 & Hw2 & (w3 & Hw3 & Hn')%bind_ok)%bind_ok)%bind_ok. injection Hn' as <-.
    assert (forall x, 0 <= uint32 x / 2) as Hdiv by (intros; int_lia).
    specialize (Hdiv (uint32 (m * Z.lor w2 (uint32 (Z.shiftl w3 16))) + 1)). lia. }
  exists off, width, count. cbn [insns_ with_insns]. split_and!; [congruence|done|..].
  - by rewrite (unit_kept _ n) by (done || lia).
  - unfold Fetch32 in *. by rewrite !(unit_kept _ n) by (done || lia).
  - lia.
Qed.

Lemma kept_instruction_ok pc n c :
  instruction_start code pc -> SizeInCodeUnits (At code pc) = Ok n -> kept code code' pc n ->
  Opcode (At code pc) = Ok c -> instruction_ok env ci pc c ->
  Opcode (At code' pc) = Ok c /\ instruction_ok env ci' pc c.
Proof.
  intros Hpc Hn Hk Hop Hio.
  pose proof (format_size_le (At code pc) c n Hok Hop Hn) as Hle.
  pose proof (kept_agree _ _ _ _ _ Hk Hle) as Ha.
  pose proof (Opcode_agree _ _ _ Hop Ha) as Hop'. split; [done|].
  pose proof (VRegA_agree _ _ _ Hop Ha) as HA. pose proof (VRegB_agree _ _ _ Hop Ha) as HB.
  pose proof (VRegC_agree _ _ _ Hop Ha) as HC. pose proof (GetVarArgs_agree _ _ _ Hop Ha) as HG.
  assert (Fetch16 (At code' pc) 0 = Fetch16 (At code pc) 0) as H0.
  { apply Ha. pose proof (format_positive c). lia. }
  destruct Hio. split; unfold operand_ok, register_ok, pair_ok, range_ok in *; cbn [insns_ with_insns registers_size_] in *;
    rewrite ?HA, ?HB, ?HC; try done.
  - destruct ok_fits. split; [done..|]. cbn in *. lia.
  - intros H. by eapply branch_kept; eauto.
  - intros H. destruct (ok_switch H) as (off & count & Hsw). exists off, count. by apply switch_kept.
  - intros H. apply array_kept; [done| |done|auto]. rewrite Hop. f_equal.
    clear - H. by destruct c.
  - intros H. apply arguments_kept; auto.
Qed.

(** *** Instructions that are replaced *)

(** No rewritten instruction has the flag at hand. *)
Ltac absent_flag Href :=
  intros; exfalso; repeat match goal with H : _ \/ _ |- _ => destruct H end;
  eapply Href; [|eassumption]; evaluated.

Lemma quick_instruction_ok pc n c :
  instruction_start code pc -> pc + n <= zlength code -> quickened code code' pc n ->
  Opcode (At code pc) = Ok c -> instruction_ok env ci pc c ->
  exists c', Opcode (At code' pc) = Ok c' /\ instruction_ok env ci' pc c'.
Proof.
  intros Hpc Hend (w & c0 & c' & Hw & Hc0 & Hq & Hn & Hw' & Hrest) Hop Hio.
  assert (c0 = c) as ->. { rewrite Opcode_fetch, Hw in Hop. cbn in Hop. congruence. }
  pose proof (Fetch16_range (At code pc) _ _ Hok Hw) as Hr.
  destruct (replaced_opcode w c' Hr) as (_ & Hhigh & Hc'). set (w' := uint16 _) in *.
  rewrite Hn in Hrest. symmetry in Hc0.
  pose proof (quick_A _ _ _ _ _ _ Hq Hw Hw' Hc0 Hc' Hhigh Hrest) as HA.
  pose proof (quick_B _ _ _ _ _ _ Hq Hw Hw' Hc0 Hc' Hhigh Hrest) as HB.
  pose proof (quick_C _ _ _ _ _ _ Hq Hw Hw' Hc0 Hc' Hrest) as HC.
  pose proof (quick_args _ _ _ _ _ _ Hq Hw Hw' Hc0 Hc' Hhigh Hrest) as HG.
  destruct (quick_format _ _ Hq) as (HF & _).
  assert (Opcode (At code' pc) = Ok c') as Hop' by (rewrite Opcode_fetch, Hw'; cbn; by rewrite Hc').
  exists c'. split; [done|].
  assert (forall f, f ∈ register_flags -> flagged c' f -> flagged c f) as Hreg
    by (intros; by eapply quick_register_flags).
  assert (forall f, f ∈ reference_flags -> flagged c' f -> False) as Href
    by (intros f Hf; by eapply quick_reference_flags).
  destruct (quick_operands _ _ Hq) as (HFB & HFV & HFR). destruct Hio.
  split; unfold operand_ok, register_ok, pair_ok; cbn [insns_ with_insns registers_size_]; rewrite ?HA;
    try absent_flag Href.
  - destruct ok_fits. split; [done..|]. cbn. rewrite HF, <- Hn. lia.
  - intros Hf. eapply Href; [|exact Hf]. evaluated.
  - intros Hf. apply ok_A, Hreg; [evaluated|done].
  - intros Hf. apply ok_A_wide, Hreg; [evaluated|done].
  - intros Hf. rewrite HB by auto. apply ok_B, Hreg; [evaluated|done].
  - intros [Hf|Hf]; exfalso; (eapply Href; [|exact Hf]); evaluated.
  - intros [Hf|Hf]; exfalso; (eapply Href; [|exact Hf]); evaluated.
  - intros [Hf|Hf]; [exfalso; (eapply Href; [|exact Hf]); evaluated|].
    destruct ok_arguments as (d & args & Hd & Hargs & HA' & Hall); [right; apply Hreg; [evaluated|done]|].
    assert (d = w) as -> by congruence. exists w', args. cbn [insns_ with_insns].
    rewrite HA, HG by auto. done.
  - intros [Hf|Hf]; [exfalso; (eapply Href; [|exact Hf]); evaluated|].
    unfold range_ok. cbn [insns_ with_insns registers_size_]. rewrite HA, HC by auto.
    apply ok_range. right. apply Hreg; [evaluated|done].
  - intros Hf. apply ok_nonzero. destruct Hf; [left|right]; (apply Hreg; [evaluated|done]).
Qed.

Lemma nop_instruction_ok pc : zget code' pc = Ok 0 ->
  Opcode (At code' pc) = Ok NOP /\ instruction_ok env ci' pc NOP.
Proof.
  intros Hz. destruct (zero_unit _ _ Hz) as [Hop _]. split; [done|].
  assert (forall f, f ∈ register_flags ++ reference_flags -> ~ flagged NOP f) as Hnone.
  { intros f Hf. unfold register_flags, reference_flags in Hf. cbn in Hf.
    repeat (apply elem_of_cons in Hf as [->|Hf]; [by vm_compute|]). by apply elem_of_nil in Hf. }
  split; cbn [insns_ with_insns];
    try (intros Hf; exfalso; (eapply Hnone; [|exact Hf]); evaluated);
    try (intros [Hf|Hf]; exfalso; (eapply Hnone; [|exact Hf]); evaluated).
  split; [done..|]. change (format_size (FormatOf NOP)) with 1. cbn. apply zget_bounds in Hz. lia.
Qed.

Lemma compiled_statically_ok : statically_ok env ci'.
Proof.
  pose proof (starts_preserved) as Hst. split; cbn [insns_ with_insns registers_size_ ins_size_ tries_size_].
  - apply Hso.
  - pose proof (so_nonempty _ _ Hso). lia.
  - intros idx Hidx. destruct (starts_of_compiled idx Hidx) as [Hs|(p & Hp & (Ho & _ & Hz1 & Hz2) & ->)].
    + destruct (compiled_at idx Hs) as (n & Hn & Hpos & Hend & [Hk|[Hq|(_ & -> & Hz & _)]] & _).
      * exists n. split; [|cbn; lia]. apply (size_agree code); [apply Hok|done|].
        by apply (kept_agree _ _ _ n).
      * exists n. split; [|cbn; lia]. by apply (quickened_size code); [apply Hok|].
      * exists 1. split; [apply (zero_unit _ _ Hz)|cbn; lia].
    + exists 1. split; [apply (zero_unit _ _ Hz2)|]. apply zget_bounds in Hz2. cbn. lia.
  - intros pc Hpc. destruct (starts_of_compiled pc Hpc) as [Hs|(p & Hp & (Ho & _ & Hz1 & Hz2) & ->)].
    2: { exists NOP. by apply nop_instruction_ok. }
    destruct (so_instructions _ _ Hso pc Hs) as (c & Hc & Hio).
    destruct (compiled_at pc Hs) as (n & Hn & Hpos & Hend & [Hk|[Hq|(_ & -> & Hz & _)]] & _).
    + exists c. by eapply kept_instruction_ok.
    + by eapply quick_instruction_ok.
    + exists NOP. by apply nop_instruction_ok.
  - intros k Hk. destruct (so_tries _ _ Hso k Hk) as (t & Ht & Hstart & Hrange). exists t.
    split; [exact Ht|]. split; [by apply Hst|]. cbn [insns_ with_insns]. by rewrite Hlen.
  - intros Ht q Hq. destruct (so_handlers _ _ Hso Ht q Hq) as (it & fuel & es & fin & H1 & H2 & Hall).
    exists it, fuel, es, fin. split_and!; [done..|]. eapply Forall_impl; [exact Hall|]. cbn. auto.
Qed.
End Preserved.

Lemma tiled_start env ci : statically_ok env ci -> tiled_from (insns_ ci) 0.
Proof. intros Hso idx Hidx. by apply (so_tiled _ _ Hso). Qed.

Lemma Compile_compiled `{CompilerDriver} level access_flags env ci :
  code_item_wf ci -> statically_ok env ci -> level <> kDontDexToDexCompile ->
  exists code', Compile level access_flags ci = Ok (with_insns code' ci) /\
    length code' = length (insns_ ci) /\ code_ok code' /\ compiled (insns_ ci) code' 0.
Proof.
  intros Hwf Hso Hlevel. unfold Compile. rewrite (wf_size _ Hwf).
  destruct (Compile_loop_compiled level access_flags (S (Z.to_nat (zlength (insns_ ci)))) (insns_ ci) (insns_ ci) 0)
    as (code' & Hrun & Hl & Hok & _ & Hc); [apply Hwf|done|apply Hwf|lia|done|by eapply tiled_start|lia|].
  exists code'. rewrite Hrun. by destruct level.
Qed.


(** *** Methods of the examples *)

(** A driver that knows every field to be at offset 8. *)
Definition offset_8 : CompilerDriver := {|
  RequiresConstructorBarrier := true;
  IsSafeCast := fun _ => true;
  ComputeInstanceFieldInfo := fun _ _ => (true, 8, false);
  ComputeInvokeInfo := fun _ _ => (true, kVirtual, 5);
|}.

(** check-cast v0; iget v0, v0; invoke-virtual {v0}; return-void *)
Definition accessor_item : CodeItem :=
  MkCodeItem 1 1 1 0 8 [0x001f; 0x0000; 0x0052; 0x0000; 0x106e; 0x0000; 0x0000; 0x000e] [] [].

(** A packed switch at 0 whose table starts inside the constant of a const-wide at 3; the
    only target of the table is the iget at 8. *)
Definition overlapping_item : CodeItem :=
  MkCodeItem 3 3 0 0 83
    ([0x012b; 4; 0; 0x0118; 0x0100; 1; 0; 0; 0x0052; 0] ++ replicate 72 0 ++ [0x000e]) [] [].

Lemma accessor_wf : code_item_wf accessor_item.
Proof.
  split; [done|done| |simpl; lia].
  apply Forall_forall. intros x Hx. unfold fitsU. simpl in Hx.
  repeat (apply elem_of_cons in Hx as [->|Hx]; [lia|]). by apply not_elem_of_nil in Hx.
Qed.

Lemma accessor_apart : payloads_apart (sample_env accessor_item) accessor_item.
Proof.
  assert (Forall (fun w => w <> 0x100 /\ w <> 0x200) (insns_ accessor_item)) as Hno
    by evaluated.
  assert (Forall (fun w => Code_of_byte (w mod 256) <> FILL_ARRAY_DATA) (insns_ accessor_item)) as Hno'
    by evaluated.
  split.
  - intros pc c off count _ _ [_ _ _ Hsig _ _ _ _]. exfalso.
    apply (zget_Forall _ _ _ _ Hno) in Hsig as [? ?]. unfold switch_signature in *. by case_decide.
  - intros pc off _ (w & Hw & Hc)%Opcode_ok. exfalso. by apply (zget_Forall _ _ _ _ Hno') in Hw.
Qed.


