(* ===== verification/ShadowFrame.v ===== *)
(** * Interpreter frames (runtime/stack.h, runtime/jvalue.h)

    A shadow frame stores its virtual registers in one block of memory: the
    32-bit words of the registers, followed by one reference per register, so
    [References()[i]] is the word [i] behind the last register.  The model keeps
    the block as a single array; an access that runs from the registers into the
    references is therefore visible as such, and only one that leaves the block
    is [OutOfBounds].  [JValue] is the eight-byte union of the same file. *)

From S2P Require Import Prelude.

Record ShadowFrame : Type := MkShadowFrame {
  number_of_vregs_ : Z;
  method_ : Z;
  dex_pc_ : Z;
  vregs_ : list Z;          (**r [2 * number_of_vregs_] words of 32 bits *)
}.

Definition with_vregs (vregs : list Z) (sf : ShadowFrame) : ShadowFrame :=
  MkShadowFrame (number_of_vregs_ sf) (method_ sf) (dex_pc_ sf) vregs.

Definition NumberOfVRegs (sf : ShadowFrame) : Z := number_of_vregs_ sf.
Definition GetDexPC (sf : ShadowFrame) : Z := dex_pc_ sf.
Definition SetDexPC (sf : ShadowFrame) (dex_pc : Z) : ShadowFrame :=
  MkShadowFrame (number_of_vregs_ sf) (method_ sf) dex_pc (vregs_ sf).
Definition GetMethod (sf : ShadowFrame) : res Z :=
  check (negb (method_ sf =? 0));; Ok (method_ sf).

(** [Create] runs the constructor, which clears registers and references. *)
Definition Create (num_vregs method dex_pc : Z) : ShadowFrame :=
  MkShadowFrame num_vregs method dex_pc (replicate (Z.to_nat (2 * num_vregs)) 0).

(** [DCHECK_LT(i, NumberOfVRegs())] *)
Definition dcheck_vreg (sf : ShadowFrame) (i : Z) : res unit := check (i <? NumberOfVRegs sf).

(** The index of [References()[i]] in the block. *)
Definition References (sf : ShadowFrame) (i : Z) : Z := NumberOfVRegs sf + i.

Definition GetVReg (sf : ShadowFrame) (i : Z) : res Z :=
  dcheck_vreg sf i;; w ← zget (vregs_ sf) i; Ok (int32 w).

(** The word read as a [float]: its bits. *)
Definition GetVRegFloat (sf : ShadowFrame) (i : Z) : res Z :=
  dcheck_vreg sf i;; zget (vregs_ sf) i.

Definition join (lo hi : Z) : Z := lo + hi * 2 ^ 32.

Definition GetVRegLong (sf : ShadowFrame) (i : Z) : res Z :=
  dcheck_vreg sf i;;
  lo ← zget (vregs_ sf) i; hi ← zget (vregs_ sf) (i + 1);
  Ok (int64 (join lo hi)).

(** The two words read as a [double]: its bits. *)
Definition GetVRegDouble (sf : ShadowFrame) (i : Z) : res Z :=
  dcheck_vreg sf i;;
  lo ← zget (vregs_ sf) i; hi ← zget (vregs_ sf) (i + 1);
  Ok (join lo hi).

Definition GetVRegReference (sf : ShadowFrame) (i : Z) : res Z :=
  dcheck_vreg sf i;; zget (vregs_ sf) (References sf i).

Definition SetVReg (sf : ShadowFrame) (i val : Z) : res ShadowFrame :=
  dcheck_vreg sf i;;
  m ← zset (vregs_ sf) i (uint32 val);
  m ← zset m (References sf i) 0;
  Ok (with_vregs m sf).

Definition SetVRegFloat (sf : ShadowFrame) (i bits : Z) : res ShadowFrame :=
  SetVReg sf i bits.

Definition SetVRegLong (sf : ShadowFrame) (i val : Z) : res ShadowFrame :=
  dcheck_vreg sf i;;
  m ← zset (vregs_ sf) i (uint32 val);
  m ← zset m (i + 1) (uint32 (Z.shiftr val 32));
  m ← zset m (References sf i) 0;
  m ← zset m (References sf (i + 1)) 0;
  Ok (with_vregs m sf).

Definition SetVRegDouble (sf : ShadowFrame) (i bits : Z) : res ShadowFrame :=
  SetVRegLong sf i bits.

(** [Assign] stores the low half of the pointer: references are compressed. *)
Definition SetVRegReference (sf : ShadowFrame) (i val : Z) : res ShadowFrame :=
  dcheck_vreg sf i;;
  m ← zset (vregs_ sf) i (uint32 val);
  m ← zset m (References sf i) (uint32 val);
  Ok (with_vregs m sf).

(** ** JValue: sixty-four bits seen as different types *)

Module JValue.
(** [new_low] replaces the low [n] bits. *)
Definition set_low (n j new_low : Z) : Z := uint64 (j - j mod 2 ^ n + wrapU n new_low).

Definition GetZ (j : Z) : Z := uint8 j.
Definition GetB (j : Z) : Z := int8 j.
Definition GetC (j : Z) : Z := uint16 j.
Definition GetS (j : Z) : Z := int16 j.
Definition GetI (j : Z) : Z := int32 j.
Definition GetJ (j : Z) : Z := int64 j.
Definition GetL (j : Z) : Z := uint64 j.
Definition SetZ (j new_z : Z) : Z := set_low 8 j new_z.
Definition SetB (j new_b : Z) : Z := set_low 32 j (Z.shiftr (int32 (Z.shiftl new_b 24)) 24).
Definition SetC (j new_c : Z) : Z := set_low 16 j new_c.
Definition SetS (j new_s : Z) : Z := set_low 32 j (Z.shiftr (int32 (Z.shiftl new_s 16)) 16).
Definition SetI (j new_i : Z) : Z := set_low 32 j new_i.
Definition SetJ (j new_j : Z) : Z := uint64 new_j.
Definition SetL (j new_l : Z) : Z := uint64 new_l.
End JValue.

(** ** The frame invariant *)

(** The block has the right size, holds words, and every reference is null or
    agrees with its register: a moving collector recognises the registers that
    hold references by this. *)
Record frame_ok (sf : ShadowFrame) : Prop := {
  frame_count : 0 <= number_of_vregs_ sf;
  frame_size : zlength (vregs_ sf) = 2 * number_of_vregs_ sf;
  frame_words : Forall (fitsU 32) (vregs_ sf);
  frame_references : forall i v r, 0 <= i < number_of_vregs_ sf ->
    zget (vregs_ sf) i = Ok v -> zget (vregs_ sf) (References sf i) = Ok r -> r = 0 \/ r = v;
}.

(** Two frames of the same method activation. *)
Definition same_shape (sf sf' : ShadowFrame) : Prop :=
  number_of_vregs_ sf' = number_of_vregs_ sf /\ method_ sf' = method_ sf.

Lemma zget_insert {A} (l : list A) i j a :
  0 <= i < zlength l -> 0 <= j ->
  zget (<[Z.to_nat i := a]> l) j = if decide (i = j) then Ok a else zget l j.
Proof.
  intros Hi Hj. assert (zset l i a = Ok (<[Z.to_nat i := a]> l)) as Hz by by apply zset_in_bounds.
  destruct (decide (i = j)) as [->|]; [by eapply zget_zset_eq|by eapply zget_zset_ne].
Qed.

Section Frames.
Context (sf : ShadowFrame) (Hsf : frame_ok sf).
Local Abbreviation nregs := (number_of_vregs_ sf).

Lemma word_in_frame i : 0 <= i < 2 * nregs -> exists w, zget (vregs_ sf) i = Ok w /\ fitsU 32 w.
Proof.
  intros Hi. destruct (zget_in_bounds (vregs_ sf) i) as [w Hw];
    [rewrite (frame_size _ Hsf); lia|].
  exists w. split; [done|]. by apply (zget_Forall _ _ _ _ (frame_words _ Hsf) Hw).
Qed.

Lemma dcheck_vreg_ok i : i < nregs -> dcheck_vreg sf i = Ok tt.
Proof. intros. unfold dcheck_vreg, NumberOfVRegs. by rewrite (proj2 (Z.ltb_lt _ _)). Qed.

Lemma GetVReg_ok i : 0 <= i < nregs -> exists v, GetVReg sf i = Ok v /\ fitsS 32 v.
Proof.
  intros Hi. destruct (word_in_frame i) as (w & Hw & _); [lia|].
  unfold GetVReg. rewrite dcheck_vreg_ok by lia. simpl. rewrite Hw. simpl.
  exists (int32 w). split; [done|]. by apply wrapS_fits.
Qed.

Lemma GetVRegFloat_ok i : 0 <= i < nregs -> exists v, GetVRegFloat sf i = Ok v /\ fitsU 32 v.
Proof.
  intros Hi. destruct (word_in_frame i) as (w & Hw & ?); [lia|].
  unfold GetVRegFloat. rewrite dcheck_vreg_ok by lia. simpl. eauto.
Qed.

Lemma GetVRegDouble_ok i :
  0 <= i -> i + 1 < nregs -> exists v, GetVRegDouble sf i = Ok v /\ fitsU 64 v.
Proof.
  intros Hi Hn. destruct (word_in_frame i) as (w & Hw & ?); [lia|].
  destruct (word_in_frame (i + 1)) as (w' & Hw' & ?); [lia|].
  unfold GetVRegDouble. rewrite dcheck_vreg_ok by lia. simpl. rewrite Hw, Hw'. simpl.
  eexists. split; [done|]. unfold join. int_lia.
Qed.

Lemma GetVRegLong_ok i :
  0 <= i -> i + 1 < nregs -> exists v, GetVRegLong sf i = Ok v /\ fitsS 64 v.
Proof.
  intros Hi Hn. destruct (GetVRegDouble_ok i Hi Hn) as (v & Hv & _).
  unfold GetVRegDouble in Hv. inv_res. unfold GetVRegLong. rewrite E. simpl. rewrite E0, E1.
  simpl. eexists. split; [done|]. by apply wrapS_fits.
Qed.

Lemma GetVRegReference_ok i : 0 <= i < nregs -> exists r, GetVRegReference sf i = Ok r /\ fitsU 32 r.
Proof.
  intros Hi. destruct (word_in_frame (References sf i)) as (w & Hw & ?);
    [unfold References, NumberOfVRegs; lia|].
  unfold GetVRegReference. rewrite dcheck_vreg_ok by lia. simpl. eauto.
Qed.

(** One register together with its reference. *)
Definition write (i v r : Z) : list Z :=
  <[Z.to_nat (nregs + i) := r]> (<[Z.to_nat i := v]> (vregs_ sf)).

Lemma write_length i v r : length (write i v r) = length (vregs_ sf).
Proof. unfold write. by rewrite !length_insert. Qed.

Lemma write_get i v r j :
  0 <= i < nregs -> 0 <= j ->
  zget (write i v r) j =
    if decide (j = nregs + i) then Ok r else if decide (j = i) then Ok v else zget (vregs_ sf) j.
Proof.
  intros Hi Hj. pose proof (frame_size _ Hsf). unfold write.
  rewrite zget_insert by (rewrite ?length_insert; lia).
  destruct (decide (nregs + i = j)) as [<-|]; [by rewrite decide_True|].
  rewrite (decide_False (P := j = nregs + i)) by done.
  rewrite zget_insert by lia.
  destruct (decide (i = j)) as [<-|]; [by rewrite decide_True|by rewrite decide_False].
Qed.

Lemma write_frame i v r :
  0 <= i < nregs -> fitsU 32 v -> r = 0 \/ r = v -> frame_ok (with_vregs (write i v r) sf).
Proof.
  intros Hi Hv Hr. split; simpl.
  - apply (frame_count _ Hsf).
  - rewrite write_length. apply (frame_size _ Hsf).
  - unfold write. apply Forall_insert; [apply Forall_insert; [apply (frame_words _ Hsf)|done]|].
    destruct Hr as [->| ->]; [unfold fitsU; lia|done].
  - intros j a b Hj. unfold References, NumberOfVRegs. simpl. rewrite !write_get by lia.
    rewrite (decide_False (P := j = nregs + i)), (decide_False (P := nregs + j = i)) by lia.
    destruct (decide (j = i)) as [->|].
    + rewrite decide_True by done. intros [= <-] [= <-]. done.
    + rewrite decide_False by lia. by apply (frame_references _ Hsf).
Qed.
End Frames.

Section Updates.
Context (sf : ShadowFrame) (Hsf : frame_ok sf).
Local Abbreviation nregs := (number_of_vregs_ sf).

Lemma SetVReg_write i v :
  0 <= i < nregs -> SetVReg sf i v = Ok (with_vregs (write sf i (uint32 v) 0) sf).
Proof.
  intros Hi. pose proof (frame_size _ Hsf). unfold SetVReg.
  rewrite dcheck_vreg_ok by lia. simpl.
  rewrite zset_in_bounds by lia. simpl. unfold References, NumberOfVRegs.
  rewrite zset_in_bounds by (rewrite length_insert; lia). done.
Qed.

Lemma SetVRegReference_write i v :
  0 <= i < nregs ->
  SetVRegReference sf i v = Ok (with_vregs (write sf i (uint32 v) (uint32 v)) sf).
Proof.
  intros Hi. pose proof (frame_size _ Hsf). unfold SetVRegReference.
  rewrite dcheck_vreg_ok by lia. simpl.
  rewrite zset_in_bounds by lia. simpl. unfold References, NumberOfVRegs.
  rewrite zset_in_bounds by (rewrite length_insert; lia). done.
Qed.

(** A wide register is written as two narrow ones. *)
Lemma SetVRegLong_write i v :
  0 <= i -> i + 1 < nregs ->
  SetVRegLong sf i v =
  Ok (with_vregs
    (write (with_vregs (write sf i (uint32 v) 0) sf) (i + 1) (uint32 (Z.shiftr v 32)) 0) sf).
Proof.
  intros Hi Hn. pose proof (frame_size _ Hsf). unfold SetVRegLong.
  rewrite dcheck_vreg_ok by lia. simpl.
  rewrite zset_in_bounds by lia. simpl.
  rewrite zset_in_bounds by (rewrite length_insert; lia). simpl.
  unfold References, NumberOfVRegs.
  rewrite zset_in_bounds by (rewrite !length_insert; lia). simpl.
  rewrite zset_in_bounds by (rewrite !length_insert; lia). simpl.
  unfold write. simpl. do 2 f_equal.
  rewrite (list_insert_insert_ne _ (Z.to_nat (nregs + i)) (Z.to_nat (i + 1))) by lia. done.
Qed.
End Updates.

Lemma with_vregs_twice m m' sf : with_vregs m (with_vregs m' sf) = with_vregs m sf.
Proof. done. Qed.

(** *** Every update of a register of the frame succeeds and keeps the invariant *)

Section UpdateOk.
Context (sf : ShadowFrame) (Hsf : frame_ok sf).
Local Abbreviation nregs := (number_of_vregs_ sf).

Lemma SetVReg_ok i v :
  0 <= i < nregs -> exists sf', SetVReg sf i v = Ok sf' /\ frame_ok sf' /\ same_shape sf sf'.
Proof.
  intros Hi. rewrite SetVReg_write by done. eexists. split_and!; [done| |done].
  apply write_frame; [done|done|by apply wrapU_fits|by left].
Qed.

Lemma SetVRegReference_ok i v :
  0 <= i < nregs ->
  exists sf', SetVRegReference sf i v = Ok sf' /\ frame_ok sf' /\ same_shape sf sf'.
Proof.
  intros Hi. rewrite SetVRegReference_write by done. eexists. split_and!; [done| |done].
  apply write_frame; [done|done|by apply wrapU_fits|by right].
Qed.

Lemma SetVRegLong_ok i v :
  0 <= i -> i + 1 < nregs ->
  exists sf', SetVRegLong sf i v = Ok sf' /\ frame_ok sf' /\ same_shape sf sf'.
Proof.
  intros Hi Hn. rewrite SetVRegLong_write by done. eexists. split_and!; [done| |done].
  rewrite <- (with_vregs_twice _ (write sf i (uint32 v) 0)).
  apply write_frame; simpl; [|lia|by apply wrapU_fits|by left].
  apply write_frame; [done|lia|by apply wrapU_fits|by left].
Qed.
End UpdateOk.

(** *** What a read sees after a write *)

Section ReadAfterWrite.
Context (sf : ShadowFrame) (Hsf : frame_ok sf).
Local Abbreviation nregs := (number_of_vregs_ sf).

Lemma GetVReg_write i v r j :
  0 <= i < nregs -> 0 <= j < nregs ->
  GetVReg (with_vregs (write sf i v r) sf) j =
    if decide (j = i) then Ok (int32 v) else GetVReg sf j.
Proof.
  intros Hi Hj. unfold GetVReg. rewrite dcheck_vreg_ok by (simpl; lia). simpl.
  rewrite write_get by (done || lia). rewrite decide_False by lia.
  destruct (decide (j = i)); [done|]. by rewrite dcheck_vreg_ok by lia.
Qed.

Lemma GetVRegReference_write i v r j :
  0 <= i < nregs -> 0 <= j < nregs ->
  GetVRegReference (with_vregs (write sf i v r) sf) j =
    if decide (j = i) then Ok r else GetVRegReference sf j.
Proof.
  intros Hi Hj. unfold GetVRegReference. rewrite dcheck_vreg_ok by (simpl; lia). simpl.
  unfold References, NumberOfVRegs. simpl. rewrite write_get by (done || lia).
  destruct (decide (j = i)) as [->|]; [by rewrite decide_True|].
  rewrite !decide_False by lia. by rewrite dcheck_vreg_ok by lia.
Qed.

Lemma SetVReg_read i v sf' j :
  0 <= i < nregs -> SetVReg sf i v = Ok sf' -> 0 <= j < nregs ->
  GetVReg sf' j = (if decide (j = i) then Ok (int32 v) else GetVReg sf j) /\
  GetVRegReference sf' j = (if decide (j = i) then Ok 0 else GetVRegReference sf j).
Proof.
  intros Hi Hs Hj. rewrite SetVReg_write in Hs by done. injection Hs as <-.
  rewrite GetVReg_write, GetVRegReference_write by done.
  unfold int32, uint32. by rewrite wrapS_wrapU.
Qed.

Lemma SetVRegReference_read i v sf' j :
  0 <= i < nregs -> SetVRegReference sf i v = Ok sf' -> 0 <= j < nregs ->
  GetVReg sf' j = (if decide (j = i) then Ok (int32 v) else GetVReg sf j) /\
  GetVRegReference sf' j =
    (if decide (j = i) then Ok (uint32 v) else GetVRegReference sf j).
Proof.
  intros Hi Hs Hj. rewrite SetVRegReference_write in Hs by done. injection Hs as <-.
  rewrite GetVReg_write, GetVRegReference_write by done.
  unfold int32, uint32. by rewrite wrapS_wrapU.
Qed.
End ReadAfterWrite.

Lemma join_split v : int64 (join (uint32 v) (uint32 (Z.shiftr v 32))) = int64 v.
Proof.
  unfold join. rewrite shiftr_div by lia. unfold int64. apply wrapS_congr; [lia|]. int_lia.
Qed.

Lemma SetVRegLong_read sf i v sf' :
  frame_ok sf -> 0 <= i -> i + 1 < number_of_vregs_ sf -> SetVRegLong sf i v = Ok sf' ->
  GetVRegLong sf' i = Ok (int64 v) /\
  (forall j, j = i \/ j = i + 1 -> GetVRegReference sf' j = Ok 0) /\
  (forall j, 0 <= j < number_of_vregs_ sf -> j <> i -> j <> i + 1 ->
     GetVReg sf' j = GetVReg sf j /\ GetVRegReference sf' j = GetVRegReference sf j).
Proof.
  intros Hsf Hi Hn Hs. rewrite SetVRegLong_write in Hs by done. injection Hs as <-.
  set (sf1 := with_vregs (write sf i (uint32 v) 0) sf).
  assert (frame_ok sf1) as H1
    by (apply write_frame; [done|lia|by apply wrapU_fits|by left]).
  change (number_of_vregs_ sf) with (number_of_vregs_ sf1) in *.
  rewrite <- (with_vregs_twice _ (write sf i (uint32 v) 0)). fold sf1.
  split_and!.
  - unfold GetVRegLong. rewrite dcheck_vreg_ok by (simpl in *; lia). simpl.
    rewrite !write_get by (done || lia).
    repeat case_decide; try (exfalso; simpl in *; lia). simpl.
    rewrite write_get by (done || (simpl in *; lia)).
    repeat case_decide; try (exfalso; simpl in *; lia). simpl. f_equal. apply join_split.
  - intros j Hj. rewrite GetVRegReference_write by (done || (simpl in *; lia)).
    destruct (decide (j = i + 1)); [done|]. unfold sf1.
    rewrite GetVRegReference_write by (done || (simpl in *; lia)). by rewrite decide_True by lia.
  - intros j Hj Hj1 Hj2.
    rewrite GetVReg_write, GetVRegReference_write by (done || (simpl in *; lia)).
    rewrite !decide_False by done. unfold sf1.
    rewrite GetVReg_write, GetVRegReference_write by (done || (simpl in *; lia)).
    by rewrite !decide_False by done.
Qed.

(** ** Claims *)


Lemma frame_ok_Create num_vregs method dex_pc :
  0 <= num_vregs -> frame_ok (Create num_vregs method dex_pc).
Proof.
  intros Hn. split; simpl.
  - done.
  - rewrite length_replicate. lia.
  - apply Forall_replicate. unfold fitsU. lia.
  - intros i v r _ _ Hr. left. apply zget_ok in Hr as [_ Hr].
    by apply lookup_replicate in Hr as [-> _].
Qed.


(** The frame invariant (every reference null or equal to its register)
    holds of a new frame and survives every write of a register in range, which
    always succeeds; a wide write needs the register after it. *)
Theorem shadow_frame_invariant (sf : ShadowFrame) (i v : Z) :
  frame_ok sf -> 0 <= i < number_of_vregs_ sf ->
  (exists sf', SetVReg sf i v = Ok sf' /\ frame_ok sf') /\
  (exists sf', SetVRegReference sf i v = Ok sf' /\ frame_ok sf') /\
  (i + 1 < number_of_vregs_ sf -> exists sf', SetVRegLong sf i v = Ok sf' /\ frame_ok sf') /\
  (forall num method pc, 0 <= num -> frame_ok (Create num method pc)).
Proof.
  intros Hsf Hi. split_and!.
  - destruct (SetVReg_ok sf Hsf i v Hi) as (sf' & ? & ? & _). eauto.
  - destruct (SetVRegReference_ok sf Hsf i v Hi) as (sf' & ? & ? & _). eauto.
  - intros Hn. destruct (SetVRegLong_ok sf Hsf i v) as (sf' & ? & ? & _); [lia|lia|eauto].
  - intros. by apply frame_ok_Create.
Qed.

Lemma shadow_frame_invariant_witness :
  exists sf', SetVRegReference (Create 3 1 0) 2 0x1234 = Ok sf' /\ frame_ok sf'.
Proof.
  apply (shadow_frame_invariant (Create 3 1 0) 2 0x1234);
    [apply frame_ok_Create; lia|simpl; lia].
Defined.
