(* ===== verification/Float.v ===== *)
(** * Floating-point values as bits

    The interpreter moves [float] and [double] values through 32- and 64-bit
    registers.  Arithmetic is that of IEEE 754 with rounding to nearest even, as
    specified by [SpecFloat]; this file adds the encoding in bits, the
    conversions the interpreter performs, [fmod], and
    [art_float_to_integral] of entrypoints/entrypoint_utils-inl.h.  A NaN result
    is the default quiet NaN: the payload a processor would propagate is not
    modelled. *)

From Stdlib Require Import SpecFloat.
From S2P Require Import Prelude.

Record float_format : Type := MkFormat {
  prec : Z;          (**r bits of the significand *)
  emax : Z;          (**r 2^emax bounds every finite value *)
}.

Definition float : float_format := MkFormat 24 128.
Definition double : float_format := MkFormat 53 1024.

Section Format.
Context (fmt : float_format).
Local Abbreviation p := (prec fmt).
Local Abbreviation em := (emax fmt).

(** Widths of the stored significand and of the exponent field. *)
Definition mantissa_bits : Z := p - 1.
Definition exponent_bits : Z := Z.log2 em + 1.
Definition exponent_top : Z := 2 ^ exponent_bits - 1.
Definition sign_bit : Z := 2 ^ (mantissa_bits + exponent_bits).
Definition lowest : Z := emin p em.

Definition of_bits (bits : Z) : spec_float :=
  let s := Z.testbit bits (mantissa_bits + exponent_bits) in
  let m := bits mod 2 ^ mantissa_bits in
  let e := (bits / 2 ^ mantissa_bits) mod 2 ^ exponent_bits in
  if e =? 0 then
    match m with Z.pos m => S754_finite s m lowest | _ => S754_zero s end
  else if e =? exponent_top then
    (if m =? 0 then S754_infinity s else S754_nan)
  else
    match m + 2 ^ mantissa_bits with
    | Z.pos m => S754_finite s m (e - 1 + lowest)
    | _ => S754_nan
    end.

Definition with_sign (s : bool) (bits : Z) : Z := if s then bits + sign_bit else bits.

Definition to_bits (x : spec_float) : Z :=
  match x with
  | S754_zero s => with_sign s 0
  | S754_infinity s => with_sign s (exponent_top * 2 ^ mantissa_bits)
  | S754_nan => exponent_top * 2 ^ mantissa_bits + 2 ^ (mantissa_bits - 1)
  | S754_finite s m e =>
      with_sign s
        (if Z.pos m <? 2 ^ mantissa_bits then Z.pos m
         else (e - lowest + 1) * 2 ^ mantissa_bits + (Z.pos m - 2 ^ mantissa_bits))
  end.

(** [a op b] on bits *)
Definition fp_binary (op : spec_float -> spec_float -> spec_float) (a b : Z) : Z :=
  to_bits (op (of_bits a) (of_bits b)).

Definition fp_add : Z -> Z -> Z := fp_binary (SFadd p em).
Definition fp_sub : Z -> Z -> Z := fp_binary (SFsub p em).
Definition fp_mul : Z -> Z -> Z := fp_binary (SFmul p em).
Definition fp_div : Z -> Z -> Z := fp_binary (SFdiv p em).

(** [-a]: the sign bit is flipped, also that of a NaN. *)
Definition fp_neg (a : Z) : Z := Z.lxor a sign_bit.

Definition fp_lt (a b : Z) : bool := SFltb (of_bits a) (of_bits b).
Definition fp_eq (a b : Z) : bool := SFeqb (of_bits a) (of_bits b).

(** An integer, rounded. *)
Definition fp_of_int (z : Z) : Z := to_bits (binary_normalize p em z 0 false).

(** C's [fmod]: the exact remainder with the sign of the dividend. *)
Definition fmod_spec (x y : spec_float) : spec_float :=
  match x, y with
  | S754_nan, _ | _, S754_nan | S754_infinity _, _ | _, S754_zero _ => S754_nan
  | S754_zero _, _ | _, S754_infinity _ => x
  | S754_finite sx mx ex, S754_finite _ my ey =>
      let e := Z.min ex ey in
      let r := (Z.pos mx * 2 ^ (ex - e)) mod (Z.pos my * 2 ^ (ey - e)) in
      binary_normalize p em (if sx then - r else r) e sx
  end.
Definition fp_rem : Z -> Z -> Z := fp_binary fmod_spec.

(** The value truncated towards zero; [static_cast] to an integer type for a
    value in its range. *)
Definition truncate (x : spec_float) : Z :=
  match x with
  | S754_finite s m e =>
      let a := if 0 <=? e then Z.pos m * 2 ^ e else Z.pos m / 2 ^ (- e) in
      if s then - a else a
  | _ => 0
  end.

(** [art_float_to_integral<INT_TYPE, FLOAT_TYPE>] at [w] bits. *)
Definition art_float_to_integral (w : Z) (f : Z) : Z :=
  let kMaxInt := 2 ^ (w - 1) - 1 in
  let kMinInt := - 2 ^ (w - 1) in
  let kMaxIntAsFloat := fp_of_int kMaxInt in
  let kMinIntAsFloat := fp_of_int kMinInt in
  if fp_lt kMinIntAsFloat f then
    (if fp_lt f kMaxIntAsFloat then wrapS w (truncate (of_bits f)) else kMaxInt)
  else if negb (fp_eq f f) then 0 else kMinInt.
End Format.

(** [static_cast<double>(float)] and back. *)
Definition convert (src dst : float_format) (a : Z) : Z :=
  to_bits dst
    match of_bits src a with
    | S754_finite s m e =>
        binary_normalize (prec dst) (emax dst) (if s then Z.neg m else Z.pos m) e s
    | x => x
    end.
