(* ===== verification/Memory.v ===== *)
(** * Memory images of objects

    A managed object is a block of bytes that the runtime reads and writes by
    offset, at 1, 2, 4 or 8 bytes, little endian (every target ART runs on).
    The image of an object is the list of its bytes; an access that is not
    wholly inside the image is the fault [BadReference].  The lemmas say what a
    load sees after a store, byte by byte and value by value. *)

From S2P Require Import Prelude.

Fixpoint from_bytes (bs : list Z) : Z :=
  match bs with [] => 0 | b :: bs => b + 256 * from_bytes bs end.

Fixpoint to_bytes (n : nat) (v : Z) : list Z :=
  match n with O => [] | S n => v mod 256 :: to_bytes n (v / 256) end.

Definition inside (n : nat) (mem : list Z) (off : Z) : bool :=
  (0 <=? off) && (off + Z.of_nat n <=? zlength mem).

(** [*reinterpret_cast<uintN_t*>(base + off)] *)
Definition load (n : nat) (mem : list Z) (off : Z) : res Z :=
  if inside n mem off then Ok (from_bytes (take n (drop (Z.to_nat off) mem)))
  else Fault BadReference.

(** [*reinterpret_cast<uintN_t*>(base + off) = v] *)
Definition store (n : nat) (mem : list Z) (off v : Z) : res (list Z) :=
  if inside n mem off then
    Ok (take (Z.to_nat off) mem ++ to_bytes n v ++ drop (Z.to_nat off + n) mem)
  else Fault BadReference.

(** An image holds bytes. *)
Definition bytes (mem : list Z) : Prop := Forall (fun b => 0 <= b < 256) mem.

Lemma length_to_bytes n v : length (to_bytes n v) = n.
Proof. revert v. induction n; intros; simpl; [done|]. by rewrite IHn. Qed.

Lemma bytes_to_bytes n v : bytes (to_bytes n v).
Proof.
  revert v. induction n; intros; simpl; [constructor|].
  constructor; [apply Z.mod_pos_bound; lia|apply IHn].
Qed.

Lemma pow_bytes_S n : 2 ^ (8 * Z.of_nat (S n)) = 256 * 2 ^ (8 * Z.of_nat n).
Proof.
  replace (8 * Z.of_nat (S n)) with (8 + 8 * Z.of_nat n) by lia.
  by rewrite Z.pow_add_r by lia.
Qed.

Lemma from_to_bytes n v : from_bytes (to_bytes n v) = wrapU (8 * Z.of_nat n) v.
Proof.
  revert v. induction n as [|n IH]; intros; unfold wrapU.
  - simpl. by rewrite Z.mod_1_r.
  - cbn [to_bytes from_bytes]. rewrite IH, pow_bytes_S. unfold wrapU.
    rewrite Z.rem_mul_r by lia. lia.
Qed.

Lemma to_from_bytes bs : bytes bs -> to_bytes (length bs) (from_bytes bs) = bs.
Proof.
  induction 1 as [|b bs Hb Hbs IH]; [done|]. cbn [length to_bytes from_bytes].
  rewrite (Z.mul_comm 256), Z.mod_add, Z.div_add by lia.
  rewrite Z.mod_small, (Z.div_small b) by lia. by rewrite Z.add_0_l, IH.
Qed.

Lemma to_from_bytes' n bs : length bs = n -> bytes bs -> to_bytes n (from_bytes bs) = bs.
Proof. intros <-. apply to_from_bytes. Qed.

Lemma from_bytes_range bs : bytes bs -> 0 <= from_bytes bs < 2 ^ (8 * zlength bs).
Proof.
  induction 1 as [|b bs Hb Hbs IH]; [done|]. cbn [length from_bytes].
  rewrite pow_bytes_S. lia.
Qed.

Lemma to_bytes_wrapU n v : to_bytes n (wrapU (8 * Z.of_nat n) v) = to_bytes n v.
Proof.
  rewrite <- from_to_bytes.
  rewrite <- (to_from_bytes (to_bytes n v)) at 2 by apply bytes_to_bytes.
  by rewrite length_to_bytes.
Qed.

Lemma inside_spec n mem off :
  inside n mem off = true <-> 0 <= off /\ off + Z.of_nat n <= zlength mem.
Proof. unfold inside. rewrite andb_true_iff, !Z.leb_le. done. Qed.

Section Access.
Context (n : nat).

Lemma load_ok mem off v :
  load n mem off = Ok v <->
  (0 <= off /\ off + Z.of_nat n <= zlength mem) /\
  v = from_bytes (take n (drop (Z.to_nat off) mem)).
Proof.
  unfold load. rewrite <- inside_spec. destruct (inside n mem off); split.
  - by intros [= <-].
  - by intros [_ ->].
  - done.
  - by intros [? _].
Qed.

Lemma load_total mem off :
  0 <= off -> off + Z.of_nat n <= zlength mem -> exists v, load n mem off = Ok v.
Proof. intros. eexists. by apply load_ok. Qed.

Lemma store_ok mem off v mem' :
  store n mem off v = Ok mem' <->
  (0 <= off /\ off + Z.of_nat n <= zlength mem) /\
  mem' = take (Z.to_nat off) mem ++ to_bytes n v ++ drop (Z.to_nat off + n) mem.
Proof.
  unfold store. rewrite <- inside_spec. destruct (inside n mem off); split.
  - by intros [= <-].
  - by intros [_ ->].
  - done.
  - by intros [? _].
Qed.

Lemma store_total mem off v :
  0 <= off -> off + Z.of_nat n <= zlength mem -> exists mem', store n mem off v = Ok mem'.
Proof. intros. eexists. by apply store_ok. Qed.

Lemma store_length mem off v mem' : store n mem off v = Ok mem' -> length mem' = length mem.
Proof.
  rewrite store_ok. intros [[? ?] ->].
  rewrite !length_app, length_take, length_to_bytes, length_drop. lia.
Qed.

Lemma store_bytes mem off v mem' : bytes mem -> store n mem off v = Ok mem' -> bytes mem'.
Proof.
  rewrite store_ok. intros Hm [_ ->].
  repeat apply Forall_app_2;
    [by apply Forall_take|apply bytes_to_bytes|by apply Forall_drop].
Qed.

(** A store byte by byte. *)
Lemma store_lookup mem off v mem' (i : nat) :
  store n mem off v = Ok mem' ->
  mem' !! i =
    if decide (Z.to_nat off <= i < Z.to_nat off + n)%nat
    then to_bytes n v !! (i - Z.to_nat off)%nat else mem !! i.
Proof.
  rewrite store_ok. intros [[? ?] ->].
  assert (length (take (Z.to_nat off) mem) = Z.to_nat off) as Ht
    by (rewrite length_take; lia).
  case_decide.
  - rewrite lookup_app_r by lia. rewrite Ht.
    rewrite lookup_app_l; [done|]. rewrite length_to_bytes. lia.
  - destruct (decide (i < Z.to_nat off)%nat).
    + rewrite lookup_app_l by lia. by rewrite lookup_take_lt by lia.
    + rewrite lookup_app_r by lia. rewrite Ht.
      rewrite lookup_app_r by (rewrite length_to_bytes; lia).
      rewrite length_to_bytes, lookup_drop. f_equal. lia.
Qed.

(** The value stored is the value loaded. *)
Lemma load_store_eq mem off v mem' :
  store n mem off v = Ok mem' -> load n mem' off = Ok (wrapU (8 * Z.of_nat n) v).
Proof.
  intros Hs. pose proof (store_length _ _ _ _ Hs). apply store_ok in Hs as [[? ?] ->].
  apply load_ok. split; [lia|]. rewrite <- from_to_bytes. f_equal.
  assert (length (take (Z.to_nat off) mem) = Z.to_nat off) as Ht
    by (rewrite length_take; lia).
  rewrite drop_app_length' by lia. rewrite take_app_length' by (by rewrite length_to_bytes).
  done.
Qed.

(** Writing back what is there changes nothing. *)
Lemma store_load_id mem off v :
  bytes mem -> load n mem off = Ok v -> store n mem off v = Ok mem.
Proof.
  rewrite load_ok, store_ok. intros Hm [[? ?] ->]. split; [lia|].
  rewrite <- (take_drop (Z.to_nat off) mem) at 1. f_equal.
  rewrite <- (take_drop n (drop (Z.to_nat off) mem)) at 1. rewrite drop_drop. f_equal.
  symmetry. apply to_from_bytes'; [|by apply Forall_take, Forall_drop].
  rewrite length_take, length_drop. lia.
Qed.

Lemma load_range mem off v : bytes mem -> load n mem off = Ok v -> 0 <= v < 2 ^ (8 * Z.of_nat n).
Proof.
  rewrite load_ok. intros Hm [[? ?] ->].
  assert (length (take n (drop (Z.to_nat off) mem)) = n) as Hl
    by (rewrite length_take, length_drop; lia).
  pose proof (from_bytes_range (take n (drop (Z.to_nat off) mem))) as Hr.
  rewrite Hl in Hr. apply Hr. by apply Forall_take, Forall_drop.
Qed.
End Access.

(** A load depends on the bytes it covers. *)
Lemma load_ext n mem mem' off :
  length mem' = length mem ->
  (forall p, off <= Z.of_nat p < off + Z.of_nat n -> mem' !! p = mem !! p) ->
  load n mem' off = load n mem off.
Proof.
  intros Hl Hp. unfold load, inside. rewrite Hl.
  destruct ((0 <=? off) && _) eqn:Hi; [|done].
  apply andb_true_iff in Hi as [Hi%Z.leb_le Hj%Z.leb_le].
  do 2 f_equal. apply list_eq. intros i. destruct (decide (i < n)%nat).
  - rewrite !lookup_take_lt, !lookup_drop by lia. apply Hp. lia.
  - by rewrite !lookup_take_ge by lia.
Qed.

(** Accesses to disjoint ranges do not interfere. *)
Lemma load_store_ne n m mem off off' v mem' :
  store n mem off v = Ok mem' ->
  off' + Z.of_nat m <= off \/ off + Z.of_nat n <= off' ->
  load m mem' off' = load m mem off'.
Proof.
  intros Hs Hd. apply load_ext; [by eapply store_length|]. intros p Hp.
  rewrite (store_lookup _ _ _ _ _ _ Hs). pose proof Hs as [[? ?] _]%store_ok.
  by rewrite decide_False by lia.
Qed.
