(* ===== verification/ClassHierarchy.v ===== *)
(** * Classes and assignability

    Models the part of [mirror::Class] (runtime/mirror/class.h, class-inl.h) that
    decides which references may be stored where: [IsSubClass], [Implements],
    [IsAssignableFrom] and the array cases of the latter, together with
    [Primitive::Type] (runtime/primitive.h).  A class is named by its address; the
    linked classes are a finite map from addresses to the fields these functions
    read, and 0 is the null pointer.  The two loops (up the superclasses, down the
    component types) take the number of classes as fuel: on a hierarchy without
    cycles that is enough, which the totality theorem proves.  The theorems show
    that assignability is a preorder on every hierarchy that satisfies the rules
    the class linker establishes ([classes_wf]). *)

From S2P Require Import Prelude Modifiers.

Inductive Primitive_Type : Type :=
  | kPrimNot | kPrimBoolean | kPrimByte | kPrimChar | kPrimShort | kPrimInt
  | kPrimLong | kPrimFloat | kPrimDouble | kPrimVoid.

#[export] Instance Primitive_Type_eq_dec : EqDecision Primitive_Type.
Proof. solve_decision. Defined.

Definition ComponentSizeShift (type : Primitive_Type) : Z :=
  match type with
  | kPrimVoid | kPrimBoolean | kPrimByte => 0
  | kPrimChar | kPrimShort => 1
  | kPrimInt | kPrimFloat => 2
  | kPrimLong | kPrimDouble => 3
  | kPrimNot => 2
  end.

Definition ComponentSize (type : Primitive_Type) : Z :=
  match type with
  | kPrimVoid => 0
  | kPrimBoolean | kPrimByte => 1
  | kPrimChar | kPrimShort => 2
  | kPrimInt | kPrimFloat => 4
  | kPrimLong | kPrimDouble => 8
  | kPrimNot => 4
  end.

(** The fields of [mirror::Class] read here; [iftable_] lists the interfaces of
    the [IfTable] in order. *)
Record Class : Type := MkClass {
  access_flags_ : Z;
  primitive_type_ : Primitive_Type;
  super_class_ : Z;
  component_type_ : Z;
  iftable_ : list Z;
}.

Definition IsInterface (c : Class) : bool := has_access (access_flags_ c) kAccInterface.
Definition IsPrimitive (c : Class) : bool := negb (bool_decide (primitive_type_ c = kPrimNot)).
Definition IsArrayClass (c : Class) : bool := negb (component_type_ c =? 0).
Definition IsObjectClass (c : Class) : bool := negb (IsPrimitive c) && (super_class_ c =? 0).

Section Assignability.
Context (classes : gmap Z Class).

(** Following a [Class*]. *)
Definition class_at (k : Z) : res Class :=
  match classes !! k with Some c => Ok c | None => Fault BadReference end.

Definition fuel : nat := S (size classes).

Fixpoint IsSubClass_loop (n : nat) (current klass : Z) : res bool :=
  match n with
  | O => Fault OutOfFuel
  | S n =>
      if current =? klass then Ok true
      else
        c ← class_at current;
        let current := super_class_ c in
        if current =? 0 then Ok false else IsSubClass_loop n current klass
  end.

Definition IsSubClass (this klass : Z) : res bool :=
  c ← class_at this;
  check (negb (IsInterface c));;
  check (negb (IsArrayClass c));;
  IsSubClass_loop fuel this klass.

Definition Implements (this klass : Z) : res bool :=
  check (negb (klass =? 0));;
  k ← class_at klass;
  check (IsInterface k);;
  c ← class_at this;
  Ok (existsb (Z.eqb klass) (iftable_ c)).

(** [rec] is [IsAssignableFrom], on the component types. *)
Definition IsArrayAssignableFromArray (rec : Z -> Z -> res bool) (this src : Z) : res bool :=
  c ← class_at this;
  check (IsArrayClass c);;
  s ← class_at src;
  check (IsArrayClass s);;
  rec (component_type_ c) (component_type_ s).

Definition IsAssignableFromArray (rec : Z -> Z -> res bool) (this src : Z) : res bool :=
  c ← class_at this;
  check (negb (IsInterface c));;
  s ← class_at src;
  check (IsArrayClass s);;
  if negb (IsArrayClass c) then
    let java_lang_Object := super_class_ s in
    check (negb (java_lang_Object =? 0));;
    o ← class_at java_lang_Object;
    check (super_class_ o =? 0);;
    Ok (this =? java_lang_Object)
  else IsArrayAssignableFromArray rec this src.

Fixpoint IsAssignableFrom_depth (n : nat) (this src : Z) : res bool :=
  match n with
  | O => Fault OutOfFuel
  | S n =>
      if src =? 0 then Fault BadReference
      else if this =? src then Ok true
      else
        c ← class_at this;
        s ← class_at src;
        if IsObjectClass c then Ok (negb (IsPrimitive s))
        else if IsInterface c then Implements src this
        else if IsArrayClass s then IsAssignableFromArray (IsAssignableFrom_depth n) this src
        else if negb (IsInterface s) then IsSubClass src this
        else Ok false
  end.

Definition IsAssignableFrom (this src : Z) : res bool := IsAssignableFrom_depth fuel this src.

(** ** What the class linker establishes

    [rank] orders the classes so that superclasses and component types come
    first; there is one root class; interfaces, arrays and primitive classes are
    disjoint; an interface table is closed under the superclass and the
    interfaces it lists; all array classes share one interface table. *)
Record classes_wf (object : Z) (rank : Z -> nat) : Prop := {
  wf_rank k c : classes !! k = Some c -> (rank k <= size classes)%nat;
  wf_null c : classes !! 0 = Some c -> False;
  wf_object : exists c, classes !! object = Some c /\ IsObjectClass c = true /\
    IsInterface c = false /\ IsArrayClass c = false;
  wf_root k c : classes !! k = Some c -> IsObjectClass c = true -> k = object;
  wf_super k c : classes !! k = Some c -> super_class_ c <> 0 ->
    exists s, classes !! super_class_ c = Some s /\ (rank (super_class_ c) < rank k)%nat /\
      IsInterface s = false /\ IsArrayClass s = false /\ IsPrimitive s = false /\
      (forall i, i ∈ iftable_ s -> i ∈ iftable_ c);
  wf_array k c : classes !! k = Some c -> IsArrayClass c = true ->
    super_class_ c = object /\ IsInterface c = false /\ IsPrimitive c = false /\
    exists e, classes !! component_type_ c = Some e /\ (rank (component_type_ c) < rank k)%nat;
  wf_array_interfaces k c k' c' : classes !! k = Some c -> classes !! k' = Some c' ->
    IsArrayClass c = true -> IsArrayClass c' = true -> iftable_ c = iftable_ c';
  wf_interface k c : classes !! k = Some c -> IsInterface c = true ->
    super_class_ c = object /\ IsPrimitive c = false;
  wf_primitive k c : classes !! k = Some c -> IsPrimitive c = true ->
    super_class_ c = 0 /\ IsArrayClass c = false /\ iftable_ c = [];
  wf_iftable k c i : classes !! k = Some c -> i ∈ iftable_ c ->
    exists ic, classes !! i = Some ic /\ IsInterface ic = true /\
      (forall j, j ∈ iftable_ ic -> j ∈ iftable_ c);
}.

(** ** The reference relation

    [assignable d s]: the Java rules for storing a reference of class [s] in a
    variable of class [d]. *)
Inductive assignable (object : Z) : Z -> Z -> Prop :=
  | assignable_refl k : assignable object k k
  | assignable_object s c :
      classes !! s = Some c -> IsPrimitive c = false -> assignable object object s
  | assignable_interface d s c :
      classes !! s = Some c -> d ∈ iftable_ c -> assignable object d s
  | assignable_super d s c :
      classes !! s = Some c -> super_class_ c <> 0 ->
      assignable object d (super_class_ c) -> assignable object d s
  | assignable_array d s cd cs :
      classes !! d = Some cd -> IsArrayClass cd = true ->
      classes !! s = Some cs -> IsArrayClass cs = true ->
      assignable object (component_type_ cd) (component_type_ cs) -> assignable object d s.

(** The superclass chain. *)
Inductive extends : Z -> Z -> Prop :=
  | extends_refl k : extends k k
  | extends_super k c a :
      classes !! k = Some c -> super_class_ c <> 0 -> extends (super_class_ c) a -> extends k a.

Section WellFormed.
Context (object : Z) (rank : Z -> nat) (WF : classes_wf object rank).

Lemma class_at_ok k c : classes !! k = Some c -> class_at k = Ok c.
Proof. unfold class_at. by intros ->. Qed.

Lemma known_nonnull k c : classes !! k = Some c -> k <> 0.
Proof. intros H ->. by eapply wf_null. Qed.

Lemma array_component c : IsArrayClass c = true <-> component_type_ c <> 0.
Proof. unfold IsArrayClass. by rewrite negb_true_iff, Z.eqb_neq. Qed.

Lemma object_class k c : classes !! k = Some c -> IsObjectClass c = true <-> k = object.
Proof.
  intros Hk. split; [by eapply wf_root|]. intros ->.
  destruct (wf_object _ _ WF) as (o & Ho & ? & _). congruence.
Qed.

(** Every class but the root and the primitive ones has a superclass. *)
Lemma super_nonnull k c :
  classes !! k = Some c -> IsPrimitive c = false -> k <> object -> super_class_ c <> 0.
Proof.
  intros Hk Hp Hne Hs. apply Hne. eapply wf_root; [done..|].
  unfold IsObjectClass. by rewrite Hp, Hs.
Qed.

Lemma object_iftable k c o :
  classes !! k = Some c -> classes !! object = Some o -> IsPrimitive c = false ->
  forall i, i ∈ iftable_ o -> i ∈ iftable_ c.
Proof.
  intros Hk Ho. remember (rank k) as r eqn:Hr. revert k c Hk Hr.
  induction (lt_wf r) as [r _ IH]; intros k c Hk -> Hp i Hi.
  destruct (decide (k = object)) as [->|Hne]; [by simplify_eq|].
  destruct (wf_super _ _ WF k c) as (s & Hs & Hlt & _ & _ & Hsp & Hsub);
    [done|by eapply super_nonnull|].
  apply Hsub. by eapply (IH _ Hlt).
Qed.

(** *** Inversions of the reference relation, by the kind of the two classes *)

Lemma assignable_primitive d s c :
  assignable object d s -> classes !! s = Some c -> IsPrimitive c = true -> d = s.
Proof.
  intros H Hs Hp. destruct (wf_primitive _ _ WF _ _ Hs Hp) as (Hsup & Harr & Hif).
  destruct H; simplify_eq; try done; try congruence.
  rewrite Hif in *. set_solver.
Qed.

Lemma assignable_from_interface d s c :
  assignable object d s -> classes !! d = Some c -> IsInterface c = true ->
  d = s \/ exists cs, classes !! s = Some cs /\ d ∈ iftable_ cs.
Proof.
  intros H Hd Hi. induction H as [| | |d s cs Hs Hn _ IH|d s cd cs Hcd Ha].
  - by left.
  - destruct (wf_object _ _ WF) as (o & ? & _ & ? & _). congruence.
  - right. eauto.
  - destruct (wf_super _ _ WF _ _ Hs Hn) as (su & Hsu & _ & Hnsu & _ & _ & Hsub).
    destruct (IH Hd) as [->|(c' & ? & ?)]; [congruence|].
    right. simplify_eq. eauto.
  - destruct (wf_array _ _ WF _ _ Hcd Ha) as (_ & ? & _). congruence.
Qed.

(** To a class that is neither the root nor an interface. *)
Definition proper (d : Z) : Prop :=
  d <> object /\ exists c, classes !! d = Some c /\ IsInterface c = false.

Lemma proper_not_interface d s c : proper d -> classes !! s = Some c -> d ∉ iftable_ c.
Proof.
  intros (_ & cd & Hd & Hi) Hs Hin.
  destruct (wf_iftable _ _ WF _ _ _ Hs Hin) as (ic & ? & ? & _). congruence.
Qed.

Lemma assignable_to_object d : assignable object d object -> proper d -> False.
Proof.
  intros H Hp. destruct (wf_object _ _ WF) as (o & Ho & Hoc & _ & Ha).
  remember object as s eqn:Hs in H at 2. destruct H; subst; simplify_eq.
  - by destruct Hp.
  - by destruct Hp.
  - by eapply proper_not_interface.
  - unfold IsObjectClass in Hoc. apply andb_true_iff in Hoc as [_ Hz%Z.eqb_eq]. congruence.
  - congruence.
Qed.

Lemma assignable_to_array d s cs :
  assignable object d s -> proper d -> classes !! s = Some cs -> IsArrayClass cs = true ->
  d = s \/ exists cd, classes !! d = Some cd /\ IsArrayClass cd = true /\
    assignable object (component_type_ cd) (component_type_ cs).
Proof.
  intros H Hp Hs Ha. destruct (wf_array _ _ WF _ _ Hs Ha) as (Hsup & _).
  destruct H; simplify_eq.
  - by left.
  - by destruct Hp.
  - exfalso. by eapply proper_not_interface.
  - exfalso. rewrite Hsup in *. by eapply assignable_to_object.
  - right. eauto.
Qed.

Lemma assignable_to_interface d s cs :
  assignable object d s -> proper d -> classes !! s = Some cs -> IsInterface cs = true -> d = s.
Proof.
  intros H Hp Hs Hi. destruct (wf_interface _ _ WF _ _ Hs Hi) as (Hsup & _).
  destruct H as [| | |d s c Hc Hn H|d s cd c Hcd Had Hc Hac]; simplify_eq.
  - done.
  - by destruct Hp.
  - exfalso. by eapply proper_not_interface.
  - exfalso. rewrite Hsup in H. by eapply assignable_to_object.
  - destruct (wf_array _ _ WF _ _ Hc Hac) as (_ & ? & _). congruence.
Qed.

Lemma assignable_extends d s cs :
  assignable object d s -> proper d -> classes !! s = Some cs -> IsArrayClass cs = false ->
  extends s d.
Proof.
  intros H Hp. revert cs. induction H as [| | |d s c Hc Hn H IH|]; intros cs' Hs Ha.
  - constructor.
  - by destruct Hp.
  - exfalso. simplify_eq. by eapply proper_not_interface.
  - destruct (wf_super _ _ WF _ _ Hc Hn) as (su & Hsu & _ & _ & Hasu & _).
    eapply extends_super; [exact Hc|done|]. by eapply IH.
  - congruence.
Qed.

(** *** The functions decide the relation *)

Lemma IsSubClass_loop_spec n s cs d :
  classes !! s = Some cs -> (rank s < n)%nat ->
  exists b, IsSubClass_loop n s d = Ok b /\ (b = true <-> extends s d).
Proof.
  revert s cs. induction n as [|n IH]; intros s cs Hs Hn; [lia|]. cbn [IsSubClass_loop].
  destruct (Z.eqb_spec s d) as [->|Hne]; [exists true; split; [done|]; split; [constructor|done]|].
  rewrite (class_at_ok _ _ Hs). cbn. destruct (Z.eqb_spec (super_class_ cs) 0) as [Hz|Hnz].
  - exists false. split; [done|]. split; [done|]. inversion 1; congruence.
  - destruct (wf_super _ _ WF _ _ Hs Hnz) as (su & Hsu & Hlt & _).
    destruct (IH _ _ Hsu ltac:(lia)) as (b & -> & Hb). exists b. split; [done|].
    rewrite Hb. split; [by eapply extends_super|]. inversion 1; simplify_eq; done.
Qed.

Lemma Implements_spec s cs d cd :
  classes !! s = Some cs -> classes !! d = Some cd -> IsInterface cd = true ->
  exists b, Implements s d = Ok b /\ (b = true <-> d ∈ iftable_ cs).
Proof.
  intros Hs Hd Hi. unfold Implements.
  rewrite (proj2 (Z.eqb_neq d 0)) by (by eapply known_nonnull). cbn.
  rewrite (class_at_ok _ _ Hd), (class_at_ok _ _ Hs). cbn. rewrite Hi. cbn.
  eexists. split; [done|]. rewrite existsb_exists.
  setoid_rewrite Z.eqb_eq. setoid_rewrite <- list_elem_of_In.
  split; [by intros (? & ? & ->)|by exists d].
Qed.

Lemma extends_assignable s d : extends s d -> assignable object d s.
Proof. induction 1; [constructor|]. by eapply assignable_super. Qed.

(** The last case of [IsAssignableFrom]: between proper classes. *)
Lemma IsSubClass_spec s cs d :
  classes !! s = Some cs -> IsInterface cs = false -> IsArrayClass cs = false -> proper d ->
  exists b, IsSubClass s d = Ok b /\ (b = true <-> assignable object d s).
Proof.
  intros Hs Hi Ha Hp. unfold IsSubClass. rewrite (class_at_ok _ _ Hs). cbn -[IsSubClass_loop].
  rewrite Hi, Ha. cbn -[IsSubClass_loop].
  destruct (IsSubClass_loop_spec fuel s cs d Hs) as (b & -> & Hb).
  { pose proof (wf_rank _ _ WF _ _ Hs). unfold fuel. lia. }
  exists b. split; [done|]. rewrite Hb.
  split; [apply extends_assignable|]. intros. by eapply assignable_extends.
Qed.

(** The array case, given the decision on the component types. *)
Lemma IsAssignableFromArray_spec rec s cs d cd :
  classes !! s = Some cs -> classes !! d = Some cd -> IsArrayClass cs = true -> proper d ->
  d <> s ->
  (IsArrayClass cd = true -> exists b, rec (component_type_ cd) (component_type_ cs) = Ok b /\
     (b = true <-> assignable object (component_type_ cd) (component_type_ cs))) ->
  exists b, IsAssignableFromArray rec d s = Ok b /\ (b = true <-> assignable object d s).
Proof.
  intros Hs Hd Ha Hp Hne Hrec. unfold IsAssignableFromArray, IsArrayAssignableFromArray.
  rewrite (class_at_ok _ _ Hs), (class_at_ok _ _ Hd). cbn.
  pose proof Hp as (Hno & cd' & Hd' & Hi). rewrite Hd in Hd'. injection Hd' as <-.
  rewrite Hi, Ha. cbn.
  destruct (wf_array _ _ WF _ _ Hs Ha) as (Hsup & _).
  destruct (wf_object _ _ WF) as (o & Ho & Hoc & _).
  unfold IsObjectClass in Hoc. apply andb_true_iff in Hoc as [_ Hoz].
  destruct (IsArrayClass cd) eqn:Had; cbn.
  - destruct (Hrec eq_refl) as (b & -> & Hb). exists b. split; [done|]. rewrite Hb.
    split; [by eapply assignable_array|]. intros H.
    destruct (assignable_to_array _ _ _ H Hp Hs Ha) as [|(? & ? & _ & ?)]; by simplify_eq.
  - rewrite Hsup. rewrite (proj2 (Z.eqb_neq object 0)) by (by eapply known_nonnull). cbn.
    rewrite (class_at_ok _ _ Ho). cbn. rewrite Hoz. cbn.
    rewrite (proj2 (Z.eqb_neq d object)) by done. exists false. split; [done|].
    split; [done|]. intros H.
    destruct (assignable_to_array _ _ _ H Hp Hs Ha) as [|(? & ? & ? & _)]; congruence.
Qed.

Lemma IsAssignableFrom_spec n d cd s cs :
  classes !! d = Some cd -> classes !! s = Some cs -> (rank d < n)%nat ->
  exists b, IsAssignableFrom_depth n d s = Ok b /\ (b = true <-> assignable object d s).
Proof.
  revert d cd s cs. induction n as [|n IH]; intros d cd s cs Hd Hs Hn; [lia|].
  cbn [IsAssignableFrom_depth].
  rewrite (proj2 (Z.eqb_neq s 0)) by (by eapply known_nonnull). cbn.
  destruct (Z.eqb_spec d s) as [->|Hne]; [exists true; split; [done|]; split; [constructor|done]|].
  rewrite (class_at_ok _ _ Hs), (class_at_ok _ _ Hd). cbn.
  destruct (IsObjectClass cd) eqn:Hobj.
  { apply (object_class _ _ Hd) in Hobj as ->. exists (negb (IsPrimitive cs)).
    split; [done|]. destruct (IsPrimitive cs) eqn:Hprim; cbn; split; try done.
    - intros H. by rewrite (assignable_primitive _ _ _ H Hs Hprim) in Hne.
    - intros _. by eapply assignable_object. }
  assert (d <> object) as Hno by (intros ->; by rewrite (proj2 (object_class _ _ Hd)) in Hobj).
  destruct (IsInterface cd) eqn:Hi.
  { destruct (Implements_spec _ _ _ _ Hs Hd Hi) as (b & -> & Hb). exists b. split; [done|].
    rewrite Hb. split; [by eapply assignable_interface|]. intros H.
    destruct (assignable_from_interface _ _ _ H Hd Hi) as [|(? & ? & ?)]; by simplify_eq. }
  assert (proper d) as Hp by (split; eauto).
  destruct (IsArrayClass cs) eqn:Ha.
  { eapply IsAssignableFromArray_spec; try done. intros Had.
    destruct (wf_array _ _ WF _ _ Hd Had) as (_ & _ & _ & e & He & Hlt).
    destruct (wf_array _ _ WF _ _ Hs Ha) as (_ & _ & _ & e' & He' & _).
    eapply IH; [done..|lia]. }
  destruct (IsInterface cs) eqn:His; cbn; [|by eapply IsSubClass_spec].
  exists false. split; [done|]. split; [done|]. intros H.
  by destruct Hne; eapply assignable_to_interface.
Qed.

(** *** Transitivity of the relation *)

Lemma assignable_trans d m s cd cm cs :
  classes !! d = Some cd -> classes !! m = Some cm -> classes !! s = Some cs ->
  assignable object d m -> assignable object m s -> assignable object d s.
Proof.
  intros Hd Hm Hs Hdm Hms. revert d cd cm cs Hd Hm Hs Hdm.
  induction Hms as [k|s c Hc Hprim|m s c Hc Hin|m s c Hc Hn Hms IH|m s cm' cs' Hcm Ham Hcs Has Hms IH];
    intros d cd cm cs Hd Hm Hs Hdm; try (assert (cs = c) as -> by congruence).
  - done.
  - destruct (decide (d = object)) as [->|Hno]; [by eapply assignable_object|].
    destruct (IsInterface cd) eqn:Hi.
    + destruct (assignable_from_interface _ _ _ Hdm Hd Hi) as [|(? & ? & ?)]; [done|].
      simplify_eq. eapply assignable_interface; [done|]. by eapply object_iftable.
    + exfalso. eapply assignable_to_object; [done|]. split; eauto.
  - destruct (wf_iftable _ _ WF _ _ _ Hs Hin) as (ic & Hic & Hi & Hsub).
    assert (cm = ic) as -> by congruence.
    destruct (decide (d = m)) as [->|Hne]; [by eapply assignable_interface|].
    destruct (decide (d = object)) as [->|Hno].
    + eapply assignable_object; [done|]. destruct (IsPrimitive c) eqn:Hprim; [|done].
      destruct (wf_primitive _ _ WF _ _ Hs Hprim) as (_ & _ & Hif). rewrite Hif in Hin. set_solver.
    + destruct (IsInterface cd) eqn:Hid.
      * destruct (assignable_from_interface _ _ _ Hdm Hd Hid) as [|(? & ? & ?)]; [done|].
        simplify_eq. eapply assignable_interface; [done|]. by apply Hsub.
      * destruct Hne. eapply assignable_to_interface; [done| |done..]. split; eauto.
  - destruct (wf_super _ _ WF _ _ Hs Hn) as (su & Hsu & _).
    eapply assignable_super; [done..|]. by eapply IH.
  - assert (cs = cs') as -> by congruence. assert (cm = cm') as -> by congruence.
    destruct (wf_array _ _ WF _ _ Hs Has) as (_ & _ & Hprim & e & He & _).
    destruct (wf_array _ _ WF _ _ Hm Ham) as (_ & _ & _ & e' & He' & _).
    destruct (decide (d = object)) as [->|Hno]; [by eapply assignable_object|].
    destruct (IsInterface cd) eqn:Hid.
    + destruct (assignable_from_interface _ _ _ Hdm Hd Hid) as [->|(cm & Hm' & Hin)].
      * destruct (wf_array _ _ WF _ _ Hm Ham) as (_ & ? & _). congruence.
      * assert (cm = cm') as -> by congruence. eapply assignable_interface; [done|].
        by rewrite (wf_array_interfaces _ _ WF _ _ _ _ Hs Hm Has Ham).
    + destruct (assignable_to_array _ _ _ Hdm ltac:(split; eauto) Hm Ham)
        as [->|(cd' & Hd' & Had & Hcomp)]; [by eapply assignable_array|].
      assert (cd' = cd) as -> by congruence. destruct (wf_array _ _ WF _ _ Hd Had) as (_ & _ & _ & e'' & He'' & _).
      eapply assignable_array; [done..|]. by eapply IH.
Qed.
End WellFormed.
End Assignability.

(** ** Theorems *)

(** C32: on every hierarchy the class linker can build, [IsAssignableFrom] returns
    (neither the superclass loop nor the recursion on component types runs out,
    no debug check fails) and answers true exactly when the Java assignment rules
    allow the store. *)
Theorem IsAssignableFrom_correct classes object rank this src :
  classes_wf classes object rank ->
  is_Some (classes !! this) -> is_Some (classes !! src) ->
  exists b, IsAssignableFrom classes this src = Ok b /\
    (b = true <-> assignable classes object this src).
Proof.
  intros WF [c Hc] [s Hs]. eapply IsAssignableFrom_spec; [done..|].
  pose proof (wf_rank _ _ _ WF _ _ Hc). unfold fuel. lia.
Qed.

(** Assignability is transitive: what [IsAssignableFrom] lets flow from [c]
    to [b] and from [b] to [a], it lets flow from [c] to [a] (superclasses,
    interfaces, array covariance and the root class mixed in any way). *)
Theorem IsAssignableFrom_transitive classes object rank a b c :
  classes_wf classes object rank ->
  is_Some (classes !! a) -> is_Some (classes !! b) -> is_Some (classes !! c) ->
  IsAssignableFrom classes a b = Ok true ->
  IsAssignableFrom classes b c = Ok true ->
  IsAssignableFrom classes a c = Ok true.
Proof.
  intros WF [ca Ha] [cb Hb] [cc Hc] Hab Hbc.
  assert (forall k ck, classes !! k = Some ck -> (rank k < fuel classes)%nat) as Hf.
  { intros k ck Hk. pose proof (wf_rank _ _ _ WF _ _ Hk). unfold fuel. lia. }
  unfold IsAssignableFrom in *.
  destruct (IsAssignableFrom_spec _ _ _ WF (fuel classes) a ca b cb) as (r1 & E1 & H1); eauto.
  destruct (IsAssignableFrom_spec _ _ _ WF (fuel classes) b cb c cc) as (r2 & E2 & H2); eauto.
  destruct (IsAssignableFrom_spec _ _ _ WF (fuel classes) a ca c cc) as (r & -> & H3); eauto.
  rewrite Hab in E1. rewrite Hbc in E2. injection E1 as <-. injection E2 as <-.
  f_equal. apply H3. 
  eapply (assignable_trans _ _ _ WF a b c ca cb cc Ha Hb Hc); [by apply H1|by apply H2].
Qed.

(** A hierarchy: [Object], the interfaces [Cloneable] and [Comparable],
    [String implements Comparable], [Object[]], [String[]], [int], [int[]] and
    [String[][]]. *)
Definition sample_class_list : list (Z * Class) :=
  [ (1, MkClass 0x1 kPrimNot 0 0 []);
    (2, MkClass 0x601 kPrimNot 1 0 []);
    (3, MkClass 0x601 kPrimNot 1 0 []);
    (4, MkClass 0x11 kPrimNot 1 0 [3]);
    (5, MkClass 0x411 kPrimNot 1 1 [2]);
    (6, MkClass 0x411 kPrimNot 1 4 [2]);
    (7, MkClass 0x411 kPrimInt 0 0 []);
    (8, MkClass 0x411 kPrimNot 1 7 [2]);
    (9, MkClass 0x411 kPrimNot 1 6 [2]);
    (10, MkClass 0x411 kPrimFloat 0 0 []);
    (11, MkClass 0x411 kPrimNot 1 10 [2]) ].
Definition sample_classes : gmap Z Class := list_to_map sample_class_list.
Definition sample_rank (k : Z) : nat := Z.to_nat k.

Lemma sample_classes_cases k c : sample_classes !! k = Some c -> (k, c) ∈ sample_class_list.
Proof. apply elem_of_list_to_map_2. Qed.

Ltac sample_cases :=
  repeat match goal with
  | H : sample_classes !! _ = Some _ |- _ =>
      apply sample_classes_cases in H; unfold sample_class_list in H;
      rewrite !elem_of_cons, elem_of_nil in H; destruct_or! H; try done; injection H as -> ->
  end;
  try done.

Lemma sample_classes_wf : classes_wf sample_classes 1 sample_rank.
Proof.
  split.
  - intros k c Hk. sample_cases; vm_compute; lia.
  - intros c Hk. vm_compute in Hk. done.
  - eexists. split; [reflexivity|]. done.
  - intros k c Hk. sample_cases.
  - intros k c Hk Hn. sample_cases;
      eexists; (split; [reflexivity|]); (split; [vm_compute; lia|]); (split_and!; try done);
      intros ?; cbn; by rewrite elem_of_nil.
  - intros k c Hk Ha. sample_cases;
      (split_and!; [done..|]); eexists; (split; [reflexivity|]); vm_compute; lia.
  - intros k c k' c' Hk Hk' Ha Ha'. sample_cases.
  - intros k c Hk Hi. sample_cases.
  - intros k c Hk Hi. sample_cases.
  - intros k c i Hk Hi. sample_cases; cbn in Hi; rewrite ?elem_of_cons, elem_of_nil in Hi;
      destruct_or? Hi; try done; subst;
      eexists; (split; [reflexivity|]); (split; [done|]); intros ?; cbn; by rewrite elem_of_nil.
Qed.

Example IsAssignableFrom_correct_witness :
  exists b, IsAssignableFrom sample_classes 5 9 = Ok b /\
    (b = true <-> assignable sample_classes 1 5 9).
Proof.
  apply (IsAssignableFrom_correct sample_classes 1 sample_rank 5 9);
    [apply sample_classes_wf|by eexists..].
Defined.

Example IsAssignableFrom_transitive_witness : IsAssignableFrom sample_classes 5 9 = Ok true.
Proof.
  apply (IsAssignableFrom_transitive sample_classes 1 sample_rank 5 5 9);
    [apply sample_classes_wf|by eexists..|vm_compute; reflexivity|vm_compute; reflexivity].
Defined.
