(* ===== verification/Heap.v ===== *)
(** * Objects, arrays and transactions

    Models the object layer the interpreter works on: the field accessors of
    [mirror::Object] (runtime/mirror/object-inl.h), [mirror::Array],
    [PrimitiveArray] and [ObjectArray] (array.h, array-inl.h,
    object_array-inl.h), and the write log of [Transaction]
    (runtime/transaction.{h,cc}).  [World] is the state of the running thread and
    of the runtime it can touch.  Object memory is a byte image per object, laid
    out as the runtime lays it out: the class at offset 0, the monitor at 4, an
    array's length at 8 and its elements from [DataOffset].

    Single-threaded: the fences of volatile accesses order nothing here and are
    left out; whether an access is volatile is kept where it is recorded.
    References are addresses that stay put (no moving collector).  The log of
    interned strings is not modelled.

    Debug checks on an object's class, and dereferences of an address that holds
    no object, are the fault [BadReference]; all other debug checks are
    [CheckFailed]. *)

From S2P Require Import Prelude Memory ClassHierarchy Float.

(** ** State *)

Inductive FieldValueKind : Type :=
  | kBoolean | kByte | kChar | kShort | k32Bits | k64Bits | kReference.

#[export] Instance FieldValueKind_eq_dec : EqDecision FieldValueKind.
Proof. solve_decision. Defined.

Record FieldValue : Type := MkFieldValue {
  value : Z;
  kind : FieldValueKind;
  is_volatile : bool;
}.

Record Transaction : Type := MkTransaction {
  object_logs_ : gmap Z (gmap Z FieldValue);
  array_logs_ : gmap Z (gmap Z Z);
}.

Definition empty_transaction : Transaction := MkTransaction ∅ ∅.

(** What the instrumentation and the collector observe of a run. *)
Inductive event : Type :=
  | AllowThreadSuspension
  | MethodEnterEvent (this dex_pc : Z)
  | MethodExitEvent (this dex_pc result : Z)
  | MethodUnwindEvent (this dex_pc : Z)
  | DexPcMovedEvent (this dex_pc : Z)
  | ExceptionCaughtEvent (dex_pc exception : Z)
  | FieldReadEvent (this dex_pc field : Z)
  | FieldWriteEvent (this dex_pc field value : Z)
  | ThreadFenceForConstructor.

(** [exception] is the pending exception of the thread, 0 for none;
    [shadow_frame_under_construction] is the chain of frames being filled for a
    call, named by their methods, the innermost first; [transaction] is
    [Runtime::preinitialization_transaction_]. *)
Record World : Type := MkWorld {
  heap : gmap Z (list Z);
  exception : Z;
  exception_reported : bool;
  shadow_frame_under_construction : list Z;
  transaction : option Transaction;
  trace : list event;
}.

Definition with_heap (w : World) (h : gmap Z (list Z)) : World :=
  MkWorld h (exception w) (exception_reported w) (shadow_frame_under_construction w)
    (transaction w) (trace w).
Definition with_exception (w : World) (e : Z) (reported : bool) : World :=
  MkWorld (heap w) e reported (shadow_frame_under_construction w) (transaction w) (trace w).
Definition with_construction (w : World) (l : list Z) : World :=
  MkWorld (heap w) (exception w) (exception_reported w) l (transaction w) (trace w).
Definition with_transaction (w : World) (t : option Transaction) : World :=
  MkWorld (heap w) (exception w) (exception_reported w) (shadow_frame_under_construction w)
    t (trace w).
Definition with_trace (w : World) (t : list event) : World :=
  MkWorld (heap w) (exception w) (exception_reported w) (shadow_frame_under_construction w)
    (transaction w) t.

Abbreviation rt := (M World).

Definition emit (e : event) : rt unit := modify (fun w => with_trace w (trace w ++ [e])).
Definition dcheck (b : bool) : rt unit := lift (check b).
(** A debug check on the class of an object. *)
Definition dcheck_class (b : bool) : rt unit :=
  lift (if b then Ok tt else Fault BadReference).
Definition IsExceptionPending : rt bool := gets (fun w => negb (exception w =? 0)).
Definition IsActiveTransaction : rt bool := gets (fun w => bool_decide (is_Some (transaction w))).

(** The exceptions the modelled code raises, with what their messages need. *)
Inductive throw : Type :=
  | ThrowArrayIndexOutOfBoundsException (index length : Z)
  | ThrowArrayStoreException (object array : Z)
  | ThrowNullPointerException
  | ThrowNullPointerExceptionFromDexPC
  | ThrowNullPointerExceptionForFieldAccess (field : Z) (is_read : bool)
  | ThrowNullPointerExceptionForMethodAccess (method_idx : Z)
  | ThrowArithmeticExceptionDivideByZero
  | ThrowClassCastException (dest actual : Z)
  | ThrowNegativeArraySizeException (length : Z)
  | ThrowRuntimeException
  | ThrowInternalError
  | ThrowAbstractMethodError (method : Z)
  | ThrowVirtualMachineError.

(** ** Objects *)

(** The image of an object; the null pointer and addresses without an object
    have none. *)
Definition image (obj : Z) : rt (list Z) :=
  h ← gets heap;
  lift (match h !! obj with Some mem => Ok mem | None => Fault BadReference end).

(** [Object::GetField<kSize>] and [Object::SetField<kSize>], unsigned. *)
Definition GetField (n : nat) (obj off : Z) : rt Z :=
  mem ← image obj; lift (load n mem off).
Definition SetField (n : nat) (obj off v : Z) : rt unit :=
  mem ← image obj;
  mem ← lift (store n mem off v);
  modify (fun w => with_heap w (<[obj := mem]> (heap w))).

Definition GetClass (obj : Z) : rt Z := GetField 4 obj 0.

Definition kind_size (k : FieldValueKind) : nat :=
  match k with
  | kBoolean | kByte => 1
  | kChar | kShort => 2
  | k32Bits | kReference => 4
  | k64Bits => 8
  end.

(** The C++ type of each kind of field access, applied to the bits read. *)
Definition of_kind (k : FieldValueKind) (v : Z) : Z :=
  match k with
  | kBoolean => uint8 v | kByte => int8 v | kChar => uint16 v | kShort => int16 v
  | k32Bits => int32 v | k64Bits => int64 v | kReference => uint32 v
  end.

Section Objects.
Context (classes : gmap Z Class) (ThrowNew : throw -> rt unit).

Definition class_of (obj : Z) : rt Class := k ← GetClass obj; lift (class_at classes k).

Definition IsArrayInstance (obj : Z) : rt bool := c ← class_of obj; mret (IsArrayClass c).
Definition component_of (obj : Z) : rt Class :=
  c ← class_of obj; lift (class_at classes (component_type_ c)).
Definition IsObjectArray (obj : Z) : rt bool :=
  a ← IsArrayInstance obj;
  if a : bool then e ← component_of obj; mret (negb (IsPrimitive e)) else mret false.

Definition InstanceOf (obj klass : Z) : rt bool :=
  dcheck_class (negb (klass =? 0));;
  k ← GetClass obj;
  dcheck_class (negb (k =? 0));;
  lift (IsAssignableFrom classes klass k).

Definition VerifierInstanceOf (obj klass : Z) : rt bool :=
  dcheck_class (negb (klass =? 0));;
  k ← GetClass obj;
  dcheck_class (negb (k =? 0));;
  c ← lift (class_at classes klass);
  if IsInterface c then mret true else InstanceOf obj klass.

(** *** Recording writes *)

(** [object_logs_[obj]] of a [std::map], which inserts an empty log. *)
Definition LogValue_field (k : FieldValueKind) (off v : Z) (vol : bool)
    (log : gmap Z FieldValue) : gmap Z FieldValue :=
  match log !! off with
  | None => <[off := MkFieldValue (uint64 v) k vol]> log
  | Some _ => log
  end.

Definition LogValue_array (index v : Z) (log : gmap Z Z) : gmap Z Z :=
  match log !! index with
  | None => <[index := uint64 v]> log
  | Some _ => log
  end.

Definition active_transaction : rt Transaction :=
  t ← gets transaction;
  lift (match t with Some t => Ok t | None => Fault CheckFailed end).

Definition RecordWriteField (k : FieldValueKind) (obj off v : Z) (vol : bool) : rt unit :=
  t ← active_transaction;
  dcheck (negb (obj =? 0));;
  let log := default ∅ (object_logs_ t !! obj) in
  modify (fun w => with_transaction w (Some
    (MkTransaction (<[obj := LogValue_field k off v vol log]> (object_logs_ t)) (array_logs_ t)))).

Definition RecordWriteArray (array index v : Z) : rt unit :=
  t ← active_transaction;
  dcheck (negb (array =? 0));;
  a ← IsArrayInstance array; dcheck a;;
  o ← IsObjectArray array; dcheck (negb o);;
  let log := default ∅ (array_logs_ t !! array) in
  modify (fun w => with_transaction w (Some
    (MkTransaction (object_logs_ t) (<[array := LogValue_array index v log]> (array_logs_ t))))).

(** *** Fields *)

(** [GetFieldBoolean] ... [GetField64], [GetFieldObject]. *)
Definition GetFieldKind (k : FieldValueKind) (obj off : Z) : rt Z :=
  v ← GetField (kind_size k) obj off; mret (of_kind k v).

(** [SetFieldBoolean<kTransactionActive>] ... [SetField64<kTransactionActive>]. *)
Definition SetFieldKind (kTransactionActive vol : bool) (k : FieldValueKind) (obj off v : Z)
    : rt unit :=
  active ← IsActiveTransaction;
  dcheck (eqb kTransactionActive active);;
  (if kTransactionActive then
     old ← GetFieldKind k obj off; RecordWriteField k obj off old vol
   else mret tt);;
  SetField (kind_size k) obj off v.

(** [SetFieldObject<kTransactionActive>]: the old reference is always recorded as
    volatile. *)
Definition SetFieldObject (kTransactionActive : bool) (obj off v : Z) : rt unit :=
  SetFieldKind kTransactionActive true kReference obj off v.

(** *** Arrays *)

Definition LengthOffset : Z := 8.
Definition GetLength (array : Z) : rt Z := v ← GetField 4 array LengthOffset; mret (int32 v).

Definition RoundUp (x n : Z) : Z := Z.land (x + n - 1) (- n).
Definition IsPowerOfTwo (x : Z) : bool := Z.land x (x - 1) =? 0.

Definition DataOffset (component_size : Z) : res Z :=
  check (IsPowerOfTwo component_size);;
  let data_offset := RoundUp 12 component_size in
  check (RoundUp data_offset component_size =? data_offset);;
  Ok data_offset.

Definition CheckIsValidIndex (array index : Z) : rt bool :=
  len ← GetLength array;
  if uint32 index >=? uint32 len then
    ThrowNew (ThrowArrayIndexOutOfBoundsException index len);; mret false
  else mret true.

(** The element type [T] of [PrimitiveArray<T>], as the field kind of the same C++
    type; [float] and [double] elements are only reached as bits. *)
Definition element_offset (k : FieldValueKind) (i : Z) : rt Z :=
  base ← lift (DataOffset (Z.of_nat (kind_size k)));
  mret (base + i * Z.of_nat (kind_size k)).

Definition GetWithoutChecks (k : FieldValueKind) (array i : Z) : rt Z :=
  ok ← CheckIsValidIndex array i; dcheck ok;;
  off ← element_offset k i;
  GetFieldKind k array off.

Definition SetWithoutChecks (kTransactionActive : bool) (k : FieldValueKind) (array i v : Z)
    : rt unit :=
  active ← IsActiveTransaction;
  dcheck (eqb kTransactionActive active);;
  (if kTransactionActive then
     old ← GetWithoutChecks k array i; RecordWriteArray array i old
   else mret tt);;
  ok ← CheckIsValidIndex array i; dcheck ok;;
  off ← element_offset k i;
  SetField (kind_size k) array off v.

(** [AsBooleanArray], [AsIntArray], ...: the component type must be one of the
    types that share the representation. *)
Definition as_array_of (types : list Primitive_Type) (obj : Z) : rt unit :=
  a ← IsArrayInstance obj; dcheck_class a;;
  e ← component_of obj; dcheck_class (bool_decide (primitive_type_ e ∈ types)).

Definition AsBooleanArray : Z -> rt unit := as_array_of [kPrimBoolean].
Definition AsByteArray : Z -> rt unit := as_array_of [kPrimByte].
Definition AsCharArray : Z -> rt unit := as_array_of [kPrimChar].
Definition AsShortArray : Z -> rt unit := as_array_of [kPrimShort].
Definition AsIntArray : Z -> rt unit := as_array_of [kPrimInt; kPrimFloat].
Definition AsLongArray : Z -> rt unit := as_array_of [kPrimLong; kPrimDouble].
Definition AsFloatArray : Z -> rt unit := as_array_of [kPrimFloat].
Definition AsDoubleArray : Z -> rt unit := as_array_of [kPrimDouble].
Definition AsObjectArray (obj : Z) : rt unit :=
  o ← IsObjectArray obj; dcheck_class o.

Definition as_element_array (k : FieldValueKind) : Z -> rt unit :=
  match k with
  | kBoolean => AsBooleanArray
  | kByte => AsByteArray
  | kChar => AsCharArray
  | kShort => AsShortArray
  | k32Bits => AsIntArray
  | k64Bits => AsLongArray
  | kReference => AsObjectArray
  end.

(** [ObjectArray<Object>] *)
Definition CheckAssignable (array object : Z) : rt bool :=
  if negb (object =? 0) then
    c ← class_of array;
    ok ← InstanceOf object (component_type_ c);
    if ok : bool then mret true
    else ThrowNew (ThrowArrayStoreException object array);; mret false
  else mret true.

Definition ObjectArray_GetWithoutChecks (array i : Z) : rt Z :=
  ok ← CheckIsValidIndex array i; dcheck ok;;
  off ← element_offset kReference i;
  GetFieldKind kReference array off.

Definition ObjectArray_SetWithoutChecks (kTransactionActive : bool) (array i object : Z)
    : rt unit :=
  ok ← CheckIsValidIndex array i; dcheck ok;;
  ok ← CheckAssignable array object; dcheck_class ok;;
  off ← element_offset kReference i;
  SetFieldObject kTransactionActive array off object.

(** *** Rolling a transaction back *)

Definition UndoFieldWrite (obj off : Z) (fv : FieldValue) : rt unit :=
  SetFieldKind false (is_volatile fv) (kind fv) obj off
    (match kind fv with kBoolean => Z.b2z (negb (value fv =? 0)) | k => of_kind k (value fv) end).

Definition ObjectLog_Undo (obj : Z) (field_values : list (Z * FieldValue)) : rt unit :=
  fold_right (fun '(off, fv) rest =>
    (if off =? 0 then mret tt
     else
       a ← IsArrayInstance obj;
       if a && (off =? LengthOffset) then mret tt else UndoFieldWrite obj off fv);; rest)
    (mret tt) field_values.

(** [static_cast<float>(uint64_t)] converts the number; the bits of the result are
    what the array then holds. *)
Definition UndoArrayWrite (array : Z) (array_type : Primitive_Type) (index v : Z) : rt unit :=
  match array_type with
  | kPrimBoolean => AsBooleanArray array;; SetWithoutChecks false kBoolean array index (uint8 v)
  | kPrimByte => AsByteArray array;; SetWithoutChecks false kByte array index (int8 v)
  | kPrimChar => AsCharArray array;; SetWithoutChecks false kChar array index (uint16 v)
  | kPrimShort => AsShortArray array;; SetWithoutChecks false kShort array index (int16 v)
  | kPrimInt => AsIntArray array;; SetWithoutChecks false k32Bits array index (int32 v)
  | kPrimFloat =>
      AsFloatArray array;; SetWithoutChecks false k32Bits array index (fp_of_int float v)
  | kPrimLong => AsLongArray array;; SetWithoutChecks false k64Bits array index (int64 v)
  | kPrimDouble =>
      AsDoubleArray array;; SetWithoutChecks false k64Bits array index (fp_of_int double v)
  | kPrimNot | kPrimVoid => lift (Fault Fatal)
  end.

Definition ArrayLog_Undo (array : Z) (array_values : list (Z * Z)) : rt unit :=
  dcheck (negb (array =? 0));;
  a ← IsArrayInstance array; dcheck a;;
  e ← component_of array;
  fold_right (fun '(index, v) rest => UndoArrayWrite array (primitive_type_ e) index v;; rest)
    (mret tt) array_values.

(** The logs are [std::map]s, walked in the order of their keys; the entries name
    different slots, and the walk of a finite map here is in an order of its own. *)
Definition UndoObjectModifications (t : Transaction) : rt unit :=
  fold_right (fun '(obj, log) rest => ObjectLog_Undo obj (map_to_list log);; rest)
    (mret tt) (map_to_list (object_logs_ t)).

Definition UndoArrayModifications (t : Transaction) : rt unit :=
  fold_right (fun '(array, log) rest => ArrayLog_Undo array (map_to_list log);; rest)
    (mret tt) (map_to_list (array_logs_ t)).

Definition Abort (t : Transaction) : rt unit :=
  active ← IsActiveTransaction; dcheck (negb active);;
  pending ← IsExceptionPending; dcheck (negb pending);;
  UndoObjectModifications t;;
  UndoArrayModifications t.
End Objects.
