(* ===== verification/Transactions.v ===== *)
(** * What a transaction rolls back

    Facts on the object layer, and the correctness of [Transaction] for writes to
    arrays of integral element type: [Abort] gives every object its old
    contents.  Arrays of [float] and [double] are different: the interpreter
    writes and records their elements as bits, and the rollback converts the
    recorded number, so it does not restore them; a theorem shows it. *)

From S2P Require Import Prelude Memory ClassHierarchy Heap Float.

(** ** Accesses to objects *)

Lemma image_ok obj w mem w' :
  image obj w = Ok (mem, w') <-> w' = w /\ heap w !! obj = Some mem.
Proof.
  unfold image. split.
  - intros H. inv_M. subst. case_match; by inv_res.
  - intros [-> H]. unfold mbind, M_bind, gets, lift. by rewrite H.
Qed.

Lemma GetField_ok n obj off w v w' :
  GetField n obj off w = Ok (v, w') <->
  w' = w /\ exists mem, heap w !! obj = Some mem /\ load n mem off = Ok v.
Proof.
  unfold GetField. rewrite M_bind_ok. setoid_rewrite image_ok. setoid_rewrite lift_ok.
  naive_solver.
Qed.

Lemma SetField_ok n obj off v w u w' :
  SetField n obj off v w = Ok (u, w') <->
  exists mem mem', heap w !! obj = Some mem /\ store n mem off v = Ok mem' /\
    w' = with_heap w (<[obj := mem']> (heap w)).
Proof.
  unfold SetField. rewrite M_bind_ok. setoid_rewrite image_ok. setoid_rewrite M_bind_ok.
  setoid_rewrite lift_ok. setoid_rewrite modify_ok. destruct u. naive_solver.
Qed.

Section Accesses.
Context (classes : gmap Z Class) (ThrowNew : throw -> rt unit).

(** The class and the length of an object, as functions of the heap. *)
Definition hclass (h : gmap Z (list Z)) (obj : Z) : option Class :=
  mem ← h !! obj;
  match load 4 mem 0 with Ok k => classes !! k | Fault _ => None end.
Definition hlength (h : gmap Z (list Z)) (obj : Z) : option Z :=
  mem ← h !! obj;
  match load 4 mem LengthOffset with Ok v => Some (int32 v) | Fault _ => None end.

Definition of_option {A} (o : option A) (w : World) : res (A * World) :=
  match o with Some a => Ok (a, w) | None => Fault BadReference end.

Lemma class_of_eq obj w : class_of classes obj w = of_option (hclass (heap w) obj) w.
Proof.
  unfold class_of, GetClass, GetField, image, hclass, class_at, mbind, M_bind, gets, lift.
  destruct (heap w !! obj) as [mem|]; cbn; [|done].
  destruct (load 4 mem 0) as [k|f] eqn:El; cbn; [by destruct (classes !! k)|].
  unfold load in El. case_match; by simplify_eq.
Qed.

Lemma GetLength_eq obj w : GetLength obj w = of_option (hlength (heap w) obj) w.
Proof.
  unfold GetLength, GetField, image, hlength, mbind, M_bind, gets, lift.
  destruct (heap w !! obj) as [mem|]; cbn; [|done].
  destruct (load 4 mem _) as [k|f] eqn:El; cbn; [done|].
  unfold load in El. case_match; by simplify_eq.
Qed.

(** The class of the elements of an array. *)
Definition helement (h : gmap Z (list Z)) (obj : Z) : option Class :=
  c ← hclass h obj; if IsArrayClass c then classes !! component_type_ c else None.

Lemma IsArrayInstance_eq obj w :
  IsArrayInstance classes obj w = of_option (IsArrayClass <$> hclass (heap w) obj) w.
Proof.
  unfold IsArrayInstance, mbind, M_bind. rewrite class_of_eq. by destruct (hclass _ _).
Qed.

Lemma component_of_eq obj w :
  component_of classes obj w =
  of_option (c ← hclass (heap w) obj; classes !! component_type_ c) w.
Proof.
  unfold component_of, mbind, M_bind, lift, class_at. rewrite class_of_eq.
  destruct (hclass _ _) as [c|]; cbn; [|done]. by destruct (classes !! _).
Qed.

Lemma as_array_of_eq types array w :
  as_array_of classes types array w =
  match helement (heap w) array with
  | Some e => if decide (primitive_type_ e ∈ types) then Ok (tt, w) else Fault BadReference
  | None => Fault BadReference
  end.
Proof.
  unfold as_array_of, mbind, M_bind, dcheck_class, lift.
  rewrite IsArrayInstance_eq. unfold helement.
  destruct (hclass (heap w) array) as [c|] eqn:Hc; cbn; [|done].
  destruct (IsArrayClass c) eqn:Ha; cbn; [|done].
  rewrite component_of_eq, Hc. cbn. destruct (classes !! _) as [e|]; cbn; [|done].
  case_decide; [by rewrite bool_decide_eq_true_2|by rewrite bool_decide_eq_false_2].
Qed.

Lemma IsObjectArray_eq array w e :
  helement (heap w) array = Some e ->
  IsObjectArray classes array w = Ok (negb (IsPrimitive e), w).
Proof.
  unfold helement, IsObjectArray, mbind, M_bind. rewrite IsArrayInstance_eq.
  destruct (hclass (heap w) array) as [c|] eqn:Hc; cbn; [|done].
  destruct (IsArrayClass c); [|done]. intros He. by rewrite component_of_eq, Hc; cbn; rewrite He.
Qed.

(** An index the debug check accepts. *)
Definition valid_index (h : gmap Z (list Z)) (array i : Z) : Prop :=
  exists len, hlength h array = Some len /\ uint32 i < uint32 len.

Lemma index_checked {A} array i (f : rt A) w r :
  (ok ← CheckIsValidIndex ThrowNew array i; dcheck ok;; f) w = Ok r <->
  valid_index (heap w) array i /\ f w = Ok r.
Proof.
  unfold CheckIsValidIndex, valid_index, mbind, M_bind, dcheck, lift. rewrite GetLength_eq.
  destruct (hlength _ _) as [len|]; cbn; [|naive_solver].
  rewrite Z.geb_leb. destruct (Z.leb_spec (uint32 len) (uint32 i)); cbn.
  - split; [|intros [(? & [= <-] & ?) _]; lia].
    by destruct (ThrowNew _ w) as [[[] w1]|].
  - naive_solver lia.
Qed.

(** Where the elements of an array start, and one of them. *)
Definition data_offset (k : FieldValueKind) : Z := match k with k64Bits => 16 | _ => 12 end.
Definition slot (k : FieldValueKind) (i : Z) : Z :=
  data_offset k + i * Z.of_nat (kind_size k).

Lemma element_offset_eq k i w : element_offset k i w = Ok (slot k i, w).
Proof. by destruct k. Qed.

Lemma GetWithoutChecks_ok k array i w v w' :
  GetWithoutChecks ThrowNew k array i w = Ok (v, w') <->
  w' = w /\ valid_index (heap w) array i /\
  exists mem b, heap w !! array = Some mem /\ load (kind_size k) mem (slot k i) = Ok b /\
    v = of_kind k b.
Proof.
  unfold GetWithoutChecks. rewrite index_checked.
  unfold mbind at 1, M_bind at 1. rewrite element_offset_eq. unfold GetFieldKind.
  rewrite M_bind_ok. setoid_rewrite GetField_ok. setoid_rewrite mret_ok. naive_solver.
Qed.

(** A write outside a transaction. *)
Lemma SetWithoutChecks_plain k array i v w mem mem' :
  transaction w = None -> valid_index (heap w) array i ->
  heap w !! array = Some mem -> store (kind_size k) mem (slot k i) v = Ok mem' ->
  SetWithoutChecks classes ThrowNew false k array i v w =
  Ok (tt, with_heap w (<[array := mem']> (heap w))).
Proof.
  intros Ht Hv Hm Hs. unfold SetWithoutChecks, IsActiveTransaction.
  unfold mbind at 1, M_bind at 1, gets at 1. rewrite Ht. cbn [is_Some].
  change (bool_decide (is_Some None)) with false.
  unfold mbind at 1, M_bind at 1. cbn [eqb dcheck lift check].
  unfold mbind at 1, M_bind at 1. cbn.
  apply index_checked. split; [done|].
  unfold mbind at 1, M_bind at 1. rewrite element_offset_eq.
  apply SetField_ok. eauto.
Qed.

Lemma helement_array h obj e : helement h obj = Some e -> IsArrayClass <$> hclass h obj = Some true.
Proof. unfold helement. destruct (hclass h obj) as [c|]; cbn; [|done]. by destruct (IsArrayClass c). Qed.

Lemma RecordWriteArray_ok array index v w u w' e :
  helement (heap w) array = Some e ->
  RecordWriteArray classes array index v w = Ok (u, w') ->
  exists t, transaction w = Some t /\ array <> 0 /\ IsPrimitive e = true /\
    w' = with_transaction w (Some (MkTransaction (object_logs_ t)
      (<[array := LogValue_array index v (default ∅ (array_logs_ t !! array))]> (array_logs_ t)))).
Proof.
  intros He. unfold RecordWriteArray, active_transaction, dcheck, lift, gets.
  unfold mbind, M_bind. destruct (transaction w) as [t|]; cbn; [|done].
  destruct (Z.eqb_spec array 0); cbn; [done|].
  rewrite IsArrayInstance_eq, (helement_array _ _ _ He). cbn.
  rewrite (IsObjectArray_eq _ _ _ He). cbn. destruct (IsPrimitive e); cbn; [|done].
  intros [= <- <-]. eauto.
Qed.

(** A write inside a transaction: the old value is logged first. *)
Lemma SetWithoutChecks_logged k array i v w u w' e :
  helement (heap w) array = Some e ->
  SetWithoutChecks classes ThrowNew true k array i v w = Ok (u, w') ->
  exists t mem b mem',
    transaction w = Some t /\ valid_index (heap w) array i /\ array <> 0 /\
    IsPrimitive e = true /\ heap w !! array = Some mem /\
    load (kind_size k) mem (slot k i) = Ok b /\ store (kind_size k) mem (slot k i) v = Ok mem' /\
    heap w' = <[array := mem']> (heap w) /\ exception w' = exception w /\
    transaction w' = Some (MkTransaction (object_logs_ t)
      (<[array := LogValue_array i (of_kind k b) (default ∅ (array_logs_ t !! array))]>
         (array_logs_ t))).
Proof.
  intros He H. unfold SetWithoutChecks in H.
  apply M_bind_ok in H as (act & w1 & H1 & H). apply gets_ok in H1 as [-> ->].
  apply M_bind_ok in H as (? & w1 & H1 & H). apply lift_ok in H1 as [_ ->].
  apply M_bind_ok in H as (? & w1 & H1 & H).
  apply M_bind_ok in H1 as (old & w2 & H1 & H2).
  apply GetWithoutChecks_ok in H1 as (-> & Hv & mem & b & Hm & Hl & ->).
  destruct (RecordWriteArray_ok _ _ _ _ _ _ _ He H2) as (t & Ht & Hn & Hp & ->).
  apply index_checked in H as [_ H]. apply M_bind_ok in H as (off & w2 & Ho & H).
  rewrite element_offset_eq in Ho. injection Ho as <- <-.
  apply SetField_ok in H as (mem1 & mem' & Hm1 & Hs & ->). cbn in Hm1. simplify_eq.
  exists t, mem, b, mem'. done.
Qed.

(** ** Sequences of writes in a transaction *)

Fixpoint transactional_writes (ops : list (FieldValueKind * Z * Z * Z)) : rt unit :=
  match ops with
  | [] => mret tt
  | (k, array, i, v) :: ops =>
      as_element_array classes k array;;
      SetWithoutChecks classes ThrowNew true k array i v;;
      transactional_writes ops
  end.

(** The representation of the element types whose rollback is exact. *)
Definition integral_kind (t : Primitive_Type) : option FieldValueKind :=
  match t with
  | kPrimBoolean => Some kBoolean
  | kPrimByte => Some kByte
  | kPrimChar => Some kChar
  | kPrimShort => Some kShort
  | kPrimInt => Some k32Bits
  | kPrimLong => Some k64Bits
  | _ => None
  end.

(** Images hold bytes, arrays have a length. *)
Record heap_wf (h : gmap Z (list Z)) : Prop := {
  hw_bytes obj mem : h !! obj = Some mem -> bytes mem;
  hw_length array e len : helement h array = Some e -> hlength h array = Some len -> 0 <= len;
}.

(** Two images agree on the header, and on size. *)
Definition same_header (mem0 mem : list Z) : Prop :=
  length mem = length mem0 /\ forall p, (p < 12)%nat -> mem !! p = mem0 !! p.

Lemma same_header_load mem0 mem off :
  same_header mem0 mem -> 0 <= off <= 8 -> load 4 mem off = load 4 mem0 off.
Proof.
  intros [Hl Hp] Ho. apply load_ext; [done|]. intros p Hp4. apply Hp. lia.
Qed.

(** [h] is [h0] but for the data of its arrays. *)
Definition same_objects (h0 h : gmap Z (list Z)) : Prop :=
  forall a, match h0 !! a, h !! a with
            | Some mem0, Some mem => same_header mem0 mem
            | None, None => True
            | _, _ => False
            end.

Lemma same_objects_class h0 h a : same_objects h0 h -> hclass h a = hclass h0 a.
Proof.
  intros H. specialize (H a). unfold hclass. destruct (h0 !! a), (h !! a); try done; cbn.
  by rewrite (same_header_load _ _ _ H) by lia.
Qed.

Lemma same_objects_length h0 h a : same_objects h0 h -> hlength h a = hlength h0 a.
Proof.
  intros H. specialize (H a). unfold hlength. destruct (h0 !! a), (h !! a); try done; cbn.
  by rewrite (same_header_load _ _ _ H) by (unfold LengthOffset; lia).
Qed.

Lemma same_objects_element h0 h a : same_objects h0 h -> helement h a = helement h0 a.
Proof. intros H. unfold helement. by rewrite (same_objects_class _ _ _ H). Qed.

Lemma same_objects_index h0 h a i :
  same_objects h0 h -> valid_index h a i <-> valid_index h0 a i.
Proof. intros H. unfold valid_index. by rewrite (same_objects_length _ _ _ H). Qed.

Lemma slot_nonneg k i : 0 <= i -> 12 <= slot k i.
Proof. unfold slot. destruct k; cbn; lia. Qed.

Lemma same_objects_store h0 h a mem mem' k i v :
  same_objects h0 h -> h !! a = Some mem -> 0 <= i ->
  store (kind_size k) mem (slot k i) v = Ok mem' ->
  same_objects h0 (<[a := mem']> h).
Proof.
  intros H Hm Hi Hs a'. specialize (H a').
  destruct (decide (a = a')) as [<-|Hne]; [|by rewrite lookup_insert_ne by done].
  rewrite lookup_insert_eq. rewrite Hm in H. destruct (h0 !! a) as [mem0|]; [|done].
  destruct H as [Hl Hp]. split; [by rewrite (store_length _ _ _ _ _ Hs)|].
  intros p Hlt. rewrite (store_lookup _ _ _ _ _ _ Hs).
  pose proof (slot_nonneg k i Hi). rewrite decide_False by lia. auto.
Qed.

Definition in_slot (k : FieldValueKind) (i : Z) (p : nat) : Prop :=
  slot k i <= Z.of_nat p < slot k i + Z.of_nat (kind_size k).

Lemma in_slot_unique k i j p : in_slot k i p -> in_slot k j p -> i = j.
Proof. unfold in_slot, slot. destruct k; cbn; lia. Qed.

(** Bytes differ from the old image only inside the slots [S]. *)
Definition differs_in (k : FieldValueKind) (S : Z -> Prop) (mem0 mem : list Z) : Prop :=
  forall p, mem !! p <> mem0 !! p -> exists i, S i /\ in_slot k i p.

Lemma differs_in_store k S mem0 mem i v mem' :
  0 <= i -> differs_in k S mem0 mem -> store (kind_size k) mem (slot k i) v = Ok mem' ->
  differs_in k (fun j => j = i \/ S j) mem0 mem'.
Proof.
  intros Hi Hd Hs p. rewrite (store_lookup _ _ _ _ _ _ Hs).
  pose proof (slot_nonneg k i Hi). case_decide as Hp; intros Hne.
  - exists i. split; [by left|]. unfold in_slot. lia.
  - destruct (Hd p Hne) as (j & ? & ?). exists j. eauto.
Qed.

(** Storing the old bytes of a slot takes it out of the difference. *)
Lemma differs_in_restore k S mem0 mem i v mem' :
  0 <= i -> differs_in k S mem0 mem ->
  store (kind_size k) mem0 (slot k i) v = Ok mem0 ->
  store (kind_size k) mem (slot k i) v = Ok mem' ->
  differs_in k (fun j => S j /\ j <> i) mem0 mem'.
Proof.
  intros Hi Hd H0 Hs p. rewrite (store_lookup _ _ _ _ _ _ Hs).
  rewrite (store_lookup _ _ _ _ _ p H0).
  pose proof (slot_nonneg k i Hi). case_decide as Hp; intros Hne; [done|].
  destruct (Hd p Hne) as (j & ? & Hj). exists j. split; [|done]. split; [done|].
  intros ->. unfold in_slot in Hj. lia.
Qed.

Lemma of_kind_bytes k b :
  to_bytes (kind_size k) (of_kind k (uint64 (of_kind k b))) = to_bytes (kind_size k) b.
Proof.
  rewrite <- (to_bytes_wrapU _ b), <- to_bytes_wrapU. f_equal.
  destruct k; cbn [kind_size of_kind Z.of_nat Pos.of_succ_nat Pos.succ Z.mul Pos.mul];
    int_lia.
Qed.

Lemma store_same_bytes n mem off v v' :
  to_bytes n v = to_bytes n v' -> store n mem off v = store n mem off v'.
Proof. unfold store. by intros ->. Qed.

(** What holds between the heap [h0] at the start of the transaction and the heap
    [h] later: every byte that differs is in a slot that the log covers, and the
    log has the old contents of the slots it covers. *)
Record rollback_inv (h0 : gmap Z (list Z)) (t : Transaction) (h : gmap Z (list Z)) : Prop := {
  ri_fields : object_logs_ t = ∅;
  ri_objects : same_objects h0 h;
  ri_log a log : array_logs_ t !! a = Some log ->
    a <> 0 /\ exists e k mem0, helement h0 a = Some e /\
      integral_kind (primitive_type_ e) = Some k /\ h0 !! a = Some mem0 /\
      forall i v, log !! i = Some v -> 0 <= i /\ valid_index h0 a i /\
        store (kind_size k) mem0 (slot k i) (of_kind k v) = Ok mem0;
  ri_diff a mem0 mem : h0 !! a = Some mem0 -> h !! a = Some mem ->
    mem = mem0 \/ exists e k log, helement h0 a = Some e /\
      integral_kind (primitive_type_ e) = Some k /\ array_logs_ t !! a = Some log /\
      differs_in k (fun i => is_Some (log !! i)) mem0 mem;
}.

Lemma as_element_array_integral k array w u w' e k' :
  as_element_array classes k array w = Ok (u, w') ->
  helement (heap w) array = Some e -> integral_kind (primitive_type_ e) = Some k' ->
  w' = w /\ k = k'.
Proof.
  intros H He Hk. destruct (decide (k = kReference)) as [->|Hne].
  - exfalso. cbn in H. unfold AsObjectArray in H.
    apply M_bind_ok in H as (o & w1 & H1 & H2). rewrite (IsObjectArray_eq _ _ _ He) in H1.
    injection H1 as <- <-. apply lift_ok in H2 as [H2 _]. unfold IsPrimitive in H2.
    rewrite bool_decide_eq_false_2 in H2; [done|]. intros Heq. by rewrite Heq in Hk.
  - assert (exists types, as_element_array classes k = as_array_of classes types /\
      forall t, t ∈ types -> integral_kind t = Some k' -> k = k') as (types & Heq & Ht).
    { destruct k; try done; (eexists; split; [reflexivity|]); intros t;
        rewrite !elem_of_cons, elem_of_nil; intros Hin; destruct_or! Hin; subst; cbn; congruence. }
    rewrite Heq, as_array_of_eq, He in H. case_decide; [|done]. injection H as _ <-. eauto.
Qed.

(** The image of an array the log does not cover at index [i] still has the old
    value there. *)
Lemma unlogged_slot k (S : Z -> Prop) mem0 mem i :
  length mem = length mem0 -> differs_in k S mem0 mem -> ~ S i ->
  load (kind_size k) mem (slot k i) = load (kind_size k) mem0 (slot k i).
Proof.
  intros Hl Hd Hn. apply load_ext; [done|]. intros p Hp.
  destruct (decide (mem !! p = mem0 !! p)) as [|Hne]; [done|].
  destruct (Hd p Hne) as (j & Hj & Hjp).
  assert (i = j) as ->; [|done]. by eapply in_slot_unique.
Qed.

Lemma valid_index_nonneg h array e i :
  heap_wf h -> helement h array = Some e -> valid_index h array i -> fitsS 32 i -> 0 <= i.
Proof.
  intros Hwf He (len & Hl & Hi) Hf. pose proof (hw_length _ Hwf _ _ _ He Hl).
  assert (len < 2 ^ 31).
  { revert Hl. unfold hlength. destruct (h !! array) as [mem|]; cbn; [|done].
    case_match; [|done]. intros [= <-]. apply int32_range. }
  revert Hi Hf. unfold fitsS. unfold uint32, wrapU. intros.
  destruct (Z.lt_ge_cases i 0); [|done]. exfalso.
  rewrite (Z.mod_small len) in Hi by lia.
  rewrite <- (Z.mod_add i 1), (Z.mod_small (i + _)) in Hi by lia. lia.
Qed.

(** The new log of an array after a write to slot [i]. *)
Lemma rollback_inv_write h0 t h a e k i v mem b mem' :
  heap_wf h0 -> rollback_inv h0 t h ->
  helement h0 a = Some e -> integral_kind (primitive_type_ e) = Some k -> a <> 0 ->
  valid_index h0 a i -> 0 <= i -> h !! a = Some mem ->
  load (kind_size k) mem (slot k i) = Ok b -> store (kind_size k) mem (slot k i) v = Ok mem' ->
  rollback_inv h0
    (MkTransaction (object_logs_ t)
       (<[a := LogValue_array i (of_kind k b) (default ∅ (array_logs_ t !! a))]> (array_logs_ t)))
    (<[a := mem']> h).
Proof.
  intros Hwf [Hf Ho Hlog Hdiff] He Hk Hn Hv Hi Hm Hl Hs.
  pose proof (Ho a) as Ha. rewrite Hm in Ha. destruct (h0 !! a) as [mem0|] eqn:Hm0; [|done].
  set (log := default ∅ (array_logs_ t !! a)).
  assert (differs_in k (fun j => is_Some (log !! j)) mem0 mem) as Hd.
  { destruct (Hdiff a mem0 mem Hm0 Hm) as [->|(e' & k' & log' & ? & ? & Hlg & ?)];
      [by intros p []|].
    unfold log. rewrite Hlg. cbn. by simplify_eq. }
  assert (forall j u, log !! j = Some u -> 0 <= j /\ valid_index h0 a j /\
    store (kind_size k) mem0 (slot k j) (of_kind k u) = Ok mem0) as Hold.
  { unfold log. destruct (array_logs_ t !! a) as [log'|] eqn:Hlg; cbn; [|done].
    destruct (Hlog _ _ Hlg) as (_ & e' & k' & m' & ? & ? & ? & Hu). simplify_eq. done. }
  assert (forall j u, LogValue_array i (of_kind k b) log !! j = Some u -> 0 <= j /\
    valid_index h0 a j /\ store (kind_size k) mem0 (slot k j) (of_kind k u) = Ok mem0) as Hnew.
  { unfold LogValue_array. destruct (log !! i) as [x|] eqn:Hlgi; [done|].
    intros j u. destruct (decide (i = j)) as [<-|Hne];
      [|by rewrite lookup_insert_ne by done; apply Hold].
    rewrite lookup_insert_eq. intros [= <-]. split_and!; [done..|].
    rewrite (store_same_bytes _ _ _ _ b) by apply of_kind_bytes.
    apply store_load_id; [by eapply hw_bytes|]. rewrite <- Hl. symmetry.
    eapply unlogged_slot; [apply Ha|exact Hd|]. intros [? ?]. congruence. }
  assert (forall j, j = i \/ is_Some (log !! j) ->
    is_Some (LogValue_array i (of_kind k b) log !! j)) as Hcov.
  { intros j. unfold LogValue_array. destruct (log !! i) as [x|] eqn:Hlgi.
    - intros [->|?]; [by rewrite Hlgi|done].
    - destruct (decide (i = j)) as [<-|Hne]; [by rewrite lookup_insert_eq|].
      rewrite lookup_insert_ne by done. by intros [->|?]. }
  split; cbn.
  - done.
  - by eapply same_objects_store.
  - intros a' log' Hlg. destruct (decide (a = a')) as [<-|Hne].
    + rewrite lookup_insert_eq in Hlg. injection Hlg as <-. split; [done|]. by exists e, k, mem0.
    + rewrite lookup_insert_ne in Hlg by done. by apply Hlog.
  - intros a' m0 m H0 H1. destruct (decide (a = a')) as [<-|Hne].
    + rewrite lookup_insert_eq in H1. injection H1 as <-. assert (m0 = mem0) as -> by congruence.
      right. exists e, k, (LogValue_array i (of_kind k b) log). rewrite lookup_insert_eq.
      split_and!; [done..|]. intros p Hp.
      destruct (differs_in_store _ _ _ _ _ _ _ Hi Hd Hs p Hp) as (j & ? & ?). eauto.
    + rewrite lookup_insert_ne in H1 by done. rewrite lookup_insert_ne by done. by apply Hdiff.
Qed.

Lemma transactional_writes_inv h0 ops t w w' u :
  heap_wf h0 -> rollback_inv h0 t (heap w) -> transaction w = Some t ->
  Forall (fun '(k, array, i, v) => fitsS 32 i /\ exists e k', helement h0 array = Some e /\
    integral_kind (primitive_type_ e) = Some k') ops ->
  transactional_writes ops w = Ok (u, w') ->
  exists t', transaction w' = Some t' /\ rollback_inv h0 t' (heap w') /\
    exception w' = exception w.
Proof.
  intros Hwf. revert t w. induction ops as [|[[[k a] i] v] ops IH]; intros t w Hinv Ht HF H.
  { injection H as <- <-. eauto. }
  apply Forall_cons in HF as [[Hfit (e & k' & He & Hk)] HF']. cbn in H.
  apply M_bind_ok in H as (? & w1 & H1 & H). apply M_bind_ok in H as (? & w2 & H2 & H).
  pose proof (same_objects_element _ _ a (ri_objects _ _ _ Hinv)) as Hel.
  destruct (as_element_array_integral _ _ _ _ _ e k' H1) as [-> ->]; [by rewrite Hel|done|].
  destruct (SetWithoutChecks_logged _ _ _ _ _ _ _ e ltac:(by rewrite Hel) H2)
    as (t1 & mem & b & mem' & Ht1 & Hv & Hn & Hp & Hm & Hl & Hs & Hh & Hexc & Htr).
  rewrite Ht in Ht1. injection Ht1 as <-.
  apply (same_objects_index _ _ _ _ (ri_objects _ _ _ Hinv)) in Hv.
  assert (0 <= i) as Hi by (by eapply valid_index_nonneg).
  pose proof (rollback_inv_write _ _ _ _ _ _ _ _ _ _ _ Hwf Hinv He Hk Hn Hv Hi Hm Hl Hs) as Hinv2.
  rewrite <- Hh in Hinv2. destruct (IH _ w2 Hinv2 Htr HF' H) as (t' & ? & ? & Hex).
  exists t'. split_and!; [done..|congruence].
Qed.

(** ** The rollback *)

Lemma UndoArrayWrite_integral a e k i v w mem mem' :
  helement (heap w) a = Some e -> integral_kind (primitive_type_ e) = Some k ->
  transaction w = None -> valid_index (heap w) a i -> heap w !! a = Some mem ->
  store (kind_size k) mem (slot k i) (of_kind k v) = Ok mem' ->
  UndoArrayWrite classes ThrowNew a (primitive_type_ e) i v w =
  Ok (tt, with_heap w (<[a := mem']> (heap w))).
Proof.
  intros He Hk Ht Hv Hm Hs.
  assert (forall types x, primitive_type_ e ∈ types -> x = of_kind k v ->
    (as_array_of classes types a;; SetWithoutChecks classes ThrowNew false k a i x) w =
    Ok (tt, with_heap w (<[a := mem']> (heap w)))) as Hgo.
  { intros types x Hin ->. unfold mbind, M_bind. rewrite as_array_of_eq, He.
    rewrite decide_True by done. by eapply SetWithoutChecks_plain. }
  destruct (primitive_type_ e) eqn:Hpe; cbn in Hk; try done; injection Hk as <-;
    apply Hgo; try done; set_solver.
Qed.

(** The part of the loop in [ArrayLog::Undo] over the entries [l]. *)
Lemma undo_entries h0 a e k mem0 l w mem :
  heap_wf h0 -> helement h0 a = Some e -> integral_kind (primitive_type_ e) = Some k ->
  h0 !! a = Some mem0 ->
  (forall i v, (i, v) ∈ l -> 0 <= i /\ valid_index h0 a i /\
     store (kind_size k) mem0 (slot k i) (of_kind k v) = Ok mem0) ->
  transaction w = None -> same_objects h0 (heap w) -> heap w !! a = Some mem ->
  differs_in k (fun i => i ∈ l.*1) mem0 mem ->
  fold_right (fun '(index, v) rest =>
      UndoArrayWrite classes ThrowNew a (primitive_type_ e) index v;; rest) (mret tt) l w =
  Ok (tt, with_heap w (<[a := mem0]> (heap w))).
Proof.
  intros Hwf He Hk Hm0. revert w mem. induction l as [|[i v] l IH]; intros w mem Hl Ht Ho Hm Hd.
  { assert (mem = mem0) as ->.
    { apply list_eq. intros p. destruct (decide (mem !! p = mem0 !! p)) as [|Hne]; [done|].
      destruct (Hd p Hne) as (j & Hj & _). by apply elem_of_nil in Hj. }
    rewrite insert_id by done. by destruct w. }
  destruct (Hl i v) as (Hi & Hv & Hs0); [set_solver|].
  assert (same_header mem0 mem) as [Hlen _] by (pose proof (Ho a) as H; by rewrite Hm0, Hm in H).
  destruct (store_total (kind_size k) mem (slot k i) (of_kind k v)) as [mem1 Hs1].
  { apply store_ok in Hs0 as [[? ?] _]. lia. }
  { apply store_ok in Hs0 as [[? ?] _]. lia. }
  cbn [fold_right]. unfold mbind at 1, M_bind at 1.
  assert (helement (heap w) a = Some e) as Hel by (by rewrite (same_objects_element _ _ _ Ho)).
  apply (same_objects_index _ _ _ _ Ho) in Hv.
  rewrite (UndoArrayWrite_integral _ _ _ _ _ _ _ _ Hel Hk Ht Hv Hm Hs1).
  rewrite (IH _ mem1); cbn.
  - by rewrite insert_insert_eq.
  - intros j u Hj. apply Hl. set_solver.
  - done.
  - by eapply same_objects_store.
  - by rewrite lookup_insert_eq.
  - intros p Hp. destruct (differs_in_restore _ _ _ _ _ _ _ Hi Hd Hs0 Hs1 p Hp) as (j & [Hj Hne] & ?).
    exists j. split; [|done]. cbn in Hj. set_solver.
Qed.

Lemma ArrayLog_Undo_restores h0 a log e k mem0 w mem :
  heap_wf h0 -> a <> 0 -> helement h0 a = Some e -> integral_kind (primitive_type_ e) = Some k ->
  h0 !! a = Some mem0 ->
  (forall i v, log !! i = Some v -> 0 <= i /\ valid_index h0 a i /\
     store (kind_size k) mem0 (slot k i) (of_kind k v) = Ok mem0) ->
  transaction w = None -> same_objects h0 (heap w) -> heap w !! a = Some mem ->
  differs_in k (fun i => is_Some (log !! i)) mem0 mem ->
  ArrayLog_Undo classes ThrowNew a (map_to_list log) w =
  Ok (tt, with_heap w (<[a := mem0]> (heap w))).
Proof.
  intros Hwf Hn He Hk Hm0 Hlog Ht Ho Hm Hd. unfold ArrayLog_Undo, dcheck.
  rewrite (proj2 (Z.eqb_neq a 0)) by done. unfold mbind at 1, M_bind at 1. cbn [negb lift check].
  pose proof (same_objects_element _ _ a Ho) as Hel. rewrite He in Hel.
  unfold mbind at 1, M_bind at 1. cbn. unfold mbind at 1, M_bind at 1.
  rewrite IsArrayInstance_eq, (helement_array _ _ _ Hel). cbn.
  unfold mbind at 1, M_bind at 1. cbn. unfold mbind at 1, M_bind at 1.
  unfold helement in Hel. rewrite component_of_eq.
  destruct (hclass (heap w) a) as [c|] eqn:Hc; cbn in Hel |- *; [|done].
  destruct (IsArrayClass c); [|done]. rewrite Hel. cbn.
  eapply undo_entries; try done.
  - intros i v Hin. apply Hlog. by apply elem_of_map_to_list.
  - intros p Hp. destruct (Hd p Hp) as (i & [v Hv] & ?). exists i. split; [|done].
    apply list_elem_of_fmap. exists (i, v). split; [done|]. by apply elem_of_map_to_list.
Qed.

(** What is left to do in [UndoArrayModifications]: the arrays outside the rest
    of the log have their old contents. *)
Lemma undo_arrays h0 l w :
  heap_wf h0 -> transaction w = None -> same_objects h0 (heap w) ->
  (forall a log, (a, log) ∈ l -> a <> 0 /\ exists e k mem0, helement h0 a = Some e /\
     integral_kind (primitive_type_ e) = Some k /\ h0 !! a = Some mem0 /\
     (forall i v, log !! i = Some v -> 0 <= i /\ valid_index h0 a i /\
        store (kind_size k) mem0 (slot k i) (of_kind k v) = Ok mem0) /\
     (forall mem, heap w !! a = Some mem ->
        differs_in k (fun i => is_Some (log !! i)) mem0 mem)) ->
  (forall a, a ∉ l.*1 -> heap w !! a = h0 !! a) -> NoDup l.*1 ->
  fold_right (fun '(array, log) rest =>
      ArrayLog_Undo classes ThrowNew array (map_to_list log);; rest) (mret tt) l w =
  Ok (tt, with_heap w h0).
Proof.
  intros Hwf. revert w. induction l as [|[a log] l IH]; intros w Ht Ho Hl Hrest Hnd.
  { assert (heap w = h0) as <-; [|by destruct w].
    apply map_eq. intros a. apply Hrest. set_solver. }
  cbn in Hnd. apply NoDup_cons in Hnd as [Hnin Hnd].
  destruct (Hl a log) as (Hn & e & k & mem0 & He & Hk & Hm0 & Hlog & Hdiff); [set_solver|].
  pose proof (Ho a) as Hoa. rewrite Hm0 in Hoa. destruct (heap w !! a) as [mem|] eqn:Hm; [|done].
  cbn [fold_right]. unfold mbind at 1, M_bind at 1.
  rewrite (ArrayLog_Undo_restores h0 a log e k mem0 w mem Hwf Hn He Hk Hm0 Hlog Ht Ho Hm)
    by (by apply Hdiff).
  rewrite IH; cbn; [done|done| | |..].
  - intros a'. destruct (decide (a = a')) as [<-|Hne].
    + rewrite lookup_insert_eq, Hm0. by split.
    + rewrite lookup_insert_ne by done. apply Ho.
  - intros a' log' Hin. destruct (Hl a' log') as (Hn' & e' & k' & m' & ? & ? & ? & ? & Hd);
      [set_solver|]. split; [done|]. exists e', k', m'. split_and!; try done.
    intros mem' Hm'. rewrite lookup_insert_ne in Hm'; [by apply Hd|].
    intros <-. apply Hnin. apply list_elem_of_fmap. by exists (a, log').
  - intros a' Ha'. destruct (decide (a = a')) as [<-|Hne]; [by rewrite lookup_insert_eq|].
    rewrite lookup_insert_ne by done. apply Hrest. set_solver.
  - done.
Qed.

Lemma Abort_restores h0 t w :
  heap_wf h0 -> rollback_inv h0 t (heap w) -> transaction w = None -> exception w = 0 ->
  Abort classes ThrowNew t w = Ok (tt, with_heap w h0).
Proof.
  intros Hwf [Hf Ho Hlog Hdiff] Ht He.
  unfold Abort, IsActiveTransaction, IsExceptionPending, UndoObjectModifications.
  rewrite Hf, map_to_list_empty. unfold mbind, M_bind, gets, dcheck, lift. rewrite Ht. cbn. rewrite He. cbn.
  apply undo_arrays; try done.
  - intros a log Hin%elem_of_map_to_list.
    destruct (Hlog a log Hin) as (Hn & e & k & mem0 & ? & ? & Hm0 & ?).
    split; [done|]. exists e, k, mem0. split_and!; try done. intros mem Hm.
    destruct (Hdiff a mem0 mem Hm0 Hm) as [->|(e' & k' & log' & ? & ? & ? & ?)];
      [by intros p []|by simplify_eq].
  - intros a Ha. pose proof (Ho a) as Hoa.
    destruct (heap w !! a) as [mem|] eqn:Hm, (h0 !! a) as [mem0|] eqn:Hm0; try done.
    destruct (Hdiff a mem0 mem Hm0 Hm) as [->|(e' & k' & log' & _ & _ & Hin & _)]; [done|].
    destruct Ha. apply list_elem_of_fmap. exists (a, log'). split; [done|].
    by apply elem_of_map_to_list.
  - apply NoDup_fst_map_to_list.
Qed.
End Accesses.

(** ** Theorems *)


(** An [int[3]] and a [float[2]] holding 1.0 and 0.0, in a transaction. *)
Definition sample_int_array : list Z :=
  to_bytes 4 8 ++ to_bytes 4 0 ++ to_bytes 4 3 ++ to_bytes 4 7 ++ to_bytes 4 8 ++ to_bytes 4 9.
Definition sample_float_array : list Z :=
  to_bytes 4 11 ++ to_bytes 4 0 ++ to_bytes 4 2 ++ to_bytes 4 0x3f800000 ++ to_bytes 4 0.
Definition sample_heap : gmap Z (list Z) :=
  <[100 := sample_int_array]> (<[200 := sample_float_array]> ∅).
Definition sample_world : World :=
  MkWorld sample_heap 0 false [] (Some empty_transaction) [].
Definition sample_throw (t : throw) : rt unit := modify (fun w => with_exception w 999 false).

Lemma sample_heap_wf : heap_wf sample_classes sample_heap.
Proof.
  split.
  - intros obj mem. unfold sample_heap. rewrite !lookup_insert_Some, lookup_empty.
    intros [[_ <-]|[_ [[_ <-]|[_ ?]]]]; [| |done];
      unfold sample_int_array, sample_float_array;
      repeat apply Forall_app_2; apply bytes_to_bytes.
  - intros array e len. unfold helement, hclass, hlength, sample_heap.
    destruct (decide (100 = array)) as [<-|]; [vm_compute; intros _ [= <-]; done|].
    destruct (decide (200 = array)) as [<-|]; [vm_compute; intros _ [= <-]; done|].
    by rewrite !lookup_insert_ne, lookup_empty.
Qed.


(** Arrays of [float] are not restored.  The interpreter stores to them through
    [AsIntArray], so the log records the bits of the old element, and
    [UndoArrayWrite] converts that number to [float]: an element that held 1.0
    (0x3f800000) before the transaction holds 1065353216.0 (0x4e7e0000) after the
    rollback. *)
Theorem transaction_rollback_float :
  exists w t w'',
    transactional_writes sample_classes sample_throw [(k32Bits, 200, 0, 0x40000000)] sample_world
      = Ok (tt, w) /\
    transaction w = Some t /\
    Abort sample_classes sample_throw t (with_transaction w None) = Ok (tt, w'') /\
    fst <$> GetWithoutChecks sample_throw k32Bits 200 0 sample_world = Ok 0x3f800000 /\
    fst <$> GetWithoutChecks sample_throw k32Bits 200 0 w'' = Ok 0x4e7e0000.
Proof.
  do 3 eexists. repeat split; vm_compute; reflexivity.
Qed.
