(* ===== verification/InterpreterCommon.v ===== *)
(** * Support code of the interpreter

    Models runtime/interpreter/interpreter_common.{h,cc}, safe_math.h and the
    routines they lean on: [ArtField] accesses (mirror/art_field-inl.h),
    [ArtMethod::FindCatchBlock] (mirror/art_method.cc), [FillArrayData]
    (entrypoints/entrypoint_utils.cc), [ShadowFrame::GetThisObject] (stack.cc) and
    the frame-under-construction list of the thread (thread.cc).

    [Runtime] is the interface to the rest of the runtime: the linked metadata
    (classes, fields, methods), which does not change while a method runs, the
    listeners that are installed, and the services the interpreter calls (class
    linker, allocator, monitors, exception creation, calls).  Each service is a
    computation over the [World].  The initialisation status of classes is not
    modelled. *)

From S2P Require Import Prelude Modifiers Leb128 DexOpcodes DexInstruction DexCode ShadowFrame Float Memory ClassHierarchy Heap.

(** ** Metadata *)

Record ArtField : Type := MkArtField {
  field_declaring_class_ : Z;
  field_access_flags_ : Z;
  field_offset_ : Z;
  field_type : Primitive_Type;       (**r [GetTypeAsPrimitiveType()] *)
}.

Record ArtMethod : Type := MkArtMethod {
  method_access_flags : Z;
  method_shorty : list Z;            (**r the characters of the shorty, return type first *)
  method_parameters : list Z;        (**r the type indices of [GetParameterTypeList()] *)
  method_code_item : option CodeItem;
  method_is_proxy : bool;
}.

Inductive FindFieldType : Type :=
  | InstanceObjectRead | InstanceObjectWrite | InstancePrimitiveRead | InstancePrimitiveWrite
  | StaticObjectRead | StaticObjectWrite | StaticPrimitiveRead | StaticPrimitiveWrite.

Class Runtime : Type := {
  classes : gmap Z Class;
  fields : gmap Z ArtField;
  methods : gmap Z ArtMethod;
  java_lang_Throwable : Z;
  IsStarted : bool;
  HasMethodEntryListeners : bool;
  HasMethodExitListeners : bool;
  HasDexPcListeners : bool;
  HasFieldReadListeners : bool;
  HasFieldWriteListeners : bool;
  HasExceptionCaughtListeners : bool;
  ThrowNew : throw -> rt unit;
  (** [type access_check field_idx referrer expected_size] *)
  FindFieldFromCode : FindFieldType -> bool -> Z -> Z -> Z -> rt Z;
  (** [type access_check method_idx receiver referrer] *)
  FindMethodFromCode : InvokeType -> bool -> Z -> Z -> Z -> rt Z;
  (** [type_idx referrer can_run_clinit verify_access] *)
  ResolveVerifyAndClinit : Z -> Z -> bool -> bool -> rt Z;
  (** [access_check type_idx method] *)
  AllocObjectFromCode : bool -> Z -> Z -> rt Z;
  (** [access_check type_idx method component_count] *)
  AllocArrayFromCode : bool -> Z -> Z -> Z -> rt Z;
  (** [array_class component_count component_size_shift] *)
  Array_Alloc : Z -> Z -> Z -> rt Z;
  (** [method type_idx], resolving *)
  GetClassFromTypeIndex : Z -> Z -> rt Z;
  GetReturnType : Z -> rt Z;
  ArtField_GetType : Z -> rt Z;
  (** [klass field_offset] *)
  FindInstanceFieldWithOffset : Z -> Z -> rt Z;
  ShouldHaveEmbeddedImtAndVTable : Z -> bool;
  (** [klass vtable_idx] *)
  GetEmbeddedVTableEntry : Z -> Z -> rt Z;
  String_IsInitialized : rt bool;
  String_EnsureInitialized : rt bool;
  (** [method string_idx] *)
  GetDexCacheString : Z -> Z -> rt Z;
  ClassLinker_ResolveString : Z -> Z -> rt Z;
  Monitor_Enter : Z -> rt unit;
  Monitor_Exit : Z -> rt unit;
  (** where the stack walk of [CatchLocationFinder] finds a handler *)
  CatchLocation : Z -> rt Z;
  (** [method frame result]: the call through the method's entry point, and the
      result register afterwards *)
  EntryPointFromInterpreter : Z -> ShadowFrame -> Z -> rt Z;
  (** [method frame result arg_offset] *)
  UnstartedRuntimeInvoke : Z -> ShadowFrame -> Z -> Z -> rt Z;
}.

(** ** The state of an activation *)

Record Interp : Type := MkInterp {
  frame : ShadowFrame;
  result_register : Z;
  notified_method_entry_event : bool;
  world : World;
}.

Definition with_frame (s : Interp) (sf : ShadowFrame) : Interp :=
  MkInterp sf (result_register s) (notified_method_entry_event s) (world s).
Definition with_result (s : Interp) (r : Z) : Interp :=
  MkInterp (frame s) r (notified_method_entry_event s) (world s).
Definition with_notified (s : Interp) (b : bool) : Interp :=
  MkInterp (frame s) (result_register s) b (world s).
Definition with_world (s : Interp) (w : World) : Interp :=
  MkInterp (frame s) (result_register s) (notified_method_entry_event s) w.

Abbreviation interp := (M Interp).

(** Reading and writing the frame, and running a computation of the runtime. *)
Definition read {A} (f : ShadowFrame -> res A) : interp A := sf ← gets frame; lift (f sf).
Definition update (f : ShadowFrame -> res ShadowFrame) : interp unit :=
  sf ← gets frame; sf ← lift (f sf); modify (fun s => with_frame s sf).
Definition run {A} (m : rt A) : interp A :=
  fun s => match m (world s) with Ok (a, w) => Ok (a, with_world s w) | Fault f => Fault f end.

Definition vreg (i : Z) : interp Z := read (fun sf => GetVReg sf i).
Definition vreg_long (i : Z) : interp Z := read (fun sf => GetVRegLong sf i).
Definition vreg_float (i : Z) : interp Z := read (fun sf => GetVRegFloat sf i).
Definition vreg_double (i : Z) : interp Z := read (fun sf => GetVRegDouble sf i).
Definition vreg_reference (i : Z) : interp Z := read (fun sf => GetVRegReference sf i).
Definition set_vreg (i v : Z) : interp unit := update (fun sf => SetVReg sf i v).
Definition set_vreg_long (i v : Z) : interp unit := update (fun sf => SetVRegLong sf i v).
Definition set_vreg_float (i v : Z) : interp unit := update (fun sf => SetVRegFloat sf i v).
Definition set_vreg_double (i v : Z) : interp unit := update (fun sf => SetVRegDouble sf i v).
Definition set_vreg_reference (i v : Z) : interp unit := update (fun sf => SetVRegReference sf i v).

(** ** Arithmetic (safe_math.h) *)

Inductive integral : Type := Int8 | Int16 | Int32 | Int64.
Definition width (t : integral) : Z :=
  match t with Int8 => 8 | Int16 => 16 | Int32 => 32 | Int64 => 64 end.
Definition select_bigger (t1 t2 : integral) : integral :=
  if width t1 >=? width t2 then t1 else t2.

(** Converted to the bigger unsigned type, operated on there, converted back. *)
Definition SafeMath (op : Z -> Z -> Z) (t1 t2 : integral) (a b : Z) : Z :=
  let w := width (select_bigger t1 t2) in
  let val1 := wrapU w (wrapS w a) in
  let val2 := wrapU w b in
  wrapS w (wrapU w (op val1 val2)).

Definition SafeAdd : integral -> integral -> Z -> Z -> Z := SafeMath Z.add.
Definition SafeSub : integral -> integral -> Z -> Z -> Z := SafeMath Z.sub.
Definition SafeMul : integral -> integral -> Z -> Z -> Z := SafeMath Z.mul.

Section Common.
Context {R : Runtime}.

Definition pending : interp bool := run IsExceptionPending.
Definition CHECK (b : bool) : interp unit := lift (check b).
(** A check on the class of an object or the shape of a field or method. *)
Definition CHECK_class (b : bool) : interp unit := run (dcheck_class b).

(** A [mirror::ArtField*] or [mirror::ArtMethod*] followed. *)
Definition field_at (f : Z) : interp ArtField :=
  lift (match fields !! f with Some f => Ok f | None => Fault BadReference end).
Definition method_at (m : Z) : interp ArtMethod :=
  lift (match methods !! m with Some m => Ok m | None => Fault BadReference end).

Definition GetThisObject : interp Z :=
  m ← read GetMethod; m ← method_at m;
  if has_access (method_access_flags m) kAccStatic then mret 0
  else if has_access (method_access_flags m) kAccNative then vreg_reference 0
  else match method_code_item m with
       | None => lift (Fault CheckFailed)
       | Some code_item => vreg_reference (uint16 (registers_size_ code_item - ins_size_ code_item))
       end.

Definition GetThisObject_ins (num_ins : Z) : interp Z :=
  m ← read GetMethod; m ← method_at m;
  if has_access (method_access_flags m) kAccStatic then mret 0
  else n ← gets (fun s => NumberOfVRegs (frame s)); vreg_reference (uint32 (n - num_ins)).

Definition GetCurrentLocationForThrow : interp unit :=
  GetThisObject;; read GetMethod;; mret tt.

Definition ThrowNullPointerExceptionFromInterpreter : interp unit :=
  GetCurrentLocationForThrow;; run (ThrowNew ThrowNullPointerExceptionFromDexPC).

(** *** Division *)

Definition kMinInt : Z := - 2 ^ 31.
Definition kMinLong : Z := - 2 ^ 63.

(** [/] and [%] of C++ on [w] bits: undefined when the divisor is zero and when the
    quotient does not fit. *)
Definition cpp_div (w x y : Z) : res Z :=
  check (negb (y =? 0));; check (negb ((x =? - 2 ^ (w - 1)) && (y =? -1)));; Ok (x ÷ y).
Definition cpp_rem (w x y : Z) : res Z :=
  check (negb (y =? 0));; check (negb ((x =? - 2 ^ (w - 1)) && (y =? -1)));; Ok (Z.rem x y).

Definition DoIntDivide (result_reg dividend divisor : Z) : interp bool :=
  if divisor =? 0 then run (ThrowNew ThrowArithmeticExceptionDivideByZero);; mret false
  else
    (if (dividend =? kMinInt) && (divisor =? -1) then set_vreg result_reg kMinInt
     else q ← lift (cpp_div 32 dividend divisor); set_vreg result_reg q);;
    mret true.

Definition DoIntRemainder (result_reg dividend divisor : Z) : interp bool :=
  if divisor =? 0 then run (ThrowNew ThrowArithmeticExceptionDivideByZero);; mret false
  else
    (if (dividend =? kMinInt) && (divisor =? -1) then set_vreg result_reg 0
     else r ← lift (cpp_rem 32 dividend divisor); set_vreg result_reg r);;
    mret true.

Definition DoLongDivide (result_reg dividend divisor : Z) : interp bool :=
  if divisor =? 0 then run (ThrowNew ThrowArithmeticExceptionDivideByZero);; mret false
  else
    (if (dividend =? kMinLong) && (divisor =? -1) then set_vreg_long result_reg kMinLong
     else q ← lift (cpp_div 64 dividend divisor); set_vreg_long result_reg q);;
    mret true.

Definition DoLongRemainder (result_reg dividend divisor : Z) : interp bool :=
  if divisor =? 0 then run (ThrowNew ThrowArithmeticExceptionDivideByZero);; mret false
  else
    (if (dividend =? kMinLong) && (divisor =? -1) then set_vreg_long result_reg 0
     else r ← lift (cpp_rem 64 dividend divisor); set_vreg_long result_reg r);;
    mret true.

(** *** Fields *)

(** The access each field type is read and written with. *)
Definition field_kind (t : Primitive_Type) : option FieldValueKind :=
  match t with
  | kPrimBoolean => Some kBoolean
  | kPrimByte => Some kByte
  | kPrimChar => Some kChar
  | kPrimShort => Some kShort
  | kPrimInt => Some k32Bits
  | kPrimLong => Some k64Bits
  | kPrimNot => Some kReference
  | _ => None
  end.

(** The types an accessor for [t] accepts: [GetInt] also reads a [float] field as
    bits, [GetLong] a [double] field. *)
Definition accepts (t declared : Primitive_Type) : bool :=
  match t with
  | kPrimInt => bool_decide (declared = kPrimInt \/ declared = kPrimFloat)
  | kPrimLong => bool_decide (declared = kPrimLong \/ declared = kPrimDouble)
  | _ => bool_decide (declared = t)
  end.

Definition field_is_static (f : ArtField) : bool := has_access (field_access_flags_ f) kAccStatic.
Definition field_is_volatile (f : ArtField) : bool :=
  has_access (field_access_flags_ f) kAccVolatile.

(** [DCHECK(object != nullptr); DCHECK(!IsStatic() || object == GetDeclaringClass()
    || !IsStarted())] *)
Definition dcheck_holder (f : ArtField) (object : Z) : rt unit :=
  dcheck_class (negb (object =? 0));;
  dcheck_class (negb (field_is_static f) || (object =? field_declaring_class_ f) || negb IsStarted).

(** [GetBoolean], ..., [GetLong], [GetObject]. *)
Definition ArtField_Get (t : Primitive_Type) (f : ArtField) (object : Z) : rt Z :=
  match field_kind t with
  | None => lift (Fault Fatal)
  | Some k =>
      dcheck_class (accepts t (field_type f));;
      dcheck_holder f object;;
      GetFieldKind k object (field_offset_ f)
  end.

(** [SetBoolean<transaction_active>], ..., [SetLong<transaction_active>], and
    [SetObj<transaction_active>], which does not check the type. *)
Definition ArtField_Set (transaction_active : bool) (t : Primitive_Type) (f : ArtField)
    (object v : Z) : rt unit :=
  match t, field_kind t with
  | _, None => lift (Fault Fatal)
  | kPrimNot, Some _ =>
      dcheck_holder f object;;
      SetFieldObject transaction_active object (field_offset_ f) v
  | _, Some k =>
      dcheck_class (accepts t (field_type f));;
      dcheck_holder f object;;
      SetFieldKind transaction_active (field_is_volatile f) k object (field_offset_ f) (of_kind k v)
  end.

Definition is_static_access (find_type : FindFieldType) : bool :=
  match find_type with
  | StaticObjectRead | StaticObjectWrite | StaticPrimitiveRead | StaticPrimitiveWrite => true
  | _ => false
  end.

(** A value of type [t] into a register. *)
Definition set_typed (t : Primitive_Type) (i v : Z) : interp unit :=
  match t with
  | kPrimBoolean | kPrimByte | kPrimChar | kPrimShort | kPrimInt => set_vreg i v
  | kPrimLong => set_vreg_long i v
  | kPrimNot => set_vreg_reference i v
  | _ => lift (Fault Fatal)
  end.

Definition DoFieldGet (find_type : FindFieldType) (t : Primitive_Type) (do_access_check : bool)
    (inst : Instruction) (inst_data : Z) : interp bool :=
  let is_static := is_static_access find_type in
  field_idx ← lift (if is_static then VRegB_21c inst else VRegC_22c inst);
  method ← read GetMethod;
  f ← run (FindFieldFromCode find_type do_access_check field_idx method (ComponentSize t));
  if f =? 0 then p ← pending; CHECK p;; mret false
  else
    fld ← field_at f;
    obj ← (if is_static then mret (field_declaring_class_ fld)
           else r ← lift (VRegB_22c inst inst_data); vreg_reference r);
    if negb is_static && (obj =? 0) then
      GetCurrentLocationForThrow;;
      run (ThrowNew (ThrowNullPointerExceptionForFieldAccess f true));; mret false
    else
      (if HasFieldReadListeners then
         pc ← gets (fun s => GetDexPC (frame s));
         run (emit (FieldReadEvent (if field_is_static fld then 0 else obj) pc f))
       else mret tt);;
      vregA ← lift (if is_static then VRegA_21c inst inst_data else VRegA_22c inst inst_data);
      v ← run (ArtField_Get t fld obj);
      set_typed t vregA v;;
      mret true.

Definition DoIGetQuick (t : Primitive_Type) (inst : Instruction) (inst_data : Z) : interp bool :=
  r ← lift (VRegB_22c inst inst_data);
  obj ← vreg_reference r;
  if obj =? 0 then ThrowNullPointerExceptionFromInterpreter;; mret false
  else
    field_offset ← lift (VRegC_22c inst);
    (if HasFieldReadListeners then
       k ← run (GetClass obj);
       f ← run (FindInstanceFieldWithOffset k field_offset);
       CHECK_class (negb (f =? 0));;
       fld ← field_at f; CHECK_class (negb (field_is_static fld));;
       pc ← gets (fun s => GetDexPC (frame s));
       run (emit (FieldReadEvent obj pc f))
     else mret tt);;
    vregA ← lift (VRegA_22c inst inst_data);
    match t with
    | kPrimInt => v ← run (GetFieldKind k32Bits obj field_offset); set_vreg vregA v
    | kPrimLong => v ← run (GetFieldKind k64Bits obj field_offset); set_vreg_long vregA v
    | kPrimNot => v ← run (GetFieldKind kReference obj field_offset); set_vreg_reference vregA v
    | _ => lift (Fault Fatal)
    end;;
    mret true.

(** [GetFieldValue<field_type>]: the register as a [JValue]. *)
Definition GetFieldValue (t : Primitive_Type) (r : Z) : interp Z :=
  match t with
  | kPrimBoolean => v ← vreg r; mret (JValue.SetZ 0 (uint8 v))
  | kPrimByte => v ← vreg r; mret (JValue.SetB 0 (int8 v))
  | kPrimChar => v ← vreg r; mret (JValue.SetC 0 (uint16 v))
  | kPrimShort => v ← vreg r; mret (JValue.SetS 0 (int16 v))
  | kPrimInt => v ← vreg r; mret (JValue.SetI 0 v)
  | kPrimLong => v ← vreg_long r; mret (JValue.SetJ 0 v)
  | kPrimNot => v ← vreg_reference r; mret (JValue.SetL 0 v)
  | _ => lift (Fault Fatal)
  end.

(** The register a field of type [t] is written from. *)
Definition get_typed (t : Primitive_Type) (r : Z) : interp Z :=
  match t with
  | kPrimBoolean | kPrimByte | kPrimChar | kPrimShort | kPrimInt => vreg r
  | kPrimLong => vreg_long r
  | kPrimNot => vreg_reference r
  | _ => lift (Fault Fatal)
  end.

Definition DoFieldPut (find_type : FindFieldType) (t : Primitive_Type)
    (do_access_check transaction_active : bool) (inst : Instruction) (inst_data : Z)
    : interp bool :=
  let is_static := is_static_access find_type in
  field_idx ← lift (if is_static then VRegB_21c inst else VRegC_22c inst);
  method ← read GetMethod;
  f ← run (FindFieldFromCode find_type do_access_check field_idx method (ComponentSize t));
  if f =? 0 then p ← pending; CHECK p;; mret false
  else
    fld ← field_at f;
    obj ← (if is_static then mret (field_declaring_class_ fld)
           else r ← lift (VRegB_22c inst inst_data); vreg_reference r);
    if negb is_static && (obj =? 0) then
      GetCurrentLocationForThrow;;
      run (ThrowNew (ThrowNullPointerExceptionForFieldAccess f false));; mret false
    else
      vregA ← lift (if is_static then VRegA_21c inst inst_data else VRegA_22c inst inst_data);
      (if HasFieldWriteListeners then
         field_value ← GetFieldValue t vregA;
         pc ← gets (fun s => GetDexPC (frame s));
         run (emit (FieldWriteEvent (if field_is_static fld then 0 else obj) pc f field_value))
       else mret tt);;
      v ← get_typed t vregA;
      ok ← (if bool_decide (t = kPrimNot) && do_access_check && negb (v =? 0) then
              field_class ← run (ArtField_GetType f);
              run (VerifierInstanceOf classes v field_class)
            else mret true);
      if negb ok then run (ThrowNew ThrowVirtualMachineError);; mret false
      else run (ArtField_Set transaction_active t fld obj v);; mret true.

Definition DoIPutQuick (t : Primitive_Type) (transaction_active : bool) (inst : Instruction)
    (inst_data : Z) : interp bool :=
  r ← lift (VRegB_22c inst inst_data);
  obj ← vreg_reference r;
  if obj =? 0 then ThrowNullPointerExceptionFromInterpreter;; mret false
  else
    field_offset ← lift (VRegC_22c inst);
    vregA ← lift (VRegA_22c inst inst_data);
    (if HasFieldWriteListeners then
       k ← run (GetClass obj);
       f ← run (FindInstanceFieldWithOffset k field_offset);
       CHECK_class (negb (f =? 0));;
       fld ← field_at f; CHECK_class (negb (field_is_static fld));;
       field_value ← GetFieldValue t vregA;
       pc ← gets (fun s => GetDexPC (frame s));
       run (emit (FieldWriteEvent obj pc f field_value))
     else mret tt);;
    v ← get_typed t vregA;
    match field_kind t with
    | None => lift (Fault Fatal)
    | Some kReference => run (SetFieldObject transaction_active obj field_offset v)
    | Some k => run (SetFieldKind transaction_active false k obj field_offset (of_kind k v))
    end;;
    mret true.

(** *** Strings *)

Definition ResolveString (string_idx : Z) : interp Z :=
  initialized ← run String_IsInitialized;
  ok ← (if negb initialized then run String_EnsureInitialized else mret true);
  if negb ok then p ← pending; CHECK p;; mret 0
  else
    method ← read GetMethod;
    s ← run (GetDexCacheString method string_idx);
    if s =? 0 then run (ClassLinker_ResolveString method string_idx) else mret s.

(** *** Switches *)

(** [insns_address] is the address of the first code unit. *)
Definition IsAligned4 (insns_address k : Z) : bool := (insns_address + 2 * k) mod 4 =? 0.

(** Two code units as an [int32_t]. *)
Definition int32_at (i : Instruction) (k : Z) : res Z := w ← Fetch32 i k; Ok (int32 w).

Definition DoPackedSwitch (insns_address : Z) (inst : Instruction) (inst_data : Z) : interp Z :=
  opcode ← lift (Opcode inst); CHECK (bool_decide (opcode = PACKED_SWITCH));;
  offset ← lift (VRegB_31t inst);
  let switch_data := RelativeAt inst offset in
  r ← lift (VRegA_31t inst inst_data);
  test_val ← vreg r;
  ident ← lift (Fetch16 switch_data 0); CHECK (ident =? kPackedSwitchSignature);;
  size ← lift (Fetch16 switch_data 1); CHECK (0 <? size);;
  CHECK (IsAligned4 insns_address (pos switch_data + 2));;
  first_key ← lift (int32_at switch_data 2);
  CHECK (IsAligned4 insns_address (pos switch_data + 4));;
  let index := int32 (test_val - first_key) in
  if (0 <=? index) && (index <? size) then lift (int32_at switch_data (4 + 2 * index))
  else mret 3.

(** The binary search over [keys]. *)
Fixpoint SparseSwitch_loop (fuel : nat) (switch_data : Instruction) (size test_val lo hi : Z)
    : res Z :=
  match fuel with
  | O => Fault OutOfFuel
  | S fuel =>
      if lo <=? hi then
        let mid := (lo + hi) ÷ 2 in
        foundVal ← int32_at switch_data (2 + 2 * mid);
        if test_val <? foundVal then SparseSwitch_loop fuel switch_data size test_val lo (mid - 1)
        else if foundVal <? test_val then
          SparseSwitch_loop fuel switch_data size test_val (mid + 1) hi
        else int32_at switch_data (2 + 2 * size + 2 * mid)
      else Ok 3
  end.

Definition DoSparseSwitch (insns_address : Z) (inst : Instruction) (inst_data : Z) : interp Z :=
  opcode ← lift (Opcode inst); CHECK (bool_decide (opcode = SPARSE_SWITCH));;
  offset ← lift (VRegB_31t inst);
  let switch_data := RelativeAt inst offset in
  r ← lift (VRegA_31t inst inst_data);
  test_val ← vreg r;
  ident ← lift (Fetch16 switch_data 0); CHECK (ident =? kSparseSwitchSignature);;
  size ← lift (Fetch16 switch_data 1); CHECK (0 <? size);;
  CHECK (IsAligned4 insns_address (pos switch_data + 2));;
  CHECK (IsAligned4 insns_address (pos switch_data + 2 + 2 * size));;
  lift (SparseSwitch_loop (S (Z.to_nat size)) switch_data size test_val 0 (size - 1)).

Definition IsBackwardBranch (branch_offset : Z) : bool := branch_offset <=? 0.

(** *** Exceptions *)

Definition GetException : rt Z := gets exception.
Definition SetException (e : Z) : rt unit :=
  dcheck (negb (e =? 0));; modify (fun w => with_exception w e (exception_reported w)).
Definition ClearException : rt unit := modify (fun w => with_exception w 0 false).

(** The loop over the handlers of an address: the address of the first that
    applies. *)
Fixpoint FindCatchBlock_loop (fuel : nat) (method exception_type : Z)
    (it : CatchHandlerIterator.t) : rt Z :=
  match fuel with
  | O => lift (Fault OutOfFuel)
  | S fuel =>
      if negb (CatchHandlerIterator.HasNext it) then mret kDexNoIndex
      else
        let iter_type_idx := CatchHandlerIterator.GetHandlerTypeIndex it in
        if iter_type_idx =? kDexNoIndex16 then mret (CatchHandlerIterator.GetHandlerAddress it)
        else
          iter_exception_type ← GetClassFromTypeIndex method iter_type_idx;
          found ←
            (if iter_exception_type =? 0 then ClearException;; mret false
             else lift (IsAssignableFrom classes iter_exception_type exception_type));
          if found : bool then mret (CatchHandlerIterator.GetHandlerAddress it)
          else
            it ← lift (CatchHandlerIterator.Next it);
            FindCatchBlock_loop fuel method exception_type it
  end.

(** Returns the handler's address and [*has_no_move_exception]. *)
Definition FindCatchBlock (method exception_type dex_pc : Z) : rt (Z * bool) :=
  m ← lift (match methods !! method with Some m => Ok m | None => Fault BadReference end);
  code_item ←
    lift (match method_code_item m with Some c => Ok c | None => Fault BadReference end);
  e ← GetException;
  is_exception_reported ← gets exception_reported;
  ClearException;;
  it ← lift (CatchHandlerIterator.at_address code_item dex_pc);
  found_dex_pc ←
    FindCatchBlock_loop (length (handlers_ code_item) + 2) method exception_type it;
  has_no_move_exception ←
    (if negb (found_dex_pc =? kDexNoIndex) then
       opcode ← lift (Opcode (At (insns_ code_item) found_dex_pc));
       mret (negb (bool_decide (opcode = MOVE_EXCEPTION)))
     else mret false);
  (if negb (e =? 0) then
     SetException e;; modify (fun w => with_exception w (exception w) is_exception_reported)
   else mret tt);;
  mret (found_dex_pc, has_no_move_exception).

Definition FindNextInstructionFollowingException (dex_pc : Z) : interp Z :=
  e ← run GetException;
  reported ← gets (fun s => exception_reported (world s));
  (if negb reported && HasExceptionCaughtListeners then
     catch_pc ← run (CatchLocation e);
     run (emit (ExceptionCaughtEvent catch_pc e));;
     run (modify (fun w => with_exception w (exception w) true))
   else mret tt);;
  exception_class ← run (GetClass e);
  method ← read GetMethod;
  '(found_dex_pc, clear_exception) ← run (FindCatchBlock method exception_class dex_pc);
  if found_dex_pc =? kDexNoIndex then
    this ← GetThisObject; run (emit (MethodUnwindEvent this dex_pc));; mret found_dex_pc
  else
    reported ← gets (fun s => exception_reported (world s));
    (if reported : bool then this ← GetThisObject; run (emit (MethodUnwindEvent this dex_pc))
     else mret tt);;
    (if clear_exception : bool then run ClearException else mret tt);;
    mret found_dex_pc.

(** *** Array data *)

(** The bytes of the code units. *)
Definition code_bytes (code : list Z) : list Z := flat_map (to_bytes 2) code.

(** [payload->data[0 .. n)], read from byte [start] of the code. *)
Definition payload_data (code : list Z) (start n : Z) : res (list Z) :=
  if (start <? 0) || (2 * zlength code <? start + n) then Fault OutOfBounds
  else Ok (take (Z.to_nat n) (drop (Z.to_nat start) (code_bytes code))).

Definition FillArrayData (obj : Z) (payload : Instruction) : rt bool :=
  ident ← lift (Fetch16 payload 0); dcheck (ident =? kArrayDataSignature);;
  if obj =? 0 then ThrowNew ThrowNullPointerException;; mret false
  else
    a ← IsArrayInstance classes obj; dcheck_class a;;
    o ← IsObjectArray classes obj; dcheck_class (negb o);;
    element_width ← lift (Fetch16 payload 1);
    element_count ← lift (Fetch32 payload 2);
    len ← GetLength obj;
    if int32 element_count >? len then
      ThrowNew (ThrowArrayIndexOutOfBoundsException element_count len);; mret false
    else
      let size_in_bytes := uint32 (element_count * element_width) in
      off ← lift (DataOffset element_width);
      data ← lift (payload_data (insns payload) (2 * (pos payload + 4)) size_in_bytes);
      SetField (length data) obj off (from_bytes data);;
      mret true.

(** The loop of [RecordArrayElementsInTransactionImpl]. *)
Fixpoint RecordArrayElements (n : nat) (k : FieldValueKind) (array i : Z) : rt unit :=
  match n with
  | O => mret tt
  | S n =>
      v ← GetWithoutChecks ThrowNew k array i;
      RecordWriteArray classes array i v;;
      RecordArrayElements n k array (i + 1)
  end.

Definition RecordArrayElementsInTransaction (array count : Z) : rt unit :=
  active ← IsActiveTransaction; dcheck active;;
  dcheck (negb (array =? 0));;
  len ← GetLength array; dcheck (count <=? len);;
  e ← component_of classes array;
  let record k := as_element_array classes k array;; RecordArrayElements (Z.to_nat count) k array 0 in
  match primitive_type_ e with
  | kPrimBoolean => record kBoolean
  | kPrimByte => record kByte
  | kPrimChar => record kChar
  | kPrimShort => record kShort
  | kPrimInt | kPrimFloat => record k32Bits
  | kPrimLong | kPrimDouble => record k64Bits
  | kPrimNot | kPrimVoid => lift (Fault Fatal)
  end.

(** *** Calls *)

Definition SetShadowFrameUnderConstruction (method : Z) : rt unit :=
  modify (fun w => with_construction w (method :: shadow_frame_under_construction w)).
Definition ClearShadowFrameUnderConstruction : rt unit :=
  l ← gets shadow_frame_under_construction;
  match l with
  | [] => lift (Fault CheckFailed)
  | _ :: l => modify (fun w => with_construction w l)
  end.

(** A register of the caller into one of the callee's frame. *)
Definition AssignRegister (new_shadow_frame shadow_frame : ShadowFrame) (dest_reg src_reg : Z)
    : res ShadowFrame :=
  v ← GetVReg shadow_frame src_reg;
  let src_value := uint32 v in
  o ← GetVRegReference shadow_frame src_reg;
  if src_value =? o then SetVRegReference new_shadow_frame dest_reg o
  else SetVReg new_shadow_frame dest_reg src_value.

(** The fast path of [DoCall] for a range, [n] registers to go. *)
Fixpoint assign_range (n : nat) (new_shadow_frame shadow_frame : ShadowFrame)
    (dest_reg src_reg : Z) : res ShadowFrame :=
  match n with
  | O => Ok new_shadow_frame
  | S n =>
      nsf ← AssignRegister new_shadow_frame shadow_frame dest_reg src_reg;
      assign_range n nsf shadow_frame (dest_reg + 1) (src_reg + 1)
  end.

(** The fast path for an argument list: [n] nibbles of [regList] from [arg_index]
    on. *)
Fixpoint assign_list (n : nat) (new_shadow_frame shadow_frame : ShadowFrame)
    (first_dest_reg arg_index regList : Z) : res ShadowFrame :=
  match n with
  | O => Ok new_shadow_frame
  | S n =>
      nsf ← AssignRegister new_shadow_frame shadow_frame (first_dest_reg + arg_index)
              (Z.land regList 0x0f);
      assign_list n nsf shadow_frame first_dest_reg (arg_index + 1) (Z.shiftr regList 4)
  end.

(** The state of the slow path's loop: the new frame, or [None] after an early
    [return false]. *)
Fixpoint copy_checked (n : nat) (called_method : Z) (m : ArtMethod) (num_regs : Z)
    (src : Z -> res Z) (nsf : ShadowFrame) (shorty_pos dest_reg arg_offset : Z)
    : interp (option ShadowFrame) :=
  match n with
  | O => if dest_reg <? num_regs then lift (Fault OutOfFuel) else mret (Some nsf)
  | S n =>
      if negb (dest_reg <? num_regs) then mret (Some nsf)
      else
        CHECK_class (shorty_pos + 1 <? zlength (method_shorty m));;
        src_reg ← lift (src arg_offset);
        type ← lift (zget (method_shorty m) (shorty_pos + 1));
        if type =? 76 (* 'L' *) then
          o ← vreg_reference src_reg;
          ok ←
            (if negb (o =? 0) then
               type_idx ← lift (zget (method_parameters m) shorty_pos);
               arg_type ← run (GetClassFromTypeIndex called_method type_idx);
               if arg_type =? 0 then p ← pending; CHECK p;; mret false
               else
                 instance ← run (VerifierInstanceOf classes o arg_type);
                 if instance : bool then mret true
                 else run (ThrowNew ThrowVirtualMachineError);; mret false
             else mret true);
          if negb ok then mret None
          else
            nsf ← lift (SetVRegReference nsf dest_reg o);
            copy_checked n called_method m num_regs src nsf (shorty_pos + 1) (dest_reg + 1)
              (arg_offset + 1)
        else if (type =? 74) || (type =? 68) (* 'J', 'D' *) then
          hi ← vreg (src_reg + 1);
          lo ← vreg src_reg;
          let wide_value := Z.lor (uint64 (Z.shiftl (uint64 hi) 32)) (uint32 lo) in
          nsf ← lift (SetVRegLong nsf dest_reg wide_value);
          copy_checked n called_method m num_regs src nsf (shorty_pos + 1) (dest_reg + 2)
            (arg_offset + 2)
        else
          v ← vreg src_reg;
          nsf ← lift (SetVReg nsf dest_reg v);
          copy_checked n called_method m num_regs src nsf (shorty_pos + 1) (dest_reg + 1)
            (arg_offset + 1)
  end.

(** The slow path: with the checks on reference arguments. *)
Definition copy_slow (is_range : bool) (called_method : Z) (m : ArtMethod) (num_regs num_ins : Z)
    (inst : Instruction) (inst_data : Z) (nsf : ShadowFrame) : interp (option ShadowFrame) :=
  run (SetShadowFrameUnderConstruction called_method);;
  src ←
    lift (if is_range then vregC ← VRegC_3rc inst; Ok (fun k => Ok (vregC + k))
          else arg ← GetVarArgs inst inst_data; Ok (fun k => zget arg k));
  let first_dest_reg := num_regs - num_ins in
  '(nsf, dest_reg, arg_offset) ←
    (if negb (has_access (method_access_flags m) kAccStatic) then
       receiver_reg ← lift (src 0);
       receiver ← vreg_reference receiver_reg;
       nsf ← lift (SetVRegReference nsf first_dest_reg receiver);
       mret (nsf, first_dest_reg + 1, 1)
     else mret (nsf, first_dest_reg, 0));
  o ← copy_checked (Z.to_nat num_ins) called_method m num_regs src nsf 0 dest_reg arg_offset;
  match o with
  | None => mret None
  | Some nsf => run ClearShadowFrameUnderConstruction;; mret (Some nsf)
  end.

(** The fast path. *)
Definition copy_fast (is_range : bool) (num_regs num_ins : Z) (inst : Instruction)
    (inst_data : Z) (nsf : ShadowFrame) : interp ShadowFrame :=
  sf ← gets frame;
  let first_dest_reg := num_regs - num_ins in
  if is_range then
    first_src_reg ← lift (VRegC_3rc inst);
    lift (assign_range (Z.to_nat num_ins) nsf sf first_dest_reg first_src_reg)
  else
    CHECK (num_ins <=? 5);;
    regList ← lift (Fetch16 inst 2);
    nsf ← lift (if num_ins =? 5
                then AssignRegister nsf sf (first_dest_reg + 4) (Z.land (Z.shiftr inst_data 8) 0x0f)
                else Ok nsf);
    lift (assign_list (Z.to_nat (if num_ins =? 5 then 4 else num_ins)) nsf sf first_dest_reg 0 regList).

Definition DoCall (is_range do_assignability_check : bool) (called_method : Z)
    (inst : Instruction) (inst_data : Z) : interp bool :=
  m ← method_at called_method;
  num_ins ← lift (if is_range then VRegA_3rc inst inst_data else VRegA_35c inst inst_data);
  num_regs ←
    match method_code_item m with
    | Some code_item =>
        CHECK_class (num_ins =? ins_size_ code_item);; mret (registers_size_ code_item)
    | None =>
        CHECK_class (has_access (method_access_flags m) kAccNative || method_is_proxy m);; mret num_ins
    end;
  let new_shadow_frame := Create num_regs called_method 0 in
  o ←
    (if do_assignability_check then
       copy_slow is_range called_method m num_regs num_ins inst inst_data new_shadow_frame
     else Some <$> copy_fast is_range num_regs num_ins inst inst_data new_shadow_frame);
  match o with
  | None => mret false
  | Some nsf =>
      result ← gets result_register;
      result ← run (if IsStarted then EntryPointFromInterpreter called_method nsf result
                    else UnstartedRuntimeInvoke called_method nsf result (num_regs - num_ins));
      modify (fun s => with_result s result);;
      p ← pending; mret (negb p)
  end.

Definition DoInvoke (type : InvokeType) (is_range do_access_check : bool) (inst : Instruction)
    (inst_data : Z) : interp bool :=
  method_idx ← lift (if is_range then VRegB_3rc inst else VRegB_35c inst);
  vregC ← lift (if is_range then VRegC_3rc inst else VRegC_35c inst);
  receiver ← (if decide (type = kStatic) then mret 0 else vreg_reference vregC);
  sf_method ← read GetMethod;
  called_method ← run (FindMethodFromCode type do_access_check method_idx receiver sf_method);
  if called_method =? 0 then
    p ← pending; CHECK p;; modify (fun s => with_result s 0);; mret false
  else
    m ← method_at called_method;
    if has_access (method_access_flags m) kAccAbstract then
      run (ThrowNew (ThrowAbstractMethodError called_method));;
      modify (fun s => with_result s 0);; mret false
    else DoCall is_range do_access_check called_method inst inst_data.

Definition DoInvokeVirtualQuick (is_range : bool) (inst : Instruction) (inst_data : Z)
    : interp bool :=
  vregC ← lift (if is_range then VRegC_3rc inst else VRegC_35c inst);
  receiver ← vreg_reference vregC;
  if receiver =? 0 then ThrowNullPointerExceptionFromInterpreter;; mret false
  else
    vtable_idx ← lift (if is_range then VRegB_3rc inst else VRegB_35c inst);
    k ← run (GetClass receiver);
    CHECK_class (ShouldHaveEmbeddedImtAndVTable k);;
    called_method ← run (GetEmbeddedVTableEntry k vtable_idx);
    if called_method =? 0 then
      p ← pending; CHECK p;; modify (fun s => with_result s 0);; mret false
    else
      m ← method_at called_method;
      if has_access (method_access_flags m) kAccAbstract then
        run (ThrowNew (ThrowAbstractMethodError called_method));;
        modify (fun s => with_result s 0);; mret false
      else DoCall is_range false called_method inst inst_data.

(** The loop of [DoFilledNewArray] over the elements from [i] on. *)
Fixpoint fill_elements (n : nat) (transaction_active is_int : bool) (newArray : Z)
    (src : Z -> res Z) (i : Z) : interp unit :=
  match n with
  | O => mret tt
  | S n =>
      src_reg ← lift (src i);
      (if is_int then
         run (AsIntArray classes newArray);;
         v ← vreg src_reg;
         run (SetWithoutChecks classes ThrowNew transaction_active k32Bits newArray i v)
       else
         run (AsObjectArray classes newArray);;
         v ← vreg_reference src_reg;
         run (ObjectArray_SetWithoutChecks classes ThrowNew transaction_active newArray i v));;
      fill_elements n transaction_active is_int newArray src (i + 1)
  end.

Definition DoFilledNewArray (is_range do_access_check transaction_active : bool)
    (inst : Instruction) : interp bool :=
  opcode ← lift (Opcode inst);
  CHECK (bool_decide (opcode = FILLED_NEW_ARRAY \/ opcode = FILLED_NEW_ARRAY_RANGE));;
  length ← lift (if is_range then fetched VRegA_3rc inst else fetched VRegA_35c inst);
  (if is_range then mret tt else CHECK (length <=? 5));;
  if length <? 0 then run (ThrowNew (ThrowNegativeArraySizeException length));; mret false
  else
    type_idx ← lift (if is_range then VRegB_3rc inst else VRegB_35c inst);
    method ← read GetMethod;
    arrayClass ← run (ResolveVerifyAndClinit type_idx method false do_access_check);
    if arrayClass =? 0 then p ← pending; CHECK p;; mret false
    else
      c ← lift (class_at classes arrayClass);
      CHECK_class (IsArrayClass c);;
      componentClass ← lift (class_at classes (component_type_ c));
      let t := primitive_type_ componentClass in
      if IsPrimitive componentClass && negb (bool_decide (t = kPrimInt)) then
        run (ThrowNew (if bool_decide (t = kPrimLong \/ t = kPrimDouble) then ThrowRuntimeException
                       else ThrowInternalError));;
        mret false
      else
        newArray ← run (Array_Alloc arrayClass length (ComponentSizeShift t));
        if newArray =? 0 then p ← pending; CHECK p;; mret false
        else
          src ←
            lift (if is_range then vregC ← VRegC_3rc inst; Ok (fun k => Ok (vregC + k))
                  else d ← Fetch16 inst 0; arg ← GetVarArgs inst d; Ok (fun k => zget arg k));
          fill_elements (Z.to_nat length) transaction_active (bool_decide (t = kPrimInt))
            newArray src 0;;
          modify (fun s => with_result s (JValue.SetL (result_register s) newArray));;
          mret true.
End Common.
