(* ===== verification/InterpreterSwitch.v ===== *)
(** * The switch interpreter

    Models [ExecuteSwitchImpl] (runtime/interpreter/interpreter_switch_impl.cc)
    case by case.  One definition covers a run of neighbouring cases; [execute]
    puts them together, [step] is one turn of the loop and [ExecuteSwitchImpl] the
    loop with a bound on the number of turns.  Cases that differ only in the
    operator or in the type of an access share a definition that takes it.

    The arguments of a call are evaluated from the last to the first where it is
    visible at all (the calls only read the frame). *)

From S2P Require Import Prelude Modifiers Leb128 DexOpcodes DexInstruction DexCode ShadowFrame Float Memory ClassHierarchy Heap InterpreterCommon.

(** Where control goes after an instruction. *)
Inductive outcome : Type :=
  | Goto (i : Instruction)
  | Return (result : Z).

Section ExecuteSwitchImpl.
Context {R : Runtime}.
Context (do_access_check transaction_active : bool) (code_item : CodeItem) (insns_address : Z).

Section Instruction.
Context (inst : Instruction) (inst_data : Z).
Local Abbreviation dex_pc := (GetDexPc inst).

(** ** The macros *)

Definition HANDLE_PENDING_EXCEPTION : interp outcome :=
  p ← pending; CHECK p;;
  run (emit AllowThreadSuspension);;
  found_dex_pc ← FindNextInstructionFollowingException (GetDexPc inst);
  if found_dex_pc =? kDexNoIndex then mret (Return 0)
  else mret (Goto (RelativeAt inst (int32 (int32 found_dex_pc - int32 dex_pc)))).

Definition goto (next : Instruction -> res Instruction) : interp outcome :=
  i ← lift (next inst); mret (Goto i).
Definition next_1xx : interp outcome := goto Next_1xx.
Definition next_2xx : interp outcome := goto Next_2xx.
Definition next_3xx : interp outcome := goto Next_3xx.

Definition POSSIBLY_HANDLE_PENDING_EXCEPTION (is_exception_pending : bool)
    (next : interp outcome) : interp outcome :=
  if is_exception_pending then HANDLE_PENDING_EXCEPTION else next.

Definition dex_pc_moved : interp unit :=
  this ← GetThisObject_ins (ins_size_ code_item);
  read GetMethod;;
  run (emit (DexPcMovedEvent this dex_pc)).

Definition PREAMBLE : interp unit :=
  ret ← lift (IsReturn inst); CHECK (negb ret);;
  notified ← gets notified_method_entry_event;
  if notified : bool then modify (fun s => with_notified s false)
  else if HasDexPcListeners then dex_pc_moved else mret tt.

(** A branch by [offset]: a suspension point unless it leads forward. *)
Definition branch (offset : Z) : interp outcome :=
  (if IsBackwardBranch offset then run (emit AllowThreadSuspension) else mret tt);;
  mret (Goto (RelativeAt inst offset)).

(** The exit hooks of the return instructions; [at_exit] is the value of [inst] by
    then. *)
Definition method_exit (at_exit : Instruction) (result : Z) : interp outcome :=
  (if HasMethodExitListeners then
     this ← GetThisObject_ins (ins_size_ code_item);
     read GetMethod;;
     run (emit (MethodExitEvent this (GetDexPc at_exit) result))
   else if HasDexPcListeners then dex_pc_moved else mret tt);;
  mret (Return result).

(** ** Moves *)

Definition move {A} (get : Z -> interp A) (set : Z -> A -> interp unit) (regA regB : res Z)
    (next : interp outcome) : interp outcome :=
  PREAMBLE;; b ← lift regB; v ← get b; a ← lift regA; set a v;; next.

(** [MOVE_RESULT], [MOVE_RESULT_WIDE], [MOVE_RESULT_OBJECT] *)
Definition move_result (get : Z -> Z) (set : Z -> Z -> interp unit) : interp outcome :=
  PREAMBLE;; v ← gets result_register; a ← lift (VRegA_11x inst inst_data); set a (get v);; next_1xx.

Definition move_exception : interp outcome :=
  PREAMBLE;;
  e ← run GetException;
  a ← lift (VRegA_11x inst inst_data);
  set_vreg_reference a e;;
  run ClearException;;
  next_1xx.

Definition execute_moves (c : Code) : option (interp outcome) :=
  match c with
  | NOP => Some (PREAMBLE;; next_1xx)
  | MOVE => Some (move vreg set_vreg (VRegA_12x inst inst_data) (VRegB_12x inst inst_data) next_1xx)
  | MOVE_FROM16 => Some (move vreg set_vreg (VRegA_22x inst inst_data) (VRegB_22x inst) next_2xx)
  | MOVE_16 => Some (move vreg set_vreg (VRegA_32x inst) (VRegB_32x inst) next_3xx)
  | MOVE_WIDE =>
      Some (move vreg_long set_vreg_long (VRegA_12x inst inst_data) (VRegB_12x inst inst_data)
              next_1xx)
  | MOVE_WIDE_FROM16 =>
      Some (move vreg_long set_vreg_long (VRegA_22x inst inst_data) (VRegB_22x inst) next_2xx)
  | MOVE_WIDE_16 =>
      Some (move vreg_long set_vreg_long (VRegA_32x inst) (VRegB_32x inst) next_3xx)
  | MOVE_OBJECT =>
      Some (move vreg_reference set_vreg_reference (VRegA_12x inst inst_data)
              (VRegB_12x inst inst_data) next_1xx)
  | MOVE_OBJECT_FROM16 =>
      Some (move vreg_reference set_vreg_reference (VRegA_22x inst inst_data) (VRegB_22x inst)
              next_2xx)
  | MOVE_OBJECT_16 =>
      Some (move vreg_reference set_vreg_reference (VRegA_32x inst) (VRegB_32x inst) next_3xx)
  | MOVE_RESULT => Some (move_result JValue.GetI set_vreg)
  | MOVE_RESULT_WIDE => Some (move_result JValue.GetJ set_vreg_long)
  | MOVE_RESULT_OBJECT => Some (move_result JValue.GetL set_vreg_reference)
  | MOVE_EXCEPTION => Some move_exception
  | _ => None
  end.

(** ** Returns *)

(** The assignability check of [RETURN_OBJECT].  [HANDLE_PENDING_EXCEPTION] does not
    leave the case when it finds a handler: it only moves [inst], and control goes
    on behind it. *)
Definition check_returned (ref_idx : Z) : interp outcome :=
  method ← read GetMethod;
  return_type ← run (GetReturnType method);
  obj_result ← vreg_reference ref_idx;
  o ← (if return_type =? 0 then HANDLE_PENDING_EXCEPTION else mret (Goto inst));
  match o with
  | Return r => mret (Return r)
  | Goto i =>
      instance ← run (VerifierInstanceOf classes obj_result return_type);
      if instance : bool then mret (Goto i)
      else run (ThrowNew ThrowVirtualMachineError);; HANDLE_PENDING_EXCEPTION
  end.

Definition return_object : interp outcome :=
  run (emit AllowThreadSuspension);;
  ref_idx ← lift (VRegA_11x inst inst_data);
  obj_result ← vreg_reference ref_idx;
  o ← (if do_access_check && negb (obj_result =? 0) then check_returned ref_idx
       else mret (Goto inst));
  match o with
  | Return r => mret (Return r)
  | Goto i => method_exit i (JValue.SetL 0 obj_result)
  end.

Definition execute_returns (c : Code) : option (interp outcome) :=
  match c with
  | RETURN_VOID =>
      Some ((if do_access_check then run (emit ThreadFenceForConstructor) else mret tt);;
            run (emit AllowThreadSuspension);; method_exit inst 0)
  | RETURN_VOID_BARRIER =>
      Some (run (emit ThreadFenceForConstructor);; run (emit AllowThreadSuspension);; method_exit inst 0)
  | RETURN =>
      Some (a ← lift (VRegA_11x inst inst_data);
            v ← vreg a;
            run (emit AllowThreadSuspension);;
            method_exit inst (JValue.SetI (JValue.SetJ 0 0) v))
  | RETURN_WIDE =>
      Some (a ← lift (VRegA_11x inst inst_data);
            v ← vreg_long a;
            run (emit AllowThreadSuspension);;
            method_exit inst (JValue.SetJ 0 v))
  | RETURN_OBJECT => Some return_object
  | _ => None
  end.

(** ** Constants *)

(** A 32-bit constant; zero is also the null reference. *)
Definition const (regA regB : res Z) (next : interp outcome) : interp outcome :=
  PREAMBLE;;
  dst ← lift regA;
  val ← lift regB;
  set_vreg dst val;;
  (if val =? 0 then set_vreg_reference dst 0 else mret tt);;
  next.

Definition const_wide (regA regB : res Z) (next : interp outcome) : interp outcome :=
  PREAMBLE;; v ← lift regB; a ← lift regA; set_vreg_long a v;; next.

Definition const_string (regA regB : res Z) (next : interp outcome) : interp outcome :=
  PREAMBLE;;
  string_idx ← lift regB;
  s ← ResolveString string_idx;
  if s =? 0 then HANDLE_PENDING_EXCEPTION
  else a ← lift regA; set_vreg_reference a s;; next.

Definition const_class : interp outcome :=
  PREAMBLE;;
  type_idx ← lift (VRegB_21c inst);
  method ← read GetMethod;
  k ← run (ResolveVerifyAndClinit type_idx method false do_access_check);
  if k =? 0 then HANDLE_PENDING_EXCEPTION
  else a ← lift (VRegA_21c inst inst_data); set_vreg_reference a k;; next_2xx.

Definition execute_constants (c : Code) : option (interp outcome) :=
  match c with
  | CONST_4 => Some (const (VRegA_11n inst inst_data) (VRegB_11n inst inst_data) next_1xx)
  | CONST_16 => Some (const (VRegA_21s inst inst_data) (VRegB_21s inst) next_2xx)
  | CONST => Some (const (VRegA_31i inst inst_data) (VRegB_31i inst) next_3xx)
  | CONST_HIGH16 =>
      Some (const (VRegA_21h inst inst_data)
              (b ← VRegB_21h inst; Ok (int32 (Z.shiftl b 16))) next_2xx)
  | CONST_WIDE_16 => Some (const_wide (VRegA_21s inst inst_data) (VRegB_21s inst) next_2xx)
  | CONST_WIDE_32 => Some (const_wide (VRegA_31i inst inst_data) (VRegB_31i inst) next_3xx)
  | CONST_WIDE => Some (const_wide (VRegA_51l inst inst_data) (VRegB_51l inst) (goto Next_51l))
  | CONST_WIDE_HIGH16 =>
      Some (const_wide (VRegA_21h inst inst_data)
              (b ← VRegB_21h inst; Ok (uint64 (Z.shiftl b 48))) next_2xx)
  | CONST_STRING => Some (const_string (VRegA_21c inst inst_data) (VRegB_21c inst) next_2xx)
  | CONST_STRING_JUMBO => Some (const_string (VRegA_31c inst inst_data) (VRegB_31c inst) next_3xx)
  | CONST_CLASS => Some const_class
  | _ => None
  end.

(** ** Objects *)

(** [bool success = operation; POSSIBLY_HANDLE_PENDING_EXCEPTION(!success, next)] *)
Definition attempt (operation : interp bool) (next : interp outcome) : interp outcome :=
  PREAMBLE;; success ← operation; POSSIBLY_HANDLE_PENDING_EXCEPTION (negb success) next.

Definition monitor (operation : Z -> rt unit) : interp outcome :=
  PREAMBLE;;
  a ← lift (VRegA_11x inst inst_data);
  obj ← vreg_reference a;
  if obj =? 0 then ThrowNullPointerExceptionFromInterpreter;; HANDLE_PENDING_EXCEPTION
  else run (operation obj);; p ← pending; POSSIBLY_HANDLE_PENDING_EXCEPTION p next_1xx.

Definition check_cast : interp outcome :=
  PREAMBLE;;
  type_idx ← lift (VRegB_21c inst);
  method ← read GetMethod;
  c ← run (ResolveVerifyAndClinit type_idx method false do_access_check);
  if c =? 0 then HANDLE_PENDING_EXCEPTION
  else
    a ← lift (VRegA_21c inst inst_data);
    obj ← vreg_reference a;
    bad ← (if negb (obj =? 0) then negb <$> run (InstanceOf classes obj c) else mret false);
    if bad : bool then
      k ← run (GetClass obj);
      run (ThrowNew (ThrowClassCastException c k));;
      HANDLE_PENDING_EXCEPTION
    else next_2xx.

Definition instance_of : interp outcome :=
  PREAMBLE;;
  type_idx ← lift (VRegC_22c inst);
  method ← read GetMethod;
  c ← run (ResolveVerifyAndClinit type_idx method false do_access_check);
  if c =? 0 then HANDLE_PENDING_EXCEPTION
  else
    b ← lift (VRegB_22c inst inst_data);
    obj ← vreg_reference b;
    instance ← (if negb (obj =? 0) then run (InstanceOf classes obj c) else mret false);
    a ← lift (VRegA_22c inst inst_data);
    set_vreg a (if instance : bool then 1 else 0);;
    next_2xx.

Definition array_length : interp outcome :=
  PREAMBLE;;
  b ← lift (VRegB_12x inst inst_data);
  array ← vreg_reference b;
  if array =? 0 then ThrowNullPointerExceptionFromInterpreter;; HANDLE_PENDING_EXCEPTION
  else
    is_array ← run (IsArrayInstance classes array);
    run (dcheck_class is_array);;
    len ← run (GetLength array);
    a ← lift (VRegA_12x inst inst_data);
    set_vreg a len;;
    next_1xx.

(** [AbortTransaction]: an [InternalError] is thrown. *)
Definition AbortTransaction : interp unit :=
  active ← run IsActiveTransaction; CHECK active;; run (ThrowNew ThrowInternalError).

Definition new_instance : interp outcome :=
  PREAMBLE;;
  type_idx ← lift (VRegB_21c inst);
  method ← read GetMethod;
  obj ← run (AllocObjectFromCode do_access_check type_idx method);
  if obj =? 0 then HANDLE_PENDING_EXCEPTION
  else
    c ← run (class_of classes obj);
    if transaction_active && has_access (access_flags_ c) kAccClassIsFinalizable then
      AbortTransaction;; HANDLE_PENDING_EXCEPTION
    else
      a ← lift (VRegA_21c inst inst_data);
      set_vreg_reference a obj;;
      next_2xx.

Definition new_array : interp outcome :=
  PREAMBLE;;
  b ← lift (VRegB_22c inst inst_data);
  length ← vreg b;
  type_idx ← lift (VRegC_22c inst);
  method ← read GetMethod;
  obj ← run (AllocArrayFromCode do_access_check type_idx method length);
  if obj =? 0 then HANDLE_PENDING_EXCEPTION
  else
    a ← lift (VRegA_22c inst inst_data);
    set_vreg_reference a obj;;
    next_2xx.

Definition fill_array_data : interp outcome :=
  PREAMBLE;;
  offset ← lift (VRegB_31t inst);
  let payload := RelativeAt inst offset in
  a ← lift (VRegA_31t inst inst_data);
  obj ← vreg_reference a;
  success ← run (FillArrayData obj payload);
  if negb success then HANDLE_PENDING_EXCEPTION
  else
    (if transaction_active then
       is_array ← run (IsArrayInstance classes obj);
       run (dcheck_class is_array);;
       count ← lift (Fetch32 payload 2);
       run (RecordArrayElementsInTransaction obj (int32 count))
     else mret tt);;
    next_3xx.

Definition throw_ : interp outcome :=
  PREAMBLE;;
  a ← lift (VRegA_11x inst inst_data);
  e ← vreg_reference a;
  (if e =? 0 then run (ThrowNew ThrowNullPointerException)
   else
     ok ← (if do_access_check then
             k ← run (GetClass e);
             lift (IsAssignableFrom classes java_lang_Throwable k)
           else mret true);
     if negb ok then run (ThrowNew ThrowVirtualMachineError)
     else
       k ← run (GetClass e);
       throwable ← lift (IsAssignableFrom classes java_lang_Throwable k);
       run (dcheck_class throwable);;
       GetCurrentLocationForThrow;;
       run (SetException e));;
  HANDLE_PENDING_EXCEPTION.

Definition execute_objects (c : Code) : option (interp outcome) :=
  match c with
  | MONITOR_ENTER => Some (monitor Monitor_Enter)
  | MONITOR_EXIT => Some (monitor Monitor_Exit)
  | CHECK_CAST => Some check_cast
  | INSTANCE_OF => Some instance_of
  | ARRAY_LENGTH => Some array_length
  | NEW_INSTANCE => Some new_instance
  | NEW_ARRAY => Some new_array
  | FILLED_NEW_ARRAY =>
      Some (attempt (DoFilledNewArray false do_access_check transaction_active inst) next_3xx)
  | FILLED_NEW_ARRAY_RANGE =>
      Some (attempt (DoFilledNewArray true do_access_check transaction_active inst) next_3xx)
  | FILL_ARRAY_DATA => Some fill_array_data
  | THROW => Some throw_
  | _ => None
  end.

(** ** Branches *)

Definition execute_gotos (c : Code) : option (interp outcome) :=
  match c with
  | GOTO => Some (PREAMBLE;; offset ← lift (VRegA_10t inst inst_data); branch offset)
  | GOTO_16 => Some (PREAMBLE;; offset ← lift (VRegA_20t inst); branch offset)
  | GOTO_32 => Some (PREAMBLE;; offset ← lift (VRegA_30t inst); branch offset)
  | PACKED_SWITCH =>
      Some (PREAMBLE;; offset ← DoPackedSwitch insns_address inst inst_data; branch offset)
  | SPARSE_SWITCH =>
      Some (PREAMBLE;; offset ← DoSparseSwitch insns_address inst inst_data; branch offset)
  | _ => None
  end.

(** Comparisons: [greater] and [equal] for the [l] forms, which answer -1 when the
    operands are unordered, [less] and [equal] for the [g] forms, which answer 1. *)
Definition compare (get : Z -> interp Z) (result : Z -> Z -> Z) : interp outcome :=
  PREAMBLE;;
  b ← lift (VRegB_23x inst); val1 ← get b;
  c ← lift (VRegC_23x inst); val2 ← get c;
  a ← lift (VRegA_23x inst inst_data);
  set_vreg a (result val1 val2);;
  next_2xx.

Definition cmpl (less equal : Z -> Z -> bool) (val1 val2 : Z) : Z :=
  if less val2 val1 then 1 else if equal val1 val2 then 0 else -1.
Definition cmpg (less equal : Z -> Z -> bool) (val1 val2 : Z) : Z :=
  if less val1 val2 then -1 else if equal val1 val2 then 0 else 1.

Definition execute_compares (c : Code) : option (interp outcome) :=
  match c with
  | CMPL_FLOAT => Some (compare vreg_float (cmpl (fp_lt float) (fp_eq float)))
  | CMPG_FLOAT => Some (compare vreg_float (cmpg (fp_lt float) (fp_eq float)))
  | CMPL_DOUBLE => Some (compare vreg_double (cmpl (fp_lt double) (fp_eq double)))
  | CMPG_DOUBLE => Some (compare vreg_double (cmpg (fp_lt double) (fp_eq double)))
  | CMP_LONG => Some (compare vreg_long (cmpl Z.ltb Z.eqb))
  | _ => None
  end.

(** [IF_EQ] ... [IF_LE] *)
Definition if_test (test : Z -> Z -> bool) : interp outcome :=
  PREAMBLE;;
  a ← lift (VRegA_22t inst inst_data); x ← vreg a;
  b ← lift (VRegB_22t inst inst_data); y ← vreg b;
  if test x y then offset ← lift (VRegC_22t inst); branch offset else next_2xx.

(** [IF_EQZ] ... [IF_LEZ] *)
Definition if_testz (test : Z -> Z -> bool) : interp outcome :=
  PREAMBLE;;
  a ← lift (VRegA_21t inst inst_data); x ← vreg a;
  if test x 0 then offset ← lift (VRegB_21t inst); branch offset else next_2xx.

Definition execute_ifs (c : Code) : option (interp outcome) :=
  match c with
  | IF_EQ => Some (if_test Z.eqb)
  | IF_NE => Some (if_test (fun x y => negb (x =? y)))
  | IF_LT => Some (if_test Z.ltb)
  | IF_GE => Some (if_test Z.geb)
  | IF_GT => Some (if_test Z.gtb)
  | IF_LE => Some (if_test Z.leb)
  | IF_EQZ => Some (if_testz Z.eqb)
  | IF_NEZ => Some (if_testz (fun x y => negb (x =? y)))
  | IF_LTZ => Some (if_testz Z.ltb)
  | IF_GEZ => Some (if_testz Z.geb)
  | IF_GTZ => Some (if_testz Z.gtb)
  | IF_LEZ => Some (if_testz Z.leb)
  | _ => None
  end.

(** ** Arrays *)

(** [AGET_BOOLEAN] ... [AGET_WIDE]: the element type [k], and how it is put in the
    register. *)
Definition aget (k : FieldValueKind) (set : Z -> Z -> interp unit) : interp outcome :=
  PREAMBLE;;
  b ← lift (VRegB_23x inst);
  a ← vreg_reference b;
  if a =? 0 then ThrowNullPointerExceptionFromInterpreter;; HANDLE_PENDING_EXCEPTION
  else
    c ← lift (VRegC_23x inst);
    index ← vreg c;
    run (as_element_array classes k a);;
    valid ← run (CheckIsValidIndex ThrowNew a index);
    if valid : bool then
      v ← run (GetWithoutChecks ThrowNew k a index);
      dst ← lift (VRegA_23x inst inst_data);
      set dst v;;
      next_2xx
    else HANDLE_PENDING_EXCEPTION.

Definition aget_object : interp outcome :=
  PREAMBLE;;
  b ← lift (VRegB_23x inst);
  a ← vreg_reference b;
  if a =? 0 then ThrowNullPointerExceptionFromInterpreter;; HANDLE_PENDING_EXCEPTION
  else
    c ← lift (VRegC_23x inst);
    index ← vreg c;
    run (AsObjectArray classes a);;
    valid ← run (CheckIsValidIndex ThrowNew a index);
    if valid : bool then
      v ← run (ObjectArray_GetWithoutChecks ThrowNew a index);
      dst ← lift (VRegA_23x inst inst_data);
      set_vreg_reference dst v;;
      next_2xx
    else HANDLE_PENDING_EXCEPTION.

Definition execute_agets (c : Code) : option (interp outcome) :=
  match c with
  | AGET_BOOLEAN => Some (aget kBoolean set_vreg)
  | AGET_BYTE => Some (aget kByte set_vreg)
  | AGET_CHAR => Some (aget kChar set_vreg)
  | AGET_SHORT => Some (aget kShort set_vreg)
  | AGET => Some (aget k32Bits set_vreg)
  | AGET_WIDE => Some (aget k64Bits set_vreg_long)
  | AGET_OBJECT => Some aget_object
  | _ => None
  end.

Definition aput (k : FieldValueKind) (get : Z -> interp Z) : interp outcome :=
  PREAMBLE;;
  b ← lift (VRegB_23x inst);
  a ← vreg_reference b;
  if a =? 0 then ThrowNullPointerExceptionFromInterpreter;; HANDLE_PENDING_EXCEPTION
  else
    src ← lift (VRegA_23x inst inst_data);
    val ← get src;
    c ← lift (VRegC_23x inst);
    index ← vreg c;
    run (as_element_array classes k a);;
    valid ← run (CheckIsValidIndex ThrowNew a index);
    if valid : bool then
      run (SetWithoutChecks classes ThrowNew transaction_active k a index (of_kind k val));;
      next_2xx
    else HANDLE_PENDING_EXCEPTION.

Definition aput_object : interp outcome :=
  PREAMBLE;;
  b ← lift (VRegB_23x inst);
  a ← vreg_reference b;
  if a =? 0 then ThrowNullPointerExceptionFromInterpreter;; HANDLE_PENDING_EXCEPTION
  else
    c ← lift (VRegC_23x inst);
    index ← vreg c;
    src ← lift (VRegA_23x inst inst_data);
    val ← vreg_reference src;
    run (AsObjectArray classes a);;
    valid ← run (CheckIsValidIndex ThrowNew a index);
    assignable ← (if valid : bool then run (CheckAssignable classes ThrowNew a val) else mret false);
    if assignable : bool then
      run (ObjectArray_SetWithoutChecks classes ThrowNew transaction_active a index val);;
      next_2xx
    else HANDLE_PENDING_EXCEPTION.

Definition execute_aputs (c : Code) : option (interp outcome) :=
  match c with
  | APUT_BOOLEAN => Some (aput kBoolean vreg)
  | APUT_BYTE => Some (aput kByte vreg)
  | APUT_CHAR => Some (aput kChar vreg)
  | APUT_SHORT => Some (aput kShort vreg)
  | APUT => Some (aput k32Bits vreg)
  | APUT_WIDE => Some (aput k64Bits vreg_long)
  | APUT_OBJECT => Some aput_object
  | _ => None
  end.

(** ** Fields *)

Definition get_field (find_type : FindFieldType) (t : Primitive_Type) : interp outcome :=
  attempt (DoFieldGet find_type t do_access_check inst inst_data) next_2xx.
Definition get_quick (t : Primitive_Type) : interp outcome :=
  attempt (DoIGetQuick t inst inst_data) next_2xx.
Definition put_field (find_type : FindFieldType) (t : Primitive_Type) : interp outcome :=
  attempt (DoFieldPut find_type t do_access_check transaction_active inst inst_data) next_2xx.
Definition put_quick (t : Primitive_Type) : interp outcome :=
  attempt (DoIPutQuick t transaction_active inst inst_data) next_2xx.

Definition execute_gets (c : Code) : option (interp outcome) :=
  match c with
  | IGET_BOOLEAN => Some (get_field InstancePrimitiveRead kPrimBoolean)
  | IGET_BYTE => Some (get_field InstancePrimitiveRead kPrimByte)
  | IGET_CHAR => Some (get_field InstancePrimitiveRead kPrimChar)
  | IGET_SHORT => Some (get_field InstancePrimitiveRead kPrimShort)
  | IGET => Some (get_field InstancePrimitiveRead kPrimInt)
  | IGET_WIDE => Some (get_field InstancePrimitiveRead kPrimLong)
  | IGET_OBJECT => Some (get_field InstanceObjectRead kPrimNot)
  | IGET_QUICK => Some (get_quick kPrimInt)
  | IGET_WIDE_QUICK => Some (get_quick kPrimLong)
  | IGET_OBJECT_QUICK => Some (get_quick kPrimNot)
  | SGET_BOOLEAN => Some (get_field StaticPrimitiveRead kPrimBoolean)
  | SGET_BYTE => Some (get_field StaticPrimitiveRead kPrimByte)
  | SGET_CHAR => Some (get_field StaticPrimitiveRead kPrimChar)
  | SGET_SHORT => Some (get_field StaticPrimitiveRead kPrimShort)
  | SGET => Some (get_field StaticPrimitiveRead kPrimInt)
  | SGET_WIDE => Some (get_field StaticPrimitiveRead kPrimLong)
  | SGET_OBJECT => Some (get_field StaticObjectRead kPrimNot)
  | _ => None
  end.

Definition execute_puts (c : Code) : option (interp outcome) :=
  match c with
  | IPUT_BOOLEAN => Some (put_field InstancePrimitiveWrite kPrimBoolean)
  | IPUT_BYTE => Some (put_field InstancePrimitiveWrite kPrimByte)
  | IPUT_CHAR => Some (put_field InstancePrimitiveWrite kPrimChar)
  | IPUT_SHORT => Some (put_field InstancePrimitiveWrite kPrimShort)
  | IPUT => Some (put_field InstancePrimitiveWrite kPrimInt)
  | IPUT_WIDE => Some (put_field InstancePrimitiveWrite kPrimLong)
  | IPUT_OBJECT => Some (put_field InstanceObjectWrite kPrimNot)
  | IPUT_QUICK => Some (put_quick kPrimInt)
  | IPUT_BOOLEAN_QUICK => Some (put_quick kPrimBoolean)
  | IPUT_BYTE_QUICK => Some (put_quick kPrimByte)
  | IPUT_CHAR_QUICK => Some (put_quick kPrimChar)
  | IPUT_SHORT_QUICK => Some (put_quick kPrimShort)
  | IPUT_WIDE_QUICK => Some (put_quick kPrimLong)
  | IPUT_OBJECT_QUICK => Some (put_quick kPrimNot)
  | SPUT_BOOLEAN => Some (put_field StaticPrimitiveWrite kPrimBoolean)
  | SPUT_BYTE => Some (put_field StaticPrimitiveWrite kPrimByte)
  | SPUT_CHAR => Some (put_field StaticPrimitiveWrite kPrimChar)
  | SPUT_SHORT => Some (put_field StaticPrimitiveWrite kPrimShort)
  | SPUT => Some (put_field StaticPrimitiveWrite kPrimInt)
  | SPUT_WIDE => Some (put_field StaticPrimitiveWrite kPrimLong)
  | SPUT_OBJECT => Some (put_field StaticObjectWrite kPrimNot)
  | _ => None
  end.

(** ** Calls *)

Definition invoke (type : InvokeType) (is_range : bool) : interp outcome :=
  attempt (DoInvoke type is_range do_access_check inst inst_data) next_3xx.

Definition execute_invokes (c : Code) : option (interp outcome) :=
  match c with
  | INVOKE_VIRTUAL => Some (invoke kVirtual false)
  | INVOKE_VIRTUAL_RANGE => Some (invoke kVirtual true)
  | INVOKE_SUPER => Some (invoke kSuper false)
  | INVOKE_SUPER_RANGE => Some (invoke kSuper true)
  | INVOKE_DIRECT => Some (invoke kDirect false)
  | INVOKE_DIRECT_RANGE => Some (invoke kDirect true)
  | INVOKE_INTERFACE => Some (invoke kInterface false)
  | INVOKE_INTERFACE_RANGE => Some (invoke kInterface true)
  | INVOKE_STATIC => Some (invoke kStatic false)
  | INVOKE_STATIC_RANGE => Some (invoke kStatic true)
  | INVOKE_VIRTUAL_QUICK => Some (attempt (DoInvokeVirtualQuick false inst inst_data) next_3xx)
  | INVOKE_VIRTUAL_RANGE_QUICK => Some (attempt (DoInvokeVirtualQuick true inst inst_data) next_3xx)
  | _ => None
  end.

(** ** Unary operators and conversions *)

Definition unary (get : Z -> interp Z) (set : Z -> Z -> interp unit) (op : Z -> Z) : interp outcome :=
  PREAMBLE;;
  b ← lift (VRegB_12x inst inst_data); x ← get b;
  a ← lift (VRegA_12x inst inst_data); set a (op x);;
  next_1xx.

Definition execute_unary (c : Code) : option (interp outcome) :=
  match c with
  | NEG_INT => Some (unary vreg set_vreg Z.opp)
  | NOT_INT => Some (unary vreg set_vreg Z.lnot)
  | NEG_LONG => Some (unary vreg_long set_vreg_long Z.opp)
  | NOT_LONG => Some (unary vreg_long set_vreg_long Z.lnot)
  | NEG_FLOAT => Some (unary vreg_float set_vreg_float (fp_neg float))
  | NEG_DOUBLE => Some (unary vreg_double set_vreg_double (fp_neg double))
  | INT_TO_LONG => Some (unary vreg set_vreg_long id)
  | INT_TO_FLOAT => Some (unary vreg set_vreg_float (fp_of_int float))
  | INT_TO_DOUBLE => Some (unary vreg set_vreg_double (fp_of_int double))
  | LONG_TO_INT => Some (unary vreg_long set_vreg id)
  | LONG_TO_FLOAT => Some (unary vreg_long set_vreg_float (fp_of_int float))
  | LONG_TO_DOUBLE => Some (unary vreg_long set_vreg_double (fp_of_int double))
  | FLOAT_TO_INT => Some (unary vreg_float set_vreg (art_float_to_integral float 32))
  | FLOAT_TO_LONG => Some (unary vreg_float set_vreg_long (art_float_to_integral float 64))
  | FLOAT_TO_DOUBLE => Some (unary vreg_float set_vreg_double (convert float double))
  | DOUBLE_TO_INT => Some (unary vreg_double set_vreg (art_float_to_integral double 32))
  | DOUBLE_TO_LONG => Some (unary vreg_double set_vreg_long (art_float_to_integral double 64))
  | DOUBLE_TO_FLOAT => Some (unary vreg_double set_vreg_float (convert double float))
  | INT_TO_BYTE => Some (unary vreg set_vreg int8)
  | INT_TO_CHAR => Some (unary vreg set_vreg uint16)
  | INT_TO_SHORT => Some (unary vreg set_vreg int16)
  | _ => None
  end.

(** ** Binary operators *)

Definition shl_int (x y : Z) : Z := Z.shiftl x (Z.land y 0x1f).
Definition shr_int (x y : Z) : Z := Z.shiftr x (Z.land y 0x1f).
Definition ushr_int (x y : Z) : Z := Z.shiftr (uint32 x) (Z.land y 0x1f).
Definition shl_long (x y : Z) : Z := Z.shiftl x (Z.land y 0x3f).
Definition shr_long (x y : Z) : Z := Z.shiftr x (Z.land y 0x3f).
Definition ushr_long (x y : Z) : Z := Z.shiftr (uint64 x) (Z.land y 0x3f).

(** Three registers. *)
Definition binary_23x (get getC : Z -> interp Z) (set : Z -> Z -> interp unit) (op : Z -> Z -> Z)
    : interp outcome :=
  PREAMBLE;;
  b ← lift (VRegB_23x inst); x ← get b;
  c ← lift (VRegC_23x inst); y ← getC c;
  a ← lift (VRegA_23x inst inst_data); set a (op x y);;
  next_2xx.

(** Two registers: the first operand is also the result. *)
Definition binary_12x (get getB : Z -> interp Z) (set : Z -> Z -> interp unit) (op : Z -> Z -> Z)
    : interp outcome :=
  PREAMBLE;;
  a ← lift (VRegA_12x inst inst_data); x ← get a;
  b ← lift (VRegB_12x inst inst_data); y ← getB b;
  set a (op x y);;
  next_1xx.

(** A register and a literal of 16 bits, or of 8. *)
Definition binary_lit16 (op : Z -> Z -> Z) : interp outcome :=
  PREAMBLE;;
  b ← lift (VRegB_22s inst inst_data); x ← vreg b;
  c ← lift (VRegC_22s inst);
  a ← lift (VRegA_22s inst inst_data); set_vreg a (op x c);;
  next_2xx.

Definition binary_lit8 (op : Z -> Z -> Z) : interp outcome :=
  PREAMBLE;;
  b ← lift (VRegB_22b inst); x ← vreg b;
  c ← lift (VRegC_22b inst);
  a ← lift (VRegA_22b inst inst_data); set_vreg a (op x c);;
  next_2xx.

(** Division in the same four shapes; the [int] forms go by the returned flag, the
    [long] forms by the pending exception. *)
Definition divide_23x (divide : Z -> Z -> Z -> interp bool) : interp outcome :=
  PREAMBLE;;
  c ← lift (VRegC_23x inst); y ← vreg c;
  b ← lift (VRegB_23x inst); x ← vreg b;
  a ← lift (VRegA_23x inst inst_data);
  success ← divide a x y;
  POSSIBLY_HANDLE_PENDING_EXCEPTION (negb success) next_2xx.

Definition divide_long_23x (divide : Z -> Z -> Z -> interp bool) : interp outcome :=
  PREAMBLE;;
  c ← lift (VRegC_23x inst); y ← vreg_long c;
  b ← lift (VRegB_23x inst); x ← vreg_long b;
  a ← lift (VRegA_23x inst inst_data);
  divide a x y;;
  p ← pending; POSSIBLY_HANDLE_PENDING_EXCEPTION p next_2xx.

Definition divide_12x (divide : Z -> Z -> Z -> interp bool) : interp outcome :=
  PREAMBLE;;
  a ← lift (VRegA_12x inst inst_data);
  b ← lift (VRegB_12x inst inst_data); y ← vreg b;
  x ← vreg a;
  success ← divide a x y;
  POSSIBLY_HANDLE_PENDING_EXCEPTION (negb success) next_1xx.

Definition divide_long_12x (divide : Z -> Z -> Z -> interp bool) : interp outcome :=
  PREAMBLE;;
  a ← lift (VRegA_12x inst inst_data);
  b ← lift (VRegB_12x inst inst_data); y ← vreg_long b;
  x ← vreg_long a;
  divide a x y;;
  p ← pending; POSSIBLY_HANDLE_PENDING_EXCEPTION p next_1xx.

Definition divide_lit16 (divide : Z -> Z -> Z -> interp bool) : interp outcome :=
  PREAMBLE;;
  c ← lift (VRegC_22s inst);
  b ← lift (VRegB_22s inst inst_data); x ← vreg b;
  a ← lift (VRegA_22s inst inst_data);
  success ← divide a x c;
  POSSIBLY_HANDLE_PENDING_EXCEPTION (negb success) next_2xx.

Definition divide_lit8 (divide : Z -> Z -> Z -> interp bool) : interp outcome :=
  PREAMBLE;;
  c ← lift (VRegC_22b inst);
  b ← lift (VRegB_22b inst); x ← vreg b;
  a ← lift (VRegA_22b inst inst_data);
  success ← divide a x c;
  POSSIBLY_HANDLE_PENDING_EXCEPTION (negb success) next_2xx.

Definition execute_int (c : Code) : option (interp outcome) :=
  match c with
  | ADD_INT => Some (binary_23x vreg vreg set_vreg (SafeAdd Int32 Int32))
  | SUB_INT => Some (binary_23x vreg vreg set_vreg (SafeSub Int32 Int32))
  | MUL_INT => Some (binary_23x vreg vreg set_vreg (SafeMul Int32 Int32))
  | DIV_INT => Some (divide_23x DoIntDivide)
  | REM_INT => Some (divide_23x DoIntRemainder)
  | SHL_INT => Some (binary_23x vreg vreg set_vreg shl_int)
  | SHR_INT => Some (binary_23x vreg vreg set_vreg shr_int)
  | USHR_INT => Some (binary_23x vreg vreg set_vreg ushr_int)
  | AND_INT => Some (binary_23x vreg vreg set_vreg Z.land)
  | OR_INT => Some (binary_23x vreg vreg set_vreg Z.lor)
  | XOR_INT => Some (binary_23x vreg vreg set_vreg Z.lxor)
  | _ => None
  end.

Definition execute_long (c : Code) : option (interp outcome) :=
  match c with
  | ADD_LONG => Some (binary_23x vreg_long vreg_long set_vreg_long (SafeAdd Int64 Int64))
  | SUB_LONG => Some (binary_23x vreg_long vreg_long set_vreg_long (SafeSub Int64 Int64))
  | MUL_LONG => Some (binary_23x vreg_long vreg_long set_vreg_long (SafeMul Int64 Int64))
  | DIV_LONG => Some (divide_long_23x DoLongDivide)
  | REM_LONG => Some (divide_long_23x DoLongRemainder)
  | AND_LONG => Some (binary_23x vreg_long vreg_long set_vreg_long Z.land)
  | OR_LONG => Some (binary_23x vreg_long vreg_long set_vreg_long Z.lor)
  | XOR_LONG => Some (binary_23x vreg_long vreg_long set_vreg_long Z.lxor)
  | SHL_LONG => Some (binary_23x vreg_long vreg set_vreg_long shl_long)
  | SHR_LONG => Some (binary_23x vreg_long vreg set_vreg_long shr_long)
  | USHR_LONG => Some (binary_23x vreg_long vreg set_vreg_long ushr_long)
  | _ => None
  end.

Definition execute_float (c : Code) : option (interp outcome) :=
  match c with
  | ADD_FLOAT => Some (binary_23x vreg_float vreg_float set_vreg_float (fp_add float))
  | SUB_FLOAT => Some (binary_23x vreg_float vreg_float set_vreg_float (fp_sub float))
  | MUL_FLOAT => Some (binary_23x vreg_float vreg_float set_vreg_float (fp_mul float))
  | DIV_FLOAT => Some (binary_23x vreg_float vreg_float set_vreg_float (fp_div float))
  | REM_FLOAT => Some (binary_23x vreg_float vreg_float set_vreg_float (fp_rem float))
  | ADD_DOUBLE => Some (binary_23x vreg_double vreg_double set_vreg_double (fp_add double))
  | SUB_DOUBLE => Some (binary_23x vreg_double vreg_double set_vreg_double (fp_sub double))
  | MUL_DOUBLE => Some (binary_23x vreg_double vreg_double set_vreg_double (fp_mul double))
  | DIV_DOUBLE => Some (binary_23x vreg_double vreg_double set_vreg_double (fp_div double))
  | REM_DOUBLE => Some (binary_23x vreg_double vreg_double set_vreg_double (fp_rem double))
  | _ => None
  end.

Definition execute_int_2addr (c : Code) : option (interp outcome) :=
  match c with
  | ADD_INT_2ADDR => Some (binary_12x vreg vreg set_vreg (SafeAdd Int32 Int32))
  | SUB_INT_2ADDR => Some (binary_12x vreg vreg set_vreg (SafeSub Int32 Int32))
  | MUL_INT_2ADDR => Some (binary_12x vreg vreg set_vreg (SafeMul Int32 Int32))
  | DIV_INT_2ADDR => Some (divide_12x DoIntDivide)
  | REM_INT_2ADDR => Some (divide_12x DoIntRemainder)
  | SHL_INT_2ADDR => Some (binary_12x vreg vreg set_vreg shl_int)
  | SHR_INT_2ADDR => Some (binary_12x vreg vreg set_vreg shr_int)
  | USHR_INT_2ADDR => Some (binary_12x vreg vreg set_vreg ushr_int)
  | AND_INT_2ADDR => Some (binary_12x vreg vreg set_vreg Z.land)
  | OR_INT_2ADDR => Some (binary_12x vreg vreg set_vreg Z.lor)
  | XOR_INT_2ADDR => Some (binary_12x vreg vreg set_vreg Z.lxor)
  | _ => None
  end.

Definition execute_long_2addr (c : Code) : option (interp outcome) :=
  match c with
  | ADD_LONG_2ADDR => Some (binary_12x vreg_long vreg_long set_vreg_long (SafeAdd Int64 Int64))
  | SUB_LONG_2ADDR => Some (binary_12x vreg_long vreg_long set_vreg_long (SafeSub Int64 Int64))
  | MUL_LONG_2ADDR => Some (binary_12x vreg_long vreg_long set_vreg_long (SafeMul Int64 Int64))
  | DIV_LONG_2ADDR => Some (divide_long_12x DoLongDivide)
  | REM_LONG_2ADDR => Some (divide_long_12x DoLongRemainder)
  | AND_LONG_2ADDR => Some (binary_12x vreg_long vreg_long set_vreg_long Z.land)
  | OR_LONG_2ADDR => Some (binary_12x vreg_long vreg_long set_vreg_long Z.lor)
  | XOR_LONG_2ADDR => Some (binary_12x vreg_long vreg_long set_vreg_long Z.lxor)
  | SHL_LONG_2ADDR => Some (binary_12x vreg_long vreg set_vreg_long shl_long)
  | SHR_LONG_2ADDR => Some (binary_12x vreg_long vreg set_vreg_long shr_long)
  | USHR_LONG_2ADDR => Some (binary_12x vreg_long vreg set_vreg_long ushr_long)
  | _ => None
  end.

Definition execute_float_2addr (c : Code) : option (interp outcome) :=
  match c with
  | ADD_FLOAT_2ADDR => Some (binary_12x vreg_float vreg_float set_vreg_float (fp_add float))
  | SUB_FLOAT_2ADDR => Some (binary_12x vreg_float vreg_float set_vreg_float (fp_sub float))
  | MUL_FLOAT_2ADDR => Some (binary_12x vreg_float vreg_float set_vreg_float (fp_mul float))
  | DIV_FLOAT_2ADDR => Some (binary_12x vreg_float vreg_float set_vreg_float (fp_div float))
  | REM_FLOAT_2ADDR => Some (binary_12x vreg_float vreg_float set_vreg_float (fp_rem float))
  | ADD_DOUBLE_2ADDR => Some (binary_12x vreg_double vreg_double set_vreg_double (fp_add double))
  | SUB_DOUBLE_2ADDR => Some (binary_12x vreg_double vreg_double set_vreg_double (fp_sub double))
  | MUL_DOUBLE_2ADDR => Some (binary_12x vreg_double vreg_double set_vreg_double (fp_mul double))
  | DIV_DOUBLE_2ADDR => Some (binary_12x vreg_double vreg_double set_vreg_double (fp_div double))
  | REM_DOUBLE_2ADDR => Some (binary_12x vreg_double vreg_double set_vreg_double (fp_rem double))
  | _ => None
  end.

Definition execute_lit16 (c : Code) : option (interp outcome) :=
  match c with
  | ADD_INT_LIT16 => Some (binary_lit16 (SafeAdd Int32 Int16))
  | RSUB_INT_LIT16 => Some (binary_lit16 (fun x c => SafeSub Int16 Int32 c x))
  | MUL_INT_LIT16 => Some (binary_lit16 (SafeMul Int32 Int16))
  | DIV_INT_LIT16 => Some (divide_lit16 DoIntDivide)
  | REM_INT_LIT16 => Some (divide_lit16 DoIntRemainder)
  | AND_INT_LIT16 => Some (binary_lit16 Z.land)
  | OR_INT_LIT16 => Some (binary_lit16 Z.lor)
  | XOR_INT_LIT16 => Some (binary_lit16 Z.lxor)
  | _ => None
  end.

Definition execute_lit8 (c : Code) : option (interp outcome) :=
  match c with
  | ADD_INT_LIT8 => Some (binary_lit8 (SafeAdd Int32 Int8))
  | RSUB_INT_LIT8 => Some (binary_lit8 (fun x c => SafeSub Int8 Int32 c x))
  | MUL_INT_LIT8 => Some (binary_lit8 (SafeMul Int32 Int8))
  | DIV_INT_LIT8 => Some (divide_lit8 DoIntDivide)
  | REM_INT_LIT8 => Some (divide_lit8 DoIntRemainder)
  | AND_INT_LIT8 => Some (binary_lit8 Z.land)
  | OR_INT_LIT8 => Some (binary_lit8 Z.lor)
  | XOR_INT_LIT8 => Some (binary_lit8 Z.lxor)
  | SHL_INT_LIT8 => Some (binary_lit8 shl_int)
  | SHR_INT_LIT8 => Some (binary_lit8 shr_int)
  | USHR_INT_LIT8 => Some (binary_lit8 ushr_int)
  | _ => None
  end.

(** ** The switch *)

Definition UnexpectedOpcode : interp outcome := lift (Fault Fatal).

Fixpoint first_case (l : list (option (interp outcome))) : interp outcome :=
  match l with
  | [] => UnexpectedOpcode
  | Some m :: _ => m
  | None :: l => first_case l
  end.

Definition execute (c : Code) : interp outcome :=
  first_case
    [ execute_moves c; execute_returns c; execute_constants c; execute_objects c;
      execute_gotos c; execute_compares c; execute_ifs c; execute_agets c; execute_aputs c;
      execute_gets c; execute_puts c; execute_invokes c; execute_unary c; execute_int c;
      execute_long c; execute_float c; execute_int_2addr c; execute_long_2addr c;
      execute_float_2addr c; execute_lit16 c; execute_lit8 c ].
End Instruction.

(** One turn of the loop. *)
Definition step (inst : Instruction) : interp outcome :=
  modify (fun s => with_frame s (SetDexPC (frame s) (GetDexPc inst)));;
  inst_data ← lift (Fetch16 inst 0);
  opcode ← lift (Opcode_data inst inst_data);
  execute inst inst_data opcode.

Fixpoint loop (fuel : nat) (inst : Instruction) : interp Z :=
  match fuel with
  | O => lift (Fault OutOfFuel)
  | S fuel =>
      o ← step inst;
      match o with Goto inst => loop fuel inst | Return result => mret result end
  end.

(** The whole function, for at most [fuel] instructions. *)
Definition ExecuteSwitchImpl (fuel : nat) : interp Z :=
  dex_pc ← gets (fun s => GetDexPC (frame s));
  (if (dex_pc =? 0) && HasMethodEntryListeners then
     this ← GetThisObject_ins (ins_size_ code_item);
     read GetMethod;;
     run (emit (MethodEnterEvent this 0));;
     modify (fun s => with_notified s true)
   else modify (fun s => with_notified s false));;
  loop fuel (At (insns_ code_item) dex_pc).
End ExecuteSwitchImpl.
