(* ===== verification/InterpreterLogic.v ===== *)
(** * Reasoning about the interpreter

    Weakest preconditions and triples for the computations of Heap and
    InterpreterCommon, in which the only fault tolerated is [BadReference]: an object
    that is not of the type the code takes it for.  [RuntimeLaws] states what the
    interpreter relies on when it calls the rest of the runtime, and the triples of
    the object accesses are derived here, for code outside a transaction. *)

From S2P Require Import Prelude Modifiers Leb128 DexOpcodes DexInstruction DexCode ShadowFrame Float Memory ClassHierarchy Heap Transactions InterpreterCommon.

(** ** Weakest preconditions

    [wp m Q s]: from [s], [m] ends in a state satisfying [Q], or with the fault
    [BadReference]. *)
Definition wp {S A} (m : M S A) (Q : A -> S -> Prop) (s : S) : Prop :=
  match m s with Ok (a, s') => Q a s' | Fault f => f = BadReference end.

Lemma wp_bind {S A B} (m : M S A) (f : A -> M S B) Q s :
  wp m (fun a => wp (f a) Q) s -> wp (m ≫= f) Q s.
Proof. unfold wp, mbind, M_bind. destruct (m s) as [[a s']|]; done. Qed.

Lemma wp_fmap {S A B} (f : A -> B) (m : M S A) Q s :
  wp m (fun a => Q (f a)) s -> wp (f <$> m) Q s.
Proof. unfold wp, fmap, M_fmap. destruct (m s) as [[a s']|]; done. Qed.

Lemma wp_mono {S A} (m : M S A) (Q Q' : A -> S -> Prop) s :
  wp m Q s -> (forall a s', Q a s' -> Q' a s') -> wp m Q' s.
Proof. unfold wp. destruct (m s) as [[a s']|]; auto. Qed.

Lemma wp_lift {S A} (r : res A) Q (s : S) :
  match r with Ok a => Q a s | Fault f => f = BadReference end -> wp (lift r) Q s.
Proof. unfold wp, lift. by destruct r. Qed.

Lemma wp_run {A} (m : rt A) Q s :
  wp m (fun a w => Q a (with_world s w)) (world s) -> wp (run m) Q s.
Proof. unfold wp, run. by destruct (m (world s)) as [[a w]|]. Qed.

(** A result, or [BadReference]. *)
Definition typed {A} (r : res A) : Prop :=
  match r with Ok _ => True | Fault f => f = BadReference end.

(** ** Triples

    [triple I P m Q]: from a state satisfying the invariant [I] and [P], [m] ends in
    one satisfying [I] and [Q]. *)
Definition triple {S A} (I P : S -> Prop) (m : M S A) (Q : A -> S -> Prop) : Prop :=
  forall s, I s -> P s -> wp m (fun a s' => I s' /\ Q a s') s.

Definition any {S} (_ : S) : Prop := True.
Definition ends {S A} (_ : A) (_ : S) : Prop := True.

Section Triples.
Context {S : Type} (I : S -> Prop).

Lemma triple_conseq {A} (P P' : S -> Prop) (m : M S A) (Q Q' : A -> S -> Prop) :
  triple I P' m Q' -> (forall s, I s -> P s -> P' s) ->
  (forall a s, I s -> Q' a s -> Q a s) -> triple I P m Q.
Proof.
  intros H HP HQ s Hi Hp. eapply wp_mono; [by apply H; auto|]. intros a s' [? ?]. auto.
Qed.

Lemma triple_pre {A} (P P' : S -> Prop) (m : M S A) Q :
  (forall s, I s -> P s -> P' s) -> triple I P' m Q -> triple I P m Q.
Proof. intros. by eapply triple_conseq; eauto. Qed.

Lemma triple_post {A} P (m : M S A) (Q Q' : A -> S -> Prop) :
  triple I P m Q' -> (forall a s, I s -> Q' a s -> Q a s) -> triple I P m Q.
Proof. intros. by eapply triple_conseq; eauto. Qed.

Lemma triple_bind {A B} P (m : M S A) Q (f : A -> M S B) Q' :
  triple I P m Q -> (forall a, triple I (Q a) (f a) Q') -> triple I P (m ≫= f) Q'.
Proof.
  intros Hm Hf s Hi Hp. apply wp_bind. eapply wp_mono; [by apply Hm|].
  intros a s' [? ?]. by apply Hf.
Qed.

Lemma triple_fmap {A B} P (f : A -> B) (m : M S A) Q :
  triple I P m (fun a => Q (f a)) -> triple I P (f <$> m) Q.
Proof. intros H s Hi Hp. apply wp_fmap. by apply H. Qed.

Lemma triple_ret {A} (P : S -> Prop) (a : A) Q :
  (forall s, I s -> P s -> Q a s) -> triple I P (mret a) Q.
Proof. intros H s Hi Hp. unfold wp, mret, M_ret. auto. Qed.

Lemma triple_lift {A} P (r : res A) : typed r -> triple I P (lift r) (fun _ => P).
Proof. intros H s Hi Hp. apply wp_lift. by destruct r. Qed.

(** The value of a computation that does not touch the state is known later on. *)
Lemma triple_lift_ok {A} (P : S -> Prop) (r : res A) a :
  r = Ok a -> triple I P (lift r) (fun a' s => a' = a /\ P s).
Proof. intros -> s Hi Hp. done. Qed.

Lemma triple_gets {A} (P : S -> Prop) (f : S -> A) :
  triple I P (gets f) (fun a s => a = f s /\ P s).
Proof. intros s Hi Hp. done. Qed.

(** A precondition that does not depend on the state. *)
Lemma triple_pure {A} (P : Prop) (P' : S -> Prop) (m : M S A) Q :
  (P -> triple I P' m Q) -> triple I (fun s => P /\ P' s) m Q.
Proof. intros H s Hi [? ?]. by apply H. Qed.

Lemma triple_forget {A} (P : S -> Prop) (m : M S A) Q : triple I any m Q -> triple I P m Q.
Proof. apply triple_pre. done. Qed.
End Triples.

Create HintDb triple.
Create HintDb query.

(** One step through a computation: [tstep] uses the triples in the hint database for
    the first part of a sequence. *)
Ltac tspec := solve [eauto with triple | eapply triple_forget; eauto with triple].
Ltac tstep :=
  lazymatch goal with
  | |- triple _ _ (mret _) _ => apply triple_ret
  | |- triple _ _ ((if ?b then _ else _) ≫= _) _ => destruct b eqn:?
  | |- triple _ _ (if ?b then _ else _) _ => destruct b eqn:?
  | |- triple _ _ (_ ≫= _) _ => eapply triple_bind; [tspec|intros ?; cbv beta]
  | |- triple _ _ (_ <$> _) _ => apply triple_fmap
  end.

(** ** The services *)

(** Outside a transaction, and staying there. *)
Definition calm (w : World) : Prop := transaction w = None.

Abbreviation service := (triple calm any).

Definition excepting (w : World) : Prop := exception w <> 0.
(** A null result comes with a pending exception. *)
Definition or_pending (a : Z) (w : World) : Prop := a = 0 -> excepting w.

(** What the interpreter relies on: throwing leaves an exception pending, a service
    that answers with a null pointer has thrown, an allocated array has the length
    asked for, and the class linker keeps the class hierarchy and the methods in
    order. *)
Class RuntimeLaws (R : Runtime) : Prop := {
  law_classes : exists object rank, classes_wf classes object rank;
  law_methods k m ci : methods !! k = Some m -> method_code_item m = Some ci ->
    0 <= ins_size_ ci <= registers_size_ ci;
  law_ThrowNew k : service (ThrowNew k) (fun _ => excepting);
  law_FindFieldFromCode t c i r n : service (FindFieldFromCode t c i r n) or_pending;
  law_FindMethodFromCode t c i r m : service (FindMethodFromCode t c i r m) or_pending;
  law_ResolveVerifyAndClinit i r c v : service (ResolveVerifyAndClinit i r c v) or_pending;
  law_AllocObjectFromCode c i m : service (AllocObjectFromCode c i m) or_pending;
  law_AllocArrayFromCode c i m n : service (AllocArrayFromCode c i m n) or_pending;
  law_Array_Alloc k n s :
    service (Array_Alloc k n s) (fun a w => or_pending a w /\
      (a <> 0 -> hlength (heap w) a = Some n));
  law_GetClassFromTypeIndex m i : service (GetClassFromTypeIndex m i) or_pending;
  law_FindInstanceFieldWithOffset k o : service (FindInstanceFieldWithOffset k o) ends;
  law_GetEmbeddedVTableEntry k i : service (GetEmbeddedVTableEntry k i) or_pending;
  law_String_IsInitialized : service String_IsInitialized ends;
  law_String_EnsureInitialized :
    service String_EnsureInitialized (fun b w => b = false -> excepting w);
  law_GetDexCacheString m i : service (GetDexCacheString m i) ends;
  law_ClassLinker_ResolveString m i : service (ClassLinker_ResolveString m i) or_pending;
  law_Monitor_Enter o : service (Monitor_Enter o) ends;
  law_Monitor_Exit o : service (Monitor_Exit o) ends;
  law_CatchLocation e : service (CatchLocation e) ends;
  law_EntryPointFromInterpreter m f r : service (EntryPointFromInterpreter m f r) ends;
  law_UnstartedRuntimeInvoke m f r o : service (UnstartedRuntimeInvoke m f r o) ends;
}.

(** ** Objects *)

Section Objects.
Context {R : Runtime} {L : RuntimeLaws R}.

Lemma IsAssignableFrom_typed this src : typed (IsAssignableFrom classes this src).
Proof.
  destruct law_classes as (object & rank & WF).
  destruct (classes !! this) as [c|] eqn:Hc, (classes !! src) as [s|] eqn:Hsrc.
  1: destruct (IsAssignableFrom_spec _ _ _ WF (fuel classes) _ _ _ _ Hc Hsrc) as (b & Hb & _);
    [by apply Nat.lt_succ_r, (wf_rank _ _ _ WF _ c)|by unfold IsAssignableFrom; rewrite Hb].
  all: unfold IsAssignableFrom, fuel; cbn [IsAssignableFrom_depth].
  all: destruct (src =? 0); [done|].
  all: destruct (this =? src); [done|]; unfold class_at; rewrite Hc; cbn; try done.
  by rewrite Hsrc.
Qed.

(** Computations that only look at the world. *)
Definition query {A} (m : rt A) : Prop := forall w, wp m (fun _ w' => w' = w) w.

Lemma query_triple {A} (m : rt A) P : query m -> triple calm P m (fun _ => P).
Proof. intros H w Hc Hp. eapply wp_mono; [apply H|]. by intros a w' ->. Qed.

Lemma query_bind {A B} (m : rt A) (f : A -> rt B) :
  query m -> (forall a, query (f a)) -> query (m ≫= f).
Proof.
  intros Hm Hf w. apply wp_bind. eapply wp_mono; [apply Hm|]. intros a w' ->. apply Hf.
Qed.
Lemma query_ret {A} (a : A) : query (mret a).
Proof. done. Qed.
Lemma query_lift {A} (r : res A) : typed r -> query (lift r).
Proof. intros H w. apply wp_lift. by destruct r. Qed.
Lemma query_gets {A} (f : World -> A) : query (gets f).
Proof. done. Qed.
Lemma query_if {A} (b : bool) (m1 m2 : rt A) : query m1 -> query m2 -> query (if b then m1 else m2).
Proof. by destruct b. Qed.
Lemma query_dcheck_class b : query (dcheck_class b).
Proof. apply query_lift. by destruct b. Qed.
Lemma query_class_at k : query (lift (class_at classes k)).
Proof. apply query_lift. unfold class_at. by destruct (classes !! k). Qed.
Lemma query_load n mem off : query (lift (load n mem off)).
Proof. apply query_lift. unfold load. by destruct (inside _ _ _). Qed.
End Objects.

#[export] Hint Resolve query_bind query_ret query_gets query_if query_dcheck_class query_class_at
  query_load : query.

Section ObjectTriples.
Context {R : Runtime} {L : RuntimeLaws R}.

Lemma query_image obj : query (image obj).
Proof. apply query_bind; [done|]. intros h. apply query_lift. by destruct (h !! obj). Qed.
#[local] Hint Resolve query_image : query.

Lemma query_GetField n obj off : query (GetField n obj off).
Proof. unfold GetField. eauto with query. Qed.
#[local] Hint Resolve query_GetField : query.

Lemma query_GetClass obj : query (GetClass obj).
Proof. unfold GetClass. eauto with query. Qed.
#[local] Hint Resolve query_GetClass : query.

Lemma query_class_of obj : query (class_of classes obj).
Proof. unfold class_of. eauto with query. Qed.
#[local] Hint Resolve query_class_of : query.

Lemma query_GetFieldKind k obj off : query (GetFieldKind k obj off).
Proof. unfold GetFieldKind. eauto with query. Qed.
Lemma query_GetLength obj : query (GetLength obj).
Proof. unfold GetLength. eauto with query. Qed.
Lemma query_IsArrayInstance obj : query (IsArrayInstance classes obj).
Proof. unfold IsArrayInstance. eauto with query. Qed.
Lemma query_component_of obj : query (component_of classes obj).
Proof. unfold component_of. eauto with query. Qed.
#[local] Hint Resolve query_IsArrayInstance query_component_of : query.

Lemma query_IsObjectArray obj : query (IsObjectArray classes obj).
Proof. unfold IsObjectArray. eauto with query. Qed.
#[local] Hint Resolve query_IsObjectArray : query.

Lemma query_as_element_array k obj : query (as_element_array classes k obj).
Proof. destruct k; cbn -[mbind]; unfold AsObjectArray; unfold as_array_of; eauto with query. Qed.

Lemma query_InstanceOf obj klass : query (InstanceOf classes obj klass).
Proof.
  unfold InstanceOf. do 3 (apply query_bind; [eauto with query|intros ?]).
  apply query_lift, IsAssignableFrom_typed.
Qed.
End ObjectTriples.

#[export] Hint Resolve query_image query_GetField query_GetClass query_class_of query_GetFieldKind
  query_GetLength query_IsArrayInstance query_component_of query_IsObjectArray
  query_as_element_array query_InstanceOf : query.

#[export] Hint Extern 1 (triple calm _ _ _) =>
  apply query_triple; solve [eauto with query] : triple.

(** *** Writes and checked indices *)

Section Writes.
Context {R : Runtime} {L : RuntimeLaws R}.

Definition length_is (a n : Z) (w : World) : Prop := hlength (heap w) a = Some n.

Lemma triple_modify (P : World -> Prop) f (Q : unit -> World -> Prop) :
  (forall w, calm w -> P w -> calm (f w) /\ Q tt (f w)) -> triple calm P (modify f) Q.
Proof. intros H w Hc Hp. unfold wp, modify. auto. Qed.

Lemma triple_emit e : service (emit e) ends.
Proof. by apply triple_modify. Qed.
Lemma triple_emit_excepting e : triple calm excepting (emit e) (fun _ => excepting).
Proof. by apply triple_modify. Qed.

Lemma store_typed n mem off v : typed (store n mem off v).
Proof. unfold store. by destruct (inside n mem off). Qed.

Lemma wp_SetField n obj off v (Q : unit -> World -> Prop) w :
  (forall mem mem', heap w !! obj = Some mem -> store n mem off v = Ok mem' ->
     Q tt (with_heap w (<[obj := mem']> (heap w)))) ->
  wp (SetField n obj off v) Q w.
Proof.
  intros H. apply wp_bind. unfold image. apply wp_bind. cbn. apply wp_lift.
  destruct (heap w !! obj) as [mem|] eqn:Hm; [|done]. apply wp_bind, wp_lift.
  pose proof (store_typed n mem off v). destruct (store n mem off v) as [mem'|] eqn:Hs; [|done].
  by eapply H.
Qed.

Lemma triple_SetField n obj off v : service (SetField n obj off v) ends.
Proof. intros w Hc _. by apply wp_SetField. Qed.

Lemma triple_SetField_length n a off v len :
  12 <= off -> triple calm (length_is a len) (SetField n a off v) (fun _ => length_is a len).
Proof.
  intros Ho w Hc Hl. apply wp_SetField. intros mem mem' Hm Hs. split; [done|].
  unfold length_is, hlength in *. cbn. rewrite lookup_insert_eq, Hm in *. cbn in *.
  rewrite (load_store_ne n 4 _ _ LengthOffset _ _ Hs); [done|]. unfold LengthOffset. lia.
Qed.

Lemma triple_CheckIsValidIndex P a i :
  triple calm P (CheckIsValidIndex ThrowNew a i)
    (fun b w => if b then valid_index (heap w) a i /\ P w else excepting w).
Proof.
  intros w Hc Hp. unfold CheckIsValidIndex. apply wp_bind. unfold wp at 1. rewrite GetLength_eq.
  destruct (hlength (heap w) a) as [len|] eqn:Hl; cbn; [|done].
  rewrite Z.geb_leb. destruct (Z.leb_spec (uint32 len) (uint32 i)).
  - apply wp_bind. eapply wp_mono; [by apply law_ThrowNew|]. intros [] w' [? ?]. done.
  - split; [done|]. split; [|done]. exists len. done.
Qed.

Lemma triple_CheckAssignable P a o :
  triple calm P (CheckAssignable classes ThrowNew a o)
    (fun b w => if b then P w else excepting w).
Proof.
  unfold CheckAssignable. destruct (negb (o =? 0)).
  - eapply triple_bind; [apply query_triple; eauto with query|intros c].
    eapply triple_bind; [apply query_triple; eauto with query|intros [|]].
    + by apply triple_ret.
    + eapply triple_bind; [apply triple_forget, law_ThrowNew|intros ?]. by apply triple_ret.
  - by apply triple_ret.
Qed.

(** The debug check of an index that has been checked. *)
Lemma triple_index {A} a i (P : World -> Prop) (m : rt A) Q :
  triple calm P m Q ->
  triple calm (fun w => valid_index (heap w) a i /\ P w)
    (ok ← CheckIsValidIndex ThrowNew a i; dcheck ok;; m) Q.
Proof.
  intros H w Hc [(len & Hl & Hi) Hp]. apply wp_bind. unfold wp at 1, CheckIsValidIndex.
  unfold mbind at 1, M_bind at 1. rewrite GetLength_eq, Hl. cbn [of_option].
  rewrite Z.geb_leb, (proj2 (Z.leb_gt _ _) Hi). cbn -[wp]. apply wp_bind. cbn -[wp]. by apply H.
Qed.

Lemma length_valid a n i w :
  0 <= i < n -> n < 2 ^ 31 -> length_is a n w -> valid_index (heap w) a i.
Proof. intros Hi Hn H. exists n. split; [done|]. int_lia. Qed.

Lemma element_offset_typed P k i :
  triple calm P (element_offset k i) (fun off w => off = slot k i /\ P w).
Proof. intros w Hc Hp. unfold wp. by rewrite element_offset_eq. Qed.

Lemma triple_GetWithoutChecks k a i :
  triple calm (fun w => valid_index (heap w) a i /\ any w) (GetWithoutChecks ThrowNew k a i) ends.
Proof.
  apply triple_index. eapply triple_bind; [apply element_offset_typed|intros off].
  eapply triple_post; [apply query_triple; eauto with query|done].
Qed.
Lemma triple_ObjectArray_GetWithoutChecks a i :
  triple calm (fun w => valid_index (heap w) a i /\ any w)
    (ObjectArray_GetWithoutChecks ThrowNew a i) ends.
Proof. apply (triple_GetWithoutChecks kReference). Qed.

(** [DCHECK(kTransactionActive == Runtime::Current()->IsActiveTransaction())] *)
Lemma triple_inactive {A} (P : World -> Prop) (m : rt A) Q :
  triple calm P m Q ->
  triple calm P (active ← IsActiveTransaction; dcheck (eqb false active);; m) Q.
Proof.
  intros H w Hc Hp. unfold wp, IsActiveTransaction, mbind at 1, M_bind at 1, gets. rewrite Hc.
  by apply H.
Qed.

Lemma triple_SetFieldKind vol k obj off v : service (SetFieldKind false vol k obj off v) ends.
Proof.
  apply triple_inactive. eapply triple_bind; [by apply (triple_ret _ any tt (fun _ => any))|].
  intros ?. apply triple_SetField.
Qed.
Lemma triple_SetFieldObject obj off v : service (SetFieldObject false obj off v) ends.
Proof. apply triple_SetFieldKind. Qed.

Lemma triple_SetFieldObject_length a off v len :
  12 <= off ->
  triple calm (length_is a len) (SetFieldObject false a off v) (fun _ => length_is a len).
Proof.
  intros Ho. apply triple_inactive.
  eapply triple_bind; [by apply (triple_ret _ _ tt (fun _ => length_is a len))|].
  intros ?. by apply triple_SetField_length.
Qed.

Lemma triple_SetWithoutChecks_at (P : World -> Prop) k a i v Q :
  triple calm P (SetField (kind_size k) a (slot k i) v) Q ->
  triple calm (fun w => valid_index (heap w) a i /\ P w)
    (SetWithoutChecks classes ThrowNew false k a i v) Q.
Proof.
  intros H. apply triple_inactive.
  eapply triple_bind; [apply (triple_ret _ _ tt (fun _ w => valid_index (heap w) a i /\ P w)); done|].
  intros ?. apply triple_index. eapply triple_bind; [apply element_offset_typed|intros off].
  apply triple_pure. by intros ->.
Qed.

Lemma triple_SetWithoutChecks k a i v :
  triple calm (fun w => valid_index (heap w) a i /\ any w)
    (SetWithoutChecks classes ThrowNew false k a i v) ends.
Proof. apply triple_SetWithoutChecks_at, triple_SetField. Qed.

Lemma slot_behind_length k i : 0 <= i -> 12 <= slot k i.
Proof. unfold slot, data_offset. destruct k; cbn; lia. Qed.

Lemma triple_SetWithoutChecks_length k a i v n :
  0 <= i < n -> n < 2 ^ 31 ->
  triple calm (length_is a n) (SetWithoutChecks classes ThrowNew false k a i v)
    (fun _ => length_is a n).
Proof.
  intros Hi Hn. eapply triple_pre; [|apply triple_SetWithoutChecks_at, triple_SetField_length].
  - intros w _ Hl. split; [by eapply length_valid|exact Hl].
  - apply slot_behind_length. lia.
Qed.

(** Both debug checks of a reference store. *)
Lemma triple_ObjectArray_SetWithoutChecks_at (P : World -> Prop) a i v Q :
  triple calm P (SetFieldObject false a (slot kReference i) v) Q ->
  triple calm (fun w => valid_index (heap w) a i /\ P w)
    (ObjectArray_SetWithoutChecks classes ThrowNew false a i v) Q.
Proof.
  intros H. apply triple_index.
  eapply triple_bind; [apply triple_CheckAssignable|intros b]. cbv beta.
  destruct b; [|by intros w].
  eapply triple_bind; [apply query_triple; eauto with query|intros ?].
  eapply triple_bind; [apply element_offset_typed|intros off]. apply triple_pure. by intros ->.
Qed.

Lemma triple_ObjectArray_SetWithoutChecks a i v :
  triple calm (fun w => valid_index (heap w) a i /\ any w)
    (ObjectArray_SetWithoutChecks classes ThrowNew false a i v) ends.
Proof. apply triple_ObjectArray_SetWithoutChecks_at, triple_SetFieldObject. Qed.

Lemma triple_ObjectArray_SetWithoutChecks_length a i v n :
  0 <= i < n -> n < 2 ^ 31 ->
  triple calm (length_is a n) (ObjectArray_SetWithoutChecks classes ThrowNew false a i v)
    (fun _ => length_is a n).
Proof.
  intros Hi Hn.
  eapply triple_pre; [|apply triple_ObjectArray_SetWithoutChecks_at, triple_SetFieldObject_length].
  - intros w _ Hl. split; [by eapply length_valid|exact Hl].
  - apply slot_behind_length. lia.
Qed.
End Writes.
