(* ===== verification/InterpreterSafety.v ===== *)
(** * Verified code does not leave its method

    The static passes of the method verifier look at registers, branches, switch
    tables and exception handlers; the interpreter then runs the code without
    looking at them again.  This file proves that the two fit together: on code
    the static passes accept, a step of the switch interpreter reads and writes
    only registers of the frame and code units of the method, no check of the
    interpreter fails, and control follows an edge of the static control-flow
    graph.  The one fault left is [BadReference], which is a matter of the types of
    objects and the subject of the data-flow pass.

    The theorems are about the mode in which verified code is run: without access
    checks and outside a transaction. *)

From S2P Require Import Prelude Modifiers Leb128 DexOpcodes DexInstruction DexCode StaticVerifier StaticVerifierFacts StaticVerifierTheorems ShadowFrame Float Memory ClassHierarchy Heap Transactions InterpreterCommon InterpreterSwitch InterpreterLogic.

(** ** The handlers that cover an address *)

Section Handlers.
Context (env : VerifierEnv) (ci : CodeItem).

(** The handler lists the try items name: what the verifier of the dex file checks
    of a code item. *)
Definition handler_offsets_ok : Prop :=
  forall k t, 0 <= k < tries_size_ ci -> GetTryItems ci k = Ok t ->
    0 <= handler_off_ t /\
    exists q, GetCatchHandlerData ci (handler_off_ t) = Ok q /\ handler_list ci q.

Context (OK : statically_ok env ci) (HO : handler_offsets_ok).
Context (Hsize : 0 <= tries_size_ ci).

Lemma FindTryItem_loop_total fuel address min max :
  0 <= min -> max < tries_size_ ci -> max - min + 1 < Z.of_nat fuel -> min <= max + 1 ->
  exists r, FindTryItem_loop fuel ci address min max = Ok r /\
    (r = -1 \/ 0 <= r < tries_size_ ci).
Proof.
  revert min max. induction fuel as [|fuel IH]; intros min max Hmin Hmax Hf Hle; [lia|].
  cbn [FindTryItem_loop]. destruct (Z.leb_spec min max); [|eauto].
  set (mid := min + (max - min) ÷ 2).
  assert (min <= mid <= max).
  { subst mid. rewrite Z.quot_div_nonneg by lia. Z.div_mod_to_equations. lia. }
  destruct (so_tries _ _ OK mid) as (t & Ht & _); [lia|]. rewrite Ht. cbn.
  destruct (address <? start_addr_ t); [apply IH; lia|].
  destruct (address >=? _); [apply IH; lia|]. exists mid. split; [done|]. lia.
Qed.

Lemma FindCatchHandlerOffset_total address :
  exists r, FindCatchHandlerOffset ci address = Ok r /\
    (r = -1 \/ exists k t, 0 <= k < tries_size_ ci /\ GetTryItems ci k = Ok t /\ r = handler_off_ t).
Proof.
  destruct (FindTryItem_loop_total (S (Z.to_nat (tries_size_ ci))) address 0 (tries_size_ ci - 1))
    as (r & Hr & Hc); [lia..|].
  unfold FindCatchHandlerOffset, FindTryItem. rewrite Hr. cbn.
  destruct (Z.eqb_spec r (-1)); [eauto|]. destruct Hc as [?|Hc]; [done|].
  destruct (so_tries _ _ OK r Hc) as (t & Ht & _). rewrite Ht. cbn. eauto 8.
Qed.

Lemma walk_enough fuel fuel' it r :
  CatchHandlerIterator.walk fuel it = Ok r -> (iterator_measure it < fuel')%nat ->
  CatchHandlerIterator.walk fuel' it = Ok r.
Proof.
  revert fuel' it r. induction fuel as [|fuel IH]; intros fuel' it r H Hm; [done|].
  destruct fuel' as [|fuel']; [lia|]. cbn in *. destruct (CatchHandlerIterator.HasNext it) eqn:Hn;
    [|done].
  inv_res. rewrite E. cbn. destruct a0 as [rest final]. apply Next_measure in E; [|done].
  rewrite (IH fuel' _ _ E0) by lia. done.
Qed.

(** The fields an iterator starts from are overwritten. *)
Lemma Init_data_any ty ad ty' ad' data :
  CatchHandlerIterator.Init_data ty ad data = CatchHandlerIterator.Init_data ty' ad' data.
Proof.
  unfold CatchHandlerIterator.Init_data. destruct (DecodeSignedLeb128 data) as [[n d]|]; [|done].
  cbn. destruct (Z.leb_spec n 0); unfold CatchHandlerIterator.Next; cbn; [done|].
  by rewrite (proj2 (Z.gtb_lt _ _)) by lia.
Qed.

Lemma handlers_at_address address :
  exists it es final, CatchHandlerIterator.at_address ci address = Ok it /\
    CatchHandlerIterator.walk (length (handlers_ ci) + 2) it = Ok (es, final) /\
    Forall (fun e => instruction_start (insns_ ci) e.2) es.
Proof.
  assert (forall off, (off = -1 \/ exists k t, 0 <= k < tries_size_ ci /\
      GetTryItems ci k = Ok t /\ off = handler_off_ t) ->
    exists it es final, CatchHandlerIterator.Init ci off = Ok it /\
      CatchHandlerIterator.walk (length (handlers_ ci) + 2) it = Ok (es, final) /\
      Forall (fun e => instruction_start (insns_ ci) e.2) es) as Hinit.
  { intros off [->|(k & t & Hk & Ht & ->)].
    - eexists _, [], _. split_and!; [done| |done]. by rewrite Nat.add_comm.
    - destruct (HO k t Hk Ht) as (Hoff & q & Hq & Hl).
      destruct (so_handlers _ _ OK ltac:(lia) q Hl) as (it & f & es & final & Hit & Hw & Hes).
      exists it, es, final. split_and!; [| |done].
      + unfold CatchHandlerIterator.Init. rewrite Z.geb_leb, (proj2 (Z.leb_le _ _) Hoff), Hq. cbn.
        by rewrite (Init_data_any _ _ 0 0).
      + eapply walk_enough; [done|]. apply of_data_measure in Hit.
        unfold GetCatchHandlerData in Hq. case_match; [done|]. injection Hq as <-.
        rewrite length_drop in Hit. lia. }
  unfold CatchHandlerIterator.at_address.
  destruct (Z.eqb_spec (tries_size_ ci) 0); [by apply Hinit; left|].
  destruct (Z.eqb_spec (tries_size_ ci) 1).
  - destruct (so_tries _ _ OK 0) as (t & Ht & _); [lia|]. rewrite Ht. cbn -[CatchHandlerIterator.Init].
    repeat case_match; apply Hinit; eauto; right; exists 0, t; split_and!; auto; lia.
  - destruct (FindCatchHandlerOffset_total address) as (r & Hr & Hc). rewrite Hr.
    by apply Hinit.
Qed.
End Handlers.

(** ** Verified methods *)

(** A method whose code the static passes accept, with what other parts establish:
    the class linker (the method has this code, an instance method has a receiver)
    and the dex file verifier (handler offsets).  Two facts about payloads come from
    the compiler that produced the code: switch tables have entries, which nothing
    checks but a debug check of the interpreter, and the product of the width and the
    count of array data does not overflow, which the static passes get wrong. *)
Record verified_method {R : Runtime} (env : VerifierEnv) (ci : CodeItem) (method : Z)
    (am : ArtMethod) : Prop := {
  vm_wf : code_item_wf ci;
  vm_static : statically_ok env ci;
  vm_tries : 0 <= tries_size_ ci;
  vm_handlers : handler_offsets_ok ci;
  vm_nonnull : method <> 0;
  vm_method : methods !! method = Some am;
  vm_code : method_code_item am = Some ci;
  vm_native : has_access (method_access_flags am) kAccNative = false;
  vm_ins : 0 <= ins_size_ ci;
  vm_this : has_access (method_access_flags am) kAccStatic = false -> 0 < ins_size_ ci;
  vm_switch pc c off count : instruction_start (insns_ ci) pc ->
    Opcode (At (insns_ ci) pc) = Ok c -> switch_ok env ci pc c off count -> 0 < count;
  vm_array_data pc off : instruction_start (insns_ ci) pc ->
    Opcode (At (insns_ ci) pc) = Ok FILL_ARRAY_DATA -> VRegB (At (insns_ ci) pc) = Ok off ->
    exists width count, Fetch16 (At (insns_ ci) (pc + off)) 0 = Ok kArrayDataSignature /\
      Fetch16 (At (insns_ ci) (pc + off)) 1 = Ok width /\
      Fetch32 (At (insns_ ci) (pc + off)) 2 = Ok count /\
      (width = 1 \/ width = 2 \/ width = 4 \/ width = 8) /\ width * count < 2 ^ 31;
}.

(** The activation: the frame has the registers of the method. *)
Record st_ok (ci : CodeItem) (method : Z) (s : Interp) : Prop := {
  st_frame : frame_ok (frame s);
  st_size : number_of_vregs_ (frame s) = registers_size_ ci;
  st_method : method_ (frame s) = method;
  st_calm : calm (world s);
}.

(** The edges of the static control-flow graph of the method. *)
Definition continues (c : Code) : Prop := has_flag (kInstructionFlags c) kContinue = true.
Definition handler_of (ci : CodeItem) (pc addr : Z) : Prop :=
  exists it fuel es final, CatchHandlerIterator.at_address ci pc = Ok it /\
    CatchHandlerIterator.walk fuel it = Ok (es, final) /\ addr ∈ es.*2.

Inductive flows_to (ci : CodeItem) (pc : Z) : Z -> Prop :=
  | flow_next c : Opcode (At (insns_ ci) pc) = Ok c -> continues c ->
      flows_to ci pc (pc + format_size (FormatOf c))
  | flow_branch off cond self : GetBranchOffset ci pc = Ok (Some (off, cond, self)) ->
      flows_to ci pc (pc + off)
  | flow_switch c off count k t : Opcode (At (insns_ ci) pc) = Ok c ->
      c = PACKED_SWITCH \/ c = SPARSE_SWITCH ->
      VRegB (At (insns_ ci) pc) = Ok off -> Fetch16 (At (insns_ ci) (pc + off)) 1 = Ok count ->
      0 <= k < count -> table_word ci (pc + off) (switch_targets c count + k * 2) = Ok t ->
      flows_to ci pc (pc + t)
  | flow_handler addr : handler_of ci pc addr -> flows_to ci pc addr.

Definition raised (s : Interp) : Prop := excepting (world s).
Definition or_raised (a : Z) (s : Interp) : Prop := or_pending a (world s).

Section Activation.
Context {R : Runtime} {L : RuntimeLaws R}.
Context (env : VerifierEnv) (ci : CodeItem) (method : Z) (am : ArtMethod).
Context (VM : verified_method env ci method am).
Local Abbreviation code := (insns_ ci).
Local Abbreviation ok := (st_ok ci method).

(** *** Registers *)

Lemma triple_read {A} (f : ShadowFrame -> res A) P :
  (forall s, ok s -> exists v, f (frame s) = Ok v) -> triple ok P (read f) (fun _ => P).
Proof.
  intros H s Hi Hp. destruct (H s Hi) as [v Hv]. apply wp_bind. cbn. apply wp_lift. by rewrite Hv.
Qed.

Ltac read_tac lem :=
  intros; apply triple_read; intros s Hs;
  edestruct (lem (frame s) (st_frame _ _ _ Hs)) as (? & ? & _);
  [rewrite ?(st_size _ _ _ Hs); eassumption..|eauto].

Lemma triple_vreg P r : register_ok ci r -> triple ok P (vreg r) (fun _ => P).
Proof. read_tac GetVReg_ok. Qed.
Lemma triple_vreg_float P r : register_ok ci r -> triple ok P (vreg_float r) (fun _ => P).
Proof. read_tac GetVRegFloat_ok. Qed.
Lemma triple_vreg_reference P r : register_ok ci r -> triple ok P (vreg_reference r) (fun _ => P).
Proof. read_tac GetVRegReference_ok. Qed.
Lemma triple_vreg_long P r : pair_ok ci r -> triple ok P (vreg_long r) (fun _ => P).
Proof. intros [? ?]. read_tac GetVRegLong_ok. Qed.
Lemma triple_vreg_double P r : pair_ok ci r -> triple ok P (vreg_double r) (fun _ => P).
Proof. intros [? ?]. read_tac GetVRegDouble_ok. Qed.

Lemma triple_update f :
  (forall sf, frame_ok sf -> number_of_vregs_ sf = registers_size_ ci ->
     exists sf', f sf = Ok sf' /\ frame_ok sf' /\ same_shape sf sf') ->
  triple ok any (update f) ends.
Proof.
  intros H s [Hf Hs Hm Hc] _. destruct (H (frame s) Hf Hs) as (sf' & Hv & ? & [? ?]).
  apply wp_bind. cbn. apply wp_bind, wp_lift. rewrite Hv. split; [|done]. by split; cbn; congruence.
Qed.

Ltac update_tac lem :=
  intros; apply triple_update; intros ? ? Hn; apply lem; [done|rewrite ?Hn; eassumption..].

Lemma triple_set_vreg r v : register_ok ci r -> triple ok any (set_vreg r v) ends.
Proof. update_tac SetVReg_ok. Qed.
Lemma triple_set_vreg_float r v : register_ok ci r -> triple ok any (set_vreg_float r v) ends.
Proof. update_tac SetVReg_ok. Qed.
Lemma triple_set_vreg_reference r v :
  register_ok ci r -> triple ok any (set_vreg_reference r v) ends.
Proof. update_tac SetVRegReference_ok. Qed.
Lemma triple_set_vreg_long r v : pair_ok ci r -> triple ok any (set_vreg_long r v) ends.
Proof. intros [? ?]. update_tac SetVRegLong_ok. Qed.
Lemma triple_set_vreg_double r v : pair_ok ci r -> triple ok any (set_vreg_double r v) ends.
Proof. intros [? ?]. update_tac SetVRegLong_ok. Qed.

Lemma triple_GetMethod P : triple ok P (read GetMethod) (fun m s => m = method /\ P s).
Proof.
  intros s Hi Hp. apply wp_bind. cbn. apply wp_lift. unfold GetMethod.
  rewrite (st_method _ _ _ Hi), (proj2 (Z.eqb_neq _ _) (vm_nonnull _ _ _ _ VM)). done.
Qed.

(** *** The world *)

Lemma triple_run_at {A} (m : rt A) Pw Qw :
  triple calm Pw m Qw ->
  triple ok (fun s => Pw (world s)) (run m) (fun a s => Qw a (world s)).
Proof.
  intros H s [Hf Hs Hm Hc] Hp. apply wp_run. eapply wp_mono; [by apply H|].
  intros a w [? ?]. split; [by split|done].
Qed.

Lemma triple_run {A} (m : rt A) Qw :
  service m Qw -> triple ok any (run m) (fun a s => Qw a (world s)).
Proof. apply triple_run_at. Qed.

Lemma triple_run_query {A} (m : rt A) P : query m -> triple ok P (run m) (fun _ => P).
Proof.
  intros H s Hi Hp. apply wp_run. eapply wp_mono; [apply H|].
  intros a w ->. destruct s; done.
Qed.

Lemma triple_emit_raised e : triple ok raised (run (emit e)) (fun _ => raised).
Proof. apply (triple_run_at _ _ _ (triple_emit_excepting e)). Qed.

Lemma triple_pending P : triple ok P pending (fun b s => (b = true <-> raised s) /\ P s).
Proof.
  intros s Hi Hp. unfold pending, run, wp, IsExceptionPending, gets.
  split; [by destruct s|]. split; [|by destruct s].
  unfold raised, excepting. cbn. by rewrite negb_true_iff, Z.eqb_neq.
Qed.

Lemma triple_CHECK P b : b = true -> triple ok P (CHECK b) (fun _ => P).
Proof. intros ->. by apply triple_lift. Qed.

(** [DCHECK(self->IsExceptionPending())] *)
Lemma triple_check_pending {A} (m : interp A) Q :
  triple ok raised m Q -> triple ok raised (p ← pending; CHECK p;; m) Q.
Proof.
  intros H. eapply triple_bind; [apply triple_pending|intros p].
  intros s Hi [Hp Hr]. rewrite (proj2 Hp Hr). by apply H.
Qed.
End Activation.

#[export] Hint Resolve triple_vreg triple_vreg_float triple_vreg_reference triple_vreg_long
  triple_vreg_double triple_set_vreg triple_set_vreg_float triple_set_vreg_reference
  triple_set_vreg_long triple_set_vreg_double triple_GetMethod triple_emit_raised
  triple_CHECK : triple.
Create HintDb service.
#[export] Hint Extern 1 (triple (st_ok _ _) _ (run _) _) =>
  apply triple_run_query; solve [eauto with query] : triple.
#[export] Hint Extern 2 (triple (st_ok _ _) any (run _) _) =>
  apply triple_run; solve [eauto with service] : triple.

#[export] Hint Resolve law_ThrowNew law_FindFieldFromCode law_FindMethodFromCode
  law_ResolveVerifyAndClinit law_AllocObjectFromCode law_AllocArrayFromCode law_Array_Alloc
  law_GetClassFromTypeIndex law_FindInstanceFieldWithOffset law_GetEmbeddedVTableEntry
  law_String_IsInitialized law_String_EnsureInitialized law_GetDexCacheString
  law_ClassLinker_ResolveString law_Monitor_Enter law_Monitor_Exit law_CatchLocation
  law_EntryPointFromInterpreter law_UnstartedRuntimeInvoke
  triple_emit triple_SetField triple_SetFieldKind triple_SetFieldObject : service.

Section Exceptions.
Context {R : Runtime} {L : RuntimeLaws R}.
Context (env : VerifierEnv) (ci : CodeItem) (method : Z) (am : ArtMethod).
Context (VM : verified_method env ci method am).
Local Abbreviation code := (insns_ ci).
Local Abbreviation ok := (st_ok ci method).

Lemma triple_method_at P m :
  triple ok P (method_at m) (fun a s => methods !! m = Some a /\ P s).
Proof. intros s Hi Hp. apply wp_lift. by destruct (methods !! m). Qed.
Lemma triple_field_at P f : triple ok P (field_at f) (fun _ => P).
Proof. apply triple_lift. by destruct (fields !! f). Qed.

Lemma this_register :
  has_access (method_access_flags am) kAccStatic = false ->
  register_ok ci (registers_size_ ci - ins_size_ ci).
Proof.
  intros H. pose proof (vm_this _ _ _ _ VM H). pose proof (so_registers _ _ (vm_static _ _ _ _ VM)).
  unfold register_ok. lia.
Qed.

Lemma triple_GetThisObject P : triple ok P GetThisObject (fun _ => P).
Proof.
  unfold GetThisObject. tstep. apply triple_pure. intros ->.
  eapply triple_bind; [apply triple_method_at|intros m]. apply triple_pure. intros Hm.
  rewrite (vm_method _ _ _ _ VM) in Hm. injection Hm as <-.
  destruct (has_access _ kAccStatic) eqn:Hs; [by apply triple_ret|].
  rewrite (vm_native _ _ _ _ VM), (vm_code _ _ _ _ VM).
  pose proof (this_register Hs) as [? ?]. pose proof (wf_registers _ (vm_wf _ _ _ _ VM)).
  replace (uint16 _) with (registers_size_ ci - ins_size_ ci) by int_lia.
  apply triple_vreg_reference. by apply this_register.
Qed.

Lemma triple_GetThisObject_ins P : triple ok P (GetThisObject_ins (ins_size_ ci)) (fun _ => P).
Proof.
  unfold GetThisObject_ins. tstep. apply triple_pure. intros ->.
  eapply triple_bind; [apply triple_method_at|intros m]. apply triple_pure. intros Hm.
  rewrite (vm_method _ _ _ _ VM) in Hm. injection Hm as <-.
  destruct (has_access _ kAccStatic) eqn:Hs; [by apply triple_ret|].
  eapply triple_bind; [apply triple_gets|intros n]. intros s Hi [-> Hp].
  unfold NumberOfVRegs. rewrite (st_size _ _ _ Hi).
  pose proof (this_register Hs) as [? ?]. pose proof (wf_registers _ (vm_wf _ _ _ _ VM)).
  replace (uint32 _) with (registers_size_ ci - ins_size_ ci) by int_lia.
  apply triple_vreg_reference; [by apply this_register|done|done].
Qed.

Lemma triple_GetCurrentLocationForThrow P : triple ok P GetCurrentLocationForThrow (fun _ => P).
Proof.
  unfold GetCurrentLocationForThrow. eapply triple_bind; [apply triple_GetThisObject|intros ?].
  tstep. apply triple_ret. by intros ? _ [_ ?].
Qed.

Lemma triple_throw k : triple ok any (run (ThrowNew k)) (fun _ => raised).
Proof. apply (triple_run ci method _ _ (law_ThrowNew k)). Qed.

Lemma triple_ThrowNullPointerExceptionFromInterpreter :
  triple ok any ThrowNullPointerExceptionFromInterpreter (fun _ => raised).
Proof.
  eapply triple_bind; [apply triple_GetCurrentLocationForThrow|intros ?]. apply triple_throw.
Qed.

(** *** The search for a handler *)

Lemma triple_FindCatchBlock_loop fuel m k it es final :
  CatchHandlerIterator.walk fuel it = Ok (es, final) ->
  service (FindCatchBlock_loop fuel m k it) (fun r _ => r = kDexNoIndex \/ r ∈ es.*2).
Proof.
  revert it es. induction fuel as [|fuel IH]; intros it es Hw; [done|].
  cbn [FindCatchBlock_loop CatchHandlerIterator.walk] in *.
  destruct (CatchHandlerIterator.HasNext it); [|apply triple_ret; by left].
  inv_res. destruct a0 as [rest final']. injection Hw as <- <-. cbn [negb].
  destruct (_ =? kDexNoIndex16); [apply triple_ret; right; left|].
  eapply triple_bind; [apply law_GetClassFromTypeIndex|intros ik].
  eapply triple_bind with (Q := fun _ => any).
  { destruct (ik =? 0).
    - eapply triple_bind; [by apply (triple_modify _ _ (fun _ => any))|].
      intros ?. by apply triple_ret.
    - eapply triple_post; [apply triple_lift, IsAssignableFrom_typed|done]. }
  intros found. destruct found; [apply triple_ret; right; left|].
  eapply triple_bind; [by apply triple_lift_ok|intros it']. apply triple_pure. intros ->.
  eapply triple_post; [by apply IH|]. cbn. intros r w _ [?|?]; [by left|right; by right].
Qed.

Lemma opcode_at pc : instruction_start code pc ->
  exists c, Opcode (At code pc) = Ok c /\ instruction_ok env ci pc c.
Proof. apply (so_instructions _ _ (vm_static _ _ _ _ VM)). Qed.

(** The exception is put back as it was. *)
Lemma triple_restore e b :
  service (if negb (e =? 0) then
             SetException e;; modify (fun w => with_exception w (exception w) b)
           else mret tt) ends.
Proof.
  destruct (Z.eqb_spec e 0) as [->|He]; cbn -[mbind]; [by apply triple_ret|].
  unfold SetException. rewrite (proj2 (Z.eqb_neq _ _) He). by intros w.
Qed.

Definition found (pc r : Z) : Prop :=
  r = kDexNoIndex \/ (handler_of ci pc r /\ instruction_start code r).

Lemma triple_FindCatchBlock k pc :
  service (FindCatchBlock method k pc) (fun r _ => found pc r.1).
Proof.
  unfold FindCatchBlock. rewrite (vm_method _ _ _ _ VM).
  eapply triple_bind; [by apply triple_lift_ok|intros m]. apply triple_pure. intros ->.
  rewrite (vm_code _ _ _ _ VM).
  eapply triple_bind; [by apply triple_lift_ok|intros c]. apply triple_pure. intros ->.
  eapply triple_bind; [apply triple_gets|intros e].
  eapply triple_bind; [apply triple_gets|intros b].
  eapply triple_bind; [by apply (triple_modify _ _ (fun _ => any))|intros ?].
  destruct (handlers_at_address env ci (vm_static _ _ _ _ VM) (vm_handlers _ _ _ _ VM)
    (vm_tries _ _ _ _ VM) pc) as (it & es & final & Hit & Hw & Hes).
  eapply triple_bind; [by apply triple_lift_ok|intros it']. apply triple_pure. intros ->.
  eapply triple_bind; [apply triple_forget; by eapply triple_FindCatchBlock_loop|intros r].
  apply (triple_pre _ _ (fun w => found pc r /\ any w)).
  { intros w _ [->|Hr]; [by split; [left|]|]. split; [|done]. right. split; [by eexists _, _, _, _|].
    apply list_elem_of_fmap in Hr as (x & -> & Hx). by eapply Forall_forall in Hes. }
  apply triple_pure. intros Hr.
  eapply triple_bind with (Q := fun _ => any).
  { destruct (Z.eqb_spec r kDexNoIndex) as [|Hne]; cbn [negb]; [by apply triple_ret|].
    destruct Hr as [|[_ Hr]]; [done|]. destruct (opcode_at r Hr) as (oc & Hoc & _).
    eapply triple_bind; [by apply triple_lift_ok|intros ?]. by apply triple_ret. }
  intros hm. eapply triple_bind; [apply triple_restore|intros ?]. by apply triple_ret.
Qed.

Lemma triple_FindNextInstructionFollowingException pc :
  triple ok raised (FindNextInstructionFollowingException pc) (fun r _ => found pc r).
Proof.
  unfold FindNextInstructionFollowingException.
  eapply triple_bind; [apply triple_run_query; eauto with query|intros e].
  eapply triple_bind; [apply triple_gets|intros b].
  eapply triple_bind with (Q := fun _ => any).
  { destruct (negb b && _); [|by apply triple_ret].
    do 2 (eapply triple_bind; [tspec|intros ?]).
    apply (triple_run_at ci method _ (fun _ => True) (fun _ => any)); by apply triple_modify. }
  intros ?. tstep. tstep. apply triple_pure. intros ->.
  eapply triple_bind; [apply triple_run, triple_FindCatchBlock|intros [r clear]]. cbn [fst].
  apply (triple_pre _ _ (fun s => found pc r /\ any s)); [by intros|].
  apply triple_pure. intros Hr. destruct (r =? kDexNoIndex).
  - eapply triple_bind; [apply triple_GetThisObject|intros this]. tstep. by apply triple_ret.
  - eapply triple_bind; [apply triple_gets|intros reported].
    eapply triple_bind with (Q := fun _ => any).
    { destruct reported; [|by apply triple_ret].
      eapply triple_bind; [apply triple_GetThisObject|intros this].
      eapply triple_post; [tspec|done]. }
    intros ?. eapply triple_bind with (Q := fun _ => any); [|intros ?; by apply triple_ret].
    destruct clear; [|by apply triple_ret].
    apply (triple_run_at ci method _ (fun _ => True) (fun _ => any)); by apply triple_modify.
Qed.
End Exceptions.
