(* ===== verification/InterpreterSteps.v ===== *)
(** * One instruction of verified code

    The triples of the cases of [ExecuteSwitchImpl]: an instruction the static
    passes accept, started in the activation of its method, ends in the same
    activation with control at a successor of the instruction. *)

From S2P Require Import Prelude Modifiers Leb128 DexOpcodes DexInstruction DexCode StaticVerifier StaticVerifierFacts ShadowFrame Float Memory ClassHierarchy Heap Transactions InterpreterCommon InterpreterSwitch InterpreterLogic InterpreterSafety.

Create HintDb view.
#[export] Hint Extern 0 (FormatOf _ = _) => reflexivity : view.
#[export] Hint Resolve VRegA_10t_view VRegA_11n_view VRegA_11x_view VRegA_12x_view VRegA_21c_view
  VRegA_21h_view VRegA_21s_view VRegA_21t_view VRegA_22b_view VRegA_22c_view VRegA_22s_view
  VRegA_22t_view VRegA_22x_view VRegA_23x_view VRegA_31c_view VRegA_31i_view VRegA_31t_view
  VRegA_35c_view VRegA_3rc_view VRegA_51l_view VRegA_20t_view VRegA_30t_view VRegA_32x_view
  VRegB_11n_view VRegB_12x_view VRegB_22c_view VRegB_22s_view VRegB_22t_view VRegB_21c_view
  VRegB_21h_view VRegB_21s_view VRegB_21t_view VRegB_22b_view VRegB_22x_view VRegB_23x_view
  VRegB_31i_view VRegB_31t_view VRegB_32x_view VRegB_35c_view VRegB_3rc_view
  VRegC_22b_view VRegC_22c_view VRegC_22s_view VRegC_22t_view VRegC_23x_view VRegC_35c_view
  VRegC_3rc_view : view.

Lemma operand_view acc generic lo hi P :
  view acc generic lo hi -> operand_ok generic P -> operand_ok acc P.
Proof. intros (v & -> & -> & _) (r & [= <-] & ?). by exists v. Qed.
Lemma operand_any acc generic lo hi : view acc generic lo hi -> operand_ok acc any.
Proof. intros (v & -> & _). by exists v. Qed.

Lemma triple_operand {S B} (I P : S -> Prop) acc PZ (f : Z -> M S B) Q :
  operand_ok acc PZ -> (forall r, PZ r -> triple I P (f r) Q) -> triple I P (lift acc ≫= f) Q.
Proof. intros (r & -> & Hr) Hf s Hi Hp. by apply (Hf r Hr). Qed.

Section Instruction.
Context {R : Runtime} {L : RuntimeLaws R}.
Context (env : VerifierEnv) (ci : CodeItem) (method : Z) (am : ArtMethod).
Context (VM : verified_method env ci method am).
Local Abbreviation code := (insns_ ci).
Local Abbreviation ok := (st_ok ci method).
Context (pc : Z) (c : Code) (d : Z).
Local Abbreviation inst := (At code pc).
Context (Hstart : instruction_start code pc) (IO : instruction_ok env ci pc c).
Context (Hd : Fetch16 inst 0 = Ok d).

Definition lands (o : outcome) (_ : Interp) : Prop :=
  match o with Goto i => insns i = code /\ flows_to ci pc (pos i) | Return _ => True end.

Lemma opcode_here : Opcode inst = Ok c.
Proof. apply (fits_opcode _ _ (ok_fits _ _ _ _ IO)). Qed.

Lemma pc_range : 0 <= pc < 2 ^ 31.
Proof.
  pose proof (walks_bounds _ _ _ Hstart). pose proof (wf_small _ (vm_wf _ _ _ _ VM)). lia.
Qed.

Lemma dex_pc_here : GetDexPc inst = pc.
Proof. pose proof pc_range. unfold GetDexPc. cbn. int_lia. Qed.

(** ** Where control goes *)

Lemma triple_goto P next n :
  next inst = Ok (At code (pc + n)) -> continues c -> format_size (FormatOf c) = n ->
  triple ok P (goto inst next) lands.
Proof.
  intros Hn Hc <-. eapply triple_bind; [by apply triple_lift_ok|intros i].
  apply triple_pure. intros ->. apply triple_ret. intros s _ _. split; [done|].
  apply flow_next; [apply opcode_here|done].
Qed.

Ltac next_tac :=
  intros Hc Hf; apply triple_goto with (n := format_size (FormatOf c)); [|done|done];
  unfold Next_1xx, Next_2xx, Next_3xx, Next_51l, dcheck_format_between, dcheck_format;
  rewrite opcode_here; cbn; by destruct (FormatOf c).

Lemma triple_next_1xx P :
  continues c -> format_size (FormatOf c) = 1 -> triple ok P (next_1xx inst) lands.
Proof. next_tac. Qed.
Lemma triple_next_2xx P :
  continues c -> format_size (FormatOf c) = 2 -> triple ok P (next_2xx inst) lands.
Proof. next_tac. Qed.
Lemma triple_next_3xx P :
  continues c -> format_size (FormatOf c) = 3 -> triple ok P (next_3xx inst) lands.
Proof. next_tac. Qed.
Lemma triple_next_51l P :
  continues c -> format_size (FormatOf c) = 5 -> triple ok P (goto inst Next_51l) lands.
Proof. next_tac. Qed.

Lemma triple_branch P off :
  flows_to ci pc (pc + off) -> triple ok P (branch inst off) lands.
Proof.
  intros Hf. eapply triple_bind with (Q := fun _ => any).
  - destruct (IsBackwardBranch off); [|by apply triple_ret].
    by eapply triple_post; [tspec|].
  - intros ?. apply triple_ret. by intros.
Qed.

Lemma triple_HANDLE_PENDING_EXCEPTION : triple ok raised (HANDLE_PENDING_EXCEPTION inst) lands.
Proof.
  unfold HANDLE_PENDING_EXCEPTION. rewrite dex_pc_here. apply triple_check_pending. tstep.
  eapply triple_bind; [by eapply triple_FindNextInstructionFollowingException|intros r]. cbv beta.
  apply (triple_pre _ _ (fun s => found ci pc r /\ any s)); [by intros|].
  apply triple_pure. intros Hr. destruct (Z.eqb_spec r kDexNoIndex); [by apply triple_ret|].
  destruct Hr as [?|[Hh Hs]]; [done|]. apply triple_ret. intros s _ _. split; [done|]. cbn.
  pose proof (walks_bounds _ _ _ Hs). pose proof (wf_small _ (vm_wf _ _ _ _ VM)).
  pose proof pc_range.
  replace (pc + _) with r by int_lia. by apply flow_handler.
Qed.

Lemma triple_POSSIBLY b next :
  triple ok any next lands ->
  triple ok (fun s => b = true -> raised s) (POSSIBLY_HANDLE_PENDING_EXCEPTION inst b next) lands.
Proof.
  intros Hn. destruct b; cbn.
  - eapply triple_pre; [|apply triple_HANDLE_PENDING_EXCEPTION]. auto.
  - by apply triple_forget.
Qed.

Lemma triple_dex_pc_moved P : triple ok P (dex_pc_moved ci inst) ends.
Proof.
  eapply triple_bind; [by eapply triple_GetThisObject_ins|intros ?]. tstep.
  eapply triple_post; [tspec|done].
Qed.

Lemma triple_PREAMBLE P :
  has_flag (kInstructionFlags c) kReturn = false -> triple ok P (PREAMBLE ci inst) ends.
Proof.
  intros Hr. unfold PREAMBLE, IsReturn. rewrite opcode_here.
  eapply triple_bind; [by apply triple_lift_ok|intros b]. apply triple_pure. intros ->.
  rewrite Hr. tstep. eapply triple_bind; [apply triple_gets|intros n]. destruct n.
  - intros s [] _. by split; [split|].
  - destruct HasDexPcListeners; [apply triple_dex_pc_moved|by apply triple_ret].
Qed.

(** ** Shapes of instructions *)

Definition reads {A} (get : Z -> interp A) (PZ : Z -> Prop) : Prop :=
  forall P r, PZ r -> triple ok P (get r) (fun _ => P).
Definition writes {A} (set : Z -> A -> interp unit) (PZ : Z -> Prop) : Prop :=
  forall r v, PZ r -> triple ok any (set r v) ends.
Definition no_return : Prop := has_flag (kInstructionFlags c) kReturn = false.

(** The next step of a case, from the operands and accesses assumed. *)
Ltac istep :=
  match goal with
  | |- triple _ _ (PREAMBLE _ _ ≫= _) _ => eapply triple_bind; [by apply triple_PREAMBLE|intros ?]
  | H : operand_ok ?acc _ |- triple _ _ (lift ?acc ≫= _) _ =>
      eapply (triple_operand _ _ _ _ _ _ H); intros ? ?
  | H : reads ?get _ |- triple _ _ (?get _ ≫= _) _ =>
      eapply triple_bind; [eapply H; eassumption|intros ?]; cbv beta
  | H : writes ?set _ |- triple _ _ (?set _ _ ≫= _) _ =>
      eapply triple_bind; [apply triple_forget; eapply H; eassumption|intros ?]; cbv beta
  | H : triple _ any ?next lands |- triple _ _ ?next _ => apply triple_forget, H
  | |- triple _ _ (HANDLE_PENDING_EXCEPTION _) _ =>
      eapply triple_pre; [|apply triple_HANDLE_PENDING_EXCEPTION]
  | _ => tstep; cbv beta
  end.

Section Shapes.
Context (PA PB PC : Z -> Prop) (regA regB regC : res Z) (next : interp outcome).
Context (NR : no_return).
Context (HA : operand_ok regA PA) (HB : operand_ok regB PB) (HC : operand_ok regC PC).
Context (HN : triple ok any next lands).

Lemma triple_move {A} (get : Z -> interp A) set :
  reads get PB -> writes set PA -> triple ok any (move ci inst get set regA regB next) lands.
Proof. intros. unfold move. repeat istep. Qed.

Lemma triple_const :
  writes set_vreg PA -> writes set_vreg_reference PA ->
  triple ok any (const ci inst regA regB next) lands.
Proof. intros. unfold const. repeat istep. Qed.

Lemma triple_const_wide :
  writes set_vreg_long PA -> triple ok any (const_wide ci inst regA regB next) lands.
Proof. intros. unfold const_wide. repeat istep. Qed.
End Shapes.

Lemma triple_unary get set op PA PB :
  no_return -> operand_ok (VRegA_12x inst d) PA -> operand_ok (VRegB_12x inst d) PB ->
  reads get PB -> writes set PA -> triple ok any (next_1xx inst) lands ->
  triple ok any (unary ci inst d get set op) lands.
Proof. intros. unfold unary. repeat istep. Qed.

Lemma triple_binary_23x get getC set op PA PB PC :
  no_return -> operand_ok (VRegA_23x inst d) PA -> operand_ok (VRegB_23x inst) PB ->
  operand_ok (VRegC_23x inst) PC -> reads get PB -> reads getC PC -> writes set PA ->
  triple ok any (next_2xx inst) lands ->
  triple ok any (binary_23x ci inst d get getC set op) lands.
Proof. intros. unfold binary_23x. repeat istep. Qed.

Lemma triple_compare get op PB PC :
  no_return -> operand_ok (VRegA_23x inst d) (register_ok ci) -> operand_ok (VRegB_23x inst) PB ->
  operand_ok (VRegC_23x inst) PC -> reads get PB -> reads get PC ->
  triple ok any (next_2xx inst) lands -> triple ok any (compare ci inst d get op) lands.
Proof. intros. unfold compare. repeat istep. Qed.

Lemma triple_binary_12x get getB set op PA PB :
  no_return -> operand_ok (VRegA_12x inst d) PA -> operand_ok (VRegB_12x inst d) PB ->
  reads get PA -> reads getB PB -> writes set PA -> triple ok any (next_1xx inst) lands ->
  triple ok any (binary_12x ci inst d get getB set op) lands.
Proof. intros. unfold binary_12x. repeat istep. Qed.

Lemma triple_binary_lit16 op :
  no_return -> operand_ok (VRegA_22s inst d) (register_ok ci) ->
  operand_ok (VRegB_22s inst d) (register_ok ci) -> operand_ok (VRegC_22s inst) any ->
  triple ok any (next_2xx inst) lands -> triple ok any (binary_lit16 ci inst d op) lands.
Proof. intros. unfold binary_lit16. repeat istep. Qed.

Lemma triple_binary_lit8 op :
  no_return -> operand_ok (VRegA_22b inst d) (register_ok ci) ->
  operand_ok (VRegB_22b inst) (register_ok ci) -> operand_ok (VRegC_22b inst) any ->
  triple ok any (next_2xx inst) lands -> triple ok any (binary_lit8 ci inst d op) lands.
Proof. intros. unfold binary_lit8. repeat istep. Qed.

Lemma triple_if_test test :
  no_return -> operand_ok (VRegA_22t inst d) (register_ok ci) ->
  operand_ok (VRegB_22t inst d) (register_ok ci) ->
  operand_ok (VRegC_22t inst) (fun off => flows_to ci pc (pc + off)) ->
  triple ok any (next_2xx inst) lands -> triple ok any (if_test ci inst d test) lands.
Proof. intros. unfold if_test. repeat istep. by apply triple_branch. Qed.

Lemma triple_if_testz test :
  no_return -> operand_ok (VRegA_21t inst d) (register_ok ci) ->
  operand_ok (VRegB_21t inst) (fun off => flows_to ci pc (pc + off)) ->
  triple ok any (next_2xx inst) lands -> triple ok any (if_testz ci inst d test) lands.
Proof. intros. unfold if_testz. repeat istep. by apply triple_branch. Qed.

(** ** Operations that may throw *)

Definition attempts (op : interp bool) : Prop :=
  triple ok any op (fun b s => b = false -> raised s).

Lemma triple_POSSIBLY_negb b next :
  triple ok any next lands ->
  triple ok (fun s => b = false -> raised s)
    (POSSIBLY_HANDLE_PENDING_EXCEPTION inst (negb b) next) lands.
Proof.
  intros Hn. eapply triple_pre; [|by apply triple_POSSIBLY].
  intros s _ H Hb. apply H. by destruct b.
Qed.

Lemma triple_POSSIBLY_pending P next :
  triple ok any next lands ->
  triple ok P (p ← pending; POSSIBLY_HANDLE_PENDING_EXCEPTION inst p next) lands.
Proof.
  intros Hn. eapply triple_bind; [apply triple_pending|intros b].
  eapply triple_pre; [|by apply triple_POSSIBLY]. cbn. by intros s _ [[? _] _].
Qed.

Lemma triple_attempt op next :
  no_return -> attempts op -> triple ok any next lands ->
  triple ok any (attempt ci inst op next) lands.
Proof.
  intros Hr Ho Hn. unfold attempt. istep.
  eapply triple_bind; [apply triple_forget, Ho|intros b]. by apply triple_POSSIBLY_negb.
Qed.

Lemma attempts_throw k : triple ok any (run (ThrowNew k);; mret false) (fun b s => b = false -> raised s).
Proof. eapply triple_bind; [apply triple_throw|intros ?]. by apply triple_ret. Qed.

Lemma attempts_write (set : Z -> Z -> interp unit) PZ r v :
  writes set PZ -> PZ r -> attempts (set r v;; mret true).
Proof. intros Hw Hr. eapply triple_bind; [by eapply Hw|intros ?]. by apply triple_ret. Qed.

Lemma cpp_div_ok w x y :
  (y =? 0) = false -> (x =? - 2 ^ (w - 1)) && (y =? -1) = false -> cpp_div w x y = Ok (x ÷ y).
Proof. intros Hy Hm. unfold cpp_div. by rewrite Hy, Hm. Qed.
Lemma cpp_rem_ok w x y :
  (y =? 0) = false -> (x =? - 2 ^ (w - 1)) && (y =? -1) = false -> cpp_rem w x y = Ok (Z.rem x y).
Proof. intros Hy Hm. unfold cpp_rem. by rewrite Hy, Hm. Qed.

Ltac divide_tac :=
  intros Hr; unfold attempts, DoIntDivide, DoIntRemainder, DoLongDivide, DoLongRemainder;
  destruct (_ =? 0) eqn:Hzero; [apply attempts_throw|];
  destruct (_ && _) eqn:Hmin;
    [|first [ rewrite (cpp_div_ok 32 _ _ Hzero Hmin) | rewrite (cpp_rem_ok 32 _ _ Hzero Hmin)
            | rewrite (cpp_div_ok 64 _ _ Hzero Hmin) | rewrite (cpp_rem_ok 64 _ _ Hzero Hmin) ]];
  eapply attempts_write; eauto; intros ? ? ?; eauto with triple.

Lemma attempts_DoIntDivide r x y : register_ok ci r -> attempts (DoIntDivide r x y).
Proof. divide_tac. Qed.
Lemma attempts_DoIntRemainder r x y : register_ok ci r -> attempts (DoIntRemainder r x y).
Proof. divide_tac. Qed.
Lemma attempts_DoLongDivide r x y : pair_ok ci r -> attempts (DoLongDivide r x y).
Proof. divide_tac. Qed.
Lemma attempts_DoLongRemainder r x y : pair_ok ci r -> attempts (DoLongRemainder r x y).
Proof. divide_tac. Qed.

(** The division instructions: [divide] into the register A. *)
Section Divisions.
Context (divide : Z -> Z -> Z -> interp bool) (NR : no_return).

Lemma triple_divide_23x :
  (forall r x y, register_ok ci r -> attempts (divide r x y)) ->
  operand_ok (VRegA_23x inst d) (register_ok ci) -> operand_ok (VRegB_23x inst) (register_ok ci) ->
  operand_ok (VRegC_23x inst) (register_ok ci) -> triple ok any (next_2xx inst) lands ->
  triple ok any (divide_23x ci inst d divide) lands.
Proof.
  intros Hdiv HA HB HC HN. unfold divide_23x. do 6 istep.
  eapply triple_bind; [apply triple_forget, Hdiv; done|intros b]. by apply triple_POSSIBLY_negb.
Qed.

Lemma triple_divide_12x :
  (forall r x y, register_ok ci r -> attempts (divide r x y)) ->
  operand_ok (VRegA_12x inst d) (register_ok ci) -> operand_ok (VRegB_12x inst d) (register_ok ci) ->
  triple ok any (next_1xx inst) lands -> triple ok any (divide_12x ci inst d divide) lands.
Proof.
  intros Hdiv HA HB HN. unfold divide_12x. do 5 istep.
  eapply triple_bind; [apply triple_forget, Hdiv; done|intros b]. by apply triple_POSSIBLY_negb.
Qed.

Lemma triple_divide_lit16 :
  (forall r x y, register_ok ci r -> attempts (divide r x y)) ->
  operand_ok (VRegA_22s inst d) (register_ok ci) -> operand_ok (VRegB_22s inst d) (register_ok ci) ->
  operand_ok (VRegC_22s inst) any -> triple ok any (next_2xx inst) lands ->
  triple ok any (divide_lit16 ci inst d divide) lands.
Proof.
  intros Hdiv HA HB HC HN. unfold divide_lit16. do 5 istep.
  eapply triple_bind; [apply triple_forget, Hdiv; done|intros b]. by apply triple_POSSIBLY_negb.
Qed.

Lemma triple_divide_lit8 :
  (forall r x y, register_ok ci r -> attempts (divide r x y)) ->
  operand_ok (VRegA_22b inst d) (register_ok ci) -> operand_ok (VRegB_22b inst) (register_ok ci) ->
  operand_ok (VRegC_22b inst) any -> triple ok any (next_2xx inst) lands ->
  triple ok any (divide_lit8 ci inst d divide) lands.
Proof.
  intros Hdiv HA HB HC HN. unfold divide_lit8. do 5 istep.
  eapply triple_bind; [apply triple_forget, Hdiv; done|intros b]. by apply triple_POSSIBLY_negb.
Qed.

Lemma triple_divide_long_23x :
  (forall r x y, pair_ok ci r -> attempts (divide r x y)) ->
  operand_ok (VRegA_23x inst d) (pair_ok ci) -> operand_ok (VRegB_23x inst) (pair_ok ci) ->
  operand_ok (VRegC_23x inst) (pair_ok ci) -> triple ok any (next_2xx inst) lands ->
  triple ok any (divide_long_23x ci inst d divide) lands.
Proof.
  intros Hdiv HA HB HC HN. unfold divide_long_23x. do 6 istep.
  eapply triple_bind; [apply triple_forget, Hdiv; done|intros b]. by apply triple_POSSIBLY_pending.
Qed.

Lemma triple_divide_long_12x :
  (forall r x y, pair_ok ci r -> attempts (divide r x y)) ->
  operand_ok (VRegA_12x inst d) (pair_ok ci) -> operand_ok (VRegB_12x inst d) (pair_ok ci) ->
  triple ok any (next_1xx inst) lands -> triple ok any (divide_long_12x ci inst d divide) lands.
Proof.
  intros Hdiv HA HB HN. unfold divide_long_12x. do 5 istep.
  eapply triple_bind; [apply triple_forget, Hdiv; done|intros b]. by apply triple_POSSIBLY_pending.
Qed.
End Divisions.

(** ** Moves of results, returns *)

Lemma triple_move_result get set PA :
  no_return -> operand_ok (VRegA_11x inst d) PA -> writes set PA ->
  triple ok any (next_1xx inst) lands -> triple ok any (move_result ci inst d get set) lands.
Proof.
  intros. unfold move_result. istep. eapply triple_bind; [apply triple_gets|intros v].
  repeat istep.
Qed.

Lemma triple_ClearException : service ClearException ends.
Proof. by apply triple_modify. Qed.

Lemma triple_move_exception :
  no_return -> operand_ok (VRegA_11x inst d) (register_ok ci) ->
  triple ok any (next_1xx inst) lands -> triple ok any (move_exception ci inst d) lands.
Proof.
  intros. unfold move_exception. do 4 istep.
  eapply triple_bind; [apply triple_forget, triple_run, triple_ClearException|intros ?].
  repeat istep.
Qed.

Lemma triple_method_exit P i result : triple ok P (method_exit ci inst i result) lands.
Proof.
  unfold method_exit. eapply triple_bind with (Q := fun _ => any).
  - destruct HasMethodExitListeners; [|destruct HasDexPcListeners].
    + eapply triple_bind; [by eapply triple_GetThisObject_ins|intros ?].
      tstep. eapply triple_post; [tspec|done].
    + eapply triple_post; [by apply triple_dex_pc_moved|done].
    + by apply triple_ret.
  - intros ?. by apply triple_ret.
Qed.

Lemma triple_return (get : Z -> interp Z) set PA :
  operand_ok (VRegA_11x inst d) PA -> reads get PA ->
  triple ok any (a ← lift (VRegA_11x inst d); v ← get a;
    run (emit AllowThreadSuspension);; method_exit ci inst inst (set v)) lands.
Proof. intros. do 3 istep. apply triple_method_exit. Qed.

Lemma triple_return_object :
  operand_ok (VRegA_11x inst d) (register_ok ci) ->
  triple ok any (return_object false ci inst d) lands.
Proof.
  intros. unfold return_object. do 3 istep. cbn [andb].
  eapply triple_bind; [by apply (triple_ret _ _ (Goto inst) (fun o _ => o = Goto inst))|intros o].
  apply (triple_pre _ _ (fun s => o = Goto inst /\ any s)); [by intros|].
  apply triple_pure. intros ->. apply triple_method_exit.
Qed.

(** ** Resolution *)

Lemma triple_or_raised a (m : interp outcome) :
  (a <> 0 -> triple ok any m lands) ->
  triple ok (or_raised a) (if a =? 0 then HANDLE_PENDING_EXCEPTION inst else m) lands.
Proof.
  intros Hm. destruct (Z.eqb_spec a 0) as [->|]; [|by apply triple_forget, Hm].
  eapply triple_pre; [|apply triple_HANDLE_PENDING_EXCEPTION]. intros s _ H. by apply H.
Qed.

Lemma triple_pointer (m : rt Z) : service m or_pending -> triple ok any (run m) or_raised.
Proof. apply triple_run. Qed.

Lemma triple_ResolveString idx : triple ok any (ResolveString idx) or_raised.
Proof.
  unfold ResolveString. tstep.
  eapply triple_bind with (Q := fun b s => b = false -> raised s).
  { destruct (negb a); [|by apply triple_ret].
    apply triple_forget, (triple_run ci method _ _ law_String_EnsureInitialized). }
  intros [|]; cbn [negb].
  - tstep. apply triple_pure. intros ->. tstep. destruct (_ =? 0) eqn:Hz.
    + apply triple_forget, triple_pointer. eauto with service.
    + apply triple_ret. intros s _ _ ->. done.
  - eapply triple_pre; [|apply triple_check_pending, triple_ret]; [auto|]. by intros s _ ? _.
Qed.

Lemma triple_const_string regA regB next :
  no_return -> operand_ok regA (register_ok ci) -> operand_ok regB any ->
  triple ok any next lands -> triple ok any (const_string ci inst regA regB next) lands.
Proof.
  intros. unfold const_string. do 2 istep.
  eapply triple_bind; [apply triple_forget, triple_ResolveString|intros s].
  apply triple_or_raised. intros _. repeat istep.
Qed.

(** [type_idx] resolved. *)
Lemma triple_resolve {B} idx ca va (f : Z -> interp B) Q P :
  (forall k, triple ok (or_raised k) (f k) Q) ->
  triple ok P (m ← read GetMethod; k ← run (ResolveVerifyAndClinit idx m ca va); f k) Q.
Proof.
  intros Hf. tstep. apply triple_pure. intros ->.
  eapply triple_bind; [apply triple_forget, triple_pointer, law_ResolveVerifyAndClinit|apply Hf].
Qed.

Lemma triple_const_class :
  no_return -> operand_ok (VRegA_21c inst d) (register_ok ci) -> operand_ok (VRegB_21c inst) any ->
  triple ok any (next_2xx inst) lands -> triple ok any (const_class false ci inst d) lands.
Proof.
  intros. unfold const_class. do 2 istep. apply triple_resolve. intros k.
  apply triple_or_raised. intros _. repeat istep.
Qed.

(** ** Objects *)

Lemma triple_throw_null P :
  triple ok P (ThrowNullPointerExceptionFromInterpreter;; HANDLE_PENDING_EXCEPTION inst) lands.
Proof.
  eapply triple_bind.
  - apply triple_forget. by eapply triple_ThrowNullPointerExceptionFromInterpreter.
  - intros ?. apply triple_HANDLE_PENDING_EXCEPTION.
Qed.

Lemma triple_throw_handle P k :
  triple ok P (run (ThrowNew k);; HANDLE_PENDING_EXCEPTION inst) lands.
Proof.
  eapply triple_bind; [apply triple_forget, triple_throw|intros ?].
  apply triple_HANDLE_PENDING_EXCEPTION.
Qed.

Lemma triple_monitor operation :
  no_return -> (forall o, service (operation o) ends) ->
  operand_ok (VRegA_11x inst d) (register_ok ci) -> triple ok any (next_1xx inst) lands ->
  triple ok any (monitor ci inst d operation) lands.
Proof.
  intros ? Ho ? ?. unfold monitor. do 3 istep. destruct (_ =? 0); [apply triple_throw_null|].
  eapply triple_bind; [apply triple_forget, triple_run, Ho|intros ?].
  by apply triple_POSSIBLY_pending.
Qed.

Lemma triple_check_cast :
  no_return -> operand_ok (VRegA_21c inst d) (register_ok ci) -> operand_ok (VRegB_21c inst) any ->
  triple ok any (next_2xx inst) lands -> triple ok any (check_cast false ci inst d) lands.
Proof.
  intros. unfold check_cast. do 2 istep. apply triple_resolve. intros k.
  apply triple_or_raised. intros _. do 2 istep.
  eapply triple_bind with (Q := fun _ => any).
  { destruct (negb _); [|by apply triple_ret]. apply triple_fmap.
    apply triple_run_query. eauto with query. }
  intros bad. destruct bad; [|by istep]. istep. apply triple_throw_handle.
Qed.

Lemma triple_instance_of :
  no_return -> operand_ok (VRegA_22c inst d) (register_ok ci) ->
  operand_ok (VRegB_22c inst d) (register_ok ci) -> operand_ok (VRegC_22c inst) any ->
  triple ok any (next_2xx inst) lands -> triple ok any (instance_of false ci inst d) lands.
Proof.
  intros. unfold instance_of. do 2 istep. apply triple_resolve. intros k.
  apply triple_or_raised. intros _. do 2 istep.
  eapply triple_bind with (Q := fun _ => any).
  { destruct (negb _); [|by apply triple_ret]. apply triple_run_query. eauto with query. }
  intros b. repeat istep.
Qed.

Lemma triple_array_length :
  no_return -> operand_ok (VRegA_12x inst d) (register_ok ci) ->
  operand_ok (VRegB_12x inst d) (register_ok ci) ->
  triple ok any (next_1xx inst) lands -> triple ok any (array_length ci inst d) lands.
Proof.
  intros. unfold array_length. do 3 istep. destruct (_ =? 0); [apply triple_throw_null|].
  repeat istep.
Qed.

Lemma triple_new_instance :
  no_return -> operand_ok (VRegA_21c inst d) (register_ok ci) -> operand_ok (VRegB_21c inst) any ->
  triple ok any (next_2xx inst) lands -> triple ok any (new_instance false false ci inst d) lands.
Proof.
  intros. unfold new_instance. do 3 istep. apply triple_pure. intros ->.
  eapply triple_bind; [apply triple_forget, triple_pointer, law_AllocObjectFromCode|intros o].
  apply triple_or_raised. intros _. istep. cbn [andb]. repeat istep.
Qed.

Lemma triple_new_array :
  no_return -> operand_ok (VRegA_22c inst d) (register_ok ci) ->
  operand_ok (VRegB_22c inst d) (register_ok ci) -> operand_ok (VRegC_22c inst) any ->
  triple ok any (next_2xx inst) lands -> triple ok any (new_array false ci inst d) lands.
Proof.
  intros. unfold new_array. do 5 istep. apply triple_pure. intros ->.
  eapply triple_bind; [apply triple_forget, triple_pointer, law_AllocArrayFromCode|intros o].
  apply triple_or_raised. intros _. repeat istep.
Qed.

Lemma triple_SetException e : e <> 0 -> triple ok any (run (SetException e)) (fun _ => raised).
Proof.
  intros He. apply (triple_run_at ci method _ any (fun _ => excepting)).
  unfold SetException. rewrite (proj2 (Z.eqb_neq _ _) He).
  eapply triple_bind; [by apply triple_lift_ok|intros ?]. by apply triple_modify.
Qed.

Lemma triple_throw_ :
  no_return -> operand_ok (VRegA_11x inst d) (register_ok ci) ->
  triple ok any (throw_ false ci inst d) lands.
Proof.
  intros. unfold throw_. do 3 istep.
  eapply triple_bind; [|intros ?; apply triple_HANDLE_PENDING_EXCEPTION].
  destruct (Z.eqb_spec a0 0) as [->|He]; [apply triple_forget, triple_throw|].
  eapply triple_bind; [by apply (triple_ret _ _ true (fun b _ => b = true))|intros b].
  apply (triple_pre _ _ (fun s => b = true /\ any s)); [by intros|].
  apply triple_pure. intros ->. cbn [negb]. istep.
  eapply triple_bind; [apply triple_lift, IsAssignableFrom_typed|intros ?]. istep.
  eapply triple_bind; [by eapply triple_GetCurrentLocationForThrow|intros ?].
  apply triple_forget. by apply triple_SetException.
Qed.

(** ** Arrays *)

Lemma triple_checked_index {B} a i (f : bool -> interp B) P Q :
  triple ok (fun s => valid_index (heap (world s)) a i) (f true) Q ->
  triple ok raised (f false) Q ->
  triple ok P (valid ← run (CheckIsValidIndex ThrowNew a i); f valid) Q.
Proof.
  intros Ht Hf. eapply triple_bind.
  - apply triple_forget, (triple_run_at ci method _ any), triple_CheckIsValidIndex.
  - intros [|]; [|done]. eapply triple_pre; [|done]. by intros s _ [? _].
Qed.

Lemma triple_run_valid {A} (m : rt A) a i Q :
  triple calm (fun w => valid_index (heap w) a i /\ any w) m Q ->
  triple ok (fun s => valid_index (heap (world s)) a i) (run m) (fun x s => Q x (world s)).
Proof. intros H. eapply triple_pre; [|by apply triple_run_at]. by intros. Qed.

Lemma triple_aget k set PA :
  no_return -> operand_ok (VRegA_23x inst d) PA -> operand_ok (VRegB_23x inst) (register_ok ci) ->
  operand_ok (VRegC_23x inst) (register_ok ci) -> writes set PA ->
  triple ok any (next_2xx inst) lands -> triple ok any (aget ci inst d k set) lands.
Proof.
  intros. unfold aget. do 3 istep. destruct (_ =? 0); [apply triple_throw_null|]. do 3 istep.
  apply triple_checked_index; [|apply triple_HANDLE_PENDING_EXCEPTION].
  eapply triple_bind; [apply triple_run_valid, triple_GetWithoutChecks|intros v]. repeat istep.
Qed.

Lemma query_AsObjectArray a : query (AsObjectArray classes a).
Proof. apply (query_as_element_array kReference). Qed.
#[local] Hint Resolve query_AsObjectArray : query.

Lemma triple_aget_object :
  no_return -> operand_ok (VRegA_23x inst d) (register_ok ci) ->
  operand_ok (VRegB_23x inst) (register_ok ci) -> operand_ok (VRegC_23x inst) (register_ok ci) ->
  triple ok any (next_2xx inst) lands -> triple ok any (aget_object ci inst d) lands.
Proof.
  intros. unfold aget_object. do 3 istep. destruct (_ =? 0); [apply triple_throw_null|]. do 3 istep.
  apply triple_checked_index; [|apply triple_HANDLE_PENDING_EXCEPTION].
  eapply triple_bind; [apply triple_run_valid, triple_ObjectArray_GetWithoutChecks|intros v].
  repeat istep.
Qed.

Lemma triple_aput k get PA :
  no_return -> operand_ok (VRegA_23x inst d) PA -> operand_ok (VRegB_23x inst) (register_ok ci) ->
  operand_ok (VRegC_23x inst) (register_ok ci) -> reads get PA ->
  triple ok any (next_2xx inst) lands -> triple ok any (aput false ci inst d k get) lands.
Proof.
  intros. unfold aput. do 3 istep. destruct (_ =? 0); [apply triple_throw_null|]. do 5 istep.
  apply triple_checked_index; [|apply triple_HANDLE_PENDING_EXCEPTION].
  eapply triple_bind; [apply triple_run_valid, triple_SetWithoutChecks|intros ?]. repeat istep.
Qed.

Lemma triple_aput_object :
  no_return -> operand_ok (VRegA_23x inst d) (register_ok ci) ->
  operand_ok (VRegB_23x inst) (register_ok ci) -> operand_ok (VRegC_23x inst) (register_ok ci) ->
  triple ok any (next_2xx inst) lands -> triple ok any (aput_object false ci inst d) lands.
Proof.
  intros. unfold aput_object. do 3 istep. destruct (_ =? 0); [apply triple_throw_null|]. do 5 istep.
  apply triple_checked_index; cbv beta iota.
  - eapply triple_bind.
    { apply (triple_run_at ci method _ (fun w => valid_index (heap w) a0 a1)), triple_CheckAssignable. }
    intros [|]; [|apply triple_HANDLE_PENDING_EXCEPTION].
    eapply triple_bind; [apply triple_run_valid, triple_ObjectArray_SetWithoutChecks|intros ?].
    repeat istep.
  - eapply triple_bind; [by apply (triple_ret _ _ false (fun b s => b = false /\ raised s))|].
    intros b. apply triple_pure. intros ->. apply triple_HANDLE_PENDING_EXCEPTION.
Qed.

(** *** Array data *)

Lemma payload_data_total start n :
  0 <= start -> start + n <= 2 * zlength code -> exists data, payload_data code start n = Ok data.
Proof.
  intros Hs Hn. unfold payload_data.
  destruct (Z.ltb_spec start 0); [lia|]. destruct (Z.ltb_spec (2 * zlength code) (start + n)); [lia|].
  cbn. eauto.
Qed.

Lemma DataOffset_total w :
  w = 1 \/ w = 2 \/ w = 4 \/ w = 8 -> exists off, DataOffset w = Ok off.
Proof. intros H. destruct_or! H; subst; by eexists. Qed.

Lemma triple_FillArrayData obj off width count :
  0 <= pc + off -> Fetch16 (At code (pc + off)) 0 = Ok kArrayDataSignature ->
  Fetch16 (At code (pc + off)) 1 = Ok width -> Fetch32 (At code (pc + off)) 2 = Ok count ->
  width = 1 \/ width = 2 \/ width = 4 \/ width = 8 -> 0 <= width * count < 2 ^ 31 ->
  pc + off + 4 + (width * count + 1) / 2 <= zlength code ->
  service (FillArrayData obj (At code (pc + off))) (fun b w => b = false -> excepting w).
Proof.
  intros Hp Hsig Hw Hc Hwidth Hsize Hend. unfold FillArrayData.
  eapply triple_bind; [by apply triple_lift_ok|intros ?]. apply triple_pure. intros ->.
  eapply triple_bind; [by apply triple_lift_ok|intros ?]. apply triple_pure. intros ->.
  destruct (obj =? 0).
  { eapply triple_bind; [apply triple_forget, law_ThrowNew|intros ?]. by apply triple_ret. }
  do 4 tstep.
  eapply triple_bind; [by apply triple_lift_ok|intros ?]. apply triple_pure. intros ->.
  eapply triple_bind; [by apply triple_lift_ok|intros ?]. apply triple_pure. intros ->.
  tstep. destruct (_ >? _).
  { eapply triple_bind; [apply triple_forget, law_ThrowNew|intros ?]. by apply triple_ret. }
  destruct (DataOffset_total _ Hwidth) as [o Ho].
  eapply triple_bind; [by apply triple_lift_ok|intros ?]. apply triple_pure. intros ->.
  destruct (payload_data_total (2 * (pc + off + 4)) (uint32 (count * width))) as [data Hdata];
    [lia| |].
  { rewrite (Z.mul_comm count). set (p := width * count) in *. clearbody p. int_lia. }
  eapply triple_bind; [by apply triple_lift_ok|intros ?]. apply triple_pure. intros ->.
  eapply triple_bind; [apply triple_forget, triple_SetField|intros ?]. by apply triple_ret.
Qed.

Lemma triple_fill_array_data :
  c = FILL_ARRAY_DATA -> operand_ok (VRegA_31t inst d) (register_ok ci) ->
  operand_ok (VRegB_31t inst) (fun off => VRegB inst = Ok off) ->
  triple ok any (next_3xx inst) lands -> triple ok any (fill_array_data false ci inst d) lands.
Proof.
  intros Hc HA HB HN. assert (no_return) as NR by by (unfold no_return; rewrite Hc).
  unfold fill_array_data. do 4 istep.
  assert (array_data_ok ci pc) as (off & w & n & Ho & Hp & Hw & Hn & Hend)
    by (apply (ok_array_data _ _ _ _ IO); by rewrite Hc).
  destruct (vm_array_data _ _ _ _ VM pc off Hstart) as (w' & n' & Hs & Hw' & Hn' & Hwidth & Hsize);
    [by rewrite opcode_here, Hc|done|].
  assert (r = off) as -> by congruence. assert (w' = w) as -> by congruence.
  assert (n' = n) as -> by congruence.
  assert (0 <= n).
  { unfold Fetch32 in Hn. inv_res. apply Z.lor_nonneg. split; [|apply uint32_range].
    by eapply (Fetch16_range (At code (pc + off))); [apply (vm_wf _ _ _ _ VM)|]. }
  eapply triple_bind with (Q := fun b s => b = false -> raised s).
  { apply triple_forget, (triple_run ci method _ (fun b w => b = false -> excepting w)).
    apply (triple_FillArrayData _ _ w n); auto.
    split; [|done]. destruct_or! Hwidth; lia. }
  intros [|]; cbn [negb].
  - eapply triple_bind; [by apply (triple_ret _ _ tt (fun _ => any))|intros ?]. repeat istep.
  - eapply triple_pre; [|apply triple_HANDLE_PENDING_EXCEPTION]. auto.
Qed.

(** ** Fields *)

Definition typed_register (t : Primitive_Type) : Z -> Prop :=
  match t with kPrimLong => pair_ok ci | _ => register_ok ci end.

Lemma writes_set_typed t : is_Some (field_kind t) -> writes (set_typed t) (typed_register t).
Proof.
  intros [k Hk] r v Hr. destruct t; cbn in *; try done;
    eauto using triple_set_vreg, triple_set_vreg_long, triple_set_vreg_reference.
Qed.
Lemma reads_get_typed t : is_Some (field_kind t) -> reads (get_typed t) (typed_register t).
Proof.
  intros [k Hk] P r Hr. destruct t; cbn in *; try done;
    eauto using triple_vreg, triple_vreg_long, triple_vreg_reference.
Qed.
Lemma reads_GetFieldValue t : is_Some (field_kind t) -> reads (GetFieldValue t) (typed_register t).
Proof.
  intros [k Hk] P r Hr. destruct t; cbn in Hk, Hr; try done; unfold GetFieldValue;
    (eapply triple_bind; [eauto with triple|intros ?]; by apply triple_ret).
Qed.

Lemma query_ArtField_Get t f obj : is_Some (field_kind t) -> query (ArtField_Get t f obj).
Proof.
  intros [k Hk]. unfold ArtField_Get. rewrite Hk. unfold dcheck_holder. eauto with query.
Qed.

Lemma service_ArtField_Set t f obj v :
  is_Some (field_kind t) -> service (ArtField_Set false t f obj v) ends.
Proof.
  intros [k Hk].
  assert (forall m : rt unit, service m ends -> service (dcheck_holder f obj;; m) ends) as Hh.
  { intros m Hm. eapply triple_bind; [|intros ?; by apply triple_forget].
    apply query_triple. unfold dcheck_holder. eauto with query. }
  unfold ArtField_Set.
  destruct t; cbn [field_kind] in *; try done; try (apply Hh, triple_SetFieldObject);
    (eapply triple_bind; [apply query_triple; eauto with query|intros ?]);
    apply Hh, triple_SetFieldKind.
Qed.

(** A null pointer: the exception that comes with it is passed on. *)
Lemma triple_null_pending a (m : interp bool) :
  (a <> 0 -> attempts m) ->
  triple ok (or_raised a) (if a =? 0 then p ← pending; CHECK p;; mret false else m)
    (fun b s => b = false -> raised s).
Proof.
  intros Hm. destruct (Z.eqb_spec a 0) as [->|]; [|by apply triple_forget, Hm].
  eapply triple_pre; [|apply triple_check_pending, triple_ret].
  - intros s _ H. by apply H.
  - by intros.
Qed.

Lemma attempts_throw_here k :
  attempts (GetCurrentLocationForThrow;; run (ThrowNew k);; mret false).
Proof.
  eapply triple_bind; [by eapply triple_GetCurrentLocationForThrow|intros ?]. apply attempts_throw.
Qed.

(** The two operands of a field access. *)
Definition field_operands (find_type : FindFieldType) (t : Primitive_Type) : Prop :=
  if is_static_access find_type
  then operand_ok (VRegA_21c inst d) (typed_register t) /\ operand_ok (VRegB_21c inst) any
  else operand_ok (VRegA_22c inst d) (typed_register t) /\
       operand_ok (VRegB_22c inst d) (register_ok ci) /\ operand_ok (VRegC_22c inst) any.

(** The field, and the object it belongs to. *)
Lemma triple_field_object find_type t check n (f : Z -> ArtField -> Z -> interp bool) :
  field_operands find_type t ->
  (forall fi fld obj, triple ok any (f fi fld obj) (fun b s => b = false -> raised s)) ->
  attempts
    (field_idx ← lift (if is_static_access find_type then VRegB_21c inst else VRegC_22c inst);
     m ← read GetMethod;
     fi ← run (FindFieldFromCode find_type check field_idx m n);
     if fi =? 0 then p ← pending; CHECK p;; mret false
     else
       fld ← field_at fi;
       obj ← (if is_static_access find_type then mret (field_declaring_class_ fld)
              else r ← lift (VRegB_22c inst d); vreg_reference r);
       f fi fld obj).
Proof.
  intros Hop Hf. unfold attempts.
  assert (operand_ok (if is_static_access find_type then VRegB_21c inst else VRegC_22c inst) any)
    as HI by (unfold field_operands in Hop; destruct (is_static_access _); tauto).
  istep. istep. apply triple_pure. intros ->.
  eapply triple_bind; [apply triple_forget, triple_pointer, law_FindFieldFromCode|intros fi].
  apply triple_null_pending. intros _.
  eapply triple_bind; [apply triple_field_at|intros fld].
  eapply triple_bind with (Q := fun _ => any); [|intros obj; apply Hf].
  unfold field_operands in Hop. destruct (is_static_access _); [by apply triple_ret|].
  destruct Hop as (? & ? & ?). istep. by apply triple_vreg_reference.
Qed.

Lemma operand_field_A find_type t :
  field_operands find_type t ->
  operand_ok (if is_static_access find_type then VRegA_21c inst d else VRegA_22c inst d)
    (typed_register t).
Proof. unfold field_operands. destruct (is_static_access _); tauto. Qed.

Lemma triple_run_ends {A} (m : rt A) : service m ends -> triple ok any (run m) ends.
Proof. apply triple_run. Qed.

Lemma triple_emit_here e : triple ok any (run (emit e)) ends.
Proof. apply triple_run_ends, triple_emit. Qed.

Lemma attempts_DoFieldGet find_type t check :
  is_Some (field_kind t) -> field_operands find_type t ->
  attempts (DoFieldGet find_type t check inst d).
Proof.
  intros Hk Hop. unfold DoFieldGet. cbv zeta. apply (triple_field_object _ t); [done|].
  intros fi fld obj. destruct (_ && _); [apply attempts_throw_here|].
  eapply triple_bind with (Q := ends).
  { destruct HasFieldReadListeners; [|by apply triple_ret].
    eapply triple_bind; [apply triple_gets|intros p]. apply triple_forget, triple_emit_here. }
  intros ?. pose proof (operand_field_A _ _ Hop) as HA. istep.
  eapply triple_bind; [by apply triple_run_query, query_ArtField_Get|intros v].
  eapply triple_bind; [apply triple_forget; by apply (writes_set_typed t)|intros ?].
  by apply triple_ret.
Qed.

Lemma attempts_DoFieldPut find_type t :
  is_Some (field_kind t) -> field_operands find_type t ->
  attempts (DoFieldPut find_type t false false inst d).
Proof.
  intros Hk Hop. unfold DoFieldPut. cbv zeta. apply (triple_field_object _ t); [done|].
  intros fi fld obj. destruct (_ && _); [apply attempts_throw_here|].
  pose proof (operand_field_A _ _ Hop) as HA. istep.
  eapply triple_bind with (Q := ends).
  { destruct HasFieldWriteListeners; [|by apply triple_ret].
    eapply triple_bind; [by apply (reads_GetFieldValue t)|intros v].
    eapply triple_bind; [apply triple_gets|intros p]. apply triple_forget, triple_emit_here. }
  intros ?. eapply triple_bind; [by apply (reads_get_typed t)|intros v].
  rewrite andb_false_r. cbn [andb].
  eapply triple_bind; [by apply (triple_ret _ _ true (fun b _ => b = true))|intros b].
  apply (triple_pre _ _ (fun s => b = true /\ any s)); [by intros|].
  apply triple_pure. intros ->. cbn [negb].
  eapply triple_bind; [by apply triple_run, service_ArtField_Set|intros ?]. by apply triple_ret.
Qed.

Lemma attempts_throw_null : attempts (ThrowNullPointerExceptionFromInterpreter;; mret false).
Proof.
  eapply triple_bind; [by eapply triple_ThrowNullPointerExceptionFromInterpreter|intros ?].
  by apply triple_ret.
Qed.

(** The field found by its offset, which only the listeners look at. *)
Lemma triple_quick_event P obj off (m : Z -> interp unit) :
  (forall f, triple ok any (m f) ends) ->
  triple ok P (k ← run (GetClass obj); f ← run (FindInstanceFieldWithOffset k off);
    CHECK_class (negb (f =? 0));; fld ← field_at f; CHECK_class (negb (field_is_static fld));; m f)
    ends.
Proof.
  intros Hm. unfold CHECK_class. do 3 tstep.
  eapply triple_bind; [apply triple_field_at|intros fld]. tstep. apply triple_forget, Hm.
Qed.

Lemma attempts_DoIGetQuick t :
  t = kPrimInt \/ t = kPrimLong \/ t = kPrimNot -> operand_ok (VRegA_22c inst d) (typed_register t) ->
  operand_ok (VRegB_22c inst d) (register_ok ci) -> operand_ok (VRegC_22c inst) any ->
  attempts (DoIGetQuick t inst d).
Proof.
  intros Ht HA HB HC. unfold DoIGetQuick, attempts. do 2 istep.
  destruct (_ =? 0); [apply attempts_throw_null|]. istep.
  eapply triple_bind with (Q := ends).
  { destruct HasFieldReadListeners; [|by apply triple_ret].
    apply triple_quick_event. intros f. eapply triple_bind; [apply triple_gets|intros p].
    apply triple_forget, triple_emit_here. }
  intros ?. istep. eapply triple_bind with (Q := ends); [|intros ?; by apply triple_ret].
  destruct_or! Ht; subst t; istep; apply triple_forget; cbn in *; eauto with triple.
Qed.

Lemma attempts_DoIPutQuick t :
  is_Some (field_kind t) -> operand_ok (VRegA_22c inst d) (typed_register t) ->
  operand_ok (VRegB_22c inst d) (register_ok ci) -> operand_ok (VRegC_22c inst) any ->
  attempts (DoIPutQuick t false inst d).
Proof.
  intros Hk HA HB HC. unfold DoIPutQuick, attempts. do 2 istep.
  destruct (_ =? 0); [apply attempts_throw_null|]. do 2 istep.
  eapply triple_bind with (Q := ends).
  { destruct HasFieldWriteListeners; [|by apply triple_ret].
    apply triple_quick_event. intros f.
    eapply triple_bind; [by apply (reads_GetFieldValue t)|intros v].
    eapply triple_bind; [apply triple_gets|intros p]. apply triple_forget, triple_emit_here. }
  intros ?. eapply triple_bind; [by apply (reads_get_typed t)|intros v].
  eapply triple_bind with (Q := ends); [|intros ?; by apply triple_ret].
  destruct Hk as [k Hk]. rewrite Hk. apply triple_forget.
  destruct k; apply triple_run_ends;
    lazymatch goal with
    | |- triple _ _ (SetFieldObject _ _ _ _) _ => apply triple_SetFieldObject
    | _ => apply triple_SetFieldKind
    end.
Qed.

(** ** Calls *)

(** The arguments of a call, as the fast path of [DoCall] reads them. *)
Record list_operands (n w : Z) : Prop := {
  lo_count : VRegA_35c inst d = Ok n;
  lo_word : Fetch16 inst 2 = Ok w;
  lo_range : 0 <= n <= 5;
  lo_first : forall k, 0 <= k < n -> k < 4 ->
    register_ok ci (Z.land (Z.shiftr w (4 * k)) 0x0f);
  lo_fifth : n = 5 -> register_ok ci (Z.land (Z.shiftr d 8) 0x0f);
}.

Lemma GetVarArgs_take i data args :
  code_ok (insns i) -> Fetch16 i 0 = Ok data -> GetVarArgs i data = Ok args ->
  exists w, Fetch16 i 2 = Ok w /\
    args = take (length args) [Z.land (Z.shiftr w 0) 0x0f; Z.land (Z.shiftr w 4) 0x0f;
      Z.land (Z.shiftr w 8) 0x0f; Z.land (Z.shiftr w 12) 0x0f; Z.land (Z.shiftr data 8) 0x0f].
Proof.
  intros Hc H0 H. pose proof (Fetch16_range _ _ _ Hc H0). unfold GetVarArgs in H. inv_res.
  exists a0. split; [done|]. unfold InstA in E3. inv_res.
  replace (uint8 (Z.land (Z.shiftr data 8) 15)) with (Z.land (Z.shiftr data 8) 15)
    by (rewrite land_0xf; int_lia).
  rewrite Z.shiftr_0_r. repeat case_match; done.
Qed.

Lemma call_arguments :
  FormatOf c = k35c -> arguments_ok ci pc -> exists n w, list_operands n w.
Proof.
  intros HF (d' & args & Hd' & Hargs & HA & Hregs). rewrite Hd in Hd'. injection Hd' as <-.
  pose proof (fits_code _ _ (ok_fits _ _ _ _ IO)) as Hcode.
  destruct (GetVarArgs_length _ _ _ Hcode Hd Hargs) as (_ & Hlen & _).
  destruct (VRegA_35c_view _ c d (ok_fits _ _ _ _ IO) HF Hd) as (n & Hn & Hn' & _).
  assert (n = zlength args) as -> by congruence.
  destruct (GetVarArgs_take _ _ _ Hcode Hd Hargs) as (w & Hw & Htake).
  assert (forall k r, (k < length args)%nat -> [Z.land (Z.shiftr w 0) 0x0f;
      Z.land (Z.shiftr w 4) 0x0f; Z.land (Z.shiftr w 8) 0x0f; Z.land (Z.shiftr w 12) 0x0f;
      Z.land (Z.shiftr d 8) 0x0f] !! k = Some r -> register_ok ci r) as Hreg.
  { intros k r Hk Hr. eapply Forall_lookup_1; [exact Hregs|].
    rewrite Htake, lookup_take_lt by done. exact Hr. }
  exists (zlength args), w. split; [done|done|lia| |].
  - intros k Hk Hk4. assert (k = 0 \/ k = 1 \/ k = 2 \/ k = 3) as Hc by lia.
    destruct_or! Hc; subst k;
      [apply (Hreg 0%nat)|apply (Hreg 1%nat)|apply (Hreg 2%nat)|apply (Hreg 3%nat)];
      solve [lia|done].
  - intros Hl. apply (Hreg 4%nat); [lia|done].
Qed.

(** The new frame is filled inside its bounds. *)
Definition fills (nsf : ShadowFrame) (r : res ShadowFrame) : Prop :=
  exists nsf', r = Ok nsf' /\ frame_ok nsf' /\ same_shape nsf nsf'.

Lemma fills_bind nsf r f :
  fills nsf r -> (forall nsf', frame_ok nsf' -> same_shape nsf nsf' -> fills nsf' (f nsf')) ->
  fills nsf (r ≫= f).
Proof.
  intros (n1 & -> & H1 & S1) Hf. destruct (Hf n1 H1 S1) as (n2 & H2 & ? & S2).
  exists n2. split; [done|]. split; [done|]. destruct S1, S2. split; congruence.
Qed.

Lemma AssignRegister_fills nsf sf dest src :
  frame_ok nsf -> 0 <= dest < number_of_vregs_ nsf -> frame_ok sf ->
  0 <= src < number_of_vregs_ sf -> fills nsf (AssignRegister nsf sf dest src).
Proof.
  intros Hn Hdest Hs Hsrc. unfold AssignRegister.
  destruct (GetVReg_ok sf Hs src Hsrc) as (v & -> & _).
  destruct (GetVRegReference_ok sf Hs src Hsrc) as (o & -> & _). cbn.
  destruct (_ =? _); [by apply SetVRegReference_ok|by apply SetVReg_ok].
Qed.

Lemma assign_range_fills n nsf sf dest src :
  frame_ok nsf -> frame_ok sf -> 0 <= dest -> dest + Z.of_nat n <= number_of_vregs_ nsf ->
  0 <= src -> src + Z.of_nat n <= number_of_vregs_ sf ->
  fills nsf (assign_range n nsf sf dest src).
Proof.
  revert nsf dest src. induction n as [|n IH]; intros nsf dest src Hn Hs ? ? ? ?;
    cbn [assign_range]; [by exists nsf|].
  apply fills_bind; [apply AssignRegister_fills; auto; lia|].
  intros nsf' Hn' [Hc _]. apply IH; auto; lia.
Qed.

Lemma assign_list_fills n nsf sf first k w :
  frame_ok nsf -> frame_ok sf -> 0 <= first -> 0 <= k ->
  first + k + Z.of_nat n <= number_of_vregs_ nsf ->
  (forall j, 0 <= j < Z.of_nat n -> 0 <= Z.land (Z.shiftr w (4 * j)) 0x0f < number_of_vregs_ sf) ->
  fills nsf (assign_list n nsf sf first k w).
Proof.
  revert nsf k w. induction n as [|n IH]; intros nsf k w Hn Hs Hf Hk Hb Hr;
    cbn [assign_list]; [by exists nsf|].
  apply fills_bind.
  - apply AssignRegister_fills; [done|lia|done|]. by apply (Hr 0); lia.
  - intros nsf' Hn' [Hc _]. apply IH; [done|done|lia|lia|lia|]. intros j Hj.
    rewrite Z.shiftr_shiftr by lia. replace (4 + 4 * j) with (4 * (j + 1)) by lia. apply Hr. lia.
Qed.

(** The operands of a call, in either encoding: the number of arguments. *)
Definition call_operands (is_range : bool) (n : Z) : Prop :=
  if is_range
  then VRegA_3rc inst d = Ok n /\ exists cc, VRegC_3rc inst = Ok cc /\ 0 <= n /\ 0 <= cc /\
    cc + n <= registers_size_ ci
  else exists w, list_operands n w.

Lemma triple_lift_fills P nsf r :
  (forall s, ok s -> P s -> fills nsf r) -> triple ok P (lift r) ends.
Proof. intros H s Hi Hp. destruct (H s Hi Hp) as (n & -> & _). done. Qed.

Lemma triple_copy_fast P is_range num_regs n m :
  call_operands is_range n -> n <= num_regs ->
  triple ok P (copy_fast is_range num_regs n inst d (Create num_regs m 0)) ends.
Proof.
  intros Hop Hn. unfold copy_fast. eapply triple_bind; [apply triple_gets|intros sf].
  assert (0 <= n) as H0.
  { destruct is_range; [by destruct Hop as (_ & cc & _ & ? & _)|].
    destruct Hop as [w Hw]. apply (lo_range _ _ Hw). }
  assert (frame_ok (Create num_regs m 0)) as Hcreate by (apply frame_ok_Create; lia).
  destruct is_range.
  - destruct Hop as (_ & cc & Hcc & _ & ? & ?).
    eapply triple_bind; [by apply triple_lift_ok|intros ?]. apply triple_pure. intros ->.
    apply (triple_lift_fills _ (Create num_regs m 0)). intros s Hi [-> _].
    apply assign_range_fills; [done|by apply Hi|lia|cbn; lia|lia|].
    rewrite (st_size _ _ _ Hi). lia.
  - destruct Hop as [w Hw]. pose proof (lo_range _ _ Hw).
    eapply triple_bind; [apply triple_CHECK; lia|intros ?].
    eapply triple_bind; [apply triple_lift_ok, (lo_word _ _ Hw)|intros ?]. apply triple_pure.
    intros ->. intros s Hi [-> _]. apply wp_bind, wp_lift.
    assert (forall r, register_ok ci r -> 0 <= r < number_of_vregs_ (frame s)) as Hregs
      by (intros r Hr; by rewrite (st_size _ _ _ Hi)).
    assert (fills (Create num_regs m 0) (if n =? 5 then
      AssignRegister (Create num_regs m 0) (frame s) (num_regs - n + 4) (Z.land (Z.shiftr d 8) 15)
      else Ok (Create num_regs m 0))) as (nsf & -> & Hf & [Hs _]).
    { destruct (Z.eqb_spec n 5); [|by eexists].
      apply AssignRegister_fills; [done|cbn; lia|by apply Hi|]. by apply Hregs, (lo_fifth _ _ Hw). }
    apply (triple_lift_fills any nsf); [|done|done]. intros _ _ _.
    apply assign_list_fills; [done|by apply Hi|lia|lia|rewrite Hs; cbn; case_match; lia|].
    intros j Hj. apply Hregs, (lo_first _ _ Hw); case_match; lia.
Qed.

Lemma attempts_DoCall is_range called_method n :
  call_operands is_range n -> attempts (DoCall is_range false called_method inst d).
Proof.
  intros Hop. unfold attempts, DoCall.
  eapply triple_bind; [apply triple_method_at|intros m]. apply triple_pure. intros Hm.
  assert ((if is_range then VRegA_3rc inst d else VRegA_35c inst d) = Ok n) as HA.
  { destruct is_range; [by destruct Hop|]. destruct Hop as [w Hw]. apply (lo_count _ _ Hw). }
  eapply triple_bind; [by apply triple_lift_ok|intros ?]. apply triple_pure. intros ->.
  eapply triple_bind with (Q := fun num_regs s => n <= num_regs /\ any s).
  { destruct (method_code_item m) as [cm|] eqn:Hcm.
    - intros s Hi _. unfold CHECK_class. apply wp_bind, wp_run, wp_lift.
      destruct (Z.eqb_spec n (ins_size_ cm)) as [->|]; [|done].
      pose proof (law_methods _ _ _ Hm Hcm). split; [by destruct s|]. split; [lia|done].
    - eapply triple_bind; [apply triple_run_query; eauto with query|intros ?].
      apply triple_ret. by intros. }
  intros num_regs. apply triple_pure. intros Hn.
  eapply triple_bind with (Q := fun o s => is_Some o).
  { apply triple_fmap. eapply triple_post; [by apply triple_copy_fast|]. by eexists. }
  intros [nsf|]; [|by intros s _ []%is_Some_None].
  eapply triple_bind; [apply triple_gets|intros res].
  eapply triple_bind with (Q := ends).
  { apply triple_forget, triple_run_ends. destruct IsStarted; eauto with service. }
  intros r. eapply triple_bind with (Q := fun _ => any).
  { intros s [] _. split; [by split|done]. }
  intros ?. eapply triple_bind; [apply triple_pending|intros p]. apply triple_ret.
  intros s _ [Hp _] Hb. apply Hp. by destruct p.
Qed.

Lemma triple_with_result (P : Interp -> Prop) r :
  (forall s, P s -> P (with_result s r)) ->
  triple ok P (modify (fun s => with_result s r)) (fun _ => P).
Proof. intros H s [] Hp. split; [by split|]. by apply H. Qed.

(** The method found, or the pending exception. *)
Lemma triple_found_method called (m : interp bool) :
  attempts m ->
  triple ok (or_raised called)
    (if called =? 0 then p ← pending; CHECK p;; modify (fun s => with_result s 0);; mret false
     else a ← method_at called;
       if has_access (method_access_flags a) kAccAbstract then
         run (ThrowNew (ThrowAbstractMethodError called));;
         modify (fun s => with_result s 0);; mret false
       else m) (fun b s => b = false -> raised s).
Proof.
  intros Hm. destruct (Z.eqb_spec called 0) as [->|Hc].
  - eapply triple_pre; [|apply triple_check_pending]; [intros s _ H; by apply H|].
    eapply triple_bind; [by apply triple_with_result|intros ?]. by apply triple_ret.
  - eapply triple_bind; [apply triple_method_at|intros a]. destruct (has_access _ _).
    + eapply triple_bind; [apply triple_forget, triple_throw|intros ?].
      eapply triple_bind; [by apply triple_with_result|intros ?]. by apply triple_ret.
    + by apply triple_forget.
Qed.

Lemma attempts_DoInvoke type is_range check n :
  check = false -> call_operands is_range n ->
  operand_ok (if is_range then VRegB_3rc inst else VRegB_35c inst) any ->
  operand_ok (if is_range then VRegC_3rc inst else VRegC_35c inst)
    (fun r => type <> kStatic -> register_ok ci r) ->
  attempts (DoInvoke type is_range check inst d).
Proof.
  intros -> Hop HB HC. unfold attempts, DoInvoke. do 2 istep.
  eapply triple_bind with (Q := fun _ => any).
  { destruct (decide (type = kStatic)); [by apply triple_ret|]. apply triple_vreg_reference. auto. }
  intros receiver. istep. apply triple_pure. intros ->.
  eapply triple_bind; [apply triple_forget, triple_pointer, law_FindMethodFromCode|intros called].
  apply triple_found_method. by eapply attempts_DoCall.
Qed.

Lemma attempts_DoInvokeVirtualQuick is_range n :
  call_operands is_range n ->
  operand_ok (if is_range then VRegB_3rc inst else VRegB_35c inst) any ->
  operand_ok (if is_range then VRegC_3rc inst else VRegC_35c inst) (register_ok ci) ->
  attempts (DoInvokeVirtualQuick is_range inst d).
Proof.
  intros Hop HB HC. unfold attempts, DoInvokeVirtualQuick, CHECK_class. do 2 istep.
  destruct (_ =? 0); [apply attempts_throw_null|]. do 3 istep.
  eapply triple_bind; [apply triple_forget, triple_pointer, law_GetEmbeddedVTableEntry|intros called].
  apply triple_found_method. by eapply attempts_DoCall.
Qed.

(** *** [filled-new-array] *)

Lemma triple_fill_elements n is_int a (src : Z -> res Z) i len :
  0 <= i -> i + Z.of_nat n <= len -> len < 2 ^ 31 ->
  (forall k, i <= k < len -> operand_ok (src k) (register_ok ci)) ->
  triple ok (fun s => length_is a len (world s)) (fill_elements n false is_int a src i) ends.
Proof.
  revert i. induction n as [|n IH]; intros i Hi Hn Hlen Hsrc; cbn [fill_elements];
    [by apply triple_ret|].
  assert (operand_ok (src i) (register_ok ci)) as Hr by (apply Hsrc; lia). istep.
  eapply triple_bind with (Q := fun _ s => length_is a len (world s));
    [|intros ?; apply IH; [lia..|]; intros k Hk; apply Hsrc; lia].
  destruct is_int.
  - eapply triple_bind; [apply triple_run_query, (query_as_element_array k32Bits)|intros ?]. istep.
    apply (triple_run_at ci method _ (length_is a len) (fun _ => length_is a len)).
    apply triple_SetWithoutChecks_length; lia.
  - eapply triple_bind; [apply triple_run_query, query_AsObjectArray|intros ?]. istep.
    apply (triple_run_at ci method _ (length_is a len) (fun _ => length_is a len)).
    apply triple_ObjectArray_SetWithoutChecks_length; lia.
Qed.

(** The argument registers of an array that is filled at once. *)
Definition element_operands (is_range : bool) (n : Z) : Prop :=
  if is_range
  then exists cc, VRegC_3rc inst = Ok cc /\ 0 <= cc /\ cc + n <= registers_size_ ci
  else exists args, GetVarArgs inst d = Ok args /\ zlength args = n /\
    Forall (register_ok ci) args.

Lemma attempts_DoFilledNewArray (is_range : bool) n :
  (c = FILLED_NEW_ARRAY \/ c = FILLED_NEW_ARRAY_RANGE) ->
  (if is_range then VRegA_3rc inst d else VRegA_35c inst d) = Ok n ->
  0 <= n < 2 ^ 31 -> (is_range = false -> n <= 5) -> element_operands is_range n ->
  operand_ok (if is_range then VRegB_3rc inst else VRegB_35c inst) any ->
  attempts (DoFilledNewArray is_range false false inst).
Proof.
  intros Hc HA Hn H5 Hop HB. unfold attempts, DoFilledNewArray.
  eapply triple_bind; [apply triple_lift_ok, opcode_here|intros ?]. apply triple_pure. intros ->.
  rewrite bool_decide_eq_true_2 by done. istep.
  eapply triple_bind; [apply (triple_lift_ok _ _ _ n)|intros ?].
  { unfold fetched. destruct is_range; by rewrite Hd. }
  apply triple_pure. intros ->.
  eapply triple_bind with (Q := fun _ => any).
  { destruct is_range; [by apply triple_ret|]. apply triple_forget.
    eapply triple_post; [apply triple_CHECK|done]. by apply Z.leb_le, H5. }
  intros ?. rewrite (proj2 (Z.ltb_ge _ _)) by lia. istep. apply triple_resolve. intros k.
  apply triple_null_pending. intros _.
  eapply triple_bind; [apply triple_lift; unfold class_at; by destruct (classes !! k)|intros cls].
  unfold CHECK_class. istep.
  eapply triple_bind;
    [apply triple_lift; unfold class_at; by destruct (classes !! component_type_ cls)|intros cc].
  destruct (_ && _); [apply attempts_throw|].
  eapply triple_bind; [apply triple_run, law_Array_Alloc|intros arr].
  destruct (Z.eqb_spec arr 0) as [->|Ha].
  { eapply triple_pre; [|apply triple_check_pending, triple_ret]; [|by intros].
    intros s _ [Hz _]. by apply Hz. }
  apply (triple_pre _ _ (fun s => length_is arr n (world s))); [intros s _ [_ Hl]; by apply Hl|].
  assert (exists src, (if is_range then vregC ← VRegC_3rc inst; Ok (fun k => Ok (vregC + k))
      else w ← Fetch16 inst 0; arg ← GetVarArgs inst w; Ok (fun k => zget arg k)) = Ok src /\
    forall k, 0 <= k < n -> operand_ok (src k) (register_ok ci)) as (src & Hsrc & Hregs).
  { destruct is_range.
    - destruct Hop as (r0 & -> & ? & ?). eexists. split; [done|]. intros j Hj. eexists.
      split; [done|]. unfold register_ok. lia.
    - destruct Hop as (args & Hargs & Hlen & Hall). rewrite Hd. cbn. rewrite Hargs.
      eexists. split; [done|]. intros j Hj. destruct (zget_in_bounds args j) as [x Hx]; [lia|].
      exists x. split; [done|]. by eapply zget_Forall. }
  eapply triple_bind; [by apply triple_lift_ok|intros ?]. apply triple_pure. intros ->.
  eapply triple_bind; [apply (triple_fill_elements _ _ _ _ _ n); auto; lia|intros ?].
  eapply triple_bind with (Q := fun _ => any); [|intros ?; by apply triple_ret].
  intros s [] _. split; [by split|done].
Qed.

(** ** Switches *)

Lemma int32_at_word t k v : table_word ci t k = Ok v -> int32_at (At code t) k = Ok v.
Proof.
  unfold table_word, int32_at, Fetch32. intros H. inv_res. rewrite E, E0. cbn.
  pose proof (Fetch16_range (At code t) _ _ (wf_units _ (vm_wf _ _ _ _ VM)) E).
  pose proof (Fetch16_range (At code t) _ _ (wf_units _ (vm_wf _ _ _ _ VM)) E0).
  assert (int32 (Z.shiftl a0 16) = Z.shiftl (a0 - 65536 * (a0 / 32768)) 16) as ->
    by (rewrite !Z.shiftl_mul_pow2 by lia; int_lia).
  assert (uint32 (Z.shiftl a0 16) = Z.shiftl a0 16) as ->
    by (rewrite !Z.shiftl_mul_pow2 by lia; int_lia).
  rewrite !lor_low_high by lia. f_equal. int_lia.
Qed.

Lemma table_word_total t k :
  0 <= t + k -> t + k + 1 < zlength code -> exists v, table_word ci t k = Ok v.
Proof.
  intros Hk Hn. unfold table_word.
  destruct (Fetch16_in_bounds (At code t) k) as [lo ->]; [cbn; lia|].
  destruct (Fetch16_in_bounds (At code t) (k + 1)) as [hi ->]; [cbn; lia|]. cbn. eauto.
Qed.

Lemma aligned t : Z.land (insns_address env + 2 * t) 3 = 0 -> forall k,
  IsAligned4 (insns_address env) (t + 2 * k) = true.
Proof.
  intros Ht k. unfold IsAligned4. change 3 with (Z.ones 2) in Ht.
  rewrite Z.land_ones in Ht by lia. apply Z.eqb_eq.
  replace (insns_address env + 2 * (t + 2 * k)) with (insns_address env + 2 * t + k * 4) by lia.
  by rewrite Z.mod_add.
Qed.

Definition switch_edge (off : Z) : Prop := flows_to ci pc (pc + off).

Lemma switch_default : (c = PACKED_SWITCH \/ c = SPARSE_SWITCH) -> switch_edge 3.
Proof.
  intros Hc. replace 3 with (format_size (FormatOf c)) by (by destruct Hc as [-> | ->]).
  apply flow_next; [apply opcode_here|by destruct Hc as [-> | ->]].
Qed.

Section Switch.
Context (off count : Z) (Hc : c = PACKED_SWITCH \/ c = SPARSE_SWITCH).
Context (SW : switch_ok env ci pc c off count).
Context (HA : operand_ok (VRegA_31t inst d) (register_ok ci)).
Context (HB : operand_ok (VRegB_31t inst) (fun r => VRegB inst = Ok r)).

Lemma switch_count : 0 < count.
Proof. by eapply (vm_switch _ _ _ _ VM); [exact Hstart|apply opcode_here|]. Qed.

Lemma switch_entry k :
  0 <= k < count -> exists t, int32_at (At code (pc + off)) (switch_targets c count + k * 2) = Ok t /\
    switch_edge t.
Proof.
  intros Hk. destruct (sw_targets _ _ _ _ _ _ SW k Hk) as (t & Ht & _).
  exists t. split; [by apply int32_at_word|].
  eapply flow_switch; [apply opcode_here|done|apply SW|apply SW|done|done].
Qed.

Lemma switch_word k :
  0 <= k -> k + 2 <= switch_targets c count + 2 * count ->
  exists v, int32_at (At code (pc + off)) k = Ok v.
Proof.
  intros Hk Hn. pose proof (sw_end _ _ _ _ _ _ SW). pose proof (sw_start _ _ _ _ _ _ SW).
  destruct (table_word_total (pc + off) k) as [v Hv]; [lia..|].
  exists v. by apply int32_at_word.
Qed.

Lemma triple_DoPackedSwitch :
  c = PACKED_SWITCH -> triple ok any (DoPackedSwitch (insns_address env) inst d) (fun o _ => switch_edge o).
Proof.
  intros HP. pose proof switch_count. unfold DoPackedSwitch.
  eapply triple_bind; [apply triple_lift_ok, opcode_here|intros ?]. apply triple_pure. intros ->.
  rewrite bool_decide_eq_true_2 by done. do 2 istep.
  assert (r = off) as -> by (pose proof (sw_offset _ _ _ _ _ _ SW); congruence). do 2 istep.
  cbn [RelativeAt insns pos].
  eapply triple_bind; [apply triple_lift_ok, (sw_signature _ _ _ _ _ _ SW)|intros ?].
  apply triple_pure. intros ->. unfold switch_signature. rewrite decide_True by done. istep.
  eapply triple_bind; [apply triple_lift_ok, (sw_count _ _ _ _ _ _ SW)|intros ?].
  apply triple_pure. intros ->.
  eapply triple_bind; [apply triple_CHECK; lia|intros ?].
  eapply triple_bind; [apply triple_CHECK, (aligned _ (sw_aligned _ _ _ _ _ _ SW) 1)|intros ?].
  assert (switch_targets c count = 4) as HT by (unfold switch_targets; by rewrite decide_True).
  destruct (switch_word 2) as [key Hkey]; [lia..|].
  eapply triple_bind; [by apply triple_lift_ok|intros ?]. apply triple_pure. intros ->.
  eapply triple_bind; [apply triple_CHECK, (aligned _ (sw_aligned _ _ _ _ _ _ SW) 2)|intros ?].
  set (index := int32 _). destruct ((0 <=? index) && (index <? count)) eqn:Hi.
  - destruct (switch_entry index) as (t & Ht & Hedge); [lia|]. rewrite HT in Ht.
    replace (4 + 2 * index) with (4 + index * 2) by lia.
    eapply triple_post; [by apply triple_lift_ok|]. by intros ? ? _ [-> _].
  - apply triple_ret. intros. by apply switch_default.
Qed.

Lemma SparseSwitch_loop_edge fuel v lo hi :
  c = SPARSE_SWITCH -> 0 <= lo <= hi + 1 -> hi < count -> hi - lo + 1 < Z.of_nat fuel ->
  exists t, SparseSwitch_loop fuel (At code (pc + off)) count v lo hi = Ok t /\ switch_edge t.
Proof.
  intros HS. assert (switch_targets c count = 2 + 2 * count) as HT
    by (unfold switch_targets; rewrite decide_False; [done|by rewrite HS]).
  revert lo hi. induction fuel as [|fuel IH]; intros lo hi Hlo Hhi Hf; [lia|].
  cbn [SparseSwitch_loop]. destruct (Z.leb_spec lo hi); [|exists 3; split; [done|by apply switch_default]].
  set (mid := (lo + hi) ÷ 2). assert (lo <= mid <= hi) as Hmid.
  { subst mid. rewrite Z.quot_div_nonneg by lia. Z.div_mod_to_equations. lia. }
  destruct (switch_word (2 + 2 * mid)) as [key Hkey]; [lia..|]. rewrite Hkey. cbn.
  destruct (v <? key); [apply IH; lia|]. destruct (key <? v); [apply IH; lia|].
  destruct (switch_entry mid) as (t & Ht & Hedge); [lia|]. rewrite HT in Ht.
  replace (2 + 2 * count + 2 * mid) with (2 + 2 * count + mid * 2) by lia. eauto.
Qed.

Lemma triple_DoSparseSwitch :
  c = SPARSE_SWITCH -> triple ok any (DoSparseSwitch (insns_address env) inst d) (fun o _ => switch_edge o).
Proof.
  intros HP. pose proof switch_count. unfold DoSparseSwitch.
  eapply triple_bind; [apply triple_lift_ok, opcode_here|intros ?]. apply triple_pure. intros ->.
  rewrite bool_decide_eq_true_2 by done. do 2 istep.
  assert (r = off) as -> by (pose proof (sw_offset _ _ _ _ _ _ SW); congruence). do 2 istep.
  cbn [RelativeAt insns pos].
  eapply triple_bind; [apply triple_lift_ok, (sw_signature _ _ _ _ _ _ SW)|intros ?].
  apply triple_pure. intros ->. unfold switch_signature.
  rewrite decide_False by (by rewrite HP). istep.
  eapply triple_bind; [apply triple_lift_ok, (sw_count _ _ _ _ _ _ SW)|intros ?].
  apply triple_pure. intros ->.
  eapply triple_bind; [apply triple_CHECK; lia|intros ?].
  eapply triple_bind; [apply triple_CHECK, (aligned _ (sw_aligned _ _ _ _ _ _ SW) 1)|intros ?].
  eapply triple_bind; [apply triple_CHECK|intros ?].
  { rewrite <- Z.add_assoc. replace (2 + 2 * count) with (2 * (1 + count)) by lia.
    apply aligned, (sw_aligned _ _ _ _ _ _ SW). }
  destruct (SparseSwitch_loop_edge (S (Z.to_nat count)) a0 0 (count - 1)) as (t & Ht & Hedge);
    [done|lia..|].
  eapply triple_post; [apply triple_lift_ok, Ht|]. by intros ? ? _ [-> _].
Qed.
End Switch.
End Instruction.
