(* ===== verification/InterpreterTheorems.v ===== *)
(** * The interpreter on verified code: theorems *)

From S2P Require Import Prelude Modifiers Leb128 DexOpcodes DexInstruction DexCode StaticVerifier StaticVerifierFacts StaticVerifierTheorems ShadowFrame Float Memory ClassHierarchy Heap Transactions InterpreterCommon InterpreterSwitch InterpreterLogic InterpreterSafety InterpreterSteps.

Lemma implb_decide (P Q : Prop) `{Decision P, Decision Q} :
  implb (bool_decide P) (bool_decide Q) = true -> P -> Q.
Proof. intros Hi Hp. rewrite (bool_decide_eq_true_2 _ Hp) in Hi. by apply bool_decide_eq_true in Hi. Qed.

Lemma format_22t c :
  FormatOf c = k22t -> c ∈ [IF_EQ; IF_NE; IF_LT; IF_GE; IF_GT; IF_LE].
Proof. refine (implb_decide _ _ _). destruct c; vm_compute; reflexivity. Qed.
Lemma format_21t c :
  FormatOf c = k21t -> c ∈ [IF_EQZ; IF_NEZ; IF_LTZ; IF_GEZ; IF_GTZ; IF_LEZ].
Proof. refine (implb_decide _ _ _). destruct c; vm_compute; reflexivity. Qed.

Section Dispatch.
Context {R : Runtime} {L : RuntimeLaws R}.
Context (env : VerifierEnv) (ci : CodeItem) (method : Z) (am : ArtMethod).
Context (VM : verified_method env ci method am).
Local Abbreviation code := (insns_ ci).
Local Abbreviation ok := (st_ok ci method).
Context (pc : Z) (c : Code) (d : Z).
Local Abbreviation inst := (At code pc).
Context (Hstart : instruction_start code pc) (IO : instruction_ok env ci pc c).
Context (Hd : Fetch16 inst 0 = Ok d).

(** ** Operands *)

Lemma operand_known acc generic lo hi :
  view acc generic lo hi -> operand_ok acc (fun r => generic = Ok r).
Proof. intros (v & -> & -> & _). by exists v. Qed.

Lemma operand_31c : FormatOf c = k31c -> operand_ok (VRegB_31c inst) any.
Proof.
  intros HF. pose proof (ok_fits _ _ _ _ IO) as Hf.
  destruct (fits_unit _ c 1 Hf) as (w1 & E1 & ?); [rewrite HF; cbn; lia|].
  destruct (fits_unit _ c 2 Hf) as (w2 & E2 & ?); [rewrite HF; cbn; lia|].
  unfold VRegB_31c. rewrite (dcheck_format_ok _ c _ (fits_opcode _ _ Hf) HF). cbn.
  rewrite (Fetch32_units _ 1 w1 w2) by done. by eexists.
Qed.

Lemma operand_51l : FormatOf c = k51l -> operand_ok (VRegB_51l inst) any.
Proof.
  intros HF. pose proof (ok_fits _ _ _ _ IO) as Hf.
  destruct (fits_unit _ c 1 Hf) as (w1 & E1 & ?); [rewrite HF; cbn; lia|].
  destruct (fits_unit _ c 2 Hf) as (w2 & E2 & ?); [rewrite HF; cbn; lia|].
  destruct (fits_unit _ c 3 Hf) as (w3 & E3 & ?); [rewrite HF; cbn; lia|].
  destruct (fits_unit _ c 4 Hf) as (w4 & E4 & ?); [rewrite HF; cbn; lia|].
  unfold VRegB_51l. rewrite (dcheck_format_ok _ c _ (fits_opcode _ _ Hf) HF). cbn.
  rewrite (Fetch32_units _ 1 w1 w2), (Fetch32_units _ 3 w3 w4) by done. by eexists.
Qed.

(** The branch offset the verifier reads is the operand of the instruction. *)
Lemma operand_branch acc :
  (exists off, acc = Ok off /\
     exists cond self, GetBranchOffset ci pc = Ok (Some (off, cond, self))) ->
  operand_ok acc (fun off => flows_to ci pc (pc + off)).
Proof. intros (off & -> & cond & self & H). exists off. split; [done|]. by eapply flow_branch. Qed.

Lemma branch_word : Code_of_byte (Z.land d 0xff) = c.
Proof.
  pose proof (opcode_here env ci pc c IO) as Ho. apply Opcode_ok in Ho as (w & Hw & ->).
  rewrite Hd in Hw. injection Hw as <-. by rewrite land_0xff.
Qed.

(** The offset of a two-unit branch is its second unit. *)
Lemma branch_second acc :
  format_size (FormatOf c) = 2 ->
  (forall w, Fetch16 inst 1 = Ok w -> acc = Ok (int16 w) /\
     exists cond self, GetBranchOffset ci pc = Ok (Some (int16 w, cond, self))) ->
  operand_ok acc (fun off => flows_to ci pc (pc + off)).
Proof.
  intros HF H. destruct (fits_unit _ c 1 (ok_fits _ _ _ _ IO)) as (w & Hw & _); [lia|].
  destruct (H w Hw) as [Ha Hb]. apply operand_branch. eauto.
Qed.

Ltac second_unit HF :=
  apply branch_second; [by rewrite HF|]; intros w Hw;
  pose proof (opcode_here env ci pc c IO) as Ho;
  unfold VRegC_22t, VRegB_21t, VRegA_20t; rewrite (dcheck_format_ok _ _ _ Ho HF);
  cbn; rewrite Hw; split; [done|]; unfold GetBranchOffset; cbn; rewrite Hd; cbn;
  rewrite branch_word, Hw.

Lemma operand_branch_20t :
  c = GOTO_16 -> operand_ok (VRegA_20t inst) (fun off => flows_to ci pc (pc + off)).
Proof. intros Hc. assert (FormatOf c = k20t) as HF by (by rewrite Hc). second_unit HF. subst c. eauto. Qed.

Lemma operand_branch_22t :
  FormatOf c = k22t -> operand_ok (VRegC_22t inst) (fun off => flows_to ci pc (pc + off)).
Proof.
  intros HF. second_unit HF. apply format_22t in HF. rewrite !elem_of_cons in HF.
  destruct_or! HF; try (by apply not_elem_of_nil in HF); subst c; cbn; eauto.
Qed.

Lemma operand_branch_21t :
  FormatOf c = k21t -> operand_ok (VRegB_21t inst) (fun off => flows_to ci pc (pc + off)).
Proof.
  intros HF. second_unit HF. apply format_21t in HF. rewrite !elem_of_cons in HF.
  destruct_or! HF; try (by apply not_elem_of_nil in HF); subst c; cbn; eauto.
Qed.

Lemma operand_branch_10t :
  c = GOTO -> operand_ok (VRegA_10t inst d) (fun off => flows_to ci pc (pc + off)).
Proof.
  intros Hc. pose proof (opcode_here env ci pc c IO) as Ho. apply operand_branch.
  pose proof (Fetch16_range _ _ _ (fits_code _ _ (ok_fits _ _ _ _ IO)) Hd).
  unfold VRegA_10t, InstAA. rewrite (dcheck_format_ok _ _ k10t Ho) by (by rewrite Hc). cbn.
  rewrite (dcheck_data_ok _ _ Hd). cbn. eexists. split; [done|].
  unfold GetBranchOffset. cbn. rewrite Hd. cbn. rewrite branch_word, Hc.
  exists false, false. do 4 f_equal. rewrite !Z.shiftr_div_pow2 by lia. int_lia.
Qed.

Lemma operand_branch_30t :
  c = GOTO_32 -> operand_ok (VRegA_30t inst) (fun off => flows_to ci pc (pc + off)).
Proof.
  intros Hc. pose proof (opcode_here env ci pc c IO) as Ho. apply operand_branch.
  assert (FormatOf c = k30t) as HF by (by rewrite Hc).
  destruct (fits_unit _ c 1 (ok_fits _ _ _ _ IO)) as (w1 & E1 & ?); [rewrite HF; cbn; lia|].
  destruct (fits_unit _ c 2 (ok_fits _ _ _ _ IO)) as (w2 & E2 & ?); [rewrite HF; cbn; lia|].
  unfold VRegA_30t. rewrite (dcheck_format_ok _ _ k30t Ho HF). cbn.
  unfold Fetch32. change (1 + 1) with 2. rewrite E1. cbn. rewrite E2. cbn. eexists. split; [done|].
  unfold GetBranchOffset. cbn. rewrite Hd. cbn. rewrite branch_word, Hc, E1. cbn. rewrite E2. eauto.
Qed.

(** ** The operands of calls *)

Lemma call_operands_list :
  FormatOf c = k35c -> flagged c kVerifyVarArg \/ flagged c kVerifyVarArgNonZero ->
  exists n, call_operands ci pc d false n /\
    operand_ok (VRegC_35c inst) (fun r => 0 < n -> register_ok ci r).
Proof.
  intros HF Hf. destruct (call_arguments env ci pc c d IO Hd HF) as (n & w & Hlo);
    [by apply (ok_arguments _ _ _ _ IO)|].
  exists n. split; [by exists w|].
  unfold VRegC_35c. rewrite (dcheck_format_ok _ _ _ (opcode_here env ci pc c IO) HF). cbn.
  rewrite (lo_word _ _ _ _ _ Hlo). cbn. eexists. split; [done|]. intros Hn.
  pose proof (lo_first _ _ _ _ _ Hlo 0 ltac:(lia) ltac:(lia)) as Hr.
  rewrite Z.mul_0_r, Z.shiftr_0_r in Hr.
  replace (uint8 (Z.land w 15)) with (Z.land w 15); [done|]. rewrite land_0xf. int_lia.
Qed.

Lemma call_operands_range :
  FormatOf c = k3rc -> flagged c kVerifyVarArgRange \/ flagged c kVerifyVarArgRangeNonZero ->
  exists n, call_operands ci pc d true n /\
    operand_ok (VRegC_3rc inst) (fun r => 0 < n -> register_ok ci r).
Proof.
  intros HF Hf. destruct (ok_range _ _ _ _ IO Hf) as (a & cc & Ha & Hcc & ? & ? & ?).
  destruct (VRegA_3rc_view _ c d (ok_fits _ _ _ _ IO) HF Hd) as (a' & Ha' & Ha'' & _).
  destruct (VRegC_3rc_view _ c d (ok_fits _ _ _ _ IO) HF Hd) as (c' & Hc' & Hc'' & _).
  assert (a' = a) as -> by congruence. assert (c' = cc) as -> by congruence.
  exists a. split; [split; [done|]; by exists cc|].
  exists cc. split; [done|]. intros ?. unfold register_ok. lia.
Qed.

(** An invoke that must have a receiver has one. *)
Lemma call_nonzero is_range n :
  FormatOf c = (if is_range : bool then k3rc else k35c) ->
  flagged c kVerifyVarArgNonZero \/ flagged c kVerifyVarArgRangeNonZero ->
  call_operands ci pc d is_range n -> 0 < n.
Proof.
  intros HF Hf Hop. destruct (ok_nonzero _ _ _ _ IO Hf) as (a & Ha & ?).
  destruct is_range.
  - destruct (VRegA_3rc_view _ c d (ok_fits _ _ _ _ IO) HF Hd) as (a' & Ha' & Ha'' & _).
    destruct Hop as (Hn & _). assert (n = a) as -> by congruence. done.
  - destruct (VRegA_35c_view _ c d (ok_fits _ _ _ _ IO) HF Hd) as (a' & Ha' & Ha'' & _).
    destruct Hop as (w & Hlo). pose proof (lo_count _ _ _ _ _ Hlo).
    assert (n = a) as -> by congruence. done.
Qed.

(** ** Branches *)

Lemma triple_goto_branch acc :
  no_return c -> operand_ok acc (fun off => flows_to ci pc (pc + off)) ->
  triple ok any (PREAMBLE ci inst;; offset ← lift acc; branch inst offset) (lands ci pc).
Proof.
  intros NR Hacc. eapply triple_bind; [by eapply triple_PREAMBLE|intros ?].
  eapply triple_operand; [exact Hacc|intros off Hoff]. by apply triple_branch.
Qed.

Lemma triple_switch (m : interp Z) :
  no_return c -> triple ok any m (fun off _ => switch_edge ci pc off) ->
  triple ok any (PREAMBLE ci inst;; offset ← m; branch inst offset) (lands ci pc).
Proof.
  intros NR Hm. eapply triple_bind; [by eapply triple_PREAMBLE|intros ?].
  eapply triple_bind; [apply triple_forget, Hm|intros off].
  intros s Hi Hoff. by apply (triple_branch ci method pc any off).
Qed.

Lemma triple_nop :
  c = NOP -> triple ok any (PREAMBLE ci inst;; next_1xx inst) (lands ci pc).
Proof.
  intros Hc. eapply triple_bind; [eapply triple_PREAMBLE; [done..|by rewrite Hc]|intros ?].
  eapply triple_next_1xx; [done|by rewrite Hc..].
Qed.

Lemma triple_return_void (b : bool) :
  triple ok any ((if b then run (emit ThreadFenceForConstructor) else mret tt);;
    run (emit AllowThreadSuspension);; method_exit ci inst inst 0) (lands ci pc).
Proof.
  eapply triple_bind with (Q := ends).
  { destruct b; [|by apply triple_ret]. apply triple_run_ends, triple_emit. }
  intros ?. eapply triple_bind; [apply triple_forget, triple_run_ends, triple_emit|intros ?].
  by eapply triple_method_exit.
Qed.

Lemma operand_map acc f : operand_ok acc any -> operand_ok (b ← acc; Ok (f b)) any.
Proof. intros (r & -> & _). by exists (f r). Qed.

Lemma triple_packed_switch :
  c = PACKED_SWITCH -> triple ok any
    (PREAMBLE ci inst;; offset ← DoPackedSwitch (insns_address env) inst d; branch inst offset)
    (lands ci pc).
Proof.
  intros Hc. apply triple_switch; [by unfold no_return; rewrite Hc|].
  destruct (ok_switch _ _ _ _ IO) as (off & count & SW); [by rewrite Hc|].
  assert (FormatOf c = k31t) as HF by (by rewrite Hc). pose proof (ok_fits _ _ _ _ IO).
  eapply triple_DoPackedSwitch; eauto.
  - eapply operand_view; [by eapply VRegA_31t_view|]. apply (ok_A _ _ _ _ IO). by rewrite Hc.
  - eapply operand_known. by eapply VRegB_31t_view.
Qed.

Lemma triple_sparse_switch :
  c = SPARSE_SWITCH -> triple ok any
    (PREAMBLE ci inst;; offset ← DoSparseSwitch (insns_address env) inst d; branch inst offset)
    (lands ci pc).
Proof.
  intros Hc. apply triple_switch; [by unfold no_return; rewrite Hc|].
  destruct (ok_switch _ _ _ _ IO) as (off & count & SW); [by rewrite Hc|].
  assert (FormatOf c = k31t) as HF by (by rewrite Hc). pose proof (ok_fits _ _ _ _ IO).
  eapply triple_DoSparseSwitch; eauto.
  - eapply operand_view; [by eapply VRegA_31t_view|]. apply (ok_A _ _ _ _ IO). by rewrite Hc.
  - eapply operand_known. by eapply VRegB_31t_view.
Qed.
End Dispatch.

(** ** Every case *)

Ltac flag IO :=
  first [ apply (ok_A _ _ _ _ IO); reflexivity | apply (ok_B _ _ _ _ IO); reflexivity
        | apply (ok_C _ _ _ _ IO); reflexivity | apply (ok_A_wide _ _ _ _ IO); reflexivity
        | apply (ok_B_wide _ _ _ _ IO); reflexivity | apply (ok_C_wide _ _ _ _ IO); reflexivity ].

Ltac operand_none :=
  first [ eapply operand_any; solve [eauto with view]
        | eapply operand_31c; [eassumption|reflexivity]
        | eapply operand_51l; [eassumption|reflexivity]
        | apply operand_map; eapply operand_any; solve [eauto with view] ].

Ltac operand IO :=
  lazymatch goal with
  | |- operand_ok _ any => operand_none
  | |- operand_ok _ (fun r => VRegB _ = Ok r) => eapply operand_known; solve [eauto with view]
  | |- operand_ok (VRegA_10t _ _) _ => eapply operand_branch_10t; [eassumption..|reflexivity]
  | |- operand_ok (VRegA_20t _) _ => eapply operand_branch_20t; [eassumption..|reflexivity]
  | |- operand_ok (VRegA_30t _) _ => eapply operand_branch_30t; [eassumption..|reflexivity]
  | |- operand_ok (VRegC_22t _) _ => eapply operand_branch_22t; [eassumption..|reflexivity]
  | |- operand_ok (VRegB_21t _) _ => eapply operand_branch_21t; [eassumption..|reflexivity]
  | |- operand_ok _ _ =>
      first [eapply operand_view; [solve [eauto with view]|flag IO] | operand_none]
  end.

Ltac side IO :=
  lazymatch goal with
  | |- no_return _ => reflexivity
  | |- operand_ok _ _ => operand IO
  | |- reads _ _ _ _ => intros ? ? ?; solve [eauto with triple]
  | |- writes _ _ _ _ => intros ? ? ?; solve [eauto with triple]
  | |- triple _ _ (next_1xx _) _ => eapply triple_next_1xx; [eassumption|reflexivity..]
  | |- triple _ _ (next_2xx _) _ => eapply triple_next_2xx; [eassumption|reflexivity..]
  | |- triple _ _ (next_3xx _) _ => eapply triple_next_3xx; [eassumption|reflexivity..]
  | |- triple _ _ (goto _ Next_51l) _ => eapply triple_next_51l; [eassumption|reflexivity..]
  | |- forall r x y, _ -> attempts _ _ _ => intros ? ? ? ?
  | |- forall o, service _ _ => intros ?; solve [eauto with service]
  | |- attempts _ _ (DoIntDivide _ _ _) => by eapply attempts_DoIntDivide
  | |- attempts _ _ (DoIntRemainder _ _ _) => by eapply attempts_DoIntRemainder
  | |- attempts _ _ (DoLongDivide _ _ _) => by eapply attempts_DoLongDivide
  | |- attempts _ _ (DoLongRemainder _ _ _) => by eapply attempts_DoLongRemainder
  | |- _ => first [eassumption | reflexivity]
  end.

Ltac shape :=
  lazymatch goal with
  | |- triple _ _ (move _ _ _ _ _ _ _) _ => eapply triple_move
  | |- triple _ _ (move_result _ _ _ _ _) _ => eapply triple_move_result
  | |- triple _ _ (move_exception _ _ _) _ => eapply triple_move_exception
  | |- triple _ _ (return_object _ _ _ _) _ => eapply triple_return_object
  | |- triple _ _ (const _ _ _ _ _) _ => eapply triple_const
  | |- triple _ _ (const_wide _ _ _ _ _) _ => eapply triple_const_wide
  | |- triple _ _ (const_string _ _ _ _ _) _ => eapply triple_const_string
  | |- triple _ _ (const_class _ _ _ _) _ => eapply triple_const_class
  | |- triple _ _ (monitor _ _ _ _) _ => eapply triple_monitor
  | |- triple _ _ (check_cast _ _ _ _) _ => eapply triple_check_cast
  | |- triple _ _ (instance_of _ _ _ _) _ => eapply triple_instance_of
  | |- triple _ _ (array_length _ _ _) _ => eapply triple_array_length
  | |- triple _ _ (new_instance _ _ _ _ _) _ => eapply triple_new_instance
  | |- triple _ _ (new_array _ _ _ _) _ => eapply triple_new_array
  | |- triple _ _ (fill_array_data _ _ _ _) _ => eapply triple_fill_array_data
  | |- triple _ _ (throw_ _ _ _ _) _ => eapply triple_throw_
  | |- triple _ _ (compare _ _ _ _ _) _ => eapply triple_compare
  | |- triple _ _ (if_test _ _ _ _) _ => eapply triple_if_test
  | |- triple _ _ (if_testz _ _ _ _) _ => eapply triple_if_testz
  | |- triple _ _ (aget _ _ _ _ _) _ => eapply triple_aget
  | |- triple _ _ (aget_object _ _ _) _ => eapply triple_aget_object
  | |- triple _ _ (aput _ _ _ _ _ _) _ => eapply triple_aput
  | |- triple _ _ (aput_object _ _ _ _) _ => eapply triple_aput_object
  | |- triple _ _ (unary _ _ _ _ _ _) _ => eapply triple_unary
  | |- triple _ _ (binary_23x _ _ _ _ _ _ _) _ => eapply triple_binary_23x
  | |- triple _ _ (binary_12x _ _ _ _ _ _ _) _ => eapply triple_binary_12x
  | |- triple _ _ (binary_lit16 _ _ _ _) _ => eapply triple_binary_lit16
  | |- triple _ _ (binary_lit8 _ _ _ _) _ => eapply triple_binary_lit8
  | |- triple _ _ (divide_23x _ _ _ _) _ => eapply triple_divide_23x
  | |- triple _ _ (divide_12x _ _ _ _) _ => eapply triple_divide_12x
  | |- triple _ _ (divide_long_23x _ _ _ _) _ => eapply triple_divide_long_23x
  | |- triple _ _ (divide_long_12x _ _ _ _) _ => eapply triple_divide_long_12x
  | |- triple _ _ (divide_lit16 _ _ _ _) _ => eapply triple_divide_lit16
  | |- triple _ _ (divide_lit8 _ _ _ _) _ => eapply triple_divide_lit8
  end.

Section Cases.
Context {R : Runtime} {L : RuntimeLaws R}.
Context (env : VerifierEnv) (ci : CodeItem) (method : Z) (am : ArtMethod).
Context (VM : verified_method env ci method am).
Local Abbreviation code := (insns_ ci).
Local Abbreviation ok := (st_ok ci method).
Context (pc d : Z).
Local Abbreviation inst := (At code pc).
Context (Hstart : instruction_start code pc) (Hd : Fetch16 inst 0 = Ok d).

(** The cases of a group, by the operands and flags of each opcode. *)
Definition group_ok (group : Code -> option (interp outcome)) : Prop :=
  forall c m, instruction_ok env ci pc c -> group c = Some m -> triple ok any m (lands ci pc).

Ltac by_cases tac :=
  intros c m IO H; pose proof (ok_fits _ _ _ _ IO);
  destruct c; try discriminate H; injection H as <-; tac IO.

Lemma unary_ok : group_ok (execute_unary ci inst d).
Proof. by_cases ltac:(fun IO => shape; side IO). Qed.

Lemma moves_ok : group_ok (execute_moves ci inst d).
Proof. by_cases ltac:(fun IO => first [shape | eapply triple_nop]; side IO). Qed.

Lemma returns_ok : group_ok (execute_returns false ci inst d).
Proof.
  by_cases ltac:(fun IO =>
    first [ shape; side IO | by eapply (triple_return_void _ _ _ _ VM _ false)
          | by eapply (triple_return_void _ _ _ _ VM _ true)
          | eapply triple_return; side IO ]).
Qed.

Lemma constants_ok : group_ok (execute_constants false ci inst d).
Proof. by_cases ltac:(fun IO => shape; side IO). Qed.

Lemma gotos_ok : group_ok (execute_gotos ci (insns_address env) inst d).
Proof.
  by_cases ltac:(fun IO =>
    lazymatch goal with
    | |- context [DoPackedSwitch] => eapply triple_packed_switch
    | |- context [DoSparseSwitch] => eapply triple_sparse_switch
    | _ => eapply triple_goto_branch
    end; side IO).
Qed.

Lemma compares_ok : group_ok (execute_compares ci inst d).
Proof. by_cases ltac:(fun IO => shape; side IO). Qed.

Lemma ifs_ok : group_ok (execute_ifs ci inst d).
Proof. by_cases ltac:(fun IO => shape; side IO). Qed.

Lemma agets_ok : group_ok (execute_agets ci inst d).
Proof. by_cases ltac:(fun IO => shape; side IO). Qed.

Lemma aputs_ok : group_ok (execute_aputs false ci inst d).
Proof. by_cases ltac:(fun IO => shape; side IO). Qed.

Lemma int_ok : group_ok (execute_int ci inst d).
Proof. by_cases ltac:(fun IO => shape; side IO; side IO). Qed.

Lemma long_ok : group_ok (execute_long ci inst d).
Proof. by_cases ltac:(fun IO => shape; side IO; side IO). Qed.

Lemma float_ok : group_ok (execute_float ci inst d).
Proof. by_cases ltac:(fun IO => shape; side IO). Qed.

Lemma int_2addr_ok : group_ok (execute_int_2addr ci inst d).
Proof. by_cases ltac:(fun IO => shape; side IO; side IO). Qed.

Lemma long_2addr_ok : group_ok (execute_long_2addr ci inst d).
Proof. by_cases ltac:(fun IO => shape; side IO; side IO). Qed.

Lemma float_2addr_ok : group_ok (execute_float_2addr ci inst d).
Proof. by_cases ltac:(fun IO => shape; side IO). Qed.

Lemma lit16_ok : group_ok (execute_lit16 ci inst d).
Proof. by_cases ltac:(fun IO => shape; side IO; side IO). Qed.

Lemma lit8_ok : group_ok (execute_lit8 ci inst d).
Proof. by_cases ltac:(fun IO => shape; side IO; side IO). Qed.

Ltac field_side IO :=
  unfold field_operands; cbn [is_static_access typed_register]; split_and!; operand IO.

Lemma field_gets_ok : group_ok (execute_gets false ci inst d).
Proof.
  by_cases ltac:(fun IO => unfold get_field, get_quick; eapply triple_attempt;
    [eassumption..|reflexivity| |side IO];
    lazymatch goal with
    | |- attempts _ _ (DoFieldGet _ _ _ _ _) =>
        eapply attempts_DoFieldGet; [eassumption|by eexists|field_side IO]
    | |- attempts _ _ (DoIGetQuick _ _ _) =>
        eapply attempts_DoIGetQuick; [eassumption|tauto|cbn [typed_register]; operand IO..]
    end).
Qed.

Lemma field_puts_ok : group_ok (execute_puts false false ci inst d).
Proof.
  by_cases ltac:(fun IO => unfold put_field, put_quick; eapply triple_attempt;
    [eassumption..|reflexivity| |side IO];
    lazymatch goal with
    | |- attempts _ _ (DoFieldPut _ _ _ _ _ _) =>
        eapply attempts_DoFieldPut; [eassumption|by eexists|field_side IO]
    | |- attempts _ _ (DoIPutQuick _ _ _ _) =>
        eapply attempts_DoIPutQuick; [eassumption|by eexists|cbn [typed_register]; operand IO..]
    end).
Qed.

(** The operands of the invokes: those of instance methods have a receiver. *)
Lemma invoke_operands c (is_range receiver : bool) :
  instruction_ok env ci pc c -> FormatOf c = (if is_range then k3rc else k35c) ->
  (if is_range then flagged c kVerifyVarArgRange \/ flagged c kVerifyVarArgRangeNonZero
   else flagged c kVerifyVarArg \/ flagged c kVerifyVarArgNonZero) ->
  (receiver = true -> flagged c kVerifyVarArgNonZero \/ flagged c kVerifyVarArgRangeNonZero) ->
  exists n, call_operands ci pc d is_range n /\
    operand_ok (if is_range then VRegC_3rc inst else VRegC_35c inst)
      (fun r => receiver = true -> register_ok ci r).
Proof.
  intros IO HF Hf Hr.
  assert (exists n, call_operands ci pc d is_range n /\
    operand_ok (if is_range then VRegC_3rc inst else VRegC_35c inst)
      (fun r => 0 < n -> register_ok ci r)) as (n & Hn & r & Hacc & Hreg).
  { destruct is_range; [by eapply call_operands_range|by eapply call_operands_list]. }
  exists n. split; [done|]. exists r. split; [done|]. intros Ht.
  apply Hreg. eapply call_nonzero; eauto.
Qed.

Lemma triple_invoke c type (is_range : bool) :
  instruction_ok env ci pc c -> no_return c ->
  FormatOf c = (if is_range then k3rc else k35c) ->
  (if is_range then flagged c kVerifyVarArgRange \/ flagged c kVerifyVarArgRangeNonZero
   else flagged c kVerifyVarArg \/ flagged c kVerifyVarArgNonZero) ->
  (type <> kStatic -> flagged c kVerifyVarArgNonZero \/ flagged c kVerifyVarArgRangeNonZero) ->
  triple ok any (next_3xx inst) (lands ci pc) ->
  triple ok any (invoke false ci inst d type is_range) (lands ci pc).
Proof.
  intros IO NR HF Hf Hr HN. unfold invoke. eapply triple_attempt; [done..| |done].
  destruct (invoke_operands c is_range (negb (bool_decide (type = kStatic))) IO HF Hf)
    as (n & Hn & HC); [rewrite negb_true_iff, bool_decide_eq_false; auto|].
  pose proof (ok_fits _ _ _ _ IO).
  eapply attempts_DoInvoke; [done|done|done| |].
  - destruct is_range; eapply operand_any; eauto with view.
  - destruct HC as (r & Hacc & Hreg). exists r. split; [done|]. intros Ht. apply Hreg.
    by rewrite bool_decide_eq_false_2.
Qed.

Lemma triple_invoke_quick c (is_range : bool) :
  instruction_ok env ci pc c -> no_return c ->
  FormatOf c = (if is_range then k3rc else k35c) ->
  (if is_range then flagged c kVerifyVarArgRange \/ flagged c kVerifyVarArgRangeNonZero
   else flagged c kVerifyVarArg \/ flagged c kVerifyVarArgNonZero) ->
  flagged c kVerifyVarArgNonZero \/ flagged c kVerifyVarArgRangeNonZero ->
  triple ok any (next_3xx inst) (lands ci pc) ->
  triple ok any (attempt ci inst (DoInvokeVirtualQuick is_range inst d) (next_3xx inst))
    (lands ci pc).
Proof.
  intros IO NR HF Hf Hr HN. eapply triple_attempt; [done..| |done].
  destruct (invoke_operands c is_range true IO HF Hf) as (n & Hn & HC); [done|].
  pose proof (ok_fits _ _ _ _ IO).
  eapply attempts_DoInvokeVirtualQuick; [done|done| |].
  - destruct is_range; eapply operand_any; eauto with view.
  - destruct HC as (r & Hacc & Hreg). exists r. auto.
Qed.

Ltac flagged_tac := intros; first [left; reflexivity | right; reflexivity].

Lemma invokes_ok : group_ok (execute_invokes false ci inst d).
Proof.
  by_cases ltac:(fun IO =>
    lazymatch goal with
    | |- triple _ _ (invoke _ _ _ _ _ _) _ => eapply triple_invoke
    | _ => eapply triple_invoke_quick
    end; [eassumption|reflexivity|reflexivity|flagged_tac|flagged_tac || done|side IO]).
Qed.

Lemma triple_filled_new_array c (is_range : bool) :
  instruction_ok env ci pc c ->
  c = (if is_range then FILLED_NEW_ARRAY_RANGE else FILLED_NEW_ARRAY) ->
  triple ok any
    (attempt ci inst (DoFilledNewArray is_range false false inst) (next_3xx inst)) (lands ci pc).
Proof.
  intros IO Hc. pose proof (ok_fits _ _ _ _ IO) as Hf.
  assert (FormatOf c = (if is_range then k3rc else k35c)) as HF by (subst c; by destruct is_range).
  eapply triple_attempt; [done..|by subst c; destruct is_range| |
    eapply triple_next_3xx; [done|by subst c; destruct is_range..]].
  destruct is_range.
  - destruct (ok_range _ _ _ _ IO) as (a & cc & Ha & Hcc & ? & ? & ?); [left; by subst c|].
    destruct (VRegA_3rc_view _ c d Hf HF Hd) as (a' & Ha' & Ha'' & ?).
    destruct (VRegC_3rc_view _ c d Hf HF Hd) as (c' & Hc' & Hc'' & _).
    assert (a' = a) as -> by congruence. assert (c' = cc) as -> by congruence.
    eapply attempts_DoFilledNewArray with (n := a);
      [eassumption..|by right|done|lia|done|by exists cc|operand_none].
  - destruct (ok_arguments _ _ _ _ IO) as (d' & args & Hd' & Hargs & Ha & Hreg); [left; by subst c|].
    assert (d' = d) as -> by congruence.
    destruct (VRegA_35c_view _ c d Hf HF Hd) as (a' & Ha' & Ha'' & ?).
    assert (a' = zlength args) as -> by congruence.
    pose proof (GetVarArgs_length _ _ _ (fits_code _ _ Hf) Hd Hargs) as (_ & ? & _).
    eapply attempts_DoFilledNewArray with (n := zlength args);
      [eassumption..|by left|done|lia|done|by exists args|operand_none].
Qed.

Lemma objects_ok : group_ok (execute_objects false false ci inst d).
Proof.
  by_cases ltac:(fun IO =>
    lazymatch goal with
    | |- triple _ _ (attempt _ _ (DoFilledNewArray _ _ _ _) _) _ =>
        eapply triple_filled_new_array; [eassumption|reflexivity]
    | _ => shape; side IO
    end).
Qed.

(** ** One instruction *)

Lemma first_case_ok (T : interp outcome -> Prop) l :
  Forall (fun o => forall m, o = Some m -> T m) l -> Exists is_Some l -> T (first_case l).
Proof.
  induction 1 as [|o l Ho _ IH]; intros He; [by apply Exists_nil in He|].
  destruct o; cbn; [by apply Ho|]. apply IH.
  apply Exists_cons in He as [[? ?]|?]; [discriminate|done].
Qed.

Ltac some_case :=
  first [apply Exists_cons_hd; eexists; reflexivity | apply Exists_cons_tl; some_case].

(** Every opcode the verifier lets through has a case. *)
Lemma execute_ok c :
  instruction_ok env ci pc c ->
  triple ok any (execute false false ci (insns_address env) inst d c) (lands ci pc).
Proof.
  intros IO. unfold execute. apply (first_case_ok (fun m => triple ok any m (lands ci pc))).
  - repeat constructor; intros m Hm;
      first [by eapply moves_ok|by eapply returns_ok|by eapply constants_ok|by eapply objects_ok
            |by eapply gotos_ok|by eapply compares_ok|by eapply ifs_ok|by eapply agets_ok
            |by eapply aputs_ok|by eapply field_gets_ok|by eapply field_puts_ok|by eapply invokes_ok
            |by eapply unary_ok|by eapply int_ok|by eapply long_ok|by eapply float_ok
            |by eapply int_2addr_ok|by eapply long_2addr_ok|by eapply float_2addr_ok
            |by eapply lit16_ok|by eapply lit8_ok].
  - pose proof (ok_no_error _ _ _ _ IO) as Hne. clear IO.
    destruct c; first [by destruct Hne | some_case].
Qed.
End Cases.

(** ** Running *)

Section Running.
Context {R : Runtime} {L : RuntimeLaws R}.
Context (env : VerifierEnv) (ci : CodeItem) (method : Z) (am : ArtMethod).
Context (VM : verified_method env ci method am).
Local Abbreviation code := (insns_ ci).
Local Abbreviation ok := (st_ok ci method).

Lemma triple_step pc :
  instruction_start code pc ->
  triple ok any (step false false ci (insns_address env) (At code pc)) (lands ci pc).
Proof.
  intros Hstart. unfold step.
  destruct (so_instructions _ _ (vm_static _ _ _ _ VM) pc Hstart) as (c & Hc & IO).
  destruct (Fetch16 (At code pc) 0) as [d|] eqn:Hd; [|by unfold Opcode in Hc; rewrite Hd in Hc].
  eapply triple_bind with (Q := ends).
  { intros s [[] ? ? ?] _. by repeat split. }
  intros ?. eapply triple_bind; [by apply triple_lift_ok|intros ?]. apply triple_pure. intros ->.
  eapply triple_bind; [apply triple_lift_ok|intros ?].
  { unfold Opcode in Hc. rewrite Hd in Hc. exact Hc. }
  apply triple_pure. intros ->. apply triple_forget. by eapply execute_ok.
Qed.

(** ** Successors

    What the data-flow pass adds for the instructions it reaches: control does not
    fall into a payload, nor off the end of the code. *)
Record flow_checked (pc : Z) : Prop := {
  flow_no_payload w : Fetch16 (At code pc) 0 = Ok w ->
    w <> kPackedSwitchSignature /\ w <> kSparseSwitchSignature /\ w <> kArrayDataSignature;
  flow_no_end c : Opcode (At code pc) = Ok c -> continues c ->
    pc + format_size (FormatOf c) < zlength code;
}.

Lemma size_of_instruction pc c :
  flow_checked pc -> Opcode (At code pc) = Ok c ->
  SizeInCodeUnits (At code pc) = Ok (format_size (FormatOf c)).
Proof.
  intros [Hp _] Hc. unfold SizeInCodeUnits. rewrite Hc. cbn -[format_size].
  rewrite size_of_format. case_decide as Hn.
  - subst c. cbn -[Fetch16]. unfold SizeInCodeUnitsComplexOpcode. 
    apply Opcode_ok in Hc as (w & Hw & Hc). rewrite Hw. cbn -[Fetch16].
    destruct (Hp w Hw) as (? & ? & ?). rewrite !(proj2 (Z.eqb_neq _ _)) by done.
    apply (f_equal code_index) in Hc. rewrite code_index_of_byte in Hc by (apply Z.mod_pos_bound; lia).
    by rewrite land_0xff, <- Hc.
  - destruct c; done.
Qed.

Lemma walk_deterministic fuel fuel' it r r' :
  CatchHandlerIterator.walk fuel it = Ok r -> CatchHandlerIterator.walk fuel' it = Ok r' -> r = r'.
Proof.
  revert fuel' it r r'. induction fuel as [|fuel IH]; intros fuel' it r r' H H'; [done|].
  destruct fuel' as [|fuel']; [done|]. cbn in *. destruct (CatchHandlerIterator.HasNext it);
    [|congruence].
  destruct (CatchHandlerIterator.Next it) as [it'|]; [|done]. cbn in *.
  destruct (CatchHandlerIterator.walk fuel it') as [p|] eqn:E; [|done].
  destruct (CatchHandlerIterator.walk fuel' it') as [p'|] eqn:E'; [|done].
  rewrite (IH _ _ _ _ E E') in H. congruence.
Qed.

Lemma branch_flagged pc c r :
  Opcode (At code pc) = Ok c -> GetBranchOffset ci pc = Ok (Some r) ->
  flagged c kVerifyBranchTarget.
Proof.
  unfold GetBranchOffset, Opcode, Opcode_data. intros Hc Hb. cbn -[Fetch16] in Hb.
  destruct (Fetch16 (At code pc) 0) as [w|]; [|done]. cbn in *. inv_res.
  destruct (Code_of_byte (Z.land w 255)); try done; reflexivity.
Qed.

(** An edge leads to an instruction. *)
Lemma successor_start pc pc' :
  instruction_start code pc -> flow_checked pc -> flows_to ci pc pc' -> instruction_start code pc'.
Proof.
  intros Hs Hf Hflow. pose proof (vm_static _ _ _ _ VM) as OK.
  destruct (so_instructions _ _ OK pc Hs) as (c & Hc & IO).
  destruct Hflow as [c' Hc' Hcont|off cond self Hb|c' off count k t Hc' Hsw Ho Hn Hk Ht
    |addr (it & fuel & es & final & Hit & Hw & Ha)].
  - pose proof (walks_bounds _ _ _ Hs). pose proof (flow_no_end _ Hf _ Hc' Hcont).
    eapply walks_snoc; [done|by apply size_of_instruction|].
    assert (0 < format_size (FormatOf c')) by (by destruct (FormatOf c')). lia.
  - destruct (ok_branch _ _ _ _ IO) as (off' & ? & ? & Hb' & Hst & _);
      [by eapply branch_flagged|]. rewrite Hb in Hb'. by injection Hb' as <- _ _.
  - assert (c' = c) as -> by congruence.
    destruct (ok_switch _ _ _ _ IO) as (off' & count' & SW); [by destruct Hsw as [->| ->]|].
    pose proof (sw_offset _ _ _ _ _ _ SW). assert (off' = off) as -> by congruence.
    pose proof (sw_count _ _ _ _ _ _ SW). assert (count' = count) as -> by congruence.
    destruct (sw_targets _ _ _ _ _ _ SW k Hk) as (t' & Ht' & Hst). congruence.
  - destruct (handlers_at_address env ci OK (vm_handlers _ _ _ _ VM) (vm_tries _ _ _ _ VM) pc)
      as (it' & es' & final' & Hit' & Hw' & Hes).
    assert (it' = it) as -> by congruence. pose proof (walk_deterministic _ _ _ _ _ Hw Hw').
    simplify_eq. apply list_elem_of_fmap in Ha as (e & -> & He).
    by eapply Forall_forall in Hes.
Qed.
End Running.
