(* ===== verification/InterpreterRun.v ===== *)
(** * Whole runs of the switch interpreter

    The loop of [ExecuteSwitchImpl] on a verified method: its steps compose, so a run
    of any length stays inside the method.  The sample at the end is a runtime that
    satisfies [RuntimeLaws] and a method that is verified and run. *)

From S2P Require Import Prelude Modifiers Leb128 DexOpcodes DexInstruction DexCode StaticVerifier StaticVerifierFacts StaticVerifierTheorems ShadowFrame Float Memory ClassHierarchy Heap Transactions InterpreterCommon InterpreterSwitch InterpreterLogic InterpreterSafety InterpreterSteps InterpreterTheorems.

Section Runs.
Context {R : Runtime} {L : RuntimeLaws R}.
Context (env : VerifierEnv) (ci : CodeItem) (method : Z) (am : ArtMethod).
Context (VM : verified_method env ci method am).
Local Abbreviation code := (insns_ ci).
Local Abbreviation ok := (st_ok ci method).

(** What a run may come to: a result in a frame that is still in order, the end of
    the fuel, or a fault of the types of objects. *)
Definition run_ok {A} (r : res (A * Interp)) : Prop :=
  match r with Ok (_, s) => ok s | Fault f => f = BadReference \/ f = OutOfFuel end.

Lemma loop_ok fuel pc s :
  (forall pc', rtc (flows_to ci) pc pc' -> flow_checked ci pc') ->
  instruction_start code pc -> ok s ->
  run_ok (loop false false ci (insns_address env) fuel (At code pc) s).
Proof.
  revert pc s. induction fuel as [|fuel IH]; intros pc s Hflow Hstart Hs; [by right|].
  cbn [loop]. unfold mbind, M_bind.
  pose proof (triple_step env ci method am VM pc Hstart s Hs I) as Hstep. unfold wp in Hstep.
  destruct (step _ _ _ _ _ s) as [[o s']|f]; [|by left]. destruct Hstep as [Hs' Hland].
  destruct o as [[code' pc']|]; [|done]. destruct Hland as [Hcode Hedge]. cbn in Hcode, Hedge.
  subst code'. apply IH; [|eapply successor_start; [exact VM|exact Hstart|by apply Hflow|done]|done].
  intros pc'' Hr. apply Hflow. by eapply rtc_l.
Qed.

(** What [ExecuteSwitchImpl] does before its loop. *)
Definition entry (enter : bool) : interp unit :=
  if enter then
    this ← GetThisObject_ins (ins_size_ ci);
    read GetMethod;;
    run (emit (MethodEnterEvent this 0));;
    modify (fun s => with_notified s true)
  else modify (fun s => with_notified s false).

Lemma ExecuteSwitchImpl_entry access transaction address fuel s :
  ExecuteSwitchImpl access transaction ci address fuel s =
  (entry ((GetDexPC (frame s) =? 0) && HasMethodEntryListeners);;
   loop access transaction ci address fuel (At code (GetDexPC (frame s)))) s.
Proof. reflexivity. Qed.

Lemma triple_entry (enter : bool) : triple ok any (entry enter) ends.
Proof.
  assert (forall P b, triple ok P (modify (fun s => with_notified s b)) ends) as Hn
    by (intros P b s [[] ? ? ?] _; by repeat split).
  destruct enter; [|apply Hn].
  eapply triple_bind; [by eapply triple_GetThisObject_ins|intros this].
  eapply triple_bind; [by eapply triple_GetMethod|intros m].
  eapply triple_bind; [apply triple_forget; by eapply triple_emit_here|intros ?; apply Hn].
Qed.

Lemma ExecuteSwitchImpl_ok fuel s :
  (forall pc, rtc (flows_to ci) (GetDexPC (frame s)) pc -> flow_checked ci pc) ->
  instruction_start code (GetDexPC (frame s)) -> ok s ->
  run_ok (ExecuteSwitchImpl false false ci (insns_address env) fuel s).
Proof.
  intros Hflow Hstart Hs. rewrite ExecuteSwitchImpl_entry.
  set (b := _ && _). pose proof (triple_entry b s Hs I) as He. unfold wp in He.
  unfold mbind, M_bind. destruct (entry b s) as [[u s']|f]; [|by left].
  destruct He as [Hs' _]. by apply loop_ok.
Qed.
End Runs.

(** ** A runtime and a method *)

Definition sample_fails {A} (a : A) : rt A := sample_throw ThrowInternalError;; mret a.

Definition sample_method : ArtMethod :=
  MkArtMethod kAccStatic [] [] (Some sample_item) false.

(** A runtime without fields and with one method, whose services fail with an
    exception, except for classes (named by their type indices), strings, monitors and
    calls. *)
Definition sample_runtime (am : ArtMethod) : Runtime := {|
  classes := sample_classes;
  fields := ∅;
  methods := {[ 7 := am ]};
  java_lang_Throwable := 1;
  IsStarted := true;
  HasMethodEntryListeners := true;
  HasMethodExitListeners := true;
  HasDexPcListeners := true;
  HasFieldReadListeners := false;
  HasFieldWriteListeners := false;
  HasExceptionCaughtListeners := false;
  ThrowNew := sample_throw;
  FindFieldFromCode _ _ _ _ _ := sample_fails 0;
  FindMethodFromCode _ _ _ _ _ := sample_fails 0;
  ResolveVerifyAndClinit _ _ _ _ := sample_fails 0;
  AllocObjectFromCode _ _ _ := sample_fails 0;
  AllocArrayFromCode _ _ _ _ := sample_fails 0;
  Array_Alloc _ _ _ := sample_fails 0;
  GetClassFromTypeIndex _ i := if bool_decide (is_Some (sample_classes !! i)) then mret i else sample_fails 0;
  GetReturnType _ := sample_fails 0;
  ArtField_GetType _ := sample_fails 0;
  FindInstanceFieldWithOffset _ _ := mret 0;
  ShouldHaveEmbeddedImtAndVTable _ := false;
  GetEmbeddedVTableEntry _ _ := sample_fails 0;
  String_IsInitialized := mret true;
  String_EnsureInitialized := mret true;
  GetDexCacheString _ _ := mret 5;
  ClassLinker_ResolveString _ _ := mret 5;
  Monitor_Enter _ := mret tt;
  Monitor_Exit _ := mret tt;
  CatchLocation _ := mret 0;
  EntryPointFromInterpreter _ _ r := mret r;
  UnstartedRuntimeInvoke _ _ r _ := mret r;
|}.

Lemma sample_laws am :
  (forall ci, method_code_item am = Some ci -> 0 <= ins_size_ ci <= registers_size_ ci) ->
  RuntimeLaws (sample_runtime am).
Proof.
  intros Ham.
  split; [| |try (intros; intros w Hc _; by repeat split)..].
  - exists 1, sample_rank. apply sample_classes_wf.
  - intros k m ci. cbn. rewrite lookup_singleton_Some. intros [<- <-]. apply Ham.
  - intros m i w Hc _. cbn. case_bool_decide as Hi; repeat split; try done.
    intros ->. by destruct Hi.
Qed.

Lemma sample_method_laws : RuntimeLaws (sample_runtime sample_method).
Proof. apply sample_laws. intros ci [= <-]. cbn. lia. Qed.

Definition sample_state : Interp :=
  MkInterp (MkShadowFrame 2 7 0 [0; 0; 0; 0]) 0 false (MkWorld ∅ 0 false [] None []).

Lemma sample_state_ok : st_ok sample_item 7 sample_state.
Proof.
  split; [|done..]. split; [done|done| |].
  - repeat constructor; unfold fitsU; lia.
  - intros i v r Hi. cbn in Hi. assert (i = 0 \/ i = 1) as [-> | ->] by lia;
      intros [= <-] [= <-]; auto.
Qed.

(** The instructions of the sample: walking over it, one by one. *)
Lemma walks_inv code pc idx n :
  walks_to code pc idx -> SizeInCodeUnits (At code pc) = Ok n ->
  idx = pc \/ walks_to code (pc + n) idx.
Proof.
  destruct 1 as [|pc m idx ? Hm ?]; intros Hn; [by left|]. assert (m = n) by congruence. subst. auto.
Qed.

Lemma walks_from code pc idx : walks_to code pc idx -> 0 <= pc < zlength code.
Proof. by destruct 1. Qed.

Ltac walk_on H :=
  let Hn := fresh in
  eapply walks_inv in H as [->|Hn]; [set_solver| |vm_compute; reflexivity]; cbn in Hn;
  first [walk_on Hn | apply walks_from in Hn; cbn in Hn; lia].

Lemma sample_starts pc : instruction_start (insns_ sample_item) pc -> pc ∈ [0; 1; 4; 6; 7; 8].
Proof. intros H. unfold instruction_start in H. walk_on H. Qed.

Lemma sample_statically_ok : statically_ok (sample_env sample_item) sample_item.
Proof.
  eapply (Verify_statically_ok (sample_env sample_item) sample_item sample_wf
    (mret true) (mret true) initial_verifier); [reflexivity|vm_compute; reflexivity].
Qed.

Ltac sample_pcs H :=
  repeat (apply elem_of_cons in H as [->|H]); [..|by apply not_elem_of_nil in H].

Lemma sample_verified :
  @verified_method (sample_runtime sample_method) (sample_env sample_item) sample_item 7 sample_method.
Proof.
  split; try done.
  - apply sample_wf.
  - apply sample_statically_ok.
  - intros k t Hk Ht. cbn in Hk. assert (k = 0) as -> by lia. injection Ht as <-.
    split; [done|]. eexists. split; [reflexivity|].
    exists 1, [1; 0; 6], [0; 6]. split_and!; [reflexivity|reflexivity|constructor].
  - intros pc c off count Hpc Hc [Ho _ _ _ Hn _ _ _]. apply sample_starts in Hpc.
    sample_pcs Hpc; vm_compute in Ho; simplify_eq; vm_compute in Hn; by simplify_eq.
  - intros pc off Hpc Hc. apply sample_starts in Hpc. sample_pcs Hpc; by vm_compute in Hc.
Qed.

(** The edges of the sample: its four reachable instructions. *)
Lemma sample_edges pc pc' :
  pc ∈ [0; 1; 4; 6] -> flows_to sample_item pc pc' -> pc' ∈ [0; 1; 4; 6].
Proof.
  intros Hpc Hflow.
  destruct Hflow as [c Hc Hcont|off cond self Hb|c off count k t Hc Hsw Ho Hn Hk Ht
    |addr (it & fuel & es & final & Hit & Hw & Ha)].
  - sample_pcs Hpc; vm_compute in Hc; injection Hc as <-; first [by vm_compute in Hcont|set_solver].
  - sample_pcs Hpc; vm_compute in Hb; simplify_eq; set_solver.
  - sample_pcs Hpc; vm_compute in Hc; injection Hc as <-; try (by destruct Hsw).
    vm_compute in Ho; injection Ho as <-. vm_compute in Hn; injection Hn as <-.
    assert (k = 0) as -> by lia. vm_compute in Ht. injection Ht as <-. set_solver.
  - sample_pcs Hpc; vm_compute in Hit; injection Hit as <-;
      (eapply (walk_deterministic _ 5) in Hw; [|vm_compute; reflexivity]);
      simplify_eq; set_solver.
Qed.

Lemma sample_flow pc : rtc (flows_to sample_item) 0 pc -> flow_checked sample_item pc.
Proof.
  intros Hr. assert (pc ∈ [0; 1; 4; 6]) as Hpc.
  { assert (forall l x y, rtc (flows_to sample_item) x y ->
      (forall a b, a ∈ l -> flows_to sample_item a b -> b ∈ l) -> x ∈ l -> y ∈ (l : list Z)) as Hl.
    { intros l x y. induction 1; eauto. }
    eapply Hl; [exact Hr|exact sample_edges|set_solver]. }
  split.
  - intros w Hw. sample_pcs Hpc; vm_compute in Hw; by injection Hw as <-.
  - intros c Hc Hcont. sample_pcs Hpc; vm_compute in Hc; injection Hc as <-;
      first [by vm_compute in Hcont | done].
Qed.

(** ** Theorems *)




