(* ===== verification/InterpreterArithmetic.v ===== *)
(** * The arithmetic instructions against Java's arithmetic

    [Java.binary] is the arithmetic of the Java language: two's complement on 32 and
    64 bits, division that truncates and throws for zero, shifts by the low five or
    six bits of the distance.  [arithmetic_instruction] names the operator, the width
    and the operands of each integer instruction, and [java_step] executes it.  The
    interpreter's cases (modular arithmetic on unsigned types, special cases for the
    smallest integer, masked shifts of unsigned values, literals of 8 and 16 bits) are
    shown to do the same. *)

From S2P Require Import Prelude Modifiers Leb128 DexOpcodes DexInstruction DexCode StaticVerifier StaticVerifierFacts StaticVerifierTheorems ShadowFrame Float Memory ClassHierarchy Heap Transactions InterpreterCommon InterpreterSwitch InterpreterLogic InterpreterSafety InterpreterSteps InterpreterTheorems InterpreterRun.

(** ** Java's operators *)

Module Java.
Inductive operator : Type :=
  | Add | Sub | Rsub | Mul | Div | Rem | And | Or | Xor | Shl | Shr | Ushr.

(** On [n]-bit operands; [None] is an [ArithmeticException]. *)
Definition binary (n : Z) (op : operator) (x y : Z) : option Z :=
  match op with
  | Add => Some (wrapS n (x + y))
  | Sub => Some (wrapS n (x - y))
  | Rsub => Some (wrapS n (y - x))
  | Mul => Some (wrapS n (x * y))
  | Div => if y =? 0 then None else Some (wrapS n (x ÷ y))
  | Rem => if y =? 0 then None else Some (x - (x ÷ y) * y)
  | And => Some (Z.land x y)
  | Or => Some (Z.lor x y)
  | Xor => Some (Z.lxor x y)
  | Shl => Some (wrapS n (x * 2 ^ (y mod n)))
  | Shr => Some (x / 2 ^ (y mod n))
  | Ushr => Some (wrapS n ((x mod 2 ^ n) / 2 ^ (y mod n)))
  end.

Definition shift (op : operator) : bool :=
  match op with Shl | Shr | Ushr => true | _ => false end.
End Java.

(** ** The instructions *)

(** Where the operands are: [vA = vB op vC], [vA = vA op vB], [vA = vB op literal]. *)
Inductive operand_form : Type := ThreeRegisters | TwoRegisters | Literal.

Definition arithmetic_instruction (c : Code) : option (Z * Java.operator * operand_form) :=
  match c with
  | ADD_INT => Some (32, Java.Add, ThreeRegisters) | SUB_INT => Some (32, Java.Sub, ThreeRegisters)
  | MUL_INT => Some (32, Java.Mul, ThreeRegisters) | DIV_INT => Some (32, Java.Div, ThreeRegisters)
  | REM_INT => Some (32, Java.Rem, ThreeRegisters) | AND_INT => Some (32, Java.And, ThreeRegisters)
  | OR_INT => Some (32, Java.Or, ThreeRegisters) | XOR_INT => Some (32, Java.Xor, ThreeRegisters)
  | SHL_INT => Some (32, Java.Shl, ThreeRegisters) | SHR_INT => Some (32, Java.Shr, ThreeRegisters)
  | USHR_INT => Some (32, Java.Ushr, ThreeRegisters)
  | ADD_LONG => Some (64, Java.Add, ThreeRegisters) | SUB_LONG => Some (64, Java.Sub, ThreeRegisters)
  | MUL_LONG => Some (64, Java.Mul, ThreeRegisters) | DIV_LONG => Some (64, Java.Div, ThreeRegisters)
  | REM_LONG => Some (64, Java.Rem, ThreeRegisters) | AND_LONG => Some (64, Java.And, ThreeRegisters)
  | OR_LONG => Some (64, Java.Or, ThreeRegisters) | XOR_LONG => Some (64, Java.Xor, ThreeRegisters)
  | SHL_LONG => Some (64, Java.Shl, ThreeRegisters) | SHR_LONG => Some (64, Java.Shr, ThreeRegisters)
  | USHR_LONG => Some (64, Java.Ushr, ThreeRegisters)
  | ADD_INT_2ADDR => Some (32, Java.Add, TwoRegisters) | SUB_INT_2ADDR => Some (32, Java.Sub, TwoRegisters)
  | MUL_INT_2ADDR => Some (32, Java.Mul, TwoRegisters) | DIV_INT_2ADDR => Some (32, Java.Div, TwoRegisters)
  | REM_INT_2ADDR => Some (32, Java.Rem, TwoRegisters) | AND_INT_2ADDR => Some (32, Java.And, TwoRegisters)
  | OR_INT_2ADDR => Some (32, Java.Or, TwoRegisters) | XOR_INT_2ADDR => Some (32, Java.Xor, TwoRegisters)
  | SHL_INT_2ADDR => Some (32, Java.Shl, TwoRegisters) | SHR_INT_2ADDR => Some (32, Java.Shr, TwoRegisters)
  | USHR_INT_2ADDR => Some (32, Java.Ushr, TwoRegisters)
  | ADD_LONG_2ADDR => Some (64, Java.Add, TwoRegisters) | SUB_LONG_2ADDR => Some (64, Java.Sub, TwoRegisters)
  | MUL_LONG_2ADDR => Some (64, Java.Mul, TwoRegisters) | DIV_LONG_2ADDR => Some (64, Java.Div, TwoRegisters)
  | REM_LONG_2ADDR => Some (64, Java.Rem, TwoRegisters) | AND_LONG_2ADDR => Some (64, Java.And, TwoRegisters)
  | OR_LONG_2ADDR => Some (64, Java.Or, TwoRegisters) | XOR_LONG_2ADDR => Some (64, Java.Xor, TwoRegisters)
  | SHL_LONG_2ADDR => Some (64, Java.Shl, TwoRegisters) | SHR_LONG_2ADDR => Some (64, Java.Shr, TwoRegisters)
  | USHR_LONG_2ADDR => Some (64, Java.Ushr, TwoRegisters)
  | ADD_INT_LIT16 | ADD_INT_LIT8 => Some (32, Java.Add, Literal)
  | RSUB_INT | RSUB_INT_LIT8 => Some (32, Java.Rsub, Literal)
  | MUL_INT_LIT16 | MUL_INT_LIT8 => Some (32, Java.Mul, Literal)
  | DIV_INT_LIT16 | DIV_INT_LIT8 => Some (32, Java.Div, Literal)
  | REM_INT_LIT16 | REM_INT_LIT8 => Some (32, Java.Rem, Literal)
  | AND_INT_LIT16 | AND_INT_LIT8 => Some (32, Java.And, Literal)
  | OR_INT_LIT16 | OR_INT_LIT8 => Some (32, Java.Or, Literal)
  | XOR_INT_LIT16 | XOR_INT_LIT8 => Some (32, Java.Xor, Literal)
  | SHL_INT_LIT8 => Some (32, Java.Shl, Literal) | SHR_INT_LIT8 => Some (32, Java.Shr, Literal)
  | USHR_INT_LIT8 => Some (32, Java.Ushr, Literal)
  | _ => None
  end.

Definition get_bits {R : Runtime} (n : Z) : Z -> interp Z := if n =? 64 then vreg_long else vreg.
Definition set_bits {R : Runtime} (n : Z) : Z -> Z -> interp unit :=
  if n =? 64 then set_vreg_long else set_vreg.

(** The instruction as Java has it: the shift distance of a [long] is an [int]. *)
Definition java_step {R : Runtime} (ci : CodeItem) (inst : Instruction) (n : Z)
    (op : Java.operator) (form : operand_form) : interp outcome :=
  PREAMBLE ci inst;;
  a ← lift (VRegA inst);
  b ← lift (VRegB inst);
  let distance := if Java.shift op then vreg else get_bits n in
  x ← get_bits n (match form with TwoRegisters => a | _ => b end);
  y ← match form with
      | ThreeRegisters => c ← lift (VRegC inst); distance c
      | TwoRegisters => distance b
      | Literal => lift (VRegC inst)
      end;
  match Java.binary n op x y with
  | Some v =>
      set_bits n a v;;
      match form with TwoRegisters => next_1xx inst | _ => next_2xx inst end
  | None => run (ThrowNew ThrowArithmeticExceptionDivideByZero);; HANDLE_PENDING_EXCEPTION inst
  end.

(** ** Operators *)

(** [f] computes [op] up to the bits that are stored. *)
Definition computes (n : Z) (op : Java.operator) (f : Z -> Z -> Z) : Prop :=
  forall x y, fitsS n x -> exists v, Java.binary n op x y = Some v /\ wrapU n v = wrapU n (f x y).

Lemma SafeMath_wrapU f n t1 t2 x y :
  (forall a b, wrapU n (f (wrapU n a) (wrapU n b)) = wrapU n (f a b)) ->
  width (select_bigger t1 t2) = n -> 0 < n -> wrapU n (SafeMath f t1 t2 x y) = wrapU n (f x y).
Proof.
  intros Hf <- Hn. unfold SafeMath. rewrite !wrapU_wrapS by lia.
  rewrite (wrapU_id _ (wrapU _ _)) by (apply wrapU_fits; lia). apply Hf.
Qed.

Lemma wrapU_add n a b : wrapU n (wrapU n a + wrapU n b) = wrapU n (a + b).
Proof. unfold wrapU. by rewrite <- Zplus_mod. Qed.
Lemma wrapU_sub n a b : wrapU n (wrapU n a - wrapU n b) = wrapU n (a - b).
Proof. unfold wrapU. by rewrite <- Zminus_mod. Qed.
Lemma wrapU_mul n a b : wrapU n (wrapU n a * wrapU n b) = wrapU n (a * b).
Proof. unfold wrapU. by rewrite <- Zmult_mod. Qed.

Section Operators.
Context (n : Z) (Hn : n = 32 \/ n = 64).

Lemma computes_add t1 t2 : width (select_bigger t1 t2) = n -> computes n Java.Add (SafeAdd t1 t2).
Proof.
  intros Hw x y _. eexists. split; [done|]. rewrite wrapU_wrapS by lia. symmetry.
  apply SafeMath_wrapU; [apply wrapU_add|done|lia].
Qed.
Lemma computes_sub t1 t2 : width (select_bigger t1 t2) = n -> computes n Java.Sub (SafeSub t1 t2).
Proof.
  intros Hw x y _. eexists. split; [done|]. rewrite wrapU_wrapS by lia. symmetry.
  apply SafeMath_wrapU; [apply wrapU_sub|done|lia].
Qed.
Lemma computes_rsub t1 t2 :
  width (select_bigger t1 t2) = n -> computes n Java.Rsub (fun x c => SafeSub t1 t2 c x).
Proof.
  intros Hw x y _. eexists. split; [done|]. rewrite wrapU_wrapS by lia. symmetry.
  apply (SafeMath_wrapU Z.sub); [apply wrapU_sub|done|lia].
Qed.
Lemma computes_mul t1 t2 : width (select_bigger t1 t2) = n -> computes n Java.Mul (SafeMul t1 t2).
Proof.
  intros Hw x y _. eexists. split; [done|]. rewrite wrapU_wrapS by lia. symmetry.
  apply SafeMath_wrapU; [apply wrapU_mul|done|lia].
Qed.
Lemma computes_and : computes n Java.And Z.land.
Proof. intros x y _. by eexists. Qed.
Lemma computes_or : computes n Java.Or Z.lor.
Proof. intros x y _. by eexists. Qed.
Lemma computes_xor : computes n Java.Xor Z.lxor.
Proof. intros x y _. by eexists. Qed.

(** The mask keeps the distance modulo the width. *)
Lemma mask_distance y : Z.land y (n - 1) = y mod n.
Proof. destruct Hn as [-> | ->]; [apply land_0x1f|apply land_0x3f]. Qed.
Lemma distance_range y : 0 <= y mod n < n.
Proof. apply Z.mod_pos_bound. lia. Qed.

Lemma computes_shl : computes n Java.Shl (fun x y => Z.shiftl x (Z.land y (n - 1))).
Proof.
  intros x y _. pose proof (distance_range y). eexists. split; [done|].
  by rewrite mask_distance, shiftl_mul, wrapU_wrapS by lia.
Qed.
Lemma computes_shr : computes n Java.Shr (fun x y => Z.shiftr x (Z.land y (n - 1))).
Proof.
  intros x y _. pose proof (distance_range y). eexists. split; [done|].
  by rewrite mask_distance, shiftr_div by lia.
Qed.
Lemma computes_ushr : computes n Java.Ushr (fun x y => Z.shiftr (wrapU n x) (Z.land y (n - 1))).
Proof.
  intros x y _. pose proof (distance_range y). eexists. split; [done|].
  by rewrite mask_distance, shiftr_div, wrapU_wrapS by lia.
Qed.

End Operators.

(** ** Registers *)

Lemma high_word v w : wrapU 64 v = wrapU 64 w -> uint32 (Z.shiftr v 32) = uint32 (Z.shiftr w 32).
Proof.
  unfold uint32, wrapU. rewrite !shiftr_div by lia. intros H.
  assert (forall x, (x / 2 ^ 32) mod 2 ^ 32 = (x mod 2 ^ 64) / 2 ^ 32) as Hx
    by (intros x; Z.div_mod_to_equations; lia).
  by rewrite !Hx, H.
Qed.
Lemma low_word v w : wrapU 64 v = wrapU 64 w -> uint32 v = uint32 w.
Proof. unfold uint32, wrapU. intros H. Z.div_mod_to_equations. lia. Qed.

(** Only the stored bits of a result matter. *)
Lemma set_bits_congr {R : Runtime} n a v w s :
  n = 32 \/ n = 64 -> wrapU n v = wrapU n w -> set_bits n a v s = set_bits n a w s.
Proof.
  intros [-> | ->] H; unfold set_bits; cbn [Z.eqb Pos.eqb].
  - unfold set_vreg, update, SetVReg, uint32. by rewrite H.
  - unfold set_vreg_long, update, SetVRegLong. by rewrite (high_word _ _ H), (low_word _ _ H).
Qed.

(** Running the instructions of a sequence one by one. *)
Ltac run_steps :=
  repeat first
    [ rewrite M_bind_Ok | rewrite M_bind_assoc
    | match goal with E : ?m ?s = Ok (_, ?s) |- context [(?m ≫= _) ?s] =>
        rewrite (M_bind_step _ _ _ _ _ E) end ].

Section Instructions.
Context {R : Runtime} {L : RuntimeLaws R}.
Context (env : VerifierEnv) (ci : CodeItem) (method : Z) (am : ArtMethod).
Context (VM : verified_method env ci method am).
Local Abbreviation ok := (st_ok ci method).
Context (pc : Z) (c : Code) (d : Z).
Local Abbreviation inst := (At (insns_ ci) pc).
Context (Hstart : instruction_start (insns_ ci) pc) (IO : instruction_ok env ci pc c).
Context (Hd : Fetch16 inst 0 = Ok d).

Definition bits_ok (n r : Z) : Prop := if n =? 64 then pair_ok ci r else register_ok ci r.

Lemma get_bits_ok n r s :
  n = 32 \/ n = 64 -> bits_ok n r -> ok s ->
  exists v, get_bits n r s = Ok (v, s) /\ fitsS n v.
Proof.
  unfold bits_ok, get_bits, register_ok, pair_ok. intros [-> | ->] Hr [Hf Hs _ _]; cbn in Hr |- *.
  - destruct (GetVReg_ok _ Hf r) as (v & Hv & ?); [lia|]. exists v. split; [|done].
    unfold vreg, read, mbind, M_bind, gets, lift. by rewrite Hv.
  - destruct (GetVRegLong_ok _ Hf r) as (v & Hv & ?); [lia..|]. exists v. split; [|done].
    unfold vreg_long, read, mbind, M_bind, gets, lift. by rewrite Hv.
Qed.

Lemma PREAMBLE_keeps s u s' :
  no_return c -> ok s -> PREAMBLE ci inst s = Ok (u, s') ->
  ok s' /\ exception (world s') = exception (world s).
Proof.
  intros NR Hs H. split.
  - pose proof (triple_PREAMBLE _ _ _ _ VM _ _ IO any NR s Hs I) as Hw. unfold wp in Hw.
    rewrite H in Hw. apply Hw.
  - clear -H. unfold PREAMBLE, dex_pc_moved, GetThisObject_ins, vreg_reference, read, method_at in H.
    unfold CHECK, run, emit in H. repeat (inv_M; try case_match; simplify_eq); try done.
Qed.

(** Two instructions that do the same behind the preamble. *)
Lemma after_PREAMBLE {A} (k k' : interp A) s :
  no_return c -> ok s ->
  (forall s', ok s' -> exception (world s') = exception (world s) -> k s' = k' s') ->
  (PREAMBLE ci inst;; k) s = (PREAMBLE ci inst;; k') s.
Proof.
  intros NR Hs Hk. unfold mbind, M_bind.
  destruct (PREAMBLE ci inst s) as [[u s']|f] eqn:E; [|done].
  destruct (PREAMBLE_keeps _ _ _ NR Hs E). auto.
Qed.

(** An operand register, read through either accessor. *)
Lemma operand_register acc generic lo hi n :
  view acc generic lo hi -> operand_ok generic (bits_ok n) ->
  exists r, acc = Ok r /\ generic = Ok r /\ bits_ok n r.
Proof. intros (v & -> & -> & _) (r & [= <-] & ?). eauto. Qed.

(** The steps of the proofs below: the registers and literals of the instruction, the
    preamble, and the values of the registers. *)
Ltac register V H r :=
  let E := fresh "E" in let G := fresh "G" in let K := fresh "K" in
  match goal with HF : FormatOf c = _ |- _ =>
    destruct (operand_register _ _ _ _ _ (V _ _ _ (ok_fits _ _ _ _ IO) HF Hd) H)
      as (r & E & G & K) end.
Ltac literal V y :=
  let E := fresh "E" in let G := fresh "G" in
  match goal with HF : FormatOf c = _ |- _ =>
    destruct (V _ _ _ (ok_fits _ _ _ _ IO) HF Hd) as (y & E & G & _) end.
Ltac enter s' :=
  apply after_PREAMBLE; [assumption..|]; intros s' ? ?;
  repeat match goal with E : ?acc = Ok _ |- context [?acc] => rewrite E end.
Ltac value n r x :=
  let E := fresh "E" in
  match goal with Hs : ok ?s' |- context [?k ?s' = _] =>
    destruct (get_bits_ok n r s') as (x & E & ?); [lia|assumption..|] end.
Ltac compute_operands :=
  try match goal with Hop : Java.shift _ = false |- _ => rewrite Hop end; cbv zeta;
  change (get_bits 32) with vreg in *; change (get_bits 64) with vreg_long in *; run_steps.

Section Shapes.
Context (n : Z) (op : Java.operator) (f : Z -> Z -> Z).
Context (Hn : n = 32 \/ n = 64) (Hf : computes n op f) (NR : no_return c).
Local Abbreviation m := (if Java.shift op then 32 else n).
Local Abbreviation distance := (if Java.shift op then vreg else get_bits n).

Lemma distance_ok r s : bits_ok m r -> ok s -> exists v, distance r s = Ok (v, s).
Proof.
  intros Hr Hs. destruct (Java.shift op).
  - destruct (get_bits_ok 32 r s) as (v & ? & _); eauto.
  - destruct (get_bits_ok n r s) as (v & ? & _); eauto.
Qed.

Ltac shift_distance r y :=
  let E := fresh "E" in
  match goal with Hs : ok ?s' |- context [?k ?s' = _] =>
    destruct (distance_ok r s') as (y & E); [assumption..|] end.

(** Storing what [f] computes is storing the result. *)
Lemma stores x y a (next : interp outcome) s :
  fitsS n x ->
  (set_bits n a (f x y);; next) s =
  match Java.binary n op x y with
  | Some v => set_bits n a v;; next
  | None => run (ThrowNew ThrowArithmeticExceptionDivideByZero);; HANDLE_PENDING_EXCEPTION inst
  end s.
Proof.
  intros Hx. destruct (Hf x y Hx) as (v & -> & Hv). unfold mbind, M_bind.
  by rewrite (set_bits_congr n a v (f x y) s Hn Hv).
Qed.

Lemma binary_23x_java s :
  FormatOf c = k23x -> operand_ok (VRegA inst) (bits_ok n) -> operand_ok (VRegB inst) (bits_ok n) ->
  operand_ok (VRegC inst) (bits_ok m) -> ok s ->
  binary_23x ci inst d (get_bits n) distance (set_bits n) f s =
  java_step ci inst n op ThreeRegisters s.
Proof.
  intros HF HA HB HC Hs.
  register VRegA_23x_view HA a. register VRegB_23x_view HB b. register VRegC_23x_view HC e.
  enter s'. value n b x. shift_distance e y.
  compute_operands. by apply stores.
Qed.

Lemma binary_12x_java s :
  FormatOf c = k12x -> operand_ok (VRegA inst) (bits_ok n) -> operand_ok (VRegB inst) (bits_ok m) ->
  ok s ->
  binary_12x ci inst d (get_bits n) distance (set_bits n) f s =
  java_step ci inst n op TwoRegisters s.
Proof.
  intros HF HA HB Hs.
  register VRegA_12x_view HA a. register VRegB_12x_view HB b.
  enter s'. value n a x. shift_distance b y.
  compute_operands. by apply stores.
Qed.
End Shapes.

(** *** Literals *)

Section Literals.
Context (op : Java.operator) (f : Z -> Z -> Z) (Hf : computes 32 op f) (NR : no_return c).

Lemma binary_lit16_java s :
  FormatOf c = k22s -> operand_ok (VRegA inst) (bits_ok 32) -> operand_ok (VRegB inst) (bits_ok 32) ->
  ok s -> binary_lit16 ci inst d f s = java_step ci inst 32 op Literal s.
Proof.
  intros HF HA HB Hs.
  register VRegA_22s_view HA a. register VRegB_22s_view HB b.
  literal VRegC_22s_view y.
  enter s'. value 32 b x.
  compute_operands. eapply (stores 32 op f); auto.
Qed.

Lemma binary_lit8_java s :
  FormatOf c = k22b -> operand_ok (VRegA inst) (bits_ok 32) -> operand_ok (VRegB inst) (bits_ok 32) ->
  ok s -> binary_lit8 ci inst d f s = java_step ci inst 32 op Literal s.
Proof.
  intros HF HA HB Hs.
  register VRegA_22b_view HA a. register VRegB_22b_view HB b.
  literal VRegC_22b_view y.
  enter s'. value 32 b x.
  compute_operands. eapply (stores 32 op f); auto.
Qed.
End Literals.

(** *** Division *)

(** What follows the operands, by the flag the division returns. *)
Definition divides (n : Z) (op : Java.operator) (divide : Z -> Z -> Z -> interp bool) : Prop :=
  forall a x y (next : interp outcome) s, ok s ->
    (success ← divide a x y; POSSIBLY_HANDLE_PENDING_EXCEPTION inst (negb success) next) s =
    match Java.binary n op x y with
    | Some v => set_bits n a v;; next
    | None => run (ThrowNew ThrowArithmeticExceptionDivideByZero);; HANDLE_PENDING_EXCEPTION inst
    end s.
(** The same for the [long] forms, which look for a pending exception. *)
Definition divides_long (n : Z) (op : Java.operator) (divide : Z -> Z -> Z -> interp bool) : Prop :=
  forall a x y (next : interp outcome) s, ok s -> exception (world s) = 0 ->
    (divide a x y;; p ← pending; POSSIBLY_HANDLE_PENDING_EXCEPTION inst p next) s =
    match Java.binary n op x y with
    | Some v => set_bits n a v;; next
    | None => run (ThrowNew ThrowArithmeticExceptionDivideByZero);; HANDLE_PENDING_EXCEPTION inst
    end s.

Lemma set_bits_world n a v s u s' : set_bits n a v s = Ok (u, s') -> world s' = world s.
Proof.
  unfold set_bits. destruct (n =? 64); unfold set_vreg_long, set_vreg, update; intros; by inv_M.
Qed.

Lemma bind_ext {A B} (m : interp A) (k k' : A -> interp B) s :
  (forall a s', m s = Ok (a, s') -> k a s' = k' a s') -> (m ≫= k) s = (m ≫= k') s.
Proof. intros H. unfold mbind, M_bind. destruct (m s) as [[a s']|]; auto. Qed.

Lemma store_divides n a v w (next : interp outcome) s :
  n = 32 \/ n = 64 -> wrapU n v = wrapU n w ->
  (success ← (set_bits n a v;; mret true);
   POSSIBLY_HANDLE_PENDING_EXCEPTION inst (negb success) next) s = (set_bits n a w;; next) s.
Proof.
  intros Hn Hv. rewrite M_bind_assoc. unfold mbind, M_bind. by rewrite (set_bits_congr n a v w s Hn Hv).
Qed.

Lemma store_divides_long n a v w (next : interp outcome) s :
  n = 32 \/ n = 64 -> wrapU n v = wrapU n w -> exception (world s) = 0 ->
  ((set_bits n a v;; mret true);; p ← pending; POSSIBLY_HANDLE_PENDING_EXCEPTION inst p next) s =
  (set_bits n a w;; next) s.
Proof.
  intros Hn Hv He. rewrite M_bind_assoc. unfold mbind, M_bind.
  rewrite (set_bits_congr n a v w s Hn Hv).
  destruct (set_bits n a w s) as [[u s']|] eqn:E; [|done]. apply set_bits_world in E. cbn.
  unfold pending, run, IsExceptionPending, gets. rewrite E, He. cbn. rewrite <- E. by destruct s'.
Qed.

Lemma throw_divides_long (next : interp outcome) s :
  ok s ->
  ((run (ThrowNew ThrowArithmeticExceptionDivideByZero);; mret false);; p ← pending;
   POSSIBLY_HANDLE_PENDING_EXCEPTION inst p next) s =
  (run (ThrowNew ThrowArithmeticExceptionDivideByZero);; HANDLE_PENDING_EXCEPTION inst) s.
Proof.
  intros Hs. rewrite M_bind_assoc. apply bind_ext. intros u s' E. rewrite M_bind_ret.
  pose proof (law_ThrowNew ThrowArithmeticExceptionDivideByZero (world s) (st_calm _ _ _ Hs) I) as Hw.
  unfold wp in Hw. unfold run in E. destruct (ThrowNew _ (world s)) as [[u' w]|]; [|done].
  injection E as <- <-. destruct Hw as [_ Hw]. unfold excepting in Hw.
  unfold mbind, M_bind, pending, run, IsExceptionPending, gets. cbn.
  by rewrite (proj2 (Z.eqb_neq _ _) Hw).
Qed.

Lemma quotient_stored n x y : 0 < n -> wrapU n (x ÷ y) = wrapU n (wrapS n (x ÷ y)).
Proof. intros Hn. by rewrite wrapU_wrapS. Qed.
Lemma remainder_stored n x y : wrapU n (Z.rem x y) = wrapU n (x - (x ÷ y) * y).
Proof. f_equal. pose proof (Z.quot_rem' x y). lia. Qed.

(** The four routines: a zero divisor throws, and the smallest integer over -1 is
    stored as the wrapped quotient. *)
Ltac divides_tac store throw :=
  intros; unfold DoIntDivide, DoIntRemainder, DoLongDivide, DoLongRemainder;
  cbn [Java.binary];
  let Hzero := fresh "Hzero" in let Hmin := fresh "Hmin" in
  match goal with |- context [?y =? 0] => destruct (y =? 0) eqn:Hzero end;
  [throw|];
  destruct (_ && _) eqn:Hmin;
  [ apply andb_true_iff in Hmin as [->%Z.eqb_eq ->%Z.eqb_eq]; store; vm_compute; reflexivity
  | first [ rewrite (cpp_div_ok 32 _ _ Hzero Hmin) | rewrite (cpp_rem_ok 32 _ _ Hzero Hmin)
          | rewrite (cpp_div_ok 64 _ _ Hzero Hmin) | rewrite (cpp_rem_ok 64 _ _ Hzero Hmin) ];
    store; first [apply quotient_stored; lia|apply remainder_stored] ].

Ltac store_32 := apply (store_divides 32); [by left|].
Ltac store_64 := apply (store_divides_long 64); [by right| |done].

Lemma divides_quotient : divides 32 Java.Div DoIntDivide.
Proof. unfold divides. divides_tac store_32 ltac:(by rewrite M_bind_assoc). Qed.
Lemma divides_remainder : divides 32 Java.Rem DoIntRemainder.
Proof. unfold divides. divides_tac store_32 ltac:(by rewrite M_bind_assoc). Qed.
Lemma divides_long_quotient : divides_long 64 Java.Div DoLongDivide.
Proof. unfold divides_long. divides_tac store_64 ltac:(by apply throw_divides_long). Qed.
Lemma divides_long_remainder : divides_long 64 Java.Rem DoLongRemainder.
Proof. unfold divides_long. divides_tac store_64 ltac:(by apply throw_divides_long). Qed.

Section Divisions.
Context (op : Java.operator) (divide : Z -> Z -> Z -> interp bool).
Context (Hop : Java.shift op = false) (NR : no_return c).

Lemma divide_23x_java s :
  FormatOf c = k23x -> divides 32 op divide -> operand_ok (VRegA inst) (bits_ok 32) ->
  operand_ok (VRegB inst) (bits_ok 32) -> operand_ok (VRegC inst) (bits_ok 32) -> ok s ->
  divide_23x ci inst d divide s = java_step ci inst 32 op ThreeRegisters s.
Proof.
  intros HF Hdiv HA HB HC Hs.
  register VRegA_23x_view HA a. register VRegB_23x_view HB b. register VRegC_23x_view HC e.
  enter s'. value 32 b x. value 32 e y.
  compute_operands. by apply Hdiv.
Qed.

Lemma divide_12x_java s :
  FormatOf c = k12x -> divides 32 op divide -> operand_ok (VRegA inst) (bits_ok 32) ->
  operand_ok (VRegB inst) (bits_ok 32) -> ok s ->
  divide_12x ci inst d divide s = java_step ci inst 32 op TwoRegisters s.
Proof.
  intros HF Hdiv HA HB Hs.
  register VRegA_12x_view HA a. register VRegB_12x_view HB b.
  enter s'. value 32 a x. value 32 b y.
  compute_operands. by apply Hdiv.
Qed.

Lemma divide_lit16_java s :
  FormatOf c = k22s -> divides 32 op divide -> operand_ok (VRegA inst) (bits_ok 32) ->
  operand_ok (VRegB inst) (bits_ok 32) -> ok s ->
  divide_lit16 ci inst d divide s = java_step ci inst 32 op Literal s.
Proof.
  intros HF Hdiv HA HB Hs.
  register VRegA_22s_view HA a. register VRegB_22s_view HB b.
  literal VRegC_22s_view y.
  enter s'. value 32 b x.
  compute_operands. by apply Hdiv.
Qed.

Lemma divide_lit8_java s :
  FormatOf c = k22b -> divides 32 op divide -> operand_ok (VRegA inst) (bits_ok 32) ->
  operand_ok (VRegB inst) (bits_ok 32) -> ok s ->
  divide_lit8 ci inst d divide s = java_step ci inst 32 op Literal s.
Proof.
  intros HF Hdiv HA HB Hs.
  register VRegA_22b_view HA a. register VRegB_22b_view HB b.
  literal VRegC_22b_view y.
  enter s'. value 32 b x.
  compute_operands. by apply Hdiv.
Qed.

Lemma divide_long_23x_java s :
  FormatOf c = k23x -> divides_long 64 op divide -> operand_ok (VRegA inst) (bits_ok 64) ->
  operand_ok (VRegB inst) (bits_ok 64) -> operand_ok (VRegC inst) (bits_ok 64) -> ok s ->
  exception (world s) = 0 ->
  divide_long_23x ci inst d divide s = java_step ci inst 64 op ThreeRegisters s.
Proof.
  intros HF Hdiv HA HB HC Hs He.
  register VRegA_23x_view HA a. register VRegB_23x_view HB b. register VRegC_23x_view HC e.
  enter s'. value 64 b x. value 64 e y.
  compute_operands. apply Hdiv; congruence || done.
Qed.

Lemma divide_long_12x_java s :
  FormatOf c = k12x -> divides_long 64 op divide -> operand_ok (VRegA inst) (bits_ok 64) ->
  operand_ok (VRegB inst) (bits_ok 64) -> ok s -> exception (world s) = 0 ->
  divide_long_12x ci inst d divide s = java_step ci inst 64 op TwoRegisters s.
Proof.
  intros HF Hdiv HA HB Hs He.
  register VRegA_12x_view HA a. register VRegB_12x_view HB b.
  enter s'. value 64 a x. value 64 b y.
  compute_operands. apply Hdiv; congruence || done.
Qed.
End Divisions.

End Instructions.

(** *** All instructions *)

Ltac operator :=
  lazymatch goal with
  | |- computes ?n Java.Add _ => apply (computes_add n); [lia|reflexivity]
  | |- computes ?n Java.Sub _ => apply (computes_sub n); [lia|reflexivity]
  | |- computes ?n Java.Rsub _ => apply (computes_rsub n); [lia|reflexivity]
  | |- computes ?n Java.Mul _ => apply (computes_mul n); [lia|reflexivity]
  | |- computes ?n Java.And _ => apply (computes_and n)
  | |- computes ?n Java.Or _ => apply (computes_or n)
  | |- computes ?n Java.Xor _ => apply (computes_xor n)
  | |- computes ?n Java.Shl _ => apply (computes_shl n); lia
  | |- computes ?n Java.Shr _ => apply (computes_shr n); lia
  | |- computes ?n Java.Ushr _ => apply (computes_ushr n); lia
  end.

Ltac java_side :=
  lazymatch goal with
  | |- computes _ _ _ => operator
  | |- divides _ _ _ _ _ _ => first [eapply divides_quotient | eapply divides_remainder]
  | |- divides_long _ _ _ _ _ _ => first [eapply divides_long_quotient | eapply divides_long_remainder]
  | |- operand_ok _ _ => unfold bits_ok; cbn; match goal with IO : instruction_ok _ _ _ _ |- _ => flag IO end
  | |- _ \/ _ => lia
  | |- _ => first [eassumption | reflexivity]
  end.

Ltac java_shape :=
  lazymatch goal with
  | |- binary_23x _ _ _ _ _ _ _ _ = java_step _ _ ?w ?o _ _ => eapply binary_23x_java with (n := w) (op := o)
  | |- binary_12x _ _ _ _ _ _ _ _ = java_step _ _ ?w ?o _ _ => eapply binary_12x_java with (n := w) (op := o)
  | |- binary_lit16 _ _ _ _ _ = java_step _ _ _ ?o _ _ => eapply binary_lit16_java with (op := o)
  | |- binary_lit8 _ _ _ _ _ = java_step _ _ _ ?o _ _ => eapply binary_lit8_java with (op := o)
  | |- divide_23x _ _ _ _ _ = java_step _ _ _ ?o _ _ => eapply divide_23x_java with (op := o)
  | |- divide_12x _ _ _ _ _ = java_step _ _ _ ?o _ _ => eapply divide_12x_java with (op := o)
  | |- divide_lit16 _ _ _ _ _ = java_step _ _ _ ?o _ _ => eapply divide_lit16_java with (op := o)
  | |- divide_lit8 _ _ _ _ _ = java_step _ _ _ ?o _ _ => eapply divide_lit8_java with (op := o)
  | |- divide_long_23x _ _ _ _ _ = java_step _ _ _ ?o _ _ => eapply divide_long_23x_java with (op := o)
  | |- divide_long_12x _ _ _ _ _ = java_step _ _ _ ?o _ _ => eapply divide_long_12x_java with (op := o)
  end.

Lemma execute_java {R : Runtime} {L : RuntimeLaws R} env ci method am pc c d n op form address s :
  verified_method env ci method am -> instruction_ok env ci pc c ->
  Fetch16 (At (insns_ ci) pc) 0 = Ok d ->
  arithmetic_instruction c = Some (n, op, form) -> st_ok ci method s -> exception (world s) = 0 ->
  execute false false ci address (At (insns_ ci) pc) d c s = java_step ci (At (insns_ ci) pc) n op form s.
Proof.
  intros VM IO Hd Ha Hs He. destruct c; try discriminate Ha;
    injection Ha as <- <- <-; unfold execute;
    cbv beta iota delta [first_case execute_moves execute_returns execute_constants execute_objects
      execute_gotos execute_compares execute_ifs execute_agets execute_aputs execute_gets
      execute_puts execute_invokes execute_unary execute_int execute_long execute_float
      execute_int_2addr execute_long_2addr execute_float_2addr execute_lit16 execute_lit8];
    java_shape; java_side.
Qed.

(** A step is the case of its opcode, in a frame that knows its position. *)
Lemma step_execute {R : Runtime} env ci method am (VM : verified_method env ci method am) pc c s :
  instruction_start (insns_ ci) pc -> Opcode (At (insns_ ci) pc) = Ok c -> st_ok ci method s ->
  let s' := with_frame s (SetDexPC (frame s) (GetDexPc (At (insns_ ci) pc))) in
  exists d, Fetch16 (At (insns_ ci) pc) 0 = Ok d /\ instruction_ok env ci pc c /\ st_ok ci method s' /\
    forall access transaction address, step access transaction ci address (At (insns_ ci) pc) s =
      execute access transaction ci address (At (insns_ ci) pc) d c s'.
Proof.
  intros Hpc Hc Hs s'.
  destruct (so_instructions _ _ (vm_static _ _ _ _ VM) pc Hpc) as (c' & Hc' & IO).
  assert (c' = c) as -> by congruence.
  destruct (Fetch16 (At (insns_ ci) pc) 0) as [d|] eqn:Hd; [|by unfold Opcode in Hc; rewrite Hd in Hc].
  assert (Opcode_data (At (insns_ ci) pc) d = Ok c) as Ho by (unfold Opcode in Hc; by rewrite Hd in Hc).
  exists d. split_and!; [done|done| |].
  - destruct Hs as [[] ? ? ?]. by repeat split.
  - intros. unfold step. by rewrite M_bind_modify, Hd, M_bind_Ok, Ho, M_bind_Ok.
Qed.

(** ** Theorem *)

(** C19: every integer arithmetic instruction of a verified method (addition,
    subtraction, reverse subtraction, multiplication, division, remainder, bitwise
    operators and shifts, on [int] and [long], with three registers, two registers, or
    a literal of 8 or 16 bits: 63 opcodes) does what Java's arithmetic says: the result
    register receives the value of the Java operator on the operands, with wrap-around,
    masked shift distances and the smallest integer divided by -1 included, nothing
    else of the frame changes, and a zero divisor raises [ArithmeticException] and goes
    to its handler. *)
Theorem arithmetic_is_Java (R : Runtime) (L : RuntimeLaws R) env ci method am pc c n op form s :
  verified_method env ci method am -> st_ok ci method s -> exception (world s) = 0 ->
  instruction_start (insns_ ci) pc -> Opcode (At (insns_ ci) pc) = Ok c ->
  arithmetic_instruction c = Some (n, op, form) ->
  step false false ci (insns_address env) (At (insns_ ci) pc) s =
  java_step ci (At (insns_ ci) pc) n op form
    (with_frame s (SetDexPC (frame s) (GetDexPc (At (insns_ ci) pc)))).
Proof.
  intros VM Hs He Hpc Hc Ha.
  destruct (step_execute env ci method am VM pc c s Hpc Hc Hs) as (d & Hd & IO & Hs' & ->).
  by eapply execute_java.
Qed.

(** [div-int v0, v0, v1; return v0], in a frame that holds the smallest integer and
    -1. *)
Definition divide_item : CodeItem := MkCodeItem 2 0 0 0 3 [0x0093; 0x0100; 0x000f] [] [].
Definition divide_method : ArtMethod := MkArtMethod kAccStatic [] [] (Some divide_item) false.
Definition divide_state : Interp :=
  MkInterp (MkShadowFrame 2 7 0 [0x80000000; 0xffffffff; 0; 0]) 0 false
    (MkWorld ∅ 0 false [] None []).

Lemma divide_wf : code_item_wf divide_item.
Proof. split; [done|done| |simpl; lia]. repeat constructor; simpl; lia. Qed.

Lemma divide_starts pc : instruction_start (insns_ divide_item) pc -> pc ∈ [0; 2].
Proof. intros H. unfold instruction_start in H. walk_on H. Qed.

Lemma divide_verified :
  @verified_method (sample_runtime divide_method) (sample_env divide_item) divide_item 7 divide_method.
Proof.
  split; try done.
  - apply divide_wf.
  - eapply (Verify_statically_ok (sample_env divide_item) divide_item divide_wf
      (mret true) (mret true) initial_verifier); [reflexivity|vm_compute; reflexivity].
  - intros k t Hk. cbn in Hk. lia.
  - intros pc c off count Hpc Hc [Ho _ _ _ Hn _ _ _]. apply divide_starts in Hpc.
    sample_pcs Hpc; vm_compute in Ho; simplify_eq; vm_compute in Hn; by simplify_eq.
  - intros pc off Hpc Hc. apply divide_starts in Hpc. sample_pcs Hpc; by vm_compute in Hc.
Qed.

Lemma divide_laws : RuntimeLaws (sample_runtime divide_method).
Proof. apply sample_laws. intros ci [= <-]. cbn. lia. Qed.

Lemma divide_state_ok : st_ok divide_item 7 divide_state.
Proof.
  split; [|done..]. split; [done|done| |].
  - repeat constructor; unfold fitsU; lia.
  - intros i v r Hi. cbn in Hi. assert (i = 0 \/ i = 1) as [-> | ->] by lia;
      intros [= <-] [= <-]; auto.
Qed.

Lemma arithmetic_is_Java_witness :
  Java.binary 32 Java.Div (-2147483648) (-1) = Some (-2147483648) /\
  @step (sample_runtime divide_method) false false divide_item 0 (At (insns_ divide_item) 0) divide_state =
  @java_step (sample_runtime divide_method) divide_item (At (insns_ divide_item) 0) 32 Java.Div
    ThreeRegisters divide_state.
Proof.
  split; [reflexivity|].
  apply (arithmetic_is_Java (sample_runtime divide_method) divide_laws (sample_env divide_item)
    divide_item 7 divide_method 0 DIV_INT 32 Java.Div ThreeRegisters divide_state);
    [apply divide_verified|apply divide_state_ok|reflexivity| |vm_compute; reflexivity|reflexivity].
  apply walks_here. cbn. lia.
Defined.
