(* ===== verification/InterpreterControl.v ===== *)
(** * Where control goes

    The switch instructions against a linear search of their tables, and the handler
    that catches an exception against the list of handlers in the order of the dex
    file. *)

From S2P Require Import Prelude Modifiers Leb128 DexOpcodes DexInstruction DexCode StaticVerifier StaticVerifierFacts StaticVerifierTheorems ShadowFrame Float Memory ClassHierarchy Heap Transactions InterpreterCommon InterpreterSwitch InterpreterLogic InterpreterSafety InterpreterSteps InterpreterTheorems InterpreterRun InterpreterArithmetic.

(** ** Switches *)

(** The cases of a switch table: keys that count up from the first, or listed keys. *)
Definition switch_key (ci : CodeItem) (c : Code) (table k : Z) : res Z :=
  if decide (c = PACKED_SWITCH) then first ← table_word ci table 2; Ok (int32 (first + k))
  else table_word ci table (2 + k * 2).

Fixpoint switch_cases (ci : CodeItem) (c : Code) (table count : Z) (n : nat) (k : Z)
    : res (list (Z * Z)) :=
  match n with
  | O => Ok []
  | S n =>
      key ← switch_key ci c table k;
      target ← table_word ci table (switch_targets c count + k * 2);
      rest ← switch_cases ci c table count n (k + 1);
      Ok ((key, target) :: rest)
  end.

(** The target of the first case with the key, or the next instruction. *)
Definition select (v : Z) (cases : list (Z * Z)) : Z :=
  match list_find (fun e => e.1 = v) cases with Some (_, (_, target)) => target | None => 3 end.

Definition switch_step {R : Runtime} (ci : CodeItem) (c : Code) (pc : Z) : interp outcome :=
  let inst := At (insns_ ci) pc in
  PREAMBLE ci inst;;
  a ← lift (VRegA inst);
  v ← vreg a;
  off ← lift (VRegB inst);
  count ← lift (Fetch16 (At (insns_ ci) (pc + off)) 1);
  cases ← lift (switch_cases ci c (pc + off) count (Z.to_nat count) 0);
  branch inst (select v cases).

Lemma select_found v cases k target :
  NoDup cases.*1 -> cases !! k = Some (v, target) -> select v cases = target.
Proof.
  intros Hd Hk. unfold select.
  destruct (list_find _ cases) as [[i [key t]]|] eqn:Hf.
  - apply list_find_Some in Hf as (Hi & Heq & _). cbn in Heq. subst key.
    assert (i = k) as ->.
    { eapply (NoDup_lookup cases.*1); [done|rewrite list_lookup_fmap, Hi; done|].
      by rewrite list_lookup_fmap, Hk. }
    congruence.
  - apply list_find_None in Hf. eapply Forall_lookup in Hf; [|exact Hk]. by destruct Hf.
Qed.

Lemma select_none v cases : (forall k t, cases !! k <> Some (v, t)) -> select v cases = 3.
Proof.
  intros Hn. unfold select. destruct (list_find _ cases) as [[i [key t]]|] eqn:Hf; [|done].
  apply list_find_Some in Hf as (Hi & Heq & _). cbn in Heq. subst key. by destruct (Hn i t).
Qed.

Section Tables.
Context {R : Runtime} {L : RuntimeLaws R}.
Context (env : VerifierEnv) (ci : CodeItem) (method : Z) (am : ArtMethod).
Context (VM : verified_method env ci method am).
Local Abbreviation code := (insns_ ci).
Local Abbreviation ok := (st_ok ci method).
Context (pc : Z) (c : Code) (off count : Z).
Context (SW : switch_ok env ci pc c off count).

Lemma switch_cases_ok n k :
  (forall j, k <= j < k + Z.of_nat n -> exists key, switch_key ci c (pc + off) j = Ok key) ->
  0 <= k -> k + Z.of_nat n <= count ->
  exists cases, switch_cases ci c (pc + off) count n k = Ok cases /\ length cases = n /\
    forall j, (j < n)%nat -> exists key target, cases !! j = Some (key, target) /\
      switch_key ci c (pc + off) (k + Z.of_nat j) = Ok key /\
      table_word ci (pc + off) (switch_targets c count + (k + Z.of_nat j) * 2) = Ok target.
Proof.
  revert k. induction n as [|n IH]; intros k Hkeys Hk Hn.
  { exists []. split_and!; [done|done|]. intros j Hj. lia. }
  destruct (Hkeys k) as [key Hkey]; [lia|].
  destruct (sw_targets _ _ _ _ _ _ SW k) as (t & Ht & _); [lia|].
  destruct (IH (k + 1)) as (rest & Hrest & Hlen & Hin); [intros; apply Hkeys; lia|lia..|].
  exists ((key, t) :: rest). split_and!.
  - cbn [switch_cases]. rewrite Hkey. cbn. rewrite Ht. cbn. by rewrite Hrest.
  - cbn. lia.
  - intros [|j] Hj; [exists key, t; rewrite Z.add_0_r; done|].
    destruct (Hin j) as (key' & t' & ? & ? & ?); [lia|]. exists key', t'.
    replace (k + Z.of_nat (S j)) with (k + 1 + Z.of_nat j) by lia. done.
Qed.

Lemma switch_count_range : 0 <= count < 65536.
Proof.
  apply (Fetch16_range (At code (pc + off)) 1); [apply (wf_units _ (vm_wf _ _ _ _ VM))|].
  apply (sw_count _ _ _ _ _ _ SW).
Qed.

Lemma table_in_code k :
  0 <= k -> k + 2 <= switch_targets c count + 2 * count ->
  exists w, table_word ci (pc + off) k = Ok w.
Proof.
  intros. pose proof (sw_end _ _ _ _ _ _ SW). pose proof (sw_start _ _ _ _ _ _ SW).
  apply table_word_total; lia.
Qed.

Lemma packed_keys :
  c = PACKED_SWITCH -> 0 < count -> exists first, table_word ci (pc + off) 2 = Ok first /\
    forall k, switch_key ci c (pc + off) k = Ok (int32 (first + k)).
Proof.
  intros Hc Hn. destruct (table_in_code 2) as [first Hf];
    [lia|unfold switch_targets; rewrite decide_True by done; lia|].
  exists first. split; [done|]. intros k. unfold switch_key. rewrite decide_True by done. by rewrite Hf.
Qed.

(** Listed keys ascend. *)
Lemma sparse_ascending n i x y :
  c = SPARSE_SWITCH -> 0 <= i -> i + 1 + Z.of_nat n < count ->
  table_word ci (pc + off) (2 + i * 2) = Ok x ->
  table_word ci (pc + off) (2 + (i + 1 + Z.of_nat n) * 2) = Ok y -> x < y.
Proof.
  intros Hc Hi. revert y. induction n as [|n IH]; intros y Hn Hx Hy.
  - destruct (sw_keys _ _ _ _ _ _ SW ltac:(by rewrite Hc) (i + 1)) as (k1 & k2 & H1 & H2 & ?); [lia|].
    rewrite Z.add_0_r in Hy. replace (i + 1 - 1) with i in H1 by lia. congruence.
  - destruct (sw_keys _ _ _ _ _ _ SW ltac:(by rewrite Hc) (i + 1 + Z.of_nat (S n)))
      as (k1 & k2 & H1 & H2 & ?); [lia|].
    replace (i + 1 + Z.of_nat (S n) - 1) with (i + 1 + Z.of_nat n) in H1 by lia.
    assert (x < k1) by (apply IH; [lia|done|done]). assert (k2 = y) by congruence. lia.
Qed.

Lemma sparse_order i j x y :
  c = SPARSE_SWITCH -> 0 <= i < j -> j < count ->
  switch_key ci c (pc + off) i = Ok x -> switch_key ci c (pc + off) j = Ok y -> x < y.
Proof.
  intros Hc Hij Hj. unfold switch_key. rewrite !decide_False by (by rewrite Hc). intros Hx Hy.
  apply (sparse_ascending (Z.to_nat (j - i - 1)) i); [done|lia|lia|done|].
  replace (i + 1 + Z.of_nat (Z.to_nat (j - i - 1))) with j by lia. done.
Qed.

Lemma switch_keys_total k :
  c = PACKED_SWITCH \/ c = SPARSE_SWITCH -> 0 <= k < count ->
  exists key, switch_key ci c (pc + off) k = Ok key.
Proof.
  intros [Hc|Hc] Hk; [destruct packed_keys as (first & _ & H); [done|lia|]; eauto|].
  unfold switch_key. rewrite decide_False by (by rewrite Hc). apply table_in_code; [lia|].
  unfold switch_targets. rewrite decide_False by (by rewrite Hc). lia.
Qed.

(** No two cases have the same key. *)
Lemma switch_keys_distinct i j key :
  c = PACKED_SWITCH \/ c = SPARSE_SWITCH -> 0 <= i < count -> 0 <= j < count ->
  switch_key ci c (pc + off) i = Ok key -> switch_key ci c (pc + off) j = Ok key -> i = j.
Proof.
  intros [Hc|Hc] Hi Hj H1 H2.
  - destruct packed_keys as (first & _ & H); [done|lia|]. rewrite H in H1, H2.
    pose proof switch_count_range. assert (int32 (first + i) = int32 (first + j)) as E by congruence.
    revert E. unfold int32, wrapS. Z.div_mod_to_equations. lia.
  - destruct (Z.lt_trichotomy i j) as [?|[?|?]]; [|done|].
    + pose proof (sparse_order i j _ _ Hc ltac:(lia) ltac:(lia) H1 H2). lia.
    + pose proof (sparse_order j i _ _ Hc ltac:(lia) ltac:(lia) H2 H1). lia.
Qed.

Context (Hsw : c = PACKED_SWITCH \/ c = SPARSE_SWITCH).

(** The whole table. *)
Record cases_of (cases : list (Z * Z)) : Prop := {
  cases_read : switch_cases ci c (pc + off) count (Z.to_nat count) 0 = Ok cases;
  cases_length : length cases = Z.to_nat count;
  cases_entry k : 0 <= k < count -> exists key target, cases !! Z.to_nat k = Some (key, target) /\
    switch_key ci c (pc + off) k = Ok key /\
    table_word ci (pc + off) (switch_targets c count + k * 2) = Ok target;
}.

Lemma all_cases : exists cases, cases_of cases.
Proof.
  destruct (switch_cases_ok (Z.to_nat count) 0) as (cases & Hr & Hl & He).
  - intros j Hj. apply switch_keys_total; [done|lia].
  - lia.
  - pose proof switch_count_range. lia.
  - exists cases. split; [done|done|]. intros k Hk. destruct (He (Z.to_nat k)) as (key & t & H); [lia|].
    exists key, t. by rewrite Z2Nat.id, Z.add_0_l in H by lia.
Qed.

Section Cases.
Context (cases : list (Z * Z)) (CS : cases_of cases).

Lemma cases_lookup i key target :
  cases !! i = Some (key, target) ->
  Z.of_nat i < count /\ switch_key ci c (pc + off) (Z.of_nat i) = Ok key.
Proof.
  intros Hi. pose proof (lookup_lt_Some _ _ _ Hi) as Hlt. rewrite (cases_length _ CS) in Hlt.
  destruct (cases_entry _ CS (Z.of_nat i)) as (key' & t' & Hk & ? & _); [lia|].
  rewrite Nat2Z.id in Hk. split; [lia|congruence].
Qed.

Lemma cases_distinct : NoDup cases.*1.
Proof.
  apply NoDup_alt. intros i j key. rewrite !list_lookup_fmap_Some.
  intros ([k1 t1] & -> & Hi) ([k2 t2] & E & Hj). cbn in *. subst k2.
  apply cases_lookup in Hi as [? Hi], Hj as [? Hj].
  apply Nat2Z.inj. eapply switch_keys_distinct; [done|lia|lia|done|done].
Qed.

Lemma select_case k v target :
  0 <= k < count -> switch_key ci c (pc + off) k = Ok v ->
  table_word ci (pc + off) (switch_targets c count + k * 2) = Ok target -> select v cases = target.
Proof.
  intros Hk Hkey Ht. destruct (cases_entry _ CS k Hk) as (key' & t' & Hl & ? & ?).
  apply (select_found v cases (Z.to_nat k)); [apply cases_distinct|congruence].
Qed.

Lemma select_default v :
  (forall k, 0 <= k < count -> switch_key ci c (pc + off) k <> Ok v) -> select v cases = 3.
Proof.
  intros Hn. apply select_none. intros i t Hi. apply cases_lookup in Hi as [? Hi].
  apply (Hn (Z.of_nat i)); [lia|done].
Qed.

Lemma packed_select v first :
  c = PACKED_SWITCH -> fitsS 32 v -> table_word ci (pc + off) 2 = Ok first ->
  let index := int32 (v - first) in
  if (0 <=? index) && (index <? count)
  then int32_at (At code (pc + off)) (4 + 2 * index) = Ok (select v cases)
  else select v cases = 3.
Proof.
  intros Hc Hv Hfirst index.
  assert (forall k, switch_key ci c (pc + off) k = Ok (int32 (first + k))) as Hkey
    by (intros k; unfold switch_key; rewrite decide_True by done; by rewrite Hfirst).
  assert (fitsS 32 first) as Hr by (apply table_word_range in Hfirst; [unfold fitsS; cbn; lia|apply (vm_wf _ _ _ _ VM)]).
  pose proof switch_count_range. destruct (_ && _) eqn:Hi.
  - apply andb_true_iff in Hi as [?%Z.leb_le ?%Z.ltb_lt].
    destruct (sw_targets _ _ _ _ _ _ SW index) as (t & Ht & _); [lia|].
    rewrite (select_case index v t); [|lia| |done].
    + eapply int32_at_word; [exact VM|]. unfold switch_targets in Ht. rewrite decide_True in Ht by done.
      replace (4 + 2 * index) with (4 + index * 2) by lia. done.
    + rewrite Hkey. f_equal. subst index. unfold fitsS in *. unfold int32, wrapS.
      Z.div_mod_to_equations. lia.
  - apply select_default. intros k Hk. rewrite Hkey. intros [= Hv'].
    assert (index = k); [|lia]. subst index v. unfold fitsS in *. unfold int32, wrapS.
    Z.div_mod_to_equations. lia.
Qed.

(** The binary search: what is outside [lo, hi] is not the case looked for. *)
Lemma sparse_select fuel v lo hi :
  c = SPARSE_SWITCH -> 0 <= lo <= hi + 1 -> hi < count -> hi - lo + 1 < Z.of_nat fuel ->
  (forall k key, 0 <= k < lo -> switch_key ci c (pc + off) k = Ok key -> key < v) ->
  (forall k key, hi < k < count -> switch_key ci c (pc + off) k = Ok key -> v < key) ->
  SparseSwitch_loop fuel (At code (pc + off)) count v lo hi = Ok (select v cases).
Proof.
  intros Hc. revert lo hi. induction fuel as [|fuel IH]; intros lo hi Hlo Hhi Hf Hbelow Habove; [lia|].
  cbn [SparseSwitch_loop]. destruct (Z.leb_spec lo hi) as [Hle|Hgt].
  - set (mid := (lo + hi) ÷ 2). assert (lo <= mid <= hi) as Hmid.
    { subst mid. rewrite Z.quot_div_nonneg by lia. Z.div_mod_to_equations. lia. }
    destruct (switch_keys_total mid) as [key Hkey]; [done|lia|].
    assert (table_word ci (pc + off) (2 + 2 * mid) = Ok key) as Hw.
    { unfold switch_key in Hkey. rewrite decide_False in Hkey by (by rewrite Hc).
      replace (2 + 2 * mid) with (2 + mid * 2) by lia. done. }
    rewrite (int32_at_word _ _ _ _ VM _ _ _ Hw). cbn.
    destruct (Z.ltb_spec v key) as [Hlt|Hge].
    { apply IH; [lia..|done|]. intros k key' Hk Hk'. destruct (decide (k = mid)) as [->|Hne]; [congruence|].
      pose proof (sparse_order mid k _ _ Hc ltac:(lia) ltac:(lia) Hkey Hk'). lia. }
    destruct (Z.ltb_spec key v) as [Hlt|Hge'].
    { apply IH; [lia..| |done]. intros k key' Hk Hk'. destruct (decide (k = mid)) as [->|Hne]; [congruence|].
      pose proof (sparse_order k mid _ _ Hc ltac:(lia) ltac:(lia) Hk' Hkey). lia. }
    assert (key = v) as -> by lia.
    destruct (sw_targets _ _ _ _ _ _ SW mid) as (t & Ht & _); [lia|].
    rewrite (select_case mid v t); [|lia|done|done].
    eapply int32_at_word; [exact VM|]. unfold switch_targets in Ht.
    rewrite decide_False in Ht by (by rewrite Hc).
    replace (2 + 2 * count + 2 * mid) with (2 + 2 * count + mid * 2) by lia. done.
  - rewrite select_default; [done|]. intros k Hk Hkey. destruct (decide (k < lo)).
    + pose proof (Hbelow k v ltac:(lia) Hkey). lia.
    + pose proof (Habove k v ltac:(lia) Hkey). lia.
Qed.
End Cases.

(** *** The instructions *)

Section Step.
Context (d : Z) (Hstart : instruction_start code pc) (IO : instruction_ok env ci pc c).
Local Abbreviation inst := (At code pc).
Context (Hd : Fetch16 inst 0 = Ok d).

Lemma CHECK_run {B} (b : bool) (k : unit -> interp B) s : b = true -> (CHECK b ≫= k) s = k tt s.
Proof. by intros ->. Qed.

Lemma switch_operands s :
  ok s -> exists a v, VRegA_31t inst d = Ok a /\ VRegA inst = Ok a /\ VRegB_31t inst = Ok off /\
    VRegB inst = Ok off /\ vreg a s = Ok (v, s) /\ fitsS 32 v.
Proof.
  intros Hs. assert (FormatOf c = k31t) as HF by (by destruct Hsw as [-> | ->]).
  assert (flagged c kVerifyRegA) as HA by (by destruct Hsw as [-> | ->]).
  destruct (ok_A _ _ _ _ IO HA) as (a & Ha & Hr).
  destruct (VRegA_31t_view _ _ _ (ok_fits _ _ _ _ IO) HF Hd) as (a' & Ha' & Ha'' & _).
  destruct (VRegB_31t_view _ _ _ (ok_fits _ _ _ _ IO) HF Hd) as (b & Hb & Hb' & _).
  assert (a' = a) as -> by congruence.
  assert (b = off) as -> by (pose proof (sw_offset _ _ _ _ _ _ SW); congruence).
  destruct (get_bits_ok ci method 32 a s) as (v & Hv & ?); [by left|done|done|]. eauto 10.
Qed.

Lemma switch_java (choose : interp Z) s :
  ok s ->
  (forall a v cases, VRegA_31t inst d = Ok a -> VRegB_31t inst = Ok off -> vreg a s = Ok (v, s) ->
     fitsS 32 v -> cases_of cases -> choose s = Ok (select v cases, s)) ->
  (offset ← choose; branch inst offset) s =
  (a ← lift (VRegA inst); v ← vreg a; off ← lift (VRegB inst);
   count ← lift (Fetch16 (At code (pc + off)) 1);
   cases ← lift (switch_cases ci c (pc + off) count (Z.to_nat count) 0);
   branch inst (select v cases)) s.
Proof.
  intros Hs Hchoose. destruct (switch_operands s Hs) as (a & v & E1 & E2 & E3 & E4 & Ev & Hv).
  destruct all_cases as (cases & CS). rewrite E2, E4, M_bind_Ok, (M_bind_step _ _ _ _ _ Ev), M_bind_Ok.
  rewrite (sw_count _ _ _ _ _ _ SW), M_bind_Ok, (cases_read _ CS), M_bind_Ok.
  by rewrite (M_bind_step _ _ _ _ _ (Hchoose a v cases E1 E3 Ev Hv CS)).
Qed.

Lemma DoPackedSwitch_selects a v cases s :
  c = PACKED_SWITCH -> VRegA_31t inst d = Ok a -> VRegB_31t inst = Ok off ->
  vreg a s = Ok (v, s) -> fitsS 32 v -> cases_of cases ->
  DoPackedSwitch (insns_address env) inst d s = Ok (select v cases, s).
Proof.
  intros Hc Ha Hb Hv Hfit CS. pose proof switch_count_range.
  assert (0 < count) as Hpos
    by (eapply (vm_switch _ _ _ _ VM); [exact Hstart|apply (opcode_here env ci pc c IO)|exact SW]).
  destruct packed_keys as (first & Hfirst & _); [done..|].
  unfold DoPackedSwitch. rewrite (opcode_here env ci pc c IO), M_bind_Ok.
  rewrite CHECK_run by (by apply bool_decide_eq_true_2). rewrite Hb, M_bind_Ok. cbv beta zeta.
  rewrite Ha, M_bind_Ok, (M_bind_step _ _ _ _ _ Hv). change (RelativeAt inst off) with (At code (pc + off)).
  cbn [pos].
  rewrite (sw_signature _ _ _ _ _ _ SW), M_bind_Ok, CHECK_run
    by (unfold switch_signature; by rewrite decide_True).
  rewrite (sw_count _ _ _ _ _ _ SW), M_bind_Ok, CHECK_run by lia.
  rewrite CHECK_run by (apply (aligned env _ (sw_aligned _ _ _ _ _ _ SW) 1)).
  rewrite (int32_at_word _ _ _ _ VM _ _ _ Hfirst), M_bind_Ok.
  rewrite CHECK_run by (apply (aligned env _ (sw_aligned _ _ _ _ _ _ SW) 2)).
  pose proof (packed_select cases CS v first Hc Hfit Hfirst) as Hsel. cbv zeta in Hsel.
  destruct (_ && _); [unfold lift; by rewrite Hsel|by rewrite Hsel].
Qed.

Lemma DoSparseSwitch_selects a v cases s :
  c = SPARSE_SWITCH -> VRegA_31t inst d = Ok a -> VRegB_31t inst = Ok off ->
  vreg a s = Ok (v, s) -> fitsS 32 v -> cases_of cases ->
  DoSparseSwitch (insns_address env) inst d s = Ok (select v cases, s).
Proof.
  intros Hc Ha Hb Hv Hfit CS. pose proof switch_count_range.
  assert (0 < count) as Hpos
    by (eapply (vm_switch _ _ _ _ VM); [exact Hstart|apply (opcode_here env ci pc c IO)|exact SW]).
  unfold DoSparseSwitch. rewrite (opcode_here env ci pc c IO), M_bind_Ok.
  rewrite CHECK_run by (by apply bool_decide_eq_true_2). rewrite Hb, M_bind_Ok. cbv beta zeta.
  rewrite Ha, M_bind_Ok, (M_bind_step _ _ _ _ _ Hv). change (RelativeAt inst off) with (At code (pc + off)).
  cbn [pos].
  rewrite (sw_signature _ _ _ _ _ _ SW), M_bind_Ok, CHECK_run
    by (unfold switch_signature; rewrite decide_False; [done|by rewrite Hc]).
  rewrite (sw_count _ _ _ _ _ _ SW), M_bind_Ok, CHECK_run by lia.
  rewrite CHECK_run by (apply (aligned env _ (sw_aligned _ _ _ _ _ _ SW) 1)).
  rewrite CHECK_run.
  2:{ rewrite <- Z.add_assoc. replace (2 + 2 * count) with (2 * (1 + count)) by lia.
      apply aligned, (sw_aligned _ _ _ _ _ _ SW). }
  unfold lift. rewrite (sparse_select cases CS); [done|done|lia|lia|lia|intros; lia|intros; lia].
Qed.
End Step.
End Tables.

Lemma switch_execute {R : Runtime} {L : RuntimeLaws R} env ci method am pc c d s :
  verified_method env ci method am -> instruction_start (insns_ ci) pc ->
  instruction_ok env ci pc c -> Fetch16 (At (insns_ ci) pc) 0 = Ok d ->
  c = PACKED_SWITCH \/ c = SPARSE_SWITCH -> st_ok ci method s ->
  execute false false ci (insns_address env) (At (insns_ ci) pc) d c s = switch_step ci c pc s.
Proof.
  intros VM Hstart IO Hd Hsw Hs.
  destruct (ok_switch _ _ _ _ IO) as (off & count & SW); [by destruct Hsw as [-> | ->]|].
  assert (no_return c) as NR by (by destruct Hsw as [-> | ->]).
  assert (forall choose : interp Z,
    (forall s', st_ok ci method s' -> forall a v cases,
       VRegA_31t (At (insns_ ci) pc) d = Ok a -> VRegB_31t (At (insns_ ci) pc) = Ok off ->
       vreg a s' = Ok (v, s') -> fitsS 32 v -> cases_of ci pc c off count cases ->
       choose s' = Ok (select v cases, s')) ->
    (PREAMBLE ci (At (insns_ ci) pc);; offset ← choose; branch (At (insns_ ci) pc) offset) s =
    switch_step ci c pc s) as Hch.
  { intros choose Hc. eapply (after_PREAMBLE env ci method am VM pc c IO); [done..|].
    intros s' Hs' _. apply (switch_java env ci method am VM pc c off count SW Hsw d IO Hd); [done|by apply Hc]. }
  destruct Hsw as [-> | ->]; unfold execute; cbv beta iota delta [first_case execute_moves
    execute_returns execute_constants execute_objects execute_gotos]; apply Hch; intros.
  - by eapply DoPackedSwitch_selects; eauto.
  - by eapply DoSparseSwitch_selects; eauto.
Qed.

(** C21: [packed-switch] and [sparse-switch] of a verified method jump to the target of
    the one case whose key is the value of the register, and go on behind the
    instruction when there is none: the index computation of the one, with its
    32-bit wrap-around, and the binary search of the other agree with a search through
    the cases in order. *)
Theorem switch_is_linear_search (R : Runtime) (L : RuntimeLaws R) env ci method am pc c s :
  verified_method env ci method am -> st_ok ci method s -> instruction_start (insns_ ci) pc ->
  Opcode (At (insns_ ci) pc) = Ok c -> c = PACKED_SWITCH \/ c = SPARSE_SWITCH ->
  step false false ci (insns_address env) (At (insns_ ci) pc) s =
  switch_step ci c pc (with_frame s (SetDexPC (frame s) (GetDexPc (At (insns_ ci) pc)))).
Proof.
  intros VM Hs Hpc Hc Hsw.
  destruct (step_execute env ci method am VM pc c s Hpc Hc Hs) as (d & Hd & IO & Hs' & ->).
  by eapply switch_execute.
Qed.

Lemma switch_is_linear_search_witness :
  switch_cases sample_item PACKED_SWITCH 8 1 1 0 = Ok [(3, 5)] /\
  @step (sample_runtime sample_method) false false sample_item 0 (At (insns_ sample_item) 1) sample_state =
  @switch_step (sample_runtime sample_method) sample_item PACKED_SWITCH 1
    (with_frame sample_state (SetDexPC (frame sample_state) 1)).
Proof.
  split; [vm_compute; reflexivity|].
  apply (switch_is_linear_search (sample_runtime sample_method) sample_method_laws
    (sample_env sample_item) sample_item 7 sample_method 1 PACKED_SWITCH sample_state);
    [apply sample_verified|apply sample_state_ok| |vm_compute; reflexivity|by left].
  apply (walks_step _ 0 1); [cbn; lia|vm_compute; reflexivity|apply walks_here; cbn; lia].
Defined.

(** ** Handlers *)

Section Catch.
Context {R : Runtime} {L : RuntimeLaws R} (method exception_type : Z) (resolve : Z -> Z).

(** Whether a handler for type index [t] catches the exception: a catch-all, or a type
    that resolves to a class the exception can be assigned to. *)
Definition catches (t : Z) : bool :=
  (t =? kDexNoIndex16) ||
  (negb (resolve t =? 0) && bool_decide (IsAssignableFrom classes (resolve t) exception_type = Ok true)).

Definition catching (handlers : list (Z * Z)) : Z :=
  match list_find (fun h => catches h.1 = true) handlers with
  | Some (_, (_, address)) => address
  | None => kDexNoIndex
  end.

Lemma catching_cons h handlers :
  catching (h :: handlers) = if catches h.1 then h.2 else catching handlers.
Proof.
  unfold catching. cbn -[catches]. case_decide as Hc.
  - rewrite Hc. by destruct h.
  - apply not_true_is_false in Hc. rewrite Hc. by destruct (list_find _ handlers) as [[i [t a]]|].
Qed.

(** What class resolution does: it finds the class, or throws and answers null. *)
Definition resolves : Prop :=
  forall i w, calm w -> exists w', GetClassFromTypeIndex method i w = Ok (resolve i, w') /\ calm w'.

Lemma assignable_answer k :
  is_Some (classes !! exception_type) -> is_Some (classes !! k) ->
  IsAssignableFrom classes k exception_type =
  Ok (bool_decide (IsAssignableFrom classes k exception_type = Ok true)).
Proof.
  intros [e He] [c Hc]. destruct law_classes as (object & rank & WF).
  destruct (IsAssignableFrom_spec _ _ _ WF (fuel classes) _ _ _ _ Hc He) as (b & Hb & _);
    [by apply Nat.lt_succ_r, (wf_rank _ _ _ WF _ c)|].
  unfold IsAssignableFrom. rewrite Hb. by destruct b.
Qed.

Context (Hresolve : resolves) (Hexc : is_Some (classes !! exception_type)).
Context (Hknown : forall i, resolve i <> 0 -> is_Some (classes !! resolve i)).

Lemma FindCatchBlock_loop_finds fuel it es final w :
  CatchHandlerIterator.walk fuel it = Ok (es, final) -> calm w ->
  exists w', FindCatchBlock_loop fuel method exception_type it w = Ok (catching es, w') /\ calm w'.
Proof.
  revert it es w. induction fuel as [|fuel IH]; intros it es w Hw Hcalm; [done|].
  cbn [FindCatchBlock_loop CatchHandlerIterator.walk] in *.
  destruct (CatchHandlerIterator.HasNext it); cbn [negb]; [|injection Hw as <- <-; by exists w].
  destruct (CatchHandlerIterator.Next it) as [it'|] eqn:Hnext; [|done]. cbn in Hw.
  destruct (CatchHandlerIterator.walk fuel it') as [[rest final']|] eqn:Hrest; [|done].
  injection Hw as <- <-. rewrite catching_cons. cbn [fst snd]. unfold catches.
  destruct (_ =? kDexNoIndex16); [by exists w|]. cbn [orb].
  set (i := CatchHandlerIterator.GetHandlerTypeIndex it).
  destruct (Hresolve i w Hcalm) as (w1 & E1 & Hc1). rewrite (M_bind_step _ _ _ _ _ E1).
  destruct (Z.eqb_spec (resolve i) 0) as [->|Hne]; cbn [negb andb].
  - destruct (IH it' rest (with_exception w1 0 false) Hrest Hc1) as (w' & E & Hc).
    exists w'. split; [|done]. rewrite M_bind_assoc. exact E.
  - rewrite (assignable_answer (resolve i)) by auto. rewrite M_bind_Ok. case_bool_decide.
    + by exists w1.
    + destruct (IH it' rest w1 Hrest Hc1) as (w' & E & Hc). by exists w'.
Qed.
End Catch.

Lemma catching_in {R : Runtime} exception_type resolve es :
  catching exception_type resolve es = kDexNoIndex \/ catching exception_type resolve es ∈ es.*2.
Proof.
  unfold catching. destruct (list_find _ es) as [[i [t a]]|] eqn:Hf; [|by left]. right.
  apply list_find_Some in Hf as (Hi & _ & _). apply list_elem_of_fmap. exists (t, a).
  split; [done|]. by eapply list_elem_of_lookup_2.
Qed.

Lemma no_move_run {R : Runtime} ci address w :
  (address = kDexNoIndex \/ exists c, Opcode (At (insns_ ci) address) = Ok c) ->
  (if negb (address =? kDexNoIndex) then
     opcode ← lift (Opcode (At (insns_ ci) address)); mret (negb (bool_decide (opcode = MOVE_EXCEPTION)))
   else mret false : rt bool) w =
  Ok (negb (address =? kDexNoIndex) &&
      negb (bool_decide (Opcode (At (insns_ ci) address) = Ok MOVE_EXCEPTION)), w).
Proof.
  intros Hop. destruct (Z.eqb_spec address kDexNoIndex) as [|Hne]; [done|]. cbn [negb andb].
  destruct Hop as [?|[c Hc]]; [done|]. rewrite Hc, M_bind_Ok. unfold mret, M_ret. do 3 f_equal.
  by apply bool_decide_ext; split; [intros ->|intros [=]].
Qed.

Lemma restore_run {R : Runtime} e b w :
  e <> 0 ->
  (if negb (e =? 0) then SetException e;; modify (fun w => with_exception w (exception w) b)
   else mret tt : rt unit) w = Ok (tt, with_exception w e b).
Proof. intros He. unfold SetException. by rewrite (proj2 (Z.eqb_neq _ _) He). Qed.

(** C20: [FindCatchBlock] returns the address of the first handler, in the order of the
    dex file, that covers the address and whose type is a catch-all or resolves to a
    class the exception can be assigned to (types that do not resolve are passed over,
    the error they raise is dropped), and no index when there is none; it reports
    whether the handler lets the exception stay pending; and the pending exception and
    the note that it was reported are as before. *)
Theorem FindCatchBlock_first_match (R : Runtime) (L : RuntimeLaws R) env ci method am
    exception_type resolve pc w :
  verified_method env ci method am -> calm w -> exception w <> 0 ->
  is_Some (classes !! exception_type) -> resolves method resolve ->
  (forall i, resolve i <> 0 -> is_Some (classes !! resolve i)) ->
  exists it es final w' no_move,
    CatchHandlerIterator.at_address ci pc = Ok it /\
    CatchHandlerIterator.walk (length (handlers_ ci) + 2) it = Ok (es, final) /\
    let address := catching exception_type resolve es in
    FindCatchBlock method exception_type pc w = Ok ((address, no_move), w') /\
    (no_move = true <-> address <> kDexNoIndex /\ Opcode (At (insns_ ci) address) <> Ok MOVE_EXCEPTION) /\
    exception w' = exception w /\ exception_reported w' = exception_reported w.
Proof.
  intros VM Hcalm He Hexc Hres Hknown.
  destruct (handlers_at_address env ci (vm_static _ _ _ _ VM) (vm_handlers _ _ _ _ VM)
    (vm_tries _ _ _ _ VM) pc) as (it & es & final & Hit & Hw & Hes).
  destruct (FindCatchBlock_loop_finds method exception_type resolve Hres Hexc Hknown _ it es final
    (with_exception w 0 false) Hw Hcalm) as (w1 & Hloop & Hc1).
  set (address := catching exception_type resolve es) in *.
  assert (address = kDexNoIndex \/ exists c, Opcode (At (insns_ ci) address) = Ok c) as Hop.
  { destruct (catching_in exception_type resolve es) as [?|Hin]; [by left|right].
    apply list_elem_of_fmap in Hin as (h & Hh & Hin). eapply Forall_forall in Hes; [|exact Hin].
    destruct (opcode_at _ _ _ _ VM _ Hes) as (c & Hc & _). exists c. subst address. by rewrite Hh. }
  set (no_move := negb (address =? kDexNoIndex) &&
    negb (bool_decide (Opcode (At (insns_ ci) address) = Ok MOVE_EXCEPTION))).
  exists it, es, final, (with_exception w1 (exception w) (exception_reported w)), no_move.
  split; [done|]. split; [done|]. cbv zeta. fold address. split_and!; [..|done|done].
  - unfold FindCatchBlock, GetException, ClearException. rewrite (vm_method _ _ _ _ VM), M_bind_Ok, (vm_code _ _ _ _ VM), M_bind_Ok.
    rewrite M_bind_gets, M_bind_gets, M_bind_modify, Hit, M_bind_Ok, (M_bind_step _ _ _ _ _ Hloop).
    rewrite (M_bind_step _ _ _ no_move w1 (no_move_run ci address w1 Hop)).
    by rewrite (M_bind_step _ _ _ _ _ (restore_run (exception w) (exception_reported w) w1 He)).
  - subst no_move. rewrite andb_true_iff, !negb_true_iff, Z.eqb_neq, bool_decide_eq_false. done.
Qed.

(** [throw v0] in a try block that catches [String], then [Object], then the rest. *)
Definition catch_item : CodeItem :=
  MkCodeItem 1 0 0 1 4 [0x0027; 0x000e; 0x000e; 0x000e] [MkTryItem 0 1 1] [1; 0x7e; 4; 1; 1; 2; 3].
Definition catch_method : ArtMethod := MkArtMethod kAccStatic [] [] (Some catch_item) false.
Definition catch_world : World := MkWorld ∅ 500 false [] None [].
Definition catch_resolve (i : Z) : Z := if bool_decide (is_Some (sample_classes !! i)) then i else 0.

Lemma catch_wf : code_item_wf catch_item.
Proof. split; [done|done| |simpl; lia]. repeat constructor; simpl; lia. Qed.

Lemma catch_starts pc : instruction_start (insns_ catch_item) pc -> pc ∈ [0; 1; 2; 3].
Proof. intros H. unfold instruction_start in H. walk_on H. Qed.

Lemma catch_verified :
  @verified_method (sample_runtime catch_method) (sample_env catch_item) catch_item 7 catch_method.
Proof.
  split; try done.
  - apply catch_wf.
  - eapply (Verify_statically_ok (sample_env catch_item) catch_item catch_wf
      (mret true) (mret true) initial_verifier); [reflexivity|vm_compute; reflexivity].
  - intros k t Hk Ht. cbn in Hk. assert (k = 0) as -> by lia. injection Ht as <-.
    split; [done|]. eexists. split; [reflexivity|].
    exists 1, [1; 0x7e; 4; 1; 1; 2; 3], [0x7e; 4; 1; 1; 2; 3].
    split_and!; [reflexivity|reflexivity|constructor].
  - intros pc c off count Hpc Hc [Ho _ _ _ Hn _ _ _]. apply catch_starts in Hpc.
    sample_pcs Hpc; vm_compute in Ho; simplify_eq; vm_compute in Hn; by simplify_eq.
  - intros pc off Hpc Hc. apply catch_starts in Hpc. sample_pcs Hpc; by vm_compute in Hc.
Qed.

Lemma catch_laws : RuntimeLaws (sample_runtime catch_method).
Proof. apply sample_laws. intros ci [= <-]. cbn. lia. Qed.

Lemma FindCatchBlock_first_match_witness :
  exists it es final w' no_move,
    CatchHandlerIterator.at_address catch_item 0 = Ok it /\
    CatchHandlerIterator.walk 9 it = Ok (es, final) /\
    @catching (sample_runtime catch_method) 2 catch_resolve es = 2 /\
    @FindCatchBlock (sample_runtime catch_method) 7 2 0 catch_world = Ok ((2, no_move), w') /\
    exception w' = 500.
Proof.
  destruct (FindCatchBlock_first_match (sample_runtime catch_method) catch_laws
    (sample_env catch_item) catch_item 7 catch_method 2 catch_resolve 0 catch_world)
    as (it & es & final & w' & no_move & Hit & Hw & H & _ & He & _).
  - apply catch_verified.
  - done.
  - done.
  - by eexists.
  - intros i w Hw. unfold catch_resolve. cbn. case_bool_decide; eexists; split; done.
  - intros i. unfold catch_resolve. case_bool_decide; done.
  - exists it, es, final, w', no_move.
    assert (@catching (sample_runtime catch_method) 2 catch_resolve es = 2) as Hc.
    { vm_compute in Hit. injection Hit as <-. vm_compute in Hw. injection Hw as <- _.
      vm_compute. reflexivity. }
    cbv zeta in H. rewrite Hc in H. done.
Defined.
