(* ===== verification/InterpreterGrowth.v ===== *)
(** * Computations along a preorder of states

    [advances le m]: whenever [m] ends, it ends in a state above the one it starts in.
    The rules follow the structure of a computation, and [advance_with] applies
    them through the routines of the interpreter, given the rule for [run] and what
    solves the updates of the state. *)

From S2P Require Import Prelude Modifiers Leb128 DexOpcodes DexInstruction DexCode ShadowFrame Float Memory ClassHierarchy Heap InterpreterCommon InterpreterSwitch InterpreterLogic.

Section Advances.
Context {S : Type} (le : relation S) `{!PreOrder le}.

Definition advances {A} (m : M S A) : Prop := forall s a s', m s = Ok (a, s') -> le s s'.

Lemma advances_bind {A B} (m : M S A) (f : A -> M S B) :
  advances m -> (forall a, advances (f a)) -> advances (m ≫= f).
Proof. intros Hm Hf s b s' H. inv_M. etrans; [by eapply Hm|by eapply Hf]. Qed.
Lemma advances_fmap {A B} (f : A -> B) (m : M S A) : advances m -> advances (f <$> m).
Proof. intros Hm s b s' H. inv_M. eauto. Qed.
Lemma advances_ret {A} (a : A) : advances (mret a).
Proof. intros s b s' H. by inv_M. Qed.
Lemma advances_lift {A} (r : res A) : advances (lift r).
Proof. intros s b s' H. by inv_M. Qed.
Lemma advances_gets {A} (f : S -> A) : advances (gets f).
Proof. intros s b s' H. by inv_M. Qed.
Lemma advances_modify f : (forall s, le s (f s)) -> advances (modify f).
Proof. intros Hf s b s' H. inv_M. by subst. Qed.
End Advances.

Create HintDb advances.
#[export] Hint Resolve advances_ret advances_lift advances_gets : advances.

(** Through a computation, unfolding the routines it calls. *)
Ltac advance_with run_rule update_tac :=
  repeat first
    [ progress cbv beta zeta
    | solve [eauto with advances typeclass_instances]
    | lazymatch goal with
      | |- advances _ (_ ≫= _) => apply advances_bind; [apply _| |intros ?]
      | |- advances _ (_ <$> _) => apply advances_fmap
      | |- advances _ (modify _) => apply advances_modify; intros ?; solve [update_tac]
      | |- advances _ (run _) => run_rule
      | |- advances _ (match ?x with _ => _ end) => destruct x
      | |- advances _ ((match ?x with _ => _ end) _) => destruct x
      | |- advances _ ?m => let h := head_of m in unfold h
      end ].
