(* ===== verification/InterpreterSuspension.v ===== *)
(** * The interpreter lets the thread be suspended

    The runtime suspends a thread only where the thread looks for a request
    ([AllowThreadSuspension]).  The interpreter looks on every branch that does not
    lead forward, on the way to a handler, and on return: between two looks it runs at
    most as many instructions as the method has code units, whatever the method is. *)

From S2P Require Import Prelude Modifiers Leb128 DexOpcodes DexInstruction DexCode StaticVerifier StaticVerifierFacts StaticVerifierTheorems ShadowFrame Float Memory ClassHierarchy Heap Transactions InterpreterCommon InterpreterSwitch InterpreterLogic InterpreterSafety InterpreterSteps InterpreterTheorems InterpreterRun InterpreterArithmetic InterpreterGrowth.

(** ** Computations that only add events *)

Definition trace_grows (w w' : World) : Prop := trace w `prefix_of` trace w'.
#[export] Instance trace_grows_preorder : PreOrder trace_grows.
Proof. unfold trace_grows. split; repeat intro; [done|by etrans]. Qed.

Definition events_grow (s s' : Interp) : Prop := trace_grows (world s) (world s').
#[export] Instance events_grow_preorder : PreOrder events_grow.
Proof. unfold events_grow. split; repeat intro; [done|by etrans]. Qed.

Abbreviation growing := (advances trace_grows).
Abbreviation growing_run := (advances events_grow).

Lemma grows_run {A} (m : rt A) : growing m -> growing_run (run m).
Proof.
  intros Hm s a s'. unfold run. destruct (m (world s)) as [[b w]|] eqn:E; [|done].
  intros [= <- <-]. exact (Hm _ _ _ E).
Qed.
Lemma grows_emit e : growing (emit e).
Proof. intros w u w' H. unfold emit in H. inv_M. subst. by apply prefix_app_r. Qed.
#[export] Hint Resolve grows_emit : advances.

Ltac grow := advance_with ltac:(apply grows_run) ltac:(unfold events_grow, trace_grows; done).

(** ** The services *)

Class TraceLaws (R : Runtime) : Prop := {
  grows_ThrowNew k : growing (ThrowNew k);
  grows_FindFieldFromCode t c i r n : growing (FindFieldFromCode t c i r n);
  grows_FindMethodFromCode t c i r m : growing (FindMethodFromCode t c i r m);
  grows_ResolveVerifyAndClinit i r c v : growing (ResolveVerifyAndClinit i r c v);
  grows_AllocObjectFromCode c i m : growing (AllocObjectFromCode c i m);
  grows_AllocArrayFromCode c i m n : growing (AllocArrayFromCode c i m n);
  grows_Array_Alloc k n s : growing (Array_Alloc k n s);
  grows_GetClassFromTypeIndex m i : growing (GetClassFromTypeIndex m i);
  grows_GetReturnType m : growing (GetReturnType m);
  grows_ArtField_GetType f : growing (ArtField_GetType f);
  grows_FindInstanceFieldWithOffset k o : growing (FindInstanceFieldWithOffset k o);
  grows_GetEmbeddedVTableEntry k i : growing (GetEmbeddedVTableEntry k i);
  grows_String_IsInitialized : growing String_IsInitialized;
  grows_String_EnsureInitialized : growing String_EnsureInitialized;
  grows_GetDexCacheString m i : growing (GetDexCacheString m i);
  grows_ClassLinker_ResolveString m i : growing (ClassLinker_ResolveString m i);
  grows_Monitor_Enter o : growing (Monitor_Enter o);
  grows_Monitor_Exit o : growing (Monitor_Exit o);
  grows_CatchLocation e : growing (CatchLocation e);
  grows_EntryPointFromInterpreter m f r : growing (EntryPointFromInterpreter m f r);
  grows_UnstartedRuntimeInvoke m f r o : growing (UnstartedRuntimeInvoke m f r o);
}.
#[export] Hint Resolve grows_ThrowNew grows_FindFieldFromCode grows_FindMethodFromCode
  grows_ResolveVerifyAndClinit grows_AllocObjectFromCode grows_AllocArrayFromCode grows_Array_Alloc
  grows_GetClassFromTypeIndex grows_GetReturnType grows_ArtField_GetType
  grows_FindInstanceFieldWithOffset grows_GetEmbeddedVTableEntry grows_String_IsInitialized
  grows_String_EnsureInitialized grows_GetDexCacheString grows_ClassLinker_ResolveString
  grows_Monitor_Enter grows_Monitor_Exit grows_CatchLocation grows_EntryPointFromInterpreter
  grows_UnstartedRuntimeInvoke : advances.

Section Routines.
Context {R : Runtime} {T : TraceLaws R}.

Lemma grows_RecordArrayElements n k a i : growing (RecordArrayElements n k a i).
Proof. revert i. induction n; intros i; cbn [RecordArrayElements]; grow. Qed.
#[local] Hint Resolve grows_RecordArrayElements : advances.

Lemma grows_FindCatchBlock_loop n m e it : growing (FindCatchBlock_loop n m e it).
Proof. revert it. induction n; intros it; cbn [FindCatchBlock_loop]; grow. Qed.
#[local] Hint Resolve grows_FindCatchBlock_loop : advances.

Lemma grows_copy_checked n k m r src nsf p d a :
  growing_run (copy_checked n k m r src nsf p d a).
Proof. revert nsf p d a. induction n; intros nsf p d a; cbn [copy_checked]; grow. Qed.
#[local] Hint Resolve grows_copy_checked : advances.

Lemma grows_fill_elements n t b a src i : growing_run (fill_elements n t b a src i).
Proof. revert i. induction n; intros i; cbn [fill_elements]; grow. Qed.
#[local] Hint Resolve grows_fill_elements : advances.

(** ** Steps *)

(** A step leads forward or passes a suspension point. *)
Definition polls (inst : Instruction) (m : interp outcome) : Prop :=
  forall s o s', m s = Ok (o, s') ->
    exists new, trace (world s') = trace (world s) ++ new /\
      match o with
      | Goto i => insns i = insns inst /\ (pos inst < pos i \/ AllowThreadSuspension ∈ new)
      | Return _ => True
      end.

Section Step.
Context (access active : bool) (ci : CodeItem) (address : Z) (inst : Instruction) (d : Z).

Lemma polls_bind {A} (m : interp A) (f : A -> interp outcome) :
  growing_run m -> (forall a, polls inst (f a)) -> polls inst (m ≫= f).
Proof.
  intros Hm Hf s o s' H. inv_M. destruct (Hm _ _ _ E) as [new1 E1].
  destruct (Hf _ _ _ _ H) as (new2 & E2 & Ho). exists (new1 ++ new2).
  split; [by rewrite E2, E1, app_assoc|]. destruct o as [i|]; [|done].
  destruct Ho as [? [?|?]]; split; auto. right. apply elem_of_app. by right.
Qed.

Lemma polls_goto next :
  (forall i, next inst = Ok i -> insns i = insns inst /\ pos inst < pos i) ->
  polls inst (goto inst next).
Proof.
  intros Hn s o s' H. unfold goto in H. inv_M. exists []. rewrite app_nil_r. split; [done|].
  subst o. destruct (Hn _ E). auto.
Qed.

Lemma polls_branch off : polls inst (branch inst off).
Proof.
  intros s o s' H. unfold branch, IsBackwardBranch in H. inv_M. subst o.
  destruct (Z.leb_spec off 0).
  - unfold run, emit, modify in E. injection E as <- <-. eexists. split; [done|].
    split; [done|]. right. by left.
  - inv_M. subst. exists []. rewrite app_nil_r. split; [done|]. split; [done|]. left. cbn. lia.
Qed.

(** Anything behind a suspension point. *)
Lemma polls_suspended (m : interp outcome) :
  growing_run m ->
  (forall s i s', m s = Ok (Goto i, s') -> insns i = insns inst) ->
  polls inst (run (emit AllowThreadSuspension);; m).
Proof.
  intros Hg Hm s o s' H. inv_M. unfold run, emit, modify in E. injection E as <- <-.
  destruct (Hg _ _ _ H) as [new Hnew]. cbn in Hnew. exists (AllowThreadSuspension :: new).
  split; [by rewrite Hnew, <- app_assoc|]. destruct o; [|done]. split; [by eapply Hm|right; left].
Qed.

Lemma polls_HANDLE_PENDING_EXCEPTION : polls inst (HANDLE_PENDING_EXCEPTION inst).
Proof.
  unfold HANDLE_PENDING_EXCEPTION. do 2 (apply polls_bind; [grow|intros ?]).
  apply polls_suspended; [grow|]. intros s i s' H. inv_M. case_match; inv_M; by simplify_eq.
Qed.

Lemma polls_return r : polls inst (mret (Return r)).
Proof. intros s o s' H. inv_M. subst. exists []. by rewrite app_nil_r. Qed.

Lemma polls_fault f : polls inst (lift (Fault f)).
Proof. by intros s o s' H. Qed.
End Step.

Ltac poll :=
  repeat first
    [ progress cbv beta zeta
    | lazymatch goal with
      | |- polls _ (_ ≫= _) => apply polls_bind; [solve [grow]|intros ?]
      | |- polls _ (mret (Return _)) => apply polls_return
      | |- polls _ (lift (Fault _)) => apply polls_fault
      | |- polls _ (branch _ _) => apply polls_branch
      | |- polls _ (HANDLE_PENDING_EXCEPTION _) => apply polls_HANDLE_PENDING_EXCEPTION
      | |- polls _ (goto _ _) =>
          apply polls_goto; unfold Next_1xx, Next_2xx, Next_3xx, Next_51l, RelativeAt; intros ? ?;
          inv_res; cbn; split; [done|lia]
      | |- polls _ (match ?x with _ => _ end) => destruct x
      | |- polls _ ?m => let h := head_of m in unfold h
      end ].

Section Cases.
Context (access active : bool) (ci : CodeItem) (address : Z) (inst : Instruction) (d : Z).

Definition group_polls (group : Code -> option (interp outcome)) : Prop :=
  forall c m, group c = Some m -> polls inst m.

Ltac group_tac :=
  intros c m H; destruct c; try discriminate H; injection H as <-; poll.

Lemma moves_poll : group_polls (execute_moves ci inst d).
Proof. group_tac. Qed.
Lemma returns_poll : group_polls (execute_returns access ci inst d).
Proof. group_tac. Qed.
Lemma constants_poll : group_polls (execute_constants access ci inst d).
Proof. group_tac. Qed.
Lemma objects_poll : group_polls (execute_objects access active ci inst d).
Proof. group_tac. Qed.
Lemma gotos_poll : group_polls (execute_gotos ci address inst d).
Proof. group_tac. Qed.
Lemma compares_poll : group_polls (execute_compares ci inst d).
Proof. group_tac. Qed.
Lemma ifs_poll : group_polls (execute_ifs ci inst d).
Proof. group_tac. Qed.
Lemma agets_poll : group_polls (execute_agets ci inst d).
Proof. group_tac. Qed.
Lemma aputs_poll : group_polls (execute_aputs active ci inst d).
Proof. group_tac. Qed.
Lemma field_gets_poll : group_polls (execute_gets access ci inst d).
Proof. group_tac. Qed.
Lemma field_puts_poll : group_polls (execute_puts access active ci inst d).
Proof. group_tac. Qed.
Lemma invokes_poll : group_polls (execute_invokes access ci inst d).
Proof. group_tac. Qed.
Lemma unary_poll : group_polls (execute_unary ci inst d).
Proof. group_tac. Qed.
Lemma int_poll : group_polls (execute_int ci inst d).
Proof. group_tac. Qed.
Lemma long_poll : group_polls (execute_long ci inst d).
Proof. group_tac. Qed.
Lemma float_poll : group_polls (execute_float ci inst d).
Proof. group_tac. Qed.
Lemma int_2addr_poll : group_polls (execute_int_2addr ci inst d).
Proof. group_tac. Qed.
Lemma long_2addr_poll : group_polls (execute_long_2addr ci inst d).
Proof. group_tac. Qed.
Lemma float_2addr_poll : group_polls (execute_float_2addr ci inst d).
Proof. group_tac. Qed.
Lemma lit16_poll : group_polls (execute_lit16 ci inst d).
Proof. group_tac. Qed.
Lemma lit8_poll : group_polls (execute_lit8 ci inst d).
Proof. group_tac. Qed.

Lemma first_case_polls l :
  Forall (fun o => forall m, o = Some m -> polls inst m) l -> polls inst (first_case l).
Proof. induction 1 as [|[m|] l Ho _ IH]; cbn; [apply polls_fault|by apply Ho|done]. Qed.

Lemma execute_polls c : polls inst (execute access active ci address inst d c).
Proof.
  apply first_case_polls. repeat constructor; intros m Hm; revert Hm.
  all: first [apply moves_poll|apply returns_poll|apply constants_poll|apply objects_poll
    |apply gotos_poll|apply compares_poll|apply ifs_poll|apply agets_poll|apply aputs_poll
    |apply field_gets_poll|apply field_puts_poll|apply invokes_poll|apply unary_poll|apply int_poll
    |apply long_poll|apply float_poll|apply int_2addr_poll|apply long_2addr_poll
    |apply float_2addr_poll|apply lit16_poll|apply lit8_poll].
Qed.

End Cases.

Lemma step_polls access active ci address inst : polls inst (step access active ci address inst).
Proof.
  unfold step. apply polls_bind; [apply advances_modify; unfold events_grow, trace_grows; done|intros ?].
  do 2 (apply polls_bind; [grow|intros ?]). apply execute_polls.
Qed.

(** ** Runs *)

(** [n] instructions in a row, none of which returns. *)
Inductive runs (access active : bool) (ci : CodeItem) (address : Z)
    : nat -> Instruction -> Interp -> Instruction -> Interp -> Prop :=
  | runs_none i s : runs access active ci address 0 i s i s
  | runs_next n i s i1 s1 i2 s2 :
      step access active ci address i s = Ok (Goto i1, s1) ->
      runs access active ci address n i1 s1 i2 s2 -> runs access active ci address (S n) i s i2 s2.

Lemma step_inside access active ci address i s r :
  step access active ci address i s = Ok r -> 0 <= pos i < zlength (insns i).
Proof.
  unfold step. intros H. apply M_bind_ok in H as (u & s1 & _ & H).
  apply M_bind_ok in H as (w & s2 & Hw & _). apply lift_ok in Hw as [Hw _].
  apply Fetch16_bounds in Hw. lia.
Qed.

Lemma runs_poll access active ci address n i s i' s' :
  runs access active ci address n i s i' s' ->
  exists new, trace (world s') = trace (world s) ++ new /\
    (AllowThreadSuspension ∈ new \/ n = 0%nat \/ pos i + Z.of_nat n <= zlength (insns i)).
Proof.
  induction 1 as [i s|n i s i1 s1 i2 s2 Hstep Hruns IH]; [exists []; rewrite app_nil_r; auto|].
  pose proof (step_inside _ _ _ _ _ _ _ Hstep).
  destruct (step_polls _ _ _ _ _ _ _ _ Hstep) as (new1 & E1 & Hi & Hpoll).
  destruct IH as (new2 & E2 & Hor). exists (new1 ++ new2). split; [by rewrite E2, E1, app_assoc|].
  rewrite elem_of_app. rewrite Hi in Hor. destruct Hpoll as [?|?]; [|auto].
  destruct Hor as [?|[->|?]]; [auto|right; right; lia..].
Qed.
End Routines.

(** ** Theorem *)

(** C22: between two suspension points the interpreter executes at most as many
    instructions as the method has code units: of any run of more instructions, from
    any state and through branches, switches, calls and handlers, the events contain
    [AllowThreadSuspension].  So every loop of a method, whatever its code, gives the
    runtime the chance to stop the thread. *)
Theorem suspension_is_never_far (R : Runtime) (T : TraceLaws R) access active ci address n code pc s i s' :
  runs access active ci address n (At code pc) s i s' -> zlength code < Z.of_nat n ->
  exists new, trace (world s') = trace (world s) ++ new /\ AllowThreadSuspension ∈ new.
Proof.
  intros Hr Hn. destruct (runs_poll _ _ _ _ _ _ _ _ _ Hr) as (new & E & Hor).
  exists new. split; [done|]. destruct Hor as [?|[->|?]]; [done|..].
  - lia.
  - cbn in *. inversion Hr as [|? ? ? ? ? ? ? Hstep]; subst; [lia|].
    apply step_inside in Hstep. cbn in Hstep. lia.
Qed.

(** [goto 0], which runs until it is stopped. *)
Definition spin_item : CodeItem := MkCodeItem 1 0 0 0 2 [0x0029; 0x0000] [] [].
Definition spin_method : ArtMethod := MkArtMethod kAccStatic [] [] (Some spin_item) false.
Definition spin_state : Interp :=
  MkInterp (MkShadowFrame 1 7 0 [0; 0]) 0 false (MkWorld ∅ 0 false [] None []).

Lemma sample_trace_laws am : TraceLaws (sample_runtime am).
Proof.
  split; intros; intros w a w'; cbn; unfold trace_grows, sample_fails, sample_throw; intros H;
    try case_bool_decide; inv_M; subst; done.
Qed.

Lemma suspension_is_never_far_witness :
  exists s', @runs (sample_runtime spin_method) false false spin_item 0 3 (At (insns_ spin_item) 0)
      spin_state (At (insns_ spin_item) 0) s' /\
    exists new, trace (world s') = trace (world spin_state) ++ new /\ AllowThreadSuspension ∈ new.
Proof.
  assert (exists s', @runs (sample_runtime spin_method) false false spin_item 0 3
    (At (insns_ spin_item) 0) spin_state (At (insns_ spin_item) 0) s') as [s' Hr].
  { eexists. do 3 (eapply runs_next; [vm_compute; reflexivity|]). apply runs_none. }
  exists s'. split; [exact Hr|].
  apply (suspension_is_never_far (sample_runtime spin_method) (sample_trace_laws spin_method)
    false false spin_item 0 3 (insns_ spin_item) 0 spin_state (At (insns_ spin_item) 0) s' Hr).
  cbn. lia.
Defined.
