(* ===== verification/InterpreterGoto.v ===== *)
(** * The goto-table interpreter

    Models [ExecuteGotoImpl] (runtime/interpreter/interpreter_goto_table_impl.cc).
    The function keeps [dex_pc] and the current handler table beside the state of the
    activation.  A handler ends in [ADVANCE], which moves to the next instruction and
    jumps through the current table, in [exception_pending_label], or in a return: it
    is a computation of the instruction control goes to, or of the result.  [op_*] are
    the handlers of the main table, one definition for a run of neighbouring ones;
    [alt_op] is the handler of the alternative table.

    A look at the thread's flags, followed by [CheckSuspend] when one is set, is what
    [Thread::AllowThreadSuspension] does, and is recorded as that event. *)

From S2P Require Import Prelude Modifiers Leb128 DexOpcodes DexInstruction DexCode ShadowFrame Float Memory ClassHierarchy Heap InterpreterCommon InterpreterSwitch.

(** [InterpreterHandlerTable] (runtime/instrumentation.h) *)
Inductive InterpreterHandlerTable : Type := kMainHandlerTable | kAlternativeHandlerTable.

Record GotoState : Type := MkGoto {
  machine : Interp;
  currentHandlersTable : InterpreterHandlerTable;
  dex_pc : Z;
}.
Abbreviation goto_interp := (M GotoState).

(** A computation on the state the two interpreters have in common. *)
Definition act {A} (m : interp A) : goto_interp A := fun g =>
  match m (machine g) with
  | Ok (a, s) => Ok (a, MkGoto s (currentHandlersTable g) (dex_pc g))
  | Fault f => Fault f
  end.

Section ExecuteGotoImpl.
Context {R : Runtime}.
(** [have_method_unwind_listeners_] of the instrumentation, and [Thread::TestAllFlags]. *)
Context (HaveMethodUnwindListeners : bool) (TestAllFlags : World -> bool).
Context (do_access_check transaction_active : bool) (code_item : CodeItem) (insns_address : Z).

(** [Instrumentation::IsActive] *)
Definition IsActive : bool :=
  HasDexPcListeners || HasMethodEntryListeners || HasMethodExitListeners || HasFieldReadListeners
  || HasFieldWriteListeners || HasExceptionCaughtListeners || HaveMethodUnwindListeners.

(** [interpreter_handler_table_], as [UpdateInterpreterHandlerTable] leaves it *)
Definition GetInterpreterHandlerTable : InterpreterHandlerTable :=
  if IsActive then kAlternativeHandlerTable else kMainHandlerTable.

Definition UPDATE_HANDLER_TABLE : goto_interp unit :=
  modify (fun g => MkGoto (machine g) GetInterpreterHandlerTable (dex_pc g)).

(** [if (UNLIKELY(self->TestAllFlags())) { self->CheckSuspend(); UPDATE_HANDLER_TABLE(); }] *)
Definition suspend_check : goto_interp unit :=
  flags ← gets (fun g => TestAllFlags (world (machine g)));
  act (run (emit AllowThreadSuspension));;
  if flags : bool then UPDATE_HANDLER_TABLE else mret tt.

Section Instruction.
Context (inst : Instruction) (inst_data : Z).

(** ** The macros *)

(** Up to the jump through the table, which [dispatch] does. *)
Definition ADVANCE (offset : Z) : goto_interp outcome :=
  let disp := int32 offset in
  modify (fun g => MkGoto (machine g) (currentHandlersTable g) (uint32 (int32 (dex_pc g) + disp)));;
  pc ← gets dex_pc;
  act (modify (fun s => with_frame s (SetDexPC (frame s) pc)));;
  mret (Goto (RelativeAt inst disp)).

Definition exception_pending_label : goto_interp outcome :=
  p ← act pending; act (CHECK p);;
  suspend_check;;
  pc ← gets dex_pc;
  found_dex_pc ← act (FindNextInstructionFollowingException pc);
  if found_dex_pc =? kDexNoIndex then mret (Return 0)
  else ADVANCE (int32 (int32 found_dex_pc - int32 pc)).

Definition advance_or_handle (is_exception_pending : bool) (offset : Z) : goto_interp outcome :=
  if is_exception_pending then exception_pending_label else ADVANCE offset.

(** A branch by [offset]. *)
Definition op_branch (offset : Z) : goto_interp outcome :=
  (if IsBackwardBranch offset then suspend_check else mret tt);;
  ADVANCE offset.

(** The instrumentation of a return. *)
Definition op_exit (result : Z) : goto_interp outcome :=
  pc ← gets dex_pc;
  act (if HasMethodExitListeners then
         this ← GetThisObject_ins (ins_size_ code_item);
         read GetMethod;;
         run (emit (MethodExitEvent this pc result))
       else if HasDexPcListeners then
         this ← GetThisObject_ins (ins_size_ code_item);
         read GetMethod;;
         run (emit (DexPcMovedEvent this pc))
       else mret tt);;
  mret (Return result).

(** ** Moves *)

Definition op_move {A} (get : Z -> interp A) (set : Z -> A -> interp unit) (regA regB : res Z)
    (size : Z) : goto_interp outcome :=
  act (b ← lift regB; v ← get b; a ← lift regA; set a v);; ADVANCE size.

Definition op_move_result (get : Z -> Z) (set : Z -> Z -> interp unit) : goto_interp outcome :=
  act (v ← gets result_register; a ← lift (VRegA_11x inst inst_data); set a (get v));; ADVANCE 1.

Definition op_move_exception : goto_interp outcome :=
  e ← act (run GetException);
  a ← act (lift (VRegA_11x inst inst_data));
  act (set_vreg_reference a e);;
  act (run ClearException);;
  ADVANCE 1.

Definition op_moves (c : Code) : option (goto_interp outcome) :=
  match c with
  | NOP => Some (ADVANCE 1)
  | MOVE => Some (op_move vreg set_vreg (VRegA_12x inst inst_data) (VRegB_12x inst inst_data) 1)
  | MOVE_FROM16 => Some (op_move vreg set_vreg (VRegA_22x inst inst_data) (VRegB_22x inst) 2)
  | MOVE_16 => Some (op_move vreg set_vreg (VRegA_32x inst) (VRegB_32x inst) 3)
  | MOVE_WIDE =>
      Some (op_move vreg_long set_vreg_long (VRegA_12x inst inst_data) (VRegB_12x inst inst_data) 1)
  | MOVE_WIDE_FROM16 =>
      Some (op_move vreg_long set_vreg_long (VRegA_22x inst inst_data) (VRegB_22x inst) 2)
  | MOVE_WIDE_16 => Some (op_move vreg_long set_vreg_long (VRegA_32x inst) (VRegB_32x inst) 3)
  | MOVE_OBJECT =>
      Some (op_move vreg_reference set_vreg_reference (VRegA_12x inst inst_data)
              (VRegB_12x inst inst_data) 1)
  | MOVE_OBJECT_FROM16 =>
      Some (op_move vreg_reference set_vreg_reference (VRegA_22x inst inst_data) (VRegB_22x inst) 2)
  | MOVE_OBJECT_16 =>
      Some (op_move vreg_reference set_vreg_reference (VRegA_32x inst) (VRegB_32x inst) 3)
  | MOVE_RESULT => Some (op_move_result JValue.GetI set_vreg)
  | MOVE_RESULT_WIDE => Some (op_move_result JValue.GetJ set_vreg_long)
  | MOVE_RESULT_OBJECT => Some (op_move_result JValue.GetL set_vreg_reference)
  | MOVE_EXCEPTION => Some op_move_exception
  | _ => None
  end.

(** ** Returns *)

(** [RETURN_OBJECT]: unlike in the switch interpreter, a failed check leaves the
    handler. *)
Definition op_return_object : goto_interp outcome :=
  act (run (emit AllowThreadSuspension));;
  vreg_index ← act (lift (VRegA_11x inst inst_data));
  obj_result ← act (vreg_reference vreg_index);
  if do_access_check && negb (obj_result =? 0) then
    method ← act (read GetMethod);
    return_type ← act (run (GetReturnType method));
    obj_result ← act (vreg_reference vreg_index);
    if return_type =? 0 then exception_pending_label
    else
      instance ← act (run (VerifierInstanceOf classes obj_result return_type));
      if negb instance then
        act (run (ThrowNew ThrowVirtualMachineError));; exception_pending_label
      else op_exit (JValue.SetL 0 obj_result)
  else op_exit (JValue.SetL 0 obj_result).

Definition op_returns (c : Code) : option (goto_interp outcome) :=
  match c with
  | RETURN_VOID =>
      Some (act (if do_access_check then run (emit ThreadFenceForConstructor) else mret tt);;
            act (run (emit AllowThreadSuspension));; op_exit 0)
  | RETURN_VOID_BARRIER =>
      Some (act (run (emit ThreadFenceForConstructor));;
            act (run (emit AllowThreadSuspension));; op_exit 0)
  | RETURN =>
      Some (a ← act (lift (VRegA_11x inst inst_data));
            v ← act (vreg a);
            act (run (emit AllowThreadSuspension));;
            op_exit (JValue.SetI (JValue.SetJ 0 0) v))
  | RETURN_WIDE =>
      Some (a ← act (lift (VRegA_11x inst inst_data));
            v ← act (vreg_long a);
            act (run (emit AllowThreadSuspension));;
            op_exit (JValue.SetJ 0 v))
  | RETURN_OBJECT => Some op_return_object
  | _ => None
  end.

(** ** Constants *)

Definition op_const (regA regB : res Z) (size : Z) : goto_interp outcome :=
  dst ← act (lift regA);
  val ← act (lift regB);
  act (set_vreg dst val);;
  act (if val =? 0 then set_vreg_reference dst 0 else mret tt);;
  ADVANCE size.

Definition op_const_wide (regA regB : res Z) (size : Z) : goto_interp outcome :=
  act (v ← lift regB; a ← lift regA; set_vreg_long a v);; ADVANCE size.

Definition op_const_string (regA regB : res Z) (size : Z) : goto_interp outcome :=
  string_idx ← act (lift regB);
  s ← act (ResolveString string_idx);
  if s =? 0 then exception_pending_label
  else act (a ← lift regA; set_vreg_reference a s);; ADVANCE size.

Definition op_const_class : goto_interp outcome :=
  c ← act (type_idx ← lift (VRegB_21c inst);
           method ← read GetMethod;
           run (ResolveVerifyAndClinit type_idx method false do_access_check));
  if c =? 0 then exception_pending_label
  else act (a ← lift (VRegA_21c inst inst_data); set_vreg_reference a c);; ADVANCE 2.

Definition op_constants (c : Code) : option (goto_interp outcome) :=
  match c with
  | CONST_4 => Some (op_const (VRegA_11n inst inst_data) (VRegB_11n inst inst_data) 1)
  | CONST_16 => Some (op_const (VRegA_21s inst inst_data) (VRegB_21s inst) 2)
  | CONST => Some (op_const (VRegA_31i inst inst_data) (VRegB_31i inst) 3)
  | CONST_HIGH16 =>
      Some (op_const (VRegA_21h inst inst_data)
              (b ← VRegB_21h inst; Ok (int32 (Z.shiftl b 16))) 2)
  | CONST_WIDE_16 => Some (op_const_wide (VRegA_21s inst inst_data) (VRegB_21s inst) 2)
  | CONST_WIDE_32 => Some (op_const_wide (VRegA_31i inst inst_data) (VRegB_31i inst) 3)
  | CONST_WIDE => Some (op_const_wide (VRegA_51l inst inst_data) (VRegB_51l inst) 5)
  | CONST_WIDE_HIGH16 =>
      Some (op_const_wide (VRegA_21h inst inst_data)
              (b ← VRegB_21h inst; Ok (uint64 (Z.shiftl b 48))) 2)
  | CONST_STRING => Some (op_const_string (VRegA_21c inst inst_data) (VRegB_21c inst) 2)
  | CONST_STRING_JUMBO => Some (op_const_string (VRegA_31c inst inst_data) (VRegB_31c inst) 3)
  | CONST_CLASS => Some op_const_class
  | _ => None
  end.

(** ** Objects *)

(** [bool success = operation; POSSIBLY_HANDLE_PENDING_EXCEPTION(!success, size)] *)
Definition op_attempt (operation : interp bool) (size : Z) : goto_interp outcome :=
  success ← act operation; advance_or_handle (negb success) size.

(** The null checks of the handlers. *)
Definition op_null_pointer : goto_interp outcome :=
  act ThrowNullPointerExceptionFromInterpreter;; exception_pending_label.

Definition op_monitor (operation : Z -> rt unit) : goto_interp outcome :=
  obj ← act (a ← lift (VRegA_11x inst inst_data); vreg_reference a);
  if obj =? 0 then op_null_pointer
  else act (run (operation obj));; p ← act pending; advance_or_handle p 1.

Definition op_check_cast : goto_interp outcome :=
  c ← act (type_idx ← lift (VRegB_21c inst);
           method ← read GetMethod;
           run (ResolveVerifyAndClinit type_idx method false do_access_check));
  if c =? 0 then exception_pending_label
  else
    obj ← act (a ← lift (VRegA_21c inst inst_data); vreg_reference a);
    bad ← act (if negb (obj =? 0) then negb <$> run (InstanceOf classes obj c) else mret false);
    if bad : bool then
      act (k ← run (GetClass obj); run (ThrowNew (ThrowClassCastException c k)));;
      exception_pending_label
    else ADVANCE 2.

Definition op_instance_of : goto_interp outcome :=
  c ← act (type_idx ← lift (VRegC_22c inst);
           method ← read GetMethod;
           run (ResolveVerifyAndClinit type_idx method false do_access_check));
  if c =? 0 then exception_pending_label
  else
    obj ← act (b ← lift (VRegB_22c inst inst_data); vreg_reference b);
    act (instance ← (if negb (obj =? 0) then run (InstanceOf classes obj c) else mret false);
         a ← lift (VRegA_22c inst inst_data);
         set_vreg a (if instance : bool then 1 else 0));;
    ADVANCE 2.

Definition op_array_length : goto_interp outcome :=
  array ← act (b ← lift (VRegB_12x inst inst_data); vreg_reference b);
  if array =? 0 then op_null_pointer
  else
    act (is_array ← run (IsArrayInstance classes array);
         run (dcheck_class is_array);;
         len ← run (GetLength array);
         a ← lift (VRegA_12x inst inst_data);
         set_vreg a len);;
    ADVANCE 1.

Definition op_new_instance : goto_interp outcome :=
  obj ← act (type_idx ← lift (VRegB_21c inst);
             method ← read GetMethod;
             run (AllocObjectFromCode do_access_check type_idx method));
  if obj =? 0 then exception_pending_label
  else
    c ← act (run (class_of classes obj));
    if transaction_active && has_access (access_flags_ c) kAccClassIsFinalizable then
      act AbortTransaction;; exception_pending_label
    else act (a ← lift (VRegA_21c inst inst_data); set_vreg_reference a obj);; ADVANCE 2.

Definition op_new_array : goto_interp outcome :=
  obj ← act (b ← lift (VRegB_22c inst inst_data);
             length ← vreg b;
             type_idx ← lift (VRegC_22c inst);
             method ← read GetMethod;
             run (AllocArrayFromCode do_access_check type_idx method length));
  if obj =? 0 then exception_pending_label
  else act (a ← lift (VRegA_22c inst inst_data); set_vreg_reference a obj);; ADVANCE 2.

Definition op_fill_array_data : goto_interp outcome :=
  offset ← act (lift (VRegB_31t inst));
  let payload := RelativeAt inst offset in
  obj ← act (a ← lift (VRegA_31t inst inst_data); vreg_reference a);
  success ← act (run (FillArrayData obj payload));
  act (if transaction_active && success then
         is_array ← run (IsArrayInstance classes obj);
         run (dcheck_class is_array);;
         count ← lift (Fetch32 payload 2);
         run (RecordArrayElementsInTransaction obj (int32 count))
       else mret tt);;
  advance_or_handle (negb success) 3.

Definition op_throw : goto_interp outcome :=
  e ← act (a ← lift (VRegA_11x inst inst_data); vreg_reference a);
  act (if e =? 0 then run (ThrowNew ThrowNullPointerException)
       else
         ok ← (if do_access_check then
                 k ← run (GetClass e);
                 lift (IsAssignableFrom classes java_lang_Throwable k)
               else mret true);
         if negb ok then run (ThrowNew ThrowVirtualMachineError)
         else
           k ← run (GetClass e);
           throwable ← lift (IsAssignableFrom classes java_lang_Throwable k);
           run (dcheck_class throwable);;
           GetCurrentLocationForThrow;;
           run (SetException e));;
  exception_pending_label.

Definition op_objects (c : Code) : option (goto_interp outcome) :=
  match c with
  | MONITOR_ENTER => Some (op_monitor Monitor_Enter)
  | MONITOR_EXIT => Some (op_monitor Monitor_Exit)
  | CHECK_CAST => Some op_check_cast
  | INSTANCE_OF => Some op_instance_of
  | ARRAY_LENGTH => Some op_array_length
  | NEW_INSTANCE => Some op_new_instance
  | NEW_ARRAY => Some op_new_array
  | FILLED_NEW_ARRAY =>
      Some (op_attempt (DoFilledNewArray false do_access_check transaction_active inst) 3)
  | FILLED_NEW_ARRAY_RANGE =>
      Some (op_attempt (DoFilledNewArray true do_access_check transaction_active inst) 3)
  | FILL_ARRAY_DATA => Some op_fill_array_data
  | THROW => Some op_throw
  | _ => None
  end.

(** ** Branches *)

Definition op_gotos (c : Code) : option (goto_interp outcome) :=
  match c with
  | GOTO => Some (offset ← act (lift (VRegA_10t inst inst_data)); op_branch offset)
  | GOTO_16 => Some (offset ← act (lift (VRegA_20t inst)); op_branch offset)
  | GOTO_32 => Some (offset ← act (lift (VRegA_30t inst)); op_branch offset)
  | PACKED_SWITCH =>
      Some (offset ← act (DoPackedSwitch insns_address inst inst_data); op_branch offset)
  | SPARSE_SWITCH =>
      Some (offset ← act (DoSparseSwitch insns_address inst inst_data); op_branch offset)
  | _ => None
  end.

Definition op_compare (get : Z -> interp Z) (result : Z -> Z -> Z) : goto_interp outcome :=
  val1 ← act (b ← lift (VRegB_23x inst); get b);
  val2 ← act (c ← lift (VRegC_23x inst); get c);
  act (a ← lift (VRegA_23x inst inst_data); set_vreg a (result val1 val2));;
  ADVANCE 2.

Definition op_compares (c : Code) : option (goto_interp outcome) :=
  match c with
  | CMPL_FLOAT => Some (op_compare vreg_float (cmpl (fp_lt float) (fp_eq float)))
  | CMPG_FLOAT => Some (op_compare vreg_float (cmpg (fp_lt float) (fp_eq float)))
  | CMPL_DOUBLE => Some (op_compare vreg_double (cmpl (fp_lt double) (fp_eq double)))
  | CMPG_DOUBLE => Some (op_compare vreg_double (cmpg (fp_lt double) (fp_eq double)))
  | CMP_LONG => Some (op_compare vreg_long (cmpl Z.ltb Z.eqb))
  | _ => None
  end.

Definition op_if_test (test : Z -> Z -> bool) : goto_interp outcome :=
  x ← act (a ← lift (VRegA_22t inst inst_data); vreg a);
  y ← act (b ← lift (VRegB_22t inst inst_data); vreg b);
  if test x y then offset ← act (lift (VRegC_22t inst)); op_branch offset else ADVANCE 2.

Definition op_if_testz (test : Z -> Z -> bool) : goto_interp outcome :=
  x ← act (a ← lift (VRegA_21t inst inst_data); vreg a);
  if test x 0 then offset ← act (lift (VRegB_21t inst)); op_branch offset else ADVANCE 2.

Definition op_ifs (c : Code) : option (goto_interp outcome) :=
  match c with
  | IF_EQ => Some (op_if_test Z.eqb)
  | IF_NE => Some (op_if_test (fun x y => negb (x =? y)))
  | IF_LT => Some (op_if_test Z.ltb)
  | IF_GE => Some (op_if_test Z.geb)
  | IF_GT => Some (op_if_test Z.gtb)
  | IF_LE => Some (op_if_test Z.leb)
  | IF_EQZ => Some (op_if_testz Z.eqb)
  | IF_NEZ => Some (op_if_testz (fun x y => negb (x =? y)))
  | IF_LTZ => Some (op_if_testz Z.ltb)
  | IF_GEZ => Some (op_if_testz Z.geb)
  | IF_GTZ => Some (op_if_testz Z.gtb)
  | IF_LEZ => Some (op_if_testz Z.leb)
  | _ => None
  end.

(** ** Arrays *)

Definition op_aget (k : FieldValueKind) (set : Z -> Z -> interp unit) : goto_interp outcome :=
  a ← act (b ← lift (VRegB_23x inst); vreg_reference b);
  if a =? 0 then op_null_pointer
  else
    index ← act (c ← lift (VRegC_23x inst); vreg c);
    act (run (as_element_array classes k a));;
    valid ← act (run (CheckIsValidIndex ThrowNew a index));
    if valid : bool then
      act (v ← run (GetWithoutChecks ThrowNew k a index);
           dst ← lift (VRegA_23x inst inst_data);
           set dst v);;
      ADVANCE 2
    else exception_pending_label.

Definition op_aget_object : goto_interp outcome :=
  a ← act (b ← lift (VRegB_23x inst); vreg_reference b);
  if a =? 0 then op_null_pointer
  else
    index ← act (c ← lift (VRegC_23x inst); vreg c);
    act (run (AsObjectArray classes a));;
    valid ← act (run (CheckIsValidIndex ThrowNew a index));
    if valid : bool then
      act (v ← run (ObjectArray_GetWithoutChecks ThrowNew a index);
           dst ← lift (VRegA_23x inst inst_data);
           set_vreg_reference dst v);;
      ADVANCE 2
    else exception_pending_label.

Definition op_agets (c : Code) : option (goto_interp outcome) :=
  match c with
  | AGET_BOOLEAN => Some (op_aget kBoolean set_vreg)
  | AGET_BYTE => Some (op_aget kByte set_vreg)
  | AGET_CHAR => Some (op_aget kChar set_vreg)
  | AGET_SHORT => Some (op_aget kShort set_vreg)
  | AGET => Some (op_aget k32Bits set_vreg)
  | AGET_WIDE => Some (op_aget k64Bits set_vreg_long)
  | AGET_OBJECT => Some op_aget_object
  | _ => None
  end.

Definition op_aput (k : FieldValueKind) (get : Z -> interp Z) : goto_interp outcome :=
  a ← act (b ← lift (VRegB_23x inst); vreg_reference b);
  if a =? 0 then op_null_pointer
  else
    val ← act (src ← lift (VRegA_23x inst inst_data); get src);
    index ← act (c ← lift (VRegC_23x inst); vreg c);
    act (run (as_element_array classes k a));;
    valid ← act (run (CheckIsValidIndex ThrowNew a index));
    if valid : bool then
      act (run (SetWithoutChecks classes ThrowNew transaction_active k a index (of_kind k val)));;
      ADVANCE 2
    else exception_pending_label.

Definition op_aput_object : goto_interp outcome :=
  a ← act (b ← lift (VRegB_23x inst); vreg_reference b);
  if a =? 0 then op_null_pointer
  else
    index ← act (c ← lift (VRegC_23x inst); vreg c);
    val ← act (src ← lift (VRegA_23x inst inst_data); vreg_reference src);
    act (run (AsObjectArray classes a));;
    assignable ← act (valid ← run (CheckIsValidIndex ThrowNew a index);
                      if valid : bool then run (CheckAssignable classes ThrowNew a val)
                      else mret false);
    if assignable : bool then
      act (run (ObjectArray_SetWithoutChecks classes ThrowNew transaction_active a index val));;
      ADVANCE 2
    else exception_pending_label.

Definition op_aputs (c : Code) : option (goto_interp outcome) :=
  match c with
  | APUT_BOOLEAN => Some (op_aput kBoolean vreg)
  | APUT_BYTE => Some (op_aput kByte vreg)
  | APUT_CHAR => Some (op_aput kChar vreg)
  | APUT_SHORT => Some (op_aput kShort vreg)
  | APUT => Some (op_aput k32Bits vreg)
  | APUT_WIDE => Some (op_aput k64Bits vreg_long)
  | APUT_OBJECT => Some op_aput_object
  | _ => None
  end.

(** ** Fields *)

Definition op_get_field (find_type : FindFieldType) (t : Primitive_Type) : goto_interp outcome :=
  op_attempt (DoFieldGet find_type t do_access_check inst inst_data) 2.
Definition op_get_quick (t : Primitive_Type) : goto_interp outcome :=
  op_attempt (DoIGetQuick t inst inst_data) 2.
Definition op_put_field (find_type : FindFieldType) (t : Primitive_Type) : goto_interp outcome :=
  op_attempt (DoFieldPut find_type t do_access_check transaction_active inst inst_data) 2.
Definition op_put_quick (t : Primitive_Type) : goto_interp outcome :=
  op_attempt (DoIPutQuick t transaction_active inst inst_data) 2.

Definition op_gets (c : Code) : option (goto_interp outcome) :=
  match c with
  | IGET_BOOLEAN => Some (op_get_field InstancePrimitiveRead kPrimBoolean)
  | IGET_BYTE => Some (op_get_field InstancePrimitiveRead kPrimByte)
  | IGET_CHAR => Some (op_get_field InstancePrimitiveRead kPrimChar)
  | IGET_SHORT => Some (op_get_field InstancePrimitiveRead kPrimShort)
  | IGET => Some (op_get_field InstancePrimitiveRead kPrimInt)
  | IGET_WIDE => Some (op_get_field InstancePrimitiveRead kPrimLong)
  | IGET_OBJECT => Some (op_get_field InstanceObjectRead kPrimNot)
  | IGET_QUICK => Some (op_get_quick kPrimInt)
  | IGET_WIDE_QUICK => Some (op_get_quick kPrimLong)
  | IGET_OBJECT_QUICK => Some (op_get_quick kPrimNot)
  | SGET_BOOLEAN => Some (op_get_field StaticPrimitiveRead kPrimBoolean)
  | SGET_BYTE => Some (op_get_field StaticPrimitiveRead kPrimByte)
  | SGET_CHAR => Some (op_get_field StaticPrimitiveRead kPrimChar)
  | SGET_SHORT => Some (op_get_field StaticPrimitiveRead kPrimShort)
  | SGET => Some (op_get_field StaticPrimitiveRead kPrimInt)
  | SGET_WIDE => Some (op_get_field StaticPrimitiveRead kPrimLong)
  | SGET_OBJECT => Some (op_get_field StaticObjectRead kPrimNot)
  | _ => None
  end.

Definition op_puts (c : Code) : option (goto_interp outcome) :=
  match c with
  | IPUT_BOOLEAN => Some (op_put_field InstancePrimitiveWrite kPrimBoolean)
  | IPUT_BYTE => Some (op_put_field InstancePrimitiveWrite kPrimByte)
  | IPUT_CHAR => Some (op_put_field InstancePrimitiveWrite kPrimChar)
  | IPUT_SHORT => Some (op_put_field InstancePrimitiveWrite kPrimShort)
  | IPUT => Some (op_put_field InstancePrimitiveWrite kPrimInt)
  | IPUT_WIDE => Some (op_put_field InstancePrimitiveWrite kPrimLong)
  | IPUT_OBJECT => Some (op_put_field InstanceObjectWrite kPrimNot)
  | IPUT_QUICK => Some (op_put_quick kPrimInt)
  | IPUT_BOOLEAN_QUICK => Some (op_put_quick kPrimBoolean)
  | IPUT_BYTE_QUICK => Some (op_put_quick kPrimByte)
  | IPUT_CHAR_QUICK => Some (op_put_quick kPrimChar)
  | IPUT_SHORT_QUICK => Some (op_put_quick kPrimShort)
  | IPUT_WIDE_QUICK => Some (op_put_quick kPrimLong)
  | IPUT_OBJECT_QUICK => Some (op_put_quick kPrimNot)
  | SPUT_BOOLEAN => Some (op_put_field StaticPrimitiveWrite kPrimBoolean)
  | SPUT_BYTE => Some (op_put_field StaticPrimitiveWrite kPrimByte)
  | SPUT_CHAR => Some (op_put_field StaticPrimitiveWrite kPrimChar)
  | SPUT_SHORT => Some (op_put_field StaticPrimitiveWrite kPrimShort)
  | SPUT => Some (op_put_field StaticPrimitiveWrite kPrimInt)
  | SPUT_WIDE => Some (op_put_field StaticPrimitiveWrite kPrimLong)
  | SPUT_OBJECT => Some (op_put_field StaticObjectWrite kPrimNot)
  | _ => None
  end.

(** ** Calls *)

(** The callee may have changed the instrumentation. *)
Definition op_invoke (operation : interp bool) : goto_interp outcome :=
  success ← act operation; UPDATE_HANDLER_TABLE;; advance_or_handle (negb success) 3.

Definition op_invokes (c : Code) : option (goto_interp outcome) :=
  match c with
  | INVOKE_VIRTUAL => Some (op_invoke (DoInvoke kVirtual false do_access_check inst inst_data))
  | INVOKE_VIRTUAL_RANGE => Some (op_invoke (DoInvoke kVirtual true do_access_check inst inst_data))
  | INVOKE_SUPER => Some (op_invoke (DoInvoke kSuper false do_access_check inst inst_data))
  | INVOKE_SUPER_RANGE => Some (op_invoke (DoInvoke kSuper true do_access_check inst inst_data))
  | INVOKE_DIRECT => Some (op_invoke (DoInvoke kDirect false do_access_check inst inst_data))
  | INVOKE_DIRECT_RANGE => Some (op_invoke (DoInvoke kDirect true do_access_check inst inst_data))
  | INVOKE_INTERFACE => Some (op_invoke (DoInvoke kInterface false do_access_check inst inst_data))
  | INVOKE_INTERFACE_RANGE => Some (op_invoke (DoInvoke kInterface true do_access_check inst inst_data))
  | INVOKE_STATIC => Some (op_invoke (DoInvoke kStatic false do_access_check inst inst_data))
  | INVOKE_STATIC_RANGE => Some (op_invoke (DoInvoke kStatic true do_access_check inst inst_data))
  | INVOKE_VIRTUAL_QUICK => Some (op_invoke (DoInvokeVirtualQuick false inst inst_data))
  | INVOKE_VIRTUAL_RANGE_QUICK => Some (op_invoke (DoInvokeVirtualQuick true inst inst_data))
  | _ => None
  end.

(** ** Unary operators and conversions *)

Definition op_unary (get : Z -> interp Z) (set : Z -> Z -> interp unit) (op : Z -> Z)
    : goto_interp outcome :=
  x ← act (b ← lift (VRegB_12x inst inst_data); get b);
  act (a ← lift (VRegA_12x inst inst_data); set a (op x));;
  ADVANCE 1.

Definition op_unaries (c : Code) : option (goto_interp outcome) :=
  match c with
  | NEG_INT => Some (op_unary vreg set_vreg Z.opp)
  | NOT_INT => Some (op_unary vreg set_vreg Z.lnot)
  | NEG_LONG => Some (op_unary vreg_long set_vreg_long Z.opp)
  | NOT_LONG => Some (op_unary vreg_long set_vreg_long Z.lnot)
  | NEG_FLOAT => Some (op_unary vreg_float set_vreg_float (fp_neg float))
  | NEG_DOUBLE => Some (op_unary vreg_double set_vreg_double (fp_neg double))
  | INT_TO_LONG => Some (op_unary vreg set_vreg_long id)
  | INT_TO_FLOAT => Some (op_unary vreg set_vreg_float (fp_of_int float))
  | INT_TO_DOUBLE => Some (op_unary vreg set_vreg_double (fp_of_int double))
  | LONG_TO_INT => Some (op_unary vreg_long set_vreg id)
  | LONG_TO_FLOAT => Some (op_unary vreg_long set_vreg_float (fp_of_int float))
  | LONG_TO_DOUBLE => Some (op_unary vreg_long set_vreg_double (fp_of_int double))
  | FLOAT_TO_INT => Some (op_unary vreg_float set_vreg (art_float_to_integral float 32))
  | FLOAT_TO_LONG => Some (op_unary vreg_float set_vreg_long (art_float_to_integral float 64))
  | FLOAT_TO_DOUBLE => Some (op_unary vreg_float set_vreg_double (convert float double))
  | DOUBLE_TO_INT => Some (op_unary vreg_double set_vreg (art_float_to_integral double 32))
  | DOUBLE_TO_LONG => Some (op_unary vreg_double set_vreg_long (art_float_to_integral double 64))
  | DOUBLE_TO_FLOAT => Some (op_unary vreg_double set_vreg_float (convert double float))
  | INT_TO_BYTE => Some (op_unary vreg set_vreg int8)
  | INT_TO_CHAR => Some (op_unary vreg set_vreg uint16)
  | INT_TO_SHORT => Some (op_unary vreg set_vreg int16)
  | _ => None
  end.

(** ** Binary operators *)

Definition op_binary_23x (get getC : Z -> interp Z) (set : Z -> Z -> interp unit)
    (op : Z -> Z -> Z) : goto_interp outcome :=
  act (b ← lift (VRegB_23x inst); x ← get b;
       c ← lift (VRegC_23x inst); y ← getC c;
       a ← lift (VRegA_23x inst inst_data); set a (op x y));;
  ADVANCE 2.

Definition op_binary_12x (get getB : Z -> interp Z) (set : Z -> Z -> interp unit)
    (op : Z -> Z -> Z) : goto_interp outcome :=
  vregA ← act (lift (VRegA_12x inst inst_data));
  act (x ← get vregA; b ← lift (VRegB_12x inst inst_data); y ← getB b; set vregA (op x y));;
  ADVANCE 1.

Definition op_binary_lit16 (op : Z -> Z -> Z) : goto_interp outcome :=
  act (b ← lift (VRegB_22s inst inst_data); x ← vreg b;
       c ← lift (VRegC_22s inst);
       a ← lift (VRegA_22s inst inst_data); set_vreg a (op x c));;
  ADVANCE 2.

Definition op_binary_lit8 (op : Z -> Z -> Z) : goto_interp outcome :=
  act (b ← lift (VRegB_22b inst); x ← vreg b;
       c ← lift (VRegC_22b inst);
       a ← lift (VRegA_22b inst inst_data); set_vreg a (op x c));;
  ADVANCE 2.

(** Division goes by the returned flag, of [long]s too. *)
Definition op_divide_23x (get : Z -> interp Z) (divide : Z -> Z -> Z -> interp bool)
    : goto_interp outcome :=
  op_attempt
    (c ← lift (VRegC_23x inst); y ← get c;
     b ← lift (VRegB_23x inst); x ← get b;
     a ← lift (VRegA_23x inst inst_data); divide a x y) 2.

Definition op_divide_12x (get : Z -> interp Z) (divide : Z -> Z -> Z -> interp bool)
    : goto_interp outcome :=
  vregA ← act (lift (VRegA_12x inst inst_data));
  op_attempt
    (b ← lift (VRegB_12x inst inst_data); y ← get b; x ← get vregA; divide vregA x y) 1.

Definition op_divide_lit16 (divide : Z -> Z -> Z -> interp bool) : goto_interp outcome :=
  op_attempt
    (c ← lift (VRegC_22s inst);
     b ← lift (VRegB_22s inst inst_data); x ← vreg b;
     a ← lift (VRegA_22s inst inst_data); divide a x c) 2.

Definition op_divide_lit8 (divide : Z -> Z -> Z -> interp bool) : goto_interp outcome :=
  op_attempt
    (c ← lift (VRegC_22b inst);
     b ← lift (VRegB_22b inst); x ← vreg b;
     a ← lift (VRegA_22b inst inst_data); divide a x c) 2.

Definition op_int (c : Code) : option (goto_interp outcome) :=
  match c with
  | ADD_INT => Some (op_binary_23x vreg vreg set_vreg (SafeAdd Int32 Int32))
  | SUB_INT => Some (op_binary_23x vreg vreg set_vreg (SafeSub Int32 Int32))
  | MUL_INT => Some (op_binary_23x vreg vreg set_vreg (SafeMul Int32 Int32))
  | DIV_INT => Some (op_divide_23x vreg DoIntDivide)
  | REM_INT => Some (op_divide_23x vreg DoIntRemainder)
  | SHL_INT => Some (op_binary_23x vreg vreg set_vreg shl_int)
  | SHR_INT => Some (op_binary_23x vreg vreg set_vreg shr_int)
  | USHR_INT => Some (op_binary_23x vreg vreg set_vreg ushr_int)
  | AND_INT => Some (op_binary_23x vreg vreg set_vreg Z.land)
  | OR_INT => Some (op_binary_23x vreg vreg set_vreg Z.lor)
  | XOR_INT => Some (op_binary_23x vreg vreg set_vreg Z.lxor)
  | _ => None
  end.

Definition op_long (c : Code) : option (goto_interp outcome) :=
  match c with
  | ADD_LONG => Some (op_binary_23x vreg_long vreg_long set_vreg_long (SafeAdd Int64 Int64))
  | SUB_LONG => Some (op_binary_23x vreg_long vreg_long set_vreg_long (SafeSub Int64 Int64))
  | MUL_LONG => Some (op_binary_23x vreg_long vreg_long set_vreg_long (SafeMul Int64 Int64))
  | DIV_LONG => Some (op_divide_23x vreg_long DoLongDivide)
  | REM_LONG => Some (op_divide_23x vreg_long DoLongRemainder)
  | AND_LONG => Some (op_binary_23x vreg_long vreg_long set_vreg_long Z.land)
  | OR_LONG => Some (op_binary_23x vreg_long vreg_long set_vreg_long Z.lor)
  | XOR_LONG => Some (op_binary_23x vreg_long vreg_long set_vreg_long Z.lxor)
  | SHL_LONG => Some (op_binary_23x vreg_long vreg set_vreg_long shl_long)
  | SHR_LONG => Some (op_binary_23x vreg_long vreg set_vreg_long shr_long)
  | USHR_LONG => Some (op_binary_23x vreg_long vreg set_vreg_long ushr_long)
  | _ => None
  end.

Definition op_float (c : Code) : option (goto_interp outcome) :=
  match c with
  | ADD_FLOAT => Some (op_binary_23x vreg_float vreg_float set_vreg_float (fp_add float))
  | SUB_FLOAT => Some (op_binary_23x vreg_float vreg_float set_vreg_float (fp_sub float))
  | MUL_FLOAT => Some (op_binary_23x vreg_float vreg_float set_vreg_float (fp_mul float))
  | DIV_FLOAT => Some (op_binary_23x vreg_float vreg_float set_vreg_float (fp_div float))
  | REM_FLOAT => Some (op_binary_23x vreg_float vreg_float set_vreg_float (fp_rem float))
  | ADD_DOUBLE => Some (op_binary_23x vreg_double vreg_double set_vreg_double (fp_add double))
  | SUB_DOUBLE => Some (op_binary_23x vreg_double vreg_double set_vreg_double (fp_sub double))
  | MUL_DOUBLE => Some (op_binary_23x vreg_double vreg_double set_vreg_double (fp_mul double))
  | DIV_DOUBLE => Some (op_binary_23x vreg_double vreg_double set_vreg_double (fp_div double))
  | REM_DOUBLE => Some (op_binary_23x vreg_double vreg_double set_vreg_double (fp_rem double))
  | _ => None
  end.

Definition op_int_2addr (c : Code) : option (goto_interp outcome) :=
  match c with
  | ADD_INT_2ADDR => Some (op_binary_12x vreg vreg set_vreg (SafeAdd Int32 Int32))
  | SUB_INT_2ADDR => Some (op_binary_12x vreg vreg set_vreg (SafeSub Int32 Int32))
  | MUL_INT_2ADDR => Some (op_binary_12x vreg vreg set_vreg (SafeMul Int32 Int32))
  | DIV_INT_2ADDR => Some (op_divide_12x vreg DoIntDivide)
  | REM_INT_2ADDR => Some (op_divide_12x vreg DoIntRemainder)
  | SHL_INT_2ADDR => Some (op_binary_12x vreg vreg set_vreg shl_int)
  | SHR_INT_2ADDR => Some (op_binary_12x vreg vreg set_vreg shr_int)
  | USHR_INT_2ADDR => Some (op_binary_12x vreg vreg set_vreg ushr_int)
  | AND_INT_2ADDR => Some (op_binary_12x vreg vreg set_vreg Z.land)
  | OR_INT_2ADDR => Some (op_binary_12x vreg vreg set_vreg Z.lor)
  | XOR_INT_2ADDR => Some (op_binary_12x vreg vreg set_vreg Z.lxor)
  | _ => None
  end.

Definition op_long_2addr (c : Code) : option (goto_interp outcome) :=
  match c with
  | ADD_LONG_2ADDR => Some (op_binary_12x vreg_long vreg_long set_vreg_long (SafeAdd Int64 Int64))
  | SUB_LONG_2ADDR => Some (op_binary_12x vreg_long vreg_long set_vreg_long (SafeSub Int64 Int64))
  | MUL_LONG_2ADDR => Some (op_binary_12x vreg_long vreg_long set_vreg_long (SafeMul Int64 Int64))
  | DIV_LONG_2ADDR => Some (op_divide_12x vreg_long DoLongDivide)
  | REM_LONG_2ADDR => Some (op_divide_12x vreg_long DoLongRemainder)
  | AND_LONG_2ADDR => Some (op_binary_12x vreg_long vreg_long set_vreg_long Z.land)
  | OR_LONG_2ADDR => Some (op_binary_12x vreg_long vreg_long set_vreg_long Z.lor)
  | XOR_LONG_2ADDR => Some (op_binary_12x vreg_long vreg_long set_vreg_long Z.lxor)
  | SHL_LONG_2ADDR => Some (op_binary_12x vreg_long vreg set_vreg_long shl_long)
  | SHR_LONG_2ADDR => Some (op_binary_12x vreg_long vreg set_vreg_long shr_long)
  | USHR_LONG_2ADDR => Some (op_binary_12x vreg_long vreg set_vreg_long ushr_long)
  | _ => None
  end.

Definition op_float_2addr (c : Code) : option (goto_interp outcome) :=
  match c with
  | ADD_FLOAT_2ADDR => Some (op_binary_12x vreg_float vreg_float set_vreg_float (fp_add float))
  | SUB_FLOAT_2ADDR => Some (op_binary_12x vreg_float vreg_float set_vreg_float (fp_sub float))
  | MUL_FLOAT_2ADDR => Some (op_binary_12x vreg_float vreg_float set_vreg_float (fp_mul float))
  | DIV_FLOAT_2ADDR => Some (op_binary_12x vreg_float vreg_float set_vreg_float (fp_div float))
  | REM_FLOAT_2ADDR => Some (op_binary_12x vreg_float vreg_float set_vreg_float (fp_rem float))
  | ADD_DOUBLE_2ADDR => Some (op_binary_12x vreg_double vreg_double set_vreg_double (fp_add double))
  | SUB_DOUBLE_2ADDR => Some (op_binary_12x vreg_double vreg_double set_vreg_double (fp_sub double))
  | MUL_DOUBLE_2ADDR => Some (op_binary_12x vreg_double vreg_double set_vreg_double (fp_mul double))
  | DIV_DOUBLE_2ADDR => Some (op_binary_12x vreg_double vreg_double set_vreg_double (fp_div double))
  | REM_DOUBLE_2ADDR => Some (op_binary_12x vreg_double vreg_double set_vreg_double (fp_rem double))
  | _ => None
  end.

Definition op_lit16 (c : Code) : option (goto_interp outcome) :=
  match c with
  | ADD_INT_LIT16 => Some (op_binary_lit16 (SafeAdd Int32 Int16))
  | RSUB_INT => Some (op_binary_lit16 (fun x c => SafeSub Int16 Int32 c x))
  | MUL_INT_LIT16 => Some (op_binary_lit16 (SafeMul Int32 Int16))
  | DIV_INT_LIT16 => Some (op_divide_lit16 DoIntDivide)
  | REM_INT_LIT16 => Some (op_divide_lit16 DoIntRemainder)
  | AND_INT_LIT16 => Some (op_binary_lit16 Z.land)
  | OR_INT_LIT16 => Some (op_binary_lit16 Z.lor)
  | XOR_INT_LIT16 => Some (op_binary_lit16 Z.lxor)
  | _ => None
  end.

Definition op_lit8 (c : Code) : option (goto_interp outcome) :=
  match c with
  | ADD_INT_LIT8 => Some (op_binary_lit8 (SafeAdd Int32 Int8))
  | RSUB_INT_LIT8 => Some (op_binary_lit8 (fun x c => SafeSub Int8 Int32 c x))
  | MUL_INT_LIT8 => Some (op_binary_lit8 (SafeMul Int32 Int8))
  | DIV_INT_LIT8 => Some (op_divide_lit8 DoIntDivide)
  | REM_INT_LIT8 => Some (op_divide_lit8 DoIntRemainder)
  | AND_INT_LIT8 => Some (op_binary_lit8 Z.land)
  | OR_INT_LIT8 => Some (op_binary_lit8 Z.lor)
  | XOR_INT_LIT8 => Some (op_binary_lit8 Z.lxor)
  | SHL_INT_LIT8 => Some (op_binary_lit8 shl_int)
  | SHR_INT_LIT8 => Some (op_binary_lit8 shr_int)
  | USHR_INT_LIT8 => Some (op_binary_lit8 ushr_int)
  | _ => None
  end.

(** ** The tables *)

Definition op_unexpected : goto_interp outcome := act (lift (Fault Fatal)).

Fixpoint first_handler (l : list (option (goto_interp outcome))) : goto_interp outcome :=
  match l with
  | [] => op_unexpected
  | Some h :: _ => h
  | None :: l => first_handler l
  end.

(** The handler [op_c] of the main table. *)
Definition main_op (c : Code) : goto_interp outcome :=
  first_handler
    [ op_moves c; op_returns c; op_constants c; op_objects c; op_gotos c; op_compares c; op_ifs c;
      op_agets c; op_aputs c; op_gets c; op_puts c; op_invokes c; op_unaries c; op_int c; op_long c;
      op_float c; op_int_2addr c; op_long_2addr c; op_float_2addr c; op_lit16 c; op_lit8 c ].

(** What the handler [alt_op_c] does before it jumps to [op_c]. *)
Definition alt_prelude (c : Code) : goto_interp unit :=
  match c with
  | RETURN_VOID | RETURN_VOID_BARRIER | RETURN | RETURN_WIDE | RETURN_OBJECT => mret tt
  | _ =>
      pc ← gets dex_pc;
      act (notified ← gets notified_method_entry_event;
           if negb notified then
             if HasDexPcListeners then
               this_object ← GetThisObject_ins (ins_size_ code_item);
               read GetMethod;;
               run (emit (DexPcMovedEvent this_object pc))
             else mret tt
           else modify (fun s => with_notified s false))
  end.

Definition alt_op (c : Code) : goto_interp outcome :=
  alt_prelude c;; UPDATE_HANDLER_TABLE;; main_op c.

Definition handlersTable (table : InterpreterHandlerTable) (c : Code) : goto_interp outcome :=
  match table with kMainHandlerTable => main_op c | kAlternativeHandlerTable => alt_op c end.
End Instruction.

(** The end of [ADVANCE] and the handler it jumps to. *)
Definition dispatch (inst : Instruction) : goto_interp outcome :=
  inst_data ← act (lift (Fetch16 inst 0));
  opcode ← act (lift (Opcode_data inst inst_data));
  table ← gets currentHandlersTable;
  handlersTable inst inst_data table opcode.

Fixpoint handlers (fuel : nat) (inst : Instruction) : goto_interp Z :=
  match fuel with
  | O => act (lift (Fault OutOfFuel))
  | S fuel =>
      o ← dispatch inst;
      match o with Goto inst => handlers fuel inst | Return result => mret result end
  end.

(** The body, on the locals of the function. *)
Definition goto_body (fuel : nat) : goto_interp Z :=
  UPDATE_HANDLER_TABLE;;
  pc ← gets dex_pc;
  act (if (pc =? 0) && HasMethodEntryListeners then
         this ← GetThisObject_ins (ins_size_ code_item);
         read GetMethod;;
         run (emit (MethodEnterEvent this 0));;
         modify (fun s => with_notified s true)
       else modify (fun s => with_notified s false));;
  o ← ADVANCE (At (insns_ code_item) pc) 0;
  match o with Goto inst => handlers fuel inst | Return result => mret result end.

(** The whole function, for at most [fuel] instructions. *)
Definition ExecuteGotoImpl (fuel : nat) : interp Z := fun s =>
  match goto_body fuel (MkGoto s kMainHandlerTable (GetDexPC (frame s))) with
  | Ok (result, g) => Ok (result, machine g)
  | Fault f => Fault f
  end.
End ExecuteGotoImpl.
