(* ===== verification/InterpreterEquivalence.v ===== *)
(** * The two interpreters agree

    [ExecuteGotoImpl] and [ExecuteSwitchImpl] are two implementations of the same
    function.  [mirrors] relates a handler of the one with a case of the other: on a
    settled state they end alike, and the handler leaves the state of the next turn
    settled.  It is proved handler by handler with rules that follow the structure of
    the computations, [act] being a morphism between the two monads.

    The interpreters differ in two places.  A failed check in [RETURN_OBJECT] leaves
    the handler but not the case of the switch; and the switch goes by the pending
    exception after a division of [long]s, the handler by the result of the division. *)

From S2P Require Import Prelude Modifiers Leb128 DexOpcodes DexInstruction DexCode StaticVerifier StaticVerifierFacts StaticVerifierTheorems ShadowFrame Float Memory ClassHierarchy Heap Transactions InterpreterCommon InterpreterSwitch InterpreterLogic InterpreterSafety InterpreterSteps InterpreterTheorems InterpreterRun InterpreterArithmetic InterpreterGrowth InterpreterSuspension InterpreterGoto.

(** ** [act] is a morphism *)

Section Morphism.
Lemma act_bind {A B C} (m : interp A) (f : A -> interp B) (h : B -> goto_interp C) g :
  (act (m ≫= f) ≫= h) g = (act m ≫= fun a => act (f a) ≫= h) g.
Proof. unfold act, mbind, M_bind; cbn. by destruct (m (machine g)) as [[a s]|]. Qed.
Lemma act_ret {A C} (a : A) (h : A -> goto_interp C) g : (act (mret a) ≫= h) g = h a g.
Proof. by destruct g. Qed.
Lemma act_step {A C} (m : interp A) (h : A -> goto_interp C) g a s :
  m (machine g) = Ok (a, s) ->
  (act m ≫= h) g = h a (MkGoto s (currentHandlersTable g) (dex_pc g)).
Proof. intros H. unfold act, mbind, M_bind; cbn. by rewrite H. Qed.
Lemma act_fault {A C} (m : interp A) (h : A -> goto_interp C) g f :
  m (machine g) = Fault f -> (act m ≫= h) g = Fault f.
Proof. intros H. unfold act, mbind, M_bind; cbn. by rewrite H. Qed.
End Morphism.

(** ** Computations that leave the pending exception alone *)

Definition exception_kept (s s' : Interp) : Prop := exception (world s') = exception (world s).
#[export] Instance exception_kept_preorder : PreOrder exception_kept.
Proof. unfold exception_kept. split; repeat intro; [done|by etrans]. Qed.
Lemma kept_emit e : advances exception_kept (run (emit e)).
Proof. intros s u s' H. unfold run, emit, modify in H. by injection H as <- <-. Qed.

(** Opcodes whose case goes by the pending exception. *)
Definition long_division (c : Code) : bool :=
  match c with
  | DIV_LONG | REM_LONG | DIV_LONG_2ADDR | REM_LONG_2ADDR => true
  | _ => false
  end.

(** ** Handlers that mirror cases *)

Section Mirrors.
Context {R : Runtime} (unwind : bool) (flags : World -> bool).
Local Abbreviation table := (GetInterpreterHandlerTable unwind).

Definition at_pc (s : Interp) (pc : Z) : Interp := with_frame s (SetDexPC (frame s) pc).

(** The locals of the function when control is at [inst]. *)
Definition settled (inst : Instruction) (g : GotoState) : Prop :=
  currentHandlersTable g = table /\ dex_pc g = GetDexPc inst.

(** What a case of the switch leads to, with the locals of the other function. *)
Definition settle (inst : Instruction) (m : interp outcome) : goto_interp outcome := fun g =>
  match m (machine g) with
  | Ok (Goto i, s) => Ok (Goto i, MkGoto (at_pc s (GetDexPc i)) table (GetDexPc i))
  | Ok (Return r, s) => Ok (Return r, MkGoto s table (GetDexPc inst))
  | Fault f => Fault f
  end.

Definition mirrors (inst : Instruction) (P : Interp -> Prop) (h : goto_interp outcome)
    (m : interp outcome) : Prop :=
  forall g, settled inst g -> P (machine g) -> h g = settle inst m g.

Abbreviation always := (fun _ : Interp => True).

Section Rules.
Context (inst : Instruction).

Lemma mirrors_act_pre {A} (P : Interp -> Prop) (Q : A -> Interp -> Prop) (m : interp A) h k :
  (forall s a s', P s -> m s = Ok (a, s') -> Q a s') ->
  (forall a, mirrors inst (Q a) (h a) (k a)) -> mirrors inst P (act m ≫= h) (m ≫= k).
Proof.
  intros Hm Hh g [Ht Hd] HP. unfold settle. destruct (m (machine g)) as [[a s]|f] eqn:E.
  - rewrite (act_step _ _ _ _ _ E), (Hh a); [|done|by eapply Hm].
    unfold settle. cbn. by rewrite (M_bind_step _ _ _ _ _ E).
  - rewrite (act_fault _ _ _ _ E). unfold mbind, M_bind. by rewrite E.
Qed.

Lemma mirrors_act {A} (m : interp A) h k :
  (forall s a s', m s = Ok (a, s') -> mirrors inst always (h a) (k a)) ->
  mirrors inst always (act m ≫= h) (m ≫= k).
Proof.
  intros Hm. apply mirrors_act_pre with (Q := fun a _ => exists s s', m s = Ok (a, s')); [eauto|].
  intros a g Hg (s & s' & E). by apply (Hm _ _ _ E).
Qed.

Lemma mirrors_assoc {A B} P (m : interp A) (f : A -> interp B) h k :
  mirrors inst P (act m ≫= fun a => act (f a) ≫= h) k -> mirrors inst P (act (m ≫= f) ≫= h) k.
Proof. intros H g Hg HP. rewrite act_bind. by apply H. Qed.

Lemma mirrors_act_ret {A} P (a : A) h k :
  mirrors inst P (h a) k -> mirrors inst P (act (mret a) ≫= h) k.
Proof. intros H g Hg HP. rewrite act_ret. by apply H. Qed.

Lemma mirrors_ret_bind {A} P (a : A) h k :
  mirrors inst P h (k a) -> mirrors inst P h (mret a ≫= k).
Proof. done. Qed.

Lemma mirrors_fault P f : mirrors inst P (act (lift (Fault f))) (lift (Fault f)).
Proof. done. Qed.

Lemma mirrors_update P h k :
  mirrors inst P h k -> mirrors inst P (UPDATE_HANDLER_TABLE unwind;; h) k.
Proof.
  intros H [s t pc] [Ht Hd] HP. cbn in *. subst. by apply (H (MkGoto s table (GetDexPc inst))).
Qed.

Lemma pc_moved off :
  uint32 (int32 (GetDexPc inst) + int32 off) = GetDexPc (RelativeAt inst (int32 off)).
Proof. unfold GetDexPc, RelativeAt. cbn [pos]. int_lia. Qed.

Lemma mirrors_ADVANCE P off k :
  (forall s, k s = Ok (Goto (RelativeAt inst (int32 off)), s)) -> mirrors inst P (ADVANCE inst off) k.
Proof.
  intros Hk [s t pc] [Ht Hd] HP. cbn in *. subst. unfold settle, ADVANCE. cbn.
  rewrite Hk. unfold mbind, M_bind, modify, gets, act, mret, M_ret. cbn. by rewrite pc_moved.
Qed.

Lemma mirrors_suspend P h k :
  mirrors inst always h k ->
  mirrors inst P (suspend_check unwind flags;; h) (run (emit AllowThreadSuspension);; k).
Proof.
  intros H [s t pc] [Ht Hd] _. cbn in *. subst. unfold suspend_check, settle.
  rewrite M_bind_assoc, M_bind_gets, M_bind_assoc. cbn.
  erewrite act_step; [|done]. cbn.
  set (s' := with_world s _). pose proof (H (MkGoto s' table (GetDexPc inst))) as H'.
  by destruct (flags (world s)); apply H'.
Qed.

Lemma mirrors_if P (b : bool) h1 h2 k1 k2 :
  (b = true -> mirrors inst P h1 k1) -> (b = false -> mirrors inst P h2 k2) ->
  mirrors inst P (if b then h1 else h2) (if b then k1 else k2).
Proof. destruct b; auto. Qed.

Lemma mirrors_weaken (P : Interp -> Prop) h k : mirrors inst always h k -> mirrors inst P h k.
Proof. intros H g Hg _. by apply H. Qed.

Lemma mirrors_pc_bind P h k :
  mirrors inst P (h (GetDexPc inst)) k -> mirrors inst P (pc ← gets dex_pc; h pc) k.
Proof. intros H [s t pc] [Ht Hd] HP. cbn in *. subst. by apply (H (MkGoto s _ _)). Qed.

Lemma mirrors_return P r : mirrors inst P (mret (Return r)) (mret (Return r)).
Proof. intros [s t pc] [Ht Hd] _. cbn in *. by subst. Qed.

Lemma int32_int32 x : int32 (int32 x) = int32 x.
Proof. apply wrapS_id; [done|by apply wrapS_fits]. Qed.

Lemma mirrors_exception P :
  mirrors inst P (exception_pending_label unwind flags inst) (HANDLE_PENDING_EXCEPTION inst).
Proof.
  apply mirrors_weaken. unfold exception_pending_label, HANDLE_PENDING_EXCEPTION.
  do 2 (apply mirrors_act; intros ? ? ? _). apply mirrors_suspend, mirrors_pc_bind.
  apply mirrors_act; intros ? ? ? _. apply mirrors_if; intros _; [apply mirrors_return|].
  apply mirrors_ADVANCE. intros ?. by rewrite int32_int32.
Qed.

Lemma mirrors_branch P off : int32 off = off ->
  mirrors inst P (op_branch unwind flags inst off) (branch inst off).
Proof.
  intros Hoff. apply mirrors_weaken. unfold op_branch, branch. destruct (IsBackwardBranch off).
  - apply mirrors_suspend, mirrors_ADVANCE. intros s. by rewrite Hoff.
  - intros g Hg _. apply (mirrors_ADVANCE always off); [intros; by rewrite Hoff|done..].
Qed.

(** The instrumentation of the two functions. *)
Definition prelude (ci : CodeItem) : interp unit :=
  notified ← gets notified_method_entry_event;
  if notified : bool then modify (fun s => with_notified s false)
  else if HasDexPcListeners then dex_pc_moved ci inst else mret tt.

Lemma prelude_exception ci : advances exception_kept (prelude ci).
Proof. advance_with ltac:(apply kept_emit) ltac:(done). Qed.

Lemma mirrors_prelude c ci (P : Interp -> Prop) h k :
  Opcode inst = Ok c -> has_flag (kInstructionFlags c) kReturn = false ->
  (forall s s', exception (world s') = exception (world s) -> P s -> P s') ->
  mirrors inst P h k -> mirrors inst P (alt_prelude ci c;; h) (PREAMBLE ci inst;; k).
Proof.
  intros Hc Hr HP H [s t pc] [Ht Hd] Hp. cbn in *. subst.
  assert (alt_prelude ci c = alt_prelude ci NOP) as -> by (by destruct c).
  trans ((act (prelude ci);; h) (MkGoto s table (GetDexPc inst))).
  { unfold alt_prelude, prelude, act, mbind, M_bind, gets. cbn.
    by destruct (notified_method_entry_event s). }
  rewrite (mirrors_act_pre P (fun _ => P) (prelude ci) _ (fun _ => k)); [|..|done|done].
  - unfold settle, PREAMBLE, IsReturn. cbn. rewrite Hc. cbn. rewrite Hr. done.
  - intros ? ? ? Hs E. eapply HP; [exact (prelude_exception _ _ _ _ E)|done].
  - done.
Qed.

Lemma mirrors_no_prelude c ci P h k :
  alt_prelude ci c = mret tt -> mirrors inst P h k -> mirrors inst P (alt_prelude ci c;; h) k.
Proof. by intros ->. Qed.

(** The division of [long]s. *)
Definition no_exception (s : Interp) : Prop := exception (world s) = 0.

Lemma mirrors_excepting c h k : long_division c = true ->
  mirrors inst no_exception h k ->
  mirrors inst (fun s => long_division c = true -> no_exception s) h k.
Proof. intros Hc H g Hg HP. by apply H, HP. Qed.

Lemma mirrors_read {A} (m : interp A) h k :
  advances exception_kept m -> (forall a, mirrors inst no_exception (h a) (k a)) ->
  mirrors inst no_exception (act m ≫= h) (m ≫= k).
Proof.
  intros Hm H. apply (mirrors_act_pre _ (fun _ => no_exception)); [|done].
  intros s a s' Hs E. unfold no_exception. by rewrite (Hm _ _ _ E).
Qed.

Lemma mirrors_flag (divide : interp bool) off next :
  (forall s b s', no_exception s -> divide s = Ok (b, s') ->
    exception (world s') = 0 <-> b = true) ->
  mirrors inst always (ADVANCE inst off) next ->
  mirrors inst no_exception (op_attempt unwind flags inst divide off)
    (divide;; p ← pending; POSSIBLY_HANDLE_PENDING_EXCEPTION inst p next).
Proof.
  intros Hd Hn. unfold op_attempt, advance_or_handle.
  apply (mirrors_act_pre _ (fun b s => exception (world s) = 0 <-> b = true)); [done|].
  intros b g Hg Hb. unfold settle.
  rewrite (M_bind_step pending _ _ (negb (exception (world (machine g)) =? 0)) (machine g))
    by (by destruct (machine g)).
  unfold POSSIBLY_HANDLE_PENDING_EXCEPTION. destruct b; cbn [negb].
  - rewrite (proj2 Hb) by done. cbn. by apply Hn.
  - destruct (Z.eqb_spec (exception (world (machine g))) 0); [by apply Hb in e|].
    by apply (mirrors_exception always).
Qed.
End Rules.

Section Cases.
Context (access active : bool) (ci : CodeItem) (address : Z) (inst : Instruction) (d : Z).
(** Throwing leaves an exception pending. *)
Hypothesis ThrowNew_pending :
  forall k w u w', ThrowNew k w = Ok (u, w') -> exception w' <> 0.

Lemma set_vreg_long_kept r v : advances exception_kept (set_vreg_long r v).
Proof. advance_with fail ltac:(done). Qed.

Lemma division_flag (zero : bool) (m : interp unit) s b s' :
  advances exception_kept m -> no_exception s ->
  (if zero then run (ThrowNew ThrowArithmeticExceptionDivideByZero);; mret false
   else m;; mret true) s = Ok (b, s') ->
  exception (world s') = 0 <-> b = true.
Proof.
  intros Hm Hs. destruct zero; intros H; apply M_bind_ok in H as (u & s1 & E & H); inv_M; subst.
  - unfold run in E. destruct (ThrowNew _ _) as [[u' w]|] eqn:Ht; [|done].
    injection E as <- <-. apply ThrowNew_pending in Ht. naive_solver.
  - split; [done|]. intros _. rewrite <- Hs. by apply (Hm _ _ _ E).
Qed.

Lemma DoLongDivide_flag a x y s b s' : no_exception s -> DoLongDivide a x y s = Ok (b, s') ->
  exception (world s') = 0 <-> b = true.
Proof.
  intros Hs. refine (division_flag (y =? 0) _ s b s' _ Hs).
  destruct (_ && _); [apply set_vreg_long_kept|].
  apply advances_bind; [apply _|apply advances_lift, _|intros ?; apply set_vreg_long_kept].
Qed.

Lemma DoLongRemainder_flag a x y s b s' : no_exception s -> DoLongRemainder a x y s = Ok (b, s') ->
  exception (world s') = 0 <-> b = true.
Proof.
  intros Hs. refine (division_flag (y =? 0) _ s b s' _ Hs).
  destruct (_ && _); [apply set_vreg_long_kept|].
  apply advances_bind; [apply _|apply advances_lift, _|intros ?; apply set_vreg_long_kept].
Qed.

(** ** Group by group *)

(** A [RETURN_OBJECT] with its check. *)
Definition checked_return (c : Code) : bool := access && bool_decide (c = RETURN_OBJECT).

Definition agree (c : Code) (h : option (goto_interp outcome)) (m : option (interp outcome)) : Prop :=
  match h, m with
  | Some h, Some m =>
      Opcode inst = Ok c -> checked_return c = false ->
      mirrors inst (fun s => long_division c = true -> no_exception s) (alt_prelude ci c;; h) m
  | None, None => True
  | _, _ => False
  end.

Lemma kept_stable c s s' : exception (world s') = exception (world s) ->
  (long_division c = true -> no_exception s) -> long_division c = true -> no_exception s'.
Proof. unfold no_exception. intros -> H. done. Qed.

Lemma int32_at_range i k z : int32_at i k = Ok z -> int32 z = z.
Proof. unfold int32_at. intros H. inv_res. apply int32_int32. Qed.

Lemma SparseSwitch_range n i size v lo hi z :
  SparseSwitch_loop n i size v lo hi = Ok z -> int32 z = z.
Proof.
  revert lo hi. induction n as [|n IH]; intros lo hi; cbn [SparseSwitch_loop]; [done|].
  destruct (lo <=? hi); [|by intros [= <-]]. intros H. inv_res.
  repeat case_match; eauto using int32_at_range.
Qed.

Lemma DoPackedSwitch_range s z s' : DoPackedSwitch address inst d s = Ok (z, s') -> int32 z = z.
Proof.
  unfold DoPackedSwitch. intros H. inv_M. case_match; inv_M; [by eapply int32_at_range|by subst].
Qed.
Lemma DoSparseSwitch_range s z s' : DoSparseSwitch address inst d s = Ok (z, s') -> int32 z = z.
Proof. unfold DoSparseSwitch. intros H. inv_M. by eapply SparseSwitch_range. Qed.

(** The offset of a branch is one of its operands, or comes from a switch. *)
Ltac offset_tac :=
  lazymatch goal with
  | H : DoPackedSwitch _ _ _ _ = Ok (?z, _) |- int32 ?z = ?z => by eapply DoPackedSwitch_range
  | H : DoSparseSwitch _ _ _ _ = Ok (?z, _) |- int32 ?z = ?z => by eapply DoSparseSwitch_range
  | H : lift _ _ = Ok (?z, _) |- int32 ?z = ?z =>
      apply lift_ok in H as [H _];
      unfold VRegA_10t, VRegA_20t, VRegA_30t, VRegB_21t, VRegC_22t in H; inv_res; int_lia
  end.

Ltac next_tac Hc :=
  intros ?; unfold goto, Next_1xx, Next_2xx, Next_3xx, Next_51l, dcheck_format_between, dcheck_format;
  rewrite Hc; reflexivity.

Ltac mirror Hc :=
  repeat first
    [ progress cbv beta zeta
    | lazymatch goal with
      | |- mirrors _ _ (alt_prelude _ _;; _) (PREAMBLE _ _;; _) =>
          apply (mirrors_prelude _ _ _ _ _ _ Hc); [reflexivity|done|]
      | |- mirrors _ _ (act (_ ≫= _) ≫= _) _ => apply mirrors_assoc
      | |- mirrors _ _ (act (mret _) ≫= _) _ => apply mirrors_act_ret
      | |- mirrors _ _ (UPDATE_HANDLER_TABLE _;; _) _ => apply mirrors_update
      | |- mirrors _ _ (gets dex_pc ≫= _) _ => apply mirrors_pc_bind
      | |- mirrors _ _ (act _ ≫= _) (_ ≫= _) => apply mirrors_act; intros ? ? ? ?
      | |- mirrors _ _ (act _ ≫= _) ?m => let k := head_of m in unfold k
      | |- mirrors _ _ (ADVANCE _ _) (goto _ _) => apply mirrors_ADVANCE; next_tac Hc
      | |- mirrors _ _ (ADVANCE _ _) ?m => let k := head_of m in unfold k
      | |- mirrors _ _ (op_branch _ _ _ _) (branch _ _) => apply mirrors_branch
      | |- mirrors _ _ _ (POSSIBLY_HANDLE_PENDING_EXCEPTION _ _ _) =>
          unfold POSSIBLY_HANDLE_PENDING_EXCEPTION
      | |- mirrors _ _ (exception_pending_label _ _ _) _ => apply mirrors_exception
      | |- mirrors _ _ (if ?b then _ else _) (if ?b then _ else _) => apply mirrors_if; intros ?
      | |- mirrors _ _ (mret (Return _)) _ => apply mirrors_return
      | |- mirrors _ _ (_ ≫= _) (_ ≫= _) => fail
      | |- mirrors _ _ (alt_prelude _ _;; _) ?m => let k := head_of m in unfold k
      | |- mirrors _ _ ?h _ => let f := head_of h in unfold f
      end ].
Ltac agree_tac :=
  intros c; destruct c; try exact I; intros Hc Hr; apply mirrors_weaken; mirror Hc.

Definition agree_on (h : Code -> option (goto_interp outcome))
    (m : Code -> option (interp outcome)) : Prop := forall c, agree c (h c) (m c).

Lemma moves_agree : agree_on (op_moves inst d) (execute_moves ci inst d).
Proof. agree_tac. Qed.
Lemma returns_agree :
  agree_on (op_returns unwind flags access ci inst d) (execute_returns access ci inst d).
Proof.
  intros c; destruct c; try exact I; intros Hc Hr.
  all: apply mirrors_weaken, mirrors_no_prelude; [reflexivity|].
  4: { unfold op_return_object, return_object.
    assert (access = false) as -> by (revert Hr; unfold checked_return; by destruct access).
    mirror Hc. cbn [andb]. apply mirrors_ret_bind. mirror Hc. }
  all: mirror Hc.
Qed.
Lemma constants_agree :
  agree_on (op_constants unwind flags access inst d) (execute_constants access ci inst d).
Proof. agree_tac. Qed.
Lemma objects_agree :
  agree_on (op_objects unwind flags access active inst d) (execute_objects access active ci inst d).
Proof.
  agree_tac. rename a2 into success.
  destruct success; [rewrite andb_true_r|rewrite andb_false_r]; cbn [negb]; mirror Hc.
Qed.
Lemma gotos_agree :
  agree_on (op_gotos unwind flags address inst d) (execute_gotos ci address inst d).
Proof. agree_tac; offset_tac. Qed.
Lemma compares_agree : agree_on (op_compares inst d) (execute_compares ci inst d).
Proof. agree_tac. Qed.
Lemma ifs_agree : agree_on (op_ifs unwind flags inst d) (execute_ifs ci inst d).
Proof. agree_tac; offset_tac. Qed.
Lemma agets_agree : agree_on (op_agets unwind flags inst d) (execute_agets ci inst d).
Proof. agree_tac. Qed.
Lemma aputs_agree : agree_on (op_aputs unwind flags active inst d) (execute_aputs active ci inst d).
Proof. agree_tac. Qed.
Lemma field_gets_agree :
  agree_on (op_gets unwind flags access inst d) (execute_gets access ci inst d).
Proof. agree_tac. Qed.
Lemma field_puts_agree :
  agree_on (op_puts unwind flags access active inst d) (execute_puts access active ci inst d).
Proof. agree_tac. Qed.
Lemma invokes_agree :
  agree_on (op_invokes unwind flags access inst d) (execute_invokes access ci inst d).
Proof. agree_tac. Qed.
Lemma unary_agree : agree_on (op_unaries inst d) (execute_unary ci inst d).
Proof. agree_tac. Qed.
Lemma int_agree : agree_on (op_int unwind flags inst d) (execute_int ci inst d).
Proof. agree_tac. Qed.
Lemma float_agree : agree_on (op_float inst d) (execute_float ci inst d).
Proof. agree_tac. Qed.
Lemma int_2addr_agree : agree_on (op_int_2addr unwind flags inst d) (execute_int_2addr ci inst d).
Proof. agree_tac. Qed.
Lemma float_2addr_agree : agree_on (op_float_2addr inst d) (execute_float_2addr ci inst d).
Proof. agree_tac. Qed.
Lemma lit16_agree : agree_on (op_lit16 unwind flags inst d) (execute_lit16 ci inst d).
Proof. agree_tac. Qed.
Lemma lit8_agree : agree_on (op_lit8 unwind flags inst d) (execute_lit8 ci inst d).
Proof. agree_tac. Qed.

Ltac divide_tac Hc :=
  apply mirrors_excepting; [done|];
  apply (mirrors_prelude _ _ _ _ _ _ Hc); [reflexivity|by unfold no_exception; intros ? ? ->|];
  unfold op_divide_23x, op_divide_12x, op_attempt; cbv beta;
  repeat lazymatch goal with
    | |- mirrors _ _ (act (_ ≫= _) ≫= _) _ => apply mirrors_assoc
    | |- mirrors _ _ (act (DoLongDivide _ _ _) ≫= _) _ =>
        apply mirrors_flag; [intros ? ? ?; apply DoLongDivide_flag|mirror Hc]
    | |- mirrors _ _ (act (DoLongRemainder _ _ _) ≫= _) _ =>
        apply mirrors_flag; [intros ? ? ?; apply DoLongRemainder_flag|mirror Hc]
    | |- mirrors _ _ (act _ ≫= _) (_ ≫= _) =>
        apply mirrors_read; [advance_with fail ltac:(done)|intros ?]
    end.

Lemma long_agree : agree_on (op_long unwind flags inst d) (execute_long ci inst d).
Proof.
  intros c; destruct c; try exact I; intros Hc Hr.
  all: first [by apply mirrors_weaken; mirror Hc|divide_tac Hc].
Qed.
Lemma long_2addr_agree :
  agree_on (op_long_2addr unwind flags inst d) (execute_long_2addr ci inst d).
Proof.
  intros c; destruct c; try exact I; intros Hc Hr.
  all: first [by apply mirrors_weaken; mirror Hc|divide_tac Hc].
Qed.

(** ** One instruction *)

(** The same result, or a fault where the switch meets an opcode without a case: the
    alternative handler of such an opcode still does its instrumentation. *)
Definition tracks {A} (r r' : res A) : Prop :=
  r = r' \/ ((exists f, r = Fault f) /\ r' = Fault Fatal).

Lemma first_agree c hs ms g :
  Forall2 (agree c) hs ms -> Opcode inst = Ok c -> checked_return c = false ->
  settled inst g -> (long_division c = true -> no_exception (machine g)) ->
  tracks ((alt_prelude ci c;; first_handler hs) g) (settle inst (first_case ms) g).
Proof.
  intros Hf Hc Hr Hg HP. induction Hf as [|h m hs ms Ha _ IH]; cbn [first_handler first_case].
  - right. split; [|done]. unfold mbind, M_bind.
    destruct (alt_prelude ci c g) as [[u g']|f]; eauto.
  - destruct h, m; try done. left. by apply Ha.
Qed.

Lemma main_agree c g :
  Opcode inst = Ok c -> checked_return c = false ->
  settled inst g -> (long_division c = true -> no_exception (machine g)) ->
  tracks ((alt_prelude ci c;; main_op unwind flags access active ci address inst d c) g)
    (settle inst (execute access active ci address inst d c) g).
Proof.
  apply first_agree. repeat constructor.
  - apply moves_agree.
  - apply returns_agree.
  - apply constants_agree.
  - apply objects_agree.
  - apply gotos_agree.
  - apply compares_agree.
  - apply ifs_agree.
  - apply agets_agree.
  - apply aputs_agree.
  - apply field_gets_agree.
  - apply field_puts_agree.
  - apply invokes_agree.
  - apply unary_agree.
  - apply int_agree.
  - apply long_agree.
  - apply float_agree.
  - apply int_2addr_agree.
  - apply long_2addr_agree.
  - apply float_2addr_agree.
  - apply lit16_agree.
  - apply lit8_agree.
Qed.

(** Nothing is due to the instrumentation when there is none. *)
Definition uninstrumented (s : Interp) : Prop :=
  IsActive unwind = false -> notified_method_entry_event s = false.

Lemma alt_prelude_table c g u g' :
  alt_prelude ci c g = Ok (u, g') ->
  currentHandlersTable g' = currentHandlersTable g /\ dex_pc g' = dex_pc g.
Proof.
  destruct g as [s t pc]. unfold alt_prelude, act, gets, mbind, M_bind, mret, M_ret.
  destruct c; cbn; intros H; repeat case_match; by simplify_eq.
Qed.

Lemma alt_prelude_inactive c g :
  IsActive unwind = false -> notified_method_entry_event (machine g) = false ->
  alt_prelude ci c g = Ok (tt, g).
Proof.
  intros Ha Hn. assert (HasDexPcListeners = false) as Hl.
  { unfold IsActive in Ha. by destruct HasDexPcListeners. }
  destruct g as [s t pc]. unfold alt_prelude, act, gets, mbind, M_bind, mret, M_ret. cbn in *.
  destruct c; cbn; by rewrite ?Hn, ?Hl.
Qed.

Lemma handlersTable_prelude c g : settled inst g -> uninstrumented (machine g) ->
  handlersTable unwind flags access active ci address inst d (currentHandlersTable g) c g =
  (alt_prelude ci c;; main_op unwind flags access active ci address inst d c) g.
Proof.
  intros [Ht Hd] Hu. destruct (IsActive unwind) eqn:Ha.
  - assert (table = kAlternativeHandlerTable) as Hk
      by (by unfold GetInterpreterHandlerTable; rewrite Ha).
    rewrite Ht, Hk. cbn [handlersTable]. unfold alt_op, mbind, M_bind.
    destruct (alt_prelude ci c g) as [[u [s t pc]]|f] eqn:E; [|done].
    apply alt_prelude_table in E as [Et _]. cbn in Et. by rewrite Et, Ht.
  - rewrite (M_bind_step _ _ _ _ _ (alt_prelude_inactive c g Ha (Hu Ha))), Ht.
    unfold GetInterpreterHandlerTable. by rewrite Ha.
Qed.
End Cases.

(** ** Whole runs *)

Section Runs.
Context (access active : bool) (ci : CodeItem) (address : Z).
Hypothesis ThrowNew_pending :
  forall k w u w', ThrowNew k w = Ok (u, w') -> exception w' <> 0.

Definition opcode_at (inst : Instruction) (f : Code -> bool) : bool :=
  match Opcode inst with Ok c => f c | Fault _ => false end.

Lemma Opcode_fetched inst d c :
  Fetch16 inst 0 = Ok d -> Opcode_data inst d = Ok c -> Opcode inst = Ok c.
Proof. intros H1 H2. unfold Opcode. rewrite H1. done. Qed.

Lemma step_execute_at inst s d c :
  Fetch16 inst 0 = Ok d -> Opcode_data inst d = Ok c ->
  step access active ci address inst s =
  execute access active ci address inst d c (at_pc s (GetDexPc inst)).
Proof.
  intros Hd Hc. unfold step, mbind, M_bind, modify, lift. rewrite Hd. cbn. by rewrite Hc.
Qed.

Lemma dispatch_tracks inst s g :
  settled inst g -> machine g = at_pc s (GetDexPc inst) -> uninstrumented (machine g) ->
  opcode_at inst (checked_return access) = false ->
  (opcode_at inst long_division = true -> no_exception s) ->
  tracks (dispatch unwind flags access active ci address inst g)
    (settle inst (fun _ => step access active ci address inst s) g).
Proof.
  intros Hg Hm Hu Hr Hp. destruct (Fetch16 inst 0) as [d|f] eqn:Hd.
  2: { left. unfold dispatch, settle, step, act, lift, mbind, M_bind, modify. cbn. by rewrite Hd. }
  destruct (Opcode_data inst d) as [c|f] eqn:Hc.
  2: { left. unfold dispatch, settle, step, act, lift, mbind, M_bind, modify. cbn. rewrite Hd. cbn.
    by rewrite Hc. }
  pose proof (Opcode_fetched _ _ _ Hd Hc) as Ho. unfold opcode_at in *. rewrite Ho in *.
  unfold settle. rewrite (step_execute_at _ _ _ _ Hd Hc), <- Hm.
  replace (dispatch _ _ _ _ _ _ _ _) with
    ((alt_prelude ci c;; main_op unwind flags access active ci address inst d c) g).
  - apply main_agree; try done. intros Hl. unfold no_exception. rewrite Hm. by apply Hp.
  - rewrite <- handlersTable_prelude by done.
    destruct g. unfold dispatch, act, lift, gets, mbind, M_bind. cbn. rewrite Hd. cbn. by rewrite Hc.
Qed.

(** The entry hook is the only place that notes an event as notified. *)
Definition unnotified (s s' : Interp) : Prop :=
  notified_method_entry_event s = false -> notified_method_entry_event s' = false.
#[local] Instance unnotified_preorder : PreOrder unnotified.
Proof. unfold unnotified. split; repeat intro; auto. Qed.

Lemma unnotified_run {A} (m : rt A) : advances unnotified (run m).
Proof.
  intros s a s'. unfold run. destruct (m (world s)) as [[b w]|]; [|done]. intros [= <- <-]. by intros ?.
Qed.
#[local] Hint Resolve unnotified_run : advances.
Ltac unnotify := advance_with ltac:(apply unnotified_run) ltac:(unfold unnotified; cbn; done).

Lemma unnotified_copy_checked n k m r src nsf p d a :
  advances unnotified (copy_checked n k m r src nsf p d a).
Proof. revert nsf p d a. induction n; intros nsf p d a; cbn [copy_checked]; unnotify. Qed.
Lemma unnotified_fill_elements n t b a src i : advances unnotified (fill_elements n t b a src i).
Proof. revert i. induction n; intros i; cbn [fill_elements]; unnotify. Qed.
#[local] Hint Resolve unnotified_copy_checked unnotified_fill_elements : advances.

Lemma unnotified_PREAMBLE inst : advances unnotified (PREAMBLE ci inst).
Proof. unnotify. Qed.
Lemma unnotified_HANDLE inst : advances unnotified (HANDLE_PENDING_EXCEPTION inst).
Proof. unnotify. Qed.
Lemma unnotified_DoInvoke t r b inst d : advances unnotified (DoInvoke t r b inst d).
Proof. unnotify. Qed.
Lemma unnotified_DoInvokeVirtualQuick r inst d :
  advances unnotified (DoInvokeVirtualQuick r inst d).
Proof. unnotify. Qed.
Lemma unnotified_DoFieldGet t p b inst d : advances unnotified (DoFieldGet t p b inst d).
Proof. unnotify. Qed.
Lemma unnotified_DoFieldPut t p b a inst d : advances unnotified (DoFieldPut t p b a inst d).
Proof. unnotify. Qed.
#[local] Hint Resolve unnotified_PREAMBLE unnotified_HANDLE unnotified_DoInvoke
  unnotified_DoInvokeVirtualQuick unnotified_DoFieldGet unnotified_DoFieldPut : advances.

Lemma step_unnotified inst : advances unnotified (step access active ci address inst).
Proof.
  unfold step. apply advances_bind; [apply _|unnotify|intros _].
  do 2 (apply advances_bind; [apply _|apply advances_lift, _|intros ?]).
  match goal with |- advances _ (execute _ _ _ _ _ _ ?c) => destruct c end; cbn; unnotify.
Qed.

(** No step of the run is where the interpreters may differ. *)
Definition no_difference (inst : Instruction) (s : Interp) : Prop :=
  forall n i s', runs access active ci address n inst s i s' ->
    opcode_at i (checked_return access) = false /\
    (opcode_at i long_division = true -> no_exception s').

Definition machine_of {A} (r : res (A * GotoState)) : res (A * Interp) :=
  match r with Ok (a, g) => Ok (a, machine g) | Fault f => Fault f end.

Lemma handlers_track fuel inst s g :
  settled inst g -> machine g = at_pc s (GetDexPc inst) -> uninstrumented s ->
  no_difference inst s ->
  tracks (machine_of (handlers unwind flags access active ci address fuel inst g))
    (loop access active ci address fuel inst s).
Proof.
  revert inst s g. induction fuel as [|fuel IH]; intros inst s g Hg Hm Hu Hn; [by left|].
  cbn [handlers loop]. unfold mbind, M_bind.
  destruct (Hn 0%nat inst s) as [Hr Hl]; [constructor|].
  assert (uninstrumented (machine g)) as Hu' by (by rewrite Hm).
  destruct (dispatch_tracks inst s g Hg Hm Hu' Hr Hl) as [->|[[f ->] Hf]]; cycle 1.
  { right. split; [by exists f|]. unfold settle in Hf.
    destruct (step _ _ _ _ _ s) as [[[]]|]; by simplify_eq. }
  unfold settle. destruct (step _ _ _ _ inst s) as [[[i|r] s']|f] eqn:Hs; [|by left..].
  apply IH; [done|done| |].
  - intros Ha. apply (step_unnotified _ _ _ _ Hs), Hu, Ha.
  - intros n i' s'' Hruns. apply (Hn (S n)). by eapply runs_next.
Qed.

Lemma entry_uninstrumented b s u s' :
  entry ci (b && HasMethodEntryListeners) s = Ok (u, s') -> uninstrumented s'.
Proof.
  intros He Ha. assert (HasMethodEntryListeners = false) as Hl.
  { unfold IsActive in Ha. destruct HasMethodEntryListeners; [|done].
    by rewrite orb_true_r in Ha. }
  rewrite Hl, andb_false_r in He. by injection He as <- <-.
Qed.

(** The jump to the first instruction. *)
Lemma ADVANCE_here pc s : 0 <= pc < 2 ^ 32 ->
  ADVANCE (At (insns_ ci) pc) 0 (MkGoto s table pc) =
  Ok (Goto (At (insns_ ci) pc), MkGoto (at_pc s pc) table pc).
Proof.
  intros Hpc. unfold ADVANCE, RelativeAt, mbind, M_bind, modify, gets, act, mret, M_ret. cbn.
  replace (uint32 (int32 pc + int32 0)) with pc by int_lia.
  replace (pc + int32 0) with pc by int_lia. done.
Qed.

Lemma goto_tracks_switch fuel s :
  0 <= GetDexPC (frame s) < 2 ^ 32 ->
  (forall s', entry ci ((GetDexPC (frame s) =? 0) && HasMethodEntryListeners) s = Ok (tt, s') ->
    no_difference (At (insns_ ci) (GetDexPC (frame s))) s') ->
  tracks (ExecuteGotoImpl unwind flags access active ci address fuel s)
    (ExecuteSwitchImpl access active ci address fuel s).
Proof.
  intros Hpc Hn. rewrite ExecuteSwitchImpl_entry. unfold ExecuteGotoImpl, goto_body.
  set (pc := GetDexPC (frame s)) in *.
  set (e := entry ci _) in *.
  change (tracks (machine_of ((act e;; o ← ADVANCE (At (insns_ ci) pc) 0;
    match o with
    | Goto inst => handlers unwind flags access active ci address fuel inst
    | Return result => mret result end) (MkGoto s table pc)))
    ((e;; loop access active ci address fuel (At (insns_ ci) pc)) s)).
  destruct (e s) as [[[] s']|f] eqn:He.
  - rewrite (act_step e _ (MkGoto s table pc) _ _ He), (M_bind_step _ _ _ _ _ He). cbn [currentHandlersTable dex_pc].
    rewrite (M_bind_step _ _ _ _ _ (ADVANCE_here pc s' Hpc)).
    assert (GetDexPc (At (insns_ ci) pc) = pc) as Hp by (unfold GetDexPc; cbn; int_lia).
    apply handlers_track; [split; [done|by rewrite Hp]|by rewrite Hp| |by apply Hn].
    by eapply entry_uninstrumented.
  - left. rewrite (act_fault e _ (MkGoto s table pc) _ He). unfold mbind, M_bind. by rewrite He.
Qed.
End Runs.
End Mirrors.

(** A method without the instructions in question. *)
Lemma no_difference_code (R : Runtime) (T : TraceLaws R) access active ci address inst s :
  (forall pc c, Opcode (At (insns inst) pc) = Ok c ->
    checked_return access c = false /\ long_division c = false) ->
  no_difference access active ci address inst s.
Proof.
  intros Hcode n i s' Hr.
  assert (insns i = insns inst) as Hi.
  { induction Hr as [|n i s i1 s1 i2 s2 Hs _ IH]; [done|].
    destruct (step_polls _ _ _ _ _ _ _ _ Hs) as (_ & _ & Hi & _). rewrite <- Hi.
    apply IH. by rewrite Hi. }
  destruct i as [code pc]. cbn in Hi. subst code. unfold opcode_at.
  destruct (Opcode _) as [c|] eqn:Hc; [|done]. destruct (Hcode _ _ Hc) as [Hret Hlong].
  by rewrite Hlong.
Qed.

(** ** Theorems *)


(** [v0 = 3; do v0 += -1 while (v0 != 0); return v0] *)
Definition countdown_item : CodeItem :=
  MkCodeItem 1 0 0 0 6 [0x3012; 0x00d8; 0xff00; 0x0039; 0xfffe; 0x000f] [] [].
Definition countdown_method : ArtMethod :=
  MkArtMethod kAccStatic [] [] (Some countdown_item) false.
Definition countdown_state : Interp :=
  MkInterp (MkShadowFrame 1 7 0 [0; 0]) 0 false (MkWorld ∅ 0 false [] None []).

Lemma countdown_opcodes pc c : Opcode (At (insns_ countdown_item) pc) = Ok c ->
  checked_return true c = false /\ long_division c = false.
Proof.
  intros H. assert (0 <= pc < 6) as Hpc.
  { unfold Opcode in H. inv_res. apply Fetch16_bounds in E. cbn in E. lia. }
  assert (pc ∈ [0; 1; 2; 3; 4; 5]) as Hin.
  { rewrite !elem_of_cons. lia. }
  revert H. rewrite !elem_of_cons in Hin.
  repeat destruct Hin as [->|Hin]; [..|by apply elem_of_nil in Hin].
  all: intros H; vm_compute in H; injection H as <-; done.
Qed.


(** [return-object v0] in a try block whose handler is [v0 = 0; return-object v0]. *)
Definition rejected_item : CodeItem :=
  MkCodeItem 1 0 0 1 3 [0x0011; 0x0012; 0x0011] [MkTryItem 0 1 1] [1; 0; 1].
Definition rejected_method : ArtMethod :=
  MkArtMethod kAccStatic [] [] (Some rejected_item) false.
Definition rejected_state : Interp :=
  MkInterp (MkShadowFrame 1 7 0 [100; 100]) 0 false
    (with_heap (MkWorld ∅ 0 false [] None [])
       (<[999 := to_bytes 4 2]> (<[100 := to_bytes 4 2]> ∅))).

