(* ===== verification/Locations.v ===== *)
(** * Locations

    Models [Location] (compiler/optimizing/locations.h) and the bit fields it is made
    of (runtime/base/bit_field.h).  A location is one machine word: a kind in the low
    four bits and a payload above, or the address of a constant tagged with [kConstant]
    in the low two.  The width of the word is a parameter. *)

From S2P Require Import Prelude.

(** [Location::Kind], with the values of its constants. *)
Inductive Kind : Type :=
  | kInvalid | kConstant | kStackSlot | kDoubleStackSlot | kRegister | kDoNotUse5 | kFpuRegister
  | kRegisterPair | kFpuRegisterPair | kDoNotUse9 | kQuickParameter | kUnallocated.
#[export] Instance Kind_eq_dec : EqDecision Kind.
Proof. solve_decision. Defined.

Definition kind_value (k : Kind) : Z :=
  match k with
  | kInvalid => 0 | kConstant => 1 | kStackSlot => 2 | kDoubleStackSlot => 3 | kRegister => 4
  | kDoNotUse5 => 5 | kFpuRegister => 6 | kRegisterPair => 7 | kFpuRegisterPair => 8
  | kDoNotUse9 => 9 | kQuickParameter => 10 | kUnallocated => 11
  end.
(** The conversion of a number to the enumeration; numbers above its constants are
    none of them. *)
Definition kind_of_value (v : Z) : option Kind :=
  List.find (fun k => kind_value k =? v)
    [kInvalid; kConstant; kStackSlot; kDoubleStackSlot; kRegister; kDoNotUse5; kFpuRegister;
     kRegisterPair; kFpuRegisterPair; kDoNotUse9; kQuickParameter; kUnallocated].

(** [Location::Policy] *)
Inductive Policy : Type := kAny | kRequiresRegister | kRequiresFpuRegister | kSameAsFirstInput.
Definition policy_value (p : Policy) : Z :=
  match p with
  | kAny => 0 | kRequiresRegister => 1 | kRequiresFpuRegister => 2 | kSameAsFirstInput => 3
  end.

Section Location.
Context (kBitsPerIntPtrT : Z).
Local Abbreviation uintptr := (wrapU kBitsPerIntPtrT).
Local Abbreviation intptr := (wrapS kBitsPerIntPtrT).

(** ** Bit fields *)

Definition BitField_Mask (size : Z) : Z := uintptr (Z.shiftl 1 size) - 1.
Definition BitField_IsValid (size value : Z) : bool :=
  Z.land (uintptr value) (Z.lnot (BitField_Mask size)) =? 0.
Definition BitField_Encode (position size value : Z) : res Z :=
  check (BitField_IsValid size value);; Ok (uintptr (Z.shiftl (uintptr value) position)).
Definition BitField_Decode (position size value : Z) : Z :=
  Z.land (Z.shiftr value position) (BitField_Mask size).
Definition BitField_Update (position size value original : Z) : res Z :=
  check (BitField_IsValid size value);;
  Ok (Z.lor (uintptr (Z.shiftl (uintptr value) position))
        (Z.land (Z.lnot (Z.shiftl (BitField_Mask size) position)) original)).

(** ** Locations: [value_] *)

Definition kBitsForKind : Z := 4.
Definition kBitsForPayload : Z := kBitsPerIntPtrT - kBitsForKind.
Definition kLocationConstantMask : Z := 3.
Definition kStackIndexBias : Z := intptr (Z.shiftl 1 (kBitsForPayload - 1)).

Definition NoLocation : Z := kind_value kInvalid.

Definition MakeLocation (kind : Kind) (payload : Z) : res Z :=
  k ← BitField_Encode 0 kBitsForKind (kind_value kind);
  p ← BitField_Encode kBitsForKind kBitsForPayload payload;
  Ok (Z.lor k p).
Definition GetPayload (l : Z) : Z := BitField_Decode kBitsForKind kBitsForPayload l.

Definition IsConstant (l : Z) : bool := Z.land l kLocationConstantMask =? kind_value kConstant.
Definition ConstantLocation (constant : Z) : res Z :=
  check (negb (constant =? 0));; Ok (Z.lor (kind_value kConstant) constant).
Definition GetConstant (l : Z) : res Z :=
  check (IsConstant l);; Ok (Z.land l (Z.lnot kLocationConstantMask)).

Definition IsValid (l : Z) : bool := negb (l =? NoLocation).
Definition IsInvalid (l : Z) : bool := negb (IsValid l).
Definition Equals (l other : Z) : bool := l =? other.

Definition GetKind (l : Z) : option Kind :=
  if IsConstant l then Some kConstant else kind_of_value (BitField_Decode 0 kBitsForKind l).
Definition has_kind (l : Z) (k : Kind) : bool := bool_decide (GetKind l = Some k).

(** Registers *)
Definition RegisterLocation (reg : Z) : res Z := MakeLocation kRegister reg.
Definition FpuRegisterLocation (reg : Z) : res Z := MakeLocation kFpuRegister reg.
Definition RegisterPairLocation (low high : Z) : res Z :=
  MakeLocation kRegisterPair (Z.lor (Z.shiftl low 16) high).
Definition FpuRegisterPairLocation (low high : Z) : res Z :=
  MakeLocation kFpuRegisterPair (Z.lor (Z.shiftl low 16) high).
Definition IsRegister (l : Z) : bool := has_kind l kRegister.
Definition IsFpuRegister (l : Z) : bool := has_kind l kFpuRegister.
Definition IsRegisterPair (l : Z) : bool := has_kind l kRegisterPair.
Definition IsFpuRegisterPair (l : Z) : bool := has_kind l kFpuRegisterPair.
Definition reg (l : Z) : res Z :=
  check (IsRegister l || IsFpuRegister l);; Ok (int32 (GetPayload l)).
Definition AsRegister (l : Z) : res Z := check (IsRegister l);; reg l.
Definition AsFpuRegister (l : Z) : res Z := check (IsFpuRegister l);; reg l.
Definition AsRegisterPairLow (l : Z) : res Z :=
  check (IsRegisterPair l);; Ok (Z.shiftr (GetPayload l) 16).
Definition AsRegisterPairHigh (l : Z) : res Z :=
  check (IsRegisterPair l);; Ok (Z.land (GetPayload l) 0xFFFF).
Definition AsFpuRegisterPairLow (l : Z) : res Z :=
  check (IsFpuRegisterPair l);; Ok (Z.shiftr (GetPayload l) 16).
Definition AsFpuRegisterPairHigh (l : Z) : res Z :=
  check (IsFpuRegisterPair l);; Ok (Z.land (GetPayload l) 0xFFFF).

(** Stack slots *)
Definition EncodeStackIndex (stack_index : Z) : res Z :=
  check (- kStackIndexBias <=? stack_index);;
  check (stack_index <? kStackIndexBias);;
  Ok (uintptr (kStackIndexBias + stack_index)).
Definition IsStackSlot (l : Z) : bool := has_kind l kStackSlot.
Definition IsDoubleStackSlot (l : Z) : bool := has_kind l kDoubleStackSlot.
Definition GetStackIndex (l : Z) : res Z :=
  check (IsStackSlot l || IsDoubleStackSlot l);;
  Ok (intptr (uintptr (GetPayload l - kStackIndexBias))).
Definition GetHighStackIndex (l word_size : Z) : res Z :=
  check (IsDoubleStackSlot l);;
  Ok (intptr (uintptr (GetPayload l - kStackIndexBias + word_size))).
Definition StackSlotOf (kind : Kind) (stack_index : Z) : res Z :=
  payload ← EncodeStackIndex stack_index;
  loc ← MakeLocation kind payload;
  i ← GetStackIndex loc;
  check (i =? stack_index);;
  Ok loc.
Definition StackSlot (stack_index : Z) : res Z := StackSlotOf kStackSlot stack_index.
Definition DoubleStackSlot (stack_index : Z) : res Z := StackSlotOf kDoubleStackSlot stack_index.

(** Parameters passed half in a register, half on the stack *)
Definition QuickParameter (register_index stack_index : Z) : res Z :=
  MakeLocation kQuickParameter (Z.lor (Z.shiftl register_index 16) stack_index).
Definition IsQuickParameter (l : Z) : bool := has_kind l kQuickParameter.
Definition GetQuickParameterRegisterIndex (l : Z) : res Z :=
  check (IsQuickParameter l);; Ok (uint32 (Z.shiftr (GetPayload l) 16)).
Definition GetQuickParameterStackIndex (l : Z) : res Z :=
  check (IsQuickParameter l);; Ok (uint32 (Z.land (GetPayload l) 0xFFFF)).

(** Unallocated locations *)
Definition UnallocatedLocation (policy : Policy) : res Z :=
  p ← BitField_Encode 0 3 (policy_value policy); MakeLocation kUnallocated p.
Definition IsUnallocated (l : Z) : bool := has_kind l kUnallocated.
End Location.

(** ** Facts *)

(** The kinds whose tag cannot be taken for the one of a constant. *)
Definition tagged (k : Kind) : Prop := k ∉ [kConstant; kDoNotUse5; kDoNotUse9].
#[export] Instance tagged_dec k : Decision (tagged k).
Proof. unfold tagged. apply _. Defined.

Lemma tagged_ok k : bool_decide (tagged k) = true -> tagged k.
Proof. apply bool_decide_eq_true_1. Qed.

Section Facts.
Context (w : Z) (Hw : 32 <= w).

Lemma pow_split : 2 ^ w = 16 * 2 ^ (w - 4).
Proof. replace w with (4 + (w - 4)) at 1 by lia. by rewrite Z.pow_add_r by lia. Qed.

Lemma mask_ones n : 0 <= n < w -> BitField_Mask w n = Z.ones n.
Proof.
  intros Hn. unfold BitField_Mask, wrapU. rewrite Z.shiftl_1_l, Z.ones_equiv.
  rewrite Z.mod_small; [lia|]. split; [lia|]. apply Z.pow_lt_mono_r; lia.
Qed.

Lemma IsValid_small n v : 0 <= n < w -> 0 <= v < 2 ^ n -> BitField_IsValid w n v = true.
Proof.
  intros Hn Hv. assert (2 ^ n <= 2 ^ w) by (apply Z.pow_le_mono_r; lia).
  unfold BitField_IsValid, wrapU. rewrite Z.mod_small by lia. rewrite mask_ones by done.
  apply Z.eqb_eq. rewrite <- Z.ldiff_land. rewrite Z.ldiff_ones_r by lia.
  rewrite Z.shiftr_div_pow2, Z.div_small by lia. apply Z.shiftl_0_l.
Qed.

Lemma Encode_small pos n v : 0 <= pos -> 0 <= n < w -> pos + n <= w -> 0 <= v < 2 ^ n ->
  BitField_Encode w pos n v = Ok (v * 2 ^ pos).
Proof.
  intros Hp Hn Hs Hv. unfold BitField_Encode. rewrite IsValid_small by done. cbn. f_equal.
  assert (2 ^ n <= 2 ^ w) by (apply Z.pow_le_mono_r; lia).
  assert (2 ^ (pos + n) <= 2 ^ w) as Hle by (apply Z.pow_le_mono_r; lia).
  rewrite Z.pow_add_r in Hle by lia. unfold wrapU. rewrite (Z.mod_small v) by lia.
  rewrite Z.shiftl_mul_pow2 by lia. apply Z.mod_small. nia.
Qed.

Lemma kind_range k : 0 <= kind_value k < 2 ^ 4.
Proof. by destruct k. Qed.

Lemma MakeLocation_value k p : 0 <= p < 2 ^ (w - 4) ->
  MakeLocation w k p = Ok (kind_value k + p * 16).
Proof.
  intros Hp. unfold MakeLocation, kBitsForPayload, kBitsForKind.
  pose proof (kind_range k). rewrite !Encode_small by lia. cbn. f_equal.
  rewrite Z.mul_1_r, <- (Z.shiftl_mul_pow2 p 4), lor_low_high by lia. lia.
Qed.

Lemma payload_of k p : 0 <= p < 2 ^ (w - 4) -> GetPayload w (kind_value k + p * 16) = p.
Proof.
  intros Hp. unfold GetPayload, BitField_Decode, kBitsForPayload, kBitsForKind.
  rewrite mask_ones, Z.shiftr_div_pow2, Z.land_ones by lia. pose proof (kind_range k).
  replace ((kind_value k + p * 16) / 2 ^ 4) with p; [by apply Z.mod_small|].
  change (2 ^ 4) with 16 in *. rewrite Z.div_add, Z.div_small by lia. lia.
Qed.

Lemma low_bits k p n : 0 <= n <= 4 -> Z.land (kind_value k + p * 16) (Z.ones n) = kind_value k mod 2 ^ n.
Proof.
  intros Hn. rewrite Z.land_ones by lia.
  replace (p * 16) with (p * 2 ^ (4 - n) * 2 ^ n).
  - rewrite Z.mod_add; [done|]. apply Z.pow_nonzero; lia.
  - rewrite <- Z.mul_assoc, <- Z.pow_add_r by lia. by replace (4 - n + n) with 4 by lia.
Qed.

Lemma kind_of k p : tagged k ->
  IsConstant (kind_value k + p * 16) = false /\ GetKind w (kind_value k + p * 16) = Some k.
Proof.
  intros Hk. assert (IsConstant (kind_value k + p * 16) = false) as Hc.
  { unfold IsConstant, kLocationConstantMask. change 3 with (Z.ones 2). rewrite low_bits by lia.
    destruct k; try done; exfalso; apply Hk; set_solver. }
  split; [done|]. unfold GetKind, BitField_Decode, kBitsForKind. rewrite Hc.
  rewrite Z.shiftr_0_r, mask_ones, low_bits by lia.
  by destruct k.
Qed.

Lemma bias_value : kStackIndexBias w = 2 ^ (w - 5).
Proof.
  unfold kStackIndexBias, kBitsForPayload, kBitsForKind. rewrite Z.shiftl_1_l.
  replace (w - 4 - 1) with (w - 5) by lia. apply wrapS_id; [lia|].
  assert (2 ^ (w - 5) < 2 ^ (w - 1)) by (apply Z.pow_lt_mono_r; lia). split; lia.
Qed.

Definition made (k : Kind) (p l : Z) : Prop :=
  MakeLocation w k p = Ok l /\ IsConstant l = false /\ GetKind w l = Some k /\ GetPayload w l = p.

Lemma location_made k p : tagged k -> 0 <= p < 2 ^ (w - 4) -> made k p (kind_value k + p * 16).
Proof.
  intros Hk Hp. unfold made. rewrite MakeLocation_value, payload_of by done.
  by destruct (kind_of k p Hk) as [-> ->].
Qed.

Lemma slot_made k i : k = kStackSlot \/ k = kDoubleStackSlot ->
  - 2 ^ (w - 5) <= i < 2 ^ (w - 5) ->
  exists l, StackSlotOf w k i = Ok l /\ GetKind w l = Some k /\ GetStackIndex w l = Ok i.
Proof.
  intros Hk Hi. assert (2 ^ (w - 4) = 2 * 2 ^ (w - 5)) as Hpow.
  { replace (w - 4) with (1 + (w - 5)) by lia. by rewrite Z.pow_add_r by lia. }
  pose proof pow_split as Hsplit.
  assert (tagged k) as Ht by (destruct Hk as [-> | ->]; by apply tagged_ok).
  destruct (location_made k (2 ^ (w - 5) + i) Ht ltac:(lia)) as (Hm & _ & Hkind & Hp).
  set (l := kind_value k + _) in *. exists l.
  assert (GetStackIndex w l = Ok i) as Hg.
  { unfold GetStackIndex, IsStackSlot, IsDoubleStackSlot, has_kind. rewrite Hkind, Hp, bias_value.
    replace (check _) with (Ok tt) by (by destruct Hk as [-> | ->]). cbn. f_equal.
    replace (2 ^ (w - 5) + i - 2 ^ (w - 5)) with i by lia.
    unfold wrapS, wrapU. rewrite Z.add_mod_idemp_l by lia.
    apply wrapS_id; [lia|]. split; [|].
    all: assert (2 ^ (w - 5) < 2 ^ (w - 1)) by (apply Z.pow_lt_mono_r; lia); lia. }
  split_and!; [|done|done]. unfold StackSlotOf, EncodeStackIndex. rewrite bias_value.
  replace (- 2 ^ (w - 5) <=? i) with true by lia. replace (i <? 2 ^ (w - 5)) with true by lia. cbn.
  replace (wrapU w (2 ^ (w - 5) + i)) with (2 ^ (w - 5) + i)
    by (unfold wrapU; rewrite Z.mod_small; lia).
  rewrite Hm. cbn. rewrite Hg. cbn. by rewrite Z.eqb_refl.
Qed.

(** Two halves in one payload. *)
Lemma halves low high : 0 <= low < 2 ^ 12 -> 0 <= high < 2 ^ 16 ->
  let p := Z.lor (Z.shiftl low 16) high in
  0 <= p < 2 ^ (w - 4) /\ Z.shiftr p 16 = low /\ Z.land p 0xFFFF = high.
Proof.
  intros Hl Hh p. assert (p = high + low * 2 ^ 16) as ->.
  { unfold p. rewrite Z.lor_comm. by apply lor_low_high. }
  assert (2 ^ 28 <= 2 ^ (w - 4)) by (apply Z.pow_le_mono_r; lia).
  split; [nia|]. change 0xFFFF with (Z.ones 16). rewrite Z.land_ones, Z.shiftr_div_pow2 by lia.
  rewrite Z.div_add, Z.div_small, Z.mod_add, Z.mod_small by lia. lia.
Qed.

Lemma constant_made a : a <> 0 -> Z.land a 3 = 0 ->
  let l := Z.lor 1 a in
  ConstantLocation a = Ok l /\ GetKind w l = Some kConstant /\ GetConstant l = Ok a.
Proof.
  intros Ha Hz l. assert (IsConstant l = true) as Hc.
  { unfold IsConstant, l, kLocationConstantMask. by rewrite Z.land_lor_distr_l, Hz. }
  unfold ConstantLocation, GetKind, GetConstant. rewrite Hc.
  destruct (Z.eqb_spec a 0); [done|]. split_and!; [done..|]. cbn. f_equal.
  unfold l, kLocationConstantMask. rewrite Z.land_lor_distr_l. change (Z.land 1 (Z.lnot 3)) with 0.
  rewrite Z.lor_0_l. rewrite <- Z.ldiff_land.
  rewrite <- (Z.lor_ldiff_and a 3) at 2. by rewrite Hz, Z.lor_0_r.
Qed.
End Facts.

(** The encoding of locations loses nothing.  For every kind the code uses and every
    payload that fits, the constructor gives a word from which [GetKind] and [GetPayload]
    recover kind and payload, and which is not taken for a constant; so two locations are
    [Equals] only if they are the same.  Stack indices keep their sign, the registers of
    a pair and the halves of a quick parameter come back, and so does the address of a
    constant, which is aligned. *)
Theorem location_roundtrip w :
  32 <= w ->
  (forall k p, tagged k -> 0 <= p < 2 ^ (w - 4) -> exists l,
    MakeLocation w k p = Ok l /\ IsConstant l = false /\ GetKind w l = Some k /\
    GetPayload w l = p) /\
  (forall i, - 2 ^ (w - 5) <= i < 2 ^ (w - 5) ->
    (exists l, StackSlot w i = Ok l /\ IsStackSlot w l = true /\ GetStackIndex w l = Ok i) /\
    (exists l, DoubleStackSlot w i = Ok l /\ IsDoubleStackSlot w l = true /\
      GetStackIndex w l = Ok i)) /\
  (forall r, 0 <= r < 2 ^ 28 -> exists l,
    RegisterLocation w r = Ok l /\ AsRegister w l = Ok r) /\
  (forall low high, 0 <= low < 2 ^ 12 -> 0 <= high < 2 ^ 16 -> exists l,
    RegisterPairLocation w low high = Ok l /\
    AsRegisterPairLow w l = Ok low /\ AsRegisterPairHigh w l = Ok high) /\
  (forall register index, 0 <= register < 2 ^ 12 -> 0 <= index < 2 ^ 16 -> exists l,
    QuickParameter w register index = Ok l /\
    GetQuickParameterRegisterIndex w l = Ok register /\
    GetQuickParameterStackIndex w l = Ok index) /\
  (forall address, address <> 0 -> Z.land address 3 = 0 -> exists l,
    ConstantLocation address = Ok l /\ GetKind w l = Some kConstant /\
    GetConstant l = Ok address).
Proof.
  intros Hw. split_and!.
  - intros k p Hk Hp. eexists. by apply location_made.
  - intros i Hi. split.
    + destruct (slot_made w Hw kStackSlot i) as (l & Hl & Hk & Hg); [auto|done|].
      exists l. unfold IsStackSlot, has_kind. by rewrite Hk.
    + destruct (slot_made w Hw kDoubleStackSlot i) as (l & Hl & Hk & Hg); [auto|done|].
      exists l. unfold IsDoubleStackSlot, has_kind. by rewrite Hk.
  - intros r Hr. assert (2 ^ 28 <= 2 ^ (w - 4)) by (apply Z.pow_le_mono_r; lia).
    destruct (location_made w Hw kRegister r) as (Hm & _ & Hk & Hp); [by apply tagged_ok|lia|].
    eexists. split; [exact Hm|]. unfold AsRegister, reg, IsRegister, has_kind. rewrite Hk, Hp.
    rewrite bool_decide_true by done. cbn. f_equal. apply wrapS_id; [done|]. unfold fitsS. lia.
  - intros low high Hl Hh. destruct (halves w Hw low high Hl Hh) as (Hr & Hlow & Hhigh).
    destruct (location_made w Hw kRegisterPair _ (tagged_ok kRegisterPair eq_refl) Hr) as (Hm & _ & Hk & Hp).
    eexists. split; [exact Hm|].
    unfold AsRegisterPairLow, AsRegisterPairHigh, IsRegisterPair, has_kind.
    rewrite Hk, Hp, Hlow, Hhigh.
    by rewrite bool_decide_true.
  - intros low high Hl Hh. destruct (halves w Hw low high Hl Hh) as (Hr & Hlow & Hhigh).
    destruct (location_made w Hw kQuickParameter _ (tagged_ok kQuickParameter eq_refl) Hr) as (Hm & _ & Hk & Hp).
    eexists. split; [exact Hm|].
    unfold GetQuickParameterRegisterIndex, GetQuickParameterStackIndex, IsQuickParameter, has_kind.
    rewrite Hk, Hp, Hlow, Hhigh, bool_decide_true by done. cbn.
    split; f_equal; unfold uint32, wrapU; apply Z.mod_small; lia.
  - intros a Ha Hz. eexists. by apply constant_made.
Qed.

Lemma location_roundtrip_witness :
  exists l, StackSlot 32 (-8) = Ok l /\ IsStackSlot 32 l = true /\ GetStackIndex 32 l = Ok (-8).
Proof.
  destruct (location_roundtrip 32 ltac:(lia)) as (_ & H & _).
  exact (proj1 (H (-8) ltac:(lia))).
Defined.
