(* ===== verification/ParallelMove.v ===== *)
(** * Resolving parallel moves

    Models [ParallelMoveResolver] (compiler/optimizing/parallel_move_resolver.cc) and
    [MoveOperands] (compiler/optimizing/nodes.h): a set of moves that happen at once is
    turned into moves and swaps one after the other.  [EmitMove] and [EmitSwap] are the
    operations a code generator supplies; [Emitter] states what the resolver expects of
    them, including the freedom they have to use scratch registers.

    The theorem says that the code has the effect of the parallel move.  Its invariant
    is that the moves still to be done, as a parallel move from the present contents of
    the locations, have the effect of all moves from the initial contents.  Pending moves
    form a chain, in which every move reads what the one before it is about to
    overwrite; a cycle closes at the first of them. *)

From S2P Require Import Prelude Locations.

(** ** Move operands *)

Record MoveOperands : Type := MkMove { source_ : Z; destination_ : Z }.

Definition consistent (m : MoveOperands) : res unit :=
  check (negb (IsInvalid (source_ m)) || IsInvalid (destination_ m)).
Definition IsPending (m : MoveOperands) : res bool :=
  consistent m;; Ok (IsInvalid (destination_ m) && negb (IsInvalid (source_ m))).
Definition IsEliminated (m : MoveOperands) : res bool :=
  consistent m;; Ok (IsInvalid (source_ m)).
Definition Blocks (m : MoveOperands) (loc : Z) : res bool :=
  e ← IsEliminated m; Ok (negb e && Equals (source_ m) loc).
Definition IsRedundant (m : MoveOperands) : res bool :=
  e ← IsEliminated m;
  Ok (e || IsInvalid (destination_ m) || Equals (source_ m) (destination_ m)).
Definition MarkPending (m : MoveOperands) : res (Z * MoveOperands) :=
  p ← IsPending m; check (negb p);; Ok (destination_ m, MkMove (source_ m) NoLocation).
Definition ClearPending (m : MoveOperands) (dest : Z) : res MoveOperands :=
  p ← IsPending m; check p;; Ok (MkMove (source_ m) dest).
Definition SetSource (m : MoveOperands) (value : Z) : MoveOperands := MkMove value (destination_ m).
Definition Eliminated : MoveOperands := MkMove NoLocation NoLocation.

(** ** The resolver *)

Section Resolver.
Context {instr : Type}.

(** [moves_], and the code emitted so far. *)
Record Resolver : Type := MkResolver { moves_ : list MoveOperands; emitted : list instr }.
Abbreviation resolver := (M Resolver).

Definition Get (i : nat) : resolver MoveOperands :=
  ms ← gets moves_; lift (match ms !! i with Some m => Ok m | None => Fault CheckFailed end).
Definition Put (i : nat) (m : MoveOperands) : resolver unit :=
  modify (fun r => MkResolver (<[i := m]> (moves_ r)) (emitted r)).
Definition emit_code (l : list instr) : resolver unit :=
  modify (fun r => MkResolver (moves_ r) (emitted r ++ l)).

(** [for (size_t i = first; n more times; ++i)], and the loop over all moves. *)
Fixpoint for_range (n first : nat) (body : nat -> resolver unit) : resolver unit :=
  match n with
  | O => mret tt
  | S n => body first;; for_range n (S first) body
  end.
Definition for_moves (body : nat -> resolver unit) : resolver unit :=
  ms ← gets moves_; for_range (length ms) 0 body.

(** The first loop of [IsScratchLocation] and the search for a blocking move. *)
Fixpoint any_blocks (l : list MoveOperands) (loc : Z) : res bool :=
  match l with
  | [] => Ok false
  | m :: l => b ← Blocks m loc; if b : bool then Ok true else any_blocks l loc
  end.

Definition IsScratchLocation (loc : Z) : resolver bool :=
  ms ← gets moves_;
  b ← lift (any_blocks ms loc);
  if b : bool then mret false
  else mret (existsb (fun m => Equals (destination_ m) loc) ms).

(** The loop of [AllocateScratchRegister] from [reg] on. *)
Fixpoint find_scratch (w : Z) (n : nat) (reg blocked : Z) : resolver (option Z) :=
  match n with
  | O => mret None
  | S n =>
      found ← (if negb (blocked =? reg) then
                 loc ← lift (RegisterLocation w reg); IsScratchLocation loc
               else mret false);
      if found : bool then mret (Some reg) else find_scratch w n (reg + 1) blocked
  end.

(** Returns the register and [*spilled]. *)
Definition AllocateScratchRegister (w blocked register_count if_scratch : Z)
    : resolver (Z * bool) :=
  lift (check (negb (blocked =? if_scratch)));;
  scratch ← find_scratch w (Z.to_nat register_count) 0 blocked;
  match scratch with
  | None => mret (if_scratch, true)
  | Some reg => mret (reg, false)
  end.

(** The constructor of [ScratchRegisterScope], with the fields [reg_] and [spilled_] of the
    result, and its destructor. *)
Definition ScratchRegisterScope (SpillScratch : Z -> resolver unit)
    (w blocked if_scratch number_of_registers : Z) : resolver (Z * bool) :=
  '(reg, spilled) ← AllocateScratchRegister w blocked number_of_registers if_scratch;
  (if spilled : bool then SpillScratch reg else mret tt);;
  mret (reg, spilled).
Definition leave_scope (RestoreScratch : Z -> resolver unit) (scope : Z * bool) : resolver unit :=
  if scope.2 then RestoreScratch scope.1 else mret tt.

Section Algorithm.
Context (EmitMove EmitSwap : nat -> resolver unit).

(** The loop that searches a blocking move once the destination is restored. *)
Fixpoint blocked_by_pending (l : list MoveOperands) (destination : Z) : res bool :=
  match l with
  | [] => Ok false
  | m :: l =>
      b ← Blocks m destination;
      if b : bool then p ← IsPending m; check p;; Ok true
      else blocked_by_pending l destination
  end.

(** The sources after a swap of [source] and [swap_destination]. *)
Definition swap_source (source swap_destination : Z) (i : nat) : resolver unit :=
  m ← Get i;
  b ← lift (Blocks m source);
  if b : bool then Put i (SetSource m swap_destination)
  else
    b ← lift (Blocks m swap_destination);
    if b : bool then Put i (SetSource m source) else mret tt.

(** The end of [PerformMove], after the moves that block this one. *)
Definition finish_move (index : nat) (destination : Z) : resolver unit :=
  move ← Get index;
  move ← lift (ClearPending move destination);
  Put index move;;
  if Equals (source_ move) destination then Put index Eliminated
  else
    ms ← gets moves_;
    do_swap ← lift (blocked_by_pending ms destination);
    if do_swap : bool then
      EmitSwap index;;
      Put index Eliminated;;
      for_moves (swap_source (source_ move) (destination_ move))
    else
      EmitMove index;;
      Put index Eliminated.

Fixpoint PerformMove (fuel : nat) (index : nat) : resolver unit :=
  match fuel with
  | O => lift (Fault OutOfFuel)
  | S fuel =>
      move ← Get index;
      p ← lift (IsPending move); lift (check (negb p));;
      r ← lift (IsRedundant move); lift (check (negb r));;
      lift (check (negb (IsInvalid (source_ move))));;
      '(destination, move) ← lift (MarkPending move);
      Put index move;;
      for_moves (fun i =>
        other_move ← Get i;
        b ← lift (Blocks other_move destination);
        p ← (if b : bool then lift (IsPending other_move) else mret true);
        if b && negb p then PerformMove fuel i else mret tt);;
      finish_move index destination
  end.

(** The two loops of [EmitNativeCode]. *)
Definition perform_nonconstant (fuel i : nat) : resolver unit :=
  move ← Get i;
  e ← lift (IsEliminated move);
  if negb e && negb (IsConstant (source_ move)) then PerformMove fuel i else mret tt.
Definition emit_constant (i : nat) : resolver unit :=
  move ← Get i;
  e ← lift (IsEliminated move);
  if negb e then lift (check (IsConstant (source_ move)));; EmitMove i else mret tt.

(** [BuildInitialMoveList] *)
Fixpoint BuildInitialMoveList (parallel_move : list MoveOperands) : res (list MoveOperands) :=
  match parallel_move with
  | [] => Ok []
  | m :: l => r ← IsRedundant m; ms ← BuildInitialMoveList l; Ok (if r : bool then ms else m :: ms)
  end.

(** The recursion is as deep as there are moves, at most: every level has one more
    pending. *)
Definition EmitNativeCode (parallel_move : list MoveOperands) : resolver unit :=
  ms ← gets moves_; lift (check (bool_decide (ms = [])));;
  ms ← lift (BuildInitialMoveList parallel_move);
  modify (fun r => MkResolver ms (emitted r));;
  for_moves (perform_nonconstant (S (length ms)));;
  for_moves emit_constant;;
  modify (fun r => MkResolver [] (emitted r)).
End Algorithm.
End Resolver.
Arguments Resolver : clear implicits.

(** ** What the resolver relies on *)

Section Correctness.
Context {instr mstate V : Type}.
(** Running code, and what a state of the machine holds in a location; the contents of
    a constant are its value.  [good] states are those the code generator works in,
    [supported] locations those it handles. *)
Context (exec : list instr -> mstate -> mstate) (value : mstate -> Z -> V).
Context (good : mstate -> Prop) (supported : Z -> Prop).
Context (EmitMove EmitSwap : nat -> M (Resolver instr) unit).

(** A location that may be used as scratch while move [i] is emitted: some other move
    is going to overwrite it, and none reads it. *)
Definition scratch (ms : list MoveOperands) (i : nat) (l : Z) : Prop :=
  (forall j m, ms !! j = Some m -> source_ m <> l) /\
  exists j m, j <> i /\ ms !! j = Some m /\ destination_ m = l.

(** Everything but [changed] and scratch is as before. *)
Definition keeps (ms : list MoveOperands) (i : nat) (changed : list Z) (s s' : mstate) : Prop :=
  forall l, supported l -> l ∉ changed -> ~ scratch ms i l -> value s' l = value s l.

(** What holds of every move while another one is emitted. *)
Definition wf_move (m : MoveOperands) : Prop := source_ m = 0 -> destination_ m = 0.
Definition listed (m : MoveOperands) : Prop :=
  wf_move m /\ (destination_ m <> 0 -> supported (destination_ m)).

Class Emitter : Prop := {
  unsupported_none : ~ supported NoLocation;
  exec_nil s : exec [] s = s;
  exec_app c1 c2 s : exec (c1 ++ c2) s = exec c2 (exec c1 s);
  EmitMove_law r i m :
    Forall listed (moves_ r) -> moves_ r !! i = Some m -> supported (source_ m) -> supported (destination_ m) ->
    source_ m <> destination_ m -> IsConstant (destination_ m) = false ->
    destination_ m <> NoLocation ->
    exists new, EmitMove i r = Ok (tt, MkResolver (moves_ r) (emitted r ++ new)) /\
      forall s, good s ->
        good (exec new s) /\
        value (exec new s) (destination_ m) = value s (source_ m) /\
        keeps (moves_ r) i [destination_ m] s (exec new s) /\
        (IsConstant (source_ m) = true -> forall l, supported l -> l <> destination_ m ->
          value (exec new s) l = value s l);
  EmitSwap_law r i m :
    Forall listed (moves_ r) -> moves_ r !! i = Some m -> supported (source_ m) -> supported (destination_ m) ->
    source_ m <> destination_ m -> IsConstant (source_ m) = false ->
    IsConstant (destination_ m) = false -> destination_ m <> NoLocation ->
    exists new, EmitSwap i r = Ok (tt, MkResolver (moves_ r) (emitted r ++ new)) /\
      forall s, good s ->
        good (exec new s) /\
        value (exec new s) (destination_ m) = value s (source_ m) /\
        value (exec new s) (source_ m) = value s (destination_ m) /\
        keeps (moves_ r) i [source_ m; destination_ m] s (exec new s);
}.

Context (E : Emitter).

(** ** Moves and their states *)

Lemma IsInvalid_spec l : IsInvalid l = (l =? 0).
Proof. unfold IsInvalid, IsValid. apply negb_involutive. Qed.

Definition remaining (m : MoveOperands) : Prop := source_ m <> 0.

Lemma eliminated_eq m : (source_ m = 0 -> destination_ m = 0) ->
  IsEliminated m = Ok (source_ m =? 0).
Proof.
  intros H. unfold IsEliminated, consistent. rewrite !IsInvalid_spec.
  destruct (Z.eqb_spec (source_ m) 0); [|done]. by rewrite H.
Qed.
Lemma pending_eq m : (source_ m = 0 -> destination_ m = 0) ->
  IsPending m = Ok ((destination_ m =? 0) && negb (source_ m =? 0)).
Proof.
  intros H. unfold IsPending, consistent. rewrite !IsInvalid_spec.
  destruct (Z.eqb_spec (source_ m) 0); [|done]. by rewrite H.
Qed.
Lemma blocks_eq m l : (source_ m = 0 -> destination_ m = 0) -> l <> 0 ->
  Blocks m l = Ok (source_ m =? l).
Proof.
  intros H Hl. unfold Blocks. rewrite eliminated_eq by done. cbn. unfold Equals. f_equal.
  destruct (Z.eqb_spec (source_ m) 0); [lia|done].
Qed.

(** ** The invariant *)

Section Moves.
(** The destinations of the moves. *)
Context (dests : list Z).
Hypothesis dests_valid : Forall (fun d => d <> 0 /\ IsConstant d = false /\ supported d) dests.
Hypothesis dests_distinct : NoDup dests.

(** The state of move [i] when [stack] holds the pending moves, the innermost
    first. *)
Definition move_ok (stack : list nat) (i : nat) (m : MoveOperands) : Prop :=
  (remaining m -> supported (source_ m)) /\
  if decide (i ∈ stack) then remaining m /\ destination_ m = 0
  else m = Eliminated \/
    (remaining m /\ dests !! i = Some (destination_ m) /\ source_ m <> destination_ m).

Record moves_ok (stack : list nat) (ms : list MoveOperands) : Prop := {
  ok_length : length ms = length dests;
  ok_move i m : ms !! i = Some m -> move_ok stack i m;
  ok_stack : NoDup stack;
  ok_inside i : i ∈ stack -> (i < length ms)%nat;
  (** a pending move reads what the one below it is going to overwrite *)
  ok_chain k c p m : stack !! k = Some c -> stack !! S k = Some p -> ms !! c = Some m ->
    dests !! p = Some (source_ m);
}.

(** [final] is what the moves that remain make of the state [s]. *)
Definition effect (ms : list MoveOperands) (s : mstate) (final : Z -> V) : Prop :=
  (forall i m d, ms !! i = Some m -> remaining m -> dests !! i = Some d ->
    final d = value s (source_ m)) /\
  (forall l, supported l ->
    (forall i m, ms !! i = Some m -> remaining m -> dests !! i <> Some l) -> final l = value s l).

Lemma dest_valid i d : dests !! i = Some d -> d <> 0 /\ IsConstant d = false /\ supported d.
Proof. intros H. rewrite Forall_lookup in dests_valid. by apply (dests_valid i). Qed.
Lemma dest_inj i j d : dests !! i = Some d -> dests !! j = Some d -> i = j.
Proof. intros. by eapply NoDup_lookup. Qed.

Lemma move_consistent stack i m : move_ok stack i m -> source_ m = 0 -> destination_ m = 0.
Proof.
  unfold move_ok, remaining. intros [_ H] H0. destruct (decide _).
  - by destruct H as [H _].
  - destruct H as [->|[H _]]; done.
Qed.

(** *** The effect of a move, a swap and a move that has nothing to do *)

Lemma destination_dest stack ms j m l :
  moves_ok stack ms -> ms !! j = Some m -> destination_ m = l -> l <> 0 ->
  remaining m /\ dests !! j = Some l.
Proof.
  intros Hok Hj Hd Hl. destruct (ok_move _ _ Hok _ _ Hj) as [_ H]. destruct (decide _).
  - destruct H. congruence.
  - destruct H as [->|(? & ? & ?)]; [by subst|]. by subst.
Qed.

(** A location no move writes is not scratch. *)
Lemma not_scratch_free stack ms i l :
  moves_ok stack ms -> l <> 0 ->
  (forall j m, ms !! j = Some m -> remaining m -> dests !! j <> Some l) -> ~ scratch ms i l.
Proof.
  intros Hok Hl Hfree [_ (j & m & _ & Hj & Hd)].
  destruct (destination_dest _ _ _ _ _ Hok Hj Hd Hl). by eapply Hfree.
Qed.
Lemma not_scratch_source ms i j m : ms !! j = Some m -> ~ scratch ms i (source_ m).
Proof. intros Hj [H _]. by eapply H. Qed.

Lemma effect_move stack ms i m s s' final :
  moves_ok stack ms -> ms !! i = Some m -> remaining m -> dests !! i = Some (destination_ m) ->
  (forall j mj, j <> i -> ms !! j = Some mj -> source_ mj <> destination_ m) ->
  value s' (destination_ m) = value s (source_ m) ->
  keeps ms i [destination_ m] s s' ->
  effect (<[i := Eliminated]> ms) s' final -> effect ms s final.
Proof.
  intros Hok Hi Hr Hd Hother Hv Hk [H1 H2].
  destruct (dest_valid _ _ Hd) as (Hd0 & _ & Hsup).
  assert (forall j mj, <[i := Eliminated]> ms !! j = Some mj -> remaining mj ->
    j <> i /\ ms !! j = Some mj) as Hold.
  { intros j mj. rewrite list_lookup_insert_Some. intros [(<- & <- & _)|[? ?]] Hrj; [done|auto]. }
  split.
  - intros j mj d Hj Hrj Hdj. destruct (decide (j = i)) as [->|Hne].
    + assert (mj = m) as -> by congruence. assert (d = destination_ m) as -> by congruence.
      rewrite <- Hv. apply H2; [done|]. intros j' mj' Hj' Hr' Hd'.
      destruct (Hold _ _ Hj' Hr') as [Hne _]. apply Hne. by eapply dest_inj.
    + rewrite (H1 j mj d); [|by rewrite list_lookup_insert_ne|done|done].
      apply Hk; [|rewrite list_elem_of_singleton; by eapply Hother|by eapply not_scratch_source].
      by apply (ok_move _ _ Hok _ _ Hj).
  - intros l Hl Hfree. rewrite H2; [|done|].
    + apply Hk; [done| |eapply not_scratch_free; [done| |done]].
      * rewrite list_elem_of_singleton. intros ->. by eapply Hfree.
      * intros ->. by apply unsupported_none.
    + intros j mj Hj Hrj. destruct (Hold _ _ Hj Hrj). by eapply Hfree.
Qed.

Definition swap_move (s d : Z) (m : MoveOperands) : MoveOperands :=
  if source_ m =? s then SetSource m d else if source_ m =? d then SetSource m s else m.

Lemma effect_swap stack ms i m k mk s s' final :
  moves_ok stack ms -> ms !! i = Some m -> remaining m -> dests !! i = Some (destination_ m) ->
  k <> i -> ms !! k = Some mk -> remaining mk -> dests !! k = Some (source_ m) ->
  value s' (destination_ m) = value s (source_ m) ->
  value s' (source_ m) = value s (destination_ m) ->
  keeps ms i [source_ m; destination_ m] s s' ->
  effect (swap_move (source_ m) (destination_ m) <$> <[i := Eliminated]> ms) s' final ->
  effect ms s final.
Proof.
  intros Hok Hi Hr Hd Hki Hmk Hrk Hdk Hv1 Hv2 Hk [H1 H2].
  destruct (dest_valid _ _ Hd) as (Hd0 & _ & Hsup).
  set (sw := swap_move _ _) in *.
  assert (forall j mj, (sw <$> <[i := Eliminated]> ms) !! j = Some mj -> remaining mj ->
    j <> i /\ exists m', ms !! j = Some m' /\ remaining m') as Hold.
  { intros j mj. rewrite list_lookup_fmap_Some. intros (m' & -> & Hj) Hrj.
    apply list_lookup_insert_Some in Hj as [(<- & <- & _)|[? ?]].
    - exfalso. revert Hrj. unfold sw, swap_move, remaining. cbn.
      unfold remaining in Hr. repeat case_match; cbn; lia.
    - split; [done|]. exists m'. split; [done|]. intros Hz. apply Hrj. unfold sw, swap_move.
      unfold remaining in Hr. rewrite Hz. repeat case_match; cbn; lia. }
  split.
  - intros j mj d Hj Hrj Hdj. destruct (decide (j = i)) as [->|Hne].
    + assert (mj = m) as -> by congruence. assert (d = destination_ m) as -> by congruence.
      rewrite <- Hv1. apply H2; [done|]. intros j' mj' Hj' Hr' Hd'.
      destruct (Hold _ _ Hj' Hr') as [Hne _]. apply Hne. by eapply dest_inj.
    + assert (remaining (sw mj)) as Hr'.
      { unfold sw, swap_move, remaining in *. repeat case_match; cbn; lia. }
      rewrite (H1 j (sw mj) d); [| |done|done].
      2: { rewrite list_lookup_fmap, list_lookup_insert_ne, Hj by done. done. }
      unfold sw, swap_move. destruct (Z.eqb_spec (source_ mj) (source_ m)) as [->|]; [done|].
      destruct (Z.eqb_spec (source_ mj) (destination_ m)) as [->|]; [done|].
      apply Hk; [by apply (ok_move _ _ Hok _ _ Hj)| |by eapply not_scratch_source].
      set_solver.
  - intros l Hl Hfree. rewrite H2; [|done|].
    + apply Hk; [done| |eapply not_scratch_free; [done| |done]].
      * rewrite !elem_of_cons, elem_of_nil. intros [->|[->|[]]]; [by eapply (Hfree k)|by eapply (Hfree i)].
      * intros ->. by apply unsupported_none.
    + intros j mj Hj Hrj. destruct (Hold _ _ Hj Hrj) as (_ & m' & ? & ?). by eapply Hfree.
Qed.

Lemma effect_drop ms i m s final :
  ms !! i = Some m -> dests !! i = Some (source_ m) ->
  effect (<[i := Eliminated]> ms) s final -> effect ms s final.
Proof.
  intros Hi Hd [H1 H2]. destruct (dest_valid _ _ Hd) as (_ & _ & Hsup). split.
  - intros j mj d Hj Hrj Hdj. destruct (decide (j = i)) as [->|Hne].
    + assert (mj = m) as -> by congruence. assert (d = source_ m) as -> by congruence.
      apply H2; [done|]. intros j' mj' Hj' Hr' Hd'. assert (j' = i) as -> by (by eapply dest_inj).
      rewrite list_lookup_insert_eq in Hj' by (by eapply lookup_lt_Some). by injection Hj' as <-.
    + apply (H1 j mj d); [by rewrite list_lookup_insert_ne|done|done].
  - intros l Hl Hfree. apply H2; [done|]. intros j mj Hj Hrj.
    apply list_lookup_insert_Some in Hj as [(<- & <- & _)|[? ?]]; [done|]. by eapply Hfree.
Qed.

(** The effect depends on the sources of the moves only. *)
Lemma effect_sources ms ms' s final :
  source_ <$> ms = source_ <$> ms' -> effect ms s final -> effect ms' s final.
Proof.
  intros Hs [H1 H2].
  assert (forall i m', ms' !! i = Some m' -> exists m, ms !! i = Some m /\ source_ m = source_ m') as Hl.
  { intros i m' Hi. assert ((source_ <$> ms) !! i = Some (source_ m')) as Hi'
      by (by rewrite Hs, list_lookup_fmap, Hi).
    apply list_lookup_fmap_Some in Hi' as (m & ? & ?). eauto. }
  assert (forall i m, ms !! i = Some m -> exists m', ms' !! i = Some m' /\ source_ m = source_ m') as Hr.
  { intros i m Hi. assert ((source_ <$> ms') !! i = Some (source_ m)) as Hi'
      by (by rewrite <- Hs, list_lookup_fmap, Hi).
    apply list_lookup_fmap_Some in Hi' as (m' & ? & ?). eauto. }
  unfold remaining in *. split.
  - intros i m' d Hi Hrem Hd. destruct (Hl _ _ Hi) as (m & Hm & He).
    rewrite <- He. eapply H1; [done|by rewrite He|done].
  - intros l Hl' Hfree. apply H2; [done|]. intros i m Hi Hrem.
    destruct (Hr _ _ Hi) as (m' & Hm & He). rewrite He in Hrem. eauto.
Qed.

Lemma sources_insert (ms : list MoveOperands) i m m' :
  ms !! i = Some m -> source_ m' = source_ m -> source_ <$> <[i := m']> ms = source_ <$> ms.
Proof.
  intros Hi He. rewrite list_fmap_insert, He. apply list_insert_id.
  by rewrite list_lookup_fmap, Hi.
Qed.

(** *** Transitions of the invariant *)

Lemma push_ok stack ms i m :
  moves_ok stack ms -> i ∉ stack -> ms !! i = Some m -> remaining m ->
  (forall p, head stack = Some p -> dests !! p = Some (source_ m)) ->
  moves_ok (i :: stack) (<[i := MkMove (source_ m) 0]> ms).
Proof.
  intros Hok Hi Hm Hr Hhead. assert (i < length ms)%nat as Hlt by (by eapply lookup_lt_Some).
  split.
  - rewrite length_insert. apply Hok.
  - intros j mj Hj. apply list_lookup_insert_Some in Hj as [(<- & <- & _)|[Hne Hj]].
    + destruct (ok_move _ _ Hok _ _ Hm) as [Hs _]. split; [done|].
      rewrite decide_True by set_solver. done.
    + destruct (ok_move _ _ Hok _ _ Hj) as [Hs H]. split; [done|].
      destruct (decide (j ∈ stack)).
      * by rewrite decide_True by set_solver.
      * by rewrite decide_False by set_solver.
  - constructor; [done|apply Hok].
  - intros j. rewrite length_insert, elem_of_cons. intros [->|]; [done|by apply Hok].
  - intros k c p mc Hc Hp Hmc. destruct k as [|k]; cbn in Hc, Hp.
    + injection Hc as <-. rewrite list_lookup_insert_eq in Hmc by done. injection Hmc as <-. cbn.
      apply Hhead. by destruct stack.
    + rewrite list_lookup_insert_ne in Hmc.
      * exact (ok_chain _ _ Hok k c p mc Hc Hp Hmc).
      * intros <-. apply Hi. by eapply list_elem_of_lookup_2.
Qed.

Lemma settle_ok stack ms i m :
  moves_ok (i :: stack) ms -> move_ok stack i m -> moves_ok stack (<[i := m]> ms).
Proof.
  intros Hok Hm. pose proof (ok_stack _ _ Hok) as Hnd. apply NoDup_cons in Hnd as [Hi Hnd]. split.
  - rewrite length_insert. apply Hok.
  - intros j mj Hj. apply list_lookup_insert_Some in Hj as [(<- & <- & _)|[Hne Hj]]; [done|].
    destruct (ok_move _ _ Hok _ _ Hj) as [Hs H]. split; [done|].
    destruct (decide (j ∈ stack)).
    + by rewrite decide_True in H by set_solver.
    + by rewrite decide_False in H by set_solver.
  - done.
  - intros j Hj. rewrite length_insert. apply (ok_inside _ _ Hok). set_solver.
  - intros k c p mc Hc Hp Hmc. rewrite list_lookup_insert_ne in Hmc.
    + exact (ok_chain _ _ Hok (S k) c p mc Hc Hp Hmc).
    + intros <-. apply Hi. by eapply list_elem_of_lookup_2.
Qed.

Lemma eliminate_ok stack ms i :
  moves_ok stack ms -> i ∉ stack -> moves_ok stack (<[i := Eliminated]> ms).
Proof.
  intros Hok Hi. split.
  - rewrite length_insert. apply Hok.
  - intros j mj Hj. apply list_lookup_insert_Some in Hj as [(<- & <- & _)|[Hne Hj]].
    + split; [done|]. rewrite decide_False by done. by left.
    + by apply (ok_move _ _ Hok).
  - apply Hok.
  - intros j Hj. rewrite length_insert. by apply (ok_inside _ _ Hok).
  - intros k c p mc Hc Hp Hmc. rewrite list_lookup_insert_ne in Hmc.
    + exact (ok_chain _ _ Hok k c p mc Hc Hp Hmc).
    + intros <-. apply Hi. by eapply list_elem_of_lookup_2.
Qed.

Lemma swap_move_cases s d m :
  (source_ m = s /\ swap_move s d m = SetSource m d) \/
  (source_ m <> s /\ source_ m = d /\ swap_move s d m = SetSource m s) \/
  (source_ m <> s /\ source_ m <> d /\ swap_move s d m = m).
Proof.
  unfold swap_move. destruct (Z.eqb_spec (source_ m) s); [auto|].
  destruct (Z.eqb_spec (source_ m) d); auto.
Qed.

(** The move that closes a cycle: its source [s] is the destination of the pending move
    [p] below it. *)
Lemma swap_ok stack ms i p s d :
  moves_ok stack ms -> i ∉ stack -> dests !! i = Some d ->
  head stack = Some p -> dests !! p = Some s -> ms !! i = Some Eliminated ->
  (forall j mj, j ∉ stack -> ms !! j = Some mj -> source_ mj <> d) ->
  moves_ok stack (swap_move s d <$> ms).
Proof.
  intros Hok Hi Hd Hhead Hp Helim Hfree.
  destruct (dest_valid _ _ Hd) as (Hd0 & _ & Hdsup), (dest_valid _ _ Hp) as (Hs0 & _ & Hssup).
  split.
  - rewrite length_fmap. apply Hok.
  - intros j mj Hj. apply list_lookup_fmap_Some in Hj as (m & -> & Hj).
    destruct (ok_move _ _ Hok _ _ Hj) as [Hs H]. unfold move_ok, remaining in *.
    destruct (decide (j ∈ stack)) as [Hin|Hout].
    + destruct (swap_move_cases s d m) as [[? ->]|[(_ & ? & ->)|(_ & _ & ->)]]; cbn; [..|done];
        destruct H; done.
    + destruct H as [->|(Hr & Hdj & Hsd)].
      { split; [by destruct (swap_move_cases s d Eliminated) as [[? ->]|[(_ & ? & ->)|(_ & _ & ->)]]|].
        left. unfold swap_move. cbn. by repeat case_match; try lia. }
      destruct (swap_move_cases s d m) as [[? ->]|[(_ & ? & ->)|(_ & _ & ->)]]; cbn.
      * split; [done|]. right. split_and!; [done..|]. intros Heq. rewrite <- Heq in Hdj.
        assert (j = i) as -> by (by eapply dest_inj). rewrite Helim in Hj. injection Hj as <-. done.
      * by exfalso; eapply Hfree.
      * auto.
  - apply Hok.
  - intros j Hj. rewrite length_fmap. by apply (ok_inside _ _ Hok).
  - intros k c q mc Hc Hq Hmc. apply list_lookup_fmap_Some in Hmc as (m & -> & Hmc).
    pose proof (ok_chain _ _ Hok _ _ _ _ Hc Hq Hmc) as Hchain.
    destruct (swap_move_cases s d m) as [[Hs ->]|[(_ & Hs & ->)|(_ & _ & ->)]]; [..|done]; exfalso;
      rewrite Hs in Hchain.
    + assert (q = p) as -> by (by eapply dest_inj). destruct stack as [|p' stack]; [done|].
      injection Hhead as ->. assert (0%nat = S k) by (by eapply NoDup_lookup; [apply Hok|..]). done.
    + assert (q = i) as -> by (by eapply dest_inj). apply Hi. by eapply list_elem_of_lookup_2.
Qed.

(** *** What performing moves achieves *)

Record performs (stack : list nat) (ms ms' : list MoveOperands) : Prop := {
  pf_ok : moves_ok stack ms';
  pf_gone j : ms !! j = Some Eliminated -> ms' !! j = Some Eliminated;
  pf_old j m' : ms' !! j = Some m' -> remaining m' ->
    exists m, ms !! j = Some m /\ remaining m /\ IsConstant (source_ m') = IsConstant (source_ m);
  (** no move comes to block a pending one *)
  pf_block p d j m' : p ∈ stack -> dests !! p = Some d -> j ∉ stack ->
    ms' !! j = Some m' -> source_ m' = d -> exists m, ms !! j = Some m /\ source_ m = d;
}.

Lemma performs_refl stack ms : moves_ok stack ms -> performs stack ms ms.
Proof. intros Hok. split; eauto. Qed.

Lemma performs_trans stack ms1 ms2 ms3 :
  performs stack ms1 ms2 -> performs stack ms2 ms3 -> performs stack ms1 ms3.
Proof.
  intros [_ Hg1 Ho1 Hb1] [Hok Hg2 Ho2 Hb2]. split; [done|eauto|..].
  - intros j m' Hj Hr. destruct (Ho2 _ _ Hj Hr) as (m2 & Hj2 & Hr2 & ->). eauto.
  - intros p d j m' Hp Hd Hn Hj Hs. destruct (Hb2 _ _ _ _ Hp Hd Hn Hj Hs) as (m2 & ? & ?). eauto.
Qed.

(** The code [new] takes the moves [ms] to the moves [ms']. *)
Definition leads (ms : list MoveOperands) (new : list instr) (ms' : list MoveOperands) : Prop :=
  forall s, good s -> good (exec new s) /\
    forall final, effect ms' (exec new s) final -> effect ms s final.

Lemma leads_refl ms : leads ms [] ms.
Proof. intros s Hs. rewrite exec_nil. auto. Qed.
Lemma leads_trans ms1 ms2 ms3 c1 c2 :
  leads ms1 c1 ms2 -> leads ms2 c2 ms3 -> leads ms1 (c1 ++ c2) ms3.
Proof.
  intros H1 H2 s Hs. rewrite exec_app. destruct (H1 s Hs) as [Hg He].
  destruct (H2 _ Hg) as [Hg' He']. auto.
Qed.

(** A step of the resolver: from moves [ms] to [ms'], adding code. *)
Definition achieves (m : M (Resolver instr) unit) (stack : list nat) (ms : list MoveOperands)
    (post : list MoveOperands -> Prop) : Prop :=
  forall c, exists ms' new, m (MkResolver ms c) = Ok (tt, MkResolver ms' (c ++ new)) /\
    performs stack ms ms' /\ leads ms new ms' /\ post ms'.

Lemma Get_at i ms c m : ms !! i = Some m -> Get (instr := instr) i (MkResolver ms c) = Ok (m, MkResolver ms c).
Proof. intros H. unfold Get, mbind, M_bind, gets. cbn. by rewrite H. Qed.

(** The loop over the moves that block the destination [d] of the move on top of the
    stack. *)
Definition blocker (perform : nat -> M (Resolver instr) unit) (d : Z) (i : nat)
    : M (Resolver instr) unit :=
  other_move ← Get i;
  b ← lift (Blocks other_move d);
  p ← (if b : bool then lift (IsPending other_move) else mret true);
  if b && negb p then perform i else mret tt.

Definition unblocked (stack : list nat) (d : Z) (ms : list MoveOperands) : Prop :=
  forall j mj, j ∉ stack -> ms !! j = Some mj -> source_ mj <> d.

Lemma blockers_performed perform stack i d :
  dests !! i = Some d ->
  (forall ms j m, moves_ok (i :: stack) ms -> j ∉ i :: stack -> ms !! j = Some m ->
    source_ m = d -> achieves (perform j) (i :: stack) ms (fun ms' => ms' !! j = Some Eliminated)) ->
  forall n k ms, (k + n = length ms)%nat -> moves_ok (i :: stack) ms ->
    (forall j mj, (j < k)%nat -> j ∉ i :: stack -> ms !! j = Some mj -> source_ mj <> d) ->
    achieves (for_range n k (blocker perform d)) (i :: stack) ms (unblocked (i :: stack) d).
Proof.
  intros Hd Hperform. destruct (dest_valid _ _ Hd) as (Hd0 & _ & _).
  induction n as [|n IH]; intros k ms Hn Hok Hbelow c; cbn [for_range].
  { exists ms, []. rewrite app_nil_r. split_and!; [done|by apply performs_refl|apply leads_refl|].
    intros j mj Hj Hmj. eapply Hbelow; [|done|done]. apply lookup_lt_Some in Hmj. lia. }
  destruct (lookup_lt_is_Some_2 ms k) as [m Hm]; [lia|].
  pose proof (move_consistent _ _ _ (ok_move _ _ Hok _ _ Hm)) as Hcons.
  destruct (decide ((k ∉ i :: stack) /\ source_ m = d)) as [[Hk Hs]|Hskip].
  - destruct (Hperform ms k m Hok Hk Hm Hs c) as (ms1 & c1 & Hrun & Hp1 & Hl1 & Hgone).
    assert (blocker perform d k (MkResolver ms c) = Ok (tt, MkResolver ms1 (c ++ c1))) as Hb.
    { unfold blocker. rewrite (M_bind_step _ _ _ _ _ (Get_at _ _ _ _ Hm)).
      rewrite blocks_eq, Hs, Z.eqb_refl by done. cbn. rewrite pending_eq by done.
      destruct (ok_move _ _ Hok _ _ Hm) as [_ Hst]. rewrite decide_False in Hst by done.
      destruct Hst as [->|(_ & Hdk & _)]; [by cbn in Hs; subst|].
      apply dest_valid in Hdk as (Hne & _).
      by destruct (Z.eqb_spec (destination_ m) 0). }
    rewrite (M_bind_step _ _ _ _ _ Hb).
    destruct (IH (S k) ms1) with (c := c ++ c1) as (ms2 & c2 & Hrun2 & Hp2 & Hl2 & Hun).
    + rewrite (ok_length _ _ (pf_ok _ _ _ Hp1)), <- (ok_length _ _ Hok). lia.
    + apply Hp1.
    + intros j mj Hj Hout Hmj Hsj.
      destruct (pf_block _ _ _ Hp1 i d j mj) as (m0 & Hm0 & Hs0); [set_solver|done..|].
      destruct (decide (j = k)) as [->|]; [rewrite Hgone in Hmj; injection Hmj as <-; by subst|].
      eapply (Hbelow j m0); [lia|done..].
    + exists ms2, (c1 ++ c2). rewrite app_assoc.
      split_and!; [done|by eapply performs_trans|by eapply leads_trans|done].
  - assert (blocker perform d k (MkResolver ms c) = Ok (tt, MkResolver ms c)) as Hb.
    { unfold blocker. rewrite (M_bind_step _ _ _ _ _ (Get_at _ _ _ _ Hm)).
      rewrite blocks_eq by done. cbn. destruct (Z.eqb_spec (source_ m) d) as [Hs|]; [|done]. cbn.
      rewrite pending_eq by done. destruct (ok_move _ _ Hok _ _ Hm) as [_ Hst].
      rewrite decide_True in Hst by (apply dec_stable; tauto). destruct Hst as [Hr ->].
      unfold remaining in Hr. by destruct (Z.eqb_spec (source_ m) 0). }
    rewrite (M_bind_step _ _ _ _ _ Hb). apply IH; [lia|done|].
    intros j mj Hj Hout Hmj. destruct (decide (j = k)) as [->|]; [|by eapply (Hbelow j); [lia|..]].
    intros Hs. apply Hskip. rewrite Hm in Hmj. injection Hmj as <-. done.
Qed.

(** *** The end of a move *)

Lemma moves_wf stack ms : moves_ok stack ms -> Forall wf_move ms.
Proof.
  intros Hok. apply Forall_lookup. intros j m Hj.
  exact (move_consistent _ _ _ (ok_move _ _ Hok _ _ Hj)).
Qed.

Lemma moves_listed stack ms : moves_ok stack ms -> Forall listed ms.
Proof.
  intros Hok. apply Forall_lookup. intros j m Hj. split; [exact (move_consistent _ _ _ (ok_move _ _ Hok _ _ Hj))|].
  intros Hd. destruct (destination_dest _ _ _ _ _ Hok Hj eq_refl Hd) as [_ Hl].
  by apply dest_valid in Hl as (_ & _ & ?).
Qed.

Lemma blocked_spec l d : d <> 0 -> Forall wf_move l ->
  (forall m, m ∈ l -> source_ m = d -> destination_ m = 0) ->
  exists b, blocked_by_pending l d = Ok b /\ (b = true <-> exists m, m ∈ l /\ source_ m = d).
Proof.
  intros Hd Hwf Hp. induction Hwf as [|m l Hm _ IH]; cbn [blocked_by_pending].
  { exists false. split; [done|]. split; [done|]. intros (m & Hm & _). by apply elem_of_nil in Hm. }
  rewrite blocks_eq by done. cbn. destruct (Z.eqb_spec (source_ m) d) as [Hs|Hs].
  - exists true. rewrite pending_eq, (Hp m) by (done || left). cbn.
    destruct (Z.eqb_spec (source_ m) 0); [lia|]. split; [done|]. split; [|done]. intros _.
    exists m. split; [left|done].
  - destruct IH as (b & -> & Hb). { intros m' Hm'. apply Hp. by right. }
    exists b. split; [done|]. rewrite Hb. split.
    + intros (m' & ? & ?). exists m'. split; [by right|done].
    + intros (m' & Hin & ?). apply elem_of_cons in Hin as [->|?]; [done|eauto].
Qed.

Lemma swap_source_at s d i l c m : s <> 0 -> d <> 0 -> wf_move m -> l !! i = Some m ->
  swap_source (instr := instr) s d i (MkResolver l c) =
  Ok (tt, MkResolver (<[i := swap_move s d m]> l) c).
Proof.
  intros Hs Hd Hm Hi. unfold swap_source. rewrite (M_bind_step _ _ _ _ _ (Get_at _ _ _ _ Hi)).
  rewrite !blocks_eq by done. unfold swap_move. cbn. destruct (source_ m =? s); [reflexivity|].
  cbn. destruct (source_ m =? d); [reflexivity|].
  by rewrite list_insert_id.
Qed.

Lemma swap_range s d n : s <> 0 -> d <> 0 ->
  forall (pre l : list MoveOperands) c, Forall wf_move l -> length l = n ->
  for_range (instr := instr) n (length pre) (swap_source s d) (MkResolver (pre ++ l) c) =
  Ok (tt, MkResolver (pre ++ (swap_move s d <$> l)) c).
Proof.
  intros Hs Hd. induction n as [|n IH]; intros pre l c Hwf Hn.
  { by destruct l. }
  destruct l as [|m l]; [done|]. injection Hn as Hn. apply Forall_cons in Hwf as [Hm Hwf].
  cbn [for_range]. rewrite (M_bind_step _ _ _ _ _ (swap_source_at s d (length pre) _ c m Hs Hd Hm
    (list_lookup_middle pre l m _ eq_refl))).
  rewrite insert_app_r_alt, Nat.sub_diag by done. cbn.
  specialize (IH (pre ++ [swap_move s d m]) l c Hwf Hn). rewrite length_app in IH. cbn in IH.
  rewrite Nat.add_1_r, <- !app_assoc in IH. apply IH.
Qed.

Lemma swap_all s d l c : s <> 0 -> d <> 0 -> Forall wf_move l ->
  for_moves (instr := instr) (swap_source s d) (MkResolver l c) =
  Ok (tt, MkResolver (swap_move s d <$> l) c).
Proof. intros Hs Hd Hwf. by apply (swap_range s d (length l) Hs Hd [] l c Hwf). Qed.

Lemma top_out i stack ms : moves_ok (i :: stack) ms -> i ∉ stack.
Proof. intros Hok. pose proof (ok_stack _ _ Hok) as Hnd. by apply NoDup_cons in Hnd as [? _]. Qed.

Lemma performs_eliminate stack ms i m :
  moves_ok (i :: stack) ms -> ms !! i = Some m -> performs stack ms (<[i := Eliminated]> ms).
Proof.
  intros Hok Hi. pose proof (top_out _ _ _ Hok) as Hout.
  split.
  - apply settle_ok; [done|]. split; [done|]. rewrite decide_False by done. by left.
  - intros j Hj. destruct (decide (j = i)) as [->|]; [|by rewrite list_lookup_insert_ne].
    apply list_lookup_insert_eq. by eapply lookup_lt_Some.
  - intros j m' Hj Hr. apply list_lookup_insert_Some in Hj as [(<- & <- & _)|[? ?]]; [done|eauto].
  - intros p d j m' Hp Hd _ Hj Hs.
    apply list_lookup_insert_Some in Hj as [(<- & <- & _)|[? ?]]; [|eauto].
    apply dest_valid in Hd as [? _]. by cbn in Hs.
Qed.

Lemma performs_swap stack ms i m d p :
  moves_ok (i :: stack) ms -> ms !! i = Some m -> dests !! i = Some d ->
  head stack = Some p -> dests !! p = Some (source_ m) -> unblocked (i :: stack) d ms ->
  performs stack ms (swap_move (source_ m) d <$> <[i := Eliminated]> ms).
Proof.
  intros Hok Hi Hd Hhead Hp Hun.
  pose proof (top_out _ _ _ Hok) as Hout.
  destruct (performs_eliminate _ _ _ _ Hok Hi) as [Hok' Hgone Hold Hblock].
  assert (i < length ms)%nat as Hlt by (by eapply lookup_lt_Some).
  destruct (dest_valid _ _ Hd) as (Hd0 & Hdc & _), (dest_valid _ _ Hp) as (Hs0 & Hsc & _).
  assert (unblocked stack d (<[i := Eliminated]> ms)) as Hun'.
  { intros j mj Hj Hmj. apply list_lookup_insert_Some in Hmj as [(<- & <- & _)|[? ?]]; [cbn; congruence|].
    eapply Hun; [|done]. set_solver. }
  split.
  - apply swap_ok with i p; try done. by apply list_lookup_insert_eq.
  - intros j Hj. rewrite list_lookup_fmap, (Hgone j Hj). cbn. f_equal. unfold swap_move. cbn.
    by repeat case_match; try lia.
  - intros j m' Hj Hr. apply list_lookup_fmap_Some in Hj as (m0 & -> & Hj).
    assert (remaining m0) as Hr0.
    { intros Hz. apply Hr. unfold swap_move. rewrite Hz. by repeat case_match; try lia. }
    destruct (Hold _ _ Hj Hr0) as (m1 & Hm1 & Hr1 & Hc). exists m1. split_and!; [done..|].
    rewrite <- Hc. destruct (swap_move_cases (source_ m) d m0) as [[-> ->]|[(_ & -> & ->)|(_ & _ & ->)]];
      cbn; congruence.
  - intros q e j m' Hq He Hj Hm' Hs. apply list_lookup_fmap_Some in Hm' as (m0 & -> & Hm0).
    destruct (swap_move_cases (source_ m) d m0) as [[Hs0' Hsw]|[(_ & Hs0' & Hsw)|(_ & _ & Hsw)]];
      rewrite Hsw in Hs; cbn in Hs.
    + subst e. assert (q = i) as -> by (by eapply dest_inj). done.
    + by destruct (Hun' j m0).
    + by eapply Hblock.
Qed.

(** The three ways a move ends: it has become a move to itself, it closes a cycle, or
    nothing reads its destination any more. *)
Section Finish.
Context (stack : list nat) (ms : list MoveOperands) (i : nat) (m : MoveOperands) (d : Z).
Hypothesis (Hok : moves_ok (i :: stack) ms) (Hi : ms !! i = Some m) (Hd : dests !! i = Some d).
Hypothesis Hun : unblocked (i :: stack) d ms.
Local Abbreviation m1 := (MkMove (source_ m) d).
Local Abbreviation ms1 := (<[i := m1]> ms).

Lemma finish_lookup : ms1 !! i = Some m1.
Proof. apply list_lookup_insert_eq. by eapply lookup_lt_Some. Qed.

Lemma finish_pending : remaining m /\ destination_ m = 0 /\ supported (source_ m).
Proof.
  destruct (ok_move _ _ Hok _ _ Hi) as [Hsup Hst]. rewrite decide_True in Hst by set_solver.
  destruct Hst. auto.
Qed.

Lemma finish_restored : source_ m <> d -> moves_ok stack ms1.
Proof.
  intros Hsd. destruct finish_pending as (? & ? & ?). apply settle_ok; [done|]. split; [done|].
  rewrite decide_False by (by eapply top_out). by right.
Qed.

Lemma finish_effect s final : effect ms1 s final -> effect ms s final.
Proof. apply effect_sources. by apply (sources_insert ms i m). Qed.

Lemma finish_eliminate c : Put i Eliminated (MkResolver ms1 c) =
  Ok (tt, MkResolver (instr := instr) (<[i := Eliminated]> ms) c).
Proof. unfold Put, modify. cbn. by rewrite list_insert_insert_eq. Qed.

Lemma finish_by_move c : source_ m <> d ->
  (forall j mj, ms1 !! j = Some mj -> source_ mj <> d) ->
  exists new, (EmitMove i;; Put i Eliminated) (MkResolver ms1 c) =
    Ok (tt, MkResolver (<[i := Eliminated]> ms) (c ++ new)) /\
    leads ms new (<[i := Eliminated]> ms).
Proof.
  intros Hsd Hfree. destruct finish_pending as (Hr & _ & Hsup).
  destruct (dest_valid _ _ Hd) as (Hd0 & Hdc & Hdsup).
  destruct (EmitMove_law (MkResolver ms1 c) i m1 (moves_listed _ _ (finish_restored Hsd)) finish_lookup) as (new & Hrun & Hnew); try done.
  exists new. rewrite (M_bind_step _ _ _ _ _ Hrun). split; [apply finish_eliminate|].
  intros s Hs. destruct (Hnew s Hs) as (Hg & Hv & Hk & _). split; [done|]. intros final He.
  apply finish_effect. eapply (effect_move stack ms1 i m1 s (exec new s)); try done.
  - by apply finish_restored.
  - apply finish_lookup.
  - intros j mj _ Hj. by apply (Hfree j).
  - cbn [moves_]. by rewrite list_insert_insert_eq.
Qed.

Lemma finish_by_swap c p : source_ m <> d -> head stack = Some p ->
  exists new, (EmitSwap i;; Put i Eliminated;; for_moves (swap_source (source_ m) d))
      (MkResolver ms1 c) =
    Ok (tt, MkResolver (swap_move (source_ m) d <$> <[i := Eliminated]> ms) (c ++ new)) /\
    performs stack ms (swap_move (source_ m) d <$> <[i := Eliminated]> ms) /\
    leads ms new (swap_move (source_ m) d <$> <[i := Eliminated]> ms).
Proof.
  intros Hsd Hhead. destruct finish_pending as (Hr & _ & Hsup).
  destruct (dest_valid _ _ Hd) as (Hd0 & Hdc & Hdsup).
  assert (dests !! p = Some (source_ m)) as Hp.
  { eapply (ok_chain _ _ Hok 0); [done| |done]. by destruct stack. }
  destruct (dest_valid _ _ Hp) as (Hs0 & Hsc & _).
  destruct (EmitSwap_law (MkResolver ms1 c) i m1 (moves_listed _ _ (finish_restored Hsd)) finish_lookup) as (new & Hrun & Hnew); try done.
  assert (performs stack ms (swap_move (source_ m) d <$> <[i := Eliminated]> ms)) as Hperf
    by (by eapply performs_swap).
  exists new. rewrite (M_bind_step _ _ _ _ _ Hrun). cbn [moves_ emitted].
  rewrite (M_bind_step _ _ _ _ _ (finish_eliminate _)). split_and!; [|done|].
  - apply swap_all; [done..|]. eapply (moves_wf stack), performs_eliminate; done.
  - intros s Hs. destruct (Hnew s Hs) as (Hg & Hv1 & Hv2 & Hk). split; [done|]. intros final He.
    assert (p ∈ stack) as Hin by (destruct stack; [done|injection Hhead as ->; left]).
    destruct (lookup_lt_is_Some_2 ms p) as [mp Hmp].
    { apply (ok_inside _ _ Hok). by right. }
    destruct (ok_move _ _ Hok _ _ Hmp) as [_ Hst]. rewrite decide_True in Hst by set_solver.
    apply finish_effect. assert (p <> i) by (intros ->; by eapply top_out).
    eapply (effect_swap stack ms1 i m1 p mp s (exec new s)); try done.
    + by apply finish_restored.
    + apply finish_lookup.
    + by rewrite list_lookup_insert_ne.
    + apply Hst.
    + cbn [source_ destination_]. by rewrite list_insert_insert_eq.
Qed.

Lemma finish_move_ok :
  achieves (finish_move EmitMove EmitSwap i d) stack ms (fun ms' => ms' !! i = Some Eliminated).
Proof.
  intros c. destruct finish_pending as (Hr & Hdest & Hsup). unfold remaining in Hr.
  assert (i < length ms)%nat as Hlt by (by eapply lookup_lt_Some).
  assert (finish_move EmitMove EmitSwap i d (MkResolver ms c) =
    (if source_ m =? d then Put i Eliminated
     else
       do_swap ← lift (blocked_by_pending ms1 d);
       if do_swap : bool then
         EmitSwap i;; Put i Eliminated;; for_moves (swap_source (source_ m) d)
       else EmitMove i;; Put i Eliminated) (MkResolver ms1 c)) as ->.
  { unfold finish_move. rewrite (M_bind_step _ _ _ _ _ (Get_at _ _ _ _ Hi)).
    unfold ClearPending. rewrite pending_eq by done. rewrite Hdest.
    destruct (Z.eqb_spec (source_ m) 0); [done|]. unfold Equals.
    unfold mbind, M_bind, Put, modify, gets, lift. cbn. by destruct (source_ m =? d). }
  destruct (Z.eqb_spec (source_ m) d) as [Hsd|Hsd].
  { exists (<[i := Eliminated]> ms), []. rewrite app_nil_r, finish_eliminate.
    split_and!; [done|by eapply performs_eliminate| |by apply list_lookup_insert_eq].
    intros s Hs. rewrite exec_nil. split; [done|]. intros final.
    eapply effect_drop; [done|by rewrite Hsd]. }
  pose proof (finish_restored Hsd) as Hok1. destruct (dest_valid _ _ Hd) as (Hd0 & _ & _).
  assert (forall j mj, ms1 !! j = Some mj -> source_ mj = d -> j ∈ stack) as Hin.
  { intros j mj Hj Hs. apply list_lookup_insert_Some in Hj as [(<- & <- & _)|[Hne Hj]]; [done|].
    destruct (decide (j ∈ stack)); [done|]. exfalso. eapply Hun; [|done..]. set_solver. }
  destruct (blocked_spec ms1 d Hd0 (moves_wf _ _ Hok1)) as (b & -> & Hb).
  { intros mj Hmj Hs. apply list_elem_of_lookup_1 in Hmj as [j Hj].
    destruct (ok_move _ _ Hok1 _ _ Hj) as [_ Hst]. rewrite decide_True in Hst by eauto. apply Hst. }
  rewrite M_bind_Ok. destruct b.
  - destruct (proj1 Hb eq_refl) as (mj & Hmj & Hs). apply list_elem_of_lookup_1 in Hmj as [j Hj].
    pose proof (Hin _ _ Hj Hs) as Hj'. destruct (head stack) as [p|] eqn:Hhead.
    2: { destruct stack; [by apply elem_of_nil in Hj'|done]. }
    destruct (finish_by_swap c p Hsd Hhead) as (new & Hrun & Hperf & Hlead).
    eexists _, new. split; [exact Hrun|]. split_and!; [done..|].
    rewrite list_lookup_fmap, list_lookup_insert_eq by done. cbn. f_equal.
    destruct (swap_move_cases (source_ m) d Eliminated) as [[H ->]|[(_ & H & ->)|(_ & _ & ->)]];
      [cbn in H; congruence..|done].
  - destruct (finish_by_move c Hsd) as (new & Hrun & Hlead).
    { intros j mj Hj Hs. assert (false = true); [|done]. apply Hb. exists mj. split; [|done].
      by eapply list_elem_of_lookup_2. }
    eexists _, new. split; [exact Hrun|].
    split_and!; [by eapply performs_eliminate|done|by apply list_lookup_insert_eq].
Qed.
End Finish.

(** *** One move *)

Lemma stack_bounded stack ms : moves_ok stack ms -> (length stack <= length dests)%nat.
Proof.
  intros Hok. rewrite <- (ok_length _ _ Hok), <- (length_seq (length ms) 0).
  apply submseteq_length, NoDup_submseteq; [apply Hok|]. intros j Hj. apply elem_of_seq.
  apply (ok_inside _ _ Hok) in Hj. lia.
Qed.

Lemma performs_pop stack ms ms1 ms2 i m :
  ms !! i = Some m -> remaining m ->
  performs (i :: stack) (<[i := MkMove (source_ m) 0]> ms) ms1 -> performs stack ms1 ms2 ->
  ms2 !! i = Some Eliminated -> performs stack ms ms2.
Proof.
  intros Hi Hr [_ Hg1 Ho1 Hb1] [Hok Hg2 Ho2 Hb2] Hgone.
  assert (i < length ms)%nat as Hlt by (by eapply lookup_lt_Some). split; [done|..].
  - intros j Hj. apply Hg2, Hg1. destruct (decide (j = i)) as [->|].
    + rewrite Hi in Hj. by injection Hj as ->.
    + by rewrite list_lookup_insert_ne.
  - intros j m' Hj Hr'. destruct (Ho2 _ _ Hj Hr') as (m2 & Hj2 & Hr2 & ->).
    destruct (Ho1 _ _ Hj2 Hr2) as (m1 & Hj1 & Hr1 & ->).
    apply list_lookup_insert_Some in Hj1 as [(<- & <- & _)|[? ?]]; eauto.
  - intros p d j m' Hp Hd Hn Hj Hs. destruct (dest_valid _ _ Hd) as [Hd0 _].
    assert (j <> i) as Hne. { intros ->. rewrite Hgone in Hj. injection Hj as <-. by cbn in Hs. }
    destruct (Hb2 _ _ _ _ Hp Hd Hn Hj Hs) as (m2 & Hj2 & Hs2).
    destruct (Hb1 p d j m2) as (m1 & Hj1 & Hs1); [set_solver|done|set_solver|done|done|].
    rewrite list_lookup_insert_ne in Hj1 by done. eauto.
Qed.

(** A move is performed within the fuel of one level per move that is not pending. *)
Lemma PerformMove_ok fuel : forall stack ms i m,
  moves_ok stack ms -> i ∉ stack -> ms !! i = Some m -> remaining m ->
  (forall p, head stack = Some p -> dests !! p = Some (source_ m)) ->
  (length dests < fuel + length stack)%nat ->
  achieves (PerformMove EmitMove EmitSwap fuel i) stack ms (fun ms' => ms' !! i = Some Eliminated).
Proof.
  induction fuel as [|fuel IH]; intros stack ms i m Hok Hi Hm Hr Hhead Hfuel c.
  { pose proof (stack_bounded _ _ Hok). lia. }
  set (ms0 := <[i := MkMove (source_ m) 0]> ms).
  pose proof (push_ok _ _ _ _ Hok Hi Hm Hr Hhead) as Hpush.
  pose proof (ok_move _ _ Hok _ _ Hm) as [_ Hst]. rewrite decide_False in Hst by done.
  destruct Hst as [->|(_ & Hd & Hsd)]; [done|]. unfold remaining in Hr.
  destruct (dest_valid _ _ Hd) as (Hd0 & _ & _).
  assert (PerformMove EmitMove EmitSwap (S fuel) i (MkResolver ms c) =
    (for_moves (blocker (PerformMove EmitMove EmitSwap fuel) (destination_ m));;
     finish_move EmitMove EmitSwap i (destination_ m)) (MkResolver ms0 c)) as ->.
  { cbn [PerformMove]. rewrite (M_bind_step _ _ _ _ _ (Get_at _ _ _ _ Hm)).
    unfold IsRedundant, MarkPending. rewrite !pending_eq, !eliminated_eq by done.
    rewrite !IsInvalid_spec. unfold Equals.
    apply Z.eqb_neq in Hr as ->, Hd0 as ->, Hsd as ->. reflexivity. }
  destruct (blockers_performed (PerformMove EmitMove EmitSwap fuel) stack i _ Hd) with
    (n := length ms0) (k := 0%nat) (ms := ms0) (c := c) as (ms1 & c1 & Hrun1 & Hp1 & Hl1 & Hun).
  - intros ms' j m' Hok' Hj Hm' Hs'. eapply (IH _ _ _ m'); [done|done|done|..|cbn; lia].
    + intros Hz. apply Hd0. by rewrite <- Hs'.
    + intros p [= <-]. by rewrite Hs'.
  - done.
  - done.
  - lia.
  - destruct (lookup_lt_is_Some_2 ms1 i) as [m1 Hm1].
    { apply (ok_inside _ _ (pf_ok _ _ _ Hp1)). left. }
    destruct (finish_move_ok stack ms1 i m1 _ (pf_ok _ _ _ Hp1) Hm1 Hd Hun (c ++ c1))
      as (ms2 & c2 & Hrun2 & Hp2 & Hl2 & Hgone).
    assert (for_moves (blocker (PerformMove EmitMove EmitSwap fuel) (destination_ m))
      (MkResolver ms0 c) = Ok (tt, MkResolver ms1 (c ++ c1))) as Hloop by exact Hrun1.
    exists ms2, (c1 ++ c2). rewrite (M_bind_step _ _ _ _ _ Hloop), app_assoc.
    split_and!; [done|by eapply performs_pop| |done].
    pose proof (leads_trans _ _ _ _ _ Hl1 Hl2) as Hl. intros s Hs. destruct (Hl s Hs) as [Hg He].
    split; [done|]. intros final Hf. apply (effect_sources ms0); [|by apply He].
    by eapply sources_insert.
Qed.

(** *** The two loops *)

Definition constants_below (k : nat) (ms : list MoveOperands) : Prop :=
  forall j m, (j < k)%nat -> ms !! j = Some m -> remaining m -> IsConstant (source_ m) = true.

Lemma constants_performed k ms ms' :
  performs [] ms ms' -> constants_below k ms -> constants_below k ms'.
Proof.
  intros Hp Hk j m' Hj Hm' Hr'. destruct (pf_old _ _ _ Hp _ _ Hm' Hr') as (m & Hm & Hr & ->). eauto.
Qed.

Lemma perform_nonconstant_ok k ms : moves_ok [] ms -> (k < length ms)%nat -> constants_below k ms ->
  achieves (perform_nonconstant EmitMove EmitSwap (S (length dests)) k) [] ms (constants_below (S k)).
Proof.
  intros Hok Hk Hbelow c. destruct (lookup_lt_is_Some_2 ms k Hk) as [m Hm].
  pose proof (move_consistent _ _ _ (ok_move _ _ Hok _ _ Hm)) as Hcons.
  assert (perform_nonconstant EmitMove EmitSwap (S (length dests)) k (MkResolver ms c) =
    (if negb (source_ m =? 0) && negb (IsConstant (source_ m))
     then PerformMove EmitMove EmitSwap (S (length dests)) k else mret tt) (MkResolver ms c)) as ->.
  { unfold perform_nonconstant. rewrite (M_bind_step _ _ _ _ _ (Get_at _ _ _ _ Hm)).
    rewrite eliminated_eq by done. apply M_bind_Ok. }
  destruct (Z.eqb_spec (source_ m) 0) as [Hz|Hr], (IsConstant (source_ m)) eqn:Hc; cbn [negb andb].
  1-3: exists ms, []; rewrite app_nil_r; split_and!; [done|by apply performs_refl|apply leads_refl|];
       intros j mj Hj Hmj Hrj; destruct (decide (j = k)) as [->|];
         [by assert (mj = m) as -> by congruence|eapply (Hbelow j); [lia|done..]].
  destruct (PerformMove_ok (S (length dests)) [] ms k m Hok) with (c := c)
    as (ms' & new & Hrun & Hp & Hl & Hgone); try done; [by apply not_elem_of_nil|cbn; lia|].
  exists ms', new. split_and!; [done..|]. intros j mj Hj Hmj Hrj. destruct (decide (j = k)) as [->|].
  - assert (mj = Eliminated) as -> by congruence. done.
  - eapply (constants_performed k ms ms' Hp Hbelow j); [lia|done..].
Qed.

Lemma nonconstants_performed n : forall k ms,
  (k + n = length ms)%nat -> moves_ok [] ms -> constants_below k ms ->
  achieves (for_range n k (perform_nonconstant EmitMove EmitSwap (S (length dests)))) [] ms
    (fun ms' => constants_below (length ms') ms').
Proof.
  induction n as [|n IH]; intros k ms Hn Hok Hbelow c; cbn [for_range].
  { exists ms, []. rewrite app_nil_r. split_and!; [done|by apply performs_refl|apply leads_refl|].
    by replace (length ms) with k by lia. }
  destruct (perform_nonconstant_ok k ms Hok ltac:(lia) Hbelow c) as (ms1 & c1 & Hrun & Hp & Hl & Hk).
  rewrite (M_bind_step _ _ _ _ _ Hrun).
  destruct (IH (S k) ms1) with (c := c ++ c1) as (ms2 & c2 & Hrun2 & Hp2 & Hl2 & Hend).
  - rewrite (ok_length _ _ (pf_ok _ _ _ Hp)), <- (ok_length _ _ Hok). lia.
  - apply Hp.
  - done.
  - exists ms2, (c1 ++ c2). rewrite app_assoc.
    split_and!; [done|by eapply performs_trans|by eapply leads_trans|done].
Qed.

(** The constants that remain, from move [k] on. *)
Definition writes (k : nat) (ms : list MoveOperands) (s s' : mstate) : Prop :=
  (forall j m, (k <= j)%nat -> ms !! j = Some m -> remaining m ->
    value s' (destination_ m) = value s (source_ m)) /\
  (forall l, supported l ->
    (forall j m, (k <= j)%nat -> ms !! j = Some m -> remaining m -> destination_ m <> l) ->
    value s' l = value s l).

Lemma writes_step k ms m s s1 s2 :
  moves_ok [] ms -> constants_below (length ms) ms ->
  ms !! k = Some m -> remaining m ->
  value s1 (destination_ m) = value s (source_ m) ->
  (forall l, supported l -> l <> destination_ m -> value s1 l = value s l) ->
  writes (S k) ms s1 s2 -> writes k ms s s2.
Proof.
  intros Hok Hall Hm Hr Hv Hk [H1 H2].
  assert (forall j mj, ms !! j = Some mj -> remaining mj ->
    dests !! j = Some (destination_ mj) /\ supported (source_ mj)) as Hst.
  { intros j mj Hj Hrj. destruct (ok_move _ _ Hok _ _ Hj) as [Hsup H].
    rewrite decide_False in H by apply not_elem_of_nil. destruct H as [->|(_ & ? & _)]; [done|auto]. }
  destruct (Hst _ _ Hm Hr) as [Hd _]. destruct (dest_valid _ _ Hd) as (_ & Hdc & Hdsup).
  split.
  - intros j mj Hj Hmj Hrj. destruct (Hst _ _ Hmj Hrj) as [Hdj Hsj]. destruct (decide (j = k)) as [->|].
    + assert (mj = m) as -> by congruence. rewrite <- Hv. apply H2; [done|].
      intros j' mj' Hj' Hmj' Hr' He. destruct (Hst _ _ Hmj' Hr') as [Hdj' _]. rewrite He in Hdj'.
      pose proof (dest_inj _ _ _ Hd Hdj'). lia.
    + rewrite (H1 j mj) by (lia || done). apply Hk; [done|]. intros He.
      assert (IsConstant (source_ mj) = true) as Hcj.
      { eapply (Hall j); [by eapply lookup_lt_Some|done..]. }
      rewrite He in Hcj. congruence.
  - intros l Hl Hfree. rewrite H2; [|done|].
    + apply Hk; [done|]. intros ->. by eapply (Hfree k).
    + intros j mj Hj. apply (Hfree j mj). lia.
Qed.

Lemma constants_emitted n : forall k ms c,
  (k + n = length ms)%nat -> moves_ok [] ms -> constants_below (length ms) ms ->
  exists new, for_range n k (emit_constant EmitMove) (MkResolver ms c) =
      Ok (tt, MkResolver ms (c ++ new)) /\
    forall s, good s -> good (exec new s) /\ writes k ms s (exec new s).
Proof.
  induction n as [|n IH]; intros k ms c Hn Hok Hall; cbn [for_range].
  { exists []. rewrite app_nil_r. split; [done|]. intros s Hs. rewrite exec_nil. split; [done|].
    split; [|done]. intros j m Hj Hm. apply lookup_lt_Some in Hm. lia. }
  destruct (lookup_lt_is_Some_2 ms k) as [m Hm]; [lia|].
  destruct (ok_move _ _ Hok _ _ Hm) as [Hsup Hst]. rewrite decide_False in Hst by apply not_elem_of_nil.
  destruct Hst as [->|(Hr & Hd & Hsd)].
  - destruct (IH (S k) ms c) as (new & Hrun & Hnew); [lia|done..|]. exists new.
    assert (emit_constant EmitMove k (MkResolver ms c) = Ok (tt, MkResolver ms c)) as Hskip.
    { unfold emit_constant. by rewrite (M_bind_step _ _ _ _ _ (Get_at _ _ _ _ Hm)). }
    rewrite (M_bind_step _ _ _ _ _ Hskip). split; [done|]. intros s Hs.
    destruct (Hnew s Hs) as (Hg & H1 & H2). split; [done|]. split.
    + intros j mj Hj Hmj Hrj. apply (H1 j mj); [|done..]. destruct (decide (j = k)) as [->|]; [|lia].
      by assert (mj = Eliminated) as -> by congruence.
    + intros l Hl Hfree. apply H2; [done|]. intros j mj Hj. apply (Hfree j mj). lia.
  - destruct (dest_valid _ _ Hd) as (Hd0 & Hdc & Hdsup).
    assert (IsConstant (source_ m) = true) as Hc by (eapply (Hall k); [lia|done..]).
    destruct (EmitMove_law (MkResolver ms c) k m (moves_listed _ _ Hok) Hm) as (c1 & Hrun & Hnew1); auto.
    assert (emit_constant EmitMove k (MkResolver ms c) = Ok (tt, MkResolver ms (c ++ c1))) as Hemit.
    { unfold emit_constant. rewrite (M_bind_step _ _ _ _ _ (Get_at _ _ _ _ Hm)).
      rewrite eliminated_eq by done. unfold remaining in Hr. apply Z.eqb_neq in Hr as ->.
      by rewrite M_bind_Ok, Hc. }
    rewrite (M_bind_step _ _ _ _ _ Hemit).
    destruct (IH (S k) ms (c ++ c1)) as (c2 & Hrun2 & Hnew2); [lia|done..|].
    exists (c1 ++ c2). rewrite app_assoc. split; [done|]. intros s Hs. rewrite exec_app.
    destruct (Hnew1 s Hs) as (Hg1 & Hv & _ & Hk). destruct (Hnew2 _ Hg1) as [Hg2 Hw].
    split; [done|]. eapply writes_step; eauto.
Qed.
End Moves.

(** ** Parallel moves *)

Lemma NoDup_fmap_elem {A B} (f : A -> B) l x y :
  NoDup (f <$> l) -> x ∈ l -> y ∈ l -> f x = f y -> x = y.
Proof.
  intros Hnd [i Hi]%list_elem_of_lookup_1 [j Hj]%list_elem_of_lookup_1 He.
  assert (i = j) as ->; [|congruence].
  eapply (NoDup_lookup (f <$> l)); [done| |]; rewrite list_lookup_fmap.
  - by rewrite Hi.
  - by rewrite Hj, He.
Qed.

(** What the register allocator gives: valid locations of the supported kinds, and
    destinations that differ. *)
Record parallel_move_ok (pm : list MoveOperands) : Prop := {
  pm_source m : m ∈ pm -> source_ m <> 0 /\ supported (source_ m);
  pm_destination m : m ∈ pm ->
    destination_ m <> 0 /\ IsConstant (destination_ m) = false /\ supported (destination_ m);
  pm_distinct : NoDup (destination_ <$> pm);
}.

Definition moving (pm : list MoveOperands) : list MoveOperands :=
  filter (fun m => source_ m <> destination_ m) pm.

Lemma BuildInitialMoveList_eq pm : parallel_move_ok pm -> BuildInitialMoveList pm = Ok (moving pm).
Proof.
  intros [Hs Hd _]. induction pm as [|m pm IH]; [done|]. cbn [BuildInitialMoveList].
  destruct (Hs m) as [Hs0 _]; [left|]. destruct (Hd m) as [Hd0 _]; [left|].
  unfold IsRedundant. rewrite eliminated_eq by done. rewrite IsInvalid_spec. unfold Equals.
  rewrite IH by (intros; (apply Hs || apply Hd); by right).
  apply Z.eqb_neq in Hs0 as ->, Hd0 as ->. unfold moving. rewrite filter_cons. destruct (Z.eqb_spec (source_ m) (destination_ m)).
  - by rewrite decide_False by tauto.
  - by rewrite decide_True.
Qed.

Lemma moving_ok pm : parallel_move_ok pm ->
  let dests := destination_ <$> moving pm in
  Forall (fun d => d <> 0 /\ IsConstant d = false /\ supported d) dests /\ NoDup dests /\
  moves_ok dests [] (moving pm).
Proof.
  intros [Hs Hd Hnd] dests. split_and!.
  - apply Forall_fmap, Forall_forall. intros m Hm. apply list_elem_of_filter in Hm as [_ Hm]. eauto.
  - eapply sublist_NoDup; [done|]. apply fmap_sublist, sublist_filter.
  - split.
    + unfold dests. by rewrite length_fmap.
    + intros j m Hj. pose proof (list_elem_of_lookup_2 _ _ _ Hj) as Hm.
      apply list_elem_of_filter in Hm as [Hne Hm]. destruct (Hs _ Hm). split; [done|].
      rewrite decide_False by apply not_elem_of_nil. right. split_and!; [done| |done].
      unfold dests. by rewrite list_lookup_fmap, Hj.
    + constructor.
    + intros j Hj. by apply elem_of_nil in Hj.
    + done.
Qed.

(** The effect of the constants on top of the moves before them. *)
Lemma effect_writes dests ms s s' : moves_ok dests [] ms -> writes 0 ms s s' ->
  effect dests ms s (value s').
Proof.
  intros Hok [H1 H2].
  assert (forall j m, ms !! j = Some m -> remaining m -> dests !! j = Some (destination_ m)) as Hst.
  { intros j m Hj Hr. destruct (ok_move _ _ _ Hok _ _ Hj) as [_ H].
    rewrite decide_False in H by apply not_elem_of_nil. by destruct H as [->|(_ & ? & _)]. }
  split.
  - intros j m d Hj Hr Hd. rewrite (Hst _ _ Hj Hr) in Hd. injection Hd as <-.
    apply (H1 j); [lia|done..].
  - intros l Hl Hfree. apply H2; [done|]. intros j m _ Hj Hr Hd. apply (Hfree j m Hj Hr). rewrite <- Hd. by apply Hst.
Qed.

Lemma effect_moving pm s final : parallel_move_ok pm ->
  effect (destination_ <$> moving pm) (moving pm) s final ->
  (forall m, m ∈ pm -> final (destination_ m) = value s (source_ m)) /\
  (forall l, supported l -> (forall m, m ∈ pm -> destination_ m <> l) -> final l = value s l).
Proof.
  intros Hpm [H1 H2].
  assert (forall j m, moving pm !! j = Some m -> m ∈ pm /\ source_ m <> destination_ m) as Hin.
  { intros j m Hj. apply list_elem_of_lookup_2, list_elem_of_filter in Hj as [? ?]. done. }
  split.
  - intros m Hm. destruct (pm_source _ Hpm m Hm) as [Hs Hsup].
    destruct (decide (source_ m = destination_ m)) as [He|Hne].
    + rewrite <- He. apply H2; [done|]. intros j mj Hj _ Hd. rewrite list_lookup_fmap, Hj in Hd.
      injection Hd as Hd. destruct (Hin _ _ Hj) as [Hmj Hnej]. apply Hnej.
      assert (mj = m) as -> by (eapply (NoDup_fmap_elem destination_); [apply Hpm|done..|congruence]).
      done.
    + assert (m ∈ moving pm) as Hmv by (by apply list_elem_of_filter).
      apply list_elem_of_lookup_1 in Hmv as [j Hj]. eapply (H1 j); [done..|].
      by rewrite list_lookup_fmap, Hj.
  - intros l Hl Hfree. apply H2; [done|]. intros j mj Hj _ Hd. rewrite list_lookup_fmap, Hj in Hd.
    injection Hd as Hd. destruct (Hin _ _ Hj). by eapply Hfree.
Qed.

(** [new] performs the moves [pm] at once. *)
Definition performs_at_once (pm : list MoveOperands) (new : list instr) : Prop :=
  forall s, good s -> good (exec new s) /\
    (forall m, m ∈ pm -> value (exec new s) (destination_ m) = value s (source_ m)) /\
    (forall l, supported l -> (forall m, m ∈ pm -> destination_ m <> l) ->
      value (exec new s) l = value s l).

Lemma EmitNativeCode_emits pm c : parallel_move_ok pm ->
  exists new, EmitNativeCode EmitMove EmitSwap pm (MkResolver [] c) =
      Ok (tt, MkResolver [] (c ++ new)) /\ performs_at_once pm new.
Proof.
  intros Hpm. destruct (moving_ok _ Hpm) as (Hv & Hnd & Hok).
  set (dests := destination_ <$> moving pm) in *.
  assert (length dests = length (moving pm)) as Hlen by apply length_fmap.
  destruct (nonconstants_performed dests Hv Hnd (length (moving pm)) 0 (moving pm))
    with (c := c) as (ms1 & c1 & Hrun1 & Hp1 & Hl1 & Hall); [done..|by intros j m Hj; lia|].
  destruct (constants_emitted dests Hv Hnd (length ms1) 0 ms1 (c ++ c1))
    as (c2 & Hrun2 & Hw); [done|apply Hp1|done|].
  rewrite Hlen in Hrun1.
  exists (c1 ++ c2). split.
  - unfold EmitNativeCode. rewrite M_bind_gets. cbn [moves_].
    rewrite bool_decide_true by done. unfold check. rewrite M_bind_Ok, BuildInitialMoveList_eq by done.
    rewrite M_bind_Ok, M_bind_modify. cbn [emitted].
    rewrite (M_bind_step (for_moves _) _ _ tt (MkResolver ms1 (c ++ c1))) by exact Hrun1.
    rewrite (M_bind_step (for_moves _) _ _ tt (MkResolver ms1 ((c ++ c1) ++ c2))) by exact Hrun2.
    by rewrite app_assoc.
  - intros s Hs. rewrite exec_app. destruct (Hl1 s Hs) as [Hg1 He]. destruct (Hw _ Hg1) as [Hg2 Hw'].
    split; [done|]. apply effect_moving; [done|]. apply He.
    apply effect_writes; [apply Hp1|done].
Qed.
End Correctness.

(** ** Scratch registers *)

Definition register_location (r : Z) : Z := kind_value kRegister + r * 16.

(** Nothing reads the location, and some move is going to write it. *)
Definition free_location (ms : list MoveOperands) (l : Z) : Prop :=
  (forall j m, ms !! j = Some m -> source_ m <> l) /\
  exists j m, ms !! j = Some m /\ destination_ m = l.

Section Scratch.
Context {instr : Type} (ms : list MoveOperands) (c : list instr).
Hypothesis Hwf : Forall wf_move ms.

Lemma any_blocks_spec l ms' : l <> 0 -> Forall wf_move ms' ->
  any_blocks ms' l = Ok (existsb (fun m => source_ m =? l) ms').
Proof.
  intros Hl. induction 1 as [|m ms' Hm _ IH]; [done|]. cbn. rewrite blocks_eq by done. cbn.
  by destruct (source_ m =? l).
Qed.

Lemma IsScratchLocation_spec l : l <> 0 ->
  exists b, IsScratchLocation l (MkResolver ms c) = Ok (b, MkResolver ms c) /\
    (b = true -> free_location ms l).
Proof.
  intros Hl. unfold IsScratchLocation. rewrite M_bind_gets. cbn [moves_].
  rewrite any_blocks_spec by done. rewrite M_bind_Ok.
  destruct (existsb (fun m => source_ m =? l) ms) eqn:Hr; eexists; (split; [reflexivity|]); [done|].
  intros Hw. split.
  - intros j m Hj Hs. assert (existsb (fun m => source_ m =? l) ms = true); [|congruence].
    apply existsb_exists. exists m. split; [|lia]. apply list_elem_of_In. by eapply list_elem_of_lookup_2.
  - apply existsb_exists in Hw as (m & Hm & He). apply list_elem_of_In, list_elem_of_lookup_1 in Hm as [j ?].
    exists j, m. split; [done|]. by apply Z.eqb_eq.
Qed.

Lemma find_scratch_spec w blocked n : 32 <= w -> forall reg, 0 <= reg -> reg + Z.of_nat n <= 2 ^ 28 ->
  exists o, find_scratch w n reg blocked (MkResolver ms c) = Ok (o, MkResolver ms c) /\
    forall r, o = Some r ->
      reg <= r < reg + Z.of_nat n /\ r <> blocked /\ free_location ms (register_location r).
Proof.
  intros Hw. assert (2 ^ 28 <= 2 ^ (w - 4)) by (apply Z.pow_le_mono_r; lia).
  induction n as [|n IH]; intros reg H0 Hn; cbn [find_scratch].
  { by exists None. }
  destruct (IH (reg + 1)) as (o & Hrun & Ho); [lia..|].
  destruct (Z.eqb_spec blocked reg) as [->|Hb]; cbn [negb].
  { exists o. rewrite M_bind_ret. split; [done|]. intros r Hr. destruct (Ho r Hr). split; [lia|done]. }
  destruct (IsScratchLocation_spec (register_location reg)) as (b & Hb' & Hfree).
  { unfold register_location. cbn. lia. }
  unfold RegisterLocation. rewrite MakeLocation_value by lia.
  rewrite M_bind_assoc, M_bind_Ok, (M_bind_step _ _ _ _ _ Hb'). destruct b.
  - exists (Some reg). split; [done|]. intros r [= <-]. split_and!; [lia..|done|auto].
  - exists o. split; [done|]. intros r Hr. destruct (Ho r Hr). split; [lia|done].
Qed.

Lemma AllocateScratchRegister_spec w blocked register_count if_scratch :
  32 <= w -> blocked <> if_scratch -> 0 <= register_count <= 2 ^ 28 ->
  exists reg spilled,
    AllocateScratchRegister w blocked register_count if_scratch (MkResolver ms c) =
      Ok ((reg, spilled), MkResolver ms c) /\
    if (spilled : bool) then reg = if_scratch
    else 0 <= reg < register_count /\ reg <> blocked /\ free_location ms (register_location reg).
Proof.
  intros Hw Hb Hc. unfold AllocateScratchRegister. apply Z.eqb_neq in Hb as ->.
  destruct (find_scratch_spec w blocked (Z.to_nat register_count) Hw 0) as (o & Hrun & Ho); [lia..|].
  change (check (negb false)) with (Ok tt).
  rewrite M_bind_Ok, (M_bind_step _ _ _ _ _ Hrun). destruct o as [r|].
  - exists r, false. split; [done|]. destruct (Ho r eq_refl). split; [lia|done].
  - by exists if_scratch, true.
Qed.
End Scratch.

(** C9: the parallel move resolver terminates without tripping a check for every set of
    moves with distinct destinations, cyclic or not, and the code it emits performs the
    moves at the same time: every destination ends up with what its source held at the
    start, and every other location keeps its contents. *)
Theorem EmitNativeCode_correct {instr mstate V : Type}
    (exec : list instr -> mstate -> mstate) (value : mstate -> Z -> V)
    (good : mstate -> Prop) (supported : Z -> Prop)
    (EmitMove EmitSwap : nat -> M (Resolver instr) unit) pm c :
  Emitter exec value good supported EmitMove EmitSwap -> parallel_move_ok supported pm ->
  exists new, EmitNativeCode EmitMove EmitSwap pm (MkResolver [] c) =
      Ok (tt, MkResolver [] (c ++ new)) /\
    performs_at_once exec value good supported pm new.
Proof. intros E. by apply EmitNativeCode_emits. Qed.

(** ** The resolver of the tests

    [TestParallelMoveResolver] (compiler/optimizing/parallel_move_test.cc) prints the
    moves and swaps; here they are instructions of a machine that has all locations. *)
Module TestResolver.
Inductive instr : Type := Move (source destination : Z) | Swap (source destination : Z).
Definition EmitMove (index : nat) : M (Resolver instr) unit :=
  m ← Get index; emit_code [Move (source_ m) (destination_ m)].
Definition EmitSwap (index : nat) : M (Resolver instr) unit :=
  m ← Get index; emit_code [Swap (source_ m) (destination_ m)].

Definition value (s : Z -> Z) (l : Z) : Z := if IsConstant l then l else s l.
Definition step (s : Z -> Z) (i : instr) : Z -> Z :=
  match i with
  | Move a b => fun l => if l =? b then value s a else s l
  | Swap a b => fun l => if l =? b then s a else if l =? a then s b else s l
  end.
Definition exec (c : list instr) (s : Z -> Z) : Z -> Z := foldl step s c.

#[export] Instance emitter :
  Emitter exec value (fun _ => True) (fun l => l <> NoLocation) EmitMove EmitSwap.
Proof.
  split.
  - auto.
  - done.
  - intros. apply foldl_app.
  - intros r i m _ Hm _ _ Hne Hd _. exists [Move (source_ m) (destination_ m)]. split.
    { destruct r as [ms c]. unfold EmitMove. by rewrite (M_bind_step _ _ _ _ _ (Get_at _ _ _ _ Hm)). }
    intros s _. unfold value. cbn. rewrite Hd, Z.eqb_refl. split_and!; [done..| |].
    + intros l _ Hl _. destruct (Z.eqb_spec l (destination_ m)); [set_solver|done].
    + intros _ l _ Hl. by destruct (Z.eqb_spec l (destination_ m)).
  - intros r i m _ Hm _ _ Hne Hs Hd _. exists [Swap (source_ m) (destination_ m)]. split.
    { destruct r as [ms c]. unfold EmitSwap. by rewrite (M_bind_step _ _ _ _ _ (Get_at _ _ _ _ Hm)). }
    intros s _. unfold value. cbn. rewrite Hs, Hd, !Z.eqb_refl. split_and!; [done..| |].
    + by destruct (Z.eqb_spec (source_ m) (destination_ m)).
    + intros l _ Hl _. destruct (Z.eqb_spec l (destination_ m)); [set_solver|].
      destruct (Z.eqb_spec l (source_ m)); [set_solver|done].
Qed.

(** Moves between registers. *)
Definition register_moves (l : list (Z * Z)) : list MoveOperands :=
  (fun '(a, b) => MkMove (kind_value kRegister + a * 16) (kind_value kRegister + b * 16)) <$> l.
End TestResolver.

(** The second case of the test [Swap], a cycle with a move out of it. *)
Lemma EmitNativeCode_correct_witness :
  exists new,
    EmitNativeCode TestResolver.EmitMove TestResolver.EmitSwap
      (TestResolver.register_moves [(0, 1); (1, 2); (1, 0)]) (MkResolver [] []) =
      Ok (tt, MkResolver [] ([] ++ new)) /\
    performs_at_once TestResolver.exec TestResolver.value (fun _ => True) (fun l => l <> NoLocation)
      (TestResolver.register_moves [(0, 1); (1, 2); (1, 0)]) new.
Proof.
  apply (EmitNativeCode_correct _ _ _ _ _ _ _ [] TestResolver.emitter).
  split.
  - intros m Hm. repeat (apply elem_of_cons in Hm as [->|Hm]; [done|]). by apply elem_of_nil in Hm.
  - intros m Hm. repeat (apply elem_of_cons in Hm as [->|Hm]; [done|]). by apply elem_of_nil in Hm.
  - by apply (bool_decide_unpack _).
Defined.
