(* ===== verification/ParallelMoveX86.v ===== *)
(** * Parallel moves on x86

    Models [ParallelMoveResolverX86] (compiler/optimizing/code_generator_x86.cc), the code
    it emits for moves and swaps between core registers, stack slots and integer
    constants, and shows that it keeps what [Emitter] promises to the resolver.

    The machine has the general registers and a memory of 32-bit words; all addresses the
    code uses are displacements from ESP, which is aligned, and multiples of the word
    size.  The encoding of the instructions is left to the assembler.  Constants are
    nodes of the graph, whose integer values are a parameter. *)

From stdpp Require Import functions.
From S2P Require Import Prelude Locations ParallelMove.

(** [x86::Register] (runtime/arch/x86/registers_x86.h) *)
Definition EAX : Z := 0.
Definition EBX : Z := 3.
Definition ESP : Z := 4.
Definition kNumberOfCpuRegisters : Z := 8.
Definition kNoRegister : Z := -1.
Definition kX86WordSize : Z := 4.

(** The instructions used; all memory operands are [Address(ESP, disp)]. *)
Inductive instr : Type :=
  | movl_rr (dst src : Z)
  | movl_load (dst disp : Z)
  | movl_store (disp src : Z)
  | movl_ri (dst imm : Z)
  | movl_mi (disp imm : Z)
  | xchgl (dst src : Z)
  | pushl (reg : Z)
  | popl (reg : Z).
Abbreviation resolver := (M (Resolver instr)).

Section X86.
(** The width of the words of the compiler, and the graph's integer constants. *)
Context (w : Z) (AsIntConstant : Z -> option Z).

Definition SpillScratch (reg : Z) : resolver unit := emit_code [pushl reg].
Definition RestoreScratch (reg : Z) : resolver unit := emit_code [popl reg].

Definition stack_index (l : Z) : resolver Z := lift (i ← GetStackIndex w l; Ok (int32 i)).
Definition as_register (l : Z) : resolver Z := lift (AsRegister w l).

Definition MoveMemoryToMemory (dst src : Z) : resolver unit :=
  '(scratch, spilled) ← ScratchRegisterScope SpillScratch w kNoRegister EAX kNumberOfCpuRegisters;
  let stack_offset := if spilled : bool then kX86WordSize else 0 in
  emit_code [movl_load scratch (src + stack_offset)];;
  emit_code [movl_store (dst + stack_offset) scratch];;
  leave_scope RestoreScratch (scratch, spilled).

Definition EmitMove (index : nat) : resolver unit :=
  move ← Get index;
  let source := source_ move in
  let destination := destination_ move in
  if IsRegister w source then
    if IsRegister w destination then
      d ← as_register destination; s ← as_register source; emit_code [movl_rr d s]
    else
      lift (check (IsStackSlot w destination));;
      d ← stack_index destination; s ← as_register source; emit_code [movl_store d s]
  else if IsStackSlot w source then
    if IsRegister w destination then
      d ← as_register destination; s ← stack_index source; emit_code [movl_load d s]
    else
      lift (check (IsStackSlot w destination));;
      d ← stack_index destination; s ← stack_index source; MoveMemoryToMemory d s
  else if IsConstant source then
    c ← lift (GetConstant source);
    imm ← lift (match AsIntConstant c with Some v => Ok v | None => Fault BadReference end);
    if IsRegister w destination then
      d ← as_register destination; emit_code [movl_ri d imm]
    else
      d ← stack_index destination; emit_code [movl_mi d imm]
  else lift (Fault Fatal).

(** [Exchange(Register reg, int mem)] and [Exchange(int mem1, int mem2)] *)
Definition Exchange_register (reg mem : Z) : resolver unit :=
  let suggested_scratch := if reg =? EAX then EBX else EAX in
  '(scratch, spilled) ← ScratchRegisterScope SpillScratch w reg suggested_scratch kNumberOfCpuRegisters;
  let stack_offset := if spilled : bool then kX86WordSize else 0 in
  emit_code [movl_load scratch (mem + stack_offset)];;
  emit_code [movl_store (mem + stack_offset) reg];;
  emit_code [movl_rr reg scratch];;
  leave_scope RestoreScratch (scratch, spilled).

Definition Exchange_memory (mem1 mem2 : Z) : resolver unit :=
  '(scratch1, spilled1) ← ScratchRegisterScope SpillScratch w kNoRegister EAX kNumberOfCpuRegisters;
  let suggested_scratch := if scratch1 =? EAX then EBX else EAX in
  '(scratch2, spilled2) ← ScratchRegisterScope SpillScratch w scratch1 suggested_scratch kNumberOfCpuRegisters;
  let stack_offset := (if spilled1 : bool then kX86WordSize else 0) + (if spilled2 : bool then kX86WordSize else 0) in
  emit_code [movl_load scratch1 (mem1 + stack_offset)];;
  emit_code [movl_load scratch2 (mem2 + stack_offset)];;
  emit_code [movl_store (mem2 + stack_offset) scratch1];;
  emit_code [movl_store (mem1 + stack_offset) scratch2];;
  leave_scope RestoreScratch (scratch2, spilled2);;
  leave_scope RestoreScratch (scratch1, spilled1).

Definition EmitSwap (index : nat) : resolver unit :=
  move ← Get index;
  let source := source_ move in
  let destination := destination_ move in
  if IsRegister w source && IsRegister w destination then
    d ← as_register destination; s ← as_register source; emit_code [xchgl d s]
  else if IsRegister w source && IsStackSlot w destination then
    s ← as_register source; d ← stack_index destination; Exchange_register s d
  else if IsStackSlot w source && IsRegister w destination then
    d ← as_register destination; s ← stack_index source; Exchange_register d s
  else if IsStackSlot w source && IsStackSlot w destination then
    d ← stack_index destination; s ← stack_index source; Exchange_memory d s
  else lift (Fault Fatal).
End X86.

(** ** The machine *)

Record machine : Type := MkMachine { regs : Z -> Z; mem : Z -> Z }.

Definition address (s : machine) (disp : Z) : Z := uint32 (regs s ESP + disp).
Definition set_reg (s : machine) (r v : Z) : machine := MkMachine (<[r := v]> (regs s)) (mem s).
Definition set_mem (s : machine) (a v : Z) : machine := MkMachine (regs s) (<[a := v]> (mem s)).

Definition step (s : machine) (i : instr) : machine :=
  match i with
  | movl_rr dst src => set_reg s dst (regs s src)
  | movl_load dst disp => set_reg s dst (mem s (address s disp))
  | movl_store disp src => set_mem s (address s disp) (regs s src)
  | movl_ri dst imm => set_reg s dst (uint32 imm)
  | movl_mi disp imm => set_mem s (address s disp) (uint32 imm)
  | xchgl dst src => set_reg (set_reg s dst (regs s src)) src (regs s dst)
  | pushl r =>
      let s' := set_reg s ESP (address s (- kX86WordSize)) in
      set_mem s' (address s' 0) (regs s r)
  | popl r =>
      set_reg (set_reg s ESP (address s kX86WordSize)) r (mem s (address s 0))
  end.
Definition exec (c : list instr) (s : machine) : machine := foldl step s c.

(** ** Symbolic execution

    [e] is the value of ESP. *)

Lemma uint32_small x : 0 <= x < 2 ^ 32 -> uint32 x = x.
Proof. apply Z.mod_small. Qed.

Section Steps.
Context (s : machine) (e : Z) (He : regs s ESP = e).

Lemma step_load c r d : 0 <= e + d < 2 ^ 32 ->
  exec (movl_load r d :: c) s = exec c (MkMachine (<[r := mem s (e + d)]> (regs s)) (mem s)).
Proof. intros Hd. cbn. unfold set_reg, address. by rewrite He, uint32_small. Qed.
Lemma step_store c r d : 0 <= e + d < 2 ^ 32 ->
  exec (movl_store d r :: c) s = exec c (MkMachine (regs s) (<[e + d := regs s r]> (mem s))).
Proof. intros Hd. cbn. unfold set_mem, address. by rewrite He, uint32_small. Qed.
Lemma step_store_imm c v d : 0 <= e + d < 2 ^ 32 ->
  exec (movl_mi d v :: c) s = exec c (MkMachine (regs s) (<[e + d := uint32 v]> (mem s))).
Proof. intros Hd. cbn. unfold set_mem, address. by rewrite He, uint32_small. Qed.
Lemma step_push c r : 4 <= e < 2 ^ 32 ->
  exec (pushl r :: c) s =
  exec c (MkMachine (<[ESP := e - 4]> (regs s)) (<[e - 4 := regs s r]> (mem s))).
Proof.
  intros Hd. cbn. unfold set_mem, set_reg, address, kX86WordSize. cbn.
  rewrite fn_lookup_insert, He, Z.add_0_r, !uint32_small by (rewrite ?uint32_small; lia). done.
Qed.
Lemma step_pop c r : 0 <= e < 2 ^ 32 - 4 ->
  exec (popl r :: c) s =
  exec c (MkMachine (<[r := mem s e]> (<[ESP := e + 4]> (regs s))) (mem s)).
Proof.
  intros Hd. cbn. unfold set_reg, address, kX86WordSize.
  by rewrite He, Z.add_0_r, !uint32_small by lia.
Qed.
End Steps.

Lemma step_move s c d r :
  exec (movl_rr d r :: c) s = exec c (MkMachine (<[d := regs s r]> (regs s)) (mem s)).
Proof. done. Qed.

Lemma step_immediate s c d v :
  exec (movl_ri d v :: c) s = exec c (MkMachine (<[d := uint32 v]> (regs s)) (mem s)).
Proof. done. Qed.
Lemma step_exchange s c d r :
  exec (xchgl d r :: c) s =
  exec c (MkMachine (<[r := regs s d]> (<[d := regs s r]> (regs s))) (mem s)).
Proof. done. Qed.
Lemma step_end s : exec [] s = s.
Proof. done. Qed.

(** Runs the code at hand, with ESP found in the present state. *)
Ltac esp_is := cbn [regs mem]; rewrite ?fn_lookup_insert, ?fn_lookup_insert_ne by (unfold ESP, EAX, EBX in *; lia);
  rewrite ?fn_lookup_insert, ?fn_lookup_insert_ne by (unfold ESP, EAX, EBX in *; lia); eassumption || reflexivity.
Ltac run_x86 :=
  repeat first
    [ rewrite step_move | rewrite step_immediate | rewrite step_exchange | rewrite step_end
    | erewrite step_push; [|esp_is|lia]
    | erewrite step_pop; [|esp_is|lia]
    | erewrite step_load; [|esp_is|lia]
    | erewrite step_store; [|esp_is|lia]
    | erewrite step_store_imm; [|esp_is|lia] ];
  cbn [regs mem].

(** ** The frame *)

Section Frame.
Context (esp stack_bound : Z) (Hbound : 0 <= stack_bound <= 2 ^ 27).

(** The stack pointer is [esp], aligned, with room for two words below it and the frame
    above. *)
Definition good (s : machine) : Prop :=
  regs s ESP = esp /\ 8 <= regs s ESP /\ regs s ESP + stack_bound <= 2 ^ 32 /\ regs s ESP mod 4 = 0.
(** The displacements of the slots of the frame. *)
Definition slot (i : Z) : Prop := 0 <= i /\ i + 4 <= stack_bound /\ i mod 4 = 0.
Definition frame (s : machine) (i : Z) : Z := mem s (address s i).

(** The state [s'] has the registers [R], except those of [clobbered], and the slots [F]. *)
Definition becomes (clobbered : Z -> Prop) (s s' : machine) (R F : Z -> Z) : Prop :=
  regs s' ESP = regs s ESP /\
  (forall r, r <> ESP -> ~ clobbered r -> regs s' r = R r) /\
  (forall i, slot i -> frame s' i = F i).

Lemma address_slot s i : good s -> slot i -> address s i = regs s ESP + i.
Proof. unfold good, slot, address. intros. apply uint32_small. lia. Qed.

Lemma becomes_intro clobbered s s' R F :
  good s -> regs s' ESP = regs s ESP ->
  (forall r, r <> ESP -> ~ clobbered r -> regs s' r = R r) ->
  (forall i, slot i -> mem s' (regs s ESP + i) = F i) -> becomes clobbered s s' R F.
Proof.
  intros Hs He Hr Hf. split_and!; [done..|]. intros i Hi. unfold frame.
  rewrite address_slot, He by (unfold good in *; rewrite ?He; done). by apply Hf.
Qed.

Ltac finish_x86 :=
  unfold insert, fn_insert, frame in *; rewrite ?address_slot by done;
  repeat case_decide; subst; try done; try (exfalso; unfold slot, ESP, EAX, EBX in *; lia);
  try (f_equal; lia).
Definition only (l : list Z) (r : Z) : Prop := r ∈ l.

(** Symbolic execution of a piece of code whose effect is claimed. *)
Ltac open_facts :=
  repeat match goal with
  | H : good _ |- _ => let H' := fresh in pose proof H as H'; unfold good in H'; destruct H' as (? & ? & ? & ?); revert H
  | H : slot _ |- _ => let H' := fresh in pose proof H as H'; unfold slot in H'; destruct H' as (? & ? & ?); revert H
  end; intros.
Ltac x86_code :=
  intros; apply becomes_intro;
  [ done
  | open_facts; run_x86; finish_x86
  | let Hn := fresh in
    intros ? ? Hn; unfold only in Hn; open_facts; run_x86; finish_x86;
    exfalso; apply Hn; rewrite ?elem_of_cons; tauto
  | intros; open_facts; run_x86; finish_x86 ].

Section Sequences.
Context (s : machine) (Hs : good s).

Lemma code_move d r : d <> ESP -> r <> ESP ->
  becomes (only []) s (exec [movl_rr d r] s) (<[d := regs s r]> (regs s)) (frame s).
Proof. x86_code. Qed.
Lemma code_store i r : slot i -> r <> ESP ->
  becomes (only []) s (exec [movl_store i r] s) (regs s) (<[i := regs s r]> (frame s)).
Proof. x86_code. Qed.
Lemma code_load i r : slot i -> r <> ESP ->
  becomes (only []) s (exec [movl_load r i] s) (<[r := frame s i]> (regs s)) (frame s).
Proof. x86_code. Qed.
Lemma code_immediate v r : r <> ESP ->
  becomes (only []) s (exec [movl_ri r v] s) (<[r := uint32 v]> (regs s)) (frame s).
Proof. x86_code. Qed.
Lemma code_store_immediate v i : slot i ->
  becomes (only []) s (exec [movl_mi i v] s) (regs s) (<[i := uint32 v]> (frame s)).
Proof. x86_code. Qed.
Lemma code_exchange d r : d <> ESP -> r <> ESP ->
  becomes (only []) s (exec [xchgl d r] s)
    (<[r := regs s d]> (<[d := regs s r]> (regs s))) (frame s).
Proof. x86_code. Qed.

Lemma code_copy r dst src : slot dst -> slot src -> r <> ESP ->
  becomes (only [r]) s (exec [movl_load r (src + 0); movl_store (dst + 0) r] s)
    (regs s) (<[dst := frame s src]> (frame s)).
Proof. x86_code. Qed.
Lemma code_copy_spilled r dst src : slot dst -> slot src -> r <> ESP ->
  becomes (only []) s
    (exec [pushl r; movl_load r (src + 4); movl_store (dst + 4) r; popl r] s)
    (regs s) (<[dst := frame s src]> (frame s)).
Proof. x86_code. Qed.

Lemma code_swap_register r reg i : slot i -> r <> ESP -> reg <> ESP -> r <> reg ->
  becomes (only [r]) s
    (exec [movl_load r (i + 0); movl_store (i + 0) reg; movl_rr reg r] s)
    (<[reg := frame s i]> (regs s)) (<[i := regs s reg]> (frame s)).
Proof. x86_code. Qed.
Lemma code_swap_register_spilled r reg i : slot i -> r <> ESP -> reg <> ESP -> r <> reg ->
  becomes (only []) s
    (exec [pushl r; movl_load r (i + 4); movl_store (i + 4) reg; movl_rr reg r; popl r] s)
    (<[reg := frame s i]> (regs s)) (<[i := regs s reg]> (frame s)).
Proof. x86_code. Qed.

Lemma code_swap_memory r1 r2 i j : slot i -> slot j -> r1 <> ESP -> r2 <> ESP -> r2 <> r1 ->
  becomes (only [r1; r2]) s
    (exec [movl_load r1 (i + (0 + 0)); movl_load r2 (j + (0 + 0));
           movl_store (j + (0 + 0)) r1; movl_store (i + (0 + 0)) r2] s)
    (regs s) (<[i := frame s j]> (<[j := frame s i]> (frame s))).
Proof. x86_code. Qed.
Lemma code_swap_memory_spilled1 r1 r2 i j :
  slot i -> slot j -> r1 <> ESP -> r2 <> ESP -> r2 <> r1 ->
  becomes (only [r2]) s
    (exec [pushl r1; movl_load r1 (i + (4 + 0)); movl_load r2 (j + (4 + 0));
           movl_store (j + (4 + 0)) r1; movl_store (i + (4 + 0)) r2; popl r1] s)
    (regs s) (<[i := frame s j]> (<[j := frame s i]> (frame s))).
Proof. x86_code. Qed.
Lemma code_swap_memory_spilled2 r1 r2 i j :
  slot i -> slot j -> r1 <> ESP -> r2 <> ESP -> r2 <> r1 ->
  becomes (only [r1]) s
    (exec [pushl r2; movl_load r1 (i + (0 + 4)); movl_load r2 (j + (0 + 4));
           movl_store (j + (0 + 4)) r1; movl_store (i + (0 + 4)) r2; popl r2] s)
    (regs s) (<[i := frame s j]> (<[j := frame s i]> (frame s))).
Proof. x86_code. Qed.
Lemma code_swap_memory_spilled r1 r2 i j :
  slot i -> slot j -> r1 <> ESP -> r2 <> ESP -> r2 <> r1 ->
  becomes (only []) s
    (exec [pushl r1; pushl r2; movl_load r1 (i + (4 + 4)); movl_load r2 (j + (4 + 4));
           movl_store (j + (4 + 4)) r1; movl_store (i + (4 + 4)) r2; popl r2; popl r1] s)
    (regs s) (<[i := frame s j]> (<[j := frame s i]> (frame s))).
Proof. x86_code. Qed.
End Sequences.

(** ** Locations and their contents *)

Section Backend.
Context (w : Z) (Hw : 32 <= w) (AsIntConstant : Z -> option Z).

(** The contents of a location, given those of registers and slots. *)
Definition contents (R F : Z -> Z) (l : Z) : Z :=
  match GetKind w l with
  | Some kRegister => R (GetPayload w l)
  | Some kStackSlot => match GetStackIndex w l with Ok i => F i | Fault _ => 0 end
  | Some kConstant =>
      match GetConstant l with
      | Ok a => match AsIntConstant a with Some v => uint32 v | None => 0 end
      | Fault _ => 0
      end
  | _ => 0
  end.
Definition value (s : machine) (l : Z) : Z := contents (regs s) (frame s) l.

(** The locations of integers on x86: general registers but ESP, slots of the frame, and
    integer constants. *)
Definition supported (l : Z) : Prop :=
  (exists r, 0 <= r < kNumberOfCpuRegisters /\ r <> ESP /\ l = register_location r) \/
  (exists i, slot i /\ StackSlot w i = Ok l) \/
  (exists a v, IsConstant l = true /\ GetConstant l = Ok a /\ AsIntConstant a = Some v).

Record is_register (l r : Z) : Prop := {
  reg_range : 0 <= r < kNumberOfCpuRegisters;
  reg_not_esp : r <> ESP;
  reg_location : l = register_location r;
  reg_kind : GetKind w l = Some kRegister;
  reg_is : IsRegister w l = true;
  reg_is_slot : IsStackSlot w l = false;
  reg_not_constant : IsConstant l = false;
  reg_as : AsRegister w l = Ok r;
  reg_contents R F : contents R F l = R r;
}.
Record is_slot (l i : Z) : Prop := {
  slot_slot : slot i;
  slot_location : StackSlot w i = Ok l;
  slot_kind : GetKind w l = Some kStackSlot;
  slot_is_register : IsRegister w l = false;
  slot_is : IsStackSlot w l = true;
  slot_not_constant : IsConstant l = false;
  slot_index : stack_index w l = lift (Ok i);
  slot_contents R F : contents R F l = F i;
}.
Record is_constant (l a v : Z) : Prop := {
  const_kind : GetKind w l = Some kConstant;
  const_is_register : IsRegister w l = false;
  const_is_slot : IsStackSlot w l = false;
  const_constant : IsConstant l = true;
  const_get : GetConstant l = Ok a;
  const_as : AsIntConstant a = Some v;
  const_contents R F : contents R F l = uint32 v;
}.

Lemma supported_view l : supported l ->
  (exists r, is_register l r) \/ (exists i, is_slot l i) \/ (exists a v, is_constant l a v).
Proof.
  intros [(r & Hr & Hne & ->)|[(i & Hi & Hl)|(a & v & Hc & Ha & Hv)]].
  - left. exists r. unfold kNumberOfCpuRegisters in Hr.
    assert (2 ^ 28 <= 2 ^ (w - 4)) by (apply Z.pow_le_mono_r; lia).
    destruct (location_made w Hw kRegister r) as (_ & Hc & Hk & Hp); [by apply tagged_ok|lia|].
    split; unfold register_location, IsRegister, IsStackSlot, has_kind; try by rewrite ?Hk.
    + unfold AsRegister, reg, IsRegister, has_kind. rewrite Hk, Hp, bool_decide_true by done. cbn.
      f_equal. apply wrapS_id; [done|]. unfold fitsS. lia.
    + intros R F. unfold contents. by rewrite Hk, Hp.
  - right; left. exists i.
    assert (2 ^ 27 <= 2 ^ (w - 5)) by (apply Z.pow_le_mono_r; lia). pose proof Hi as (? & ? & ?).
    destruct (slot_made w Hw kStackSlot i) as (l' & Hl' & Hk & Hg); [by left|lia|].
    assert (l' = l) as -> by (unfold StackSlot in Hl; congruence).
    split; unfold IsRegister, IsStackSlot, has_kind; try by rewrite ?Hk.
    + unfold GetKind in Hk. by destruct (IsConstant l).
    + unfold stack_index. rewrite Hg. cbn. do 2 f_equal. apply wrapS_id; [done|]. unfold fitsS. lia.
    + intros R F. unfold contents. by rewrite Hk, Hg.
  - right; right. exists a, v. assert (GetKind w l = Some kConstant) as Hk by (unfold GetKind; by rewrite Hc).
    split; unfold IsRegister, IsStackSlot, has_kind; try by rewrite ?Hk.
    intros R F. unfold contents. by rewrite Hk, Ha, Hv.
Qed.

Lemma register_inj l l' r : is_register l r -> is_register l' r -> l = l'.
Proof. intros [] []. by subst. Qed.
Lemma slot_inj l l' i : is_slot l i -> is_slot l' i -> l = l'.
Proof. intros [] []. congruence. Qed.
Lemma register_not_slot l r i : is_register l r -> is_slot l i -> False.
Proof. intros [] []. congruence. Qed.

Lemma slot_not_register l i r : is_slot l i -> l <> register_location r.
Proof.
  intros Hi ->. pose proof (slot_kind _ _ Hi) as Hk. unfold register_location in Hk.
  destruct (kind_of w Hw kRegister r) as [_ Hk']; [by apply tagged_ok|]. congruence.
Qed.

(** Writing a register or a slot changes no other location. *)
Lemma contents_register l d r R F v :
  is_register d r -> supported l -> l <> d -> contents (<[r := v]> R) F l = contents R F l.
Proof.
  intros Hr Hl Hne. destruct (supported_view _ Hl) as [[r' Hr']|[[i Hi]|(a & u & Hc)]].
  - rewrite !(reg_contents _ _ Hr'). apply fn_lookup_insert_ne. intros <-.
    by eapply Hne, register_inj.
  - by rewrite !(slot_contents _ _ Hi).
  - by rewrite !(const_contents _ _ _ Hc).
Qed.
Lemma contents_slot l d i R F v :
  is_slot d i -> supported l -> l <> d -> contents R (<[i := v]> F) l = contents R F l.
Proof.
  intros Hi Hl Hne. destruct (supported_view _ Hl) as [[r' Hr']|[[i' Hi']|(a & u & Hc)]].
  - by rewrite !(reg_contents _ _ Hr').
  - rewrite !(slot_contents _ _ Hi'). apply fn_lookup_insert_ne. intros <-. by eapply Hne, slot_inj.
  - by rewrite !(const_contents _ _ _ Hc).
Qed.

(** From the effect on the machine to the effect on locations. *)
Lemma becomes_contents L s s' R F l :
  becomes (only L) s s' R F -> supported l -> (forall r, r ∈ L -> l <> register_location r) ->
  value s' l = contents R F l.
Proof.
  intros (_ & Hr & Hf) Hl HL. unfold value.
  destruct (supported_view _ Hl) as [[r Hreg]|[[i Hslot]|(a & v & Hc)]].
  - rewrite !(reg_contents _ _ Hreg). apply Hr; [apply Hreg|]. intros Hin.
    by apply (HL r Hin), Hreg.
  - rewrite !(slot_contents _ _ Hslot). apply Hf, Hslot.
  - by rewrite !(const_contents _ _ _ Hc).
Qed.

Lemma becomes_good L s s' R F : good s -> becomes L s s' R F -> good s'.
Proof. intros Hs [He _]. unfold good. by rewrite He. Qed.

(** *** Scratch registers *)

Lemma esp_unsupported : ~ supported (register_location ESP).
Proof.
  intros H. destruct (location_made w Hw kRegister ESP) as (_ & Hc & Hk & _); [by apply tagged_ok| |].
  { assert (2 ^ 28 <= 2 ^ (w - 4)) by (apply Z.pow_le_mono_r; lia). unfold ESP. lia. }
  destruct (supported_view _ H) as [[r Hr]|[[i Hi]|(a & v & Hv)]].
  - pose proof (reg_location _ _ Hr) as He. apply (reg_not_esp _ _ Hr).
    unfold register_location in He. lia.
  - pose proof (slot_kind _ _ Hi). unfold register_location in *. congruence.
  - pose proof (const_kind _ _ _ Hv). unfold register_location in *. congruence.
Qed.

Definition spill (spilled : bool) (c : list instr) : list instr := if spilled then c else [].

Lemma scope_spec ms c blocked if_scratch :
  Forall (listed supported) ms -> blocked <> if_scratch -> if_scratch <> ESP ->
  exists r spilled,
    ScratchRegisterScope SpillScratch w blocked if_scratch kNumberOfCpuRegisters (MkResolver ms c) =
      Ok ((r, spilled), MkResolver ms (c ++ spill spilled [pushl r])) /\
    r <> ESP /\ r <> blocked /\
    (spilled = false -> free_location ms (register_location r)).
Proof.
  intros Hl Hb Hesp. assert (Forall wf_move ms) as Hwf by (eapply Forall_impl; [done|by intros ? []]).
  destruct (AllocateScratchRegister_spec ms c Hwf w blocked kNumberOfCpuRegisters if_scratch)
    as (r & spilled & Hrun & Hr); [done..|]. exists r, spilled.
  unfold ScratchRegisterScope. rewrite (M_bind_step _ _ _ _ _ Hrun). destruct spilled.
  - subst r. by split_and!.
  - cbn. rewrite app_nil_r. destruct Hr as (Hr & Hne & Hfree). split_and!; [done| |done|done].
    intros ->. destruct Hfree as (_ & j & m & Hj & Hd). apply esp_unsupported.
    rewrite Forall_lookup in Hl. destruct (Hl _ _ Hj) as [_ Hsup]. rewrite <- Hd. apply Hsup.
    rewrite Hd. done.
Qed.

Lemma free_scratch ms k m r : ms !! k = Some m -> destination_ m <> register_location r ->
  free_location ms (register_location r) -> scratch ms k (register_location r).
Proof.
  intros Hk Hd [H1 (j & mj & Hj & Hdj)]. split; [done|]. exists j, mj. split_and!; [|done..].
  intros ->. congruence.
Qed.

(** Collects the code a straight-line emitter appends. *)
Ltac after_scope :=
  unfold leave_scope, RestoreScratch, emit_code, modify, mbind, M_bind, spill, kX86WordSize; cbn;
  rewrite ?app_nil_r, <- ?app_assoc.

(** The code for a copy and for exchanges, and what it does. *)
Section Emitted.
Context (ms : list MoveOperands) (c : list instr) (k : nat) (m : MoveOperands).
Hypothesis (Hl : Forall (listed supported) ms) (Hm : ms !! k = Some m).

(** The registers [L] may be clobbered. *)
Definition expendable (L : list Z) : Prop :=
  forall r, r ∈ L -> scratch ms k (register_location r) /\ destination_ m <> register_location r.

Lemma expendable_nil : expendable [].
Proof. by intros r ?%elem_of_nil. Qed.
Lemma expendable_cons r L :
  free_location ms (register_location r) -> destination_ m <> register_location r ->
  expendable L -> expendable (r :: L).
Proof. intros Hf Hd HL r' [->|?]%elem_of_cons; [|auto]. split; [by eapply free_scratch|done]. Qed.

(** [new] is emitted, has the effect given, and clobbers expendable registers only. *)
Definition emits (code : resolver unit) (R F : machine -> Z -> Z) : Prop :=
  exists new, code (MkResolver ms c) = Ok (tt, MkResolver ms (c ++ new)) /\
    exists L, expendable L /\ forall s, good s -> becomes (only L) s (exec new s) (R s) (F s).

Lemma emits_intro (code : resolver unit) new L R F :
  code (MkResolver ms c) = Ok (tt, MkResolver ms (c ++ new)) -> expendable L ->
  (forall s, good s -> becomes (only L) s (exec new s) (R s) (F s)) -> emits code R F.
Proof. intros. exists new. split; [done|]. by exists L. Qed.

(** The laws of [Emitter], for code that [emits]. *)
Lemma emits_law code R F changed : emits code R F ->
  (forall s l, supported l -> l ∉ changed -> contents (R s) (F s) l = value s l) ->
  exists new, code (MkResolver ms c) = Ok (tt, MkResolver ms (c ++ new)) /\
    forall s, good s -> good (exec new s) /\
      (forall l, supported l -> l = source_ m \/ l = destination_ m ->
        value (exec new s) l = contents (R s) (F s) l) /\
      keeps value supported ms k changed s (exec new s).
Proof.
  intros (new & Hrun & L & HL & Hnew) Hsame. exists new. split; [done|]. intros s Hs.
  specialize (Hnew s Hs). split_and!; [by eapply becomes_good| |].
  - intros l Hl' Hop. eapply becomes_contents; [done..|]. intros r Hr. destruct (HL r Hr) as [[Hsc _] ?].
    destruct Hop as [->| ->]; [by apply (Hsc k)|done].
  - intros l Hl' Hch Hsc. rewrite <- (Hsame s l) by done. eapply becomes_contents; [done..|].
    intros r Hr ->. by apply Hsc, HL.
Qed.

Lemma MoveMemoryToMemory_emits dst src :
  slot dst -> slot src -> (forall r, destination_ m <> register_location r) ->
  emits (MoveMemoryToMemory w dst src) regs (fun s => <[dst := frame s src]> (frame s)).
Proof.
  intros Hd Hs Hdest.
  destruct (scope_spec ms c kNoRegister EAX) as (r & spilled & Hrun & He & Hb & Hfree); [done..|].
  destruct spilled.
  - eapply emits_intro; [| |intros s' Hs'; by apply (code_copy_spilled s' Hs' r)]; [|apply expendable_nil].
    unfold MoveMemoryToMemory. rewrite (M_bind_step _ _ _ _ _ Hrun). by after_scope.
  - eapply emits_intro; [| |intros s' Hs'; by apply (code_copy s' Hs' r)].
    + unfold MoveMemoryToMemory. rewrite (M_bind_step _ _ _ _ _ Hrun). by after_scope.
    + auto using expendable_cons, expendable_nil.
Qed.

Lemma Exchange_register_emits reg i :
  slot i -> reg <> ESP -> (forall r, r <> reg -> destination_ m <> register_location r) ->
  emits (Exchange_register w reg i)
    (fun s => <[reg := frame s i]> (regs s)) (fun s => <[i := regs s reg]> (frame s)).
Proof.
  intros Hi Hreg Hdest.
  assert ((if reg =? EAX then EBX else EAX) <> ESP) by (by destruct (reg =? EAX)).
  destruct (scope_spec ms c reg (if reg =? EAX then EBX else EAX))
    as (r & spilled & Hrun & He & Hb & Hfree); [done| |done|].
  { destruct (Z.eqb_spec reg EAX) as [->|]; done. }
  destruct spilled.
  - eapply emits_intro; [| |intros s' Hs'; by apply (code_swap_register_spilled s' Hs' r)];
      [|apply expendable_nil].
    unfold Exchange_register. rewrite (M_bind_step _ _ _ _ _ Hrun). by after_scope.
  - eapply emits_intro; [| |intros s' Hs'; by apply (code_swap_register s' Hs' r)].
    + unfold Exchange_register. rewrite (M_bind_step _ _ _ _ _ Hrun). by after_scope.
    + auto using expendable_cons, expendable_nil.
Qed.

Lemma Exchange_memory_emits i j :
  slot i -> slot j -> (forall r, destination_ m <> register_location r) ->
  emits (Exchange_memory w i j) regs (fun s => <[i := frame s j]> (<[j := frame s i]> (frame s))).
Proof.
  intros Hi Hj Hdest.
  destruct (scope_spec ms c kNoRegister EAX) as (r1 & sp1 & Hrun1 & He1 & _ & Hfree1); [done..|].
  assert ((if r1 =? EAX then EBX else EAX) <> ESP) by (by destruct (r1 =? EAX)).
  destruct (scope_spec ms (c ++ spill sp1 [pushl r1]) r1 (if r1 =? EAX then EBX else EAX))
    as (r2 & sp2 & Hrun2 & He2 & Hb2 & Hfree2); [done| |done|].
  { destruct (Z.eqb_spec r1 EAX) as [->|]; done. }
  destruct sp1, sp2.
  - eapply emits_intro; [| |intros s' Hs'; by apply (code_swap_memory_spilled s' Hs' r1 r2)];
      [|apply expendable_nil]. unfold Exchange_memory. rewrite (M_bind_step _ _ _ _ _ Hrun1), (M_bind_step _ _ _ _ _ Hrun2). by after_scope.
  - eapply emits_intro; [| |intros s' Hs'; by apply (code_swap_memory_spilled1 s' Hs' r1 r2)].
    + unfold Exchange_memory. rewrite (M_bind_step _ _ _ _ _ Hrun1), (M_bind_step _ _ _ _ _ Hrun2). by after_scope.
    + auto using expendable_cons, expendable_nil.
  - eapply emits_intro; [| |intros s' Hs'; by apply (code_swap_memory_spilled2 s' Hs' r1 r2)].
    + unfold Exchange_memory. rewrite (M_bind_step _ _ _ _ _ Hrun1), (M_bind_step _ _ _ _ _ Hrun2). by after_scope.
    + auto using expendable_cons, expendable_nil.
  - eapply emits_intro; [| |intros s' Hs'; by apply (code_swap_memory s' Hs' r1 r2)].
    + unfold Exchange_memory. rewrite (M_bind_step _ _ _ _ _ Hrun1), (M_bind_step _ _ _ _ _ Hrun2). by after_scope.
    + auto using expendable_cons, expendable_nil.
Qed.

Lemma emits_plain (code : resolver unit) new R F :
  code (MkResolver ms c) = emit_code new (MkResolver ms c) ->
  (forall s, good s -> becomes (only []) s (exec new s) (R s) (F s)) -> emits code R F.
Proof. intros Hcode Hnew. eapply emits_intro; [exact Hcode|apply expendable_nil|done]. Qed.

(** Runs the dispatch of [EmitMove] and [EmitSwap] on known kinds of locations. *)
Local Ltac dispatch Hsrc Hdst :=
  rewrite (M_bind_step _ _ _ _ _ (Get_at _ _ _ _ Hm));
  try rewrite (reg_is _ _ Hsrc); try rewrite (reg_is_slot _ _ Hsrc);
  try rewrite (slot_is _ _ Hsrc); try rewrite (slot_is_register _ _ Hsrc);
  try rewrite (reg_is _ _ Hdst); try rewrite (reg_is_slot _ _ Hdst);
  try rewrite (slot_is _ _ Hdst); try rewrite (slot_is_register _ _ Hdst);
  unfold as_register; cbn [andb];
  try rewrite (reg_as _ _ Hsrc); try rewrite (reg_as _ _ Hdst);
  try rewrite (slot_index _ _ Hsrc); try rewrite (slot_index _ _ Hdst);
  rewrite ?M_bind_Ok; try reflexivity.

Lemma EmitMove_emits :
  supported (source_ m) -> supported (destination_ m) ->
  source_ m <> destination_ m -> IsConstant (destination_ m) = false ->
  IsConstant (source_ m) = false ->
  exists R F, emits (EmitMove w AsIntConstant k) R F /\
    (forall s, contents (R s) (F s) (destination_ m) = value s (source_ m)) /\
    (forall s l, supported l -> l ∉ [destination_ m] -> contents (R s) (F s) l = value s l).
Proof.
  intros Hs Hd Hne Hdc Hsc. unfold value.
  assert (forall l : Z, l ∉ [destination_ m] -> l <> destination_ m) as Hother by set_solver.
  destruct (supported_view _ Hs) as [[r Hr]|[[i Hi]|(? & ? & [])]]; [..|congruence];
    (destruct (supported_view _ Hd) as [[r' Hr']|[[i' Hi']|(? & ? & [])]]; [..|congruence]).
  - exists (fun s => <[r' := regs s r]> (regs s)), frame. split_and!; [|intros s|intros s l Hl' Ho].
    + eapply emits_plain; [unfold EmitMove; dispatch Hr Hr'|intros; apply code_move; [done|apply Hr'|apply Hr]].
    + by rewrite (reg_contents _ _ Hr), (reg_contents _ _ Hr'), fn_lookup_insert.
    + eapply contents_register; eauto.
  - exists regs, (fun s => <[i' := regs s r]> (frame s)). split_and!; [|intros s|intros s l Hl' Ho].
    + eapply emits_plain; [unfold EmitMove; dispatch Hr Hi'|intros; apply code_store; [done|apply Hi'|apply Hr]].
    + by rewrite (reg_contents _ _ Hr), (slot_contents _ _ Hi'), fn_lookup_insert.
    + eapply contents_slot; eauto.
  - exists (fun s => <[r' := frame s i]> (regs s)), frame. split_and!; [|intros s|intros s l Hl' Ho].
    + eapply emits_plain; [unfold EmitMove; dispatch Hi Hr'|intros; apply code_load; [done|apply Hi|apply Hr']].
    + by rewrite (slot_contents _ _ Hi), (reg_contents _ _ Hr'), fn_lookup_insert.
    + eapply contents_register; eauto.
  - exists regs, (fun s => <[i' := frame s i]> (frame s)). split_and!; [|intros s|intros s l Hl' Ho].
    + destruct (MoveMemoryToMemory_emits i' i) as (new & Hrun & HL); [apply Hi'|apply Hi|by intros; eapply slot_not_register|].
      exists new. split; [|done]. rewrite <- Hrun. unfold EmitMove. dispatch Hi Hi'.
    + by rewrite (slot_contents _ _ Hi), (slot_contents _ _ Hi'), fn_lookup_insert.
    + eapply contents_slot; eauto.
Qed.

Lemma EmitMove_constant :
  supported (source_ m) -> supported (destination_ m) ->
  IsConstant (destination_ m) = false -> IsConstant (source_ m) = true ->
  exists new, EmitMove w AsIntConstant k (MkResolver ms c) = Ok (tt, MkResolver ms (c ++ new)) /\
    forall s, good s -> good (exec new s) /\
      value (exec new s) (destination_ m) = value s (source_ m) /\
      forall l, supported l -> l <> destination_ m -> value (exec new s) l = value s l.
Proof.
  intros Hs Hd Hdc Hsc.
  destruct (supported_view _ Hs) as [[r []]|[[i []]|(a & v & Hv)]]; [congruence..|].
  destruct (supported_view _ Hd) as [[r' Hr']|[[i' Hi']|(? & ? & [])]]; [..|congruence].
  - exists [movl_ri r' v]. split.
    { unfold EmitMove. rewrite (M_bind_step _ _ _ _ _ (Get_at _ _ _ _ Hm)).
      rewrite (const_is_register _ _ _ Hv), (const_is_slot _ _ _ Hv), Hsc, (const_get _ _ _ Hv), M_bind_Ok.
      rewrite (const_as _ _ _ Hv), M_bind_Ok, (reg_is _ _ Hr'). unfold as_register.
      by rewrite (reg_as _ _ Hr'). }
    intros s Hgood. pose proof (code_immediate s Hgood v r' (reg_not_esp _ _ Hr')) as Hb.
    split; [by eapply becomes_good|]. split; [|intros l Hl' Ho];
      (rewrite (becomes_contents _ _ _ _ _ _ Hb); [|done|by intros ? ?%elem_of_nil]).
    + unfold value. by rewrite (reg_contents _ _ Hr'), (const_contents _ _ _ Hv), fn_lookup_insert.
    + by eapply contents_register.
  - exists [movl_mi i' v]. split.
    { unfold EmitMove. rewrite (M_bind_step _ _ _ _ _ (Get_at _ _ _ _ Hm)).
      rewrite (const_is_register _ _ _ Hv), (const_is_slot _ _ _ Hv), Hsc, (const_get _ _ _ Hv), M_bind_Ok.
      rewrite (const_as _ _ _ Hv), M_bind_Ok, (slot_is_register _ _ Hi').
      by rewrite (slot_index _ _ Hi'). }
    intros s Hgood. pose proof (code_store_immediate s Hgood v i' (slot_slot _ _ Hi')) as Hb.
    split; [by eapply becomes_good|]. split; [|intros l Hl' Ho];
      (rewrite (becomes_contents _ _ _ _ _ _ Hb); [|done|by intros ? ?%elem_of_nil]).
    + unfold value. by rewrite (slot_contents _ _ Hi'), (const_contents _ _ _ Hv), fn_lookup_insert.
    + by eapply contents_slot.
Qed.

Lemma EmitSwap_emits :
  supported (source_ m) -> supported (destination_ m) ->
  source_ m <> destination_ m -> IsConstant (source_ m) = false ->
  IsConstant (destination_ m) = false ->
  exists R F, emits (EmitSwap w k) R F /\
    (forall s, contents (R s) (F s) (destination_ m) = value s (source_ m)) /\
    (forall s, contents (R s) (F s) (source_ m) = value s (destination_ m)) /\
    (forall s l, supported l -> l ∉ [source_ m; destination_ m] ->
      contents (R s) (F s) l = value s l).
Proof.
  intros Hs Hd Hne Hsc Hdc. unfold value.
  assert (forall l : Z, l ∉ [source_ m; destination_ m] -> l <> source_ m /\ l <> destination_ m)
    as Hother by set_solver.
  destruct (supported_view _ Hs) as [[r Hr]|[[i Hi]|(? & ? & [])]]; [..|congruence];
    (destruct (supported_view _ Hd) as [[r' Hr']|[[i' Hi']|(? & ? & [])]]; [..|congruence]).
  - assert (r <> r') by (intros ->; by eapply Hne, register_inj).
    exists (fun s => <[r := regs s r']> (<[r' := regs s r]> (regs s))), frame.
    split_and!; [|intros s|intros s|intros s l Hl' [??]%Hother].
    + eapply emits_plain; [unfold EmitSwap; dispatch Hr Hr'|intros; apply code_exchange; [done|apply Hr'|apply Hr]].
    + by rewrite (reg_contents _ _ Hr), (reg_contents _ _ Hr'), fn_lookup_insert_ne, fn_lookup_insert.
    + by rewrite (reg_contents _ _ Hr), (reg_contents _ _ Hr'), fn_lookup_insert.
    + by erewrite !contents_register by done.
  - exists (fun s => <[r := frame s i']> (regs s)), (fun s => <[i' := regs s r]> (frame s)).
    split_and!; [|intros s|intros s|intros s l Hl' [??]%Hother].
    + destruct (Exchange_register_emits r i') as (new & Hrun & HL);
        [apply Hi'|apply Hr|by intros; eapply slot_not_register|].
      exists new. split; [|done]. rewrite <- Hrun. unfold EmitSwap. dispatch Hr Hi'.
    + by rewrite (reg_contents _ _ Hr), (slot_contents _ _ Hi'), fn_lookup_insert.
    + by rewrite (reg_contents _ _ Hr), (slot_contents _ _ Hi'), fn_lookup_insert.
    + by erewrite contents_register, contents_slot by done.
  - exists (fun s => <[r' := frame s i]> (regs s)), (fun s => <[i := regs s r']> (frame s)).
    split_and!; [|intros s|intros s|intros s l Hl' [??]%Hother].
    + destruct (Exchange_register_emits r' i) as (new & Hrun & HL); [apply Hi|apply Hr'| |].
      { intros q Hq. rewrite (reg_location _ _ Hr'). unfold register_location. lia. }
      exists new. split; [|done]. rewrite <- Hrun. unfold EmitSwap. dispatch Hi Hr'.
    + by rewrite (slot_contents _ _ Hi), (reg_contents _ _ Hr'), fn_lookup_insert.
    + by rewrite (slot_contents _ _ Hi), (reg_contents _ _ Hr'), fn_lookup_insert.
    + by erewrite contents_register, contents_slot by done.
  - assert (i <> i') by (intros ->; by eapply Hne, slot_inj).
    exists regs, (fun s => <[i' := frame s i]> (<[i := frame s i']> (frame s))).
    split_and!; [|intros s|intros s|intros s l Hl' [??]%Hother].
    + destruct (Exchange_memory_emits i' i) as (new & Hrun & HL);
        [apply Hi'|apply Hi|by intros; eapply slot_not_register|].
      exists new. split; [|done]. rewrite <- Hrun. unfold EmitSwap. dispatch Hi Hi'.
    + by rewrite (slot_contents _ _ Hi), (slot_contents _ _ Hi'), fn_lookup_insert.
    + by rewrite (slot_contents _ _ Hi), (slot_contents _ _ Hi'), fn_lookup_insert_ne, fn_lookup_insert.
    + by erewrite !contents_slot by done.
Qed.
End Emitted.

Lemma none_unsupported : ~ supported NoLocation.
Proof.
  assert (GetKind w NoLocation = Some kInvalid) as Hk.
  { unfold GetKind, BitField_Decode, NoLocation. cbn. by rewrite Z.land_0_l. }
  intros H. destruct (supported_view _ H) as [[r []]|[[i []]|(a & v & [])]]; congruence.
Qed.

(** [ParallelMoveResolverX86] keeps the contract. *)
#[export] Instance x86_emitter :
  Emitter exec value good supported (EmitMove w AsIntConstant) (EmitSwap w).
Proof.
  split.
  - apply none_unsupported.
  - done.
  - intros. apply foldl_app.
  - intros [ms c] k m Hl Hm Hs Hd Hne Hdc _. destruct (IsConstant (source_ m)) eqn:Hsc.
    + destruct (EmitMove_constant ms c k m Hm Hs Hd Hdc Hsc) as (new & Hrun & Hnew).
      exists new. split; [done|]. intros s Hg. destruct (Hnew s Hg) as (? & ? & Hk).
      split_and!; [done..| |done]. intros l Hl' Ho _. apply Hk; set_solver.
    + destruct (EmitMove_emits ms c k m Hl Hm Hs Hd Hne Hdc Hsc) as (R & F & He & Hv & Ho).
      destruct (emits_law ms c k m Hm _ _ _ _ He Ho) as (new & Hrun & Hnew).
      exists new. split; [done|]. intros s Hg. destruct (Hnew s Hg) as (? & Hop & Hk).
      split_and!; [done| |done|done]. rewrite Hop by auto. apply Hv.
  - intros [ms c] k m Hl Hm Hs Hd Hne Hsc Hdc _.
    destruct (EmitSwap_emits ms c k m Hl Hm Hs Hd Hne Hsc Hdc) as (R & F & He & Hv1 & Hv2 & Ho).
    destruct (emits_law ms c k m Hm _ _ _ _ He Ho) as (new & Hrun & Hnew).
    exists new. split; [done|]. intros s Hg. destruct (Hnew s Hg) as (? & Hop & Hk).
    split_and!; [done|..|done]; rewrite Hop by auto; [apply Hv1|apply Hv2].
Qed.
End Backend.
End Frame.

(** C8: the x86 code for a parallel move of integers between registers, stack slots and
    constants implements it.  Whatever the moves, as long as the destinations differ,
    code is emitted; run in any state with a well-placed stack pointer it leaves ESP where
    it was, puts what each source held into its destination and preserves every other
    register and slot, whether or not scratch registers had to be spilled. *)
Theorem x86_parallel_move w esp stack_bound AsIntConstant pm c :
  32 <= w -> 0 <= stack_bound <= 2 ^ 27 ->
  parallel_move_ok (supported stack_bound w AsIntConstant) pm ->
  exists new,
    EmitNativeCode (EmitMove w AsIntConstant) (EmitSwap w) pm (MkResolver [] c) =
      Ok (tt, MkResolver [] (c ++ new)) /\
    performs_at_once exec (value w AsIntConstant) (good esp stack_bound)
      (supported stack_bound w AsIntConstant) pm new.
Proof. intros Hw Hbound. by apply EmitNativeCode_emits, x86_emitter. Qed.

(** The slots at 0 and 4 change places while a constant is loaded into EAX. *)
Definition swapped_slots : list MoveOperands :=
  [MkMove (kind_value kStackSlot + 2 ^ 27 * 16) (kind_value kStackSlot + (2 ^ 27 + 4) * 16);
   MkMove (kind_value kStackSlot + (2 ^ 27 + 4) * 16) (kind_value kStackSlot + 2 ^ 27 * 16);
   MkMove (0x1000 + 1) (register_location EAX)].
Definition the_constant (a : Z) : option Z := if a =? 0x1000 then Some (-7) else None.

Lemma x86_parallel_move_witness :
  exists new,
    EmitNativeCode (EmitMove 32 the_constant) (EmitSwap 32) swapped_slots (MkResolver [] []) =
      Ok (tt, MkResolver [] ([] ++ new)) /\
    performs_at_once exec (value 32 the_constant) (good 0x7000 16)
      (supported 16 32 the_constant) swapped_slots new.
Proof.
  assert (supported 16 32 the_constant (kind_value kStackSlot + 2 ^ 27 * 16)) as H1.
  { right; left. exists 0. split; [done|reflexivity]. }
  assert (supported 16 32 the_constant (kind_value kStackSlot + (2 ^ 27 + 4) * 16)) as H2.
  { right; left. exists 4. split; [done|reflexivity]. }
  assert (supported 16 32 the_constant (0x1000 + 1)) as H3.
  { right; right. by exists 0x1000, (-7). }
  assert (supported 16 32 the_constant (register_location EAX)) as H4.
  { left. by exists EAX. }
  apply (x86_parallel_move 32 0x7000 16 the_constant swapped_slots []); [lia|lia|split].
  - intros m Hm. repeat (apply elem_of_cons in Hm as [->|Hm]; [done|]). by apply elem_of_nil in Hm.
  - intros m Hm. repeat (apply elem_of_cons in Hm as [->|Hm]; [done|]). by apply elem_of_nil in Hm.
  - by apply (bool_decide_unpack _).
Defined.
