(* ===== verification/Concurrency.v ===== *)
(** * Threads that share a state

    A thread is a program of atomic actions on a shared state, and threads take turns
    action by action, in any order.  An action may have to wait (a mutex that is held),
    may fault, and may depend on a choice that is not the program's (a weak
    compare-and-swap that fails for no reason, the thread a signal wakes).  Loops are
    bounded by fuel; a thread without fuel never acts again, so that the runs of a
    program with unbounded loops are the runs for all bounds.

    The second half is a logic for such programs.  [rely t] is what a thread [t] expects
    of the actions of the others, and [wp t p Q] that every action of [p] keeps the
    invariant and what the other threads rely on; ghost state is chosen anew after every
    action.  [wp_sound] says that threads that do so never break the invariant. *)

From S2P Require Import Prelude.

Abbreviation tid := Z (only parsing).

(** What an action may depend on beside the state. *)
Abbreviation choice := Z (only parsing).

Inductive prog (S A : Type) : Type :=
  | Ret (a : A)
  | Act {B : Type} (f : choice -> S -> option (res (B * S))) (k : B -> prog S A).
Arguments Ret {S A} _.
Arguments Act {S A B} _ _.

#[export] Instance prog_ret {S} : MRet (prog S) := fun A a => Ret a.
#[export] Instance prog_bind {S} : MBind (prog S) :=
  fun A B g => fix go p :=
    match p with
    | Ret a => g a
    | Act f k => Act f (fun b => go (k b))
    end.

Section programs.
Context {S : Type}.

(** One action, always enabled. *)
Definition atomic {A} (m : M S A) : prog S A := Act (fun _ s => Some (m s)) Ret.

(** One action that depends on the choice. *)
Definition choosing {A} (m : choice -> M S A) : prog S A := Act (fun c s => Some (m c s)) Ret.

(** One action that waits until [enabled]. *)
Definition awaiting {A} (enabled : choice -> S -> bool) (m : choice -> M S A) : prog S A :=
  Act (fun c s => if enabled c s then Some (m c s) else None) Ret.

(** A computation that only looks at local variables. *)
Definition local {A} (r : res A) : prog S A :=
  match r with
  | Ok a => Ret a
  | Fault f => Act (fun _ _ => Some (Fault f)) Ret
  end.

(** The thread does not act again. *)
Definition never {A} : prog S A := Act (fun _ _ => None) Ret.
End programs.

(** ** Schedules *)

Record config (S : Type) : Type := Config {
  shared : S;
  pool : gmap tid (prog S unit);
}.
Arguments Config {S} _ _.
Arguments shared {S} _.
Arguments pool {S} _.

(** The next action of thread [t]: [None] when there is none or it has to wait. *)
Definition act {S} (t : tid) (c : choice) (σ : config S) : option (res (config S)) :=
  match pool σ !! t with
  | Some (Act f k) =>
      match f c (shared σ) with
      | Some (Ok (b, s)) => Some (Ok (Config s (<[t := k b]> (pool σ))))
      | Some (Fault e) => Some (Fault e)
      | None => None
      end
  | _ => None
  end.

Definition turn {S} (σ σ' : config S) : Prop := exists t c, act t c σ = Some (Ok σ').

(** [σ'] can be reached from [σ]. *)
Abbreviation reachable := (rtc turn).

(** The run that a schedule describes; turns of threads that have to wait are skipped. *)
Fixpoint run {S} (schedule : list (tid * choice)) (σ : config S) : res (config S) :=
  match schedule with
  | [] => Ok σ
  | (t, c) :: rest =>
      match act t c σ with
      | Some (Ok σ') => run rest σ'
      | Some (Fault e) => Fault e
      | None => run rest σ
      end
  end.

Lemma run_reachable {S} schedule (σ σ' : config S) : run schedule σ = Ok σ' -> reachable σ σ'.
Proof.
  revert σ; induction schedule as [| [t c] rest IH]; intros σ Hrun; simpl in Hrun.
  - injection Hrun as ->. apply rtc_refl.
  - destruct (act t c σ) as [[σ1 | e] |] eqn:Hact; [| done | by apply IH].
    apply rtc_l with σ1; [by exists t, c | by apply IH].
Qed.

(** ** Rely and guarantee *)

Section logic.
Context {S G : Type}.

(** The invariant of the shared state with its ghost state, what each thread relies on,
    and the states in which a fault of a thread is its own doing. *)
Context (Inv : S * G -> Prop) (rely : tid -> S * G -> S * G -> Prop) (excused : tid -> S -> Prop).
Context `{rely_preorder : forall t, PreOrder (rely t)}.

Fixpoint wp {A} (t : tid) (p : prog S A) (Q : A -> S * G -> Prop) (σ : S * G) : Prop :=
  match p with
  | Ret a => forall σ', rely t σ σ' -> Inv σ' -> Q a σ'
  | Act f k =>
      forall σ', rely t σ σ' -> Inv σ' -> forall c,
        match f c σ'.1 with
        | None => True
        | Some (Fault _) => excused t σ'.1
        | Some (Ok (b, s)) =>
            exists g, Inv (s, g) /\ (forall u, u <> t -> rely u σ' (s, g)) /\ wp t (k b) Q (s, g)
        end
  end.

Lemma wp_stable {A} t (p : prog S A) Q σ σ' : rely t σ σ' -> wp t p Q σ -> wp t p Q σ'.
Proof.
  intros Hrely. destruct p as [a | B f k]; simpl; intros Hwp σ'' Hrely' HInv.
  - apply Hwp; [by transitivity σ' | done].
  - intros c. apply Hwp; [by transitivity σ' | done].
Qed.

Lemma wp_weaken {A} t (p : prog S A) Q Q' σ :
  (forall a σ', Inv σ' -> Q a σ' -> Q' a σ') -> wp t p Q σ -> wp t p Q' σ.
Proof.
  intros HQ. revert σ; induction p as [a | B f k IH]; simpl; intros σ Hwp σ' Hrely HInv.
  - apply HQ; [done | by apply Hwp].
  - intros c. specialize (Hwp σ' Hrely HInv c).
    destruct (f c σ'.1) as [[[b s] | e] |]; [| done..].
    destruct Hwp as (g & HInv' & Hguar & Hwp). exists g. eauto.
Qed.

Lemma wp_chain {A B} t (p : prog S A) (q : A -> prog S B) Q σ :
  wp t p (fun a => wp t (q a) Q) σ -> Inv σ -> wp t (p ≫= q) Q σ.
Proof.
  revert σ; induction p as [a | C f k IH]; simpl; intros σ Hwp HInv.
  - by apply Hwp.
  - intros σ' Hrely HInv' c. specialize (Hwp σ' Hrely HInv' c).
    destruct (f c σ'.1) as [[[b s] | e] |]; [| done..].
    destruct Hwp as (g & HInv'' & Hguar & Hwp). exists g. eauto.
Qed.

Lemma wp_never {A} t (Q : A -> S * G -> Prop) σ : wp t never Q σ.
Proof. by intros ???. Qed.

(** What no thread may destroy survives every program. *)
Lemma wp_frame {A} t (p : prog S A) Q (P : S * G -> Prop) σ :
  (forall u σ1 σ2, rely u σ1 σ2 -> P σ1 -> P σ2) -> P σ -> wp t p Q σ ->
  wp t p (fun a σ => Q a σ /\ P σ) σ.
Proof.
  intros HP. revert σ; induction p as [a | B f k IH]; simpl; intros σ Hσ Hwp σ' Hrely HInv.
  - split; [by apply Hwp | by eapply HP].
  - intros c. specialize (Hwp σ' Hrely HInv c).
    destruct (f c σ'.1) as [[[b s] | e] |]; [| done..].
    destruct Hwp as (g & HInv' & Hguar & Hwp). exists g. split_and!; [done.. |].
    apply IH; [| done]. apply (HP (t + 1) σ'); [apply Hguar; lia | by eapply HP].
Qed.

(** What holds when a thread is done. *)
Context (finally : tid -> S * G -> Prop).

(** Every thread of the pool keeps the rules from [(s, g)] on. *)
Definition obeying (σ : config S) : Prop :=
  exists g, Inv (shared σ, g) /\
    map_Forall (fun t p => wp t p (fun _ => finally t) (shared σ, g)) (pool σ).

Lemma turn_obeying σ σ' : obeying σ -> turn σ σ' -> obeying σ'.
Proof.
  intros (g & HInv & Hpool) (t & c & Hact). unfold act in Hact.
  destruct (pool σ !! t) as [[[] | B f k] |] eqn:Hp; [done | | done].
  assert (Hwp := Hpool _ _ Hp). simpl in Hwp.
  specialize (Hwp (shared σ, g) ltac:(reflexivity) HInv c). simpl in Hwp.
  destruct (f c (shared σ)) as [[[b s] | e] |]; simplify_eq/=.
  destruct Hwp as (g' & HInv' & Hguar & Hwp). exists g'. split; [done |].
  apply map_Forall_lookup. intros u q. simpl. rewrite lookup_insert_Some.
  intros [[<- <-] | [Hu Hq]]; [done |].
  apply wp_stable with (shared σ, g); [by apply Hguar | by apply Hpool].
Qed.

Lemma wp_sound σ σ' : obeying σ -> reachable σ σ' -> obeying σ'.
Proof. intros Hobey. induction 1; eauto using turn_obeying. Qed.

Lemma fault_excused σ t c e : obeying σ -> act t c σ = Some (Fault e) -> excused t (shared σ).
Proof.
  intros (g & HInv & Hpool) Hact. unfold act in Hact.
  destruct (pool σ !! t) as [[[] | B f k] |] eqn:Hp; [done | | done].
  assert (Hwp := Hpool _ _ Hp). simpl in Hwp.
  specialize (Hwp (shared σ, g) ltac:(reflexivity) HInv c). simpl in Hwp.
  by destruct (f c (shared σ)) as [[[b s] | e'] |]; simplify_eq/=.
Qed.

Lemma done_finally σ t : obeying σ -> pool σ !! t = Some (Ret tt) ->
  exists g, Inv (shared σ, g) /\ finally t (shared σ, g).
Proof.
  intros (g & HInv & Hpool) Hp. exists g. split; [done |]. assert (Hwp := Hpool _ _ Hp). simpl in Hwp.
  by apply Hwp.
Qed.
End logic.
