(* ===== verification/LockWord.v ===== *)
(** * Lock words (runtime/lock_word.h and lock_word-inl.h)

    Every object has a 32-bit lock word.  Its two highest bits say how to read the
    others: as the owner and the recursion count of a thin lock, as the number of a
    monitor, as an identity hash code, or as the address the object was moved to. *)

From S2P Require Import Prelude.

Definition kStateSize : Z := 2.
Definition kThinLockOwnerSize : Z := 16.
Definition kThinLockCountSize : Z := 32 - kThinLockOwnerSize - kStateSize.
Definition kThinLockOwnerShift : Z := 0.
Definition kThinLockOwnerMask : Z := Z.shiftl 1 kThinLockOwnerSize - 1.
Definition kThinLockMaxOwner : Z := kThinLockOwnerMask.
Definition kThinLockCountShift : Z := kThinLockOwnerSize + kThinLockOwnerShift.
Definition kThinLockCountMask : Z := Z.shiftl 1 kThinLockCountSize - 1.
Definition kThinLockMaxCount : Z := kThinLockCountMask.
Definition kStateShift : Z := kThinLockCountSize + kThinLockCountShift.
Definition kStateMask : Z := Z.shiftl 1 kStateSize - 1.
Definition kStateThinOrUnlocked : Z := 0.
Definition kStateFat : Z := 1.
Definition kStateHash : Z := 2.
Definition kStateForwardingAddress : Z := 3.
Definition kHashShift : Z := 0.
Definition kHashSize : Z := 32 - kStateSize.
Definition kHashMask : Z := Z.shiftl 1 kHashSize - 1.
Definition kMaxHash : Z := kHashMask.
Definition kMaxMonitorId : Z := kMaxHash.

Inductive LockState : Type :=
  | kUnlocked | kThinLocked | kFatLocked | kHashCode | kForwardingAddress.

#[export] Instance LockState_eq_dec : EqDecision LockState.
Proof. solve_decision. Defined.

Definition GetState (value_ : Z) : LockState :=
  if decide (value_ = 0) then kUnlocked
  else
    let internal_state := Z.land (Z.shiftr value_ kStateShift) kStateMask in
    if decide (internal_state = kStateThinOrUnlocked) then kThinLocked
    else if decide (internal_state = kStateHash) then kHashCode
    else if decide (internal_state = kStateForwardingAddress) then kForwardingAddress
    else kFatLocked.

Definition has_state (value_ : Z) (state : LockState) : bool := bool_decide (GetState value_ = state).

Definition FromThinLockId (thread_id count : Z) : res Z :=
  _ ← check (thread_id <=? kThinLockMaxOwner);
  _ ← check (count <=? kThinLockMaxCount);
  Ok (Z.lor (Z.lor (uint32 (Z.shiftl thread_id kThinLockOwnerShift))
                   (uint32 (Z.shiftl count kThinLockCountShift)))
            (uint32 (Z.shiftl kStateThinOrUnlocked kStateShift))).

Definition FromForwardingAddress (target : Z) : res Z :=
  _ ← check (Z.land target (Z.shiftl 1 kStateSize - 1) =? 0);
  Ok (uint32 (Z.lor (Z.shiftr target kStateSize)
                    (uint32 (Z.shiftl kStateForwardingAddress kStateShift)))).

Definition FromHashCode (hash_code : Z) : res Z :=
  _ ← check (hash_code <=? kMaxHash);
  Ok (Z.lor (uint32 (Z.shiftl hash_code kHashShift)) (uint32 (Z.shiftl kStateHash kStateShift))).

(** The constructor from a monitor, which is named by its id. *)
Definition FromMonitor (monitor_id : Z) : res Z :=
  _ ← check (monitor_id <=? kMaxMonitorId);
  Ok (Z.lor monitor_id (uint32 (Z.shiftl kStateFat kStateShift))).

(** The default constructor. *)
Definition Unlocked : Z := 0.

Definition ThinLockOwner (value_ : Z) : res Z :=
  _ ← check (has_state value_ kThinLocked);
  Ok (Z.land (Z.shiftr value_ kThinLockOwnerShift) kThinLockOwnerMask).

Definition ThinLockCount (value_ : Z) : res Z :=
  _ ← check (has_state value_ kThinLocked);
  Ok (Z.land (Z.shiftr value_ kThinLockCountShift) kThinLockCountMask).

(** The id that [MonitorPool::MonitorFromMonitorId] is given. *)
Definition FatLockMonitor (value_ : Z) : res Z :=
  _ ← check (has_state value_ kFatLocked);
  Ok (Z.land value_ (uint32 (Z.lnot (Z.shiftl kStateMask kStateShift)))).

Definition ForwardingAddress (value_ : Z) : res Z :=
  _ ← check (has_state value_ kForwardingAddress);
  Ok (uint32 (Z.shiftl value_ kStateSize)).

Definition GetHashCode (value_ : Z) : res Z :=
  _ ← check (has_state value_ kHashCode);
  Ok (int32 (Z.land (Z.shiftr value_ kHashShift) kHashMask)).

(** ** The words that are made *)

Definition thin_word (owner count : Z) : Z := owner + count * 65536.
Definition fat_word (monitor_id : Z) : Z := monitor_id + 1073741824.
Definition hash_word (hash_code : Z) : Z := hash_code + 2147483648.

Ltac lock_word_consts :=
  change kThinLockMaxOwner with 65535 in *; change kThinLockMaxCount with 16383 in *;
  change kMaxHash with 1073741823 in *; change kMaxMonitorId with 1073741823 in *;
  change kThinLockOwnerShift with 0 in *; change kThinLockCountShift with 16 in *;
  change kThinLockOwnerMask with (Z.ones 16) in *; change kThinLockCountMask with (Z.ones 14) in *;
  change kStateMask with (Z.ones 2) in *; change kStateShift with 30 in *;
  change kHashMask with (Z.ones 30) in *; change kHashShift with 0 in *;
  change kStateSize with 2 in *.

Lemma lor_low_mul a b n : 0 <= n -> 0 <= a < 2 ^ n -> Z.lor a (b * 2 ^ n) = a + b * 2 ^ n.
Proof. intros. rewrite <- lor_low_high by done. by rewrite Z.shiftl_mul_pow2. Qed.

Lemma FromThinLockId_ok owner count :
  0 <= owner <= kThinLockMaxOwner -> 0 <= count <= kThinLockMaxCount ->
  FromThinLockId owner count = Ok (thin_word owner count).
Proof.
  lock_word_consts. intros Ho Hc. unfold FromThinLockId. lock_word_consts.
  rewrite !(proj2 (Z.leb_le _ _)) by lia. simpl. f_equal.
  change (uint32 (Z.shiftl kStateThinOrUnlocked 30)) with 0. rewrite Z.lor_0_r, Z.shiftl_0_r.
  rewrite (shiftl_mul count 16) by lia. unfold thin_word.
  unfold uint32. rewrite !wrapU_id by (unfold fitsU; lia).
  change 65536 with (2 ^ 16). by rewrite lor_low_mul by lia.
Qed.

Lemma FromHashCode_ok hash : 0 <= hash <= kMaxHash -> FromHashCode hash = Ok (hash_word hash).
Proof.
  lock_word_consts. intros Hh. unfold FromHashCode. lock_word_consts.
  rewrite (proj2 (Z.leb_le _ _)) by lia. simpl. f_equal.
  rewrite Z.shiftl_0_r. change (uint32 (Z.shiftl kStateHash 30)) with (2 * 2 ^ 30).
  unfold uint32. rewrite wrapU_id by (unfold fitsU; lia). unfold hash_word.
  rewrite lor_low_mul by lia. lia.
Qed.

Lemma FromMonitor_ok id : 0 <= id <= kMaxMonitorId -> FromMonitor id = Ok (fat_word id).
Proof.
  lock_word_consts. intros Hi. unfold FromMonitor. lock_word_consts.
  rewrite (proj2 (Z.leb_le _ _)) by lia. simpl. f_equal.
  change (uint32 (Z.shiftl kStateFat 30)) with (1 * 2 ^ 30). unfold fat_word.
  rewrite lor_low_mul by lia. lia.
Qed.

Lemma GetState_div value :
  GetState value =
    if decide (value = 0) then kUnlocked
    else if decide ((value / 2 ^ 30) mod 4 = 0) then kThinLocked
    else if decide ((value / 2 ^ 30) mod 4 = 2) then kHashCode
    else if decide ((value / 2 ^ 30) mod 4 = 3) then kForwardingAddress
    else kFatLocked.
Proof.
  unfold GetState. lock_word_consts. by rewrite land_ones_mod, shiftr_div by lia.
Qed.

Ltac state_cases :=
  rewrite GetState_div;
  repeat (case_decide; [try done; exfalso; Z.div_mod_to_equations; lia |]);
  first [done | exfalso; Z.div_mod_to_equations; lia].

Section fields.
Context (owner count id hash : Z).
Context (Howner : 0 <= owner <= kThinLockMaxOwner) (Hcount : 0 <= count <= kThinLockMaxCount).
Context (Hid : 0 <= id <= kMaxMonitorId) (Hhash : 0 <= hash <= kMaxHash).

Lemma thin_word_state : owner <> 0 -> GetState (thin_word owner count) = kThinLocked.
Proof. lock_word_consts. unfold thin_word. intros. state_cases. Qed.

Lemma fat_word_state : GetState (fat_word id) = kFatLocked.
Proof. lock_word_consts. unfold fat_word. state_cases. Qed.

Lemma hash_word_state : GetState (hash_word hash) = kHashCode.
Proof. lock_word_consts. unfold hash_word. state_cases. Qed.

Lemma ThinLockOwner_ok : owner <> 0 -> ThinLockOwner (thin_word owner count) = Ok owner.
Proof.
  intros Hnz. unfold ThinLockOwner, has_state. rewrite (bool_decide_true _ (thin_word_state Hnz)).
  lock_word_consts. simpl. rewrite land_ones_mod, Z.shiftr_0_r by lia. unfold thin_word.
  f_equal. Z.div_mod_to_equations; lia.
Qed.

Lemma ThinLockCount_ok : owner <> 0 -> ThinLockCount (thin_word owner count) = Ok count.
Proof.
  intros Hnz. unfold ThinLockCount, has_state. rewrite (bool_decide_true _ (thin_word_state Hnz)).
  lock_word_consts. simpl. rewrite land_ones_mod, shiftr_div by lia. unfold thin_word.
  f_equal. Z.div_mod_to_equations; lia.
Qed.

Lemma FatLockMonitor_ok : FatLockMonitor (fat_word id) = Ok id.
Proof.
  unfold FatLockMonitor, has_state. rewrite (bool_decide_true _ fat_word_state).
  change (uint32 (Z.lnot (Z.shiftl kStateMask kStateShift))) with (Z.ones 30).
  lock_word_consts. simpl. rewrite land_ones_mod by lia. unfold fat_word.
  f_equal. Z.div_mod_to_equations; lia.
Qed.

Lemma GetHashCode_ok : GetHashCode (hash_word hash) = Ok hash.
Proof.
  unfold GetHashCode, has_state. rewrite (bool_decide_true _ hash_word_state).
  lock_word_consts. simpl. rewrite land_ones_mod, Z.shiftr_0_r by lia. unfold hash_word.
  f_equal. int_lia.
Qed.
End fields.

(** A forwarding address survives when it is a multiple of four, of 32 bits. *)
Lemma ForwardingAddress_ok target :
  0 <= target < 2 ^ 32 -> target mod 4 = 0 ->
  exists word, FromForwardingAddress target = Ok word /\ GetState word = kForwardingAddress /\
    ForwardingAddress word = Ok target.
Proof.
  intros Ht Hmod. exists (target / 4 + 3 * 2 ^ 30).
  assert (Hstate : GetState (target / 4 + 3 * 2 ^ 30) = kForwardingAddress).
  { rewrite GetState_div.
    repeat case_decide; try done; exfalso; Z.div_mod_to_equations; lia. }
  split_and!; [| done |].
  - unfold FromForwardingAddress. change (Z.shiftl 1 kStateSize - 1) with (Z.ones 2).
    rewrite land_ones_mod by lia. change (2 ^ 2) with 4. rewrite Hmod. simpl. f_equal.
    change (uint32 (Z.shiftl kStateForwardingAddress kStateShift)) with (3 * 2 ^ 30).
    change kStateSize with 2. rewrite shiftr_div by lia. change (2 ^ 2) with 4.
    rewrite lor_low_mul by (Z.div_mod_to_equations; lia).
    unfold uint32. rewrite wrapU_id by (unfold fitsU; Z.div_mod_to_equations; lia). lia.
  - unfold ForwardingAddress, has_state. rewrite (bool_decide_true _ Hstate). simpl. f_equal.
    change kStateSize with 2. rewrite shiftl_mul by lia. int_lia.
Qed.

(** A word of 32 bits is one of those that are made. *)
Lemma word_cases word :
  0 <= word < 2 ^ 32 ->
  match GetState word with
  | kUnlocked => word = Unlocked
  | kThinLocked => exists owner count, word = thin_word owner count /\
      0 <= owner <= kThinLockMaxOwner /\ 0 <= count <= kThinLockMaxCount
  | kFatLocked => exists id, word = fat_word id /\ 0 <= id <= kMaxMonitorId
  | kHashCode => exists hash, word = hash_word hash /\ 0 <= hash <= kMaxHash
  | kForwardingAddress => True
  end.
Proof.
  intros Hw. rewrite GetState_div. lock_word_consts. unfold thin_word, fat_word, hash_word.
  repeat case_decide; try done.
  - exists (word mod 65536), (word / 65536). split_and!; Z.div_mod_to_equations; lia.
  - exists (word - 2147483648). split_and!; Z.div_mod_to_equations; lia.
  - exists (word - 1073741824). split_and!; Z.div_mod_to_equations; lia.
Qed.

(** C34: Every lock word is read back as it was built: the owner and count of a thin lock,
    the monitor id of a fat lock and the identity hash code come back, and the state is
    the one that was stored. *)
Theorem lock_word_roundtrip :
  (forall owner count, 0 < owner <= kThinLockMaxOwner -> 0 <= count <= kThinLockMaxCount ->
    exists w, FromThinLockId owner count = Ok w /\ GetState w = kThinLocked /\
      ThinLockOwner w = Ok owner /\ ThinLockCount w = Ok count) /\
  (forall id, 0 <= id <= kMaxMonitorId ->
    exists w, FromMonitor id = Ok w /\ GetState w = kFatLocked /\ FatLockMonitor w = Ok id) /\
  (forall hash, 0 <= hash <= kMaxHash ->
    exists w, FromHashCode hash = Ok w /\ GetState w = kHashCode /\ GetHashCode w = Ok hash).
Proof.
  split_and!.
  - intros owner count Ho Hc. exists (thin_word owner count).
    rewrite FromThinLockId_ok, thin_word_state, ThinLockOwner_ok, ThinLockCount_ok by lia. done.
  - intros id Hid. exists (fat_word id). by rewrite FromMonitor_ok, fat_word_state, FatLockMonitor_ok.
  - intros hash Hh. exists (hash_word hash). by rewrite FromHashCode_ok, hash_word_state, GetHashCode_ok.
Qed.

Lemma lock_word_roundtrip_witness :
  exists w, FromThinLockId 5 3 = Ok w /\ GetState w = kThinLocked /\ ThinLockOwner w = Ok 5 /\ ThinLockCount w = Ok 3.
Proof. apply (proj1 lock_word_roundtrip); lock_word_consts; lia. Defined.
