(* ===== verification/Monitor.v ===== *)
(** * Monitors (runtime/monitor.{h,cc})

    Models the locks of objects: [Monitor::MonitorEnter] and [MonitorExit] with thin
    locks, their inflation to monitors while the owner is suspended, [Wait], [Notify]
    and interruption, identity hash codes (mirror/object.cc), deflation by the garbage
    collector, and what they need of threads: the state of a thread and its share of the
    mutator lock (thread-inl.h), the suspension of a thread by another
    (thread_list.cc).

    A function of the C++ is a program of atomic actions on [State]: an access to a lock
    word is an action, and so is a section of code between the acquisition and the
    release of a mutex, as far as it touches only what the mutex guards.  Mutexes and
    condition variables behave as POSIX says: waiting may end for no reason, and a
    signal wakes any of the waiting threads.  Threads are named by their thread id,
    monitors by their id.

    Left out: lock profiling ([lock_profiling_threshold_] is 0), checkpoints, and the
    birth and death of threads. *)

From S2P Require Import Prelude Concurrency LockWord.

(** ** The state *)

Inductive ThreadState : Type :=
  | kTerminated | kRunnable | kTimedWaiting | kSleeping | kBlocked | kWaiting
  | kWaitingForGcToComplete | kWaitingForCheckPointsToRun | kWaitingPerformingGc
  | kWaitingForDebuggerSend | kWaitingForDebuggerToAttach | kWaitingInMainDebuggerLoop
  | kWaitingForDebuggerSuspension | kWaitingForJniOnLoad | kWaitingForSignalCatcherOutput
  | kWaitingInMainSignalCatcherLoop | kWaitingForDeoptimization | kWaitingForMethodTracingStart
  | kStarting | kNative | kSuspended.

#[export] Instance ThreadState_eq_dec : EqDecision ThreadState.
Proof. solve_decision. Defined.

Inductive exception : Type :=
  | IllegalMonitorStateException | IllegalArgumentException | InterruptedException.

#[export] Instance exception_eq_dec : EqDecision exception.
Proof. solve_decision. Defined.

(** The fields of [Thread] that matter here.  The flag [kSuspendRequest] is set exactly
    when [suspend_count] is not 0; [wait_cond_] is true while the thread sleeps on its
    condition variable. *)
Record Thread : Type := MkThread {
  state : ThreadState;
  suspend_count : Z;
  monitor_enter_object : option Z;
  wait_mutex_ : option tid;
  wait_cond_ : bool;
  wait_monitor_ : option Z;
  interrupted_ : bool;
  wait_next : option tid;
  pending : option exception;
}.

Definition with_state v t := MkThread v (suspend_count t) (monitor_enter_object t) (wait_mutex_ t)
  (wait_cond_ t) (wait_monitor_ t) (interrupted_ t) (wait_next t) (pending t).
Definition with_suspend_count v t := MkThread (state t) v (monitor_enter_object t) (wait_mutex_ t)
  (wait_cond_ t) (wait_monitor_ t) (interrupted_ t) (wait_next t) (pending t).
Definition with_monitor_enter_object v t := MkThread (state t) (suspend_count t) v (wait_mutex_ t)
  (wait_cond_ t) (wait_monitor_ t) (interrupted_ t) (wait_next t) (pending t).
Definition with_wait_mutex v t := MkThread (state t) (suspend_count t) (monitor_enter_object t) v
  (wait_cond_ t) (wait_monitor_ t) (interrupted_ t) (wait_next t) (pending t).
Definition with_wait_cond v t := MkThread (state t) (suspend_count t) (monitor_enter_object t)
  (wait_mutex_ t) v (wait_monitor_ t) (interrupted_ t) (wait_next t) (pending t).
Definition with_wait_monitor v t := MkThread (state t) (suspend_count t) (monitor_enter_object t)
  (wait_mutex_ t) (wait_cond_ t) v (interrupted_ t) (wait_next t) (pending t).
Definition with_interrupted v t := MkThread (state t) (suspend_count t) (monitor_enter_object t)
  (wait_mutex_ t) (wait_cond_ t) (wait_monitor_ t) v (wait_next t) (pending t).
Definition with_wait_next v t := MkThread (state t) (suspend_count t) (monitor_enter_object t)
  (wait_mutex_ t) (wait_cond_ t) (wait_monitor_ t) (interrupted_ t) v (pending t).
Definition with_pending v t := MkThread (state t) (suspend_count t) (monitor_enter_object t)
  (wait_mutex_ t) (wait_cond_ t) (wait_monitor_ t) (interrupted_ t) (wait_next t) v.

(** [monitor_lock_] is the thread that holds the mutex, [monitor_contenders_] the
    threads that sleep on the condition variable. *)
Record Monitor : Type := MkMonitor {
  monitor_lock_ : option tid;
  monitor_contenders_ : list tid;
  num_waiters_ : Z;
  owner_ : option tid;
  lock_count_ : Z;
  obj_ : option Z;
  wait_set_ : option tid;
  hash_code_ : Z;
}.

Definition with_monitor_lock v m := MkMonitor v (monitor_contenders_ m) (num_waiters_ m) (owner_ m)
  (lock_count_ m) (obj_ m) (wait_set_ m) (hash_code_ m).
Definition with_monitor_contenders v m := MkMonitor (monitor_lock_ m) v (num_waiters_ m) (owner_ m)
  (lock_count_ m) (obj_ m) (wait_set_ m) (hash_code_ m).
Definition with_num_waiters v m := MkMonitor (monitor_lock_ m) (monitor_contenders_ m) v (owner_ m)
  (lock_count_ m) (obj_ m) (wait_set_ m) (hash_code_ m).
Definition with_owner v m := MkMonitor (monitor_lock_ m) (monitor_contenders_ m) (num_waiters_ m) v
  (lock_count_ m) (obj_ m) (wait_set_ m) (hash_code_ m).
Definition with_lock_count v m := MkMonitor (monitor_lock_ m) (monitor_contenders_ m)
  (num_waiters_ m) (owner_ m) v (obj_ m) (wait_set_ m) (hash_code_ m).
Definition with_obj v m := MkMonitor (monitor_lock_ m) (monitor_contenders_ m) (num_waiters_ m)
  (owner_ m) (lock_count_ m) v (wait_set_ m) (hash_code_ m).
Definition with_wait_set v m := MkMonitor (monitor_lock_ m) (monitor_contenders_ m)
  (num_waiters_ m) (owner_ m) (lock_count_ m) (obj_ m) v (hash_code_ m).
Definition with_hash_code v m := MkMonitor (monitor_lock_ m) (monitor_contenders_ m)
  (num_waiters_ m) (owner_ m) (lock_count_ m) (obj_ m) (wait_set_ m) v.

(** What a thread asks for, and how it ends. *)
Inductive op : Type :=
  | Enter (o : Z)
  | Exit (o : Z)
  | WaitOn (o ms ns : Z)
  | NotifyOne (o : Z)
  | NotifyEvery (o : Z)
  | HashOf (o : Z)
  | InterruptThread (u : tid)
  | SuspendCheck
  | DeflateAll.

Inductive result : Type :=
  | Void
  | Flag (b : bool)
  | Word (h : Z).

Inductive event : Type :=
  | Call (a : op)
  | Return (a : op) (r : result) (e : option exception).

(** The mutator lock is held exclusively by one thread or shared by the runnable ones.
    [history] is not part of the runtime: it records the calls of every thread, newest
    first. *)
Record State : Type := MkState {
  lock_words : gmap Z Z;
  monitors : gmap Z Monitor;
  threads : gmap tid Thread;
  list_ : list Z;
  allow_new_monitors_ : bool;
  mutator_exclusive : option tid;
  mutator_shared : gset tid;
  seed : Z;
  history : gmap tid (list event);
}.

Definition with_lock_words v s := MkState v (monitors s) (threads s) (list_ s)
  (allow_new_monitors_ s) (mutator_exclusive s) (mutator_shared s) (seed s) (history s).
Definition with_monitors v s := MkState (lock_words s) v (threads s) (list_ s)
  (allow_new_monitors_ s) (mutator_exclusive s) (mutator_shared s) (seed s) (history s).
Definition with_threads v s := MkState (lock_words s) (monitors s) v (list_ s)
  (allow_new_monitors_ s) (mutator_exclusive s) (mutator_shared s) (seed s) (history s).
Definition with_list v s := MkState (lock_words s) (monitors s) (threads s) v
  (allow_new_monitors_ s) (mutator_exclusive s) (mutator_shared s) (seed s) (history s).
Definition with_allow_new_monitors v s := MkState (lock_words s) (monitors s) (threads s) (list_ s)
  v (mutator_exclusive s) (mutator_shared s) (seed s) (history s).
Definition with_mutator_exclusive v s := MkState (lock_words s) (monitors s) (threads s) (list_ s)
  (allow_new_monitors_ s) v (mutator_shared s) (seed s) (history s).
Definition with_mutator_shared v s := MkState (lock_words s) (monitors s) (threads s) (list_ s)
  (allow_new_monitors_ s) (mutator_exclusive s) v (seed s) (history s).
Definition with_seed v s := MkState (lock_words s) (monitors s) (threads s) (list_ s)
  (allow_new_monitors_ s) (mutator_exclusive s) (mutator_shared s) v (history s).
Definition with_history v s := MkState (lock_words s) (monitors s) (threads s) (list_ s)
  (allow_new_monitors_ s) (mutator_exclusive s) (mutator_shared s) (seed s) v.

(** ** Accesses *)

Definition find {A} (o : option A) : res A := match o with Some a => Ok a | None => Fault BadReference end.

Definition get_word (obj : Z) : M State Z := s ← gets lock_words; lift (find (s !! obj)).
Definition set_word (obj w : Z) : M State unit :=
  _ ← get_word obj; modify (fun s => with_lock_words (<[obj := w]> (lock_words s)) s).

Definition get_monitor (m : Z) : M State Monitor := s ← gets monitors; lift (find (s !! m)).
Definition set_monitor (m : Z) (v : Monitor) : M State unit :=
  modify (fun s => with_monitors (<[m := v]> (monitors s)) s).
Definition on_monitor (m : Z) (f : Monitor -> Monitor) : M State unit :=
  v ← get_monitor m; set_monitor m (f v).

Definition get_thread (t : tid) : M State Thread := s ← gets threads; lift (find (s !! t)).
Definition set_thread (t : tid) (v : Thread) : M State unit :=
  modify (fun s => with_threads (<[t := v]> (threads s)) s).
Definition on_thread (t : tid) (f : Thread -> Thread) : M State unit :=
  v ← get_thread t; set_thread t (f v).

Definition GetLockWord (obj : Z) : prog State Z := atomic (get_word obj).
Definition SetLockWord (obj w : Z) : prog State unit := atomic (set_word obj w).

(** A weak compare-and-swap fails also when the choice is not 0. *)
Definition CasLockWordWeak (obj old new : Z) : prog State bool :=
  choosing (fun c =>
    v ← get_word obj;
    if bool_decide (v = old) && (c =? 0) then _ ← set_word obj new; mret true else mret false).

(** *** The mutex and the condition variable of a monitor *)

Definition mutex_free (m : Z) (s : State) : bool :=
  match monitors s !! m with Some v => bool_decide (monitor_lock_ v = None) | None => true end.

Definition MutexLock (self : tid) (m : Z) : prog State unit :=
  awaiting (fun _ => mutex_free m) (fun _ => on_monitor m (with_monitor_lock (Some self))).

Definition release (self : tid) (m : Z) : M State unit :=
  v ← get_monitor m;
  _ ← lift (check (bool_decide (monitor_lock_ v = Some self)));
  set_monitor m (with_monitor_lock None v).

Definition MutexUnlock (self : tid) (m : Z) : prog State unit := atomic (release self m).

(** [monitor_contenders_.Signal]: the choice picks the thread that wakes. *)
Definition signal (c : choice) (v : Monitor) : Monitor :=
  let l := monitor_contenders_ v in
  with_monitor_contenders (delete (Z.to_nat (c mod zlength l)) l) v.

(** [monitor_contenders_.Wait]. *)
Definition ContendersWait (self : tid) (m : Z) : prog State unit :=
  _ ← atomic (_ ← on_monitor m (fun v => with_monitor_contenders (self :: monitor_contenders_ v) v);
              release self m);
  _ ← awaiting
        (fun c s => match monitors s !! m with
                    | Some v => bool_decide (self ∉ monitor_contenders_ v) || negb (c =? 0)
                    | None => true
                    end)
        (fun _ => on_monitor m (fun v =>
           with_monitor_contenders (filter (fun t => t <> self) (monitor_contenders_ v)) v));
  MutexLock self m.

(** *** The mutex and the condition variable of a thread *)

Definition WaitMutexLock (self t : tid) : prog State unit :=
  awaiting (fun _ s => match threads s !! t with
                       | Some v => bool_decide (wait_mutex_ v = None)
                       | None => true
                       end)
           (fun _ => on_thread t (with_wait_mutex (Some self))).

Definition wait_release (self t : tid) : M State unit :=
  v ← get_thread t;
  _ ← lift (check (bool_decide (wait_mutex_ v = Some self)));
  set_thread t (with_wait_mutex None v).

Definition WaitMutexUnlock (self t : tid) : prog State unit := atomic (wait_release self t).

(** [GetWaitConditionVariable()->Wait] and [TimedWait]: a timeout is one of the reasons
    to wake that the choice stands for. *)
Definition WaitConditionWait (self : tid) : prog State unit :=
  _ ← atomic (_ ← on_thread self (with_wait_cond true); wait_release self self);
  _ ← awaiting
        (fun c s => match threads s !! self with
                    | Some v => negb (wait_cond_ v) || negb (c =? 0)
                    | None => true
                    end)
        (fun _ => on_thread self (with_wait_cond false));
  WaitMutexLock self self.

(** ** The state of threads (runtime/thread-inl.h, thread.cc, thread_list.cc) *)

Definition IsSuspended (t : Thread) : bool :=
  bool_decide (state t <> kRunnable) && negb (suspend_count t =? 0).

Definition SharedUnlock (self : tid) : M State unit :=
  modify (fun s => with_mutator_shared (mutator_shared s ∖ {[self]}) s).

Definition TransitionFromRunnableToSuspended (self : tid) (new_state : ThreadState) :
    prog State unit :=
  _ ← atomic (t ← get_thread self;
              _ ← lift (check (bool_decide (new_state <> kRunnable)));
              _ ← lift (check (bool_decide (state t = kRunnable)));
              set_thread self (with_state new_state t));
  atomic (SharedUnlock self).

Fixpoint TransitionFromSuspendedToRunnable (fuel : nat) (self : tid) : prog State unit :=
  match fuel with
  | O => never
  | S fuel =>
      _ ← awaiting (fun _ s => match threads s !! self with
                               | Some t => suspend_count t =? 0
                               | None => true
                               end)
                   (fun _ => t ← get_thread self; lift (check (bool_decide (state t <> kRunnable))));
      _ ← awaiting (fun _ s => bool_decide (mutator_exclusive s = None))
                   (fun _ => modify (fun s => with_mutator_shared ({[self]} ∪ mutator_shared s) s));
      done ← choosing (fun c =>
               t ← get_thread self;
               if (suspend_count t =? 0) && (c =? 0)
               then _ ← set_thread self (with_state kRunnable t); mret true
               else mret false);
      if done : bool then mret tt
      else _ ← atomic (SharedUnlock self); TransitionFromSuspendedToRunnable fuel self
  end.

(** Suspensions are never for the debugger here. *)
Definition ModifySuspendCount (t : tid) (delta : Z) : M State unit :=
  v ← get_thread t;
  if (delta <? 0) && (suspend_count v <=? 0) then lift (Fault Fatal)
  else set_thread t (with_suspend_count (suspend_count v + delta) v).

Definition FullSuspendCheck (fuel : nat) (self : tid) : prog State unit :=
  _ ← TransitionFromRunnableToSuspended self kSuspended;
  TransitionFromSuspendedToRunnable fuel self.

(** The sleeps get longer; [delay_us] and [total_delay_us] are returned. *)
Definition ThreadSuspendSleep (delay_us total_delay_us : Z) : res (Z * Z) :=
  let new_delay_us := uint32 (delay_us * 2) in
  _ ← check (delay_us <=? new_delay_us);
  let delay_us := if new_delay_us <? 500000 then new_delay_us else delay_us in
  if delay_us =? 0 then Ok (500, total_delay_us)
  else Ok (delay_us, uint32 (total_delay_us + delay_us)).

Definition kTimeoutUs : Z := 30 * 1000000.

(** What one turn of the loop of [SuspendThreadByThreadId] comes to, while it holds the
    thread list and suspend count locks; [requested] tells that [suspended_thread] is
    set. *)
Inductive attempt : Type := Again | NoSuchThread | NowSuspended | TimedOut | NotYet.

Definition try_suspend (self thread_id : tid) (requested : bool) (total_delay_us : Z) :
    M State attempt :=
  ts ← gets threads;
  match ts !! thread_id with
  | None => _ ← lift (check (negb requested)); mret NoSuchThread
  | Some thread =>
      me ← get_thread self;
      if negb requested && (0 <? suspend_count me) then mret Again
      else
        _ ← (if requested then lift (check (0 <? suspend_count thread))
             else ModifySuspendCount thread_id 1);
        _ ← lift (check (bool_decide (thread_id <> self)));
        thread ← get_thread thread_id;
        if IsSuspended thread then mret NowSuspended
        else if kTimeoutUs <=? total_delay_us
        then _ ← ModifySuspendCount thread_id (-1); mret TimedOut
        else mret NotYet
  end.

Fixpoint SuspendThread_loop (fuel : nat) (self thread_id : tid) (requested : bool)
    (delay_us total_delay_us : Z) : prog State bool :=
  match fuel with
  | O => never
  | S fuel =>
      _ ← TransitionFromSuspendedToRunnable fuel self;
      r ← atomic (try_suspend self thread_id requested total_delay_us);
      _ ← TransitionFromRunnableToSuspended self kBlocked;
      match r with
      | Again => SuspendThread_loop fuel self thread_id requested delay_us total_delay_us
      | NoSuchThread | TimedOut => mret false
      | NowSuspended => mret true
      | NotYet =>
          d ← local (ThreadSuspendSleep delay_us total_delay_us);
          SuspendThread_loop fuel self thread_id true d.1 d.2
      end
  end.

(** Called in state [kBlocked]; the result tells whether the thread was suspended. *)
Definition SuspendThreadByThreadId (fuel : nat) (self thread_id : tid) : prog State bool :=
  _ ← local (check (bool_decide (thread_id <> 0)));
  SuspendThread_loop fuel self thread_id false 0 0.

Definition Resume (self thread : tid) : prog State unit :=
  atomic (_ ← lift (check (bool_decide (thread <> self)));
          v ← get_thread thread;
          _ ← lift (check (IsSuspended v));
          ModifySuspendCount thread (-1)).

(** Suspends all threads but [self], one by one. *)
Definition modify_others (self : tid) (delta : Z) : M State unit :=
  ts ← gets threads;
  foldr (fun t k => _ ← (if bool_decide (t = self) then mret tt else ModifySuspendCount t delta); k)
        (mret tt) (elements (dom ts)).

Definition SuspendAll (self : tid) : prog State unit :=
  _ ← atomic (t ← get_thread self;
              _ ← lift (check (bool_decide (state t <> kRunnable)));
              modify_others self 1);
  awaiting (fun _ s => bool_decide (mutator_exclusive s = None /\ mutator_shared s = ∅))
           (fun _ => modify (with_mutator_exclusive (Some self))).

Definition ResumeAll (self : tid) : prog State unit :=
  _ ← atomic (e ← gets mutator_exclusive;
              _ ← lift (check (bool_decide (e = Some self)));
              modify (with_mutator_exclusive None));
  atomic (modify_others self (-1)).

(** ** Monitors *)

Definition throw (self : tid) (e : exception) : M State unit := on_thread self (with_pending (Some e)).

(** [FailedUnlock] chooses a message; its effect is the exception. *)
Definition FailedUnlock (self : tid) : M State unit := throw self IllegalMonitorStateException.

(** [MonitorPool::CreateMonitor] with the constructor of [Monitor]: the choice is the id,
    which no other monitor has. *)
Definition CreateMonitor (self : tid) (owner : option tid) (obj hash_code : Z) : prog State Z :=
  awaiting
    (fun c s => bool_decide (0 <= c <= kMaxMonitorId /\ monitors s !! c = None))
    (fun c =>
       _ ← match owner with
           | Some t => if bool_decide (t = self) then mret tt
                       else v ← get_thread t; lift (check (IsSuspended v))
           | None => mret tt
           end;
       _ ← set_monitor c (MkMonitor None [] 0 owner 0 (Some obj) None hash_code);
       mret c).

(** [MonitorPool::ReleaseMonitor]; the destructor of the mutex insists that it is free. *)
Definition release_monitor (m : Z) : M State unit :=
  v ← get_monitor m;
  _ ← lift (check (bool_decide (monitor_lock_ v = None)));
  modify (fun s => with_monitors (delete m (monitors s)) s).

Definition MonitorList_Add (m : Z) : prog State unit :=
  awaiting (fun _ => allow_new_monitors_) (fun _ => modify (fun s => with_list (m :: list_ s) s)).

Definition HasHashCode (v : Monitor) : bool := negb (hash_code_ v =? 0).

(** The part of [Install] before the compare-and-swap: the lock word it expects, or none
    when another monitor is installed. *)
Definition propagate (self : tid) (m : Z) : M State (option (Z * Z)) :=
  v ← get_monitor m;
  _ ← match owner_ v with
      | Some t => if bool_decide (t = self) then mret tt
                  else w ← get_thread t; lift (check (IsSuspended w))
      | None => mret tt
      end;
  obj ← lift (find (obj_ v));
  lw ← get_word obj;
  match GetState lw with
  | kThinLocked =>
      owner ← lift (ThinLockOwner lw);
      _ ← lift (check (bool_decide (owner_ v = Some owner)));
      count ← lift (ThinLockCount lw);
      _ ← set_monitor m (with_lock_count count v);
      mret (Some (obj, lw))
  | kHashCode =>
      hash ← lift (LockWord.GetHashCode lw);
      _ ← lift (check (hash_code_ v =? hash));
      mret (Some (obj, lw))
  | kFatLocked => mret None
  | kUnlocked | kForwardingAddress => lift (Fault Fatal)
  end.

Definition Install (self : tid) (m : Z) : prog State bool :=
  _ ← MutexLock self m;
  expected ← atomic (propagate self m);
  match expected with
  | None => _ ← MutexUnlock self m; mret false
  | Some (obj, lw) =>
      fat ← local (FromMonitor m);
      success ← CasLockWordWeak obj lw fat;
      _ ← MutexUnlock self m;
      mret success
  end.

Definition Inflate (self : tid) (owner : option tid) (obj hash_code : Z) : prog State unit :=
  m ← CreateMonitor self owner obj hash_code;
  success ← Install self m;
  if success : bool then
    _ ← MonitorList_Add m;
    lw ← GetLockWord obj;
    local (check (has_state lw kFatLocked))
  else atomic (release_monitor m).

Definition InflateThinLocked (fuel : nat) (self : tid) (obj lock_word hash_code : Z) :
    prog State unit :=
  owner_thread_id ← local (ThinLockOwner lock_word);
  if bool_decide (owner_thread_id = self) then Inflate self (Some self) obj hash_code
  else
    _ ← atomic (on_thread self (with_monitor_enter_object (Some obj)));
    _ ← TransitionFromRunnableToSuspended self kBlocked;
    owner ← SuspendThreadByThreadId fuel self owner_thread_id;
    _ ← TransitionFromSuspendedToRunnable fuel self;
    _ ← (if owner : bool then
           lock_word ← GetLockWord obj;
           owner' ← local (if has_state lock_word kThinLocked then Some <$> ThinLockOwner lock_word
                           else Ok None);
           _ ← (if bool_decide (owner' = Some owner_thread_id)
                then Inflate self (Some owner_thread_id) obj hash_code else mret tt);
           Resume self owner_thread_id
         else mret tt);
    atomic (on_thread self (with_monitor_enter_object None)).

(** *** Lock and unlock *)

(** [lock_count_++], which is undefined when it overflows. *)
Definition increment_lock_count (v : Monitor) : res Monitor :=
  _ ← check (lock_count_ v <? 2 ^ 31 - 1);
  Ok (with_lock_count (lock_count_ v + 1) v).

(** The body of the loop of [Lock] up to the first release of the mutex; tells whether
    the monitor is entered. *)
Definition try_lock (self : tid) (m : Z) : M State bool :=
  v ← get_monitor m;
  match owner_ v with
  | None =>
      _ ← lift (check (lock_count_ v =? 0));
      _ ← set_monitor m (with_owner (Some self) v);
      mret true
  | Some owner =>
      if bool_decide (owner = self)
      then w ← lift (increment_lock_count v); _ ← set_monitor m w; mret true
      else _ ← set_monitor m (with_num_waiters (num_waiters_ v + 1) v); mret false
  end.

Fixpoint Lock_loop (fuel : nat) (self : tid) (m : Z) : prog State unit :=
  match fuel with
  | O => never
  | S fuel =>
      entered ← atomic (try_lock self m);
      if entered : bool then MutexUnlock self m
      else
        _ ← MutexUnlock self m;
        _ ← atomic (v ← get_monitor m; on_thread self (with_monitor_enter_object (obj_ v)));
        _ ← TransitionFromRunnableToSuspended self kBlocked;
        _ ← MutexLock self m;
        owner ← atomic (v ← get_monitor m; mret (owner_ v));
        _ ← (if bool_decide (owner = None) then mret tt else ContendersWait self m);
        _ ← MutexUnlock self m;
        _ ← TransitionFromSuspendedToRunnable fuel self;
        _ ← atomic (on_thread self (with_monitor_enter_object None));
        _ ← MutexLock self m;
        _ ← atomic (on_monitor m (fun v => with_num_waiters (num_waiters_ v - 1) v));
        Lock_loop fuel self m
  end.

Definition Lock (fuel : nat) (self : tid) (m : Z) : prog State unit :=
  _ ← MutexLock self m; Lock_loop fuel self m.

Definition Unlock (self : tid) (m : Z) : prog State bool :=
  _ ← MutexLock self m;
  r ← choosing (fun c =>
        v ← get_monitor m;
        if bool_decide (owner_ v = Some self) then
          _ ← set_monitor m (if lock_count_ v =? 0 then signal c (with_owner None v)
                             else with_lock_count (lock_count_ v - 1) v);
          mret true
        else _ ← FailedUnlock self; mret false);
  _ ← MutexUnlock self m;
  mret r.

(** *** The wait set: a list of threads linked by [wait_next] *)

(** The loop of [AppendToWaitSet], from the thread [t] of the list on. *)
Fixpoint append_after (fuel : nat) (t thread : tid) : M State unit :=
  match fuel with
  | O => lift (Fault OutOfFuel)
  | S fuel =>
      v ← get_thread t;
      match wait_next v with
      | Some t' => append_after fuel t' thread
      | None => set_thread t (with_wait_next (Some thread) v)
      end
  end.

Definition AppendToWaitSet (self : tid) (m : Z) (thread : tid) : M State unit :=
  v ← get_monitor m;
  _ ← lift (check (bool_decide (owner_ v = Some self)));
  w ← get_thread thread;
  _ ← lift (check (bool_decide (wait_next w = None)));
  match wait_set_ v with
  | None => set_monitor m (with_wait_set (Some thread) v)
  | Some t => ts ← gets threads; append_after (size ts) t thread
  end.

(** The loop of [RemoveFromWaitSet]. *)
Fixpoint remove_after (fuel : nat) (t thread : tid) : M State unit :=
  match fuel with
  | O => lift (Fault OutOfFuel)
  | S fuel =>
      v ← get_thread t;
      match wait_next v with
      | None => mret tt
      | Some t' =>
          if bool_decide (t' = thread)
          then w ← get_thread thread;
               _ ← set_thread t (with_wait_next (wait_next w) v);
               on_thread thread (with_wait_next None)
          else remove_after fuel t' thread
      end
  end.

Definition RemoveFromWaitSet (self : tid) (m : Z) (thread : tid) : M State unit :=
  v ← get_monitor m;
  _ ← lift (check (bool_decide (owner_ v = Some self)));
  match wait_set_ v with
  | None => mret tt
  | Some t =>
      if bool_decide (t = thread)
      then w ← get_thread thread;
           _ ← set_monitor m (with_wait_set (wait_next w) v);
           set_thread thread (with_wait_next None w)
      else ts ← gets threads; remove_after (size ts) t thread
  end.

(** *** Wait and notify *)

(** The wait proper, with the mutex of the monitor held and the arguments checked. *)
Definition start_wait (self : tid) (m : Z) : M State Z :=
  _ ← AppendToWaitSet self m self;
  v ← get_monitor m;
  _ ← set_monitor m (with_owner None (with_lock_count 0 (with_num_waiters (num_waiters_ v + 1) v)));
  mret (lock_count_ v).

Definition end_wait (self : tid) (m prev_lock_count : Z) : M State unit :=
  _ ← on_monitor m (fun v => with_num_waiters (num_waiters_ v - 1)
                               (with_lock_count prev_lock_count (with_owner (Some self) v)));
  RemoveFromWaitSet self m self.

(** From the release of the monitor to the end of the wait; tells whether the thread was
    interrupted. *)
Definition sleep_on (fuel : nat) (self : tid) (m : Z) : prog State bool :=
  _ ← WaitMutexLock self self;
  _ ← atomic (t ← get_thread self;
              _ ← lift (check (bool_decide (wait_monitor_ t = None)));
              set_thread self (with_wait_monitor (Some m) t));
  _ ← choosing (fun c => _ ← on_monitor m (signal c); release self m);
  interrupted ← atomic (t ← get_thread self; mret (interrupted_ t));
  was_interrupted ← (if interrupted : bool then mret true
                     else
                       _ ← WaitConditionWait self;
                       atomic (t ← get_thread self;
                               _ ← set_thread self (with_interrupted false t);
                               mret (interrupted_ t)));
  _ ← WaitMutexUnlock self self;
  _ ← TransitionFromSuspendedToRunnable fuel self;
  _ ← WaitMutexLock self self;
  _ ← atomic (t ← get_thread self;
              _ ← lift (check (bool_decide (wait_monitor_ t <> None)));
              set_thread self (with_wait_monitor None t));
  _ ← WaitMutexUnlock self self;
  mret was_interrupted.

(** [Monitor::Wait] on a monitor. *)
Definition Monitor_Wait (fuel : nat) (self : tid) (m ms ns : Z) (interruptShouldThrow : bool)
    (why : ThreadState) : prog State unit :=
  _ ← local (check (bool_decide (why = kTimedWaiting \/ why = kWaiting \/ why = kSleeping)));
  _ ← MutexLock self m;
  owned ← atomic (v ← get_monitor m; mret (bool_decide (owner_ v = Some self)));
  if negb owned then
    _ ← MutexUnlock self m;
    atomic (throw self IllegalMonitorStateException)
  else
  let why := if bool_decide (why = kTimedWaiting) && ((ms =? 0) && (ns =? 0)) then kWaiting else why in
  if (ms <? 0) || (ns <? 0) || (999999 <? ns) then
    _ ← MutexUnlock self m;
    atomic (throw self IllegalArgumentException)
  else
    prev_lock_count ← atomic (start_wait self m);
    _ ← TransitionFromRunnableToSuspended self why;
    was_interrupted ← sleep_on fuel self m;
    _ ← Lock fuel self m;
    _ ← MutexLock self m;
    _ ← atomic (end_wait self m prev_lock_count);
    _ ← MutexUnlock self m;
    if was_interrupted : bool then
      _ ← WaitMutexLock self self;
      _ ← atomic (on_thread self (with_interrupted false));
      _ ← WaitMutexUnlock self self;
      if interruptShouldThrow : bool then atomic (throw self InterruptedException) else mret tt
    else mret tt.

(** Takes the first thread off the wait set. *)
Definition pop_waiter (m : Z) : M State (option tid) :=
  v ← get_monitor m;
  match wait_set_ v with
  | None => mret None
  | Some t =>
      w ← get_thread t;
      _ ← set_monitor m (with_wait_set (wait_next w) v);
      _ ← set_thread t (with_wait_next None w);
      mret (Some t)
  end.

(** [Thread::NotifyLocked], and whether it signalled. *)
Definition NotifyLocked (thread : tid) : M State bool :=
  w ← get_thread thread;
  if bool_decide (wait_monitor_ w = None) then mret false
  else _ ← set_thread thread (with_wait_cond false w); mret true.

(** [Thread::Notify]. *)
Definition Thread_Notify (self thread : tid) : prog State bool :=
  _ ← WaitMutexLock self thread;
  signalled ← atomic (NotifyLocked thread);
  _ ← WaitMutexUnlock self thread;
  mret signalled.

Definition Interrupt (self thread : tid) : prog State unit :=
  _ ← WaitMutexLock self thread;
  _ ← atomic (w ← get_thread thread;
              if interrupted_ w then mret tt
              else _ ← set_thread thread (with_interrupted true w);
                   _ ← NotifyLocked thread; mret tt);
  WaitMutexUnlock self thread.

(** The loops of [Notify] and [NotifyAll], which differ in that the first stops at a
    thread that is still waiting. *)
Fixpoint notify_loop (fuel : nat) (self : tid) (m : Z) (notify_all : bool) : prog State unit :=
  match fuel with
  | O => never
  | S fuel =>
      next ← atomic (pop_waiter m);
      match next with
      | None => mret tt
      | Some thread =>
          signalled ← Thread_Notify self thread;
          if negb notify_all && signalled then mret tt else notify_loop fuel self m notify_all
      end
  end.

(** [Monitor::Notify] and [Monitor::NotifyAll] on a monitor. *)
Definition Monitor_Notify (fuel : nat) (self : tid) (m : Z) (notify_all : bool) : prog State unit :=
  _ ← MutexLock self m;
  owned ← atomic (v ← get_monitor m;
                  if bool_decide (owner_ v = Some self) then mret true
                  else _ ← throw self IllegalMonitorStateException; mret false);
  _ ← (if owned : bool then notify_loop fuel self m notify_all else mret tt);
  MutexUnlock self m.

(** ** Locks of objects *)

(** Sleeping and yielding have no effect; [max_spins] is
    [GetMaxSpinsBeforeThinkLockInflation]. *)
Definition kDefaultMaxSpinsBeforeThinLockInflation : Z := 50.

Fixpoint MonitorEnter_loop (fuel : nat) (self : tid) (obj contention_count : Z) : prog State unit :=
  match fuel with
  | O => never
  | S fuel =>
      lock_word ← GetLockWord obj;
      match GetState lock_word with
      | kUnlocked =>
          thin_locked ← local (FromThinLockId self 0);
          success ← CasLockWordWeak obj lock_word thin_locked;
          if success : bool then mret tt else MonitorEnter_loop fuel self obj contention_count
      | kThinLocked =>
          owner_thread_id ← local (ThinLockOwner lock_word);
          if bool_decide (owner_thread_id = self) then
            count ← local (ThinLockCount lock_word);
            let new_count := uint32 (count + 1) in
            if new_count <=? kThinLockMaxCount then
              thin_locked ← local (FromThinLockId self new_count);
              SetLockWord obj thin_locked
            else
              _ ← InflateThinLocked fuel self obj lock_word 0;
              MonitorEnter_loop fuel self obj contention_count
          else
            let contention_count := contention_count + 1 in
            if contention_count <=? kDefaultMaxSpinsBeforeThinLockInflation
            then MonitorEnter_loop fuel self obj contention_count
            else
              _ ← InflateThinLocked fuel self obj lock_word 0;
              MonitorEnter_loop fuel self obj 0
      | kFatLocked =>
          mon ← local (FatLockMonitor lock_word);
          Lock fuel self mon
      | kHashCode =>
          hash ← local (LockWord.GetHashCode lock_word);
          _ ← Inflate self None obj hash;
          MonitorEnter_loop fuel self obj contention_count
      | kForwardingAddress => local (Fault Fatal)
      end
  end.

Definition MonitorEnter (fuel : nat) (self : tid) (obj : Z) : prog State unit :=
  MonitorEnter_loop fuel self obj 0.

(** The thread found must be suspended, or the current one. *)
Definition FindThreadByThreadId (self thin_lock_id : tid) : M State unit :=
  ts ← gets threads;
  match ts !! thin_lock_id with
  | Some t => lift (check (bool_decide (thin_lock_id = self) || IsSuspended t))
  | None => mret tt
  end.

Definition MonitorExit (self : tid) (obj : Z) : prog State bool :=
  lock_word ← GetLockWord obj;
  match GetState lock_word with
  | kHashCode | kUnlocked => _ ← atomic (FailedUnlock self); mret false
  | kThinLocked =>
      owner_thread_id ← local (ThinLockOwner lock_word);
      if bool_decide (owner_thread_id <> self) then
        _ ← atomic (FindThreadByThreadId self owner_thread_id);
        _ ← atomic (FailedUnlock self);
        mret false
      else
        count ← local (ThinLockCount lock_word);
        _ ← (if negb (count =? 0) then
               thin_locked ← local (FromThinLockId self (count - 1));
               SetLockWord obj thin_locked
             else SetLockWord obj Unlocked);
        mret true
  | kFatLocked => mon ← local (FatLockMonitor lock_word); Unlock self mon
  | kForwardingAddress => local (Fault Fatal)
  end.

(** [Monitor::Wait] on an object. *)
Fixpoint Wait (fuel : nat) (self : tid) (obj ms ns : Z) (interruptShouldThrow : bool)
    (why : ThreadState) : prog State unit :=
  match fuel with
  | O => never
  | S fuel =>
      lock_word ← GetLockWord obj;
      match GetState lock_word with
      | kFatLocked =>
          mon ← local (FatLockMonitor lock_word);
          Monitor_Wait fuel self mon ms ns interruptShouldThrow why
      | kHashCode | kUnlocked => atomic (throw self IllegalMonitorStateException)
      | kThinLocked =>
          owner_thread_id ← local (ThinLockOwner lock_word);
          if bool_decide (owner_thread_id <> self)
          then atomic (throw self IllegalMonitorStateException)
          else
            _ ← Inflate self (Some self) obj 0;
            Wait fuel self obj ms ns interruptShouldThrow why
      | kForwardingAddress => local (Fault Fatal)
      end
  end.

Definition DoNotify (fuel : nat) (self : tid) (obj : Z) (notify_all : bool) : prog State unit :=
  lock_word ← GetLockWord obj;
  match GetState lock_word with
  | kHashCode | kUnlocked => atomic (throw self IllegalMonitorStateException)
  | kThinLocked =>
      owner_thread_id ← local (ThinLockOwner lock_word);
      if bool_decide (owner_thread_id <> self)
      then atomic (throw self IllegalMonitorStateException)
      else mret tt
  | kFatLocked =>
      mon ← local (FatLockMonitor lock_word);
      Monitor_Notify fuel self mon notify_all
  | kForwardingAddress => local (Fault Fatal)
  end.

(** ** Identity hash codes (runtime/mirror/object.cc) *)

Fixpoint GenerateIdentityHashCode (fuel : nat) : prog State Z :=
  match fuel with
  | O => never
  | S fuel =>
      expected_value ← atomic (gets seed);
      let new_value := uint32 (expected_value * 1103515245 + 12345) in
      if Z.land expected_value kHashMask =? 0 then GenerateIdentityHashCode fuel
      else
        success ← choosing (fun c =>
                    v ← gets seed;
                    if bool_decide (v = expected_value) && (c =? 0)
                    then _ ← modify (with_seed new_value); mret true else mret false);
        if success : bool then mret (Z.land expected_value kHashMask)
        else GenerateIdentityHashCode fuel
  end.

(** [Monitor::GetHashCode]. *)
Fixpoint Monitor_GetHashCode_loop (fuel : nat) (m : Z) : prog State unit :=
  match fuel with
  | O => never
  | S fuel =>
      has ← atomic (v ← get_monitor m; mret (HasHashCode v));
      if has : bool then mret tt
      else
        hash ← GenerateIdentityHashCode fuel;
        success ← choosing (fun c =>
                    v ← get_monitor m;
                    if (hash_code_ v =? 0) && (c =? 0)
                    then _ ← set_monitor m (with_hash_code hash v); mret true else mret false);
        if success : bool then mret tt else Monitor_GetHashCode_loop fuel m
  end.

Definition Monitor_GetHashCode (fuel : nat) (m : Z) : prog State Z :=
  _ ← Monitor_GetHashCode_loop fuel m;
  atomic (v ← get_monitor m; _ ← lift (check (HasHashCode v)); mret (hash_code_ v)).

Fixpoint IdentityHashCode (fuel : nat) (self : tid) (obj : Z) : prog State Z :=
  match fuel with
  | O => never
  | S fuel =>
      lw ← GetLockWord obj;
      match GetState lw with
      | kUnlocked =>
          hash ← GenerateIdentityHashCode fuel;
          hash_word ← local (FromHashCode hash);
          _ ← local (check (has_state hash_word kHashCode));
          success ← CasLockWordWeak obj lw hash_word;
          if success : bool then local (LockWord.GetHashCode hash_word)
          else IdentityHashCode fuel self obj
      | kThinLocked =>
          hash ← GenerateIdentityHashCode fuel;
          _ ← InflateThinLocked fuel self obj lw hash;
          IdentityHashCode fuel self obj
      | kFatLocked =>
          mon ← local (FatLockMonitor lw);
          Monitor_GetHashCode fuel mon
      | kHashCode => local (LockWord.GetHashCode lw)
      | kForwardingAddress => local (Fault Fatal)
      end
  end.

(** ** Deflation *)

(** The part of [Deflate] that holds the mutex of the monitor; tells whether the monitor
    is deflated. *)
Definition deflate (obj m : Z) : M State bool :=
  v ← get_monitor m;
  if 0 <? num_waiters_ v then mret false
  else
    word ← match owner_ v with
           | Some owner =>
               if HasHashCode v then mret None
               else if kThinLockMaxCount <? lock_count_ v then mret None
               else w ← lift (FromThinLockId owner (lock_count_ v)); mret (Some w)
           | None =>
               if HasHashCode v then w ← lift (FromHashCode (hash_code_ v)); mret (Some w)
               else mret (Some Unlocked)
           end;
    match word with
    | None => mret false
    | Some w => _ ← set_word obj w; _ ← set_monitor m (with_obj None v); mret true
    end.

Definition Deflate (self : tid) (obj : Z) : prog State bool :=
  lw ← GetLockWord obj;
  if has_state lw kFatLocked then
    m ← local (FatLockMonitor lw);
    _ ← MutexLock self m;
    r ← atomic (deflate obj m);
    _ ← MutexUnlock self m;
    mret r
  else mret true.

(** The object that replaces the one of a monitor, if there is one. *)
Definition MonitorDeflateCallback (self : tid) (object : Z) : prog State (option Z) :=
  deflated ← Deflate self object;
  if deflated : bool then
    lw ← GetLockWord object;
    _ ← local (check (negb (has_state lw kFatLocked)));
    mret None
  else mret (Some object).

(** [SweepMonitorList], which holds the lock of the list, on what is left of it. *)
Fixpoint SweepMonitorList (callback : Z -> prog State (option Z)) (l : list Z) : prog State unit :=
  match l with
  | [] => mret tt
  | m :: rest =>
      obj ← atomic (v ← get_monitor m; mret (obj_ v));
      new_obj ← match obj with Some o => callback o | None => mret None end;
      _ ← atomic (match new_obj with
                  | None => _ ← release_monitor m;
                            modify (fun s => with_list (filter (fun x => x <> m) (list_ s)) s)
                  | Some o => on_monitor m (with_obj (Some o))
                  end);
      SweepMonitorList callback rest
  end.

Definition DeflateMonitors (self : tid) : prog State unit :=
  l ← atomic (e ← gets mutator_exclusive;
              _ ← lift (check (bool_decide (e = Some self)));
              gets list_);
  SweepMonitorList (MonitorDeflateCallback self) l.

(** The deflation in [Heap::DoPendingTransitionOrTrim] (gc/heap.cc), called from native
    code. *)
Definition DeflateInBackground (fuel : nat) (self : tid) : prog State unit :=
  _ ← TransitionFromRunnableToSuspended self kNative;
  _ ← SuspendAll self;
  _ ← DeflateMonitors self;
  _ ← ResumeAll self;
  TransitionFromSuspendedToRunnable fuel self.

(** ** Threads that use locks *)

Definition perform (fuel : nat) (self : tid) (a : op) : prog State result :=
  match a with
  | Enter o => _ ← MonitorEnter fuel self o; mret Void
  | Exit o => b ← MonitorExit self o; mret (Flag b)
  | WaitOn o ms ns => _ ← Wait fuel self o ms ns true kTimedWaiting; mret Void
  | NotifyOne o => _ ← DoNotify fuel self o false; mret Void
  | NotifyEvery o => _ ← DoNotify fuel self o true; mret Void
  | HashOf o => h ← IdentityHashCode fuel self o; mret (Word h)
  | InterruptThread u => _ ← Interrupt self u; mret Void
  | SuspendCheck => _ ← FullSuspendCheck fuel self; mret Void
  | DeflateAll => _ ← DeflateInBackground fuel self; mret Void
  end.

Definition record_event (self : tid) (e : event) : M State unit :=
  modify (fun s => with_history (<[self := e :: default [] (history s !! self)]> (history s)) s).

(** A thread performs operations one after the other and catches what they throw. *)
Fixpoint thread_program (fuel : nat) (self : tid) (ops : list op) : prog State unit :=
  match ops with
  | [] => mret tt
  | a :: rest =>
      _ ← atomic (record_event self (Call a));
      r ← perform fuel self a;
      _ ← atomic (t ← get_thread self;
                  _ ← set_thread self (with_pending None t);
                  record_event self (Return a r (pending t)));
      thread_program fuel self rest
  end.

(** The number of times a thread with this history has entered and not left [o]. *)
Fixpoint depth (h : list event) (o : Z) : Z :=
  match h with
  | [] => 0
  | Return (Enter o') _ _ :: h => depth h o + (if bool_decide (o' = o) then 1 else 0)
  | Return (Exit o') (Flag true) _ :: h => depth h o - (if bool_decide (o' = o) then 1 else 0)
  | _ :: h => depth h o
  end.

(** The number of times the thread can rely on holding [o] now: not inside a call of
    [wait], and once less inside a call that leaves. *)
Definition held (h : list event) (o : Z) : Z :=
  match h with
  | Call (Exit o') :: h => depth h o - (if bool_decide (o' = o) then 1 else 0)
  | Call (WaitOn o' _ _) :: h => if bool_decide (o' = o) then 0 else depth h o
  | _ => depth h o
  end.

(** All threads are about to start, no object is locked. *)
Definition initial (fuel : nat) (objects : list Z) (seed : Z) (programs : gmap tid (list op)) :
    config State :=
  Config
    (MkState (list_to_map ((fun o => (o, Unlocked)) <$> objects)) ∅
       ((fun _ => MkThread kRunnable 0 None None false None false None None) <$> programs)
       [] true None (dom programs) seed ∅)
    (map_imap (fun t ops => Some (thread_program fuel t ops)) programs).
