(* ===== verification/MonitorInvariant.v ===== *)
(** * What holds of monitors at all times

    The invariant of the state of Monitor, with the ghost state it needs: who asked for
    the suspension of a thread, which threads count as waiters of a monitor, the
    contents of the wait sets, and which thread is still installing a monitor.  [knows]
    is what a thread knows about itself and [rely] what it may expect of the others.

    The central notion is [count]: how often a thread holds an object, whether the lock
    is thin or fat.  No thread changes the count of another, although it may change the
    representation of the lock under it. *)

From stdpp Require Import functions.
From S2P Require Import Prelude Concurrency LockWord Monitor.

(** ** Reading a lock word *)

Inductive view : Type :=
  | VUnlocked
  | VThin (owner : tid) (count : Z)
  | VFat (m : Z)
  | VHash (h : Z)
  | VMoved.

#[export] Instance view_eq_dec : EqDecision view.
Proof. solve_decision. Defined.

Definition view_of (w : Z) : view :=
  match GetState w with
  | kUnlocked => VUnlocked
  | kThinLocked => VThin (w mod 65536) (w / 65536)
  | kFatLocked => VFat (w - 1073741824)
  | kHashCode => VHash (w - 2147483648)
  | kForwardingAddress => VMoved
  end.

Lemma view_thin t c :
  0 < t <= kThinLockMaxOwner -> 0 <= c <= kThinLockMaxCount -> view_of (thin_word t c) = VThin t c.
Proof.
  intros Ht Hc. unfold view_of. rewrite thin_word_state by lia. unfold thin_word.
  lock_word_consts. f_equal; Z.div_mod_to_equations; lia.
Qed.

Lemma view_fat m : 0 <= m <= kMaxMonitorId -> view_of (fat_word m) = VFat m.
Proof. intros Hm. unfold view_of. rewrite fat_word_state by done. unfold fat_word. f_equal; lia. Qed.

Lemma view_hash h : 0 <= h <= kMaxHash -> view_of (hash_word h) = VHash h.
Proof. intros Hh. unfold view_of. rewrite hash_word_state by done. unfold hash_word. f_equal; lia. Qed.

Lemma view_unlocked : view_of Unlocked = VUnlocked.
Proof. done. Qed.

(** How often thread [t] holds a lock in this state. *)
Definition monitor_count (t : tid) (v : Monitor) : Z :=
  if bool_decide (owner_ v = Some t) then lock_count_ v + 1 else 0.

Definition view_count (s : State) (t : tid) (w : view) : Z :=
  match w with
  | VThin u c => if bool_decide (u = t) then c + 1 else 0
  | VFat m => from_option (monitor_count t) 0 (monitors s !! m)
  | _ => 0
  end.

Definition count (s : State) (t : tid) (o : Z) : Z :=
  from_option (fun w => view_count s t (view_of w)) 0 (lock_words s !! o).

(** The hash code of an object, 0 when it has none yet. *)
Definition view_hash_code (s : State) (w : view) : Z :=
  match w with
  | VHash h => h
  | VFat m => from_option hash_code_ 0 (monitors s !! m)
  | _ => 0
  end.

Definition hash_of (s : State) (o : Z) : Z :=
  from_option (fun w => view_hash_code s (view_of w)) 0 (lock_words s !! o).

(** The lock word of [o], read. *)
Definition lock_view (s : State) (o : Z) : option view := view_of <$> lock_words s !! o.

Definition installed (s : State) (o m : Z) : Prop := lock_view s o = Some (VFat m).

#[export] Instance installed_dec s o m : Decision (installed s o m).
Proof. unfold installed. apply _. Defined.

Definition runnable (s : State) (t : tid) : Prop := exists th, threads s !! t = Some th /\ state th = kRunnable.

(** ** Ghost state *)

Record ghost : Type := MkGhost {
  suspenders : tid -> gset tid;
  waiters : Z -> gset (tid * bool);
  chain : Z -> list tid;
  fresh : Z -> option tid;
}.

Definition events (s : State) (t : tid) : list event := default [] (history s !! t).

(** What an operation may return, given what happened before it. *)
Definition result_ok (h : list event) (a : op) (r : result) (e : option exception) : Prop :=
  match a with
  | Enter o => r = Void /\ e = None
  | Exit o =>
      r = Flag (0 <? depth h o) /\
      e = (if 0 <? depth h o then None else Some IllegalMonitorStateException)
  | WaitOn o ms ns =>
      r = Void /\
      if 0 <? depth h o then
        if (ms <? 0) || (ns <? 0) || (999999 <? ns) then e = Some IllegalArgumentException
        else e = None \/ e = Some InterruptedException
      else e = Some IllegalMonitorStateException
  | NotifyOne o | NotifyEvery o =>
      r = Void /\ e = (if 0 <? depth h o then None else Some IllegalMonitorStateException)
  | HashOf o => (exists h, r = Word h) /\ e = None
  | InterruptThread _ | SuspendCheck | DeflateAll => r = Void /\ e = None
  end.

(** Calls and returns alternate, and every return is in order. *)
Fixpoint results_ok (h : list event) : Prop :=
  match h with
  | [] => True
  | Call a :: h => results_ok h
  | Return a r e :: (Call a' :: h') as h => a' = a /\ result_ok h' a r e /\ results_ok h
  | Return _ _ _ :: _ => False
  end.

Inductive word_ok (s : State) (o : Z) : Z -> Prop :=
  | ok_unlocked : word_ok s o Unlocked
  | ok_thin t c :
      is_Some (threads s !! t) -> 0 <= c <= kThinLockMaxCount -> word_ok s o (thin_word t c)
  | ok_fat m v :
      0 <= m <= kMaxMonitorId -> monitors s !! m = Some v -> obj_ v = Some o ->
      word_ok s o (fat_word m)
  | ok_hash h : 0 < h <= kMaxHash -> word_ok s o (hash_word h).

Record monitor_ok (s : State) (m : Z) (v : Monitor) : Prop := {
  mon_id : 0 <= m <= kMaxMonitorId;
  mon_count : 0 <= lock_count_ v;
  mon_unowned : owner_ v = None -> lock_count_ v = 0;
  mon_owner t : owner_ v = Some t -> is_Some (threads s !! t);
  mon_hash : 0 <= hash_code_ v <= kMaxHash;
}.

(** The threads linked from [first] on are those of [l]. *)
Fixpoint linked (ts : gmap tid Thread) (first : option tid) (l : list tid) : Prop :=
  match l with
  | [] => first = None
  | t :: l => first = Some t /\ exists th, ts !! t = Some th /\ linked ts (wait_next th) l
  end.

Record Inv (σ : State * ghost) : Prop := {
  inv_ids t th : threads σ.1 !! t = Some th -> 0 < t <= kThinLockMaxOwner;
  inv_words o w : lock_words σ.1 !! o = Some w -> word_ok σ.1 o w;
  inv_monitors m v : monitors σ.1 !! m = Some v -> monitor_ok σ.1 m v;
  inv_waiters m v : monitors σ.1 !! m = Some v -> num_waiters_ v = Z.of_nat (size (waiters σ.2 m));
  inv_waiting m p : p ∈ waiters σ.2 m -> exists o, installed σ.1 o m;
  inv_suspend t th : threads σ.1 !! t = Some th ->
    suspend_count th = Z.of_nat (size (suspenders σ.2 t));
  inv_suspenders t u : u ∈ suspenders σ.2 t -> is_Some (threads σ.1 !! t);
  inv_runnable t : runnable σ.1 t -> t ∈ mutator_shared σ.1;
  inv_exclusive t : mutator_exclusive σ.1 = Some t -> mutator_shared σ.1 = ∅;
  inv_held t o : held (events σ.1 t) o <= count σ.1 t o;
  inv_hashes t o h e : Return (HashOf o) (Word h) e ∈ events σ.1 t -> h <> 0 /\ hash_of σ.1 o = h;
  inv_results t : results_ok (events σ.1 t);
  inv_chain m v : monitors σ.1 !! m = Some v -> linked (threads σ.1) (wait_set_ v) (chain σ.2 m);
  inv_chain_waiters m t : t ∈ chain σ.2 m -> (t, false) ∈ waiters σ.2 m;
  inv_chain_once m m' t : t ∈ chain σ.2 m -> t ∈ chain σ.2 m' -> m = m';
  inv_chain_nodup m : NoDup (chain σ.2 m);
  inv_wait_next t th : threads σ.1 !! t = Some th -> wait_next th <> None ->
    exists m, t ∈ chain σ.2 m;
  inv_list m : m ∈ list_ σ.1 -> is_Some (monitors σ.1 !! m) /\ fresh σ.2 m = None;
  inv_list_nodup : NoDup (list_ σ.1);
  inv_fresh m t : fresh σ.2 m = Some t -> is_Some (monitors σ.1 !! m);
  inv_obj m v o : monitors σ.1 !! m = Some v -> fresh σ.2 m = None -> obj_ v = Some o ->
    installed σ.1 o m;
  inv_mutex m v t : monitors σ.1 !! m = Some v -> monitor_lock_ v = Some t ->
    runnable σ.1 t \/ (exists b, (t, b) ∈ waiters σ.2 m) \/ mutator_exclusive σ.1 = Some t;
}.

(** ** What a thread knows about itself *)

Record local_state : Type := MkLocal {
  l_state : ThreadState;
  l_count : Z -> Z;
  l_events : list event;
  l_suspending : gset tid;
  l_suspended : gset tid;
  l_waits : gset (Z * bool);
  l_fresh : option Z;
  l_chain : option Z;
  l_wait_monitor : option Z;
  l_pending : option exception;
  l_mutex : option Z;
  l_wait_mutex : option tid;
  l_exclusive : bool;
}.

Record knows (t : tid) (ℓ : local_state) (σ : State * ghost) : Prop := {
  k_thread : exists th, threads σ.1 !! t = Some th /\ state th = l_state ℓ /\
    wait_monitor_ th = l_wait_monitor ℓ /\ pending th = l_pending ℓ;
  k_count o : count σ.1 t o = l_count ℓ o;
  k_events : events σ.1 t = l_events ℓ;
  k_suspending u : t ∈ suspenders σ.2 u <-> u ∈ l_suspending ℓ;
  k_suspended u : u ∈ l_suspended ℓ -> t ∈ suspenders σ.2 u /\
    ~ runnable σ.1 u;
  k_waits m b : (t, b) ∈ waiters σ.2 m <-> (m, b) ∈ l_waits ℓ;
  k_fresh m : fresh σ.2 m = Some t <-> l_fresh ℓ = Some m;
  k_chain m : t ∈ chain σ.2 m -> l_chain ℓ = Some m;
  k_mutex m v : monitors σ.1 !! m = Some v -> monitor_lock_ v = Some t -> l_mutex ℓ = Some m;
  k_holds m : l_mutex ℓ = Some m -> exists v, monitors σ.1 !! m = Some v /\ monitor_lock_ v = Some t;
  k_wait_mutex u th : threads σ.1 !! u = Some th -> wait_mutex_ th = Some t <-> l_wait_mutex ℓ = Some u;
  k_exclusive : mutator_exclusive σ.1 = Some t <-> l_exclusive ℓ = true;
}.

(** Fields guarded by the mutex of a monitor, which only its holder changes. *)
Definition same_guarded (v v' : Monitor) : Prop :=
  monitor_lock_ v' = monitor_lock_ v /\ num_waiters_ v' = num_waiters_ v /\ owner_ v' = owner_ v /\
  lock_count_ v' = lock_count_ v /\ obj_ v' = obj_ v /\ wait_set_ v' = wait_set_ v.

(** ** What a thread may expect of the others *)

Record rely (t : tid) (σ σ' : State * ghost) : Prop := {
  r_thread th : threads σ.1 !! t = Some th -> exists th', threads σ'.1 !! t = Some th' /\
    state th' = state th /\ wait_monitor_ th' = wait_monitor_ th /\ pending th' = pending th;
  r_count o : count σ'.1 t o = count σ.1 t o;
  r_events : events σ'.1 t = events σ.1 t;
  r_suspending u : t ∈ suspenders σ'.2 u <-> t ∈ suspenders σ.2 u;
  r_waits m b : (t, b) ∈ waiters σ'.2 m <-> (t, b) ∈ waiters σ.2 m;
  r_fresh m : fresh σ'.2 m = Some t <-> fresh σ.2 m = Some t;
  r_chain m : t ∈ chain σ'.2 m -> t ∈ chain σ.2 m;
  r_mutex m v : monitors σ.1 !! m = Some v -> monitor_lock_ v = Some t ->
    exists v', monitors σ'.1 !! m = Some v' /\ same_guarded v v';
  r_mutex_back m v' : monitors σ'.1 !! m = Some v' -> monitor_lock_ v' = Some t ->
    exists v, monitors σ.1 !! m = Some v /\ monitor_lock_ v = Some t;
  r_wait_mutex u th' : threads σ'.1 !! u = Some th' -> exists th, threads σ.1 !! u = Some th /\
    (wait_mutex_ th' = Some t <-> wait_mutex_ th = Some t);
  r_exclusive : mutator_exclusive σ'.1 = Some t <-> mutator_exclusive σ.1 = Some t;
  r_thin o c : runnable σ.1 t -> lock_view σ.1 o = Some (VThin t c) ->
    lock_view σ'.1 o = Some (VThin t c);
  r_inflating o u c : runnable σ.1 t -> t ∈ suspenders σ.2 u -> ~ runnable σ.1 u ->
    lock_view σ.1 o = Some (VThin u c) ->
    lock_view σ'.1 o = Some (VThin u c) \/ exists m, lock_view σ'.1 o = Some (VFat m);
  r_fat o m :
    runnable σ.1 t \/ (exists b, (t, b) ∈ waiters σ.2 m) \/ mutator_exclusive σ.1 = Some t ->
    installed σ.1 o m -> installed σ'.1 o m;
  r_shared : t ∈ mutator_shared σ.1 -> t ∈ mutator_shared σ'.1;
  r_list : mutator_exclusive σ.1 = Some t -> list_ σ'.1 = list_ σ.1;
  r_words : mutator_exclusive σ.1 = Some t -> lock_words σ'.1 = lock_words σ.1;
  r_private m v : monitors σ.1 !! m = Some v -> fresh σ.2 m = Some t ->
    (forall o, ~ installed σ.1 o m) ->
    monitors σ'.1 !! m = Some v /\ (forall o, ~ installed σ'.1 o m);
  r_hash o : hash_of σ.1 o <> 0 -> hash_of σ'.1 o = hash_of σ.1 o;
  r_suspended u : t ∈ suspenders σ.2 u -> ~ runnable σ.1 u -> ~ runnable σ'.1 u;
  r_objects o : is_Some (lock_words σ.1 !! o) -> is_Some (lock_words σ'.1 !! o);
  r_threads u : is_Some (threads σ.1 !! u) -> is_Some (threads σ'.1 !! u);
}.

Lemma rely_runnable t σ σ' : rely t σ σ' -> runnable σ.1 t -> runnable σ'.1 t.
Proof.
  intros R (th & Hth & Hst). destruct (r_thread _ _ _ R _ Hth) as (th' & Hth' & Heq & _).
  exists th'. by rewrite Heq.
Qed.

#[export] Instance rely_preorder t : PreOrder (rely t).
Proof.
  split.
  - intros σ. split; try done; try (intros; eauto; fail).
    intros m v Hv Hl. exists v. by repeat split.
  - intros σ1 σ2 σ3 R1 R2. split.
    + intros th Hth. destruct (r_thread _ _ _ R1 _ Hth) as (th2 & H2 & ?).
      destruct (r_thread _ _ _ R2 _ H2) as (th3 & H3 & ?). exists th3. intuition congruence.
    + intros o. by rewrite (r_count _ _ _ R2), (r_count _ _ _ R1).
    + by rewrite (r_events _ _ _ R2), (r_events _ _ _ R1).
    + intros u. by rewrite (r_suspending _ _ _ R2), (r_suspending _ _ _ R1).
    + intros m b. by rewrite (r_waits _ _ _ R2), (r_waits _ _ _ R1).
    + intros m. by rewrite (r_fresh _ _ _ R2), (r_fresh _ _ _ R1).
    + intros m Hm. by apply (r_chain _ _ _ R1), (r_chain _ _ _ R2).
    + intros m v Hv Hl. destruct (r_mutex _ _ _ R1 _ _ Hv Hl) as (v2 & H2 & Hs2).
      assert (monitor_lock_ v2 = Some t) as Hl2 by (destruct Hs2; congruence).
      destruct (r_mutex _ _ _ R2 _ _ H2 Hl2) as (v3 & H3 & Hs3). exists v3.
      unfold same_guarded in *. intuition congruence.
    + intros m v Hv Hl. destruct (r_mutex_back _ _ _ R2 _ _ Hv Hl) as (v2 & H2 & Hl2).
      eapply (r_mutex_back _ _ _ R1); eauto.
    + intros u th Hth. destruct (r_wait_mutex _ _ _ R2 _ _ Hth) as (th2 & H2 & E2).
      destruct (r_wait_mutex _ _ _ R1 _ _ H2) as (th1 & H1 & E1). exists th1. by rewrite E2, E1.
    + by rewrite (r_exclusive _ _ _ R2), (r_exclusive _ _ _ R1).
    + intros o c Hr Hw. apply (r_thin _ _ _ R2); [by eapply rely_runnable |].
      by apply (r_thin _ _ _ R1).
    + intros o u c Hr Hs Hnr Ho. assert (Hr2 := rely_runnable _ _ _ R1 Hr).
      destruct (r_inflating _ _ _ R1 o u c Hr Hs Hnr Ho) as [Ho2 | [m Hm]].
      * apply (r_inflating _ _ _ R2); [done | by apply (r_suspending _ _ _ R1) | | done].
        by apply (r_suspended _ _ _ R1).
      * right. exists m. apply (r_fat _ _ _ R2); [by left | done].
    + intros o m Hr Hw. apply (r_fat _ _ _ R2).
      * destruct Hr as [Hr | [[b Hb] | He]]; [left; by eapply rely_runnable | right; left | right; right].
        -- exists b. by apply (r_waits _ _ _ R1).
        -- by apply (r_exclusive _ _ _ R1).
      * by apply (r_fat _ _ _ R1).
    + intros Ht. by apply (r_shared _ _ _ R2), (r_shared _ _ _ R1).
    + intros He. rewrite (r_list _ _ _ R2), (r_list _ _ _ R1); [done | done |].
      by apply (r_exclusive _ _ _ R1).
    + intros He. rewrite (r_words _ _ _ R2), (r_words _ _ _ R1); [done | done |].
      by apply (r_exclusive _ _ _ R1).
    + intros m v Hv Hf Hi. destruct (r_private _ _ _ R1 _ _ Hv Hf Hi) as [Hv2 Hi2].
      apply (r_private _ _ _ R2); [done | by apply (r_fresh _ _ _ R1) | done].
    + intros o Ho. rewrite <- (r_hash _ _ _ R1 o Ho) in Ho |- *. by apply (r_hash _ _ _ R2).
    + intros u Hs Hst. apply (r_suspended _ _ _ R2 u); [by apply (r_suspending _ _ _ R1) |].
      by apply (r_suspended _ _ _ R1).
    + intros o Ho. by apply (r_objects _ _ _ R2), (r_objects _ _ _ R1).
    + intros u Hu. by apply (r_threads _ _ _ R2), (r_threads _ _ _ R1).
Qed.

(** What a thread knows about itself the others leave alone. *)
Lemma knows_stable t ℓ σ σ' : rely t σ σ' -> knows t ℓ σ -> knows t ℓ σ'.
Proof.
  intros R K. split.
  - destruct (k_thread _ _ _ K) as (th & Hth & Hst & Hw & Hp).
    destruct (r_thread _ _ _ R _ Hth) as (th' & Hth' & ?). exists th'. intuition congruence.
  - intros o. by rewrite (r_count _ _ _ R), (k_count _ _ _ K).
  - by rewrite (r_events _ _ _ R), (k_events _ _ _ K).
  - intros u. by rewrite (r_suspending _ _ _ R), (k_suspending _ _ _ K).
  - intros u Hu. destruct (k_suspended _ _ _ K u Hu) as (Hs & Hst).
    split; [by apply (r_suspending _ _ _ R) | by apply (r_suspended _ _ _ R)].
  - intros m b. by rewrite (r_waits _ _ _ R), (k_waits _ _ _ K).
  - intros m. by rewrite (r_fresh _ _ _ R), (k_fresh _ _ _ K).
  - intros m Hm. by apply (k_chain _ _ _ K), (r_chain _ _ _ R).
  - intros m v Hv Hl. destruct (r_mutex_back _ _ _ R _ _ Hv Hl) as (v' & Hv' & Hl').
    by eapply (k_mutex _ _ _ K).
  - intros m Hm. destruct (k_holds _ _ _ K m Hm) as (v & Hv & Hl).
    destruct (r_mutex _ _ _ R _ _ Hv Hl) as (v' & Hv' & Hs). exists v'.
    split; [done |]. destruct Hs; congruence.
  - intros u th Hth. destruct (r_wait_mutex _ _ _ R _ _ Hth) as (th' & Hth' & E).
    rewrite E. by apply (k_wait_mutex _ _ _ K).
  - by rewrite (r_exclusive _ _ _ R), (k_exclusive _ _ _ K).
Qed.

(** ** Counts and hash codes after an update *)

Lemma lock_view_Some s o w : lock_view s o = Some w <-> exists x, lock_words s !! o = Some x /\ view_of x = w.
Proof. unfold lock_view. rewrite fmap_Some. split; intros (x & ? & ?); exists x; auto. Qed.

Lemma count_view s t o : count s t o = from_option (view_count s t) 0 (lock_view s o).
Proof. unfold count, lock_view. by destruct (lock_words s !! o). Qed.

Lemma hash_view s o : hash_of s o = from_option (view_hash_code s) 0 (lock_view s o).
Proof. unfold hash_of, lock_view. by destruct (lock_words s !! o). Qed.

Lemma count_set_monitor s m v t o :
  count (with_monitors (<[m := v]> (monitors s)) s) t o =
    if decide (installed s o m) then monitor_count t v else count s t o.
Proof.
  rewrite !count_view. change (lock_view (with_monitors _ _) o) with (lock_view s o).
  case_decide as Hw; unfold installed in Hw.
  - rewrite Hw. simpl. by rewrite lookup_insert_eq.
  - destruct (lock_view s o) as [[| | m' | |] |]; simpl; try done.
    rewrite lookup_insert_ne by congruence. done.
Qed.

Lemma hash_set_monitor s m v o :
  hash_of (with_monitors (<[m := v]> (monitors s)) s) o =
    if decide (installed s o m) then hash_code_ v else hash_of s o.
Proof.
  rewrite !hash_view. change (lock_view (with_monitors _ _) o) with (lock_view s o).
  case_decide as Hw; unfold installed in Hw.
  - rewrite Hw. simpl. by rewrite lookup_insert_eq.
  - destruct (lock_view s o) as [[| | m' | |] |]; simpl; try done.
    rewrite lookup_insert_ne by congruence. done.
Qed.

Lemma count_installed s m v t o :
  monitors s !! m = Some v -> installed s o m -> count s t o = monitor_count t v.
Proof. rewrite count_view. unfold installed. intros Hv ->. simpl. by rewrite Hv. Qed.

Lemma hash_installed s m v o :
  monitors s !! m = Some v -> installed s o m -> hash_of s o = hash_code_ v.
Proof. rewrite hash_view. unfold installed. intros Hv ->. simpl. by rewrite Hv. Qed.

(** What the invariant says of a lock word that has been read. *)
Lemma word_ok_view s g o w :
  Inv (s, g) -> word_ok s o w ->
  match view_of w with
  | VUnlocked => w = Unlocked
  | VThin t c => w = thin_word t c /\ is_Some (threads s !! t) /\ 0 < t <= kThinLockMaxOwner /\
      0 <= c <= kThinLockMaxCount
  | VFat m => w = fat_word m /\ 0 <= m <= kMaxMonitorId /\
      exists v, monitors s !! m = Some v /\ obj_ v = Some o
  | VHash h => w = hash_word h /\ 0 < h <= kMaxHash
  | VMoved => False
  end.
Proof.
  intros I. destruct 1 as [| t c [th Ht] Hc | m v Hm Hv Ho | h Hh].
  - done.
  - assert (0 < t <= kThinLockMaxOwner) by (by eapply (inv_ids _ I)).
    rewrite view_thin by done. eauto.
  - rewrite view_fat by done. eauto.
  - rewrite view_hash by lia. eauto.
Qed.

Lemma installed_monitor s g o m :
  Inv (s, g) -> installed s o m ->
  lock_words s !! o = Some (fat_word m) /\ 0 <= m <= kMaxMonitorId /\
  exists v, monitors s !! m = Some v /\ obj_ v = Some o.
Proof.
  intros I. unfold installed. rewrite lock_view_Some. intros (w & Hw & Hv).
  pose proof (word_ok_view _ _ _ _ I (inv_words _ I _ _ Hw)) as Hok. rewrite Hv in Hok.
  destruct Hok as (-> & ? & ?). done.
Qed.

(** A monitor is installed in its object and nowhere else. *)
Lemma installed_once s g o o' m : Inv (s, g) -> installed s o m -> installed s o' m -> o = o'.
Proof.
  intros I H1 H2. destruct (installed_monitor _ _ _ _ I H1) as (_ & _ & v1 & Hv1 & Ho1).
  destruct (installed_monitor _ _ _ _ I H2) as (_ & _ & v2 & Hv2 & Ho2). congruence.
Qed.
