(* ===== verification/MonitorSteps.v ===== *)
(** * Updates of the state of monitors

    One lemma for every kind of update an action makes: it keeps the invariant, gives the
    other threads what they rely on, and what the acting thread knows afterwards. *)

From stdpp Require Import functions.
From S2P Require Import Prelude Concurrency LockWord Monitor MonitorInvariant.

(** Nothing a thread [u] other than [t] relies on is touched. *)
Definition guarantee (t : tid) (σ σ' : State * ghost) : Prop := forall u, u <> t -> rely u σ σ'.

(** The step to [s'] is in order for thread [t], which knows [ℓ'] afterwards. *)
Definition step_to (t : tid) (ℓ' : local_state) (σ : State * ghost) (s' : State)
    (P : State * ghost -> Prop) : Prop :=
  exists g', Inv (s', g') /\ guarantee t σ (s', g') /\ knows t ℓ' (s', g') /\ P (s', g').

Definition set_count (c : Z -> Z) (ℓ : local_state) : local_state :=
  MkLocal (l_state ℓ) c (l_events ℓ) (l_suspending ℓ) (l_suspended ℓ) (l_waits ℓ) (l_fresh ℓ) (l_chain ℓ)
    (l_wait_monitor ℓ) (l_pending ℓ) (l_mutex ℓ) (l_wait_mutex ℓ) (l_exclusive ℓ).
Definition set_state (v : ThreadState) (ℓ : local_state) : local_state :=
  MkLocal v (l_count ℓ) (l_events ℓ) (l_suspending ℓ) (l_suspended ℓ) (l_waits ℓ) (l_fresh ℓ) (l_chain ℓ)
    (l_wait_monitor ℓ) (l_pending ℓ) (l_mutex ℓ) (l_wait_mutex ℓ) (l_exclusive ℓ).
Definition set_events (v : list event) (ℓ : local_state) : local_state :=
  MkLocal (l_state ℓ) (l_count ℓ) v (l_suspending ℓ) (l_suspended ℓ) (l_waits ℓ) (l_fresh ℓ) (l_chain ℓ)
    (l_wait_monitor ℓ) (l_pending ℓ) (l_mutex ℓ) (l_wait_mutex ℓ) (l_exclusive ℓ).
Definition set_suspending (v : gset tid) (ℓ : local_state) : local_state :=
  MkLocal (l_state ℓ) (l_count ℓ) (l_events ℓ) v (l_suspended ℓ) (l_waits ℓ) (l_fresh ℓ) (l_chain ℓ)
    (l_wait_monitor ℓ) (l_pending ℓ) (l_mutex ℓ) (l_wait_mutex ℓ) (l_exclusive ℓ).
Definition set_suspended (v : gset tid) (ℓ : local_state) : local_state :=
  MkLocal (l_state ℓ) (l_count ℓ) (l_events ℓ) (l_suspending ℓ) v (l_waits ℓ) (l_fresh ℓ) (l_chain ℓ)
    (l_wait_monitor ℓ) (l_pending ℓ) (l_mutex ℓ) (l_wait_mutex ℓ) (l_exclusive ℓ).
Definition set_waits (v : gset (Z * bool)) (ℓ : local_state) : local_state :=
  MkLocal (l_state ℓ) (l_count ℓ) (l_events ℓ) (l_suspending ℓ) (l_suspended ℓ) v (l_fresh ℓ) (l_chain ℓ)
    (l_wait_monitor ℓ) (l_pending ℓ) (l_mutex ℓ) (l_wait_mutex ℓ) (l_exclusive ℓ).
Definition set_fresh (v : option Z) (ℓ : local_state) : local_state :=
  MkLocal (l_state ℓ) (l_count ℓ) (l_events ℓ) (l_suspending ℓ) (l_suspended ℓ) (l_waits ℓ) v (l_chain ℓ)
    (l_wait_monitor ℓ) (l_pending ℓ) (l_mutex ℓ) (l_wait_mutex ℓ) (l_exclusive ℓ).
Definition set_chain (v : option Z) (ℓ : local_state) : local_state :=
  MkLocal (l_state ℓ) (l_count ℓ) (l_events ℓ) (l_suspending ℓ) (l_suspended ℓ) (l_waits ℓ) (l_fresh ℓ) v
    (l_wait_monitor ℓ) (l_pending ℓ) (l_mutex ℓ) (l_wait_mutex ℓ) (l_exclusive ℓ).
Definition set_wmon (v : option Z) (ℓ : local_state) : local_state :=
  MkLocal (l_state ℓ) (l_count ℓ) (l_events ℓ) (l_suspending ℓ) (l_suspended ℓ) (l_waits ℓ) (l_fresh ℓ) (l_chain ℓ)
    v (l_pending ℓ) (l_mutex ℓ) (l_wait_mutex ℓ) (l_exclusive ℓ).
Definition set_pending (v : option exception) (ℓ : local_state) : local_state :=
  MkLocal (l_state ℓ) (l_count ℓ) (l_events ℓ) (l_suspending ℓ) (l_suspended ℓ) (l_waits ℓ) (l_fresh ℓ) (l_chain ℓ)
    (l_wait_monitor ℓ) v (l_mutex ℓ) (l_wait_mutex ℓ) (l_exclusive ℓ).
Definition set_mutex (v : option Z) (ℓ : local_state) : local_state :=
  MkLocal (l_state ℓ) (l_count ℓ) (l_events ℓ) (l_suspending ℓ) (l_suspended ℓ) (l_waits ℓ) (l_fresh ℓ) (l_chain ℓ)
    (l_wait_monitor ℓ) (l_pending ℓ) v (l_wait_mutex ℓ) (l_exclusive ℓ).
Definition set_wmutex (v : option tid) (ℓ : local_state) : local_state :=
  MkLocal (l_state ℓ) (l_count ℓ) (l_events ℓ) (l_suspending ℓ) (l_suspended ℓ) (l_waits ℓ) (l_fresh ℓ) (l_chain ℓ)
    (l_wait_monitor ℓ) (l_pending ℓ) (l_mutex ℓ) v (l_exclusive ℓ).
Definition set_exclusive (v : bool) (ℓ : local_state) : local_state :=
  MkLocal (l_state ℓ) (l_count ℓ) (l_events ℓ) (l_suspending ℓ) (l_suspended ℓ) (l_waits ℓ) (l_fresh ℓ) (l_chain ℓ)
    (l_wait_monitor ℓ) (l_pending ℓ) (l_mutex ℓ) (l_wait_mutex ℓ) v.

Lemma fn_insert_cases {A} (f : Z -> A) k a k' : <[k := a]> f k' = if decide (k' = k) then a else f k'.
Proof. case_decide as E; [subst; apply fn_lookup_insert | by apply fn_lookup_insert_ne]. Qed.

(** ** Updates of a monitor *)

Section monitor_update.
Context (t : tid) (ℓ : local_state) (s : State) (g : ghost).
Context (I : Inv (s, g)) (K : knows t ℓ (s, g)).
Context (m : Z) (v v' : Monitor) (Hv : monitors s !! m = Some v).
Context (W : gset (tid * bool)).

(** The thread may touch the monitor, and does so in an orderly way. *)
Record monitor_step : Prop := {
  ms_ok : monitor_ok s m v';
  ms_obj : obj_ v' = obj_ v;
  ms_set : wait_set_ v' = wait_set_ v;
  ms_hash : hash_code_ v <> 0 -> hash_code_ v' = hash_code_ v;
  ms_others u o : u <> t -> installed s o m -> monitor_count u v' = monitor_count u v;
  ms_held o : installed s o m -> held (l_events ℓ) o <= monitor_count t v';
  ms_waiters : num_waiters_ v' = Z.of_nat (size W);
  ms_waits u b : u <> t -> (u, b) ∈ W <-> (u, b) ∈ waiters g m;
  ms_installed p : p ∈ W -> exists o, installed s o m;
  ms_chain : t ∈ chain g m -> (t, false) ∈ W;
  ms_lock u : u <> t -> monitor_lock_ v' = Some u <-> monitor_lock_ v = Some u;
  ms_guard u : u <> t -> monitor_lock_ v = Some u -> same_guarded v v';
  ms_right : monitor_lock_ v' = Some t ->
    runnable s t \/ (exists b, (t, b) ∈ W) \/ mutator_exclusive s = Some t;
  ms_public u : u <> t -> fresh g m = Some u -> exists o, installed s o m;
}.

Context (MS : monitor_step).

Let s' := with_monitors (<[m := v']> (monitors s)) s.
Let g' := MkGhost (suspenders g) (<[m := W]> (waiters g)) (chain g) (fresh g).

Lemma set_monitor_word_ok o w : word_ok s o w -> word_ok s' o w.
Proof.
  destruct 1 as [| u c | m1 v1 Hm1 Hv1 Ho |]; [constructor | by constructor | | by constructor].
  destruct (decide (m1 = m)) as [-> |].
  - eapply (ok_fat _ _ m v'); [done | by simpl; rewrite lookup_insert_eq |].
    rewrite (ms_obj MS). simplify_eq/=. congruence.
  - eapply (ok_fat _ _ m1 v1); [done | by simpl; rewrite lookup_insert_ne | done].
Qed.

Lemma set_monitor_count u o : u <> t -> count s' u o = count s u o.
Proof.
  intros Hu. unfold s'. rewrite count_set_monitor. case_decide; [| done].
  erewrite (count_installed s m v) by done.
  by eapply (ms_others MS).
Qed.

Lemma set_monitor_hash o : hash_of s o <> 0 -> hash_of s' o = hash_of s o.
Proof.
  intros Ho. unfold s'. rewrite hash_set_monitor. case_decide; [| done].
  erewrite (hash_installed s m v) in * by done.
  by apply (ms_hash MS).
Qed.

Lemma set_monitor_inv : Inv (s', g').
Proof.
  split; simpl.
  - apply (inv_ids _ I).
  - intros o w Hw'. apply set_monitor_word_ok, (inv_words _ I), Hw'.
  - intros m1 v1. rewrite lookup_insert_Some. intros [[<- <-] | [Hne Hv1]].
    + destruct (ms_ok MS). by split.
    + destruct (inv_monitors _ I _ _ Hv1). by split.
  - intros m1 v1. rewrite fn_insert_cases, lookup_insert_Some.
    intros [[<- <-] | [Hne Hv1]].
    + rewrite decide_True by done. apply (ms_waiters MS).
    + rewrite decide_False by done. by apply (inv_waiters _ I).
  - intros m1 p. rewrite fn_insert_cases. case_decide as E; [subst |].
    + intros Hp. by apply (ms_installed MS) in Hp.
    + apply (inv_waiting _ I).
  - apply (inv_suspend _ I).
  - apply (inv_suspenders _ I).
  - apply (inv_runnable _ I).
  - apply (inv_exclusive _ I).
  - intros u o. destruct (decide (u = t)) as [-> | Hu].
    + unfold s'. rewrite count_set_monitor.
      change (events _ t) with (events s t). case_decide as Hi.
      * pose proof (k_events _ _ _ K) as E. simpl in E. rewrite E. by apply (ms_held MS).
      * apply (inv_held _ I).
    + rewrite set_monitor_count by done. apply (inv_held _ I).
  - intros u o h e He. destruct (inv_hashes _ I _ _ _ _ He) as [Hh Heq].
    split; [done |]. rewrite set_monitor_hash; [done |]. by simpl in Heq; rewrite Heq.
  - apply (inv_results _ I).
  - intros m1 v1. rewrite lookup_insert_Some. intros [[<- <-] | [Hne Hv1]].
    + rewrite (ms_set MS). by apply (inv_chain _ I).
    + by apply (inv_chain _ I).
  - intros m1 u Hu. rewrite fn_insert_cases. apply (inv_chain_waiters _ I) in Hu as Hu'.
    case_decide as E; [subst | done]. destruct (decide (u = t)) as [-> |].
    + by apply (ms_chain MS).
    + by apply (ms_waits MS).
  - apply (inv_chain_once _ I).
  - apply (inv_chain_nodup _ I).
  - apply (inv_wait_next _ I).
  - intros m1 Hm1. destruct (inv_list _ I _ Hm1) as [[v1 Hv1] Hf]. split; [| done].
    rewrite lookup_insert_is_Some'. right. by exists v1.
  - apply (inv_list_nodup _ I).
  - intros m1 u Hf. rewrite lookup_insert_is_Some'. right. eapply (inv_fresh _ I), Hf.
  - intros m1 v1 o. rewrite lookup_insert_Some. intros [[<- <-] | [_ Hv1]].
    + rewrite (ms_obj MS). by apply (inv_obj _ I).
    + by apply (inv_obj _ I m1 v1).
  - intros m1 v1 u. rewrite fn_insert_cases, lookup_insert_Some.
    intros [[<- <-] | [Hne Hv1]] Hl.
    + rewrite decide_True by done. destruct (decide (u = t)) as [-> |]; [by apply (ms_right MS) |].
      apply (ms_lock MS) in Hl; [| done].
      destruct (inv_mutex _ I _ _ _ Hv Hl) as [? | [[b Hb] | ?]]; [by left | | by right; right].
      right; left. exists b. by apply (ms_waits MS).
    + rewrite decide_False by done. by eapply (inv_mutex _ I).
Qed.

Lemma set_monitor_guarantee : guarantee t (s, g) (s', g').
Proof.
  intros u Hu. split; simpl; try done; try (intros; eauto; fail).
  - intros o. by apply set_monitor_count.
  - intros m1 b. destruct (decide (m1 = m)) as [-> |].
    + rewrite fn_lookup_insert. by apply (ms_waits MS).
    + by rewrite fn_lookup_insert_ne.
  - intros m1 v1 Hv1 Hl. destruct (decide (m1 = m)) as [-> | Hne].
    + rewrite lookup_insert_eq. simplify_eq. exists v'. split; [done |]. by eapply (ms_guard MS).
    + rewrite lookup_insert_ne by done. exists v1. by repeat split.
  - intros m1 v1. rewrite lookup_insert_Some. intros [[<- <-] | [Hne Hv1]] Hl; [| by exists v1].
    exists v. split; [done |]. by apply (ms_lock MS).
  - intros m1 v1 Hv1 Hf Hi. destruct (decide (m1 = m)) as [-> | Hne].
    + exfalso. destruct (ms_public MS u Hu Hf) as [o Ho]. by eapply Hi.
    + by rewrite lookup_insert_ne.
  - apply set_monitor_hash.
Qed.

Context (c : Z -> Z) (waits : gset (Z * bool)) (mutex : option Z).
Context (Hc : forall o, c o = if decide (installed s o m) then monitor_count t v' else l_count ℓ o).
Context (Hwaits : forall m1 b, (m1, b) ∈ waits <-> if decide (m1 = m) then (t, b) ∈ W else (m1, b) ∈ l_waits ℓ).
Context (Hmutex : forall m1, mutex = Some m1 <->
  if decide (m1 = m) then monitor_lock_ v' = Some t else l_mutex ℓ = Some m1).

Lemma set_monitor_knows : knows t (set_count c (set_waits waits (set_mutex mutex ℓ))) (s', g').
Proof.
  split; simpl; try apply K.
  - intros o. unfold s'. rewrite count_set_monitor, Hc.
    case_decide; [done | apply (k_count _ _ _ K)].
  - intros m1 b. rewrite Hwaits, fn_insert_cases. case_decide; [done | apply (k_waits _ _ _ K)].
  - intros m1 v1. rewrite lookup_insert_Some, Hmutex. intros [[<- <-] | [Hne Hv1]] Hl.
    + by rewrite decide_True.
    + rewrite decide_False by done. by eapply (k_mutex _ _ _ K).
  - intros m1. rewrite Hmutex. case_decide as E; [subst |].
    + intros Hl. exists v'. by rewrite lookup_insert_eq.
    + intros Hl. rewrite lookup_insert_ne by done. by apply (k_holds _ _ _ K).
Qed.

Lemma set_monitor_step (P : State * ghost -> Prop) :
  P (s', g') -> step_to t (set_count c (set_waits waits (set_mutex mutex ℓ))) (s, g) s' P.
Proof.
  exists g'. split_and!; [apply set_monitor_inv | apply set_monitor_guarantee |
    apply set_monitor_knows | done].
Qed.
End monitor_update.

(** ** Updates of a thread *)

Lemma linked_set_thread ts u th th' first l :
  ts !! u = Some th -> wait_next th' = wait_next th -> linked ts first l ->
  linked (<[u := th']> ts) first l.
Proof.
  intros Hu Hn. revert first. induction l as [| x l IH]; [done |].
  intros first [-> (w & Hw & Hl)]. split; [done |].
  destruct (decide (x = u)) as [-> |].
  - exists th'. rewrite lookup_insert_eq, Hn. split; [done |]. apply IH. simplify_eq. done.
  - exists w. rewrite lookup_insert_ne by done. split; [done | by apply IH].
Qed.

Section thread_update.
Context (t : tid) (ℓ : local_state) (s : State) (g : ghost).
Context (I : Inv (s, g)) (K : knows t ℓ (s, g)).
Context (u : tid) (th th' : Thread) (Hth : threads s !! u = Some th).
Context (A : gset tid).

(** Only the thread itself changes its state and what it alone reads; anyone may suspend
    it, resume it or interrupt it. *)
Record thread_step : Prop := {
  ts_next : wait_next th' = wait_next th;
  ts_state : u <> t -> state th' = state th;
  ts_monitor : u <> t -> wait_monitor_ th' = wait_monitor_ th;
  ts_pending : u <> t -> pending th' = pending th;
  ts_mutex x : x <> t -> wait_mutex_ th' = Some x <-> wait_mutex_ th = Some x;
  ts_suspend : suspend_count th' = Z.of_nat (size A);
  ts_suspenders x : x <> t -> x ∈ A <-> x ∈ suspenders g u;
  ts_start : state th' = kRunnable -> state th <> kRunnable ->
    suspend_count th = 0 /\ u ∈ mutator_shared s;
  ts_stop m : state th' <> kRunnable -> state th = kRunnable -> l_mutex ℓ = Some m ->
    exists b, (m, b) ∈ l_waits ℓ;
}.

Context (TS : thread_step).

Let s' := with_threads (<[u := th']> (threads s)) s.
Let g' := MkGhost (<[u := A]> (suspenders g)) (waiters g) (chain g) (fresh g).

Lemma set_thread_exists x : is_Some (threads s !! x) -> is_Some (threads s' !! x).
Proof. simpl. rewrite lookup_insert_is_Some'. by right. Qed.

Lemma set_thread_runnable x : runnable s x -> x <> t -> runnable s' x.
Proof.
  intros (w & Hw & Hst) Hx. unfold runnable. simpl. destruct (decide (x = u)) as [-> |].
  - exists th'. rewrite lookup_insert_eq, (ts_state TS) by done. split; [done |]. congruence.
  - exists w. by rewrite lookup_insert_ne.
Qed.

Lemma set_thread_inv : Inv (s', g').
Proof.
  split; simpl; try apply I.
  - intros x w. rewrite lookup_insert_Some. intros [[<- <-] | [_ Hw]].
    + by apply (inv_ids _ I u th).
    + by apply (inv_ids _ I x w).
  - intros o w Hw. destruct (inv_words _ I _ _ Hw); econstructor; eauto using set_thread_exists.
  - intros m v Hv. destruct (inv_monitors _ I _ _ Hv). split; eauto using set_thread_exists.
  - intros x w. rewrite lookup_insert_Some, fn_insert_cases. intros [[<- <-] | [Hne Hw]].
    + rewrite decide_True by done. apply (ts_suspend TS).
    + rewrite decide_False by done. by apply (inv_suspend _ I).
  - intros x y. rewrite fn_insert_cases. case_decide; [subst; intros _; by rewrite lookup_insert_eq |].
    intros Hx. by apply set_thread_exists, (inv_suspenders _ I x y).
  - intros x (w & Hw & Hst). simpl in Hw. rewrite lookup_insert_Some in Hw.
    destruct Hw as [[<- <-] | [Hne Hw]].
    + destruct (decide (state th = kRunnable)).
      * apply (inv_runnable _ I). by exists th.
      * by apply (ts_start TS).
    + apply (inv_runnable _ I). by exists w.
  - intros m v Hv. by eapply linked_set_thread, (inv_chain _ I); [| apply (ts_next TS) |].
  - intros x w. rewrite lookup_insert_Some. intros [[<- <-] | [Hne Hw]] Hn.
    + rewrite (ts_next TS) in Hn. by eapply (inv_wait_next _ I).
    + by eapply (inv_wait_next _ I).
  - intros m v x Hv Hl. destruct (inv_mutex _ I _ _ _ Hv Hl) as [Hr | ?]; [| by right].
    destruct (decide (x = t)) as [-> |]; [| left; by apply set_thread_runnable].
    destruct Hr as (w & Hw & Hst). simpl in Hw. destruct (decide (t = u)) as [-> |].
    + destruct (decide (state th' = kRunnable)) as [Hr | Hr].
      * left. exists th'. split; [apply lookup_insert_eq | done].
      * simplify_eq. right; left. simpl.
        destruct (ts_stop TS m Hr Hst) as [b Hb]; [by eapply (k_mutex _ _ _ K) |].
        exists b. by apply (k_waits _ _ _ K).
    + left. exists w. simpl. by rewrite lookup_insert_ne.
Qed.

Lemma set_thread_guarantee : guarantee t (s, g) (s', g').
Proof.
  intros x Hx. split; simpl; try done; try (intros; eauto; fail).
  - intros w Hw. destruct (decide (x = u)) as [-> |].
    + exists th'. rewrite lookup_insert_eq, (ts_state TS), (ts_monitor TS), (ts_pending TS) by done.
      simplify_eq/=. done.
    + exists w. by rewrite lookup_insert_ne.
  - intros y. rewrite fn_insert_cases. case_decide; [subst; by apply (ts_suspenders TS) | done].
  - intros m v Hv Hl. exists v. by repeat split.
  - intros y w. rewrite lookup_insert_Some. intros [[<- <-] | [Hne Hw]].
    + exists th. split; [done | by apply (ts_mutex TS)].
    + by exists w.
  - intros y Hs Hst (w & Hw & Hr). simpl in *. destruct (decide (y = u)) as [-> |].
    + rewrite lookup_insert_eq in Hw. injection Hw as <-.
      destruct (decide (state th = kRunnable)) as [Hr' | Hr']; [by apply Hst; exists th |].
      destruct (ts_start TS Hr Hr') as [H0 _]. pose proof (inv_suspend _ I _ _ Hth) as Hn.
      simpl in Hn. assert (size (suspenders g u) = 0%nat) as Hz by lia.
      apply size_empty_inv in Hz. set_solver.
    + apply Hst. exists w. by rewrite lookup_insert_ne in Hw.
  - intros y Hy. by apply set_thread_exists.
Qed.

Context (ℓ' : local_state).
Context (Hstate : l_state ℓ' = if decide (u = t) then state th' else l_state ℓ).
Context (Hmonitor : l_wait_monitor ℓ' = if decide (u = t) then wait_monitor_ th' else l_wait_monitor ℓ).
Context (Hpending : l_pending ℓ' = if decide (u = t) then pending th' else l_pending ℓ).
Context (Hsuspending : forall y, y ∈ l_suspending ℓ' <-> if decide (y = u) then t ∈ A else y ∈ l_suspending ℓ).
Context (Hsuspended : forall y, y ∈ l_suspended ℓ' ->
  if decide (y = u) then t ∈ A /\ state th' <> kRunnable else y ∈ l_suspended ℓ).
Context (Hmutex : forall y, l_wait_mutex ℓ' = Some y <->
  if decide (y = u) then wait_mutex_ th' = Some t else l_wait_mutex ℓ = Some y).
Context (Hrest : l_count ℓ' = l_count ℓ /\ l_events ℓ' = l_events ℓ /\ l_waits ℓ' = l_waits ℓ /\
  l_fresh ℓ' = l_fresh ℓ /\ l_chain ℓ' = l_chain ℓ /\ l_mutex ℓ' = l_mutex ℓ /\
  l_exclusive ℓ' = l_exclusive ℓ).

Lemma set_thread_knows : knows t ℓ' (s', g').
Proof.
  destruct Hrest as (Ec & Ee & Ew & Ef & Eh & Em & Ex).
  split; simpl; rewrite ?Ec, ?Ee, ?Ew, ?Ef, ?Eh, ?Em, ?Ex; try apply K.
  - destruct (k_thread _ _ _ K) as (w & Hw & E1 & E2 & E3). simpl in Hw.
    rewrite Hstate, Hmonitor, Hpending. case_decide as E.
    + exists th'. by rewrite E, lookup_insert_eq.
    + exists w. by rewrite lookup_insert_ne.
  - intros y. rewrite Hsuspending, fn_insert_cases.
    destruct (decide (y = u)); [done | apply (k_suspending _ _ _ K)].
  - intros y Hy. apply Hsuspended in Hy. rewrite fn_insert_cases. case_decide as E; [subst |].
    + destruct Hy as [Ha Hr]. split; [done |]. intros (w & Hw & Hst). simpl in Hw.
      rewrite lookup_insert_eq in Hw. injection Hw as <-. done.
    + destruct (k_suspended _ _ _ K _ Hy) as [Ha Hr]. split; [done |]. intros (w & Hw & Hst).
      apply Hr. exists w. simpl in Hw. by rewrite lookup_insert_ne in Hw.
  - intros y w. rewrite lookup_insert_Some, Hmutex. intros [[<- <-] | [Hne Hw]].
    + by rewrite decide_True.
    + rewrite decide_False by done. by apply (k_wait_mutex _ _ _ K).
Qed.

Lemma set_thread_step (P : State * ghost -> Prop) : P (s', g') -> step_to t ℓ' (s, g) s' P.
Proof.
  exists g'. split_and!; [apply set_thread_inv | apply set_thread_guarantee |
    apply set_thread_knows | done].
Qed.
End thread_update.

(** ** Updates of a lock word *)

Lemma word_ok_ext s s' o w :
  threads s' = threads s -> monitors s' = monitors s -> word_ok s o w -> word_ok s' o w.
Proof. intros Et Em. destruct 1; econstructor; rewrite ?Et, ?Em; eauto. Qed.

Lemma count_set_word s o w t o1 :
  count (with_lock_words (<[o := w]> (lock_words s)) s) t o1 =
    if decide (o1 = o) then view_count s t (view_of w) else count s t o1.
Proof.
  unfold count. simpl. case_decide; [subst; by rewrite lookup_insert_eq |].
  by rewrite lookup_insert_ne.
Qed.

Lemma lock_view_set_word s o w o1 :
  lock_view (with_lock_words (<[o := w]> (lock_words s)) s) o1 =
    if decide (o1 = o) then Some (view_of w) else lock_view s o1.
Proof.
  unfold lock_view. simpl. case_decide; [subst; by rewrite lookup_insert_eq |].
  by rewrite lookup_insert_ne.
Qed.

Lemma hash_set_word s o w o1 :
  hash_of (with_lock_words (<[o := w]> (lock_words s)) s) o1 =
    if decide (o1 = o) then view_hash_code s (view_of w) else hash_of s o1.
Proof.
  unfold hash_of. simpl. case_decide; [subst; by rewrite lookup_insert_eq |].
  by rewrite lookup_insert_ne.
Qed.

Section word_update.
Context (t : tid) (ℓ : local_state) (s : State) (g : ghost).
Context (I : Inv (s, g)) (K : knows t ℓ (s, g)).
Context (o w w' : Z) (Hw : lock_words s !! o = Some w).

Record word_step : Prop := {
  ws_runs : runnable s t;
  ws_ok : word_ok s o w';
  ws_count u : u <> t -> view_count s u (view_of w') = view_count s u (view_of w);
  ws_held : held (l_events ℓ) o <= view_count s t (view_of w');
  ws_hash : view_hash_code s (view_of w) <> 0 ->
    view_hash_code s (view_of w') = view_hash_code s (view_of w);
  ws_thin u c : u <> t -> runnable s u -> view_of w <> VThin u c;
  ws_fat m : view_of w <> VFat m;
  ws_fresh m : view_of w' = VFat m -> fresh g m = Some t;
}.

Context (WS : word_step).

Let s' := with_lock_words (<[o := w']> (lock_words s)) s.

Lemma set_word_count u o1 : u <> t -> count s' u o1 = count s u o1.
Proof.
  intros Hu. unfold s'. rewrite count_set_word. case_decide; [subst | done].
  rewrite (ws_count WS) by done. unfold count. by rewrite Hw.
Qed.

Lemma set_word_hash o1 : hash_of s o1 <> 0 -> hash_of s' o1 = hash_of s o1.
Proof.
  unfold s'. rewrite hash_set_word. case_decide; [subst | done].
  unfold hash_of. rewrite Hw. apply (ws_hash WS).
Qed.

Lemma set_word_installed o1 m : installed s o1 m -> installed s' o1 m.
Proof.
  unfold installed, s'. rewrite lock_view_set_word. intros Hi. case_decide; [subst | done].
  unfold lock_view in Hi. rewrite Hw in Hi. injection Hi as Hi. by apply (ws_fat WS) in Hi.
Qed.

Lemma set_word_inv : Inv (s', g).
Proof.
  split; simpl; try apply I.
  - intros o1 w1. rewrite lookup_insert_Some. intros [[<- <-] | [_ Hw1]].
    + by apply (word_ok_ext s), (ws_ok WS).
    + by apply (word_ok_ext s), (inv_words _ I).
  - intros m v Hv. destruct (inv_monitors _ I _ _ Hv). by split.
  - intros m p Hp. destruct (inv_waiting _ I _ _ Hp) as [o1 Ho1]. exists o1.
    by apply set_word_installed.
  - intros u o1. destruct (decide (u = t)) as [-> | Hu].
    + unfold s'. rewrite count_set_word. change (events _ t) with (events s t).
      case_decide; [subst | apply (inv_held _ I)].
      pose proof (k_events _ _ _ K) as E. simpl in E. rewrite E. apply (ws_held WS).
    + rewrite set_word_count by done. apply (inv_held _ I).
  - intros u o1 h e He. destruct (inv_hashes _ I _ _ _ _ He) as [Hh Heq].
    split; [done |]. rewrite set_word_hash; [done |]. by simpl in Heq; rewrite Heq.
  - intros m v o1 Hv Hf Ho. by apply set_word_installed, (inv_obj _ I m v).
Qed.

Lemma set_word_guarantee : guarantee t (s, g) (s', g).
Proof.
  intros u Hu. split; simpl; try done; try (intros; eauto; fail).
  - intros o1. by apply set_word_count.
  - intros m v Hv Hl. exists v. by repeat split.
  - intros o1 c Hr. unfold s'. rewrite lock_view_set_word. case_decide; [subst | done].
    unfold lock_view. simpl. rewrite Hw. intros [= Hi]. by apply (ws_thin WS) in Hi.
  - intros o1 x c Hr Hs Hnr. unfold s'. rewrite lock_view_set_word. case_decide; [subst | by left].
    unfold lock_view. simpl. rewrite Hw. intros [= Hx]. destruct (decide (x = t)) as [-> | Hxt].
    { by destruct Hnr; apply (ws_runs WS). }
    pose proof (ws_count WS x Hxt) as Hc. rewrite Hx in Hc. simpl in Hc.
    pose proof (word_ok_view _ _ _ _ I (inv_words _ I _ _ Hw)) as Hv. rewrite Hx in Hv.
    rewrite bool_decide_true in Hc by done.
    destruct (view_of w') as [| y d | m | |]; simpl in Hc; try lia; [| by right; exists m].
    case_bool_decide; [subst; left; do 2 f_equal; lia | lia].
  - intros o1 m _. apply set_word_installed.
  - intros He. exfalso. pose proof (inv_exclusive _ I _ He) as Hsh. simpl in Hsh.
    pose proof (inv_runnable _ I _ (ws_runs WS)) as Hr. simpl in Hr. set_solver.
  - intros m v Hv Hf Hi. split; [done |]. intros o1. unfold installed, s'. rewrite lock_view_set_word.
    case_decide; [| apply Hi]. intros [= E]. apply (ws_fresh WS) in E. simpl in Hf. congruence.
  - apply set_word_hash.
  - intros o1 Ho1. rewrite lookup_insert_is_Some'. by right.
Qed.

Lemma set_word_step c (P : State * ghost -> Prop) :
  (forall o1, c o1 = if decide (o1 = o) then view_count s t (view_of w') else l_count ℓ o1) ->
  P (s', g) -> step_to t (set_count c ℓ) (s, g) s' P.
Proof.
  intros Hc HP. exists g. split_and!; [apply set_word_inv | apply set_word_guarantee | | done].
  split; simpl; try apply K.
  intros o1. unfold s'. rewrite count_set_word, Hc. case_decide; [done | apply (k_count _ _ _ K)].
Qed.
End word_update.

(** ** The life of a monitor *)

Lemma guarantee_trans t σ1 σ2 σ3 : guarantee t σ1 σ2 -> guarantee t σ2 σ3 -> guarantee t σ1 σ3.
Proof. intros H1 H2 u Hu. etransitivity; [by apply H1 | by apply H2]. Qed.

Lemma step_to_trans t ℓ1 ℓ2 σ s1 s2 P :
  step_to t ℓ1 σ s1 (fun σ1 => step_to t ℓ2 σ1 s2 P) -> step_to t ℓ2 σ s2 P.
Proof.
  intros (g1 & I1 & G1 & K1 & g2 & I2 & G2 & K2 & HP). exists g2.
  split_and!; [done | by eapply guarantee_trans | done..].
Qed.

Lemma step_to_mono t ℓ σ s (P Q : State * ghost -> Prop) :
  step_to t ℓ σ s P -> (forall g, Inv (s, g) -> guarantee t σ (s, g) -> knows t ℓ (s, g) ->
    P (s, g) -> Q (s, g)) -> step_to t ℓ σ s Q.
Proof. intros (g & I & G & K & HP) H. exists g. auto. Qed.

Lemma unused_id s g m :
  Inv (s, g) -> monitors s !! m = None ->
  (forall o, ~ installed s o m) /\ waiters g m = ∅ /\ chain g m = [] /\ fresh g m = None.
Proof.
  intros I Hm.
  assert (Hni : forall o, ~ installed s o m).
  { intros o Ho. destruct (installed_monitor _ _ _ _ I Ho) as (_ & _ & v & Hv & _). congruence. }
  assert (HW : waiters g m = ∅).
  { apply set_eq. intros p. split; [| set_solver]. intros Hp.
    destruct (inv_waiting _ I _ _ Hp) as [o Ho]. by apply Hni in Ho. }
  split_and!; [done.. | |].
  - destruct (chain g m) as [| u l] eqn:E; [done |].
    pose proof (inv_chain_waiters _ I m u) as Hu. simpl in Hu. rewrite E, HW in Hu. set_solver.
  - destruct (fresh g m) as [u |] eqn:E; [| done].
    destruct (inv_fresh _ I _ _ E) as [v Hv]. simpl in Hv. congruence.
Qed.

Section life.
Context (t : tid) (ℓ : local_state) (s : State) (g : ghost).
Context (I : Inv (s, g)) (K : knows t ℓ (s, g)) (m : Z).

(** [CreateMonitor]. *)
Lemma create_monitor_step v (P : State * ghost -> Prop) :
  let s' := with_monitors (<[m := v]> (monitors s)) s in
  let g' := MkGhost (suspenders g) (waiters g) (chain g) (<[m := Some t]> (fresh g)) in
  monitors s !! m = None -> l_fresh ℓ = None ->
  monitor_ok s m v -> num_waiters_ v = 0 -> wait_set_ v = None -> monitor_lock_ v = None ->
  P (s', g') -> step_to t (set_fresh (Some m) ℓ) (s, g) s' P.
Proof.
  intros s' g' Hm Hl Hok Hnum Hset Hlock HP.
  destruct (unused_id _ _ _ I Hm) as (Hni & HW & Hch & Hf).
  assert (Hcount : forall u o, count s' u o = count s u o).
  { intros. unfold s'. rewrite count_set_monitor. case_decide as Hi; [by apply Hni in Hi | done]. }
  assert (Hhash : forall o, hash_of s' o = hash_of s o).
  { intros. unfold s'. rewrite hash_set_monitor. case_decide as Hi; [by apply Hni in Hi | done]. }
  assert (Hins : forall m1 v1, monitors s !! m1 = Some v1 -> m1 <> m) by congruence.
  exists g'. split_and!; [| | | done].
  - split; simpl; try apply I.
    + intros o w Hw. destruct (inv_words _ I _ _ Hw) as [| | m1 v1 |]; try by constructor.
      eapply ok_fat; [done | | done]. simpl. by rewrite lookup_insert_ne by (symmetry; eauto).
    + intros m1 v1. rewrite lookup_insert_Some. intros [[<- <-] | [_ Hv1]].
      * destruct Hok. by split.
      * destruct (inv_monitors _ I _ _ Hv1). by split.
    + intros m1 v1. rewrite lookup_insert_Some. intros [[<- <-] | [_ Hv1]].
      * by rewrite HW, Hnum.
      * by apply (inv_waiters _ I).
    + intros u o. rewrite Hcount. apply (inv_held _ I).
    + intros u o h e He. rewrite Hhash. by apply (inv_hashes _ I) in He.
    + intros m1 v1. rewrite lookup_insert_Some. intros [[<- <-] | [_ Hv1]].
      * by rewrite Hset, Hch.
      * by apply (inv_chain _ I).
    + intros m1 Hm1. destruct (inv_list _ I _ Hm1) as [[v1 Hv1] Hf1]. simpl in Hv1.
      assert (m1 <> m) by eauto. rewrite lookup_insert_ne, fn_insert_cases, decide_False by done. eauto.
    + intros m1 u. rewrite fn_insert_cases, lookup_insert_is_Some'. case_decide; [by left |].
      intros Hf1. right. eapply (inv_fresh _ I), Hf1.
    + intros m1 v1 o. rewrite fn_insert_cases, lookup_insert_Some. intros [[<- <-] | [Hne Hv1]].
      * by rewrite decide_True.
      * rewrite decide_False by done. by apply (inv_obj _ I m1 v1).
    + intros m1 v1 u. rewrite lookup_insert_Some. intros [[<- <-] | [_ Hv1]] Hl1; [congruence |].
      by eapply (inv_mutex _ I).
  - intros u Hu. split; simpl; try done; try (intros; eauto; fail).
    + intros m1. rewrite fn_insert_cases. case_decide; [subst; rewrite Hf; intuition congruence | done].
    + intros m1 v1 Hv1 Hl1. exists v1. rewrite lookup_insert_ne by (symmetry; eauto).
      split; [done | by repeat split].
    + intros m1 v1. rewrite lookup_insert_Some. intros [[<- <-] | [_ Hv1]] Hl1; [congruence |].
      by exists v1.
    + intros m1 v1 Hv1 Hf1 Hi. by rewrite lookup_insert_ne by (symmetry; eauto).
  - split; simpl; try apply K.
    + intros o. rewrite Hcount. apply (k_count _ _ _ K).
    + intros m1. rewrite fn_insert_cases. case_decide as E; [subst; intuition congruence |].
      pose proof (k_fresh _ _ _ K m1) as Hk. simpl in Hk. rewrite Hk, Hl. intuition congruence.
    + intros m1 v1. rewrite lookup_insert_Some. intros [[<- <-] | [_ Hv1]] Hl1; [congruence |].
      by eapply (k_mutex _ _ _ K).
    + intros m1 Hl1. destruct (k_holds _ _ _ K _ Hl1) as (v1 & Hv1 & Hl2). exists v1.
      by rewrite lookup_insert_ne by (symmetry; eauto).
Qed.

(** [MonitorPool::ReleaseMonitor], of a monitor that is in no object: one that could not
    be installed, or one that has been deflated. *)
Lemma release_monitor_step v l fr (P : State * ghost -> Prop) :
  let s' := with_list l (with_monitors (delete m (monitors s)) s) in
  let g' := MkGhost (suspenders g) (waiters g) (chain g) (<[m := None]> (fresh g)) in
  monitors s !! m = Some v -> monitor_lock_ v = None -> (forall o, ~ installed s o m) ->
  fresh g m = None \/ fresh g m = Some t -> l = list_ s \/ mutator_exclusive s = Some t ->
  NoDup l -> (forall x, x ∈ l <-> x ∈ list_ s /\ x <> m) ->
  (forall m1, fr = Some m1 <-> l_fresh ℓ = Some m1 /\ m1 <> m) ->
  P (s', g') -> step_to t (set_fresh fr ℓ) (s, g) s' P.
Proof.
  intros s' g' Hv Hlock Hni Hf Hex Hnd Hl Hfr HP.
  assert (Hview : forall o m1, lock_view s o = Some (VFat m1) -> m1 <> m)
    by (intros o m1 Ho ->; by eapply Hni).
  assert (Hcount : forall u o, count s' u o = count s u o).
  { intros u o. rewrite !count_view. change (lock_view s' o) with (lock_view s o).
    destruct (lock_view s o) as [[| | m1 | |] |] eqn:E; simpl; try done.
    by rewrite lookup_delete_ne by (symmetry; eauto). }
  assert (Hhash : forall o, hash_of s' o = hash_of s o).
  { intros o. rewrite !hash_view. change (lock_view s' o) with (lock_view s o).
    destruct (lock_view s o) as [[| | m1 | |] |] eqn:E; simpl; try done.
    by rewrite lookup_delete_ne by (symmetry; eauto). }
  exists g'. split_and!; [| | | done].
  - split; simpl; try apply I; try done.
    + intros o w Hw. pose proof (inv_words _ I _ _ Hw) as Hok. simpl in Hok.
      destruct Hok as [| | m1 v1 Hm1 Hv1 |]; try by constructor.
      eapply ok_fat; [done | | done]. simpl. rewrite lookup_delete_ne; [done |].
      symmetry. apply (Hview o). unfold lock_view. rewrite Hw. simpl. by rewrite view_fat.
    + intros m1 v1 [_ Hv1]%lookup_delete_Some. destruct (inv_monitors _ I _ _ Hv1). by split.
    + intros m1 v1 [_ Hv1]%lookup_delete_Some. by apply (inv_waiters _ I).
    + intros u o. rewrite Hcount. apply (inv_held _ I).
    + intros u o h e He. rewrite Hhash. by apply (inv_hashes _ I) in He.
    + intros m1 v1 [_ Hv1]%lookup_delete_Some. by apply (inv_chain _ I).
    + intros m1 [Hm1 Hne]%Hl. rewrite lookup_delete_ne, fn_insert_cases, decide_False by done.
      by apply (inv_list _ I).
    + intros m1 u. rewrite fn_insert_cases. case_decide; [done |].
      rewrite lookup_delete_ne by done. apply (inv_fresh _ I).
    + intros m1 v1 o [Hne Hv1]%lookup_delete_Some. rewrite fn_insert_cases, decide_False by done.
      by apply (inv_obj _ I m1 v1).
    + intros m1 v1 u [_ Hv1]%lookup_delete_Some. by apply (inv_mutex _ I).
  - intros u Hu. split; simpl; try done; try (intros; eauto; fail).
    + intros m1. rewrite fn_insert_cases. case_decide; [subst; intuition congruence | done].
    + intros m1 v1 Hv1 Hl1. exists v1. rewrite lookup_delete_ne by congruence.
      split; [done | by repeat split].
    + intros m1 v1 [_ Hv1]%lookup_delete_Some. eauto.
    + intros He. destruct Hex; [done | congruence].
    + intros m1 v1 Hv1 Hf1 Hi. split; [| done]. rewrite lookup_delete_ne; [done |].
      intros <-. intuition congruence.
  - split; simpl; try apply K.
    + intros o. rewrite Hcount. apply (k_count _ _ _ K).
    + intros m1. rewrite fn_insert_cases, Hfr. case_decide as E; [subst; intuition congruence |].
      pose proof (k_fresh _ _ _ K m1) as Hk. simpl in Hk. intuition congruence.
    + intros m1 v1 [_ Hv1]%lookup_delete_Some. by apply (k_mutex _ _ _ K).
    + intros m1 Hl1. destruct (k_holds _ _ _ K _ Hl1) as (v1 & Hv1 & Hl2). exists v1.
      by rewrite lookup_delete_ne by (simpl in Hv1; congruence).
Qed.

(** [MonitorList::Add]. *)
Lemma add_monitor_step (P : State * ghost -> Prop) :
  let s' := with_list (m :: list_ s) s in
  let g' := MkGhost (suspenders g) (waiters g) (chain g) (<[m := None]> (fresh g)) in
  l_fresh ℓ = Some m -> l_state ℓ = kRunnable -> (exists o, installed s o m) ->
  P (s', g') -> step_to t (set_fresh None ℓ) (s, g) s' P.
Proof.
  intros s' g' Hl Hst [o Hi] HP. assert (Hf : fresh g m = Some t) by by apply (k_fresh _ _ _ K).
  assert (m ∉ list_ s) as Hnl by (intros Hm; apply (inv_list _ I) in Hm as [_ ?]; simpl in *; congruence).
  exists g'. split_and!; [| | | done].
  - split; simpl; try apply I.
    + intros o1 w Hw. by apply (word_ok_ext s), (inv_words _ I).
    + intros m1 v1 Hv1. destruct (inv_monitors _ I _ _ Hv1). by split.
    + intros m1. rewrite elem_of_cons, fn_insert_cases.
      case_decide as E; [subst; intros _; split; [by eapply (inv_fresh _ I) | done] |].
      intros [? | Hm1]; [done | by apply (inv_list _ I)].
    + constructor; [done | apply (inv_list_nodup _ I)].
    + intros m1 u. rewrite fn_insert_cases. case_decide; [done | apply (inv_fresh _ I)].
    + intros m1 v1 o1 Hv1. rewrite fn_insert_cases. case_decide; [subst | by apply (inv_obj _ I m1 v1)].
      destruct (installed_monitor _ _ _ _ I Hi) as (_ & _ & w & Hw & Ho). intros _ Ho1.
      by assert (o1 = o) as -> by congruence.
  - intros u Hu. split; simpl; try done; try (intros; eauto; fail).
    + intros m1. rewrite fn_insert_cases. case_decide; [subst; intuition congruence | done].
    + intros m1 v1 Hv1 Hl1. exists v1. by repeat split.
    + intros He. pose proof (inv_exclusive _ I _ He) as Hsh. simpl in Hsh.
      destruct (k_thread _ _ _ K) as (th & Hth & Hst' & _).
      assert (runnable s t) as Hr by (exists th; by rewrite Hst').
      apply (inv_runnable _ I) in Hr. simpl in Hr. set_solver.
  - split; simpl; try apply K.
    intros m1. rewrite fn_insert_cases. pose proof (k_fresh _ _ _ K m1) as Hk. simpl in Hk.
    case_decide; [done |]. rewrite Hk, Hl. intuition congruence.
Qed.
End life.

(** ** The mutator lock, the seed and the history *)

Section other_updates.
Context (t : tid) (ℓ : local_state) (s : State) (g : ghost).
Context (I : Inv (s, g)) (K : knows t ℓ (s, g)) (P : State * ghost -> Prop).

Lemma no_step : P (s, g) -> step_to t ℓ (s, g) s P.
Proof. exists g. split_and!; [done | by intros u Hu | done..]. Qed.

Lemma set_shared_step S :
  let s' := with_mutator_shared S s in
  (forall u, runnable s u -> u ∈ S) -> (forall u, mutator_exclusive s = Some u -> S = ∅) ->
  (forall u, u <> t -> u ∈ mutator_shared s -> u ∈ S) ->
  P (s', g) -> step_to t ℓ (s, g) s' P.
Proof.
  intros s' Hr He Hkeep HP. exists g. split_and!; [| | | done].
  - split; simpl; try apply I; try done.
    + intros o w Hw. by apply (word_ok_ext s), (inv_words _ I).
    + intros m v Hv. destruct (inv_monitors _ I _ _ Hv). by split.
  - intros u Hu. split; simpl; try done; try (intros; eauto; fail).
    intros m v Hv Hl. exists v. by repeat split.
  - split; simpl; apply K.
Qed.

Lemma set_exclusive_step e b :
  let s' := with_mutator_exclusive e s in
  (forall u, u <> t -> e = Some u <-> mutator_exclusive s = Some u) ->
  (forall u, e = Some u -> mutator_shared s = ∅) -> (e = Some t <-> b = true) ->
  (l_mutex ℓ = None) -> P (s', g) -> step_to t (set_exclusive b ℓ) (s, g) s' P.
Proof.
  intros s' Hu He Hb Hl HP. exists g. split_and!; [| | | done].
  - split; simpl; try apply I; try done.
    + intros o w Hw. by apply (word_ok_ext s), (inv_words _ I).
    + intros m v Hv. destruct (inv_monitors _ I _ _ Hv). by split.
    + intros m v u Hv Hlock. destruct (inv_mutex _ I _ _ _ Hv Hlock) as [? | [? | Hx]]; [by left | by right; left |].
      right; right. destruct (decide (u = t)) as [-> |]; [| by apply Hu].
      pose proof (k_mutex _ _ _ K _ _ Hv Hlock) as Hl'. congruence.
  - intros u Hut. split; simpl; try done; try (intros; eauto; fail).
    intros m v Hv Hlock. exists v. by repeat split.
  - split; simpl; try apply K. done.
Qed.

Lemma set_seed_step x :
  let s' := with_seed x s in P (s', g) -> step_to t ℓ (s, g) s' P.
Proof.
  intros s' HP. exists g. split_and!; [| | | done].
  - split; simpl; try apply I; try done.
    + intros o w Hw. by apply (word_ok_ext s), (inv_words _ I).
    + intros m v Hv. destruct (inv_monitors _ I _ _ Hv). by split.
  - intros u Hu. split; simpl; try done; try (intros; eauto; fail).
    intros m v Hv Hl. exists v. by repeat split.
  - split; simpl; apply K.
Qed.

Lemma record_event_step e :
  let s' := with_history (<[t := e :: events s t]> (history s)) s in
  (forall o, held (e :: l_events ℓ) o <= l_count ℓ o) -> results_ok (e :: l_events ℓ) ->
  (forall o h x, e = Return (HashOf o) (Word h) x -> h <> 0 /\ hash_of s o = h) ->
  P (s', g) -> step_to t (set_events (e :: l_events ℓ) ℓ) (s, g) s' P.
Proof.
  intros s' Hheld Hres Hhash HP.
  pose proof (k_events _ _ _ K) as Ke. simpl in Ke.
  assert (He : forall u, events s' u = if decide (u = t) then e :: l_events ℓ else events s u).
  { intros u. unfold events, s'. simpl. case_decide; [subst; rewrite lookup_insert_eq; simpl; by rewrite Ke |].
    by rewrite lookup_insert_ne. }
  exists g. split_and!; [| | | done].
  - split; try rewrite He; simpl; try apply I; try done.
    + intros o w Hw. by apply (word_ok_ext s), (inv_words _ I).
    + intros m v Hv. destruct (inv_monitors _ I _ _ Hv). by split.
    + intros u o. rewrite He. change (count s' u o) with (count s u o). case_decide; [subst |].
      * pose proof (k_count _ _ _ K o) as Hk. simpl in Hk. rewrite Hk. apply Hheld.
      * apply (inv_held _ I).
    + intros u o h x. rewrite He. change (hash_of s' o) with (hash_of s o).
      case_decide; [subst | apply (inv_hashes _ I)]. rewrite elem_of_cons.
      intros [Hx | Hx]; [by eapply Hhash | rewrite <- Ke in Hx; by eapply (inv_hashes _ I)].
    + intros u. rewrite He. case_decide; [done | apply (inv_results _ I)].
  - intros u Hu. split; simpl; try done; try (intros; eauto; fail).
    + fold s'. by rewrite He, decide_False.
    + intros m v Hv Hl. exists v. by repeat split.
  - split; simpl; try apply K. fold s'. by rewrite He, decide_True.
Qed.
End other_updates.

(** ** Updates of a wait set *)

Lemma linked_ext ts ts' first l :
  (forall x, x ∈ l -> ts' !! x = ts !! x) -> linked ts first l -> linked ts' first l.
Proof.
  revert first. induction l as [| x l IH]; intros first Hext; [done |].
  intros [-> (th & Hth & Hl)]. split; [done |]. exists th. split.
  - rewrite Hext; [done |]. set_solver.
  - apply IH; [set_solver | done].
Qed.

Lemma linked_thread ts first l x : linked ts first l -> x ∈ l -> is_Some (ts !! x).
Proof.
  revert first. induction l as [| y l IH]; intros first; [set_solver |].
  intros [-> (th & Hth & Hl)] [-> | Hx]%elem_of_cons; [by exists th | by eapply IH].
Qed.

Section chain_update.
Context (t : tid) (ℓ : local_state) (s : State) (g : ghost).
Context (I : Inv (s, g)) (K : knows t ℓ (s, g)).
Context (m : Z) (v : Monitor) (Hv : monitors s !! m = Some v) (Hlock : monitor_lock_ v = Some t).
Context (ts : gmap tid Thread) (first : option tid) (l : list tid).

(** Only the links between the threads of the wait set change, and only [t] may enter. *)
Record chain_step : Prop := {
  cs_threads x th : threads s !! x = Some th -> exists n, ts !! x = Some (with_wait_next n th);
  cs_back x : is_Some (ts !! x) -> is_Some (threads s !! x);
  cs_outside x : x ∉ chain g m -> x ∉ l -> ts !! x = threads s !! x;
  cs_linked : linked ts first l;
  cs_nodup : NoDup l;
  cs_waiters x : x ∈ l -> (x, false) ∈ waiters g m;
  cs_once x m' : x ∈ l -> x ∈ chain g m' -> m' = m;
  cs_others x : x <> t -> x ∈ l -> x ∈ chain g m;
  cs_left x th : x ∈ chain g m -> x ∉ l -> ts !! x = Some th -> wait_next th = None;
  cs_public u : u <> t -> fresh g m = Some u -> exists o, installed s o m;
}.

Context (CS : chain_step).

Let v' := with_wait_set first v.
Let s' := with_threads ts (with_monitors (<[m := v']> (monitors s)) s).
Let g' := MkGhost (suspenders g) (waiters g) (<[m := l]> (chain g)) (fresh g).

Lemma set_chain_back x th' : ts !! x = Some th' ->
  exists th n, threads s !! x = Some th /\ th' = with_wait_next n th.
Proof.
  intros Hx. destruct (cs_back CS x) as [th Hth]; [by exists th' |].
  destruct (cs_threads CS _ _ Hth) as [n Hn]. exists th, n. split; [done |]. congruence.
Qed.

Lemma set_chain_exists x : is_Some (threads s !! x) -> is_Some (ts !! x).
Proof. intros [th Hth]. destruct (cs_threads CS _ _ Hth) as [n Hn]. by eexists. Qed.

Lemma set_chain_runnable x : runnable s' x <-> runnable s x.
Proof.
  split.
  - intros (th' & Hth' & Hst). destruct (set_chain_back _ _ Hth') as (th & n & Hth & ->).
    by exists th.
  - intros (th & Hth & Hst). destruct (cs_threads CS _ _ Hth) as [n Hn]. by eexists.
Qed.

Lemma set_chain_count u o : count s' u o = count s u o.
Proof.
  transitivity (count (with_monitors (<[m := v']> (monitors s)) s) u o); [done |].
  rewrite count_set_monitor. case_decide; [| done].
  by erewrite (count_installed s m v) by done.
Qed.

Lemma set_chain_hash o : hash_of s' o = hash_of s o.
Proof.
  transitivity (hash_of (with_monitors (<[m := v']> (monitors s)) s) o); [done |].
  rewrite hash_set_monitor. case_decide; [| done].
  by erewrite (hash_installed s m v) by done.
Qed.

Lemma set_chain_linked m1 v1 :
  m1 <> m -> monitors s !! m1 = Some v1 -> linked ts (wait_set_ v1) (chain g m1).
Proof.
  intros Hne Hv1. apply linked_ext with (threads s); [| by apply (inv_chain _ I m1 v1)].
  intros x Hx. apply (cs_outside CS).
  - intros Hx'. by apply Hne, (inv_chain_once _ I m1 m x).
  - intros Hx'. by apply Hne, (cs_once CS x m1).
Qed.

Lemma set_chain_inv : Inv (s', g').
Proof.
  split; simpl; try apply I.
  - intros x th' Hx. destruct (set_chain_back _ _ Hx) as (th & n & Hth & _). by apply (inv_ids _ I x th).
  - intros o w Hw. pose proof (inv_words _ I _ _ Hw) as Hok. simpl in Hok.
    destruct Hok as [| | m1 v1 Hm1 Hv1 Ho |]; try (constructor; eauto using set_chain_exists; fail).
    destruct (decide (m1 = m)) as [-> |].
    + apply (ok_fat _ _ m v'); [done | by simpl; rewrite lookup_insert_eq |]. simpl. congruence.
    + apply (ok_fat _ _ m1 v1); [done | by simpl; rewrite lookup_insert_ne | done].
  - intros m1 v1. rewrite lookup_insert_Some. intros [[<- <-] | [_ Hv1]].
    + destruct (inv_monitors _ I _ _ Hv). split; eauto using set_chain_exists.
    + destruct (inv_monitors _ I _ _ Hv1). split; eauto using set_chain_exists.
  - intros m1 v1. rewrite lookup_insert_Some. intros [[<- <-] | [_ Hv1]].
    + by apply (inv_waiters _ I m v).
    + by apply (inv_waiters _ I m1 v1).
  - intros x th' Hx. destruct (set_chain_back _ _ Hx) as (th & n & Hth & ->).
    by apply (inv_suspend _ I x th).
  - intros x y Hx. by apply set_chain_exists, (inv_suspenders _ I x y).
  - intros x Hx. by apply (inv_runnable _ I), set_chain_runnable.
  - intros u o. rewrite set_chain_count. apply (inv_held _ I).
  - intros u o h e He. rewrite set_chain_hash. by apply (inv_hashes _ I) in He.
  - intros m1 v1. rewrite lookup_insert_Some, fn_insert_cases. intros [[<- <-] | [Hne Hv1]].
    + rewrite decide_True by done. apply (cs_linked CS).
    + rewrite decide_False by done. by apply set_chain_linked.
  - intros m1 x. rewrite fn_insert_cases. case_decide; [subst; apply (cs_waiters CS) |].
    apply (inv_chain_waiters _ I).
  - intros m1 m2 x. rewrite !fn_insert_cases. repeat case_decide; subst; try done.
    + intros H1 H2. symmetry. by eapply (cs_once CS).
    + intros H1 H2. by eapply (cs_once CS).
    + apply (inv_chain_once _ I).
  - intros m1. rewrite fn_insert_cases. case_decide; [apply (cs_nodup CS) | apply (inv_chain_nodup _ I)].
  - intros x th' Hx Hn. destruct (decide (x ∈ l)) as [Hl | Hl].
    { exists m. by rewrite fn_lookup_insert. }
    destruct (decide (x ∈ chain g m)) as [Hc | Hc]; [by destruct Hn; eapply (cs_left CS) |].
    rewrite (cs_outside CS) in Hx by done. destruct (inv_wait_next _ I _ _ Hx Hn) as [m1 Hm1].
    exists m1. rewrite fn_lookup_insert_ne; [done |]. by intros <-.
  - intros m1 Hm1. rewrite lookup_insert_is_Some'. destruct (inv_list _ I _ Hm1) as [? ?]. auto.
  - intros m1 u Hf. rewrite lookup_insert_is_Some'. right. by eapply (inv_fresh _ I).
  - intros m1 v1 o. rewrite lookup_insert_Some. intros [[<- <-] | [_ Hv1]].
    + by apply (inv_obj _ I m v).
    + by apply (inv_obj _ I m1 v1).
  - intros m1 v1 u. rewrite lookup_insert_Some, set_chain_runnable. intros [[<- <-] | [_ Hv1]].
    + by apply (inv_mutex _ I m v).
    + by apply (inv_mutex _ I m1 v1).
Qed.

Lemma set_chain_guarantee : guarantee t (s, g) (s', g').
Proof.
  intros u Hu. split; simpl; try done; try (intros; eauto using set_chain_exists; fail).
  - intros th Hth. destruct (cs_threads CS _ _ Hth) as [n Hn]. by exists (with_wait_next n th).
  - intros o. apply set_chain_count.
  - intros m1. rewrite fn_insert_cases. case_decide; [subst; by apply (cs_others CS) | done].
  - intros m1 v1 Hv1 Hl1. destruct (decide (m1 = m)) as [-> |]; [congruence |].
    exists v1. rewrite lookup_insert_ne by done. split; [done | by repeat split].
  - intros m1 v1. rewrite lookup_insert_Some. intros [[<- <-] | [_ Hv1]] Hl1; [| by exists v1].
    simpl in Hl1. congruence.
  - intros x th' Hx. destruct (set_chain_back _ _ Hx) as (th & n & Hth & ->). by exists th.
  - intros m1 v1 Hv1 Hf Hi. destruct (decide (m1 = m)) as [-> |].
    + destruct (cs_public CS u Hu Hf) as [o Ho]. by apply Hi in Ho.
    + by rewrite lookup_insert_ne.
  - intros o _. apply set_chain_hash.
  - intros x Hs Hst. by rewrite set_chain_runnable.
Qed.

Lemma set_chain_step c (P : State * ghost -> Prop) :
  (forall m1, t ∈ (if decide (m1 = m) then l else chain g m1) -> c = Some m1) ->
  P (s', g') -> step_to t (set_chain c ℓ) (s, g) s' P.
Proof.
  intros Hc HP. exists g'. split_and!; [apply set_chain_inv | apply set_chain_guarantee | | done].
  split; simpl; try apply K.
  - destruct (k_thread _ _ _ K) as (th & Hth & ?). destruct (cs_threads CS _ _ Hth) as [n Hn].
    by exists (with_wait_next n th).
  - intros o. rewrite set_chain_count. apply (k_count _ _ _ K).
  - intros u Hu. destruct (k_suspended _ _ _ K u Hu) as (Hs & Hst). split; [done |].
    by rewrite set_chain_runnable.
  - intros m1. rewrite fn_insert_cases. apply Hc.
  - intros m1 v1. rewrite lookup_insert_Some. intros [[<- <-] | [_ Hv1]].
    + by apply (k_mutex _ _ _ K m v).
    + by apply (k_mutex _ _ _ K m1 v1).
  - intros m1 Hl1. destruct (k_holds _ _ _ K _ Hl1) as (v1 & Hv1 & Hl2). simpl in Hv1.
    destruct (decide (m1 = m)) as [-> |]; [exists v'; by rewrite lookup_insert_eq |].
    exists v1. by rewrite lookup_insert_ne.
  - intros x th' Hx. destruct (set_chain_back _ _ Hx) as (th & n & Hth & ->).
    by apply (k_wait_mutex _ _ _ K x th).
Qed.
End chain_update.

(** ** Deflation *)

Section deflate_update.
Context (t : tid) (ℓ : local_state) (s : State) (g : ghost).
Context (I : Inv (s, g)) (K : knows t ℓ (s, g)).
Context (o m w : Z) (v : Monitor) (Hv : monitors s !! m = Some v) (Hi : installed s o m).
Context (Hlock : monitor_lock_ v = Some t) (Hexcl : mutator_exclusive s = Some t).
Context (HW : waiters g m = ∅) (Hok : word_ok s o w) (Hnf : forall m', view_of w <> VFat m').
Context (Hc : forall u, view_count s u (view_of w) = monitor_count u v).
Context (Hh : view_hash_code s (view_of w) = hash_code_ v).

Let s1 := with_lock_words (<[o := w]> (lock_words s)) s.
Let s' := with_monitors (<[m := with_obj None v]> (monitors s)) s1.

Lemma deflate_view o1 : lock_view s' o1 = if decide (o1 = o) then Some (view_of w) else lock_view s o1.
Proof. apply (lock_view_set_word s). Qed.

Lemma deflate_not_installed o1 : ~ installed s' o1 m.
Proof.
  unfold installed. rewrite deflate_view. case_decide as E; [intros [= H]; by eapply Hnf |].
  intros H. apply E. by apply (installed_once s g o1 o m).
Qed.

Lemma deflate_installed o1 m1 : m1 <> m -> installed s o1 m1 -> installed s' o1 m1.
Proof.
  unfold installed. rewrite deflate_view. intros Hne H. case_decide; [subst | done].
  unfold installed in Hi. congruence.
Qed.

Lemma deflate_count u o1 : count s' u o1 = count s u o1.
Proof.
  transitivity (count s1 u o1).
  - unfold s'. rewrite (count_set_monitor s1). case_decide as E; [| done].
    by apply deflate_not_installed in E.
  - unfold s1. rewrite count_set_word. case_decide; [subst | done].
    by rewrite Hc, (count_installed s m v).
Qed.

Lemma deflate_hash o1 : hash_of s' o1 = hash_of s o1.
Proof.
  transitivity (hash_of s1 o1).
  - unfold s'. rewrite (hash_set_monitor s1). case_decide as E; [| done].
    by apply deflate_not_installed in E.
  - unfold s1. rewrite hash_set_word. case_decide; [subst | done].
    by rewrite Hh, (hash_installed s m v).
Qed.

Lemma deflate_nobody_runs u : ~ runnable s u.
Proof.
  intros Hr. apply (inv_runnable _ I) in Hr. pose proof (inv_exclusive _ I _ Hexcl) as E.
  simpl in *. set_solver.
Qed.

Lemma deflate_word_ok o1 w1 : word_ok s o1 w1 -> view_of w1 <> VFat m -> word_ok s' o1 w1.
Proof.
  destruct 1 as [| | m1 v1 Hm1 Hv1 |]; intros Hne; try by constructor.
  rewrite view_fat in Hne by done. apply (ok_fat _ _ m1 v1); [done | | done].
  simpl. rewrite lookup_insert_ne; congruence.
Qed.

Lemma deflate_inv : Inv (s', g).
Proof.
  split; simpl; try apply I.
  - intros o1 w1. rewrite lookup_insert_Some. intros [[<- <-] | [Hne Hw1]].
    + by apply deflate_word_ok.
    + apply deflate_word_ok; [by apply (inv_words _ I) |]. intros E. apply Hne.
      apply (installed_once s g o o1 m I Hi). unfold installed, lock_view. rewrite Hw1. simpl. by rewrite E.
  - intros m1 v1. rewrite lookup_insert_Some. intros [[<- <-] | [_ Hv1]].
    + destruct (inv_monitors _ I _ _ Hv). by split.
    + destruct (inv_monitors _ I _ _ Hv1). by split.
  - intros m1 v1. rewrite lookup_insert_Some. intros [[<- <-] | [_ Hv1]].
    + by apply (inv_waiters _ I m v).
    + by apply (inv_waiters _ I m1 v1).
  - intros m1 p Hp. destruct (inv_waiting _ I _ _ Hp) as [o1 Ho1]. exists o1.
    apply deflate_installed; [| done]. intros ->. simpl in Hp. set_solver.
  - intros u o1. rewrite deflate_count. apply (inv_held _ I).
  - intros u o1 h e He. rewrite deflate_hash. by apply (inv_hashes _ I) in He.
  - intros m1 v1. rewrite lookup_insert_Some. intros [[<- <-] | [_ Hv1]].
    + by apply (inv_chain _ I m v).
    + by apply (inv_chain _ I m1 v1).
  - intros m1 Hm1. rewrite lookup_insert_is_Some'. destruct (inv_list _ I _ Hm1) as [? ?]. auto.
  - intros m1 u Hf. rewrite lookup_insert_is_Some'. right. by eapply (inv_fresh _ I).
  - intros m1 v1 o1. rewrite lookup_insert_Some. intros [[<- <-] | [Hne Hv1]]; [done |].
    intros Hf Ho. by apply deflate_installed, (inv_obj _ I m1 v1).
  - intros m1 v1 u. rewrite lookup_insert_Some. intros [[<- <-] | [_ Hv1]].
    + by apply (inv_mutex _ I m v).
    + by apply (inv_mutex _ I m1 v1).
Qed.

Lemma deflate_guarantee : guarantee t (s, g) (s', g).
Proof.
  intros u Hu. split; simpl; try done; try (intros; eauto; fail).
  - intros o1. apply deflate_count.
  - intros m1 v1 Hv1 Hl1. destruct (decide (m1 = m)) as [-> |]; [congruence |].
    exists v1. rewrite lookup_insert_ne by done. split; [done | by repeat split].
  - intros m1 v1. rewrite lookup_insert_Some. intros [[<- <-] | [_ Hv1]] Hl1; [| by exists v1].
    simpl in Hl1. congruence.
  - intros o1 c Hr. by apply deflate_nobody_runs in Hr.
  - intros o1 x c Hr. by apply deflate_nobody_runs in Hr.
  - intros o1 m1 [Hr | [[b Hb] | He]] Ho1; [by apply deflate_nobody_runs in Hr | | congruence].
    apply deflate_installed; [| done]. intros ->. set_solver.
  - intros He. simpl in He. congruence.
  - intros m1 v1 Hv1 Hf Hi1. destruct (decide (m1 = m)) as [-> |]; [by apply Hi1 in Hi |].
    rewrite lookup_insert_ne by done. split; [done |]. intros o1. unfold installed.
    rewrite deflate_view. case_decide; [intros [= E]; by eapply Hnf | apply Hi1].
  - intros o1 _. apply deflate_hash.
  - intros o1 Ho1. rewrite lookup_insert_is_Some'. by right.
Qed.

Lemma deflate_step (P : State * ghost -> Prop) : P (s', g) -> step_to t ℓ (s, g) s' P.
Proof.
  intros HP. exists g. split_and!; [apply deflate_inv | apply deflate_guarantee | | done].
  split; simpl; try apply K.
  - intros o1. rewrite deflate_count. apply (k_count _ _ _ K).
  - intros m1 v1. rewrite lookup_insert_Some. intros [[<- <-] | [_ Hv1]].
    + by apply (k_mutex _ _ _ K m v).
    + by apply (k_mutex _ _ _ K m1 v1).
  - intros m1 Hl1. destruct (k_holds _ _ _ K _ Hl1) as (v1 & Hv1 & Hl2). simpl in Hv1.
    destruct (decide (m1 = m)) as [-> |]; [eexists; by rewrite lookup_insert_eq |].
    exists v1. by rewrite lookup_insert_ne.
Qed.
End deflate_update.
