(* ===== verification/MonitorLogic.v ===== *)
(** * Reasoning about programs that use monitors

    Triples of the programs of Monitor, in which the precondition is what the thread
    knows about itself and a fact about the state that the other threads leave alone. *)

From stdpp Require Import functions.
From S2P Require Import Prelude Concurrency LockWord Monitor MonitorInvariant MonitorSteps.

(** The one operation that may abort the runtime: leaving an object that is not held. *)
Definition excused (t : tid) (s : State) : Prop :=
  exists o h, events s t = Call (Exit o) :: h /\ depth h o <= 0.

Abbreviation assertion := (State * ghost -> Prop).

Definition stable (t : tid) (ℓ : local_state) (F : assertion) : Prop :=
  forall σ σ', rely t σ σ' -> Inv σ -> Inv σ' -> knows t ℓ σ -> F σ -> F σ'.

Definition triple {A} (t : tid) (ℓ : local_state) (F : assertion) (p : prog State A)
    (Q : A -> assertion) : Prop :=
  forall σ, Inv σ -> knows t ℓ σ -> F σ -> wp Inv rely excused t p Q σ.

Definition post (t : tid) (ℓ : local_state) (F : assertion) : assertion :=
  fun σ => knows t ℓ σ /\ F σ.

(** A fact about the lock words. *)
Definition words (φ : gmap Z Z -> Prop) : assertion := fun σ => φ (lock_words σ.1).

Definition is_fat (o m : Z) (ws : gmap Z Z) : Prop := view_of <$> ws !! o = Some (VFat m).
Definition is_thin (o : Z) (t : tid) (c : Z) (ws : gmap Z Z) : Prop := view_of <$> ws !! o = Some (VThin t c).
Definition is_object (o : Z) (ws : gmap Z Z) : Prop := is_Some (ws !! o).

(** ** Facts that last *)

(** The thread is in a position to use an installed monitor. *)
Definition access (ℓ : local_state) (m : Z) : Prop :=
  l_state ℓ = kRunnable \/ (exists b, (m, b) ∈ l_waits ℓ) \/ l_exclusive ℓ = true.

Lemma knows_runnable t ℓ σ : knows t ℓ σ -> l_state ℓ = kRunnable -> runnable σ.1 t.
Proof. intros K Hst. destruct (k_thread _ _ _ K) as (th & Hth & E & _). exists th. by rewrite E. Qed.

Lemma knows_access t ℓ σ m : knows t ℓ σ -> access ℓ m ->
  runnable σ.1 t \/ (exists b, (t, b) ∈ waiters σ.2 m) \/ mutator_exclusive σ.1 = Some t.
Proof.
  intros K [Hst | [[b Hb] | Hx]]; [left; by eapply knows_runnable | right; left | right; right].
  - exists b. by apply (k_waits _ _ _ K).
  - by apply (k_exclusive _ _ _ K).
Qed.

Lemma stable_pure t ℓ (φ : Prop) : stable t ℓ (fun _ => φ).
Proof. by intros σ σ'. Qed.

Lemma stable_and t ℓ F G : stable t ℓ F -> stable t ℓ G -> stable t ℓ (fun σ => F σ /\ G σ).
Proof.
  intros HF HG σ σ' R I I' K [HFσ HGσ]. split; [by eapply HF | by eapply HG].
Qed.

Lemma stable_fat t ℓ o m : access ℓ m -> stable t ℓ (words (is_fat o m)).
Proof. intros Ha σ σ' R I I' K. apply (r_fat _ _ _ R). by apply (knows_access _ _ _ _ K). Qed.

Lemma stable_thin t ℓ o c : l_state ℓ = kRunnable -> stable t ℓ (words (is_thin o t c)).
Proof. intros Ha σ σ' R I I' K. apply (r_thin _ _ _ R). by eapply knows_runnable. Qed.

Lemma stable_object t ℓ o : stable t ℓ (words (is_object o)).
Proof. intros σ σ' R I I' K. apply (r_objects _ _ _ R). Qed.

Lemma stable_private t ℓ m v : l_fresh ℓ = Some m ->
  stable t ℓ (fun σ => monitors σ.1 !! m = Some v /\ forall o, ~ installed σ.1 o m).
Proof.
  intros Hf σ σ' R I I' K [Hv Hni]. apply (r_private _ _ _ R); [done | | done].
  by apply (k_fresh _ _ _ K).
Qed.

Lemma stable_thread t ℓ u : stable t ℓ (fun σ => is_Some (threads σ.1 !! u)).
Proof. intros σ σ' R I I' K. apply (r_threads _ _ _ R). Qed.

Lemma stable_hash t ℓ o h : h <> 0 -> stable t ℓ (fun σ => hash_of σ.1 o = h).
Proof. intros Hh σ σ' R I I' K Ho. rewrite (r_hash _ _ _ R); congruence. Qed.

Lemma stable_shared t ℓ : stable t ℓ (fun σ => t ∈ mutator_shared σ.1).
Proof. intros σ σ' R I I' K. apply (r_shared _ _ _ R). Qed.

Lemma stable_list t ℓ l : l_exclusive ℓ = true -> stable t ℓ (fun σ => list_ σ.1 = l).
Proof. intros Hx σ σ' R I I' K Hl. rewrite (r_list _ _ _ R); [done |]. by apply (k_exclusive _ _ _ K). Qed.

Create HintDb stable.
#[export] Hint Resolve stable_pure stable_and stable_fat stable_thin
  stable_private stable_object stable_thread stable_hash stable_shared stable_list : stable.

(** ** Rules *)

Section rules.
Context {A : Type} (t : tid) (ℓ : local_state) (F : assertion).

Lemma triple_value (a : A) Q :
  stable t ℓ F -> (forall σ, Inv σ -> knows t ℓ σ -> F σ -> Q a σ) -> triple t ℓ F (Ret a) Q.
Proof. intros HF HQ σ I K Hσ σ' R I'. apply HQ; [done | by eapply knows_stable | by eapply HF]. Qed.

Lemma triple_chain {B} (p : prog State B) (q : B -> prog State A) R Q :
  triple t ℓ F p R -> (forall b σ, Inv σ -> R b σ -> wp Inv rely excused t (q b) Q σ) ->
  triple t ℓ F (p ≫= q) Q.
Proof.
  intros Hp Hq σ I K Hσ. apply wp_chain; [apply _ | | done]. eapply wp_weaken; [| by apply Hp]. eauto.
Qed.

(** After [p] the thread knows [ℓ' b]. *)
Lemma triple_then {B} (p : prog State B) (q : B -> prog State A) ℓ' F' Q :
  triple t ℓ F p (fun b => post t (ℓ' b) (F' b)) -> (forall b, triple t (ℓ' b) (F' b) (q b) Q) ->
  triple t ℓ F (p ≫= q) Q.
Proof. intros Hp Hq. eapply triple_chain; [exact Hp |]. intros b σ I [K Hσ]. by apply Hq. Qed.

Lemma triple_seq {B} (p : prog State B) (q : prog State A) ℓ' F' Q :
  triple t ℓ F p (fun _ => post t ℓ' F') -> triple t ℓ' F' q Q -> triple t ℓ F (_ ← p; q) Q.
Proof. intros Hp Hq. eapply triple_chain; [exact Hp |]. intros b σ I [K Hσ]. by apply Hq. Qed.

Lemma triple_mono (p : prog State A) Q Q' :
  triple t ℓ F p Q -> (forall a σ, Inv σ -> Q a σ -> Q' a σ) -> triple t ℓ F p Q'.
Proof. intros Hp HQ σ I K Hσ. eapply wp_weaken; [exact HQ | by apply Hp]. Qed.

Lemma triple_before (F' : assertion) (p : prog State A) Q :
  triple t ℓ F' p Q -> (forall σ, Inv σ -> knows t ℓ σ -> F σ -> F' σ) -> triple t ℓ F p Q.
Proof. intros Hp HF σ I K Hσ. apply Hp; auto. Qed.

Definition action_ok {B} (r : option (res (B * State))) (k : B -> prog State A) Q (s : State) (g : ghost) : Prop :=
  match r with
  | None => True
  | Some (Fault _) => excused t s
  | Some (Ok (b, s')) =>
      exists ℓ' F', step_to t ℓ' (s, g) s' F' /\ triple t ℓ' F' (k b) Q
  end.

Lemma triple_act {B} (f : choice -> State -> option (res (B * State))) (k : B -> prog State A) Q :
  stable t ℓ F ->
  (forall s g c, Inv (s, g) -> knows t ℓ (s, g) -> F (s, g) -> action_ok (f c s) k Q s g) ->
  triple t ℓ F (Act f k) Q.
Proof.
  intros HF Hact σ I K Hσ [s g] R I' c.
  specialize (Hact s g c I' (knows_stable _ _ _ _ R K) (HF _ _ R I I' K Hσ)). simpl.
  unfold action_ok in Hact. destruct (f c s) as [[[b s'] | e] |]; [| done..].
  destruct Hact as (ℓ' & F' & (g' & Ig & G & Kg & HF') & Ht). exists g'. split_and!; auto.
Qed.

Lemma triple_never Q : triple t ℓ F (never : prog State A) Q.
Proof. intros σ I K Hσ. apply wp_never. Qed.
End rules.

Section action_rules.
Context {A B : Type} (t : tid) (ℓ : local_state) (F : assertion) (k : A -> prog State B).
Context (Q : B -> assertion) (HF : stable t ℓ F).

Lemma triple_atomic (m : M State A) :
  (forall s g, Inv (s, g) -> knows t ℓ (s, g) -> F (s, g) -> action_ok t (Some (m s)) k Q s g) ->
  triple t ℓ F (atomic m ≫= k) Q.
Proof. intros Hm. apply triple_act; [done |]. auto. Qed.

Lemma triple_choosing (m : choice -> M State A) :
  (forall s g c, Inv (s, g) -> knows t ℓ (s, g) -> F (s, g) -> action_ok t (Some (m c s)) k Q s g) ->
  triple t ℓ F (choosing m ≫= k) Q.
Proof. intros Hm. apply triple_act; [done |]. auto. Qed.

Lemma triple_awaiting enabled (m : choice -> M State A) :
  (forall s g c, Inv (s, g) -> knows t ℓ (s, g) -> F (s, g) -> enabled c s = true ->
    action_ok t (Some (m c s)) k Q s g) ->
  triple t ℓ F (awaiting enabled m ≫= k) Q.
Proof.
  intros Hm. apply triple_act; [done |]. intros s g c I K Hσ.
  destruct (enabled c s) eqn:E; [by apply Hm | done].
Qed.
End action_rules.

Lemma triple_exists {A B} t ℓ (F : B -> assertion) (p : prog State A) Q :
  (forall b, triple t ℓ (F b) p Q) -> triple t ℓ (fun σ => exists b, F b σ) p Q.
Proof. intros Hp σ I K [b Hb]. by apply (Hp b). Qed.

Lemma triple_frame {A} t ℓ (F P : assertion) (p : prog State A) Q :
  (forall u σ σ', rely u σ σ' -> P σ -> P σ') -> triple t ℓ F p Q ->
  triple t ℓ (fun σ => F σ /\ P σ) p (fun a σ => Q a σ /\ P σ).
Proof. intros HP Hp σ I K [Hσ HPσ]. apply wp_frame; [done | done | by apply Hp]. Qed.

Lemma triple_fact {A} t ℓ (F : assertion) (φ : Prop) (p : prog State A) Q :
  (φ -> triple t ℓ F p Q) -> triple t ℓ (fun σ => F σ /\ φ) p Q.
Proof. intros Hp σ I K [Hσ Hφ]. by apply Hp. Qed.

Lemma triple_local {A B} t ℓ (F : assertion) (r : res A) a (k : A -> prog State B) Q :
  r = Ok a -> triple t ℓ F (k a) Q -> triple t ℓ F (local r ≫= k) Q.
Proof. by intros ->. Qed.

(** A mutex is given back, a monitor is no longer new. *)
Lemma mutex_eta ℓ m : l_mutex ℓ = None -> set_mutex None (set_mutex m ℓ) = ℓ.
Proof. destruct ℓ; simpl. by intros ->. Qed.

Lemma fresh_eta ℓ m : l_fresh ℓ = None -> set_fresh None (set_fresh m ℓ) = ℓ.
Proof. destruct ℓ; simpl. by intros ->. Qed.

(** A program at the end is one followed by nothing. *)
Lemma bind_ret {S A} (p : prog S A) : forall t (Inv : S * ghost -> Prop) rely excused Q σ,
  wp Inv rely excused t (p ≫= Ret) Q σ -> wp Inv rely excused t p Q σ.
Proof.
  induction p as [a | B f k IH]; intros t Inv rely excused Q σ; [done |].
  simpl. intros Hwp σ' R I c. specialize (Hwp σ' R I c).
  destruct (f c σ'.1) as [[[b s] | e] |]; [| done..].
  destruct Hwp as (g & I' & G & Hwp). exists g. eauto.
Qed.

Lemma triple_last {A} t ℓ F (p : prog State A) Q : triple t ℓ F (p ≫= Ret) Q -> triple t ℓ F p Q.
Proof. intros Hp σ I K Hσ. apply bind_ret, Hp; done. Qed.
