(* ===== verification/MonitorPrograms.v ===== *)
(** * The programs of Monitor, one by one

    A triple for every function of Monitor: from what the calling thread knows to what it
    knows when the function returns. *)

From stdpp Require Import functions.
From S2P Require Import Prelude Concurrency LockWord Monitor MonitorInvariant MonitorSteps MonitorLogic.

(** ** Accesses *)

Lemma get_monitor_eq s m v : monitors s !! m = Some v -> get_monitor m s = Ok (v, s).
Proof. intros H. unfold get_monitor. rewrite M_bind_gets. by rewrite H. Qed.
Lemma get_thread_eq s t th : threads s !! t = Some th -> get_thread t s = Ok (th, s).
Proof. intros H. unfold get_thread. rewrite M_bind_gets. by rewrite H. Qed.
Lemma get_word_eq s o w : lock_words s !! o = Some w -> get_word o s = Ok (w, s).
Proof. intros H. unfold get_word. rewrite M_bind_gets. by rewrite H. Qed.
Lemma set_word_eq s o w w' : lock_words s !! o = Some w ->
  set_word o w' s = Ok (tt, with_lock_words (<[o := w']> (lock_words s)) s).
Proof. intros H. unfold set_word. by rewrite (M_bind_step _ _ _ _ _ (get_word_eq _ _ _ H)). Qed.
Lemma on_monitor_eq s m v f : monitors s !! m = Some v ->
  on_monitor m f s = Ok (tt, with_monitors (<[m := f v]> (monitors s)) s).
Proof. intros H. unfold on_monitor. by rewrite (M_bind_step _ _ _ _ _ (get_monitor_eq _ _ _ H)). Qed.
Lemma on_thread_eq s t th f : threads s !! t = Some th ->
  on_thread t f s = Ok (tt, with_threads (<[t := f th]> (threads s)) s).
Proof. intros H. unfold on_thread. by rewrite (M_bind_step _ _ _ _ _ (get_thread_eq _ _ _ H)). Qed.

Lemma bind_eq {A B} (m : M State A) (k : A -> M State B) s a s' :
  m s = Ok (a, s') -> (m ≫= k) s = k a s'.
Proof. apply M_bind_step. Qed.

Lemma bind_set_monitor {B} m v (k : unit -> M State B) s :
  (set_monitor m v ≫= k) s = k tt (with_monitors (<[m := v]> (monitors s)) s).
Proof. unfold set_monitor. by rewrite M_bind_modify. Qed.

Lemma bind_set_thread {B} t v (k : unit -> M State B) s :
  (set_thread t v ≫= k) s = k tt (with_threads (<[t := v]> (threads s)) s).
Proof. unfold set_thread. by rewrite M_bind_modify. Qed.

Lemma bind_lift {A B} (r : res A) (k : A -> M State B) s a : r = Ok a -> (lift r ≫= k) s = k a s.
Proof. intros ->. apply M_bind_Ok. Qed.

Lemma bind_check {B} (b : bool) (k : unit -> M State B) s :
  b = true -> (lift (check b) ≫= k) s = k tt s.
Proof. intros ->. apply M_bind_Ok. Qed.

(** Runs a computation on a state whose parts are known. *)
Ltac run_step :=
  cbn beta iota;
  match goal with
  | |- context [(get_monitor ?m ≫= ?k) ?s] =>
      rewrite (bind_eq (get_monitor m) k s _ _ (get_monitor_eq s m _ ltac:(eassumption)))
  | |- context [(get_thread ?t ≫= ?k) ?s] =>
      rewrite (bind_eq (get_thread t) k s _ _ (get_thread_eq s t _ ltac:(eassumption)))
  | |- context [(get_word ?o ≫= ?k) ?s] =>
      rewrite (bind_eq (get_word o) k s _ _ (get_word_eq s o _ ltac:(eassumption)))
  | |- context [(on_monitor ?m ?f ≫= ?k) ?s] =>
      rewrite (bind_eq (on_monitor m f) k s _ _ (on_monitor_eq s m _ f ltac:(eassumption)))
  | |- context [(on_thread ?t ?f ≫= ?k) ?s] =>
      rewrite (bind_eq (on_thread t f) k s _ _ (on_thread_eq s t _ f ltac:(eassumption)))
  | |- context [(set_word ?o ?w ≫= ?k) ?s] =>
      rewrite (bind_eq (set_word o w) k s _ _ (set_word_eq s o _ w ltac:(eassumption)))
  | |- context [(set_monitor ?m ?v ≫= ?k) ?s] => rewrite (bind_set_monitor m v k s)
  | |- context [(set_thread ?t ?v ≫= ?k) ?s] => rewrite (bind_set_thread t v k s)
  | |- context [(modify ?f ≫= ?k) ?s] => rewrite (M_bind_modify f k s)
  | |- context [(gets ?f ≫= ?k) ?s] => rewrite (M_bind_gets f k s)
  | |- context [(mret ?a ≫= ?k) ?s] => rewrite (M_bind_ret a k s)
  | |- context [on_monitor ?m ?f ?s] => rewrite (on_monitor_eq s m _ f ltac:(eassumption))
  | |- context [on_thread ?t ?f ?s] => rewrite (on_thread_eq s t _ f ltac:(eassumption))
  | |- context [set_word ?o ?w ?s] => rewrite (set_word_eq s o _ w ltac:(eassumption))
  | |- context [get_monitor ?m ?s] => rewrite (get_monitor_eq s m _ ltac:(eassumption))
  | |- context [get_thread ?t ?s] => rewrite (get_thread_eq s t _ ltac:(eassumption))
  | |- context [get_word ?o ?s] => rewrite (get_word_eq s o _ ltac:(eassumption))
  end.

(** ** Updates that leave the lock alone *)

Lemma held_monitor t ℓ s g m v o :
  Inv (s, g) -> knows t ℓ (s, g) -> monitors s !! m = Some v -> installed s o m ->
  held (l_events ℓ) o <= monitor_count t v.
Proof.
  intros I K Hv Hi. rewrite <- (count_installed s m v t o Hv Hi).
  rewrite <- (k_events _ _ _ K). apply (inv_held _ I).
Qed.

Lemma count_monitor t ℓ s g m v o :
  knows t ℓ (s, g) -> monitors s !! m = Some v -> installed s o m -> l_count ℓ o = monitor_count t v.
Proof. intros K Hv Hi. rewrite <- (count_installed s m v t o Hv Hi). symmetry. apply (k_count _ _ _ K). Qed.

Section neutral.
Context (t : tid) (ℓ : local_state) (s : State) (g : ghost).
Context (I : Inv (s, g)) (K : knows t ℓ (s, g)).
Context (m : Z) (v v' : Monitor) (Hv : monitors s !! m = Some v).
Context (Hmine : (exists o, installed s o m) \/ fresh g m = Some t \/ fresh g m = None).

(** The mutex is taken or released, or threads sleep and wake. *)
Lemma neutral_update mx (P : assertion) :
  num_waiters_ v' = num_waiters_ v -> owner_ v' = owner_ v -> lock_count_ v' = lock_count_ v ->
  obj_ v' = obj_ v -> wait_set_ v' = wait_set_ v -> hash_code_ v' = hash_code_ v ->
  (forall u, u <> t -> monitor_lock_ v' = Some u <-> monitor_lock_ v = Some u) ->
  (monitor_lock_ v' = Some t -> access ℓ m) ->
  (forall m1, mx = Some m1 <->
     if decide (m1 = m) then monitor_lock_ v' = Some t else l_mutex ℓ = Some m1) ->
  (forall g', P (with_monitors (<[m := v']> (monitors s)) s, g')) ->
  step_to t (set_mutex mx ℓ) (s, g) (with_monitors (<[m := v']> (monitors s)) s) P.
Proof.
  intros En Eo Ec Eb Es Eh Hl Hr Hmx HP.
  assert (Emc : forall u, monitor_count u v' = monitor_count u v).
  { intros u. unfold monitor_count. by rewrite Eo, Ec. }
  apply (set_monitor_step t ℓ s g I K m v v' Hv (waiters g m)) with (c := l_count ℓ) (waits := l_waits ℓ).
  - split; try done.
    + destruct (inv_monitors _ I _ _ Hv). split; rewrite ?Ec, ?Eo, ?Eh; done.
    + intros o Ho. rewrite Emc. by eapply held_monitor.
    + rewrite En. by apply (inv_waiters _ I).
    + apply (inv_waiting _ I).
    + apply (inv_chain_waiters _ I).
    + intros u Hu Hlu. apply Hl in Hlu as Hlu'; [| done]. unfold same_guarded. intuition congruence.
    + intros Hlt. by apply (knows_access _ _ _ _ K), Hr.
    + intros u Hu Hf. destruct Hmine as [? | [? | ?]]; [done | congruence..].
  - intros o. case_decide; [| done]. rewrite Emc. by eapply count_monitor.
  - intros m1 b. pose proof (k_waits _ _ _ K m1 b) as Hk. simpl in Hk.
    case_decide; [subst; by rewrite Hk | done].
  - done.
  - apply HP.
Qed.
End neutral.

(** ** Mutexes *)

Lemma mutex_free_lock s m v : monitors s !! m = Some v -> mutex_free m s = true -> monitor_lock_ v = None.
Proof. unfold mutex_free. intros ->. apply bool_decide_eq_true. Qed.

(** A fact that does not depend on the monitors, and that says [m] may be touched. *)
Record survives (t : tid) (ℓ : local_state) (m : Z) (F : assertion) : Prop := {
  sv_stable x : stable t (set_mutex x ℓ) F;
  sv_monitors s g ms g' : F (s, g) -> F (with_monitors ms s, g');
  sv_there s g : Inv (s, g) -> F (s, g) -> is_Some (monitors s !! m);
  sv_mine s g : Inv (s, g) -> F (s, g) -> (exists o, installed s o m) \/ fresh g m = Some t \/ fresh g m = None;
}.

Lemma mutex_set_eta ℓ mx : l_mutex ℓ = mx -> set_mutex mx ℓ = ℓ.
Proof. by destruct ℓ; simpl; intros ->. Qed.

Lemma MutexLock_rule t ℓ m F :
  survives t ℓ m F -> access ℓ m -> l_mutex ℓ = None ->
  triple t ℓ F (MutexLock t m) (fun _ => post t (set_mutex (Some m) ℓ) F).
Proof.
  intros [Hst Hms Hthere Hmine] Ha Hl. apply triple_last, triple_awaiting.
  { rewrite <- (mutex_set_eta ℓ None) by done. apply Hst. }
  intros s g c I K Hi Hfree. destruct (Hthere _ _ I Hi) as [v Hv].
  apply (mutex_free_lock _ _ _ Hv) in Hfree. run_step. exists (set_mutex (Some m) ℓ), F. split.
  - eapply (neutral_update t ℓ s g I K m v); eauto; simpl; try done.
    + intros u Hu. rewrite Hfree. split; congruence.
    + intros m1. rewrite Hl. case_decide; subst; split; congruence.
  - apply triple_value; [apply Hst | done].
Qed.

Lemma survives_fat t ℓ o m : access ℓ m -> survives t ℓ m (words (is_fat o m)).
Proof.
  intros Ha. split.
  - intros x. by apply stable_fat.
  - done.
  - intros s g I Hi. destruct (installed_monitor _ _ _ _ I Hi) as (_ & _ & v & Hv & _). by exists v.
  - intros s g I Hi. left. by exists o.
Qed.

Lemma MutexLock_spec t ℓ o m :
  access ℓ m -> l_mutex ℓ = None ->
  triple t ℓ (words (is_fat o m)) (MutexLock t m)
    (fun _ => post t (set_mutex (Some m) ℓ) (words (is_fat o m))).
Proof. intros Ha Hl. apply MutexLock_rule; [by apply survives_fat | done..]. Qed.

Lemma release_eq s t m v :
  monitors s !! m = Some v -> monitor_lock_ v = Some t ->
  release t m s = Ok (tt, with_monitors (<[m := with_monitor_lock None v]> (monitors s)) s).
Proof.
  intros Hv Hl. unfold release. run_step. rewrite bind_check; [done |]. by rewrite Hl, bool_decide_true.
Qed.

(** The mutex is held, so the monitor is there. *)
Lemma holding t ℓ s g m : knows t ℓ (s, g) -> l_mutex ℓ = Some m ->
  exists v, monitors s !! m = Some v /\ monitor_lock_ v = Some t.
Proof. intros K. apply (k_holds _ _ _ K). Qed.

Lemma MutexUnlock_rule t ℓ m F :
  survives t ℓ m F -> l_mutex ℓ = Some m ->
  triple t ℓ F (MutexUnlock t m) (fun _ => post t (set_mutex None ℓ) F).
Proof.
  intros [Hst Hms Hthere Hmine] Hl. apply triple_last, triple_atomic.
  { rewrite <- (mutex_set_eta ℓ (Some m)) by done. apply Hst. }
  intros s g I K Hi. destruct (holding _ _ _ _ _ K Hl) as (v & Hv & Hlock).
  rewrite (release_eq _ _ _ _ Hv Hlock). exists (set_mutex None ℓ), F. split.
  - eapply (neutral_update t ℓ s g I K m v); eauto; simpl; try done.
    + intros u Hu. rewrite Hlock. split; congruence.
    + intros m1. rewrite Hl. case_decide; split; congruence.
  - apply triple_value; [apply Hst | done].
Qed.

Lemma MutexUnlock_spec t ℓ o m :
  access ℓ m -> l_mutex ℓ = Some m ->
  triple t ℓ (words (is_fat o m)) (MutexUnlock t m)
    (fun _ => post t (set_mutex None ℓ) (words (is_fat o m))).
Proof. intros Ha Hl. apply MutexUnlock_rule; [by apply survives_fat | done]. Qed.

Lemma ContendersWait_spec t ℓ o m :
  access ℓ m -> l_mutex ℓ = Some m ->
  triple t ℓ (words (is_fat o m)) (ContendersWait t m)
    (fun _ => post t ℓ (words (is_fat o m))).
Proof.
  intros Ha Hl. apply triple_atomic; [auto with stable |].
  intros s g I K Hi. simpl in Hi. destruct (holding _ _ _ _ _ K Hl) as (v & Hv & Hlock).
  run_step. erewrite release_eq; [| by simpl; rewrite lookup_insert_eq | done]. simpl.
  rewrite insert_insert_eq. exists (set_mutex None ℓ), (words (is_fat o m)). split.
  { eapply (neutral_update t ℓ s g I K m v); eauto; simpl; try done.
    - intros u Hu. rewrite Hlock. split; congruence.
    - intros m1. rewrite Hl. case_decide; split; congruence. }
  clear s g I K Hi v Hv Hlock. apply triple_awaiting; [auto with stable |].
  intros s g c I K Hi _. simpl in Hi.
  destruct (installed_monitor _ _ _ _ I Hi) as (_ & _ & v & Hv & Ho).
  run_step. exists (set_mutex None (set_mutex None ℓ)), (words (is_fat o m)). split.
  { eapply (neutral_update t _ s g I K m v); eauto; simpl; try done.
    intros m1. case_decide; [subst | done]. split; [done |].
    intros Hlock. by apply (k_mutex _ _ _ K _ _ Hv) in Hlock. }
  eapply triple_mono; [by apply MutexLock_spec |]. simpl. intros _ σ _ [K' Hi']. split; [| done].
  by destruct ℓ; simpl in *; subst.
Qed.

(** ** Updates of threads *)

Section quiet.
Context (t : tid) (ℓ : local_state) (s : State) (g : ghost).
Context (I : Inv (s, g)) (K : knows t ℓ (s, g)).
Context (u : tid) (th th' : Thread) (Hth : threads s !! u = Some th).

(** Neither the state of the thread nor its suspension changes. *)
Lemma quiet_update ℓ' (P : assertion) :
  state th' = state th -> suspend_count th' = suspend_count th -> wait_next th' = wait_next th ->
  (u <> t -> wait_monitor_ th' = wait_monitor_ th /\ pending th' = pending th) ->
  (forall x, x <> t -> wait_mutex_ th' = Some x <-> wait_mutex_ th = Some x) ->
  (l_wait_monitor ℓ' = if decide (u = t) then wait_monitor_ th' else l_wait_monitor ℓ) ->
  (l_pending ℓ' = if decide (u = t) then pending th' else l_pending ℓ) ->
  (forall y, l_wait_mutex ℓ' = Some y <->
     if decide (y = u) then wait_mutex_ th' = Some t else l_wait_mutex ℓ = Some y) ->
  (l_state ℓ' = l_state ℓ /\ l_suspending ℓ' = l_suspending ℓ /\ l_suspended ℓ' = l_suspended ℓ) ->
  (l_count ℓ' = l_count ℓ /\ l_events ℓ' = l_events ℓ /\ l_waits ℓ' = l_waits ℓ /\
    l_fresh ℓ' = l_fresh ℓ /\ l_chain ℓ' = l_chain ℓ /\ l_mutex ℓ' = l_mutex ℓ /\
    l_exclusive ℓ' = l_exclusive ℓ) ->
  (forall g', P (with_threads (<[u := th']> (threads s)) s, g')) ->
  step_to t ℓ' (s, g) (with_threads (<[u := th']> (threads s)) s) P.
Proof.
  intros Est Esc Enx Eo Emx Hmon Hpend Hmx (Ea & Eb & Ec) Hrest HP.
  apply (set_thread_step t ℓ s g I K u th th' Hth (suspenders g u)); try done.
  - split; try done; try (by intros Hu; apply Eo in Hu as []).
    + rewrite Esc. by apply (inv_suspend _ I).
    + congruence.
    + congruence.
  - rewrite Ea. case_decide as E; [| done]. destruct (k_thread _ _ _ K) as (w & Hw & Hst & _).
    rewrite E in Hth. simpl in Hw. congruence.
  - intros y. rewrite Eb. pose proof (k_suspending _ _ _ K y) as Hk. simpl in Hk.
    destruct (decide (y = u)) as [E |]; [rewrite <- E; by symmetry | done].
  - intros y. rewrite Ec. intros Hy. destruct (decide (y = u)) as [E |]; [rewrite E in Hy | done].
    destruct (k_suspended _ _ _ K _ Hy) as (Hs & Hst). split; [done |].
    intros Hr. apply Hst. exists th. split; [done | congruence].
Qed.
End quiet.

(** An update of fields of its own that the thread does not keep track of. *)
Lemma own_update t ℓ s g th th' (P : assertion) :
  Inv (s, g) -> knows t ℓ (s, g) -> threads s !! t = Some th ->
  state th' = state th -> suspend_count th' = suspend_count th -> wait_next th' = wait_next th ->
  wait_monitor_ th' = wait_monitor_ th -> pending th' = pending th -> wait_mutex_ th' = wait_mutex_ th ->
  (forall g', P (with_threads (<[t := th']> (threads s)) s, g')) ->
  step_to t ℓ (s, g) (with_threads (<[t := th']> (threads s)) s) P.
Proof.
  intros I K Hth E1 E2 E3 E4 E5 E6 HP.
  destruct (k_thread _ _ _ K) as (w & Hw & Hst & Hm & Hp). simpl in Hw.
  eapply (quiet_update t ℓ s g I K t th th' Hth); try done.
  - intros x Hx. by rewrite E6.
  - rewrite decide_True by done. congruence.
  - rewrite decide_True by done. congruence.
  - intros y. case_decide; [subst | done]. rewrite E6. symmetry. by apply (k_wait_mutex _ _ _ K).
Qed.

Lemma self_thread t ℓ s g : knows t ℓ (s, g) -> exists th, threads s !! t = Some th /\
  state th = l_state ℓ /\ wait_monitor_ th = l_wait_monitor ℓ /\ pending th = l_pending ℓ.
Proof. apply k_thread. Qed.

Lemma own_fields_spec t ℓ φ f :
  stable t ℓ (words φ) ->
  (forall th, state (f th) = state th /\ suspend_count (f th) = suspend_count th /\
    wait_next (f th) = wait_next th /\ wait_monitor_ (f th) = wait_monitor_ th /\
    pending (f th) = pending th /\ wait_mutex_ (f th) = wait_mutex_ th) ->
  triple t ℓ (words φ) (atomic (on_thread t f)) (fun _ => post t ℓ (words φ)).
Proof.
  intros Hφ Hf. apply triple_last, triple_atomic; [done |]. intros s g I K Hi.
  destruct (self_thread _ _ _ _ K) as (th & Hth & _). run_step.
  exists ℓ, (words φ). split.
  - destruct (Hf th) as (? & ? & ? & ? & ? & ?). by eapply own_update.
  - by apply triple_value.
Qed.

(** ** The state of the thread *)

Lemma not_suspended s g t th x :
  Inv (s, g) -> threads s !! t = Some th -> suspend_count th = 0 -> x ∉ suspenders g t.
Proof.
  intros I Hth H0 Hx. pose proof (inv_suspend _ I _ _ Hth) as Hn. simpl in Hn.
  assert (size (suspenders g t) = 0%nat) as Hz by lia. apply size_empty_inv in Hz. set_solver.
Qed.

Lemma state_update t ℓ s g th st (P : assertion) :
  Inv (s, g) -> knows t ℓ (s, g) -> threads s !! t = Some th ->
  (st = kRunnable -> l_state ℓ <> kRunnable -> suspend_count th = 0 /\ t ∈ mutator_shared s) ->
  (forall m, st <> kRunnable -> l_state ℓ = kRunnable -> l_mutex ℓ = Some m ->
     exists b, (m, b) ∈ l_waits ℓ) ->
  (forall g', P (with_threads (<[t := with_state st th]> (threads s)) s, g')) ->
  step_to t (set_state st ℓ) (s, g) (with_threads (<[t := with_state st th]> (threads s)) s) P.
Proof.
  intros I K Hth Hstart Hstop HP.
  destruct (k_thread _ _ _ K) as (w & Hw & Hst & Hm & Hp). simpl in Hw. simplify_eq.
  apply (set_thread_step t ℓ s g I K t th _ Hth (suspenders g t)); simpl; try done.
  - split; simpl; try done.
    + by apply (inv_suspend _ I).
    + rewrite Hst. auto.
    + rewrite Hst. auto.
  - by rewrite decide_True.
  - by rewrite decide_True, Hm.
  - by rewrite decide_True, Hp.
  - intros y. pose proof (k_suspending _ _ _ K y) as Hk. simpl in Hk.
    case_decide; [subst; by symmetry | done].
  - intros y Hy. case_decide; [subst | done].
    destruct (k_suspended _ _ _ K _ Hy) as (Hs & Hne). simpl in *.
    split; [done |]. intros ->. destruct Hstart as [H0 _]; [done | intros E; apply Hne; exists th; split; congruence |].
    by apply (not_suspended _ _ _ _ t I Hth H0) in Hs.
  - intros y. case_decide; [subst | done]. symmetry. by apply (k_wait_mutex _ _ _ K _ _ Hth).
Qed.

Lemma SharedUnlock_step t ℓ s g (P : assertion) :
  Inv (s, g) -> knows t ℓ (s, g) -> l_state ℓ <> kRunnable ->
  (forall S, P (with_mutator_shared S s, g)) ->
  step_to t ℓ (s, g) (with_mutator_shared (mutator_shared s ∖ {[t]}) s) P.
Proof.
  intros I K Hst HP. apply (set_shared_step t _ s g I K); [| | | done].
  - intros u Hu. apply elem_of_difference. split; [by apply (inv_runnable _ I) |].
    apply not_elem_of_singleton. intros ->. destruct Hu as (th & Hth & Hr).
    destruct (k_thread _ _ _ K) as (w & Hw & E & _). simpl in *. congruence.
  - intros u Hu. apply (inv_exclusive _ I) in Hu. simpl in Hu. rewrite Hu.
    apply set_eq. intros x. rewrite elem_of_difference. set_solver.
  - intros u Hu Hs. by apply elem_of_difference; rewrite elem_of_singleton.
Qed.

Lemma TransitionFromRunnableToSuspended_spec t ℓ φ st :
  l_state ℓ = kRunnable -> st <> kRunnable ->
  (forall m, l_mutex ℓ = Some m -> exists b, (m, b) ∈ l_waits ℓ) ->
  stable t ℓ (words φ) -> stable t (set_state st ℓ) (words φ) ->
  triple t ℓ (words φ) (TransitionFromRunnableToSuspended t st)
    (fun _ => post t (set_state st ℓ) (words φ)).
Proof.
  intros Hst Hne Hmx Hφ Hφ'. apply triple_atomic; [done |]. intros s g I K Hσ.
  destruct (self_thread _ _ _ _ K) as (th & Hth & Est & _). rewrite Hst in Est.
  run_step. rewrite !bind_check by (by rewrite bool_decide_true).
  exists (set_state st ℓ), (words φ). split; [by apply state_update; eauto |].
  clear s g I K Hσ th Hth Est. apply triple_last, triple_atomic; [done |]. intros s g I K Hσ.
  exists (set_state st ℓ), (words φ). split; [by apply SharedUnlock_step | by apply triple_value].
Qed.

Lemma TransitionFromSuspendedToRunnable_spec fuel t ℓ φ :
  l_state ℓ <> kRunnable -> stable t ℓ (words φ) -> stable t (set_state kRunnable ℓ) (words φ) ->
  triple t ℓ (words φ) (TransitionFromSuspendedToRunnable fuel t)
    (fun _ => post t (set_state kRunnable ℓ) (words φ)).
Proof.
  intros Hst Hφ Hφ'. induction fuel as [| fuel IH]; [apply triple_never |].
  apply triple_awaiting; [done |]. intros s g c I K Hσ _.
  destruct (self_thread _ _ _ _ K) as (th & Hth & Est & _).
  run_step. rewrite bool_decide_true by congruence.
  exists ℓ, (words φ). split; [by apply no_step |].
  clear s g c I K Hσ th Hth Est. apply triple_awaiting; [done |]. intros s g c I K Hσ Hx.
  apply bool_decide_eq_true in Hx.
  exists ℓ, (fun σ => words φ σ /\ t ∈ mutator_shared σ.1). split.
  { apply (set_shared_step t _ s g I K); [| congruence | set_solver | split; [done | set_solver]].
    intros u Hu. apply (inv_runnable _ I) in Hu. simpl in Hu. set_solver. }
  clear s g c I K Hσ Hx. apply triple_choosing; [auto with stable |]. intros s g c I K [Hσ Hsh].
  destruct (self_thread _ _ _ _ K) as (th & Hth & Est & _). run_step.
  destruct ((suspend_count th =? 0) && (c =? 0)) eqn:Ec.
  - run_step. exists (set_state kRunnable ℓ), (words φ). split; [| by apply triple_value].
    apply state_update; try done. intros _ _. split; [lia | done].
  - exists ℓ, (words φ). split; [by apply no_step |].
    clear s g I K Hσ Hsh th Hth Est Ec c. apply triple_atomic; [done |]. intros s g I K Hσ.
    exists ℓ, (words φ). split; [by apply SharedUnlock_step | exact IH].
Qed.

(** ** Suspension of another thread *)

(** The thread has asked for the suspension of [u]; it has seen [u] suspended. *)
Definition requesting (u : tid) (ℓ : local_state) : local_state :=
  set_suspending ({[u]} ∪ l_suspending ℓ) ℓ.
Definition suspending (u : tid) (ℓ : local_state) : local_state :=
  set_suspended ({[u]} ∪ l_suspended ℓ) (requesting u ℓ).

Section suspension.
Context (t u : tid) (ℓ : local_state) (s : State) (g : ghost).
Context (Hut : u <> t) (Hnew : u ∉ l_suspending ℓ) (Hnew' : u ∉ l_suspended ℓ).
Context (th : Thread) (Hth : threads s !! u = Some th) (I : Inv (s, g)).

Lemma ModifySuspendCount_up (P : assertion) :
  knows t ℓ (s, g) ->
  (forall g', P (with_threads (<[u := with_suspend_count (suspend_count th + 1) th]> (threads s)) s, g')) ->
  step_to t (requesting u ℓ) (s, g)
    (with_threads (<[u := with_suspend_count (suspend_count th + 1) th]> (threads s)) s) P.
Proof.
  intros K HP. pose proof (inv_suspend _ I _ _ Hth) as Hn. simpl in Hn.
  assert (Hnt : t ∉ suspenders g u) by by rewrite (k_suspending _ _ _ K).
  apply (set_thread_step t ℓ s g I K u th _ Hth ({[t]} ∪ suspenders g u)); simpl; try done.
  - split; simpl; try done.
    + rewrite size_union, size_singleton by set_solver. lia.
    + set_solver.
  - by rewrite decide_False.
  - by rewrite decide_False.
  - by rewrite decide_False.
  - intros y. case_decide; set_solver.
  - intros y Hy. case_decide; [subst; congruence | done].
  - intros y. case_decide; [subst; symmetry; by apply (k_wait_mutex _ _ _ K) | done].
Qed.

Lemma ModifySuspendCount_down ℓ1 (P : assertion) :
  ℓ1 = requesting u ℓ \/ ℓ1 = suspending u ℓ -> knows t ℓ1 (s, g) ->
  (forall g', P (with_threads (<[u := with_suspend_count (suspend_count th - 1) th]> (threads s)) s, g')) ->
  step_to t ℓ (s, g)
    (with_threads (<[u := with_suspend_count (suspend_count th - 1) th]> (threads s)) s) P.
Proof.
  intros Hℓ K HP. pose proof (inv_suspend _ I _ _ Hth) as Hn. simpl in Hn.
  assert (Hin : t ∈ suspenders g u).
  { apply (k_suspending _ _ _ K). destruct Hℓ as [-> | ->]; simpl; set_solver. }
  apply (set_thread_step t ℓ1 s g I K u th _ Hth (suspenders g u ∖ {[t]})); simpl; try done.
  - split; simpl; try done.
    + rewrite size_difference, size_singleton by set_solver.
      assert (size (suspenders g u) <> 0)%nat by (intros Hz%size_empty_inv; set_solver). lia.
    + set_solver.
  - rewrite decide_False by done. by destruct Hℓ as [-> | ->].
  - rewrite decide_False by done. by destruct Hℓ as [-> | ->].
  - rewrite decide_False by done. by destruct Hℓ as [-> | ->].
  - intros y. destruct Hℓ as [-> | ->]; simpl; case_decide; set_solver.
  - intros y Hy. case_decide; [congruence |]. destruct Hℓ as [-> | ->]; simpl; set_solver.
  - intros y. pose proof (k_wait_mutex _ _ _ K) as Hk. destruct Hℓ as [-> | ->]; simpl in *;
      (case_decide; [subst; symmetry; by apply Hk | done]).
  - by destruct Hℓ as [-> | ->].
Qed.
End suspension.

Lemma ModifySuspendCount_up_eq s u th :
  threads s !! u = Some th ->
  ModifySuspendCount u 1 s =
    Ok (tt, with_threads (<[u := with_suspend_count (suspend_count th + 1) th]> (threads s)) s).
Proof. intros Hth. unfold ModifySuspendCount. by run_step. Qed.

Lemma ModifySuspendCount_down_eq s u th :
  threads s !! u = Some th -> 0 < suspend_count th ->
  ModifySuspendCount u (-1) s =
    Ok (tt, with_threads (<[u := with_suspend_count (suspend_count th - 1) th]> (threads s)) s).
Proof.
  intros Hth Hpos. unfold ModifySuspendCount. run_step.
  by rewrite (proj2 (Z.leb_gt _ _)) by lia.
Qed.

Lemma suspender_count s g t u th :
  Inv (s, g) -> threads s !! u = Some th -> t ∈ suspenders g u -> 0 < suspend_count th.
Proof.
  intros I Hth Hin. rewrite (inv_suspend _ I _ _ Hth). simpl.
  assert (size (suspenders g u) <> 0)%nat by (intros Hz%size_empty_inv; set_solver). lia.
Qed.

Definition attempt_local (u : tid) (ℓ : local_state) (r : attempt) : local_state :=
  match r with
  | NowSuspended => suspending u ℓ
  | NotYet => requesting u ℓ
  | Again | NoSuchThread | TimedOut => ℓ
  end.

(** The request is made: is the thread suspended, or is it time to give up? *)
Lemma requested_step t u ℓ s g th φ :
  u <> t -> u ∉ l_suspending ℓ -> u ∉ l_suspended ℓ -> threads s !! u = Some th ->
  Inv (s, g) -> knows t (requesting u ℓ) (s, g) -> words φ (s, g) -> forall total_delay_us,
  exists r s',
    (if IsSuspended th then mret NowSuspended
     else if kTimeoutUs <=? total_delay_us
     then _ ← ModifySuspendCount u (-1); mret TimedOut else mret NotYet) s = Ok (r, s') /\
    r <> Again /\ step_to t (attempt_local u ℓ r) (s, g) s' (words φ).
Proof.
  intros Hut Hnew Hnew' Hth I K Hσ total.
  assert (Hin : t ∈ suspenders g u) by (apply (k_suspending _ _ _ K); simpl; set_solver).
  destruct (IsSuspended th) eqn:Hs; [| case_match].
  - exists NowSuspended, s. split_and!; [done.. |].
    exists g. split_and!; [done | by intros x Hx | | done].
    split; simpl; try apply K. intros y. rewrite elem_of_union, elem_of_singleton.
    intros [-> | Hy]; [| by apply (k_suspended _ _ _ K)]. split; [done |]. intros (w & Hw & Hr).
    unfold IsSuspended in Hs. apply andb_true_iff in Hs as [Hs _]. apply bool_decide_eq_true in Hs.
    simpl in Hw. congruence.
  - eexists TimedOut, _. split_and!; [| done |].
    + rewrite (bind_eq _ _ _ _ _ (ModifySuspendCount_down_eq _ _ _ Hth (suspender_count _ _ _ _ _ I Hth Hin))).
      reflexivity.
    + by eapply (ModifySuspendCount_down t u ℓ s g) with (ℓ1 := requesting u ℓ); eauto.
  - exists NotYet, s. split_and!; [done.. |]. by apply no_step.
Qed.

Lemma try_suspend_spec t u ℓ (requested : bool) total φ :
  (forall ℓ', stable t ℓ' (words φ)) -> l_state ℓ = kRunnable ->
  u <> t -> u ∉ l_suspending ℓ -> u ∉ l_suspended ℓ ->
  triple t (if requested then requesting u ℓ else ℓ) (words φ)
    (atomic (try_suspend t u requested total))
    (fun r => post t (attempt_local u ℓ r) (fun σ => words φ σ /\ (requested = true -> r <> Again))).
Proof.
  intros Hφ Hst Hut Hnew Hnew'. apply triple_last, triple_atomic; [done |]. intros s g I K Hσ.
  unfold try_suspend. run_step.
  assert (Hfin : forall r ℓ1, (requested = true -> r <> Again) ->
    triple t ℓ1 (words φ) (Ret r) (fun r => post t ℓ1 (fun σ => words φ σ /\ (requested = true -> r <> Again)))).
  { intros r ℓ1 Hr. apply triple_value; [done |]. done. }
  destruct (threads s !! u) as [th |] eqn:Hth.
  2: { destruct requested.
       - exfalso. destruct (inv_suspenders _ I u t) as [th Hth']; [| simpl in *; congruence].
         apply (k_suspending _ _ _ K). simpl. set_solver.
       - simpl. exists ℓ, (words φ). split; [by apply no_step | by apply Hfin]. }
  destruct (self_thread _ _ _ _ K) as (me & Hme & _). run_step. destruct requested; cbn [andb negb]; cbn beta iota.
  - assert (Hin : t ∈ suspenders g u) by (apply (k_suspending _ _ _ K); simpl; set_solver).
    rewrite bind_check by (apply Z.ltb_lt; by eapply suspender_count).
    rewrite bind_check by by rewrite bool_decide_true. run_step.
    destruct (requested_step t u ℓ s g th φ Hut Hnew Hnew' Hth I K Hσ total) as (r & s' & -> & Hr & Hs).
    exists (attempt_local u ℓ r), (words φ). split; [done | by apply Hfin].
  - case_match; [exists ℓ, (words φ); split; [by apply no_step | by apply Hfin] |].
    rewrite (bind_eq _ _ _ _ _ (ModifySuspendCount_up_eq _ _ _ Hth)).
    rewrite bind_check by by rewrite bool_decide_true.
    destruct (ModifySuspendCount_up t u ℓ s g Hut Hnew Hnew' th Hth I (words φ) K) as (g1 & I1 & G1 & K1 & H1); [done |].
    set (s1 := with_threads _ s) in *.
    assert (Hth1 : threads s1 !! u = Some (with_suspend_count (suspend_count th + 1) th))
      by (simpl; apply lookup_insert_eq).
    run_step.
    destruct (requested_step t u ℓ s1 g1 _ φ Hut Hnew Hnew' Hth1 I1 K1 H1 total)
      as (r & s' & -> & Hr & Hs).
    exists (attempt_local u ℓ r), (words φ). split; [| by apply Hfin].
    apply step_to_trans with (requesting u ℓ) s1.
    exists g1. done.
Qed.

Lemma ThreadSuspendSleep_ok delay total :
  0 <= delay <= 500000 ->
  exists d, ThreadSuspendSleep delay total = Ok d /\ 0 <= d.1 <= 500000.
Proof.
  intros Hd. unfold ThreadSuspendSleep.
  assert (E : uint32 (delay * 2) = delay * 2) by (unfold uint32; apply wrapU_id; unfold fitsU; lia).
  rewrite E, (proj2 (Z.leb_le _ _)) by lia. simpl. repeat case_match; eexists; (split; [done |]); simpl; lia.
Qed.

Lemma SuspendThread_loop_spec fuel t u ℓ φ :
  (forall ℓ', stable t ℓ' (words φ)) -> l_state ℓ = kBlocked -> l_mutex ℓ = None ->
  u <> t -> u ∉ l_suspending ℓ -> u ∉ l_suspended ℓ ->
  forall requested delay total, 0 <= delay <= 500000 ->
  triple t (if requested : bool then requesting u ℓ else ℓ) (words φ)
    (SuspendThread_loop fuel t u requested delay total)
    (fun b : bool => post t (if b then suspending u ℓ else ℓ) (words φ)).
Proof.
  intros Hφ Hst Hmx Hut Hnew Hnew'. induction fuel as [| fuel IH]; intros requested delay total Hd;
    [apply triple_never |]. cbn [SuspendThread_loop].
  eapply triple_then with (ℓ' := fun _ => if requested then requesting u (set_state kRunnable ℓ) else set_state kRunnable ℓ)
    (F' := fun _ => words φ).
  { destruct requested; (eapply triple_mono; [apply TransitionFromSuspendedToRunnable_spec; try done; simpl; by rewrite Hst | done]). }
  intros _. eapply triple_then; [by apply (try_suspend_spec t u (set_state kRunnable ℓ)) | intros r].
  eapply triple_then with (ℓ' := fun _ => attempt_local u ℓ r)
    (F' := fun _ => fun σ => words φ σ /\ (requested = true -> r <> Again)).
  { intros σ I K [Hσ Hr].
    assert (E : set_state kBlocked (attempt_local u (set_state kRunnable ℓ) r) = attempt_local u ℓ r).
    { destruct ℓ; simpl in *; subst. by destruct r. }
    eapply wp_weaken; [| eapply (TransitionFromRunnableToSuspended_spec t (attempt_local u (set_state kRunnable ℓ) r) φ kBlocked);
      try done; try apply Hφ; destruct r; simpl; try done; rewrite Hmx; done].
    intros _ σ' I' [K' Hσ']. rewrite E in K'. done. }
  intros _ σ I K [Hσ Hr]. destruct r; simpl in K.
  - destruct requested; [by destruct Hr |]. by apply (IH false).
  - by apply (triple_value t ℓ (words φ)).
  - by apply (triple_value t (suspending u ℓ) (words φ)).
  - by apply (triple_value t ℓ (words φ)).
  - destruct (ThreadSuspendSleep_ok delay total Hd) as (d & -> & Hd'). by apply (IH true).
Qed.

Lemma SuspendThreadByThreadId_spec fuel t u ℓ φ :
  (forall ℓ', stable t ℓ' (words φ)) -> l_state ℓ = kBlocked -> l_mutex ℓ = None ->
  u <> t -> u <> 0 -> u ∉ l_suspending ℓ -> u ∉ l_suspended ℓ ->
  triple t ℓ (words φ) (SuspendThreadByThreadId fuel t u)
    (fun b : bool => post t (if b then suspending u ℓ else ℓ) (words φ)).
Proof.
  intros Hφ Hst Hmx Hut Hu0 Hnew Hnew'. unfold SuspendThreadByThreadId.
  rewrite bool_decide_true by done. by apply (SuspendThread_loop_spec fuel t u ℓ φ) with (requested := false).
Qed.

Lemma Resume_spec t u ℓ φ :
  (forall ℓ', stable t ℓ' (words φ)) -> u <> t -> u ∉ l_suspending ℓ -> u ∉ l_suspended ℓ ->
  triple t (suspending u ℓ) (words φ) (Resume t u) (fun _ => post t ℓ (words φ)).
Proof.
  intros Hφ Hut Hnew Hnew'. apply triple_last, triple_atomic; [done |]. intros s g I K Hσ.
  destruct (k_suspended _ _ _ K u) as (Hin & Hnr); [simpl; set_solver |]. simpl in Hin, Hnr.
  destruct (inv_suspenders _ I _ _ Hin) as [th Hth]. simpl in Hth.
  assert (Hst : state th <> kRunnable) by (intros Hr; apply Hnr; by exists th).
  pose proof (suspender_count _ _ _ _ _ I Hth Hin) as Hpos.
  rewrite bind_check by (by rewrite bool_decide_true). run_step.
  rewrite bind_check by (unfold IsSuspended; rewrite bool_decide_true by done; simpl;
    apply negb_true_iff, Z.eqb_neq; lia).
  rewrite (ModifySuspendCount_down_eq _ _ _ Hth Hpos). exists ℓ, (words φ).
  split; [| by apply triple_value].
  by eapply (ModifySuspendCount_down t u ℓ s g) with (ℓ1 := suspending u ℓ); eauto.
Qed.
