(* ===== verification/MonitorLocking.v ===== *)
(** * Inflation, entering and leaving

    Triples for the programs of Monitor that change who holds an object. *)

From stdpp Require Import functions.
From S2P Require Import Prelude Concurrency LockWord Monitor MonitorInvariant MonitorSteps MonitorLogic MonitorPrograms.

(** ** Inflation *)

(** The lock word of [o] is what a monitor with this owner and hash code may replace, or
    another monitor is installed already. *)
Definition inflatable (o : Z) (owner : option tid) (hash : Z) (ws : gmap Z Z) : Prop :=
  match view_of <$> ws !! o with
  | Some (VThin u c) => owner = Some u
  | Some (VHash h) => owner = None /\ h = hash
  | Some (VFat _) => True
  | _ => False
  end.

(** The owner is the thread itself or suspended by it. *)
Definition controls (t : tid) (ℓ : local_state) (owner : option tid) (hash : Z) : Prop :=
  match owner with
  | Some u => u = t \/ u ∈ l_suspended ℓ
  | None => hash <> 0
  end.

Lemma stable_inflatable t ℓ o owner hash :
  l_state ℓ = kRunnable -> controls t ℓ owner hash -> stable t ℓ (words (inflatable o owner hash)).
Proof.
  intros Hst Hown σ σ' R I I' K. unfold words, inflatable.
  assert (Hr := knows_runnable _ _ _ K Hst).
  destruct (view_of <$> lock_words σ.1 !! o) as [[| u c | m | h |] |] eqn:E; try done.
  - intros ->. simpl in Hown. destruct Hown as [-> | Hsu].
    + change (lock_view σ.1 o = Some (VThin t c)) in E. apply (r_thin _ _ _ R) in E; [| done].
      unfold lock_view in E. by rewrite E.
    + destruct (k_suspended _ _ _ K _ Hsu) as [Hin Hnr].
      destruct (r_inflating _ _ _ R o u c Hr Hin Hnr E) as [E' | [m E']];
        unfold lock_view in E'; by rewrite E'.
  - intros _. apply (r_fat _ _ _ R) in E; [| by left]. unfold installed, lock_view in E. by rewrite E.
  - intros [-> ->]. simpl in Hown.
    assert (Hh : hash_of σ'.1 o = hash).
    { rewrite (r_hash _ _ _ R); rewrite hash_view; unfold lock_view; by rewrite E. }
    rewrite hash_view in Hh. unfold lock_view in Hh.
    destruct (view_of <$> lock_words σ'.1 !! o) as [[| | | |] |]; simpl in Hh; try congruence; auto.
Qed.
#[export] Hint Resolve stable_inflatable : stable.

(** A monitor that no other thread knows of. *)
Definition private (m : Z) (v : Monitor) : assertion :=
  fun σ => monitors σ.1 !! m = Some v /\ forall o, ~ installed σ.1 o m.

Lemma private_stable t ℓ m v : l_fresh ℓ = Some m -> stable t ℓ (private m v).
Proof. apply stable_private. Qed.
#[export] Hint Resolve private_stable : stable.

Definition new_monitor (owner : option tid) (o hash : Z) : Monitor :=
  MkMonitor None [] 0 owner 0 (Some o) None hash.

Lemma owner_check {A} t ℓ owner hash s g (k : unit -> M State A) :
  controls t ℓ owner hash -> Inv (s, g) -> knows t ℓ (s, g) ->
  (match owner with
   | Some u => if bool_decide (u = t) then mret tt
               else v ← get_thread u; lift (check (IsSuspended v))
   | None => mret tt
   end ≫= k) s = k tt s.
Proof.
  intros Hown I K. destruct owner as [u |]; [| done]. case_bool_decide; [done |].
  destruct Hown as [-> | Hu]; [done |]. destruct (k_suspended _ _ _ K _ Hu) as [Hin Hnr].
  destruct (inv_suspenders _ I _ _ Hin) as [th Hth]. simpl in *.
  assert (0 < suspend_count th) by (by eapply suspender_count).
  rewrite (bind_eq _ _ s tt s); [done |]. run_step. unfold IsSuspended.
  rewrite bool_decide_true by (intros Hr; apply Hnr; by exists th).
  rewrite (proj2 (Z.eqb_neq _ _)) by lia. done.
Qed.

Lemma owner_exists t ℓ hash s g u :
  controls t ℓ (Some u) hash -> Inv (s, g) -> knows t ℓ (s, g) -> is_Some (threads s !! u).
Proof.
  intros Hown I K. destruct Hown as [-> | Hu].
  - destruct (k_thread _ _ _ K) as (th & Hth & _). by exists th.
  - destruct (k_suspended _ _ _ K _ Hu) as [Hin _]. by eapply (inv_suspenders _ I).
Qed.

Section inflate.
Context (t : tid) (ℓ : local_state) (o hash : Z) (owner : option tid).
Context (Hst : l_state ℓ = kRunnable) (Hfresh : l_fresh ℓ = None) (Hmx : l_mutex ℓ = None).
Context (Hown : controls t ℓ owner hash) (Hhash : 0 <= hash <= kMaxHash).

Let F := words (inflatable o owner hash).

Lemma CreateMonitor_spec :
  triple t ℓ F (CreateMonitor t owner o hash)
    (fun m => post t (set_fresh (Some m) ℓ)
       (fun σ => F σ /\ private m (new_monitor owner o hash) σ)).
Proof.
  apply triple_last, triple_awaiting; [unfold F; auto with stable |]. intros s g m I K HF He.
  apply bool_decide_eq_true in He as [Hm Hnone]. rewrite (owner_check t ℓ owner hash s g) by done. run_step.
  exists (set_fresh (Some m) ℓ), (fun σ => F σ /\ private m (new_monitor owner o hash) σ).
  destruct (unused_id _ _ _ I Hnone) as (Hni & _ & _ & _). split.
  - apply (create_monitor_step t ℓ s g I K m (new_monitor owner o hash)); try done.
    + split; simpl; try done. intros u Hu. apply (owner_exists t ℓ hash s g); [by rewrite <- Hu | done..].
    + split; [done |]. split; [simpl; by rewrite lookup_insert_eq |]. apply Hni.
  - apply triple_value; [| done]. apply stable_and; [by apply stable_inflatable | by apply private_stable].
Qed.

(** *** The mutex of a monitor nobody else knows *)

Lemma private_update ℓ1 s g m v v' mx :
  l_fresh ℓ1 = Some m -> Inv (s, g) -> knows t ℓ1 (s, g) -> private m v (s, g) -> F (s, g) ->
  num_waiters_ v' = num_waiters_ v -> owner_ v' = owner_ v -> lock_count_ v' = lock_count_ v ->
  obj_ v' = obj_ v -> wait_set_ v' = wait_set_ v -> hash_code_ v' = hash_code_ v ->
  (forall u, u <> t -> monitor_lock_ v' = Some u <-> monitor_lock_ v = Some u) ->
  (monitor_lock_ v' = Some t -> access ℓ1 m) ->
  (forall m1, mx = Some m1 <->
     if decide (m1 = m) then monitor_lock_ v' = Some t else l_mutex ℓ1 = Some m1) ->
  step_to t (set_mutex mx ℓ1) (s, g) (with_monitors (<[m := v']> (monitors s)) s)
    (fun σ => F σ /\ private m v' σ).
Proof.
  intros Hf I K [Hv Hni] HF. intros. apply (neutral_update t ℓ1 s g I K m v v' Hv); try done.
  - right; left. by apply (k_fresh _ _ _ K).
  - intros g'. split; [done |]. split; [simpl; by rewrite lookup_insert_eq | done].
Qed.

Lemma MutexLock_private ℓ1 m v :
  l_state ℓ1 = kRunnable -> l_fresh ℓ1 = Some m -> l_mutex ℓ1 = None -> monitor_lock_ v = None ->
  stable t ℓ1 F -> stable t (set_mutex (Some m) ℓ1) F ->
  triple t ℓ1 (fun σ => F σ /\ private m v σ) (MutexLock t m)
    (fun _ => post t (set_mutex (Some m) ℓ1) (fun σ => F σ /\ private m (with_monitor_lock (Some t) v) σ)).
Proof.
  intros Hr Hf Hl Hfree HF HF'. apply triple_last, triple_awaiting; [auto with stable |].
  intros s g c I K [Hσ Hp] _. pose proof (proj1 Hp) as Hv. simpl in Hv. run_step.
  eexists (set_mutex (Some m) ℓ1), _. split.
  - eapply private_update; eauto; simpl; try done.
    + intros u Hu. rewrite Hfree. split; congruence.
    + intros _. by left.
    + intros m1. rewrite Hl. case_decide; subst; split; congruence.
  - apply triple_value; [auto with stable | done].
Qed.

Lemma MutexUnlock_private ℓ1 m v :
  l_fresh ℓ1 = Some m -> l_mutex ℓ1 = Some m -> monitor_lock_ v = Some t ->
  stable t ℓ1 F -> stable t (set_mutex None ℓ1) F ->
  triple t ℓ1 (fun σ => F σ /\ private m v σ) (MutexUnlock t m)
    (fun _ => post t (set_mutex None ℓ1) (fun σ => F σ /\ private m (with_monitor_lock None v) σ)).
Proof.
  intros Hf Hl Hlock HF HF'. apply triple_last, triple_atomic; [auto with stable |].
  intros s g I K [Hσ Hp]. pose proof (proj1 Hp) as Hv. simpl in Hv.
  rewrite (release_eq _ _ _ _ Hv Hlock). eexists (set_mutex None ℓ1), _. split.
  - eapply private_update; eauto; simpl; try done.
    + intros u Hu. rewrite Hlock. split; congruence.
    + intros m1. rewrite Hl. case_decide; split; congruence.
  - apply triple_value; [auto with stable | done].
Qed.

(** *** Installing it *)

(** The monitor says what the lock word says. *)
Definition copies (v : Monitor) (w : Z) : Prop :=
  owner_ v = owner /\ hash_code_ v = hash /\ obj_ v = Some o /\
  match view_of w with
  | VThin u c => owner = Some u /\ lock_count_ v = c
  | VHash h => owner = None /\ h = hash /\ lock_count_ v = 0
  | _ => False
  end.

Definition propagated (m : Z) (r : option (Z * Z)) : assertion := fun σ =>
  F σ /\ exists v, private m v σ /\ monitor_lock_ v = Some t /\
    match r with
    | Some (o', w) => o' = o /\ copies v w
    | None => True
    end.

Section install.
Context (m : Z).
Let ℓ1 := set_mutex (Some m) (set_fresh (Some m) ℓ).

Lemma propagated_stable r : stable t ℓ1 (propagated m r).
Proof.
  apply stable_and; [by apply stable_inflatable |]. intros σ σ' R I I' K (v & Hp & Hv).
  exists v. split; [| done]. by eapply (private_stable t ℓ1 m v).
Qed.

Lemma private_count s g v c (P : assertion) :
  Inv (s, g) -> knows t ℓ1 (s, g) -> private m v (s, g) -> monitor_lock_ v = Some t ->
  0 <= c -> owner_ v <> None ->
  (forall g', P (with_monitors (<[m := with_lock_count c v]> (monitors s)) s, g')) ->
  step_to t ℓ1 (s, g) (with_monitors (<[m := with_lock_count c v]> (monitors s)) s) P.
Proof.
  intros I K [Hv Hni] Hlock Hc Ho HP. simpl in Hv, Hni.
  apply (set_monitor_step t ℓ1 s g I K m v _ Hv (waiters g m)) with (c := l_count ℓ1)
    (waits := l_waits ℓ1) (mutex := Some m).
  - split; simpl; try done.
    + destruct (inv_monitors _ I _ _ Hv). by split.
    + intros u o1 _ Hi. by apply Hni in Hi.
    + intros o1 Hi. by apply Hni in Hi.
    + by apply (inv_waiters _ I).
    + apply (inv_waiting _ I).
    + apply (inv_chain_waiters _ I).
    + intros u Hu. congruence.
    + intros _. left. by apply (knows_runnable _ _ _ K).
    + intros u Hu Hf. assert (fresh g m = Some t) by by apply (k_fresh _ _ _ K). congruence.
  - intros o1. case_decide as Hi; [by apply Hni in Hi | done].
  - intros m1 b. pose proof (k_waits _ _ _ K m1 b) as Hk. simpl in Hk.
    case_decide; [subst; by rewrite Hk | done].
  - intros m1. simpl. case_decide; [subst | split; congruence]. by rewrite Hlock.
  - apply HP.
Qed.

Lemma propagate_spec :
  triple t ℓ1 (fun σ => F σ /\ private m (with_monitor_lock (Some t) (new_monitor owner o hash)) σ)
    (atomic (propagate t m)) (fun r => post t ℓ1 (propagated m r)).
Proof.
  apply triple_last, triple_atomic.
  { apply stable_and; [by apply stable_inflatable | by apply private_stable]. }
  intros s g I K [HF [Hv Hni]]. simpl in Hv. unfold propagate. run_step.
  rewrite (owner_check t ℓ1 owner hash s g) by done. cbn [obj_ new_monitor with_monitor_lock find].
  rewrite bind_lift with (a := o) by done.
  assert (Hend : forall r s', step_to t ℓ1 (s, g) s' (propagated m r) ->
    action_ok t (Some (Ok (r, s'))) Ret (fun r => post t ℓ1 (propagated m r)) s g).
  { intros r s' Hs. exists ℓ1, (propagated m r). split; [done |].
    apply triple_value; [apply propagated_stable | done]. }
  unfold F, words, inflatable in HF. simpl in HF.
  destruct (lock_words s !! o) as [w |] eqn:Hw; [simpl in HF | done]. run_step.
  pose proof (word_ok_view _ _ _ _ I (inv_words _ I _ _ Hw)) as Hok.
  destruct (view_of w) as [| u c | m1 | h |] eqn:Ew; try done.
  - destruct Hok as (-> & Hu & Hur & Hc). rewrite thin_word_state by lia.
    rewrite (bind_lift _ _ _ _ (ThinLockOwner_ok u c ltac:(lia) Hc ltac:(lia))).
    rewrite bind_check by (simpl; by rewrite bool_decide_true).
    rewrite (bind_lift _ _ _ _ (ThinLockCount_ok u c ltac:(lia) Hc ltac:(lia))). run_step.
    apply Hend. apply (private_count s g); try done; [lia | simpl; congruence |].
    intros g'. split; [unfold F, words, inflatable; simpl; rewrite Hw; simpl; by rewrite Ew |].
    eexists. split; [split; [simpl; by rewrite lookup_insert_eq | exact Hni] |].
    split; [done |]. split; [done |]. unfold copies. by rewrite Ew.
  - destruct Hok as (-> & Hm1 & _). rewrite fat_word_state by done.
    apply Hend. apply no_step; [done.. |]. split.
    { unfold F, words, inflatable. simpl. rewrite Hw; simpl; by rewrite Ew. }
    eexists. by split; [split; [exact Hv | exact Hni] |].
  - destruct Hok as (-> & Hh). destruct HF as [HF ->]. rewrite hash_word_state by lia.
    rewrite (bind_lift _ _ _ _ (GetHashCode_ok hash ltac:(lia))).
    rewrite bind_check by (simpl; by rewrite Z.eqb_refl).
    apply Hend. apply no_step; [done.. |]. split.
    { unfold F, words, inflatable. simpl. rewrite Hw; simpl; by rewrite Ew. }
    eexists. split; [split; [exact Hv | exact Hni] |]. split; [done |]. split; [done |].
    unfold copies. by rewrite Ew.
Qed.

Lemma install_step w s g :
  Inv (s, g) -> knows t ℓ1 (s, g) -> propagated m (Some (o, w)) (s, g) -> lock_words s !! o = Some w ->
  step_to t ℓ1 (s, g) (with_lock_words (<[o := fat_word m]> (lock_words s)) s) (words (is_fat o m)).
Proof.
  intros I K (HF & v & [Hv Hni] & Hlock & _ & Eo & Eh & Eb & Hcopy) Hw. simpl in Hv, Hni.
  pose proof (mon_id _ _ _ (inv_monitors _ I _ _ Hv)) as Hm.
  pose proof (word_ok_view _ _ _ _ I (inv_words _ I _ _ Hw)) as Hok.
  assert (Hcount : forall u, view_count s u (view_of (fat_word m)) = view_count s u (view_of w)).
  { intros u. rewrite view_fat by done. simpl. rewrite Hv. simpl. unfold monitor_count. rewrite Eo.
    destruct (view_of w); simpl in *; try done.
    - destruct Hcopy as [-> ->]. do 2 case_bool_decide; congruence.
    - destruct Hcopy as (-> & _). by rewrite bool_decide_false. }
  assert (Hc : forall u, view_count s u (view_of w) = count s u o).
  { intros u. rewrite count_view. unfold lock_view. by rewrite Hw. }
  apply (set_word_step t ℓ1 s g I K o w (fat_word m) Hw) with (c := l_count ℓ1).
  - split.
    + by apply (knows_runnable _ _ _ K).
    + by apply (ok_fat _ _ m v).
    + intros u _. apply Hcount.
    + rewrite Hcount, Hc. rewrite <- (k_events _ _ _ K). apply (inv_held _ I).
    + rewrite view_fat by done. simpl. rewrite Hv. simpl. rewrite Eh.
      destruct (view_of w); simpl in *; try done. by destruct Hcopy as (_ & -> & _).
    + intros u c Hu Hr Eq. rewrite Eq in Hcopy, Hok. destruct Hcopy as [Hown' _].
      unfold controls in Hown. rewrite Hown' in Hown. destruct Hown as [? | Hs]; [done |].
      by apply (k_suspended _ _ _ K _) in Hs as [_ Hnr].
    + intros m1 Eq. by rewrite Eq in Hcopy.
    + intros m1. rewrite view_fat by done. intros [= <-]. by apply (k_fresh _ _ _ K).
  - intros o1. case_decide; [subst | done]. rewrite Hcount, Hc. symmetry. apply (k_count _ _ _ K).
  - unfold words, is_fat. simpl. rewrite lookup_insert_eq. simpl. by rewrite view_fat.
Qed.

Definition uninstalled (lock : option tid) : assertion :=
  fun σ => F σ /\ exists v, private m v σ /\ monitor_lock_ v = lock.

Lemma uninstalled_stable ℓ2 lock :
  l_fresh ℓ2 = Some m -> stable t ℓ2 F -> stable t ℓ2 (uninstalled lock).
Proof.
  intros Hf HF. apply stable_and; [done |]. intros σ σ' R I I' K (v & Hp & Hv).
  exists v. split; [| done]. by eapply (private_stable t ℓ2 m v).
Qed.

Lemma cas_install_spec w :
  triple t ℓ1 (propagated m (Some (o, w))) (CasLockWordWeak o w (fat_word m))
    (fun b : bool => post t ℓ1 (if b then words (is_fat o m) else uninstalled (Some t))).
Proof.
  apply triple_last, triple_choosing; [apply propagated_stable |]. intros s g c I K Hp.
  assert (exists w', lock_words s !! o = Some w') as [w' Hw'].
  { destruct Hp as [HF _]. unfold F, words, inflatable in HF. simpl in HF.
    destruct (lock_words s !! o); [by eexists | done]. }
  run_step. destruct (bool_decide (w' = w) && (c =? 0)) eqn:E.
  - apply andb_true_iff in E as [->%bool_decide_eq_true _]. run_step.
    exists ℓ1, (words (is_fat o m)). split; [by apply (install_step w) |].
    apply triple_value; [| done]. apply stable_fat. by left.
  - exists ℓ1, (propagated m (Some (o, w))). split; [by apply no_step |].
    apply triple_value; [apply propagated_stable |]. intros σ I' K' (HF & v & Hpr & Hl & _).
    split; [done |]. split; [done |]. by exists v.
Qed.

Lemma inflatable_lasts ℓ2 : l_state ℓ2 = l_state ℓ -> l_suspended ℓ2 = l_suspended ℓ -> stable t ℓ2 F.
Proof. intros E1 E2. apply stable_inflatable; [congruence |]. unfold controls. by rewrite E2. Qed.

Lemma unlock_uninstalled_spec :
  triple t ℓ1 (uninstalled (Some t)) (MutexUnlock t m)
    (fun _ => post t (set_fresh (Some m) ℓ) (uninstalled None)).
Proof.
  apply triple_before with (fun σ => exists v, (F σ /\ private m v σ) /\ monitor_lock_ v = Some t).
  2: { intros σ _ _ (HF & v & Hp & Hl). by exists v. }
  apply triple_exists. intros v σ I K [HF Hl].
  pose proof (MutexUnlock_private ℓ1 m v eq_refl eq_refl Hl
    ltac:(by apply inflatable_lasts) ltac:(by apply inflatable_lasts) σ I K HF) as Hw.
  eapply wp_weaken; [| exact Hw]. intros _ σ' I' [K' [HF' Hp']].
  unfold ℓ1 in K'. rewrite mutex_eta in K' by done.
  split; [done |]. split; [done |]. by exists (with_monitor_lock None v).
Qed.

Lemma Install_spec :
  triple t (set_fresh (Some m) ℓ) (fun σ => F σ /\ private m (new_monitor owner o hash) σ) (Install t m)
    (fun b : bool => post t (set_fresh (Some m) ℓ)
       (if b then words (is_fat o m) else uninstalled None)).
Proof.
  unfold Install. eapply triple_then with (ℓ' := fun _ => ℓ1)
    (F' := fun _ => fun σ => F σ /\ private m (with_monitor_lock (Some t) (new_monitor owner o hash)) σ).
  { apply (MutexLock_private (set_fresh (Some m) ℓ) m); try done; by apply inflatable_lasts. }
  intros _. eapply triple_then; [apply propagate_spec | intros r].
  assert (Hs : stable t (set_fresh (Some m) ℓ) (uninstalled None)).
  { apply uninstalled_stable; [done | by apply inflatable_lasts]. }
  destruct r as [[o' w] |].
  - intros σ I K Hp. assert (o' = o) as -> by (destruct Hp as [_ Hp]; destruct Hp as (v & Hp); apply Hp).
    assert (0 <= m <= kMaxMonitorId) as Hm.
    { destruct Hp as (_ & v & [Hv _] & _). apply (mon_id _ _ _ (inv_monitors _ I _ _ Hv)). }
    rewrite FromMonitor_ok by done. revert σ I K Hp.
    change (triple t ℓ1 (propagated m (Some (o, w)))
      (success ← CasLockWordWeak o w (fat_word m); _ ← MutexUnlock t m; mret success)
      (fun b : bool => post t (set_fresh (Some m) ℓ) (if b then words (is_fat o m) else uninstalled None))).
    eapply triple_then; [apply cas_install_spec |]. intros [].
    + eapply triple_then with (ℓ' := fun _ => set_fresh (Some m) ℓ) (F' := fun _ => words (is_fat o m)).
      * eapply triple_mono; [apply MutexUnlock_spec; [by left | done] |]. intros _ σ I [K Hi].
        unfold ℓ1 in K. by rewrite mutex_eta in K.
      * intros _. apply triple_value; [| done]. apply stable_fat. by left.
    + eapply triple_then; [apply unlock_uninstalled_spec |]. intros []. by apply triple_value.
  - eapply triple_then with (ℓ' := fun _ => set_fresh (Some m) ℓ) (F' := fun _ => uninstalled None).
    + eapply triple_before; [apply unlock_uninstalled_spec |].
      intros σ _ _ (HF & v & Hp & Hl & _). split; [done |]. by exists v.
    + intros _. by apply triple_value.
Qed.
End install.

Lemma Inflate_spec : triple t ℓ F (Inflate t owner o hash) (fun _ => post t ℓ (words (is_object o))).
Proof.
  unfold Inflate. eapply triple_then; [apply CreateMonitor_spec |]. intros m.
  eapply triple_then; [apply Install_spec |]. intros [].
  - eapply triple_then with (ℓ' := fun _ => ℓ) (F' := fun _ => words (is_fat o m)).
    + apply triple_last, triple_awaiting; [apply stable_fat; by left |]. intros s g c I K Hi _.
      exists ℓ, (words (is_fat o m)). split; [| apply triple_value; [apply stable_fat; by left | done]].
      rewrite <- (fresh_eta ℓ (Some m)) by done. apply (add_monitor_step t _ s g I K m); try done. by exists o.
    + intros _. apply triple_atomic; [apply stable_fat; by left |]. intros s g I K Hi.
      destruct (installed_monitor _ _ _ _ I Hi) as (Hw & Hm & v & Hv & Ho). run_step.
      exists ℓ, (words (is_fat o m)). split; [by apply no_step |].
      unfold has_state. rewrite fat_word_state, bool_decide_true by done.
      apply triple_value; [apply stable_fat; by left |]. intros σ _ K' Hi'. split; [done |].
      unfold words, is_fat, is_object in *. by destruct (lock_words σ.1 !! o).
  - apply triple_last, triple_atomic; [apply uninstalled_stable; [done |]; by apply inflatable_lasts |].
    intros s g I K (HF & v & [Hv Hni] & Hl). simpl in Hv, Hni. unfold release_monitor. run_step.
    rewrite bind_check by (by rewrite Hl, bool_decide_true).
    assert (Hf : fresh g m = Some t) by by apply (k_fresh _ _ _ K).
    exists ℓ, (words (is_object o)). split; [| apply triple_value; [apply stable_object | done]].
    rewrite <- (fresh_eta ℓ (Some m)) by done.
    apply (release_monitor_step t _ s g I K m v (list_ s) None); try done; [by right | by left | | | |].
    + apply (inv_list_nodup _ I).
    + intros x. split; [| by intros []]. intros Hx. split; [done |]. intros ->.
      apply (inv_list _ I) in Hx as [_ Hx]. simpl in Hx. congruence.
    + intros m1. simpl. split; [done |]. intros [[= ->] ?]. done.
    + unfold F, words, inflatable, is_object in *. simpl in *. by destruct (lock_words s !! o).
Qed.
End inflate.

(** ** Inflation under contention *)

Lemma state_eta ℓ st : l_state ℓ = kRunnable -> set_state kRunnable (set_state st ℓ) = ℓ.
Proof. destruct ℓ; simpl. by intros ->. Qed.

Lemma suspending_eta ℓ st u :
  l_state ℓ = kRunnable -> set_state kRunnable (suspending u (set_state st ℓ)) = suspending u ℓ.
Proof. destruct ℓ; simpl. by intros ->. Qed.

(** An access to a lock word, and what it may hold. *)
Lemma GetLockWord_rule {A} t ℓ o (F : assertion) (k : Z -> prog State A) Q :
  stable t ℓ F -> (forall σ, Inv σ -> F σ -> is_object o (lock_words σ.1)) ->
  (forall s g w, Inv (s, g) -> knows t ℓ (s, g) -> F (s, g) -> lock_words s !! o = Some w ->
     exists F', F' (s, g) /\ triple t ℓ F' (k w) Q) ->
  triple t ℓ F (GetLockWord o ≫= k) Q.
Proof.
  intros HF Ho Hk. apply triple_atomic; [done |]. intros s g I K Hσ.
  destruct (Ho _ I Hσ) as [w Hw]. simpl in Hw. run_step.
  destruct (Hk s g w I K Hσ Hw) as (F' & HF' & Ht). exists ℓ, F'. split; [by apply no_step | done].
Qed.

Lemma SetMonitorEnterObject_spec t ℓ φ x :
  stable t ℓ (words φ) ->
  triple t ℓ (words φ) (atomic (on_thread t (with_monitor_enter_object x))) (fun _ => post t ℓ (words φ)).
Proof. intros Hφ. by apply own_fields_spec. Qed.

(** The thread is between operations, as far as locks are concerned. *)
Record ready (ℓ : local_state) : Prop := {
  rd_state : l_state ℓ = kRunnable;
  rd_fresh : l_fresh ℓ = None;
  rd_mutex : l_mutex ℓ = None;
  rd_wait_mutex : l_wait_mutex ℓ = None;
  rd_suspending : l_suspending ℓ = ∅;
  rd_suspended : l_suspended ℓ = ∅;
  rd_exclusive : l_exclusive ℓ = false;
}.

Section contention.
Context (t u : tid) (ℓ : local_state) (o hash : Z) (R : ready ℓ) (Hut : u <> t).
Context (Hhash : 0 <= hash <= kMaxHash).

Lemma suspended_inflation_spec :
  triple t (suspending u ℓ) (words (is_object o))
    (lock_word ← GetLockWord o;
     owner' ← local (if has_state lock_word kThinLocked then Some <$> ThinLockOwner lock_word
                     else Ok None);
     _ ← (if bool_decide (owner' = Some u) then Inflate t (Some u) o hash else mret tt);
     Resume t u)
    (fun _ => post t ℓ (words (is_object o))).
Proof.
  destruct R. apply GetLockWord_rule; [apply stable_object | by intros |].
  intros s g w I K Ho Hw. pose proof (word_ok_view _ _ _ _ I (inv_words _ I _ _ Hw)) as Hok.
  assert (Hres : triple t (suspending u ℓ) (words (is_object o)) (Resume t u)
    (fun _ => post t ℓ (words (is_object o)))).
  { apply Resume_spec; [intros; apply stable_object | done | |]; set_solver. }
  assert (Hother : triple t (suspending u ℓ) (words (is_object o))
    (_ ← (mret tt : prog State unit); Resume t u) (fun _ => post t ℓ (words (is_object o)))) by exact Hres.
  unfold has_state. destruct (view_of w) as [| x c | m | h |] eqn:Ew; try done.
  - rewrite Hok. exists (words (is_object o)). done.
  - destruct Hok as (-> & _ & Hx & Hc). rewrite thin_word_state, bool_decide_true by (try done; lia).
    rewrite ThinLockOwner_ok by lia. simpl fmap. change (local (Ok (Some x)) ≫= _) with
      ((fun owner' => _ ← (if bool_decide (owner' = Some u) then Inflate t (Some u) o hash else mret tt); Resume t u) (Some x)).
    cbn beta. case_bool_decide as E; [injection E as -> | by exists (words (is_object o))].
    exists (words (inflatable o (Some u) hash)). split.
    { unfold words, inflatable. simpl. rewrite Hw. simpl. by rewrite Ew. }
    eapply triple_then with (ℓ' := fun _ => suspending u ℓ) (F' := fun _ => words (is_object o));
      [apply Inflate_spec; try done; simpl; right; set_solver |]. by intros [].
  - destruct Hok as (-> & Hm & _). rewrite fat_word_state, bool_decide_false by done.
    by exists (words (is_object o)).
  - destruct Hok as (-> & Hh). rewrite hash_word_state, bool_decide_false by (done || lia).
    by exists (words (is_object o)).
Qed.

Lemma InflateThinLocked_other fuel c :
  0 < u <= kThinLockMaxOwner -> 0 <= c <= kThinLockMaxCount ->
  triple t ℓ (words (is_object o)) (InflateThinLocked fuel t o (thin_word u c) hash)
    (fun _ => post t ℓ (words (is_object o))).
Proof.
  intros Hu Hc. destruct R. unfold InflateThinLocked. rewrite ThinLockOwner_ok by lia.
  change (local (Ok u) ≫= ?k) with (k u). cbn beta. rewrite bool_decide_false by done.
  eapply triple_seq; [apply SetMonitorEnterObject_spec, stable_object |].
  eapply triple_seq; [apply TransitionFromRunnableToSuspended_spec; try done; try apply stable_object; congruence |].
  eapply triple_then; [apply SuspendThreadByThreadId_spec; try done; try (intros; apply stable_object); simpl; try lia; try done; set_solver |].
  intros b. eapply triple_seq with (ℓ' := if b then suspending u ℓ else ℓ) (F' := words (is_object o)).
  { eapply triple_mono; [apply TransitionFromSuspendedToRunnable_spec; [by destruct b | apply stable_object..] |].
    intros _ σ _ [K Ho]. split; [| done]. destruct b; [by rewrite suspending_eta in K | by rewrite state_eta in K]. }
  eapply triple_seq with (ℓ' := ℓ) (F' := words (is_object o)).
  { destruct b; [apply suspended_inflation_spec |]. by apply triple_value; [apply stable_object |]. }
  apply SetMonitorEnterObject_spec, stable_object.
Qed.
End contention.

(** ** Entering a monitor *)

(** The count of [o] changes by [d]. *)
Definition bump (o d : Z) (ℓ : local_state) : local_state :=
  set_count (fun x => if decide (x = o) then l_count ℓ x + d else l_count ℓ x) ℓ.

Section holder.
Context (t : tid) (ℓ : local_state) (s : State) (g : ghost) (o m : Z) (v : Monitor).
Context (I : Inv (s, g)) (K : knows t ℓ (s, g)) (Hi : installed s o m).
Context (Hv : monitors s !! m = Some v) (Hlock : monitor_lock_ v = Some t) (Ha : access ℓ m).
Context (Hl : l_mutex ℓ = Some m).

Lemma holder_mutex m1 :
  l_mutex ℓ = Some m1 <-> if decide (m1 = m) then monitor_lock_ v = Some t else l_mutex ℓ = Some m1.
Proof. case_decide; [subst; by rewrite Hlock, Hl | done]. Qed.

Lemma holder_right : runnable s t \/ (exists b, (t, b) ∈ waiters g m) \/ mutator_exclusive s = Some t.
Proof. by apply (knows_access _ _ _ _ K). Qed.

Lemma holder_waits m1 b :
  (m1, b) ∈ l_waits ℓ <-> if decide (m1 = m) then (t, b) ∈ waiters g m else (m1, b) ∈ l_waits ℓ.
Proof.
  pose proof (k_waits _ _ _ K m1 b) as Hk. simpl in Hk. case_decide; [subst; by rewrite Hk | done].
Qed.

(** The holder of the mutex changes the owner or the count of its own. *)
Lemma holder_count_update v' d (P : assertion) :
  monitor_lock_ v' = Some t -> num_waiters_ v' = num_waiters_ v -> obj_ v' = obj_ v ->
  wait_set_ v' = wait_set_ v -> hash_code_ v' = hash_code_ v ->
  0 <= lock_count_ v' -> (owner_ v' = None -> lock_count_ v' = 0) ->
  (owner_ v' = None \/ owner_ v' = Some t) -> (owner_ v = None \/ owner_ v = Some t) ->
  monitor_count t v' = monitor_count t v + d ->
  held (l_events ℓ) o <= l_count ℓ o + d ->
  (forall g', P (with_monitors (<[m := v']> (monitors s)) s, g')) ->
  step_to t (bump o d ℓ) (s, g) (with_monitors (<[m := v']> (monitors s)) s) P.
Proof.
  intros El En Eb Es Eh Hc Hun Ho' Ho Hmc Hheld HP.
  assert (Hcount := count_monitor _ _ _ _ _ _ _ K Hv Hi).
  apply (set_monitor_step t ℓ s g I K m v v' Hv (waiters g m)) with (waits := l_waits ℓ) (mutex := l_mutex ℓ)
    (c := fun x => if decide (x = o) then l_count ℓ x + d else l_count ℓ x).
  - split; try done.
    + destruct (inv_monitors _ I _ _ Hv). split; rewrite ?Eh; try done.
      intros u Hu. destruct Ho' as [Ho' | Ho']; [congruence |]. rewrite Ho' in Hu. injection Hu as <-.
      destruct (k_thread _ _ _ K) as (th & Hth & _). by exists th.
    + intros u o1 Hu _. unfold monitor_count. rewrite !bool_decide_false; [done | |];
        (destruct Ho, Ho'; congruence).
    + intros o1 Ho1. assert (o1 = o) as -> by (by eapply installed_once). lia.
    + rewrite En. by apply (inv_waiters _ I).
    + apply (inv_waiting _ I).
    + apply (inv_chain_waiters _ I).
    + intros u Hu. rewrite El, Hlock. split; congruence.
    + intros u Hu. congruence.
    + intros _. apply holder_right.
    + intros u Hu Hf. by exists o.
  - intros o1. destruct (decide (installed s o1 m)) as [Hi1 | Hi1].
    + assert (o1 = o) as -> by (by eapply installed_once). rewrite decide_True by done. lia.
    + case_decide; [subst; done | done].
  - apply holder_waits.
  - intros m1. pose proof (holder_mutex m1) as Hm. rewrite Hlock in Hm. by rewrite El.
  - apply HP.
Qed.

(** The holder of the mutex counts itself among the waiters, or no longer. *)
Lemma holder_waiters_update (n : Z) (W : gset (tid * bool)) (waits : gset (Z * bool)) (P : assertion) :
  let v' := with_num_waiters n v in
  n = Z.of_nat (size W) -> (forall u b, u <> t -> (u, b) ∈ W <-> (u, b) ∈ waiters g m) ->
  (t ∈ chain g m -> (t, false) ∈ W) -> access (set_waits waits ℓ) m ->
  (forall m1 b, (m1, b) ∈ waits <-> if decide (m1 = m) then (t, b) ∈ W else (m1, b) ∈ l_waits ℓ) ->
  (forall g', P (with_monitors (<[m := v']> (monitors s)) s, g')) ->
  step_to t (set_waits waits ℓ) (s, g) (with_monitors (<[m := v']> (monitors s)) s) P.
Proof.
  intros v' Hn HW Hch Ha' Hwaits HP.
  apply (set_monitor_step t ℓ s g I K m v v' Hv W) with (c := l_count ℓ) (waits := waits) (mutex := l_mutex ℓ); try done.
  - split; simpl; try done.
    + destruct (inv_monitors _ I _ _ Hv). by split.
    + intros o1 Ho1. apply (held_monitor t ℓ s g m v o1 I K Hv Ho1).
    + intros p Hp. by exists o.
    + intros u Hu. congruence.
    + intros _. destruct Ha' as [Hst | [[b Hb] | Hx]]; simpl in *.
      * left. by apply (knows_runnable _ _ _ K).
      * right; left. exists b. apply Hwaits in Hb. by rewrite decide_True in Hb.
      * right; right. by apply (k_exclusive _ _ _ K).
    + intros u Hu Hf. by exists o.
  - intros o1. case_decide; [| done]. by apply (count_monitor t ℓ s g m v o1).
  - apply holder_mutex.
Qed.
End holder.

Lemma monitor_count_owner t v : 0 <= lock_count_ v -> owner_ v = Some t <-> 0 < monitor_count t v.
Proof. intros Hc. unfold monitor_count. case_bool_decide; split; (done || lia). Qed.

Definition waiting (m : Z) (b : bool) (ℓ : local_state) : local_state :=
  set_waits ({[(m, b)]} ∪ l_waits ℓ) ℓ.

Lemma waiting_eta ℓ m b : (m, b) ∉ l_waits ℓ -> set_waits (l_waits (waiting m b ℓ) ∖ {[(m, b)]}) (waiting m b ℓ) = ℓ.
Proof.
  destruct ℓ; simpl. intros Hn. unfold set_waits. simpl. f_equal. set_solver.
Qed.

Section enter.
Context (t : tid) (ℓ : local_state) (o m : Z).
Context (Hst : l_state ℓ = kRunnable) (Hw : (m, true) ∉ l_waits ℓ) (Hmx : l_mutex ℓ = None).
Context (Hbound : l_count ℓ o < 2 ^ 31) (Hheld : held (l_events ℓ) o <= l_count ℓ o).

Let F := words (is_fat o m).
Let ℓm := set_mutex (Some m) ℓ.

Lemma try_lock_spec :
  triple t ℓm F (atomic (try_lock t m))
    (fun b : bool => post t (if b then bump o 1 ℓm else waiting m true ℓm) F).
Proof.
  assert (Hfin : forall (b : bool) ℓ', access ℓ' m -> triple t ℓ' F (Ret b) (fun _ => post t ℓ' F)).
  { intros b ℓ' Ha. apply triple_value; [by apply stable_fat | done]. }
  apply triple_last, triple_atomic; [apply stable_fat; by left |]. intros s g I K Hi.
  destruct (holding _ _ _ _ m K eq_refl) as (v & Hv & Hlock). unfold try_lock. run_step.
  destruct (inv_monitors _ I _ _ Hv) as [_ Hc Hun _ _].
  pose proof (count_monitor _ _ _ _ _ _ _ K Hv Hi) as Hcount. simpl in Hcount.
  destruct (owner_ v) as [u |] eqn:Ho; [case_bool_decide as Hu; [subst u |] |].
  - assert (Hmc : monitor_count t v = lock_count_ v + 1)
      by (unfold monitor_count; by rewrite Ho, bool_decide_true).
    unfold increment_lock_count. rewrite (proj2 (Z.ltb_lt _ _)) by lia.
    rewrite bind_lift with (a := with_lock_count (lock_count_ v + 1) v) by done. run_step.
    exists (bump o 1 ℓm), F. split; [| apply (Hfin true); by left].
    eapply (holder_count_update t ℓm s g o m v); simpl; eauto; try done; try lia; [by left | congruence |].
    unfold monitor_count. simpl. rewrite Ho, !bool_decide_true by done. lia.
  - run_step. exists (waiting m true ℓm), F. split; [| apply (Hfin false); by left].
    assert (Hnt : (t, true) ∉ waiters g m) by (rewrite (k_waits _ _ _ K); done).
    apply (holder_waiters_update t ℓm s g o m v) with (W := {[(t, true)]} ∪ waiters g m); try done.
    + rewrite size_union, size_singleton by set_solver. rewrite (inv_waiters _ I _ _ Hv). simpl. lia.
    + intros x b Hx. rewrite elem_of_union, elem_of_singleton. split; [intros [? | ?]; [congruence | done] | auto].
    + intros Hch. apply (inv_chain_waiters _ I) in Hch. simpl in Hch. set_solver.
    + by left.
    + intros m1 b. pose proof (k_waits _ _ _ K m1 b) as Hk. simpl in Hk.
      rewrite elem_of_union, elem_of_singleton.
      destruct (decide (m1 = m)) as [E |]; [rewrite E, elem_of_union, elem_of_singleton in * |];
        intuition congruence.
  - rewrite (proj2 (Z.eqb_eq _ _)) by auto. rewrite bind_check by done. run_step.
    assert (Hmc : monitor_count t v = 0) by (unfold monitor_count; by rewrite Ho, bool_decide_false).
    exists (bump o 1 ℓm), F. split; [| apply (Hfin true); by left].
    eapply (holder_count_update t ℓm s g o m v); simpl; eauto; try done; try lia; [by left |].
    unfold monitor_count. simpl. rewrite Ho, (Hun eq_refl). rewrite bool_decide_true, bool_decide_false by done. lia.
Qed.
Let ℓw := waiting m true ℓ.

Lemma enter_object_spec :
  triple t ℓw F (atomic (v ← get_monitor m; on_thread t (with_monitor_enter_object (obj_ v))))
    (fun _ => post t ℓw F).
Proof.
  apply triple_last, triple_atomic; [apply stable_fat; by left |]. intros s g I K Hi.
  destruct (installed_monitor _ _ _ _ I Hi) as (_ & _ & v & Hv & _). run_step.
  destruct (self_thread _ _ _ _ K) as (th & Hth & _). run_step. exists ℓw, F.
  split; [by eapply own_update | apply triple_value; [apply stable_fat; by left | done]].
Qed.

Lemma stop_waiting_spec :
  triple t (set_mutex (Some m) ℓw) F
    (atomic (on_monitor m (fun v => with_num_waiters (num_waiters_ v - 1) v)))
    (fun _ => post t ℓm F).
Proof.
  apply triple_last, triple_atomic; [apply stable_fat; by left |]. intros s g I K Hi.
  destruct (holding _ _ _ _ m K eq_refl) as (v & Hv & Hlock). run_step.
  exists ℓm, F. split; [| apply triple_value; [apply stable_fat; by left | done]].
  assert (Hin : (t, true) ∈ waiters g m) by (apply (k_waits _ _ _ K); simpl; set_solver).
  assert (E : set_waits (l_waits ℓ) (set_mutex (Some m) ℓw) = ℓm) by done. rewrite <- E.
  apply (holder_waiters_update t _ s g o m v) with (W := waiters g m ∖ {[(t, true)]}); try done.
  - rewrite size_difference, size_singleton by set_solver. rewrite (inv_waiters _ I _ _ Hv). simpl.
    assert (size (waiters g m) <> 0)%nat by (intros Hz%size_empty_inv; set_solver). lia.
  - intros x b Hx. rewrite elem_of_difference, elem_of_singleton. intuition congruence.
  - intros Hch. apply (inv_chain_waiters _ I) in Hch. simpl in Hch. set_solver.
  - by left.
  - intros m1 b. pose proof (k_waits _ _ _ K m1 b) as Hk. simpl in Hk.
    rewrite elem_of_union, elem_of_singleton in Hk. simpl.
    destruct (decide (m1 = m)) as [Em |].
    + rewrite Em in *. rewrite elem_of_difference, elem_of_singleton.
      split; [intros Hin'; split; [tauto |]; intros [= ->]; done | intuition congruence].
    + rewrite elem_of_union, elem_of_singleton. intuition congruence.
Qed.

Lemma Lock_loop_spec fuel :
  triple t ℓm F (Lock_loop fuel t m) (fun _ => post t (bump o 1 ℓ) F).
Proof.
  assert (Hin : forall ℓ', l_waits ℓ' = l_waits ℓw -> access ℓ' m).
  { intros ℓ' E. right; left. exists true. rewrite E. simpl. set_solver. }
  assert (HF : forall ℓ', l_waits ℓ' = l_waits ℓw -> stable t ℓ' F) by (intros; apply stable_fat; auto).
  induction fuel as [| fuel IH]; [apply triple_never |]. cbn [Lock_loop].
  eapply triple_then; [apply try_lock_spec |]. intros [].
  - eapply triple_mono; [apply MutexUnlock_spec; [by left | done] |]. intros _ σ _ [K Hi].
    split; [| done]. change (knows t (set_mutex None (set_mutex (Some m) (bump o 1 ℓ))) σ) in K.
    by rewrite mutex_eta in K.
  - eapply triple_seq with (ℓ' := ℓw) (F' := F).
    { eapply triple_mono; [apply MutexUnlock_spec; [by left | done] |]. intros _ σ _ [K Hi].
      split; [| done]. change (knows t (set_mutex None (set_mutex (Some m) ℓw)) σ) in K.
      by rewrite mutex_eta in K. }
    eapply triple_seq; [apply enter_object_spec |].
    eapply triple_seq; [apply TransitionFromRunnableToSuspended_spec; try done; [simpl; congruence | by apply HF..] |].
    eapply triple_seq; [apply MutexLock_spec; [by apply Hin | done] |].
    eapply triple_chain with (R := fun _ => post t (set_mutex (Some m) (set_state kBlocked ℓw)) F).
    { apply triple_last, triple_atomic; [by apply HF |]. intros s g I K Hi.
      destruct (holding _ _ _ _ m K eq_refl) as (v & Hv & Hlock). run_step.
      exists (set_mutex (Some m) (set_state kBlocked ℓw)), F. split; [by apply no_step |].
      apply triple_value; [by apply HF | done]. }
    intros owner σ I [K Hi]. revert σ I K Hi.
    eapply triple_seq with (ℓ' := set_mutex (Some m) (set_state kBlocked ℓw)) (F' := F).
    { case_bool_decide; [apply triple_value; [by apply HF | done] |].
      apply ContendersWait_spec; [by apply Hin | done]. }
    eapply triple_seq; [apply MutexUnlock_spec; [by apply Hin | done] |].
    eapply triple_seq with (ℓ' := ℓw) (F' := F).
    { eapply triple_mono; [apply TransitionFromSuspendedToRunnable_spec; [done | by apply HF..] |].
      intros _ σ _ [K Hi]. split; [| done].
      change (knows t (set_state kRunnable (set_state kBlocked (set_mutex None (set_mutex (Some m) ℓw)))) σ) in K.
      by rewrite mutex_eta, state_eta in K. }
    eapply triple_seq; [apply SetMonitorEnterObject_spec; by apply HF |].
    eapply triple_seq; [apply MutexLock_spec; [by apply Hin | done] |].
    eapply triple_seq; [apply stop_waiting_spec | exact IH].
Qed.

Lemma Lock_spec fuel : triple t ℓ F (Lock fuel t m) (fun _ => post t (bump o 1 ℓ) F).
Proof. eapply triple_seq; [apply MutexLock_spec; [by left | done] | apply Lock_loop_spec]. Qed.
End enter.

(** ** Leaving a monitor *)

Lemma throw_step t ℓ s g e (P : assertion) :
  Inv (s, g) -> knows t ℓ (s, g) ->
  (forall ts g', P (with_threads ts s, g')) ->
  exists s', throw t e s = Ok (tt, s') /\ step_to t (set_pending (Some e) ℓ) (s, g) s' P.
Proof.
  intros I K HP. destruct (self_thread _ _ _ _ K) as (th & Hth & Hst & Hm & Hp). simpl in Hth.
  unfold throw. run_step. eexists. split; [done |].
  apply (quiet_update t ℓ s g I K t th _ Hth); simpl; try done.
  - by rewrite decide_True.
  - by rewrite decide_True.
  - intros y. case_decide; [subst; symmetry; by apply (k_wait_mutex _ _ _ K) | done].
Qed.

Lemma throw_spec t ℓ φ e :
  stable t ℓ (words φ) -> stable t (set_pending (Some e) ℓ) (words φ) ->
  triple t ℓ (words φ) (atomic (throw t e)) (fun _ => post t (set_pending (Some e) ℓ) (words φ)).
Proof.
  intros Hφ Hφ'. apply triple_last, triple_atomic; [done |]. intros s g I K Hσ.
  destruct (throw_step t ℓ s g e (words φ) I K) as (s' & -> & Hs); [done |].
  exists (set_pending (Some e) ℓ), (words φ). split; [done | by apply triple_value].
Qed.

(** The owner of a thin lock changes its count. *)

Lemma own_word_step t ℓ o (R : ready ℓ) (c c' : Z) (w' : Z) d s g (P : assertion) :
  Inv (s, g) -> knows t ℓ (s, g) -> words (is_thin o t c) (s, g) ->
  (w' = Unlocked /\ c' = -1 \/ w' = thin_word t c' /\ 0 <= c' <= kThinLockMaxCount) ->
  c' = c + d -> held (l_events ℓ) o <= l_count ℓ o + d ->
  (forall ws g', P (with_lock_words ws s, g')) ->
  exists s', set_word o w' s = Ok (tt, s') /\ step_to t (bump o d ℓ) (s, g) s' P.
Proof.
  destruct R. intros I K Hthin Hw' Hc' Hh HP. unfold words, is_thin in Hthin. simpl in Hthin.
  pose proof (k_count _ _ _ K o) as Hk. simpl in Hk. rewrite count_view in Hk. unfold lock_view in Hk.
  rewrite Hthin in Hk. simpl in Hk. rewrite bool_decide_true in Hk by done.
  destruct (lock_words s !! o) as [w |] eqn:Hw; [injection Hthin as Ew | done].
  pose proof (word_ok_view _ _ _ _ I (inv_words _ I _ _ Hw)) as Hok. rewrite Ew in Hok.
  destruct Hok as (-> & Hth & Ht & Hc). run_step. eexists. split; [done |].
  assert (Hcount : forall u, view_count s u (view_of w') = if bool_decide (t = u) then c' + 1 else 0).
  { intros u. destruct Hw' as [[-> ->] | [-> Hr]]; [by case_bool_decide |]. by rewrite view_thin. }
  apply (set_word_step t ℓ s g I K o (thin_word t c) w' Hw); [| | apply HP].
  - split.
    + by apply (knows_runnable _ _ _ K).
    + destruct Hw' as [[-> _] | [-> Hr]]; [constructor | by constructor].
    + intros u Hu. rewrite Hcount, Ew. simpl. by rewrite !bool_decide_false.
    + rewrite Hcount, bool_decide_true by done. lia.
    + by rewrite Ew.
    + intros u c1 Hu _. rewrite Ew. congruence.
    + intros m1. by rewrite Ew.
    + intros m1. destruct Hw' as [[-> _] | [-> Hr]]; [done | by rewrite view_thin].
  - intros o1. simpl. rewrite Hcount, bool_decide_true by done. case_decide; [subst; lia | done].
Qed.

Section leave.
Context (t : tid) (ℓ : local_state) (o : Z) (R : ready ℓ).
Context (Hheld : held (l_events ℓ) o <= Z.max 0 (l_count ℓ o - 1)).

(** What the thread knows after it has tried to leave. *)
Definition left_object (b : bool) : local_state :=
  if b then bump o (-1) ℓ else set_pending (Some IllegalMonitorStateException) ℓ.

Lemma Unlock_spec m :
  triple t ℓ (words (is_fat o m)) (Unlock t m)
    (fun b : bool => post t (left_object b) (fun _ => b = (0 <? l_count ℓ o))).
Proof.
  destruct R. pose (ℓm := set_mutex (Some m) ℓ).
  eapply triple_seq; [apply MutexLock_spec; [by left | done] |].
  eapply triple_then with (ℓ' := fun b : bool => set_mutex (Some m) (left_object b))
    (F' := fun b => fun σ => words (is_fat o m) σ /\ b = (0 <? l_count ℓ o)).
  - apply triple_last, triple_choosing; [apply stable_fat; by left |]. intros s g c I K Hi.
    destruct (holding _ _ _ _ m K eq_refl) as (v & Hv & Hlock). run_step.
    pose proof (count_monitor _ _ _ _ _ _ _ K Hv Hi) as Hcount. simpl in Hcount.
    destruct (inv_monitors _ I _ _ Hv) as [_ Hc Hun _ _].
    assert (Hfin : forall b, b = (0 <? l_count ℓ o) ->
      triple t (set_mutex (Some m) (left_object b)) (words (is_fat o m)) (Ret b)
        (fun b => post t (set_mutex (Some m) (left_object b))
           (fun σ => words (is_fat o m) σ /\ b = (0 <? l_count ℓ o)))).
    { intros b Hb. apply triple_value; [apply stable_fat; left; by destruct b | done]. }
    destruct (bool_decide (owner_ v = Some t)) eqn:Ho.
    + run_step. exists (set_mutex (Some m) (left_object true)), (words (is_fat o m)).
      apply bool_decide_eq_true in Ho. assert (Hmc : monitor_count t v = lock_count_ v + 1)
        by (unfold monitor_count; by rewrite bool_decide_true).
      split; [| apply Hfin; symmetry; apply Z.ltb_lt; lia].
      eapply (holder_count_update t ℓm s g o m v); eauto; simpl; try done; try lia; [by left | case_match; simpl ..].
      all: try done; try lia; try (by left); try (by right); try congruence.
      * unfold monitor_count. simpl. rewrite bool_decide_true by done. lia.
      * unfold monitor_count. simpl. rewrite !bool_decide_true by done. lia.
    + apply bool_decide_eq_false in Ho.
      destruct (throw_step t ℓm s g IllegalMonitorStateException (words (is_fat o m)) I K) as (s' & Ht & Hs); [done |].
      rewrite (bind_eq _ _ _ _ _ Ht).
      exists (set_mutex (Some m) (left_object false)), (words (is_fat o m)). split; [done |].
      apply Hfin. symmetry. apply Z.ltb_ge. unfold monitor_count in Hcount.
      rewrite bool_decide_false in Hcount by done. lia.
  - intros b σ I K [Hi Hb]. revert σ I K Hi.
    change (triple t (set_mutex (Some m) (left_object b)) (words (is_fat o m)) (_ ← MutexUnlock t m; mret b)
      (fun b : bool => post t (left_object b) (fun _ => b = (0 <? l_count ℓ o)))).
    eapply triple_seq with (ℓ' := left_object b) (F' := words (is_fat o m)).
    + eapply triple_mono; [apply MutexUnlock_spec; [left; by destruct b | done] |]. intros _ σ _ [K Hi].
      split; [| done]. by rewrite mutex_eta in K by (by destruct b).
    + apply triple_value; [apply stable_fat; left; by destruct b | done].
Qed.

Context (Hexc : l_count ℓ o <= 0 -> exists h, l_events ℓ = Call (Exit o) :: h /\ depth h o <= 0).

(** Leaving an object that is not held throws. *)
Lemma not_held_spec (φ : gmap Z Z -> Prop) :
  l_count ℓ o = 0 -> (forall ℓ', stable t ℓ' (words φ)) ->
  triple t ℓ (words φ) (_ ← atomic (FailedUnlock t); mret false)
    (fun b : bool => post t (left_object b) (fun _ => b = (0 <? l_count ℓ o))).
Proof.
  intros H0 Hφ. eapply triple_seq; [apply throw_spec; apply Hφ |]. apply triple_value; [apply Hφ |].
  intros σ _ K _. split; [done |]. by rewrite H0.
Qed.

Lemma thin_leave_spec c :
  0 <= c <= kThinLockMaxCount -> l_count ℓ o = c + 1 -> 0 < t <= kThinLockMaxOwner ->
  triple t ℓ (words (is_thin o t c))
    (_ ← (if negb (c =? 0) then
            thin_locked ← local (FromThinLockId t (c - 1)); SetLockWord o thin_locked
          else SetLockWord o Unlocked);
     mret true)
    (fun b : bool => post t (left_object b) (fun _ => b = (0 <? l_count ℓ o))).
Proof.
  destruct R. intros Hc Hl Ht.
  assert (Hstep : forall w', (w' = Unlocked /\ c - 1 = -1 \/ w' = thin_word t (c - 1) /\ 0 <= c - 1 <= kThinLockMaxCount) ->
    triple t ℓ (words (is_thin o t c)) (SetLockWord o w') (fun _ => post t (bump o (-1) ℓ) (fun _ => True))).
  { intros w' Hw'. apply triple_last, triple_atomic; [by apply stable_thin |]. intros s g I K Hthin.
    destruct (own_word_step t ℓ o R c (c - 1) w' (-1) s g (fun _ => True) I K Hthin) as (s' & -> & Hs); try done; try lia.
    exists (bump o (-1) ℓ), (fun _ => True). split; [done | by apply triple_value]. }
  eapply triple_seq with (ℓ' := bump o (-1) ℓ) (F' := fun _ => True).
  - destruct (c =? 0) eqn:E; cbn [negb].
    + apply Hstep. left. lia.
    + rewrite FromThinLockId_ok by lia. apply Hstep. right. lia.
  - apply triple_value; [done |]. intros σ _ K _. split; [done |]. symmetry. apply Z.ltb_lt. lia.
Qed.

Lemma MonitorExit_spec :
  triple t ℓ (words (is_object o)) (MonitorExit t o)
    (fun b : bool => post t (left_object b) (fun _ => b = (0 <? l_count ℓ o))).
Proof.
  destruct R. unfold MonitorExit. apply GetLockWord_rule; [apply stable_object | by intros |].
  intros s g w I K _ Hw. pose proof (word_ok_view _ _ _ _ I (inv_words _ I _ _ Hw)) as Hok.
  pose proof (k_count _ _ _ K o) as Hk. simpl in Hk. rewrite count_view in Hk. unfold lock_view in Hk.
  rewrite Hw in Hk. simpl in Hk.
  assert (Hfail : l_count ℓ o = 0 -> triple t ℓ (words (fun _ => True)) (_ ← atomic (FailedUnlock t); mret false)
    (fun b : bool => post t (left_object b) (fun _ => b = (0 <? l_count ℓ o)))).
  { intros H0. apply not_held_spec; [done |]. by intros. }
  destruct (view_of w) as [| u c | m1 | h |] eqn:Ew; simpl in Hk; try done.
  - rewrite Hok. exists (words (fun _ => True)). split; [done |]. by apply Hfail.
  - destruct Hok as (-> & Hu & Hur & Hc). rewrite thin_word_state by lia.
    rewrite ThinLockOwner_ok by lia. change (local (Ok u) ≫= ?k) with (k u). cbn beta.
    destruct (decide (u = t)) as [-> | Hut]; last first.
    + rewrite bool_decide_false in Hk by done. rewrite bool_decide_true by done. exists (words (fun _ => True)). split; [done |].
      eapply triple_seq with (ℓ' := ℓ) (F' := words (fun _ => True)); [| by apply Hfail].
      apply triple_last, triple_atomic; [done |]. intros s1 g1 I1 K1 _.
      unfold FindThreadByThreadId. run_step.
      destruct (threads s1 !! u) as [th |];
        [| exists ℓ, (words (fun _ => True)); split; [by apply no_step | by apply triple_value]].
      destruct (bool_decide (u = t) || IsSuspended th); simpl.
      * exists ℓ, (words (fun _ => True)). split; [by apply no_step | by apply triple_value].
      * destruct Hexc as (h & Hev & Hd); [lia |]. exists o, h. split; [| done].
        rewrite <- Hev. apply (k_events _ _ _ K1).
    + rewrite bool_decide_true in Hk by done. rewrite (bool_decide_false (t <> t)) by auto.
      rewrite ThinLockCount_ok by lia. exists (words (is_thin o t c)). split.
      { unfold words, is_thin. simpl. by rewrite Hw; simpl; rewrite Ew. }
      by apply thin_leave_spec.
  - destruct Hok as (-> & Hm & _). rewrite fat_word_state, FatLockMonitor_ok by done.
    exists (words (is_fat o m1)). split; [unfold words, is_fat; simpl; by rewrite Hw; simpl; rewrite Ew |].
    exact (Unlock_spec m1).
  - destruct Hok as (-> & Hh). rewrite hash_word_state by lia.
    exists (words (fun _ => True)). split; [done |]. by apply Hfail.
Qed.
End leave.

(** ** Entering an object *)

Section enter_object.
Context (t : tid) (ℓ : local_state) (o : Z) (R : ready ℓ) (Hw : forall m, (m, true) ∉ l_waits ℓ).
Context (Hbound : l_count ℓ o < 2 ^ 31 - 1) (Hheld : held (l_events ℓ) o <= l_count ℓ o).

Lemma thin_enter_spec c :
  0 <= c <= kThinLockMaxCount -> 0 < t <= kThinLockMaxOwner -> c + 1 <= kThinLockMaxCount ->
  triple t ℓ (words (is_thin o t c)) (SetLockWord o (thin_word t (c + 1)))
    (fun _ => post t (bump o 1 ℓ) (fun _ => True)).
Proof.
  destruct R. intros Hc Ht Hc1. apply triple_last, triple_atomic; [by apply stable_thin |].
  intros s g I K Hthin.
  destruct (own_word_step t ℓ o R c (c + 1) (thin_word t (c + 1)) 1 s g (fun _ => True) I K Hthin)
    as (s' & -> & Hs); try done; try lia.
  exists (bump o 1 ℓ), (fun _ => True). split; [done | by apply triple_value].
Qed.

Lemma first_enter_spec :
  0 < t <= kThinLockMaxOwner ->
  triple t ℓ (words (is_object o)) (CasLockWordWeak o Unlocked (thin_word t 0))
    (fun b : bool => post t (if b then bump o 1 ℓ else ℓ) (words (is_object o))).
Proof.
  destruct R. intros Ht. apply triple_last, triple_choosing; [apply stable_object |].
  intros s g c I K [w Hw']. simpl in Hw'. run_step.
  destruct (bool_decide (w = Unlocked) && (c =? 0)) eqn:E.
  - apply andb_true_iff in E as [->%bool_decide_eq_true _]. run_step.
    exists (bump o 1 ℓ), (words (is_object o)). split; [| apply triple_value; [apply stable_object | done]].
    assert (Hk := k_count _ _ _ K o). simpl in Hk. unfold count in Hk. rewrite Hw' in Hk. simpl in Hk.
    apply (set_word_step t ℓ s g I K o Unlocked (thin_word t 0) Hw').
    + lock_word_consts. split; try rewrite view_thin by done; simpl; try done.
      * by apply (knows_runnable _ _ _ K).
      * constructor; [| lock_word_consts; lia]. destruct (k_thread _ _ _ K) as (th & Hth & _). by exists th.
      * intros u Hu. by rewrite bool_decide_false.
      * rewrite bool_decide_true by done. lia.
    + intros o1. rewrite view_thin by (lock_word_consts; lia). simpl. rewrite bool_decide_true by done.
      case_decide; [subst; lia | done].
    + unfold words, is_object. simpl. by rewrite lookup_insert_eq.
  - exists ℓ, (words (is_object o)). split; [apply no_step; try done; by exists w |].
    apply triple_value; [apply stable_object | done].
Qed.

Lemma InflateThinLocked_self fuel c hash :
  0 <= hash <= kMaxHash -> 0 < t <= kThinLockMaxOwner -> 0 <= c <= kThinLockMaxCount ->
  triple t ℓ (words (inflatable o (Some t) hash)) (InflateThinLocked fuel t o (thin_word t c) hash)
    (fun _ => post t ℓ (words (is_object o))).
Proof.
  destruct R. intros Hh Ht Hc. unfold InflateThinLocked. rewrite ThinLockOwner_ok by lia.
  change (local (Ok t) ≫= ?k) with (k t). cbn beta. rewrite bool_decide_true by done.
  apply Inflate_spec; try done. by left.
Qed.

(** The word [w] of [o], read as [x], and the thread that owns it. *)
Lemma InflateThinLocked_spec fuel u c hash s g :
  0 <= hash <= kMaxHash -> 0 < u <= kThinLockMaxOwner -> 0 <= c <= kThinLockMaxCount ->
  lock_view s o = Some (VThin u c) ->
  exists F, F (s, g) /\
    triple t ℓ F (InflateThinLocked fuel t o (thin_word u c) hash) (fun _ => post t ℓ (words (is_object o))).
Proof.
  intros Hh Hu Hc Hview. destruct (decide (u = t)) as [-> | Hut].
  - exists (words (inflatable o (Some t) hash)). split; [| by apply InflateThinLocked_self].
    unfold words, inflatable. unfold lock_view in Hview. simpl. by rewrite Hview.
  - exists (words (is_object o)). split; [| by apply InflateThinLocked_other].
    unfold words, is_object. unfold lock_view in Hview. simpl. by destruct (lock_words s !! o).
Qed.

Lemma MonitorEnter_loop_spec fuel contention :
  triple t ℓ (words (is_object o)) (MonitorEnter_loop fuel t o contention)
    (fun _ => post t (bump o 1 ℓ) (fun _ => True)).
Proof.
  destruct R. revert contention. induction fuel as [| fuel IH]; intros contention; [apply triple_never |].
  cbn [MonitorEnter_loop]. apply GetLockWord_rule; [apply stable_object | by intros |].
  intros s g w I K Ho Hw'. pose proof (word_ok_view _ _ _ _ I (inv_words _ I _ _ Hw')) as Hok.
  assert (Hv : lock_view s o = Some (view_of w)) by (unfold lock_view; by rewrite Hw').
  destruct (k_thread _ _ _ K) as (th & Hth & _). simpl in Hth. pose proof (inv_ids _ I _ _ Hth) as Ht.
  destruct (view_of w) as [| u c | m | h |] eqn:Ew; try done.
  - rewrite Hok. change (GetState Unlocked) with kUnlocked. cbn beta iota. exists (words (is_object o)).
    split; [done |]. rewrite FromThinLockId_ok by (lock_word_consts; lia).
    change (local (Ok ?a) ≫= ?k) with (k a). cbn beta.
    eapply triple_then; [by apply first_enter_spec |]. intros []; [| apply IH].
    by apply triple_value; [apply stable_object |].
  - destruct Hok as (-> & _ & Hu & Hc). rewrite thin_word_state, ThinLockOwner_ok by lia.
    change (local (Ok ?a) ≫= ?k) with (k a). cbn beta.
    assert (Hinfl : forall n, exists F, F (s, g) /\
    triple t ℓ F (_ ← InflateThinLocked fuel t o (thin_word u c) 0; MonitorEnter_loop fuel t o n)
        (fun _ => post t (bump o 1 ℓ) (fun _ => True))).
    { intros n. destruct (InflateThinLocked_spec fuel u c 0 s g) as (F & HF & Hi); try done.
      exists F. split; [done |]. eapply triple_seq; [exact Hi | apply IH]. }
    case_bool_decide as Hut; [subst u |].
    + rewrite ThinLockCount_ok by lia. change (local (Ok ?a) ≫= ?k) with (k a). cbn beta zeta.
      assert (uint32 (c + 1) = c + 1) as ->.
      { unfold uint32. apply wrapU_id. unfold fitsU. lock_word_consts. lia. }
      destruct (Z.leb_spec (c + 1) kThinLockMaxCount); [| apply Hinfl].
      rewrite FromThinLockId_ok by lia. change (local (Ok ?a) ≫= ?k) with (k a). cbn beta.
      exists (words (is_thin o t c)). split; [done | by apply thin_enter_spec].
    + cbn zeta. destruct (contention + 1 <=? _); [| apply Hinfl].
      exists (words (is_object o)). split; [done | apply IH].
  - destruct Hok as (-> & Hm & _). rewrite fat_word_state, FatLockMonitor_ok by done.
    exists (words (is_fat o m)). split; [done |].
    eapply triple_mono; [apply Lock_spec; try done; lia |]. by intros _ σ _ [Ka _].
  - destruct Hok as (-> & Hh). rewrite hash_word_state, GetHashCode_ok by lia.
    change (local (Ok ?a) ≫= ?k) with (k a). cbn beta. exists (words (inflatable o None h)). split.
    { unfold words, inflatable. unfold lock_view in Hv. simpl. by rewrite Hv. }
    eapply triple_seq; [apply Inflate_spec; try done; simpl; lia | apply IH].
Qed.

Lemma MonitorEnter_spec fuel :
  triple t ℓ (words (is_object o)) (MonitorEnter fuel t o) (fun _ => post t (bump o 1 ℓ) (fun _ => True)).
Proof. apply MonitorEnter_loop_spec. Qed.
End enter_object.
