(* ===== verification/MonitorWaiting.v ===== *)
(** * Waiting and notification

    The wait set of a monitor as a linked list, and triples for [Wait], [Notify] and
    [Interrupt]. *)

From stdpp Require Import functions.
From S2P Require Import Prelude Concurrency LockWord Monitor MonitorInvariant MonitorSteps MonitorLogic MonitorPrograms MonitorLocking.

(** ** The wait set as a linked list *)

(** The list [l] has become [l'], with [first] at its head, and no other thread was
    touched. *)
Record relinked (ts ts' : gmap tid Thread) (first : option tid) (l l' : list tid) : Prop := {
  rl_threads x th : ts !! x = Some th -> exists n, ts' !! x = Some (with_wait_next n th);
  rl_back x : is_Some (ts' !! x) -> is_Some (ts !! x);
  rl_outside x : x ∉ l -> x ∉ l' -> ts' !! x = ts !! x;
  rl_linked : linked ts' first l';
  rl_left x th : x ∈ l -> x ∉ l' -> ts' !! x = Some th -> wait_next th = None;
}.

Lemma with_wait_next_eta th : with_wait_next (wait_next th) th = th.
Proof. by destruct th. Qed.

Lemma with_threads_eta s : with_threads (threads s) s = s.
Proof. by destruct s. Qed.

Lemma relinked_refl ts first l : linked ts first l -> relinked ts ts first l l.
Proof.
  intros Hl. split; try done.
  intros x th Hx. exists (wait_next th). by rewrite with_wait_next_eta.
Qed.

Lemma linked_size ts first l : linked ts first l -> NoDup l -> (length l <= size ts)%nat.
Proof.
  intros Hl Hnd. rewrite <- (size_list_to_set (C := gset tid) l Hnd), <- (size_dom (D := gset tid) ts).
  apply subseteq_size. intros x Hx%elem_of_list_to_set. apply elem_of_dom. by eapply linked_thread.
Qed.

Lemma linked_snoc ts first l y th t :
  linked ts first l -> NoDup l -> last l = Some y -> ts !! y = Some th -> t ∉ l ->
  (exists w, ts !! t = Some w /\ wait_next w = None) ->
  linked (<[y := with_wait_next (Some t) th]> ts) first (l ++ [t]).
Proof.
  intros Hl Hnd Hlast Hy Ht (w & Hw & Hn). revert first Hl.
  assert (Hyt : y <> t) by (intros ->; apply Ht; by apply last_Some_elem_of).
  induction l as [| x l IH]; [done |]. intros first [-> (thx & Hx & Hl)]. split; [done |].
  apply NoDup_cons in Hnd as [Hxl Hnd]. destruct l as [| z l].
  - simpl in Hlast. simplify_eq. exists (with_wait_next (Some t) th). rewrite lookup_insert_eq. split; [done |].
    simpl. split; [done |]. exists w. by rewrite lookup_insert_ne.
  - exists thx. rewrite lookup_insert_ne; [| intros ->; apply Hxl; by apply last_Some_elem_of].
    split; [done |]. apply IH; try done. set_solver.
Qed.

Lemma filter_others (l : list tid) t : t ∉ l -> filter (fun y => y <> t) l = l.
Proof.
  induction l as [| x l IH]; intros Ht; [done |]. rewrite filter_cons_True by set_solver. f_equal. apply IH. set_solver.
Qed.

Lemma append_after_ok l x t s fuel :
  linked (threads s) (Some x) (x :: l) -> (length l < fuel)%nat ->
  exists y th, last (x :: l) = Some y /\ threads s !! y = Some th /\
    append_after fuel x t s = Ok (tt, with_threads (<[y := with_wait_next (Some t) th]> (threads s)) s).
Proof.
  revert x fuel. induction l as [| z l IH]; intros x [| fuel] [_ (th & Hth & Hl)] Hf; simpl in Hf; try lia.
  - exists x, th. split_and!; [done.. |]. cbn [append_after]. run_step. simpl in Hl. by rewrite Hl.
  - destruct Hl as [Hn Hl]. destruct (IH z fuel) as (y & thy & Hlast & Hy & Happ); [by split | lia |].
    exists y, thy. split_and!; [done.. |]. cbn [append_after]. run_step. by rewrite Hn.
Qed.

Lemma remove_after_ok l x t s fuel :
  linked (threads s) (Some x) (x :: l) -> NoDup (x :: l) -> x <> t -> (length l < fuel)%nat ->
  exists ts, remove_after fuel x t s = Ok (tt, with_threads ts s) /\
    relinked (threads s) ts (Some x) (x :: l) (x :: filter (fun y => y <> t) l).
Proof.
  revert x fuel. induction l as [| z l IH]; intros x [| fuel] [_ (th & Hth & Hl)] Hnd Hxt Hf; simpl in Hf; try lia.
  - exists (threads s). cbn [remove_after]. run_step. simpl in Hl. rewrite Hl, with_threads_eta.
    split; [done |]. apply relinked_refl. split; [done |]. by exists th.
  - apply NoDup_cons in Hnd as [Hx Hnd]. destruct (Hl) as [Hn (thz & Hz & Hlz)]. cbn [remove_after]. run_step.
    rewrite Hn. case_bool_decide as Ezt.
    + subst z. apply NoDup_cons in Hnd as [Ht Hnd]. run_step. run_step.
      assert (Ht' : threads (with_threads (<[x := with_wait_next (wait_next thz) th]> (threads s)) s) !! t = Some thz)
        by (simpl; by rewrite lookup_insert_ne).
      run_step. eexists. split; [done |]. simpl.
      rewrite filter_cons_False, filter_others by auto.
      split.
      * intros y w Hy. destruct (decide (y = t)) as [-> |]; [rewrite lookup_insert_eq; simplify_eq; by eexists |].
        rewrite lookup_insert_ne by done.
        destruct (decide (y = x)) as [-> |]; [rewrite lookup_insert_eq; simplify_eq; by eexists |].
        rewrite lookup_insert_ne by done. exists (wait_next w). by rewrite with_wait_next_eta.
      * intros y. rewrite !lookup_insert_is_Some'. intros [<- | [<- | ?]]; done || (by eexists).
      * intros y Hy _. rewrite !lookup_insert_ne; set_solver.
      * split; [done |]. exists (with_wait_next (wait_next thz) th).
        rewrite lookup_insert_ne, lookup_insert_eq by done. split; [done |].
        apply (linked_ext (threads s)); [| done]. intros y Hy. rewrite !lookup_insert_ne; set_solver.
      * intros y w Hy Hy' Hw. assert (y = t) as -> by set_solver. rewrite lookup_insert_eq in Hw. by simplify_eq.
    + destruct (IH z fuel) as (ts & Hrm & [R1 R2 R3 R4 R5]); [by split; eauto | done | done | lia |].
      exists ts. split; [done |]. rewrite filter_cons_True by done.
      assert (Hx' : x ∉ z :: filter (fun y => y <> t) l).
      { rewrite elem_of_cons, list_elem_of_filter. set_solver. }
      split; try done.
      * intros y Hy Hy'. apply R3; set_solver.
      * split; [done |]. exists th. rewrite R3 by done. split; [done |]. by rewrite Hn.
      * intros y w Hy Hy'. apply R5; set_solver.
Qed.

(** *** The operations on the wait set *)

(** The state in which the threads are [ts] and the wait set of [m] starts with
    [first]. *)
Definition relink (s : State) (m : Z) (v : Monitor) (ts : gmap tid Thread) (first : option tid) : State :=
  with_threads ts (with_monitors (<[m := with_wait_set first v]> (monitors s)) s).

Lemma relink_same_set s m v ts :
  monitors s !! m = Some v -> relink s m v ts (wait_set_ v) = with_threads ts s.
Proof.
  intros Hv. unfold relink. destruct s, v; simpl in *. unfold with_wait_set, with_monitors; simpl.
  rewrite insert_id by done. done.
Qed.

Lemma relinked_pop ts first x k th :
  linked ts first (x :: k) -> NoDup (x :: k) -> ts !! x = Some th ->
  relinked ts (<[x := with_wait_next None th]> ts) (wait_next th) (x :: k) k.
Proof.
  intros Hl Hnd Hx. apply NoDup_cons in Hnd as [Hxk _]. split.
  - intros y w Hy. destruct (decide (y = x)) as [-> |]; [rewrite lookup_insert_eq; simplify_eq; by eexists |].
    rewrite lookup_insert_ne by done. exists (wait_next w). by rewrite with_wait_next_eta.
  - intros y. rewrite lookup_insert_is_Some'. intros [<- | ?]; [by eexists | done].
  - intros y Hy _. rewrite lookup_insert_ne; [done | set_solver].
  - destruct Hl as [_ (w & Hw & Hk)]. simplify_eq. apply (linked_ext ts); [| done].
    intros y Hy. rewrite lookup_insert_ne; [done | intros ->; done].
  - intros y w Hy Hyk Hw. assert (y = x) as -> by set_solver. rewrite lookup_insert_eq in Hw. by simplify_eq.
Qed.

Section wait_set.
Context (s : State) (m : Z) (v : Monitor) (l : list tid).
Context (Hv : monitors s !! m = Some v) (Hl : linked (threads s) (wait_set_ v) l) (Hnd : NoDup l).

Lemma AppendToWaitSet_ok t th :
  owner_ v = Some t -> threads s !! t = Some th -> wait_next th = None -> t ∉ l ->
  exists ts first, AppendToWaitSet t m t s = Ok (tt, relink s m v ts first) /\
    relinked (threads s) ts first l (l ++ [t]).
Proof.
  intros Ho Hth Hn Ht. unfold AppendToWaitSet. run_step. rewrite bind_check by (by rewrite bool_decide_true).
  run_step. rewrite bind_check by (by rewrite bool_decide_true). destruct l as [| x k].
  - simpl in Hl. rewrite Hl. exists (threads s), (Some t). split; [by destruct s |].
    split; try done; [intros y w Hy; exists (wait_next w); by rewrite with_wait_next_eta | | set_solver].
    split; [done |]. exists th. by rewrite Hth.
  - assert (Hs : wait_set_ v = Some x) by apply Hl. rewrite Hs in Hl. rewrite Hs. run_step.
    destruct (append_after_ok k x t s (size (threads s)) Hl) as (y & w & Hlast & Hy & Happ).
    { pose proof (linked_size _ _ _ Hl Hnd) as Hsz. simpl in Hsz. lia. }
    exists (<[y := with_wait_next (Some t) w]> (threads s)), (wait_set_ v).
    split; [by rewrite Happ, relink_same_set |]. rewrite Hs.
    assert (Hyl : y ∈ x :: k) by (by apply last_Some_elem_of). split.
    + intros z wz Hz. destruct (decide (z = y)) as [-> |]; [rewrite lookup_insert_eq; simplify_eq; by eexists |].
      rewrite lookup_insert_ne by done. exists (wait_next wz). by rewrite with_wait_next_eta.
    + intros z. rewrite lookup_insert_is_Some'. intros [<- | ?]; [by eexists | done].
    + intros z Hz _. rewrite lookup_insert_ne; [done | intros ->; done].
    + apply linked_snoc; try done. by exists th.
    + intros z wz Hz Hz'. destruct Hz'. apply elem_of_app. by left.
Qed.

Lemma RemoveFromWaitSet_ok t :
  owner_ v = Some t ->
  exists ts first, RemoveFromWaitSet t m t s = Ok (tt, relink s m v ts first) /\
    relinked (threads s) ts first l (filter (fun y => y <> t) l).
Proof.
  intros Ho. unfold RemoveFromWaitSet. run_step. rewrite bind_check by (by rewrite bool_decide_true).
  destruct l as [| x k].
  - simpl in Hl. exists (threads s), (wait_set_ v). rewrite relink_same_set, with_threads_eta by done.
    rewrite Hl. split; [done | by apply relinked_refl].
  - assert (Hs : wait_set_ v = Some x) by apply Hl. rewrite Hs. case_bool_decide as Ext.
    + destruct Hl as [_ (th & Hth & Hk)]. rewrite <- Ext in *. run_step. run_step.
      exists (<[x := with_wait_next None th]> (threads s)), (wait_next th). split; [done |].
      pose proof (proj1 (proj1 (NoDup_cons _ _) Hnd)) as Hxk.
      rewrite filter_cons_False, filter_others by auto. eapply relinked_pop; [| done..].
      split; [done |]. by exists th.
    + run_step. rewrite Hs in Hl.
      destruct (remove_after_ok k x t s (size (threads s)) Hl Hnd Ext) as (ts & Hrm & Hre).
      { pose proof (linked_size _ _ _ Hl Hnd) as Hsz. simpl in Hsz. lia. }
      exists ts, (wait_set_ v). rewrite filter_cons_True by done. by rewrite relink_same_set, Hs.
Qed.

Lemma pop_waiter_ok :
  exists ts first, pop_waiter m s = Ok (head l, relink s m v ts first) /\
    relinked (threads s) ts first l (tail l).
Proof.
  unfold pop_waiter. run_step. destruct l as [| x k].
  - simpl in Hl. exists (threads s), (wait_set_ v). rewrite relink_same_set, with_threads_eta by done.
    rewrite Hl. split; [done | by apply relinked_refl].
  - assert (Hs : wait_set_ v = Some x) by apply Hl. rewrite Hs.
    destruct (Hl) as [_ (th & Hth & Hk)]. run_step. run_step. run_step.
    exists (<[x := with_wait_next None th]> (threads s)), (wait_next th). split; [done |].
    by eapply relinked_pop.
Qed.
End wait_set.

(** The holder of the mutex changes the wait set: threads leave, and only it may enter. *)
Lemma relink_step t ℓ s g o m v ts first l c (P : assertion) :
  Inv (s, g) -> knows t ℓ (s, g) -> monitors s !! m = Some v -> monitor_lock_ v = Some t ->
  installed s o m -> relinked (threads s) ts first (chain g m) l -> NoDup l ->
  (forall x, x ∈ l -> x ∈ chain g m \/ x = t /\ (t, false) ∈ waiters g m /\ l_chain ℓ = None) ->
  (forall m1, t ∈ (if decide (m1 = m) then l else chain g m1) -> c = Some m1) ->
  (forall g', P (relink s m v ts first, g')) ->
  step_to t (set_chain c ℓ) (s, g) (relink s m v ts first) P.
Proof.
  intros I K Hv Hlock Hi [R1 R2 R3 R4 R5] Hnd Hl Hc HP.
  apply (set_chain_step t ℓ s g I K m v Hv Hlock ts first l); [| done | apply HP].
  split; try done.
  - intros x Hx. destruct (Hl x Hx) as [Hin | (-> & ? & _)]; [by apply (inv_chain_waiters _ I) | done].
  - intros x m' Hx Hx'. destruct (Hl x Hx) as [Hin | (-> & _ & Hn)].
    + by apply (inv_chain_once _ I m' m x).
    + apply (k_chain _ _ _ K) in Hx'. congruence.
  - intros x Hxt Hx. destruct (Hl x Hx) as [Hin | (-> & _)]; done.
  - intros u _ _. by exists o.
Qed.

(** ** The mutex and the condition variable of a thread *)

Definition exists_thread (u : tid) : assertion := fun σ => is_Some (threads σ.1 !! u).

Lemma WaitMutexLock_spec t u ℓ φ :
  l_wait_mutex ℓ = None -> stable t ℓ (words φ) -> stable t (set_wmutex (Some u) ℓ) (words φ) ->
  triple t ℓ (fun σ => words φ σ /\ exists_thread u σ) (WaitMutexLock t u)
    (fun _ => post t (set_wmutex (Some u) ℓ) (fun σ => words φ σ /\ exists_thread u σ)).
Proof.
  intros Hl Hφ Hφ'. apply triple_last, triple_awaiting; [apply stable_and; [done | apply stable_thread] |].
  intros s g c I K [Hσ [th Hth]] He. simpl in Hth. rewrite Hth in He. apply bool_decide_eq_true in He.
  run_step. exists (set_wmutex (Some u) ℓ), (fun σ => words φ σ /\ exists_thread u σ). split.
  - destruct (self_thread _ _ _ _ K) as (me & Hme & _ & Hm & Hp).
    apply (quiet_update t ℓ s g I K u th _ Hth); simpl; try done.
    + intros x Hx. rewrite He. split; congruence.
    + case_decide; [subst; congruence | done].
    + case_decide; [subst; congruence | done].
    + intros y. rewrite Hl. case_decide; split; congruence.
    + intros g'. split; [done |]. unfold exists_thread. simpl. by rewrite lookup_insert_eq.
  - apply triple_value; [apply stable_and; [done | apply stable_thread] | done].
Qed.

Lemma wait_release_step t u ℓ s g th (P : assertion) :
  Inv (s, g) -> knows t ℓ (s, g) -> l_wait_mutex ℓ = Some u -> threads s !! u = Some th ->
  (forall g', P (with_threads (<[u := with_wait_mutex None th]> (threads s)) s, g')) ->
  wait_release t u s = Ok (tt, with_threads (<[u := with_wait_mutex None th]> (threads s)) s) /\
  step_to t (set_wmutex None ℓ) (s, g) (with_threads (<[u := with_wait_mutex None th]> (threads s)) s) P.
Proof.
  intros I K Hl Hth HP. pose proof (proj2 (k_wait_mutex _ _ _ K u th Hth) Hl) as Hm. split.
  - unfold wait_release. run_step. by rewrite bind_check by (by rewrite bool_decide_true).
  - destruct (self_thread _ _ _ _ K) as (me & Hme & _ & Hmon & Hp).
    apply (quiet_update t ℓ s g I K u th _ Hth); simpl; try done.
    + intros x Hx. rewrite Hm. split; congruence.
    + case_decide; [subst; congruence | done].
    + case_decide; [subst; congruence | done].
    + intros y. rewrite Hl. case_decide; split; congruence.
Qed.

Lemma WaitMutexUnlock_spec t u ℓ φ :
  l_wait_mutex ℓ = Some u -> stable t ℓ (words φ) -> stable t (set_wmutex None ℓ) (words φ) ->
  triple t ℓ (fun σ => words φ σ /\ exists_thread u σ) (WaitMutexUnlock t u)
    (fun _ => post t (set_wmutex None ℓ) (words φ)).
Proof.
  intros Hl Hφ Hφ'. apply triple_last, triple_atomic; [apply stable_and; [done | apply stable_thread] |].
  intros s g I K [Hσ [th Hth]]. simpl in Hth.
  destruct (wait_release_step t u ℓ s g th (words φ) I K Hl Hth) as [-> Hs]; [done |].
  exists (set_wmutex None ℓ), (words φ). split; [done | by apply triple_value].
Qed.

Lemma with_own t ℓ φ : forall σ, Inv σ -> knows t ℓ σ -> words φ σ -> words φ σ /\ exists_thread t σ.
Proof. intros σ _ K Hσ. split; [done |]. destruct (k_thread _ _ _ K) as (th & Hth & _). by exists th. Qed.

(** The mutex of the thread itself. *)
Lemma WaitMutexLock_own t ℓ φ :
  l_wait_mutex ℓ = None -> stable t ℓ (words φ) -> stable t (set_wmutex (Some t) ℓ) (words φ) ->
  triple t ℓ (words φ) (WaitMutexLock t t) (fun _ => post t (set_wmutex (Some t) ℓ) (words φ)).
Proof.
  intros Hl Hφ Hφ'. eapply triple_before; [| apply with_own].
  eapply triple_mono; [by apply WaitMutexLock_spec |]. by intros _ σ _ [K [Hσ _]].
Qed.

Lemma WaitMutexUnlock_own t ℓ φ :
  l_wait_mutex ℓ = Some t -> stable t ℓ (words φ) -> stable t (set_wmutex None ℓ) (words φ) ->
  triple t ℓ (words φ) (WaitMutexUnlock t t) (fun _ => post t (set_wmutex None ℓ) (words φ)).
Proof. intros Hl Hφ Hφ'. eapply triple_before; [by apply WaitMutexUnlock_spec | apply with_own]. Qed.

Lemma wmutex_eta ℓ u v : l_wait_mutex ℓ = u -> set_wmutex u (set_wmutex v ℓ) = ℓ.
Proof. by destruct ℓ; simpl; intros ->. Qed.

Lemma WaitConditionWait_spec t ℓ φ :
  l_wait_mutex ℓ = Some t -> stable t ℓ (words φ) -> stable t (set_wmutex None ℓ) (words φ) ->
  triple t ℓ (words φ) (WaitConditionWait t) (fun _ => post t ℓ (words φ)).
Proof.
  intros Hl Hφ Hφ'. apply triple_atomic; [done |]. intros s g I K Hσ.
  destruct (self_thread _ _ _ _ K) as (th & Hth & _). run_step.
  set (s1 := with_threads (<[t := with_wait_cond true th]> (threads s)) s).
  assert (Hth1 : threads s1 !! t = Some (with_wait_cond true th)) by (simpl; by rewrite lookup_insert_eq).
  assert (Hs1 : step_to t ℓ (s, g) s1 (words φ)) by (by eapply own_update).
  destruct Hs1 as (g1 & I1 & G1 & K1 & Hσ1).
  destruct (wait_release_step t t ℓ s1 g1 _ (words φ) I1 K1 Hl Hth1) as [-> Hs2]; [done |].
  exists (set_wmutex None ℓ), (words φ). split; [apply step_to_trans with ℓ s1; exists g1; done |].
  apply triple_awaiting; [done |]. clear - Hl Hφ Hφ'. intros s g c I K Hσ _.
  destruct (self_thread _ _ _ _ K) as (th & Hth & _). run_step.
  exists (set_wmutex None ℓ), (words φ). split; [by eapply own_update |].
  eapply triple_mono; [apply WaitMutexLock_own; by rewrite ?wmutex_eta |]. intros _ σ _ [K' Hσ']. split; [| done].
  by rewrite wmutex_eta in K'.
Qed.

(** ** Starting and ending a wait *)

(** The thread is between operations. *)
Record idle (ℓ : local_state) : Prop := {
  id_ready : ready ℓ;
  id_waits : l_waits ℓ = ∅;
  id_chain : l_chain ℓ = None;
  id_monitor : l_wait_monitor ℓ = None;
}.

Lemma chain_free t ℓ s g m : knows t ℓ (s, g) -> l_chain ℓ = None -> t ∉ chain g m.
Proof. intros K Hn Hin. apply (k_chain _ _ _ K) in Hin. congruence. Qed.

Lemma wait_next_free t ℓ s g th :
  Inv (s, g) -> knows t ℓ (s, g) -> l_chain ℓ = None -> threads s !! t = Some th -> wait_next th = None.
Proof.
  intros I K Hn Hth. destruct (decide (wait_next th = None)) as [| Hne]; [done |].
  destruct (inv_wait_next _ I _ _ Hth Hne) as [m Hm]. by apply (chain_free t ℓ s g m K Hn) in Hm.
Qed.

Section wait.
Context (t : tid) (ℓ : local_state) (o m : Z) (J : idle ℓ).
Context (Hheld : held (l_events ℓ) o <= 0).

Let F := words (is_fat o m).
Let ℓm := set_mutex (Some m) ℓ.

(** On the wait set, the monitor released. *)
Definition asleep : local_state := bump o (- l_count ℓ o) (set_chain (Some m) (waiting m false ℓm)).

Lemma start_wait_step s g v :
  Inv (s, g) -> knows t ℓm (s, g) -> installed s o m -> monitors s !! m = Some v ->
  monitor_lock_ v = Some t -> owner_ v = Some t ->
  exists s', start_wait t m s = Ok (lock_count_ v, s') /\ step_to t asleep (s, g) s' F.
Proof.
  destruct J as [[] Hwaits Hch Hmon]. intros I K Hi Hv Hlock Ho.
  set (v1 := with_num_waiters (num_waiters_ v + 1) v). set (s1 := with_monitors (<[m := v1]> (monitors s)) s).
  assert (S1 : step_to t (waiting m false ℓm) (s, g) s1 F).
  { assert (Hnt : (t, false) ∉ waiters g m) by (rewrite (k_waits _ _ _ K); simpl; set_solver).
    apply (holder_waiters_update t ℓm s g o m v) with (W := {[(t, false)]} ∪ waiters g m); try done.
    - rewrite size_union, size_singleton by set_solver. rewrite (inv_waiters _ I _ _ Hv). simpl. lia.
    - intros x b Hx. rewrite elem_of_union, elem_of_singleton. split; [intros [? | ?]; [congruence | done] | auto].
    - set_solver.
    - by left.
    - intros m1 b. pose proof (k_waits _ _ _ K m1 b) as Hk. simpl in Hk.
      rewrite elem_of_union, elem_of_singleton.
      destruct (decide (m1 = m)) as [E |]; [rewrite E, elem_of_union, elem_of_singleton in * |];
        intuition congruence. }
  destruct S1 as (g1 & I1 & G1 & K1 & _).
  assert (Hv1 : monitors s1 !! m = Some v1) by (simpl; by rewrite lookup_insert_eq).
  destruct (self_thread _ _ _ _ K) as (th & Hth & _).
  assert (Hfree : t ∉ chain g1 m) by (by apply (chain_free t _ s1 g1 m K1)).
  destruct (AppendToWaitSet_ok s m v (chain g1 m) Hv) with (t := t) (th := th)
    as (ts & first & Happ & Hre); try done.
  { apply (inv_chain _ I1 m v1 Hv1). }
  { apply (inv_chain_nodup _ I1). }
  { by apply (wait_next_free t ℓm s g th I K). }
  set (v2 := with_wait_set first v1). set (s2 := relink s1 m v1 ts first).
  assert (S2 : step_to t (set_chain (Some m) (waiting m false ℓm)) (s1, g1) s2 F).
  { apply (relink_step t _ s1 g1 o m v1 ts first (chain g1 m ++ [t])); try done.
    - apply NoDup_app. split; [apply (inv_chain_nodup _ I1) |]. split; [set_solver | apply NoDup_singleton].
    - intros x Hx. rewrite elem_of_app, list_elem_of_singleton in Hx.
      destruct Hx as [? | ->]; [by left | right]. split_and!; [done | | done].
      apply (k_waits _ _ _ K1). simpl. set_solver.
    - intros m1. destruct (decide (m1 = m)) as [E |]; [by rewrite E |]. intros Hin.
      by apply (chain_free t _ s1 g1 m1 K1) in Hin. }
  destruct S2 as (g2 & I2 & G2 & K2 & _).
  assert (Hv2 : monitors s2 !! m = Some v2) by (simpl; by rewrite lookup_insert_eq).
  set (v3 := with_owner None (with_lock_count 0 v2)).
  exists (with_monitors (<[m := v3]> (monitors s2)) s2). split.
  - unfold start_wait. rewrite (bind_eq _ _ _ _ _ Happ).
    assert (Hw : monitors (relink s m v ts first) !! m = Some (with_wait_set first v))
      by (simpl; by rewrite lookup_insert_eq).
    run_step. run_step. do 2 f_equal. unfold s2, relink, with_monitors, with_threads. simpl.
    by rewrite !insert_insert_eq.
  - apply step_to_trans with (waiting m false ℓm) s1. exists g1. split_and!; [done.. |].
    apply step_to_trans with (set_chain (Some m) (waiting m false ℓm)) s2. exists g2. split_and!; [done.. |].
    assert (Hcount := count_monitor _ _ _ _ _ _ _ K Hv Hi). simpl in Hcount.
    assert (Hc : monitor_count t v = lock_count_ v + 1) by (unfold monitor_count; by rewrite bool_decide_true).
    apply (holder_count_update t _ s2 g2 o m v2) with (d := - l_count ℓ o); try done; simpl; try lia.
    + by left.
    + by left.
    + by right.
    + unfold monitor_count. simpl. rewrite Ho, bool_decide_true by done. lia.
Qed.
End wait.

Definition no_longer_waiting (m : Z) (ℓ : local_state) : local_state :=
  set_waits (l_waits ℓ ∖ {[(m, false)]}) (set_chain None ℓ).

Lemma stop_waiting_step t ℓ o m s g v (P : assertion) :
  Inv (s, g) -> knows t ℓ (s, g) -> installed s o m -> monitors s !! m = Some v ->
  monitor_lock_ v = Some t -> l_mutex ℓ = Some m -> l_state ℓ = kRunnable -> l_chain ℓ = None ->
  (m, false) ∈ l_waits ℓ ->
  (forall g', P (with_monitors (<[m := with_num_waiters (num_waiters_ v - 1) v]> (monitors s)) s, g')) ->
  step_to t (set_waits (l_waits ℓ ∖ {[(m, false)]}) ℓ) (s, g)
    (with_monitors (<[m := with_num_waiters (num_waiters_ v - 1) v]> (monitors s)) s) P.
Proof.
  intros I K Hi Hv Hlock Hl Hst Hch Hin HP.
  apply (k_waits _ _ _ K) in Hin as Hw. simpl in Hw.
  apply (holder_waiters_update t ℓ s g o m v) with (W := waiters g m ∖ {[(t, false)]}); try done.
  - rewrite size_difference, size_singleton by set_solver. rewrite (inv_waiters _ I _ _ Hv). simpl.
    assert (size (waiters g m) <> 0)%nat by (intros Hz%size_empty_inv; set_solver). lia.
  - intros x b Hx. rewrite elem_of_difference, elem_of_singleton. intuition congruence.
  - intros Hc. by apply (chain_free t ℓ s g m K Hch) in Hc.
  - by left.
  - intros m1 b. pose proof (k_waits _ _ _ K m1 b) as Hk. simpl in Hk.
    rewrite elem_of_difference, elem_of_singleton. destruct (decide (m1 = m)) as [E |].
    + rewrite E in *. rewrite elem_of_difference, elem_of_singleton. intuition congruence.
    + intuition congruence.
Qed.

Lemma end_wait_step t ℓ o m s g v prev (P : assertion) :
  Inv (s, g) -> knows t ℓ (s, g) -> installed s o m -> monitors s !! m = Some v ->
  monitor_lock_ v = Some t -> l_mutex ℓ = Some m -> l_state ℓ = kRunnable ->
  (forall m1, l_chain ℓ = Some m1 -> m1 = m) -> (m, false) ∈ l_waits ℓ -> l_count ℓ o = 1 -> 0 <= prev ->
  held (l_events ℓ) o <= 1 + prev ->
  (forall ts ms g', P (with_threads ts (with_monitors ms s), g')) ->
  exists s', end_wait t m prev s = Ok (tt, s') /\ step_to t (bump o prev (no_longer_waiting m ℓ)) (s, g) s' P.
Proof.
  intros I K Hi Hv Hlock Hl Hst Hch Hin Hcount Hprev Hheld HP.
  rewrite (count_monitor _ _ _ _ _ _ _ K Hv Hi) in Hcount.
  destruct (inv_monitors _ I _ _ Hv) as [_ Hc0 _ _ _].
  assert (Ho : owner_ v = Some t) by (apply monitor_count_owner; [done | lia]).
  set (w := with_num_waiters (num_waiters_ v - 1) (with_lock_count prev (with_owner (Some t) v))).
  set (sw := with_monitors (<[m := w]> (monitors s)) s).
  assert (Hw : monitors sw !! m = Some w) by (simpl; by rewrite lookup_insert_eq).
  destruct (RemoveFromWaitSet_ok sw m w (chain g m) Hw) with (t := t) as (ts & first & Hrm & Hre); [| | done |].
  { apply (inv_chain _ I m v Hv). }
  { apply (inv_chain_nodup _ I). }
  set (s1 := relink s m v ts first). set (v1 := with_wait_set first v).
  assert (S1 : step_to t (set_chain None ℓ) (s, g) s1 (fun _ => True)).
  { apply (relink_step t ℓ s g o m v ts first (filter (fun y => y <> t) (chain g m))); try done.
    - apply NoDup_filter, (inv_chain_nodup _ I).
    - intros x Hx. left. by apply list_elem_of_filter in Hx as [_ ?].
    - intros m1. destruct (decide (m1 = m)) as [E | Hne]; [intros Hx; by apply list_elem_of_filter in Hx as [? _] |].
      intros Hx. by apply (k_chain _ _ _ K), Hch in Hx. }
  destruct S1 as (g1 & I1 & G1 & K1 & _).
  assert (Hv1 : monitors s1 !! m = Some v1) by (simpl; by rewrite lookup_insert_eq).
  set (v2 := with_num_waiters (num_waiters_ v1 - 1) v1). set (s2 := with_monitors (<[m := v2]> (monitors s1)) s1).
  assert (S2 : step_to t (no_longer_waiting m ℓ) (s1, g1) s2 (fun _ => True)).
  { by apply (stop_waiting_step t (set_chain None ℓ) o m s1 g1 v1). }
  destruct S2 as (g2 & I2 & G2 & K2 & _).
  assert (Hv2 : monitors s2 !! m = Some v2) by (simpl; by rewrite lookup_insert_eq).
  exists (with_monitors (<[m := with_lock_count prev (with_owner (Some t) v2)]> (monitors s2)) s2). split.
  - unfold end_wait. run_step. fold w sw. rewrite Hrm. do 2 f_equal.
    unfold sw, s2, s1, relink, with_monitors, with_threads. simpl. by rewrite !insert_insert_eq.
  - apply step_to_trans with (set_chain None ℓ) s1. exists g1. split_and!; [done.. |].
    apply step_to_trans with (no_longer_waiting m ℓ) s2. exists g2. split_and!; [done.. |].
    assert (Hk : l_count ℓ o = 1) by (by rewrite (count_monitor _ _ _ _ _ _ _ K Hv Hi)).
    unfold monitor_count in Hcount. rewrite bool_decide_true in Hcount by done.
    apply (holder_count_update t _ s2 g2 o m v2) with (d := prev); try done; simpl; try lia.
    + by left.
    + by right.
    + by right.
    + unfold monitor_count. simpl. rewrite !bool_decide_true by done. lia.
    + intros g'. change (P (with_threads ts (with_monitors (<[m := with_lock_count prev (with_owner (Some t) v2)]> (monitors s2)) s), g')).
      apply HP.
Qed.

(** ** Sleeping *)

(** The thread changes its [wait_monitor_]. *)
Lemma set_wait_monitor_spec t ℓ φ x (ok : option Z -> bool) :
  ok (l_wait_monitor ℓ) = true -> stable t ℓ (words φ) -> stable t (set_wmon x ℓ) (words φ) ->
  triple t ℓ (words φ)
    (atomic (th ← get_thread t; _ ← lift (check (ok (wait_monitor_ th))); set_thread t (with_wait_monitor x th)))
    (fun _ => post t (set_wmon x ℓ) (words φ)).
Proof.
  intros Hok Hφ Hφ'. apply triple_last, triple_atomic; [done |]. intros s g I K Hσ.
  destruct (self_thread _ _ _ _ K) as (th & Hth & Hst & Hm & Hp). run_step.
  rewrite bind_check by (by rewrite Hm). exists (set_wmon x ℓ), (words φ). split; [| by apply triple_value].
  apply (quiet_update t ℓ s g I K t th _ Hth); simpl; try done.
  - by rewrite decide_True.
  - by rewrite decide_True, Hp.
  - intros y. case_decide; [subst; symmetry; by apply (k_wait_mutex _ _ _ K) | done].
Qed.

Lemma wake_and_release_spec t ℓ o m :
  access ℓ m -> l_mutex ℓ = Some m ->
  triple t ℓ (words (is_fat o m)) (choosing (fun c => _ ← on_monitor m (signal c); release t m))
    (fun _ => post t (set_mutex None ℓ) (words (is_fat o m))).
Proof.
  intros Ha Hl. apply triple_last, triple_choosing; [by apply stable_fat |]. intros s g c I K Hi.
  destruct (holding _ _ _ _ _ K Hl) as (v & Hv & Hlock). run_step.
  erewrite release_eq; [| by simpl; rewrite lookup_insert_eq | done]. simpl. rewrite insert_insert_eq.
  exists (set_mutex None ℓ), (words (is_fat o m)). split; [| by apply triple_value; [apply stable_fat |]].
  eapply (neutral_update t ℓ s g I K m v); eauto; simpl; try done.
  - intros u Hu. rewrite Hlock. split; congruence.
  - intros m1. rewrite Hl. case_decide; split; congruence.
Qed.

Lemma read_own_spec {A} t ℓ φ (f : Thread -> A) :
  stable t ℓ (words φ) ->
  triple t ℓ (words φ) (atomic (th ← get_thread t; mret (f th))) (fun _ => post t ℓ (words φ)).
Proof.
  intros Hφ. apply triple_last, triple_atomic; [done |]. intros s g I K Hσ.
  destruct (self_thread _ _ _ _ K) as (th & Hth & _). run_step.
  exists ℓ, (words φ). split; [by apply no_step | by apply triple_value].
Qed.

Lemma clear_interrupted_spec t ℓ φ :
  stable t ℓ (words φ) ->
  triple t ℓ (words φ)
    (atomic (th ← get_thread t; _ ← set_thread t (with_interrupted false th); mret (interrupted_ th)))
    (fun _ => post t ℓ (words φ)).
Proof.
  intros Hφ. apply triple_last, triple_atomic; [done |]. intros s g I K Hσ.
  destruct (self_thread _ _ _ _ K) as (th & Hth & _). run_step. run_step.
  exists ℓ, (words φ). split; [by eapply own_update | by apply triple_value].
Qed.

Section sleep.
Context (t : tid) (ℓ : local_state) (o m : Z).
Context (Hst : l_state ℓ <> kRunnable) (Hmx : l_mutex ℓ = Some m) (Hw : (m, false) ∈ l_waits ℓ).
Context (Hwm : l_wait_mutex ℓ = None) (Hmon : l_wait_monitor ℓ = None).

Let F := words (is_fat o m).

Lemma sleep_on_spec fuel :
  triple t ℓ F (sleep_on fuel t m) (fun _ => post t (set_state kRunnable (set_mutex None ℓ)) F).
Proof.
  assert (Ha : forall ℓ', l_waits ℓ' = l_waits ℓ -> access ℓ' m).
  { intros ℓ' E. right; left. exists false. by rewrite E. }
  assert (HF : forall ℓ', l_waits ℓ' = l_waits ℓ -> stable t ℓ' F) by (intros; apply stable_fat; auto).
  pose (none := fun x : option Z => bool_decide (x = None)).
  pose (some := fun x : option Z => bool_decide (x <> None)).
  unfold sleep_on. eapply triple_seq; [apply WaitMutexLock_own; auto |].
  eapply triple_seq.
  { apply (set_wait_monitor_spec t _ _ (Some m) none); auto.
    by apply bool_decide_eq_true. }
  eapply triple_seq; [apply wake_and_release_spec; [by apply Ha | done] |].
  pose (ℓ1 := set_mutex None (set_wmon (Some m) (set_wmutex (Some t) ℓ))).
  eapply triple_then with (ℓ' := fun _ => ℓ1) (F' := fun _ => F); [apply read_own_spec; by apply HF |].
  intros interrupted. eapply triple_then with (ℓ' := fun _ => ℓ1) (F' := fun _ => F).
  { destruct interrupted; [by apply triple_value; [apply HF |] |].
    eapply triple_seq; [apply WaitConditionWait_spec; auto; by apply HF |].
    apply clear_interrupted_spec. by apply HF. }
  intros was. eapply triple_seq; [apply WaitMutexUnlock_own; [done | by apply HF..] |].
  eapply triple_seq; [apply TransitionFromSuspendedToRunnable_spec; [done | by apply HF..] |].
  eapply triple_seq; [apply WaitMutexLock_own; [done | by apply HF..] |].
  eapply triple_seq.
  { apply (set_wait_monitor_spec t _ _ None some); [done | by apply HF..]. }
  eapply triple_seq; [apply WaitMutexUnlock_own; [done | by apply HF..] |].
  apply triple_value; [by apply HF |]. intros σ _ K Hσ. split; [| done].
  revert K. unfold ℓ1. destruct ℓ; simpl in *. by subst.
Qed.
End sleep.

(** ** [Wait] *)

Lemma knows_counts t ℓ ℓ' σ :
  (forall o, l_count ℓ' o = l_count ℓ o) -> ℓ' = set_count (l_count ℓ') ℓ -> knows t ℓ σ -> knows t ℓ' σ.
Proof.
  intros Hc -> K. destruct K. split; try done. simpl in *. intros o. by rewrite Hc.
Qed.

Lemma pending_eta ℓ e : l_pending ℓ = e -> set_pending e ℓ = ℓ.
Proof. by destruct ℓ; simpl; intros ->. Qed.

(** How a wait may end when the thread holds the object [n] times. *)
Definition wait_outcome (n ms ns : Z) (e : option exception) : Prop :=
  if 0 <? n then
    if (ms <? 0) || (ns <? 0) || (999999 <? ns) then e = Some IllegalArgumentException
    else e = None \/ e = Some InterruptedException
  else e = Some IllegalMonitorStateException.

Lemma local_eq ℓ ℓ' :
  l_state ℓ = l_state ℓ' -> l_count ℓ = l_count ℓ' -> l_events ℓ = l_events ℓ' ->
  l_suspending ℓ = l_suspending ℓ' -> l_suspended ℓ = l_suspended ℓ' -> l_waits ℓ = l_waits ℓ' ->
  l_fresh ℓ = l_fresh ℓ' -> l_chain ℓ = l_chain ℓ' -> l_wait_monitor ℓ = l_wait_monitor ℓ' ->
  l_pending ℓ = l_pending ℓ' -> l_mutex ℓ = l_mutex ℓ' -> l_wait_mutex ℓ = l_wait_mutex ℓ' ->
  l_exclusive ℓ = l_exclusive ℓ' -> ℓ = ℓ'.
Proof. destruct ℓ, ℓ'; simpl. intros. by subst. Qed.

(** Awake again, after a sleep in state [st], the monitor not yet entered. *)
Definition awake (ℓ : local_state) (o m : Z) (st : ThreadState) : local_state :=
  set_state kRunnable (set_mutex None (set_state st (asleep ℓ o m))).

Lemma awake_eta ℓ o m st d d' :
  idle ℓ ->
  set_count (l_count ℓ) (bump o d (no_longer_waiting m (set_mutex (Some m) (bump o d' (awake ℓ o m st))))) =
  set_mutex (Some m) ℓ.
Proof.
  intros [[] Hw Hc _]. apply local_eq; try reflexivity; try (symmetry; done).
  change (({[(m, false)]} ∪ l_waits ℓ) ∖ {[(m, false)]} = l_waits ℓ). set_solver.
Qed.

Section monitor_wait.
Context (t : tid) (ℓ : local_state) (o : Z) (J : idle ℓ) (Hpend : l_pending ℓ = None).
Context (Hheld : held (l_events ℓ) o <= 0).

Definition waited (ms ns : Z) : assertion := fun σ =>
  exists e, wait_outcome (l_count ℓ o) ms ns e /\ knows t (set_pending e ℓ) σ.

Lemma throw_waited φ e ms ns :
  wait_outcome (l_count ℓ o) ms ns (Some e) -> (forall ℓ', l_state ℓ' = kRunnable -> stable t ℓ' (words φ)) ->
  triple t ℓ (words φ) (atomic (throw t e)) (fun _ => waited ms ns).
Proof.
  destruct (id_ready _ J). intros He Hφ.
  eapply triple_mono; [apply throw_spec; apply Hφ; done |]. intros _ σ _ [K _]. by exists (Some e).
Qed.

Section on_monitor.
Context (m : Z).
Let F := words (is_fat o m).
Let ℓm := set_mutex (Some m) ℓ.

Lemma fat_lasts ℓ' : l_state ℓ' = kRunnable -> stable t ℓ' F.
Proof. intros Hst. apply stable_fat. by left. Qed.

Lemma unlock_and_throw_spec e ms ns :
  wait_outcome (l_count ℓ o) ms ns (Some e) ->
  triple t ℓm F (_ ← MutexUnlock t m; atomic (throw t e)) (fun _ => waited ms ns).
Proof.
  destruct (id_ready _ J). intros He.
  eapply triple_seq; [apply MutexUnlock_spec; [by left | done] |].
  unfold ℓm. rewrite mutex_eta by done. apply throw_waited; [done | apply fat_lasts].
Qed.

Lemma owned_spec :
  triple t ℓm F (atomic (v ← get_monitor m; mret (bool_decide (owner_ v = Some t))))
    (fun b : bool => post t ℓm (fun σ => F σ /\ b = (0 <? l_count ℓ o))).
Proof.
  destruct (id_ready _ J). apply triple_last, triple_atomic; [by apply fat_lasts |]. intros s g I K Hi.
  destruct (holding _ _ _ _ m K eq_refl) as (v & Hv & Hlock). run_step.
  exists ℓm, F. split; [by apply no_step |]. apply triple_value; [by apply fat_lasts |].
  intros σ _ K' HF. split_and!; [done.. |].
  assert (Hc := count_monitor _ _ _ _ _ _ _ K Hv Hi). simpl in Hc. rewrite Hc.
  assert (H0 := mon_count _ _ _ (inv_monitors _ I _ _ Hv)).
  apply eq_bool_prop_intro. rewrite Is_true_true, Is_true_true, bool_decide_eq_true, Z.ltb_lt.
  by apply monitor_count_owner.
Qed.

Lemma start_wait_spec :
  0 < l_count ℓ o ->
  triple t ℓm F (atomic (start_wait t m))
    (fun prev => post t (asleep ℓ o m) (fun σ => F σ /\ prev = l_count ℓ o - 1)).
Proof.
  destruct (id_ready _ J). intros Hpos. apply triple_last, triple_atomic; [by apply fat_lasts |]. intros s g I K Hi.
  destruct (holding _ _ _ _ m K eq_refl) as (v & Hv & Hlock).
  assert (Hc := count_monitor _ _ _ _ _ _ _ K Hv Hi). simpl in Hc.
  assert (Ho : owner_ v = Some t).
  { apply monitor_count_owner; [apply (inv_monitors _ I _ _ Hv) | lia]. }
  destruct (start_wait_step t ℓ o m J Hheld s g v I K Hi Hv Hlock Ho) as (s' & -> & Hs).
  exists (asleep ℓ o m), F. split; [done |]. apply triple_value; [by apply fat_lasts |].
  intros σ _ K' HF. split_and!; [done.. |]. unfold monitor_count in Hc. rewrite bool_decide_true in Hc by done. lia.
Qed.

Lemma end_wait_spec st :
  0 < l_count ℓ o ->
  triple t (set_mutex (Some m) (bump o 1 (awake ℓ o m st))) F (atomic (end_wait t m (l_count ℓ o - 1)))
    (fun _ => post t ℓm F).
Proof.
  destruct (J) as [[] Hwaits Hch Hmon]. intros Hpos. apply triple_last, triple_atomic; [by apply fat_lasts |].
  intros s g I K Hi. destruct (holding _ _ _ _ m K eq_refl) as (v & Hv & Hlock).
  destruct (end_wait_step t _ o m s g v (l_count ℓ o - 1) F I K Hi Hv Hlock) as (s' & -> & Hs); simpl; try done; try lia.
  - congruence.
  - set_solver.
  - destruct (decide (o = o)); [lia | done].
  - exists ℓm, F. split; [| by apply triple_value; [apply fat_lasts |]].
    destruct Hs as (g' & I' & G' & K' & HF). exists g'. split_and!; try done.
    eapply knows_counts; [| | exact K'].
    + intros o1. simpl. case_decide; [subst; lia | done].
    + symmetry. exact (awake_eta ℓ o m st _ _ J).
Qed.

(** The end of [Monitor::Wait], with the monitor entered again. *)
Lemma interrupted_spec ms ns (interrupted throws : bool) :
  wait_outcome (l_count ℓ o) ms ns None -> wait_outcome (l_count ℓ o) ms ns (Some InterruptedException) ->
  triple t ℓ F
    (if interrupted then
       _ ← WaitMutexLock t t;
       _ ← atomic (on_thread t (with_interrupted false));
       _ ← WaitMutexUnlock t t;
       if throws then atomic (throw t InterruptedException) else mret tt
     else mret tt)
    (fun _ => waited ms ns).
Proof.
  destruct (id_ready _ J). intros H1 H2.
  assert (Hret : triple t ℓ F (mret tt) (fun _ => waited ms ns)).
  { apply triple_value; [by apply fat_lasts |]. intros σ _ K _. exists None. by rewrite pending_eta. }
  destruct interrupted; [| exact Hret].
  eapply triple_seq; [apply WaitMutexLock_own; [done | by apply fat_lasts..] |].
  eapply triple_seq; [apply own_fields_spec; [by apply fat_lasts | done] |].
  eapply triple_seq; [apply WaitMutexUnlock_own; [done | by apply fat_lasts..] |].
  rewrite wmutex_eta by done. destruct throws; [| exact Hret].
  apply throw_waited; [done | apply fat_lasts].
Qed.

Lemma Monitor_Wait_spec fuel ms ns throws :
  triple t ℓ F (Monitor_Wait fuel t m ms ns throws kTimedWaiting) (fun _ => waited ms ns).
Proof.
  destruct (id_ready _ J). unfold Monitor_Wait.
  eapply triple_local; [by rewrite bool_decide_true by auto |].
  eapply triple_seq; [apply MutexLock_spec; [by left | done] |].
  eapply triple_then; [apply owned_spec |]. intros owned. apply triple_fact. intros Howned.
  destruct owned; cbn [negb].
  2: { apply unlock_and_throw_spec. unfold wait_outcome. by rewrite <- Howned. }
  symmetry in Howned. cbn zeta. destruct ((ms <? 0) || _ || _) eqn:Eargs.
  { apply unlock_and_throw_spec. unfold wait_outcome. by rewrite Howned, Eargs. }
  assert (Hpos : 0 < l_count ℓ o) by lia.
  set (why := if _ && _ then kWaiting else kTimedWaiting).
  assert (Hwhy : why <> kRunnable) by (unfold why; by destruct (_ && _)).
  assert (Hw : (m, false) ∈ l_waits (asleep ℓ o m)) by (simpl; set_solver).
  assert (HF : forall ℓ', l_waits ℓ' = l_waits (asleep ℓ o m) -> stable t ℓ' F).
  { intros ℓ' E. apply stable_fat. right; left. exists false. by rewrite E. }
  eapply triple_then; [by apply start_wait_spec |]. intros prev. apply triple_fact. intros ->.
  eapply triple_seq; [apply TransitionFromRunnableToSuspended_spec; [done | done | | by apply HF..] |].
  { intros m1 [= <-]. by exists false. }
  pose proof (id_monitor _ J) as Hmon. eapply triple_then; [by apply (sleep_on_spec t (set_state why (asleep ℓ o m)) o m) |].
  intros interrupted. fold (awake ℓ o m why). eapply triple_seq; [apply Lock_spec; try done |].
  { simpl. rewrite (id_waits _ J). set_solver. }
  { simpl. rewrite decide_True by done. lia. }
  { simpl. rewrite decide_True by done. lia. }
  eapply triple_seq; [apply MutexLock_spec; [by left | done] |].
  eapply triple_seq; [by apply end_wait_spec |].
  eapply triple_seq; [apply MutexUnlock_spec; [by left | done] |].
  unfold ℓm. rewrite mutex_eta by done. 
  apply interrupted_spec; unfold wait_outcome; rewrite Howned, Eargs; auto.
Qed.
End on_monitor.

Lemma Wait_spec fuel ms ns throws :
  triple t ℓ (words (is_object o)) (Wait fuel t o ms ns throws kTimedWaiting) (fun _ => waited ms ns).
Proof.
  destruct (id_ready _ J). induction fuel as [| fuel IH]; [apply triple_never |].
  cbn [Wait]. apply GetLockWord_rule; [apply stable_object | by intros |].
  intros s g w I K Ho Hw. pose proof (word_ok_view _ _ _ _ I (inv_words _ I _ _ Hw)) as Hok.
  assert (Hk := k_count _ _ _ K o). simpl in Hk. rewrite count_view in Hk.
  assert (Hv : lock_view s o = Some (view_of w)) by (unfold lock_view; by rewrite Hw). rewrite Hv in Hk.
  assert (Hthrow : l_count ℓ o = 0 ->
    triple t ℓ (words (is_object o)) (atomic (throw t IllegalMonitorStateException)) (fun _ => waited ms ns)).
  { intros H0. apply throw_waited; [unfold wait_outcome; by rewrite H0 | intros; apply stable_object]. }
  destruct (view_of w) as [| u c | m | h |] eqn:Ew; simpl in Hk; try done.
  - rewrite Hok. exists (words (is_object o)). split; [done | by apply Hthrow].
  - destruct Hok as (-> & _ & Hu & Hc). rewrite thin_word_state, ThinLockOwner_ok by lia.
    change (local (Ok ?a) ≫= ?k) with (k a). cbn beta. destruct (decide (u = t)) as [-> | Hut]; last first.
    + rewrite bool_decide_true by done. rewrite bool_decide_false in Hk by done.
      exists (words (is_object o)). split; [done | by apply Hthrow].
    + rewrite bool_decide_false by auto. exists (words (inflatable o (Some t) 0)). split.
      { unfold words, inflatable. unfold lock_view in Hv. simpl. by rewrite Hv. }
      eapply triple_seq; [apply Inflate_spec; try done; by left | exact IH].
  - destruct Hok as (-> & Hm & _). rewrite fat_word_state, FatLockMonitor_ok by done.
    exists (words (is_fat o m)). split; [done | exact (Monitor_Wait_spec m fuel ms ns throws)].
  - destruct Hok as (-> & Hh). rewrite hash_word_state by lia.
    exists (words (is_object o)). split; [done | by apply Hthrow].
Qed.
End monitor_wait.

(** ** Notification and interruption *)

(** The condition variable of thread [u] is signalled, or its flag set. *)
Lemma signal_update t ℓ s g u th th' (P : assertion) :
  Inv (s, g) -> knows t ℓ (s, g) -> threads s !! u = Some th ->
  state th' = state th -> suspend_count th' = suspend_count th -> wait_next th' = wait_next th ->
  wait_monitor_ th' = wait_monitor_ th -> pending th' = pending th -> wait_mutex_ th' = wait_mutex_ th ->
  (forall g', P (with_threads (<[u := th']> (threads s)) s, g')) ->
  step_to t ℓ (s, g) (with_threads (<[u := th']> (threads s)) s) P.
Proof.
  intros I K Hth E1 E2 E3 E4 E5 E6 HP.
  destruct (self_thread _ _ _ _ K) as (me & Hme & _ & Hm & Hp).
  apply (quiet_update t ℓ s g I K u th th' Hth); try done.
  - intros x Hx. by rewrite E6.
  - case_decide; [subst; congruence | done].
  - case_decide; [subst; congruence | done].
  - intros y. case_decide; [subst | done]. rewrite E6. symmetry. by apply (k_wait_mutex _ _ _ K).
Qed.

Section signals.
Context (t u : tid) (ℓ : local_state) (φ : gmap Z Z -> Prop).
Context (Hwm : l_wait_mutex ℓ = None) (Hφ : forall x, stable t (set_wmutex x ℓ) (words φ)).

Let F : assertion := fun σ => words φ σ /\ exists_thread u σ.

Lemma words_lasts : stable t ℓ (words φ).
Proof. specialize (Hφ None). by destruct ℓ; simpl in *; subst. Qed.

Lemma signals_lasts x : stable t (set_wmutex x ℓ) F.
Proof. apply stable_and; [done | apply stable_thread]. Qed.

(** What is done to [u] under its mutex. *)
Lemma wait_lock_spec :
  triple t ℓ F (WaitMutexLock t u) (fun _ => post t (set_wmutex (Some u) ℓ) F).
Proof. apply WaitMutexLock_spec; [done | apply words_lasts | apply Hφ]. Qed.

Lemma wait_unlock_spec :
  triple t (set_wmutex (Some u) ℓ) F (WaitMutexUnlock t u) (fun _ => post t ℓ (words φ)).
Proof.
  eapply triple_mono; [apply WaitMutexUnlock_spec; [done | apply Hφ | apply (Hφ None)] |].
  intros _ σ _ [K' HF]. split; [| done]. by rewrite wmutex_eta in K'.
Qed.

Lemma wait_locked_spec {A} (p : M State A) :
  (forall s g th, Inv (s, g) -> knows t (set_wmutex (Some u) ℓ) (s, g) -> F (s, g) -> threads s !! u = Some th ->
     exists a s', p s = Ok (a, s') /\ step_to t (set_wmutex (Some u) ℓ) (s, g) s' F) ->
  triple t (set_wmutex (Some u) ℓ) F (atomic p) (fun _ => post t (set_wmutex (Some u) ℓ) F).
Proof.
  intros Hp. apply triple_last, triple_atomic; [apply signals_lasts |]. intros s g I K Hσ.
  destruct (proj2 Hσ) as [th Hth]. destruct (Hp s g th I K Hσ Hth) as (a & s' & -> & Hs).
  exists (set_wmutex (Some u) ℓ), F. split; [done |]. by apply triple_value; [apply signals_lasts |].
Qed.

Lemma NotifyLocked_step ℓ1 s g th :
  Inv (s, g) -> knows t ℓ1 (s, g) -> F (s, g) -> threads s !! u = Some th ->
  exists b s', NotifyLocked u s = Ok (b, s') /\ step_to t ℓ1 (s, g) s' F.
Proof.
  intros I K Hσ Hth. unfold NotifyLocked. run_step. case_bool_decide.
  - exists false, s. split; [done | by apply no_step].
  - run_step. eexists true, _. split; [done |]. eapply signal_update; eauto.
    intros g'. split; [apply Hσ |]. unfold exists_thread. simpl. by rewrite lookup_insert_eq.
Qed.

Lemma Thread_Notify_spec : triple t ℓ F (Thread_Notify t u) (fun _ => post t ℓ (words φ)).
Proof.
  eapply triple_seq; [apply wait_lock_spec |].
  eapply triple_then; [apply wait_locked_spec; intros; by eapply NotifyLocked_step |]. intros b.
  eapply triple_seq; [apply wait_unlock_spec | by apply triple_value; [apply words_lasts |]].
Qed.

Lemma Interrupt_spec : triple t ℓ F (Interrupt t u) (fun _ => post t ℓ (words φ)).
Proof.
  eapply triple_seq; [apply wait_lock_spec |].
  eapply triple_seq; [apply wait_locked_spec | apply wait_unlock_spec]. intros s g th I K Hσ Hth.
  run_step. destruct (interrupted_ th); [exists tt, s; split; [done | by apply no_step] |]. run_step.
  set (s1 := with_threads (<[u := with_interrupted true th]> (threads s)) s).
  assert (Hth1 : threads s1 !! u = Some (with_interrupted true th)) by (simpl; by rewrite lookup_insert_eq).
  assert (S1 : step_to t (set_wmutex (Some u) ℓ) (s, g) s1 F).
  { eapply signal_update; eauto. intros g'. split; [apply Hσ | by exists (with_interrupted true th)]. }
  destruct S1 as (g1 & I1 & G1 & K1 & Hσ1).
  destruct (NotifyLocked_step _ s1 g1 _ I1 K1 Hσ1 Hth1) as (b & s2 & Hn & S2).
  exists tt, s2. split; [by rewrite (bind_eq _ _ _ _ _ Hn) |].
  apply step_to_trans with (set_wmutex (Some u) ℓ) s1. by exists g1.
Qed.
End signals.

Lemma chain_eta ℓ : l_chain ℓ = None -> set_chain None ℓ = ℓ.
Proof. by destruct ℓ; simpl; intros ->. Qed.

Section notify.
Context (t : tid) (ℓ : local_state) (o : Z) (J : idle ℓ).

Definition notified : local_state :=
  if 0 <? l_count ℓ o then ℓ else set_pending (Some IllegalMonitorStateException) ℓ.

Lemma throw_notified φ :
  l_count ℓ o = 0 -> (forall ℓ', l_state ℓ' = kRunnable -> stable t ℓ' (words φ)) ->
  triple t ℓ (words φ) (atomic (throw t IllegalMonitorStateException)) (fun _ => post t notified (fun _ => True)).
Proof.
  destruct (id_ready _ J). intros H0 Hφ. unfold notified. rewrite H0.
  eapply triple_mono; [apply throw_spec; apply Hφ; done |]. by intros _ σ _ [K _].
Qed.

Section on_monitor.
Context (m : Z).
Let F := words (is_fat o m).
Let ℓm := set_mutex (Some m) ℓ.

Lemma pop_waiter_spec :
  triple t ℓm F (atomic (pop_waiter m))
    (fun x => post t ℓm (fun σ => F σ /\ forall u, x = Some u -> exists_thread u σ)).
Proof.
  destruct (id_ready _ J). assert (HF : stable t ℓm F) by (apply stable_fat; by left).
  apply triple_last, triple_atomic; [done |]. intros s g I K Hi.
  destruct (holding _ _ _ _ m K eq_refl) as (v & Hv & Hlock).
  destruct (pop_waiter_ok s m v (chain g m) Hv) as (ts & first & -> & Hre).
  { apply (inv_chain _ I _ _ Hv). }
  { apply (inv_chain_nodup _ I). }
  set (F' := fun σ => F σ /\ forall u, head (chain g m) = Some u -> exists_thread u σ).
  assert (HF' : stable t ℓm F').
  { apply stable_and; [done |]. intros σ σ' R I1 I2 K1 Hu u E. by eapply stable_thread, Hu. }
  exists ℓm, F'. split; [| by apply triple_value]. rewrite <- (chain_eta ℓm) by apply (id_chain _ J).
  apply (relink_step t ℓm s g o m v ts first (tail (chain g m))); try done.
  - pose proof (inv_chain_nodup _ I m) as Hnd. simpl in Hnd. destruct (chain g m); [done |].
    by apply NoDup_cons in Hnd as [_ ?].
  - intros x Hx. left. destruct (chain g m); [done |]. by apply elem_of_cons; right.
  - intros m1 Hin. exfalso. apply (chain_free t ℓm s g m1 K (id_chain _ J)). case_decide as E; [| done].
    rewrite E. destruct (chain g m); [done |]. by apply elem_of_cons; right.
  - intros g'. split; [done |]. intros u Hu. unfold exists_thread. simpl.
    assert (Hin : u ∈ chain g m) by (destruct (chain g m); simplify_eq/=; apply elem_of_cons; by left).
    destruct (linked_thread _ _ _ _ (inv_chain _ I _ _ Hv) Hin) as [th Hth].
    destruct (rl_threads _ _ _ _ _ Hre _ _ Hth) as [n Hn]. by eexists.
Qed.

Lemma notify_loop_spec fuel all : triple t ℓm F (notify_loop fuel t m all) (fun _ => post t ℓm F).
Proof.
  destruct (id_ready _ J). assert (HF : forall x, stable t (set_wmutex x ℓm) F) by (intros; apply stable_fat; by left).
  assert (HFm : stable t ℓm F) by (apply stable_fat; by left).
  induction fuel as [| fuel IH]; [apply triple_never |]. cbn [notify_loop].
  eapply triple_then; [apply pop_waiter_spec |]. intros [u |].
  - eapply triple_then with (ℓ' := fun _ => ℓm) (F' := fun _ => F).
    + eapply triple_before; [apply Thread_Notify_spec; [done | apply HF] |].
      intros σ _ _ [Hσ Hu]. split; [done | by apply Hu].
    + intros b. destruct (negb all && b); [by apply triple_value | exact IH].
  - eapply triple_before; [by apply triple_value |]. by intros σ _ _ [Hσ _].
Qed.

Lemma Monitor_Notify_spec fuel all :
  triple t ℓ F (Monitor_Notify fuel t m all) (fun _ => post t notified (fun _ => True)).
Proof.
  destruct (id_ready _ J). unfold Monitor_Notify.
  eapply triple_seq; [apply MutexLock_spec; [by left | done] |].
  eapply triple_then with (ℓ' := fun _ => set_mutex (Some m) notified)
    (F' := fun b => fun σ => F σ /\ b = (0 <? l_count ℓ o)).
  - apply triple_last, triple_atomic; [apply stable_fat; by left |]. intros s g I K Hi.
    destruct (holding _ _ _ _ m K eq_refl) as (v & Hv & Hlock). run_step.
    assert (Hc := count_monitor _ _ _ _ _ _ _ K Hv Hi). simpl in Hc.
    assert (H0 := mon_count _ _ _ (inv_monitors _ I _ _ Hv)).
    assert (Hfin : forall b, b = (0 <? l_count ℓ o) ->
      triple t (set_mutex (Some m) notified) F (Ret b)
        (fun b => post t (set_mutex (Some m) notified) (fun σ => F σ /\ b = (0 <? l_count ℓ o)))).
    { intros b Hb. apply triple_value; [apply stable_fat; left; unfold notified; by destruct (_ <? _) | done]. }
    case_bool_decide as Ho.
    + assert (Ht : 0 < l_count ℓ o) by (rewrite Hc; by apply monitor_count_owner).
      exists (set_mutex (Some m) notified), F. split; [| apply Hfin; symmetry; by apply Z.ltb_lt].
      unfold notified. rewrite (proj2 (Z.ltb_lt _ _)) by done. by apply no_step.
    + assert (Ht : l_count ℓ o <= 0).
      { rewrite Hc. apply Z.nlt_ge. intros Hlt. by apply monitor_count_owner in Hlt. }
      destruct (throw_step t (set_mutex (Some m) ℓ) s g IllegalMonitorStateException F I K) as (s' & Hthrow & Hs); [done |].
      rewrite (bind_eq _ _ _ _ _ Hthrow). exists (set_mutex (Some m) notified), F.
      split; [| apply Hfin; symmetry; by apply Z.ltb_ge].
      unfold notified. by rewrite (proj2 (Z.ltb_ge _ _)).
  - intros owned. apply triple_fact. intros Howned.
    assert (Hmx : l_mutex (set_mutex (Some m) notified) = Some m) by done.
    assert (Hr : l_state notified = kRunnable) by (unfold notified; by destruct (_ <? _)).
    eapply triple_seq with (ℓ' := set_mutex (Some m) notified) (F' := F).
    { unfold notified. rewrite <- Howned. destruct owned; [apply notify_loop_spec |].
      apply triple_value; [apply stable_fat; by left | done]. }
    eapply triple_mono; [apply MutexUnlock_spec; [by left | done] |]. intros _ σ _ [K _]. split; [| done].
    by rewrite mutex_eta in K by (unfold notified; by destruct (_ <? _)).
Qed.
End on_monitor.

Lemma DoNotify_spec fuel all :
  triple t ℓ (words (is_object o)) (DoNotify fuel t o all) (fun _ => post t notified (fun _ => True)).
Proof.
  destruct (id_ready _ J). unfold DoNotify. apply GetLockWord_rule; [apply stable_object | by intros |].
  intros s g w I K Ho Hw. pose proof (word_ok_view _ _ _ _ I (inv_words _ I _ _ Hw)) as Hok.
  assert (Hk := k_count _ _ _ K o). simpl in Hk. rewrite count_view in Hk.
  assert (Hv : lock_view s o = Some (view_of w)) by (unfold lock_view; by rewrite Hw). rewrite Hv in Hk.
  assert (Hthrow : l_count ℓ o = 0 -> triple t ℓ (words (is_object o))
    (atomic (throw t IllegalMonitorStateException)) (fun _ => post t notified (fun _ => True))).
  { intros H0. apply throw_notified; [done | intros; apply stable_object]. }
  destruct (view_of w) as [| u c | m | h |] eqn:Ew; simpl in Hk; try done.
  - rewrite Hok. exists (words (is_object o)). split; [done | by apply Hthrow].
  - destruct Hok as (-> & _ & Hu & Hc). rewrite thin_word_state, ThinLockOwner_ok by lia.
    change (local (Ok ?a) ≫= ?k) with (k a). cbn beta. exists (words (is_object o)). split; [done |].
    destruct (decide (u = t)) as [-> | Hut].
    + rewrite (bool_decide_false (t <> t)) by auto. rewrite bool_decide_true in Hk by done.
      apply triple_value; [apply stable_object |]. intros σ _ K' _. split; [| done].
      unfold notified. by rewrite (proj2 (Z.ltb_lt _ _)) by lia.
    + rewrite bool_decide_true by done. rewrite bool_decide_false in Hk by done. by apply Hthrow.
  - destruct Hok as (-> & Hm & _). rewrite fat_word_state, FatLockMonitor_ok by done.
    exists (words (is_fat o m)). split; [done | exact (Monitor_Notify_spec m fuel all)].
  - destruct Hok as (-> & Hh). rewrite hash_word_state by lia.
    exists (words (is_object o)). split; [done | by apply Hthrow].
Qed.
End notify.
