(* ===== verification/MonitorHash.v ===== *)
(** * Identity hash codes

    Triples for the functions of runtime/mirror/object.cc and runtime/monitor.cc that
    give an object its identity hash code. *)

From stdpp Require Import functions.
From S2P Require Import Prelude Concurrency LockWord Monitor MonitorInvariant MonitorSteps MonitorLogic MonitorPrograms MonitorLocking.

Lemma hash_range x : Z.land x kHashMask <> 0 -> 0 < Z.land x kHashMask <= kMaxHash.
Proof.
  change kHashMask with (Z.ones 30). rewrite Z.land_ones by lia. lock_word_consts.
  intros H. pose proof (Z.mod_pos_bound x (2 ^ 30) ltac:(lia)). lia.
Qed.

Lemma GenerateIdentityHashCode_spec t ℓ F fuel :
  stable t ℓ F -> (forall s g x, F (s, g) -> F (with_seed x s, g)) ->
  triple t ℓ F (GenerateIdentityHashCode fuel)
    (fun h => post t ℓ (fun σ => F σ /\ 0 < h <= kMaxHash)).
Proof.
  intros HF Hseed. induction fuel as [| fuel IH]; [apply triple_never |]. cbn [GenerateIdentityHashCode].
  apply triple_atomic; [done |]. intros s g I K Hσ. exists ℓ, F. split; [by apply no_step |].
  clear g I K Hσ. cbn zeta. destruct (Z.eqb_spec (Z.land (seed s) kHashMask) 0) as [| Hne]; [exact IH |].
  apply hash_range in Hne. apply triple_choosing; [done |]. intros s1 g c I K Hσ. run_step.
  destruct (bool_decide _ && _); [run_step; exists ℓ, F; split | exists ℓ, F; split; [by apply no_step | exact IH]].
  - apply (set_seed_step t ℓ s1 g I K). by apply Hseed.
  - by apply triple_value.
Qed.

Lemma count_eta ℓ : set_count (l_count ℓ) ℓ = ℓ.
Proof. by destruct ℓ. Qed.

Lemma fields_eta ℓ : set_count (l_count ℓ) (set_waits (l_waits ℓ) (set_mutex (l_mutex ℓ) ℓ)) = ℓ.
Proof. by destruct ℓ. Qed.

Section hash.
Context (t : tid) (ℓ : local_state) (o : Z) (R : ready ℓ).

(** The hash code of [o] is [h]. *)
Definition hashed (h : Z) : assertion := fun σ => h <> 0 /\ hash_of σ.1 o = h.

Lemma stable_hashed ℓ' h : stable t ℓ' (hashed h).
Proof. intros σ σ' Rσ I I' K [Hh Ho]. split; [done |]. by rewrite (r_hash _ _ _ Rσ), Ho by congruence. Qed.

Section on_monitor.
Context (m : Z).
Let F := words (is_fat o m).

Lemma fat_stays : stable t ℓ F.
Proof. apply stable_fat. left. apply R. Qed.

(** A monitor without a hash code gets one, whoever holds its mutex. *)
Lemma set_hash_step s g v h (P : assertion) :
  let s' := with_monitors (<[m := with_hash_code h v]> (monitors s)) s in
  Inv (s, g) -> knows t ℓ (s, g) -> F (s, g) -> monitors s !! m = Some v -> hash_code_ v = 0 ->
  0 < h <= kMaxHash -> (forall g', P (s', g')) -> step_to t ℓ (s, g) s' P.
Proof.
  intros s' I K Hi Hv H0 Hh HP. rewrite <- (fields_eta ℓ) at 1.
  apply (set_monitor_step t ℓ s g I K m v _ Hv (waiters g m)).
  - split; simpl; try done.
    + destruct (inv_monitors _ I _ _ Hv). split; simpl; (done || lia).
    + intros o1 Ho1. exact (held_monitor t ℓ s g m v o1 I K Hv Ho1).
    + by apply (inv_waiters _ I).
    + apply (inv_waiting _ I).
    + apply (inv_chain_waiters _ I).
    + intros Hl. left. apply (knows_runnable _ _ _ K). apply R.
    + intros u _ _. by exists o.
  - intros o1. case_decide as Ho1; [| done]. exact (count_monitor t ℓ s g m v o1 K Hv Ho1).
  - intros m1 b. pose proof (k_waits _ _ _ K m1 b) as Hk. simpl in Hk. case_decide; [subst; by rewrite Hk | done].
  - intros m1. rewrite (rd_mutex _ R). case_decide; [subst | done]. split; [done |]. simpl. intros Hl.
    apply (k_mutex _ _ _ K _ _ Hv) in Hl. by rewrite (rd_mutex _ R) in Hl.
  - apply HP.
Qed.

Lemma Monitor_GetHashCode_loop_spec fuel :
  triple t ℓ F (Monitor_GetHashCode_loop fuel m) (fun _ => post t ℓ (fun σ => F σ /\ exists h, hashed h σ)).
Proof.
  induction fuel as [| fuel IH]; [apply triple_never |]. cbn [Monitor_GetHashCode_loop].
  assert (Hret : forall h, triple t ℓ (fun σ => F σ /\ hashed h σ) (mret tt)
    (fun _ => post t ℓ (fun σ => F σ /\ exists h, hashed h σ))).
  { intros h. apply triple_value; [apply stable_and; [apply fat_stays | apply stable_hashed] |].
    intros σ _ K [HF Hh]. split_and!; [done.. |]. by exists h. }
  apply triple_atomic; [apply fat_stays |]. intros s g I K Hi.
  destruct (installed_monitor _ _ _ _ I Hi) as (_ & _ & v & Hv & Ho). run_step. unfold HasHashCode.
  destruct (Z.eqb_spec (hash_code_ v) 0) as [H0 | Hne]; cbn [negb].
  - exists ℓ, F. split; [by apply no_step |]. clear s g I K Hi v Hv Ho H0.
    eapply triple_then with (ℓ' := fun _ => ℓ) (F' := fun h => fun σ => F σ /\ 0 < h <= kMaxHash).
    { apply GenerateIdentityHashCode_spec; [apply fat_stays | done]. }
    intros h. apply triple_fact. intros Hh. apply triple_choosing; [apply fat_stays |]. intros s g c I K Hi.
    destruct (installed_monitor _ _ _ _ I Hi) as (_ & _ & v & Hv & Ho). run_step.
    destruct ((hash_code_ v =? 0) && (c =? 0)) eqn:E.
    + apply andb_true_iff in E as [H0%Z.eqb_eq _]. run_step.
      exists ℓ, (fun σ => F σ /\ hashed h σ). split; [| apply Hret].
      apply (set_hash_step s g v h); try done. intros g'. split; [done |]. split; [lia |]. simpl.
      rewrite hash_set_monitor. by rewrite decide_True.
    + exists ℓ, F. split; [by apply no_step | exact IH].
  - exists ℓ, (fun σ => F σ /\ hashed (hash_code_ v) σ). split; [| apply Hret].
    apply no_step; try done. split; [done |]. split; [done |]. simpl. by apply (hash_installed s m v).
Qed.

Lemma Monitor_GetHashCode_spec fuel :
  triple t ℓ F (Monitor_GetHashCode fuel m) (fun h => post t ℓ (hashed h)).
Proof.
  eapply triple_seq; [apply Monitor_GetHashCode_loop_spec |].
  eapply triple_before with (F' := fun σ => exists h, F σ /\ hashed h σ); [| by intros σ _ _ [? [h ?]]; exists h].
  apply triple_exists. intros h. apply triple_last, triple_atomic.
  { apply stable_and; [apply fat_stays | apply stable_hashed]. }
  intros s g I K [Hi [Hh Ho]]. simpl in Ho.
  destruct (installed_monitor _ _ _ _ I Hi) as (_ & _ & v & Hv & _).
  rewrite (hash_installed s m v o Hv Hi) in Ho. run_step.
  rewrite bind_check by (unfold HasHashCode; by rewrite Ho, (proj2 (Z.eqb_neq h 0) Hh)).
  exists ℓ, (hashed h). rewrite Ho. split.
  - apply no_step; try done. split; [done |]. simpl. by rewrite (hash_installed s m v o Hv Hi).
  - apply triple_value; [apply stable_hashed | done].
Qed.
End on_monitor.

Lemma first_hash_spec h :
  0 < h <= kMaxHash ->
  triple t ℓ (words (is_object o)) (CasLockWordWeak o Unlocked (hash_word h))
    (fun b : bool => post t ℓ (if b then hashed h else words (is_object o))).
Proof.
  destruct R. intros Hh. apply triple_last, triple_choosing; [apply stable_object |].
  intros s g c I K [w Hw]. simpl in Hw. run_step.
  destruct (bool_decide (w = Unlocked) && (c =? 0)) eqn:E.
  - apply andb_true_iff in E as [->%bool_decide_eq_true _]. run_step.
    exists ℓ, (hashed h). split; [| apply triple_value; [apply stable_hashed | done]].
    assert (Hk := k_count _ _ _ K o). simpl in Hk. unfold count in Hk. rewrite Hw in Hk. simpl in Hk.
    assert (Hheld := inv_held _ I t o). simpl in Hheld. unfold count in Hheld. rewrite Hw in Hheld. simpl in Hheld.
    assert (Hev := k_events _ _ _ K). simpl in Hev. rewrite <- (count_eta ℓ) at 1.
    apply (set_word_step t ℓ s g I K o Unlocked (hash_word h) Hw).
    + split; rewrite ?view_hash by lia; simpl; try done.
      * by apply (knows_runnable _ _ _ K).
      * by constructor.
      * by rewrite <- Hev.
    + intros o1. rewrite view_hash by lia. simpl. case_decide; [subst; lia | done].
    + split; [lia |]. simpl. rewrite hash_set_word, decide_True by done. by rewrite view_hash by lia.
  - exists ℓ, (words (is_object o)). split; [apply no_step; try done; by exists w |].
    apply triple_value; [apply stable_object | done].
Qed.

Lemma IdentityHashCode_spec fuel :
  triple t ℓ (words (is_object o)) (IdentityHashCode fuel t o) (fun h => post t ℓ (hashed h)).
Proof.
  destruct (R). induction fuel as [| fuel IH]; [apply triple_never |].
  cbn [IdentityHashCode]. apply GetLockWord_rule; [apply stable_object | by intros |].
  intros s g w I K Ho Hw. pose proof (word_ok_view _ _ _ _ I (inv_words _ I _ _ Hw)) as Hok.
  assert (Hv : lock_view s o = Some (view_of w)) by (unfold lock_view; by rewrite Hw).
  destruct (view_of w) as [| u c | m | h |] eqn:Ew; try done.
  - rewrite Hok. change (GetState Unlocked) with kUnlocked. cbn beta iota. exists (words (is_object o)).
    split; [done |]. eapply triple_then with (ℓ' := fun _ => ℓ) (F' := fun h => fun σ => words (is_object o) σ /\ 0 < h <= kMaxHash).
    { apply GenerateIdentityHashCode_spec; [apply stable_object | done]. }
    intros h. apply triple_fact. intros Hh. rewrite FromHashCode_ok by lia.
    change (local (Ok ?a) ≫= ?k) with (k a). cbn beta. unfold has_state. rewrite hash_word_state by lia.
    change (local (check (bool_decide (kHashCode = kHashCode))) ≫= ?k) with (k tt). cbn beta.
    eapply triple_then; [by apply first_hash_spec |]. intros []; [| exact IH].
    rewrite GetHashCode_ok by lia. apply triple_value; [apply stable_hashed | done].
  - destruct Hok as (-> & _ & Hu & Hc). rewrite thin_word_state by lia. cbn iota.
    exists (words (if decide (u = t) then is_thin o t c else is_object o)). split.
    { case_decide; [subst |]; done. }
    eapply triple_then with (ℓ' := fun _ => ℓ)
      (F' := fun h => fun σ => words (if decide (u = t) then is_thin o t c else is_object o) σ /\ 0 < h <= kMaxHash).
    { apply GenerateIdentityHashCode_spec; [case_decide; [by apply stable_thin | apply stable_object] | done]. }
    intros h. apply triple_fact. intros Hh. eapply triple_seq; [| exact IH]. case_decide as Hut.
    + rewrite Hut in *. eapply triple_before; [apply InflateThinLocked_self; try done; lia |].
      intros σ _ _ Hthin. unfold words, is_thin in Hthin. unfold words, inflatable. by rewrite Hthin.
    + apply InflateThinLocked_other; try done; lia.
  - destruct Hok as (-> & Hm & _). rewrite fat_word_state, FatLockMonitor_ok by done.
    exists (words (is_fat o m)). split; [done | exact (Monitor_GetHashCode_spec m fuel)].
  - destruct Hok as (-> & Hh). rewrite hash_word_state, GetHashCode_ok by lia.
    exists (hashed h). split; [split; [lia | simpl; rewrite hash_view, Hv; done] |].
    apply triple_value; [apply stable_hashed | done].
Qed.
End hash.
