(* ===== verification/MonitorDeflation.v ===== *)
(** * Suspension of all threads and deflation

    Triples for [ThreadList::SuspendAll] and [ResumeAll] (runtime/thread_list.cc) and for
    the deflation of monitors while all threads are suspended. *)

From stdpp Require Import functions.
From S2P Require Import Prelude Concurrency LockWord Monitor MonitorInvariant MonitorSteps MonitorLogic MonitorPrograms MonitorLocking MonitorHash.

Abbreviation anything := (fun _ : State * ghost => True).

Lemma bind_assoc_lift {A B C} (r : res A) (k : A -> M State B) (k' : B -> M State C) s a :
  r = Ok a -> ((lift r ≫= k) ≫= k') s = (k a ≫= k') s.
Proof. by intros ->. Qed.

(** ** All threads *)

(** The body of [modify_others]. *)
Definition modify_each (self : tid) (delta : Z) (l : list tid) : M State unit :=
  foldr (fun t k => _ ← (if bool_decide (t = self) then mret tt else ModifySuspendCount t delta); k) (mret tt) l.

Lemma suspending_eta' ℓ A : l_suspending ℓ = A -> set_suspending A ℓ = ℓ.
Proof. by destruct ℓ; simpl; intros ->. Qed.

Section each.
Context (t : tid).

Lemma modify_each_up l : forall ℓ s g,
  Inv (s, g) -> knows t ℓ (s, g) -> NoDup l -> l_suspended ℓ = ∅ ->
  (forall u, u ∈ l -> is_Some (threads s !! u) /\ u ∉ l_suspending ℓ) ->
  exists s' A, modify_each t 1 l s = Ok (tt, s') /\ dom (threads s') = dom (threads s) /\
    (forall u, u ∈ A <-> u ∈ l_suspending ℓ \/ u ∈ l /\ u <> t) /\
    step_to t (set_suspending A ℓ) (s, g) s' anything.
Proof.
  induction l as [| u l IH]; intros ℓ s g I K Hnd Hsd Hl.
  - exists s, (l_suspending ℓ). split_and!; [done | done | set_solver |].
    rewrite suspending_eta' by done. by apply no_step.
  - apply NoDup_cons in Hnd as [Hu Hnd]. destruct (Hl u) as [[th Hth] Hnew]; [by apply elem_of_cons; left |].
    cbn [modify_each foldr]. destruct (decide (u = t)) as [-> | Hut].
    + rewrite bool_decide_true by done. run_step.
      destruct (IH ℓ s g I K Hnd Hsd) as (s' & A & Hm & Hdom & HA & Hs); [intros; apply Hl; by apply elem_of_cons; right |].
      exists s', A. split_and!; [done | done | | done]. intros x. rewrite HA. set_solver.
    + rewrite bool_decide_false by done. rewrite (bind_eq _ _ _ _ _ (ModifySuspendCount_up_eq _ _ _ Hth)).
      pose proof (ModifySuspendCount_up t u ℓ s g Hut Hnew ltac:(set_solver) th Hth I anything K) as S1.
      destruct S1 as (g1 & I1 & G1 & K1 & _); [done |].
      set (s1 := with_threads _ s) in *.
      destruct (IH (requesting u ℓ) s1 g1 I1 K1 Hnd) as (s' & A & Hm & Hdom & HA & Hs); [done | |].
      { intros x Hx. destruct (Hl x) as [Hthx Hnx]; [by apply elem_of_cons; right |]. split.
        - simpl. rewrite lookup_insert_is_Some'. by right.
        - simpl. intros [-> %elem_of_singleton | ?]%elem_of_union; done. }
      exists s', A. split_and!; [done | | |].
      * rewrite Hdom. simpl. apply dom_insert_lookup_L. by exists th.
      * intros x. rewrite HA. simpl. set_solver.
      * apply step_to_trans with (requesting u ℓ) s1. by exists g1.
Qed.

Lemma modify_each_down l : forall ℓ s g,
  Inv (s, g) -> knows t ℓ (s, g) -> NoDup l -> l_suspended ℓ = ∅ ->
  (forall u, u ∈ l -> u = t \/ u ∈ l_suspending ℓ) ->
  exists s' A, modify_each t (-1) l s = Ok (tt, s') /\
    (forall u, u ∈ A <-> u ∈ l_suspending ℓ /\ (u ∉ l \/ u = t)) /\
    step_to t (set_suspending A ℓ) (s, g) s' anything.
Proof.
  induction l as [| u l IH]; intros ℓ s g I K Hnd Hsd Hl.
  - exists s, (l_suspending ℓ). split_and!; [done | | ].
    { intros u. rewrite elem_of_nil. naive_solver. }
    rewrite suspending_eta' by done. by apply no_step.
  - apply NoDup_cons in Hnd as [Hu Hnd]. cbn [modify_each foldr].
    destruct (decide (u = t)) as [-> | Hut].
    + rewrite bool_decide_true by done. run_step.
      destruct (IH ℓ s g I K Hnd Hsd) as (s' & A & Hm & HA & Hs); [intros; apply Hl; by apply elem_of_cons; right |].
      exists s', A. split_and!; [done | | done]. intros x. rewrite HA, elem_of_cons. destruct (decide (x = t)); naive_solver.
    + destruct (Hl u) as [? | Hin]; [by apply elem_of_cons; left | done |].
      assert (Hsus : t ∈ suspenders g u) by (by apply (k_suspending _ _ _ K)).
      destruct (inv_suspenders _ I _ _ Hsus) as [th Hth]. simpl in Hth.
      rewrite bool_decide_false by done.
      rewrite (bind_eq _ _ _ _ _ (ModifySuspendCount_down_eq _ _ _ Hth (suspender_count _ _ _ _ _ I Hth Hsus))).
      set (ℓ1 := set_suspending (l_suspending ℓ ∖ {[u]}) ℓ).
      assert (E : ℓ = requesting u ℓ1).
      { transitivity (set_suspending ({[u]} ∪ l_suspending ℓ ∖ {[u]}) ℓ); [| done]. symmetry. apply suspending_eta'.
        apply set_eq. intros x. destruct (decide (x = u)); set_solver. }
      assert (S1 : step_to t ℓ1 (s, g) (with_threads (<[u := with_suspend_count (suspend_count th - 1) th]> (threads s)) s) anything).
      { apply (ModifySuspendCount_down t u ℓ1 s g Hut) with (ℓ1 := ℓ); simpl; try done; try set_solver; by left. }
      destruct S1 as (g1 & I1 & G1 & K1 & _).
      destruct (IH ℓ1 _ g1 I1 K1 Hnd Hsd) as (s' & A & Hm & HA & Hs).
      { intros x Hx. destruct (Hl x) as [? | ?]; [by apply elem_of_cons; right | by left | right].
        simpl. apply elem_of_difference. split; [done |]. intros ->%elem_of_singleton. done. }
      exists s', A. split_and!; [done | |].
      * intros x. rewrite HA. simpl. rewrite elem_of_difference, elem_of_singleton, elem_of_cons. naive_solver.
      * eapply step_to_trans. by exists g1.
Qed.
End each.

(** [A] and the thread itself are all threads. *)
Definition all_but (t : tid) (A : gset tid) : assertion := fun σ =>
  forall u, is_Some (threads σ.1 !! u) -> u = t \/ u ∈ A.

Lemma all_but_lasts t A u σ σ' : rely u σ σ' -> all_but t A σ -> all_but t A σ'.
Proof.
  intros R HA x [th Hth]. destruct (r_wait_mutex _ _ _ R _ _ Hth) as (th' & Hth' & _). apply HA. by exists th'.
Qed.

Lemma stable_all_but t ℓ A : stable t ℓ (all_but t A).
Proof. intros σ σ' R _ _ _. by eapply all_but_lasts. Qed.

Section everyone.
Context (t : tid) (ℓ : local_state).
Context (Hst : l_state ℓ <> kRunnable) (Hmx : l_mutex ℓ = None) (Hex : l_exclusive ℓ = false).
Context (Hsu : l_suspending ℓ = ∅) (Hsd : l_suspended ℓ = ∅).

(** Holding the mutator lock, with the suspension of [A] to account for. *)
Definition alone (A : gset tid) : local_state := set_exclusive true (set_suspending A ℓ).

Lemma SuspendAll_spec :
  triple t ℓ anything (SuspendAll t) (fun _ σ => exists A, (t ∉ A) /\ knows t (alone A) σ /\ all_but t A σ).
Proof.
  apply triple_atomic; [done |]. intros s g I K _.
  destruct (self_thread _ _ _ _ K) as (me & Hme & Est & _). run_step.
  rewrite bind_check by (rewrite bool_decide_true; [done | congruence]).
  unfold modify_others. run_step. change (foldr _ _ ?l s) with (modify_each t 1 l s).
  destruct (modify_each_up t (elements (dom (threads s))) ℓ s g I K) as (s' & A & -> & Hdom & HA & Hs);
    [apply NoDup_elements | done | |].
  { intros u Hu. rewrite Hsu. split; [by apply elem_of_dom, elem_of_elements | set_solver]. }
  exists (set_suspending A ℓ), (all_but t A). split.
  { eapply step_to_mono; [exact Hs |]. intros g' _ _ _ _ u Hu. simpl in Hu.
    apply elem_of_dom in Hu. rewrite Hdom in Hu. destruct (decide (u = t)); [by left | right].
    apply HA. right. by rewrite elem_of_elements. }
  assert (HtA : t ∉ A) by (rewrite HA, Hsu; set_solver).
  clear s g I K me Hme Est s' Hdom HA Hs. apply triple_last, triple_awaiting; [apply stable_all_but |].
  intros s g c I K HA He. apply bool_decide_eq_true in He as [Hnone Hempty].
  exists (alone A), (all_but t A). split.
  - apply (set_exclusive_step t _ s g I K); try done. intros u Hu. rewrite Hnone. split; congruence.
  - apply triple_value; [apply stable_all_but |]. intros σ _ K' HA'. by exists A.
Qed.

Lemma ResumeAll_spec A :
  t ∉ A ->
  triple t (alone A) (all_but t A) (ResumeAll t) (fun _ => post t ℓ anything).
Proof.
  intros HtA. apply triple_atomic; [apply stable_all_but |]. intros s g I K HA. run_step.
  assert (Hx : mutator_exclusive s = Some t) by (by apply (k_exclusive _ _ _ K)).
  rewrite bind_check by (by rewrite bool_decide_true).
  exists (set_suspending A ℓ), (all_but t A). split.
  { assert (E : set_suspending A ℓ = set_exclusive false (alone A)) by (by rewrite <- Hex).
    rewrite E. apply (set_exclusive_step t _ s g I K); try done. intros u Hu. rewrite Hx. split; congruence. }
  clear s g I K HA Hx. apply triple_last, triple_atomic; [apply stable_all_but |]. intros s g I K HA.
  unfold modify_others. run_step. change (foldr _ _ ?l s) with (modify_each t (-1) l s).
  destruct (modify_each_down t (elements (dom (threads s))) _ s g I K) as (s' & B & -> & HB & Hs);
    [apply NoDup_elements | done | |].
  { intros u Hu. apply HA. by apply elem_of_dom, elem_of_elements. }
  exists ℓ, anything. split; [| by apply triple_value].
  assert (B = ∅) as ->.
  { apply set_eq. intros u. rewrite HB. split; [| set_solver]. intros [Hu Hor].
    assert (Hsus : t ∈ suspenders g u) by (by apply (k_suspending _ _ _ K)).
    pose proof (inv_suspenders _ I _ _ Hsus) as Hu'. apply elem_of_dom in Hu'.
    destruct Hor as [Hn | ->]; [by destruct Hn; apply elem_of_elements | by apply HtA in Hu]. }
  assert (E : set_suspending ∅ (set_suspending A ℓ) = ℓ) by (by apply (suspending_eta' ℓ)).
  rewrite E in Hs. exact Hs.
Qed.
End everyone.

(** ** Deflation *)

(** A fact about the lock words and the list of monitors, which nobody changes while the
    thread holds the mutator lock. *)
Definition still (φ : gmap Z Z -> list Z -> Prop) : assertion := fun σ => φ (lock_words σ.1) (list_ σ.1).

Lemma stable_still t ℓ φ : l_exclusive ℓ = true -> stable t ℓ (still φ).
Proof.
  intros Hx σ σ' R I I' K. apply (k_exclusive _ _ _ K) in Hx. unfold still.
  by rewrite (r_words _ _ _ R Hx), (r_list _ _ _ R Hx).
Qed.

Lemma survives_still t ℓ m φ :
  l_exclusive ℓ = true -> (forall ws l, φ ws l -> m ∈ l) -> survives t ℓ m (still φ).
Proof.
  intros Hx Hm. split.
  - intros x. by apply stable_still.
  - done.
  - intros s g I Hφ. by apply (inv_list _ I m), (Hm _ _ Hφ).
  - intros s g I Hφ. right; right. by apply (inv_list _ I m), (Hm _ _ Hφ).
Qed.

(** The monitor [m] is in no object; the lock word of [o] is not fat. *)
Definition nowhere (m : Z) (ws : gmap Z Z) : Prop := forall o, ~ is_fat o m ws.
Definition unfat (o : Z) (ws : gmap Z Z) : Prop :=
  exists w, ws !! o = Some w /\ GetState w <> kFatLocked.

Section deflation.
Context (t : tid) (ℓ : local_state) (Hx : l_exclusive ℓ = true) (Hmx : l_mutex ℓ = None).
Context (m : Z) (rest : list Z) (Hrest : m ∉ rest).

Definition listed (l : list Z) : Prop := m ∈ l /\ forall x, x ∈ rest -> x ∈ l.

Definition outcome (o : Z) (b : bool) : assertion :=
  still (fun ws l => (if b then nowhere m ws /\ unfat o ws else is_fat o m ws) /\ listed l).

Let ℓm := set_mutex (Some m) ℓ.

Lemma word_not_fat s o w :
  word_ok s o w -> (forall m', view_of w <> VFat m') -> GetState w <> kFatLocked.
Proof.
  destruct 1 as [| | m1 v1 Hm1 Hv1 |]; unfold view_of; intros Hw Hst; rewrite Hst in Hw; by eapply Hw.
Qed.

(** The monitor [v] says the same as the lock word [w]. *)
Lemma deflate_word_step o s g v w :
  Inv (s, g) -> knows t ℓm (s, g) -> is_fat o m (lock_words s) -> listed (list_ s) ->
  monitors s !! m = Some v -> monitor_lock_ v = Some t -> num_waiters_ v <= 0 ->
  word_ok s o w -> (forall m', view_of w <> VFat m') ->
  (forall u, view_count s u (view_of w) = monitor_count u v) ->
  view_hash_code s (view_of w) = hash_code_ v ->
  exists s', (_ ← set_word o w; _ ← set_monitor m (with_obj None v); mret true) s = Ok (true, s') /\
    step_to t ℓm (s, g) s' (outcome o true).
Proof.
  intros I K Hi Hl Hv Hlock Hn Hok Hnf Hc Hh.
  destruct (installed_monitor _ _ _ _ I Hi) as (Hw & _). run_step. run_step. eexists. split; [done |].
  assert (HW : waiters g m = ∅).
  { apply leibniz_equiv, size_empty_inv. pose proof (inv_waiters _ I _ _ Hv) as E. simpl in E. lia. }
  apply (deflate_step t ℓm s g I K o m w v Hv Hi Hlock); try done.
  { by apply (k_exclusive _ _ _ K). }
  split; [| done]. split.
  - intros o1. by apply (deflate_not_installed s g I o m w v Hi Hnf).
  - exists w. simpl. rewrite lookup_insert_eq. split; [done | by eapply word_not_fat].
Qed.

Lemma deflate_spec o :
  triple t ℓm (still (fun ws l => is_fat o m ws /\ listed l)) (atomic (deflate o m))
    (fun b : bool => post t ℓm (outcome o b)).
Proof.
  assert (Hst : forall φ, stable t ℓm (still φ)) by (intros; by apply stable_still).
  apply triple_last, triple_atomic; [done |]. intros s g I K [Hi Hl].
  destruct (holding _ _ _ _ m K eq_refl) as (v & Hv & Hlock). unfold deflate. run_step.
  assert (Hkeep : exists ℓ' F', step_to t ℓ' (s, g) s F' /\
    triple t ℓ' F' (Ret false) (fun b : bool => post t ℓm (outcome o b))).
  { exists ℓm, (outcome o false). split; [apply no_step; [done | done | by split] | apply triple_value; [apply Hst | done]]. }
  destruct (inv_monitors _ I _ _ Hv) as [_ Hc Hun Hown Hh].
  destruct (Z.ltb_spec 0 (num_waiters_ v)) as [| Hn]; [exact Hkeep |].
  assert (Hdone : forall w, word_ok s o w -> (forall m', view_of w <> VFat m') ->
    (forall u, view_count s u (view_of w) = monitor_count u v) ->
    view_hash_code s (view_of w) = hash_code_ v ->
    action_ok t (Some ((_ ← set_word o w; _ ← set_monitor m (with_obj None v); mret true) s)) Ret
      (fun b : bool => post t ℓm (outcome o b)) s g).
  { intros w Hok Hnf Hcw Hhw. destruct (deflate_word_step o s g v w) as (s' & -> & Hs); try done.
    exists ℓm, (outcome o true). split; [done | apply triple_value; [apply Hst | done]]. }
  unfold HasHashCode. destruct (owner_ v) as [u |] eqn:Ho.
  - destruct (Z.eqb_spec (hash_code_ v) 0) as [H0 |]; cbn [negb]; [| exact Hkeep].
    destruct (Z.ltb_spec kThinLockMaxCount (lock_count_ v)) as [| Hle]; [exact Hkeep |].
    destruct (Hown u eq_refl) as [th Hth]. pose proof (inv_ids _ I _ _ Hth) as Hu.
    rewrite bind_assoc_lift with (a := thin_word u (lock_count_ v)) by (apply FromThinLockId_ok; lia).
    run_step. apply Hdone.
    + constructor; [by exists th | done].
    + intros m'. by rewrite view_thin.
    + intros x. rewrite view_thin by done. simpl. unfold monitor_count. rewrite Ho.
      case_bool_decide; [subst; by rewrite bool_decide_true | by rewrite bool_decide_false by congruence].
    + by rewrite view_thin.
  - destruct (Z.eqb_spec (hash_code_ v) 0) as [H0 |]; cbn [negb].
    + apply Hdone; try done; [constructor |]. intros x. unfold monitor_count. by rewrite Ho.
    + rewrite bind_assoc_lift with (a := hash_word (hash_code_ v)) by (apply FromHashCode_ok; lia).
      run_step. apply Hdone; rewrite ?view_hash by lia; try done.
      * constructor. lia.
      * intros x. unfold monitor_count. by rewrite Ho.
Qed.

Lemma Deflate_spec o :
  triple t ℓ (still (fun ws l => is_fat o m ws /\ listed l)) (Deflate t o)
    (fun b : bool => post t ℓ (outcome o b)).
Proof.
  assert (Hst : forall ℓ' φ, l_exclusive ℓ' = true -> stable t ℓ' (still φ)) by (intros; by apply stable_still).
  unfold Deflate. apply GetLockWord_rule; [by apply Hst | |].
  { intros σ _ [Hi _]. unfold is_fat, is_object in *. by destruct (lock_words σ.1 !! o). }
  intros s g w I K [Hi Hl] Hw. destruct (installed_monitor _ _ _ _ I Hi) as (Hw' & Hm & _).
  assert (w = fat_word m) as -> by (simpl in *; congruence).
  unfold has_state. rewrite fat_word_state, FatLockMonitor_ok, bool_decide_true by done.
  exists (still (fun ws l => is_fat o m ws /\ listed l)). split; [done |].
  change (local (Ok m) ≫= ?k) with (k m). cbn beta.
  eapply triple_seq; [apply MutexLock_rule; [apply survives_still; [done | by intros ws l [_ [? _]]] | by right; right | done] |].
  eapply triple_then; [apply deflate_spec |]. intros b.
  eapply triple_seq with (ℓ' := ℓ) (F' := outcome o b).
  - eapply triple_mono; [apply MutexUnlock_rule; [apply survives_still; [done | by intros ws l [_ [? _]]] | done] |].
    intros _ σ _ [K' HF]. split; [| done]. unfold ℓm in K'. by rewrite mutex_eta in K'.
  - apply triple_value; [by apply Hst | done].
Qed.

Definition replaced (o : Z) (r : option Z) : assertion :=
  still (fun ws l => match r with None => nowhere m ws | Some o' => o' = o /\ is_fat o m ws end /\ listed l).

Lemma MonitorDeflateCallback_spec o :
  triple t ℓ (still (fun ws l => is_fat o m ws /\ listed l)) (MonitorDeflateCallback t o)
    (fun r => post t ℓ (replaced o r)).
Proof.
  assert (Hst : forall φ, stable t ℓ (still φ)) by (intros; by apply stable_still).
  unfold MonitorDeflateCallback. eapply triple_then; [apply Deflate_spec |]. intros [].
  - apply GetLockWord_rule; [apply Hst | intros σ _ [[_ (w & Hw & _)] _]; by exists w |].
    intros s g w I K [[Hno (w' & Hw' & Hns)] Hl] Hw. simpl in Hw'. simplify_eq.
    unfold has_state. rewrite bool_decide_false by done.
    exists (replaced o None). split; [done |]. apply triple_value; [apply Hst | done].
  - apply triple_value; [apply Hst |]. intros σ _ K [Hi Hl]. split_and!; [done.. |]. by split.
Qed.

(** *** One turn of the sweep *)

Lemma mutex_unused s g v :
  Inv (s, g) -> knows t ℓ (s, g) -> nowhere m (lock_words s) -> monitors s !! m = Some v -> monitor_lock_ v = None.
Proof.
  intros I K Hno Hv. destruct (monitor_lock_ v) as [x |] eqn:Hl; [exfalso | done].
  assert (Hex : mutator_exclusive s = Some t) by (by apply (k_exclusive _ _ _ K)).
  destruct (inv_mutex _ I _ _ _ Hv Hl) as [Hr | [[b Hb] | Hx']].
  - apply (inv_runnable _ I) in Hr. pose proof (inv_exclusive _ I _ Hex) as E. simpl in *. set_solver.
  - destruct (inv_waiting _ I _ _ Hb) as [o Ho]. by apply Hno in Ho.
  - simpl in Hx'. assert (x = t) as -> by congruence. pose proof (k_mutex _ _ _ K _ _ Hv Hl). congruence.
Qed.

Let FR : assertion := still (fun _ l => forall x, x ∈ rest -> x ∈ l).

Lemma fresh_set_eta : set_fresh (l_fresh ℓ) ℓ = ℓ.
Proof. by destruct ℓ. Qed.

Lemma drop_step s g :
  Inv (s, g) -> knows t ℓ (s, g) -> nowhere m (lock_words s) -> listed (list_ s) ->
  exists s', (_ ← release_monitor m; modify (fun s => with_list (filter (fun x => x <> m) (list_ s)) s)) s = Ok (tt, s') /\
    step_to t ℓ (s, g) s' FR.
Proof.
  intros I K Hno [Hm Hr]. destruct (inv_list _ I _ Hm) as [[v Hv] Hf]. simpl in Hv, Hf.
  pose proof (mutex_unused s g v I K Hno Hv) as Hl.
  assert (E : release_monitor m s = Ok (tt, with_monitors (delete m (monitors s)) s)).
  { unfold release_monitor. run_step. by rewrite bind_check by (by rewrite bool_decide_true). }
  rewrite (bind_eq _ _ _ _ _ E). eexists. split; [done |]. rewrite <- fresh_set_eta at 1.
  apply (release_monitor_step t ℓ s g I K m v); try done.
  - by left.
  - right. by apply (k_exclusive _ _ _ K).
  - apply NoDup_filter, (inv_list_nodup _ I).
  - intros x. rewrite list_elem_of_filter. simpl. tauto.
  - intros m1. split; [| by intros [? _]]. intros Hm1. split; [done |]. intros ->.
    apply (k_fresh _ _ _ K) in Hm1. simpl in Hm1. congruence.
  - intros x Hin. simpl. apply list_elem_of_filter. split; [by intros -> | by apply Hr].
Qed.

Lemma keep_step s g o :
  Inv (s, g) -> knows t ℓ (s, g) -> is_fat o m (lock_words s) -> listed (list_ s) ->
  exists s', on_monitor m (with_obj (Some o)) s = Ok (tt, s') /\ step_to t ℓ (s, g) s' FR.
Proof.
  intros I K Hi [Hm Hr]. destruct (installed_monitor _ _ _ _ I Hi) as (_ & _ & v & Hv & Ho). run_step.
  eexists. split; [done |].
  assert (E : with_monitors (<[m := with_obj (Some o) v]> (monitors s)) s = s).
  { assert (with_obj (Some o) v = v) as -> by (destruct v; simpl in *; by subst). rewrite insert_id by done. by destruct s. }
  rewrite E. by apply no_step.
Qed.

Lemma sweep_turn_spec (p : prog State unit) Q :
  triple t ℓ FR p Q ->
  triple t ℓ (still (fun _ l => listed l))
    (obj ← atomic (v ← get_monitor m; mret (obj_ v));
     new_obj ← match obj with Some o => MonitorDeflateCallback t o | None => mret None end;
     _ ← atomic (match new_obj with
                 | None => _ ← release_monitor m;
                           modify (fun s => with_list (filter (fun x => x <> m) (list_ s)) s)
                 | Some o => on_monitor m (with_obj (Some o))
                 end);
     p) Q.
Proof.
  intros Hp. assert (Hst : forall φ, stable t ℓ (still φ)) by (intros; by apply stable_still).
  apply triple_atomic; [apply Hst |]. intros s g I K Hl. simpl in Hl.
  destruct (inv_list _ I m (proj1 Hl)) as [[v Hv] Hf]. simpl in Hv, Hf. run_step.
  assert (Hend : forall o r, triple t ℓ (replaced o r)
    (_ ← atomic (match r with
                 | None => _ ← release_monitor m;
                           modify (fun s => with_list (filter (fun x => x <> m) (list_ s)) s)
                 | Some o => on_monitor m (with_obj (Some o))
                 end); p) Q).
  { clear - Hst Hp Hx Hmx Hrest. intros o r. apply triple_atomic; [apply Hst |]. intros s g I K [Hr Hl].
    destruct r as [o' |].
    - destruct Hr as [-> Hi]. destruct (keep_step s g o I K Hi Hl) as (s' & -> & Hs). by exists ℓ, FR.
    - destruct (drop_step s g I K Hr Hl) as (s' & -> & Hs). by exists ℓ, FR. }
  destruct (obj_ v) as [o |] eqn:Ho.
  - exists ℓ, (still (fun ws l => is_fat o m ws /\ listed l)). split.
    + apply no_step; [done | done |]. split; [by apply (inv_obj _ I m v o) | done].
    + eapply triple_then; [apply MonitorDeflateCallback_spec | apply Hend].
  - exists ℓ, (replaced 0 None). split; [| apply Hend].
    apply no_step; [done | done |]. split; [| done]. intros o Hi.
    destruct (installed_monitor _ _ _ _ I Hi) as (_ & _ & v' & Hv' & Ho'). congruence.
Qed.
End deflation.

Section collector.
Context (t : tid) (ℓ : local_state).

Lemma SweepMonitorList_spec l :
  l_exclusive ℓ = true -> l_mutex ℓ = None -> NoDup l ->
  triple t ℓ (still (fun _ k => forall x, x ∈ l -> x ∈ k)) (SweepMonitorList (MonitorDeflateCallback t) l)
    (fun _ => post t ℓ anything).
Proof.
  intros Hx Hmx. induction l as [| m rest IH]; intros Hnd.
  - apply triple_value; [by apply stable_still | done].
  - apply NoDup_cons in Hnd as [Hm Hnd]. cbn [SweepMonitorList].
    eapply triple_before; [by apply (sweep_turn_spec t ℓ Hx Hmx m rest Hm), IH |].
    intros σ _ _ Hl. split; [apply Hl, elem_of_cons; by left | intros x Hin; apply Hl, elem_of_cons; by right].
Qed.

Lemma DeflateMonitors_spec :
  l_exclusive ℓ = true -> l_mutex ℓ = None ->
  triple t ℓ anything (DeflateMonitors t) (fun _ => post t ℓ anything).
Proof.
  intros Hx Hmx. apply triple_atomic; [done |]. intros s g I K _. run_step.
  rewrite bind_check by (apply bool_decide_eq_true; by apply (k_exclusive _ _ _ K)).
  exists ℓ, (still (fun _ k => forall x, x ∈ list_ s -> x ∈ k)). split; [apply no_step; [done | done | by intros x] |].
  apply SweepMonitorList_spec; [done | done | apply (inv_list_nodup _ I)].
Qed.

End collector.

Section background.
Context (t : tid) (ℓ : local_state).

Lemma FullSuspendCheck_spec fuel :
  ready ℓ -> triple t ℓ anything (FullSuspendCheck fuel t) (fun _ => post t ℓ anything).
Proof.
  intros [Hst _ Hmx _ _ _ _].
  eapply triple_seq; [apply (TransitionFromRunnableToSuspended_spec t ℓ (fun _ => True)); done || congruence |].
  eapply triple_mono; [by apply (TransitionFromSuspendedToRunnable_spec fuel t _ (fun _ => True)) |].
  intros _ σ _ [K _]. split; [| done]. by rewrite state_eta in K.
Qed.

Lemma DeflateInBackground_spec fuel :
  ready ℓ -> triple t ℓ anything (DeflateInBackground fuel t) (fun _ => post t ℓ anything).
Proof.
  intros [Hst _ Hmx _ Hsu Hsd Hex]. set (ℓn := set_state kNative ℓ).
  eapply triple_seq; [apply (TransitionFromRunnableToSuspended_spec t ℓ (fun _ => True)); done || congruence |].
  eapply triple_chain; [by apply SuspendAll_spec |]. intros _ σ I (A & HA & K & Hall). revert σ I K Hall.
  change (triple t (alone ℓn A) (all_but t A)
    (_ ← DeflateMonitors t; _ ← ResumeAll t; TransitionFromSuspendedToRunnable fuel t) (fun _ => post t ℓ anything)).
  eapply triple_before with (F' := fun σ => anything σ /\ all_but t A σ); [| done].
  eapply triple_seq with (ℓ' := alone ℓn A) (F' := all_but t A).
  { eapply triple_mono; [apply triple_frame; [intros; by eapply all_but_lasts | by apply DeflateMonitors_spec] |].
    by intros _ σ _ [[K _] Hall]. }
  eapply triple_seq; [by apply ResumeAll_spec |].
  eapply triple_mono; [by apply (TransitionFromSuspendedToRunnable_spec fuel t _ (fun _ => True)) |].
  intros _ σ _ [K _]. split; [| done]. unfold ℓn in K. by rewrite state_eta in K.
Qed.
End background.
