(* ===== verification/MonitorClient.v ===== *)
(** * Threads that use the locks of objects

    What every operation of [perform] comes to, and that the threads of [initial] keep
    the rules of MonitorInvariant from the start. *)

From stdpp Require Import functions.
From S2P Require Import Prelude Concurrency LockWord Monitor MonitorInvariant MonitorSteps MonitorLogic MonitorPrograms MonitorLocking MonitorWaiting MonitorHash MonitorDeflation.

(** ** What a client may ask for *)

(** The operation names objects and threads that exist. *)
Definition op_ok (objects : list Z) (tids : gset tid) (a : op) : Prop :=
  match a with
  | Enter o | Exit o | WaitOn o _ _ | NotifyOne o | NotifyEvery o | HashOf o => o ∈ objects
  | InterruptThread u => u ∈ tids
  | SuspendCheck | DeflateAll => True
  end.

#[export] Instance op_ok_dec objects tids a : Decision (op_ok objects tids a).
Proof. destruct a; simpl; apply _. Defined.

(** Thread ids fit a lock word, and no thread can overflow the count of a monitor. *)
Definition client_ok (objects : list Z) (programs : gmap tid (list op)) : Prop :=
  map_Forall (fun t ops => 0 < t <= kThinLockMaxOwner /\ zlength ops < 2 ^ 31 - 1 /\
    Forall (op_ok objects (dom programs)) ops) programs.

#[export] Instance client_ok_dec objects programs : Decision (client_ok objects programs).
Proof. unfold client_ok. apply _. Defined.

(** The objects and threads are there, and stay. *)
Definition world (objects : list Z) (tids : gset tid) : assertion := fun σ =>
  (forall o, o ∈ objects -> is_object o (lock_words σ.1)) /\
  (forall u, u ∈ tids -> is_Some (threads σ.1 !! u)).

Lemma world_lasts objects tids u σ σ' : rely u σ σ' -> world objects tids σ -> world objects tids σ'.
Proof.
  intros R [Ho Ht]. split.
  - intros o Hin. by apply (r_objects _ _ _ R), Ho.
  - intros x Hin. by apply (r_threads _ _ _ R), Ht.
Qed.

(** ** The operations *)

(** The operation [a], called after [h], returned [r] to a thread that knew [ℓ]. *)
Definition performed (t : tid) (ℓ : local_state) (h : list event) (a : op) (r : result) : assertion := fun σ =>
  exists e c, knows t (set_count c (set_pending e ℓ)) σ /\ result_ok h a r e /\
    (forall o, c o = depth (Return a r e :: Call a :: h) o) /\
    (forall o x, a = HashOf o -> r = Word x -> x <> 0 /\ hash_of σ.1 o = x).

Section operations.
Context (t : tid) (ℓ : local_state) (J : idle ℓ) (Hpend : l_pending ℓ = None).
Context (a : op) (h : list event) (Hev : l_events ℓ = Call a :: h) (Hcount : forall o, l_count ℓ o = depth h o).
Context (Hnonneg : forall o, 0 <= depth h o).

(** The counts stay, the exception is [e]. *)
Lemma performed_same r e σ :
  knows t (set_pending e ℓ) σ -> result_ok h a r e ->
  (forall o, depth (Return a r e :: Call a :: h) o = depth h o) ->
  (forall o x, a = HashOf o -> r = Word x -> x <> 0 /\ hash_of σ.1 o = x) ->
  performed t ℓ h a r σ.
Proof.
  intros K Hr Hd Hh. exists e, (l_count ℓ). split_and!; try done. intros o. by rewrite Hd.
Qed.

Lemma performed_idle r σ :
  knows t ℓ σ -> result_ok h a r None ->
  (forall o, depth (Return a r None :: Call a :: h) o = depth h o) ->
  (forall o x, a = HashOf o -> r = Word x -> x <> 0 /\ hash_of σ.1 o = x) ->
  performed t ℓ h a r σ.
Proof. intros K. apply performed_same. by rewrite pending_eta. Qed.

Lemma perform_enter fuel o :
  a = Enter o -> depth h o < 2 ^ 31 - 1 ->
  triple t ℓ (words (is_object o)) (perform fuel t (Enter o)) (performed t ℓ h a).
Proof.
  intros Ea Hb. eapply triple_seq; [apply MonitorEnter_spec |].
  - apply (id_ready _ J).
  - intros m. rewrite (id_waits _ J). set_solver.
  - by rewrite Hcount.
  - rewrite Hev, Ea. simpl. rewrite Hcount. lia.
  - apply triple_value; [done |]. intros σ _ K _. exists None, (l_count (bump o 1 ℓ)).
    rewrite Ea. split_and!; try done.
    + by rewrite pending_eta.
    + intros o1. simpl. rewrite Hcount. case_bool_decide; case_decide; subst; (done || lia).
Qed.

Lemma perform_exit fuel o :
  a = Exit o -> triple t ℓ (words (is_object o)) (perform fuel t (Exit o)) (performed t ℓ h a).
Proof.
  intros Ea. eapply triple_then; [apply MonitorExit_spec |].
  - apply (id_ready _ J).
  - rewrite Hev, Ea. simpl. rewrite bool_decide_true, Hcount by done. lia.
  - intros Hz. exists h. rewrite <- Hcount, Hev, Ea. done.
  - intros b. apply triple_value; [apply stable_pure |]. intros σ _ K Hb. rewrite Hcount in Hb.
    exists (if b then None else Some IllegalMonitorStateException), (l_count (left_object ℓ o b)).
    rewrite Ea. split_and!.
    + destruct b; [by rewrite pending_eta | by eapply knows_counts; [| | exact K]].
    + simpl. by rewrite <- Hb.
    + intros o1. destruct b; simpl; rewrite Hcount; [| done]. case_bool_decide; case_decide; subst; (done || lia).
    + done.
Qed.

Lemma perform_wait fuel o ms ns :
  a = WaitOn o ms ns -> triple t ℓ (words (is_object o)) (perform fuel t (WaitOn o ms ns)) (performed t ℓ h a).
Proof.
  intros Ea. eapply triple_chain with (R := fun _ => waited t ℓ o ms ns).
  - apply Wait_spec; [done | done |]. rewrite Hev, Ea. simpl. by rewrite bool_decide_true.
  - intros _ σ I (e & He & K). rewrite Ea.
    apply (triple_value t (set_pending e ℓ) anything); [done | | done | done | done].
    intros σ' _ K' _. rewrite <- Ea. apply (performed_same Void e); rewrite ?Ea; try done.
    split; [done |]. unfold wait_outcome in He. by rewrite Hcount in He.
Qed.

Lemma perform_notify fuel o (all : bool) :
  a = (if all then NotifyEvery o else NotifyOne o) ->
  triple t ℓ (words (is_object o)) (_ ← DoNotify fuel t o all; mret Void) (performed t ℓ h a).
Proof.
  intros Ea. eapply triple_seq; [by apply DoNotify_spec |]. apply triple_value; [done |]. intros σ _ K _.
  unfold notified in K. rewrite Hcount in K.
  apply (performed_same Void (if 0 <? depth h o then None else Some IllegalMonitorStateException)).
  - destruct (0 <? depth h o); [by rewrite pending_eta | done].
  - rewrite Ea. by destruct all.
  - intros o1. rewrite Ea. by destruct all.
  - intros o1 x. rewrite Ea. by destruct all.
Qed.

Lemma perform_hash fuel o :
  a = HashOf o -> triple t ℓ (words (is_object o)) (perform fuel t (HashOf o)) (performed t ℓ h a).
Proof.
  intros Ea. eapply triple_then with (ℓ' := fun _ => ℓ) (F' := hashed o).
  { apply IdentityHashCode_spec, (id_ready _ J). }
  intros x.
  apply triple_value; [apply stable_hashed |]. intros σ _ K Hx. apply performed_idle; rewrite ?Ea; try done.
  - split; [by exists x | done].
  - by intros o1 x1 [= <-] [= <-].
Qed.

End operations.

Lemma perform_spec t ℓ a h fuel objects tids :
  idle ℓ -> l_pending ℓ = None -> l_events ℓ = Call a :: h -> (forall o, l_count ℓ o = depth h o) ->
  op_ok objects tids a -> (forall o, 0 <= depth h o < 2 ^ 31 - 1) ->
  triple t ℓ (world objects tids) (perform fuel t a) (performed t ℓ h a).
Proof.
  intros J Hpend Hev Hcount Hok Hb. assert (Hnn : forall o, 0 <= depth h o) by apply Hb.
  assert (Hon : forall o (p : prog State result), o ∈ objects ->
    triple t ℓ (words (is_object o)) p (performed t ℓ h a) -> triple t ℓ (world objects tids) p (performed t ℓ h a)).
  { intros o p Ho Hp. eapply triple_before; [exact Hp | intros σ _ _ [Hall _]; by apply Hall]. }
  destruct a as [o | o | o ms ns | o | o | o | u | |]; simpl in Hok.
  - apply (Hon o); [done |]. eapply perform_enter; eauto. apply Hb.
  - apply (Hon o); [done |]. eapply perform_exit; eauto.
  - apply (Hon o); [done |]. eapply perform_wait; eauto.
  - apply (Hon o); [done |]. by eapply (perform_notify t ℓ J Hpend _ h Hcount fuel o false).
  - apply (Hon o); [done |]. by eapply (perform_notify t ℓ J Hpend _ h Hcount fuel o true).
  - apply (Hon o); [done |]. eapply perform_hash; eauto.
  - eapply triple_before with (F' := fun σ => words (fun _ => True) σ /\ exists_thread u σ);
      [| intros σ _ _ [_ Ht]; split; [done | by apply Ht]].
    eapply triple_seq; [apply Interrupt_spec; [apply (id_ready _ J) | done] |].
    apply triple_value; [done |]. intros σ _ K _. by apply performed_idle.
  - eapply triple_before with (F' := anything); [| done].
    eapply triple_seq; [apply FullSuspendCheck_spec, (id_ready _ J) |].
    apply triple_value; [done |]. intros σ _ K _. by apply performed_idle.
  - eapply triple_before with (F' := anything); [| done].
    eapply triple_seq; [apply DeflateInBackground_spec, (id_ready _ J) |].
    apply triple_value; [done |]. intros σ _ K _. by apply performed_idle.
Qed.

(** ** Programs *)

Lemma count_nonneg s g t o : Inv (s, g) -> 0 <= count s t o.
Proof.
  intros I. unfold count. destruct (lock_words s !! o) as [w |] eqn:Hw; [| done]. simpl.
  pose proof (word_ok_view _ _ _ _ I (inv_words _ I _ _ Hw)) as Hok.
  destruct (view_of w) as [| u c | m | |]; simpl; try done.
  - case_bool_decide; lia.
  - destruct Hok as (_ & _ & v & Hv & _). rewrite Hv. simpl. unfold monitor_count.
    pose proof (mon_count _ _ _ (inv_monitors _ I _ _ Hv)). case_bool_decide; lia.
Qed.

Lemma depth_grows a r e h o : depth (Return a r e :: Call a :: h) o <= depth h o + 1.
Proof.
  destruct a; simpl; try lia; [case_bool_decide; lia |].
  destruct r as [| [] |]; try lia. case_bool_decide; lia.
Qed.

(** Between two operations, after [h]. *)
Record between (ℓ : local_state) (h : list event) : Prop := {
  bt_idle : idle ℓ;
  bt_pending : l_pending ℓ = None;
  bt_events : l_events ℓ = h;
  bt_count o : l_count ℓ o = depth h o;
}.

Section program.
Context (t : tid) (objects : list Z) (tids : gset tid).

Let W := world objects tids.

Lemma stable_world ℓ : stable t ℓ W.
Proof. intros σ σ' R _ _ _. by eapply world_lasts. Qed.

Lemma call_spec ℓ h a :
  between ℓ h ->
  triple t ℓ W (atomic (record_event t (Call a)))
    (fun _ => post t (set_events (Call a :: h) ℓ) (fun σ => W σ /\ forall o, 0 <= depth h o)).
Proof.
  intros [J Hp He Hc]. apply triple_last, triple_atomic; [apply stable_world |]. intros s g I K HW.
  assert (Hnn : forall o, 0 <= depth h o).
  { intros o. rewrite <- Hc, <- (k_count _ _ _ K o). by apply (count_nonneg _ g). }
  exists (set_events (Call a :: h) ℓ), (fun σ => W σ /\ forall o, 0 <= depth h o). split.
  - rewrite <- He. apply (record_event_step t ℓ s g I K).
    + intros o. specialize (Hnn o). rewrite He, Hc. destruct a; simpl; try lia; case_bool_decide; lia.
    + simpl. rewrite <- (k_events _ _ _ K). apply (inv_results _ I).
    + done.
    + split; [exact HW | by rewrite He].
  - apply triple_value; [| done]. apply stable_and; [apply stable_world | apply stable_pure].
Qed.

(** The last action of an operation: the exception is cleared and the return recorded. *)
Lemma return_spec ℓ h a r :
  between ℓ h ->
  forall e c, result_ok h a r e -> (forall o, c o = depth (Return a r e :: Call a :: h) o) ->
  triple t (set_count c (set_pending e (set_events (Call a :: h) ℓ)))
    (fun σ => W σ /\ forall o x, a = HashOf o -> r = Word x -> x <> 0 /\ hash_of σ.1 o = x)
    (atomic (th ← get_thread t; _ ← set_thread t (with_pending None th); record_event t (Return a r (pending th))))
    (fun _ => post t (set_count c (set_events (Return a r e :: Call a :: h) ℓ)) W).
Proof.
  intros [J Hp He Hc] e c Hr Hd. set (ℓ1 := set_count c (set_pending e (set_events (Call a :: h) ℓ))).
  apply triple_last, triple_atomic.
  { apply stable_and; [apply stable_world |]. intros σ σ' R I I' K Hh o x Ea Er.
    destruct (Hh o x Ea Er) as [Hx Ho]. split; [done |]. rewrite (r_hash _ _ _ R); congruence. }
  intros s g I K [HW Hh]. destruct (self_thread _ _ _ _ K) as (th & Hth & _ & Hm & Hpe). simpl in Hm, Hpe.
  run_step. run_step. rewrite Hpe. set (s1 := with_threads (<[t := with_pending None th]> (threads s)) s).
  assert (S1 : step_to t (set_pending None ℓ1) (s, g) s1 (fun σ => W σ /\ hash_of σ.1 = hash_of s)).
  { apply (quiet_update t ℓ1 s g I K t th _ Hth); simpl; try done.
    - by rewrite decide_True.
    - by rewrite decide_True.
    - intros y. case_decide; [subst; symmetry; by apply (k_wait_mutex _ _ _ K) | done].
    - intros g'. split; [| done]. destruct HW as [Ho Ht]. split; [done |]. intros u Hu. simpl.
      rewrite lookup_insert_is_Some'. right. by apply Ht. }
  destruct S1 as (g1 & I1 & G1 & K1 & HW1 & Eh).
  exists (set_count c (set_events (Return a r e :: Call a :: h) ℓ)), W.
  split; [| apply triple_value; [apply stable_world | done]].
  apply step_to_trans with (set_pending None ℓ1) s1. exists g1. split_and!; [done.. |].
  assert (E : set_count c (set_events (Return a r e :: Call a :: h) ℓ) =
    set_events (Return a r e :: l_events (set_pending None ℓ1)) (set_pending None ℓ1)) by (apply local_eq; done).
  rewrite E. apply (record_event_step t _ s1 g1 I1 K1); [| | | done].
  - intros o. simpl l_count. rewrite Hd. done.
  - split; [done |]. split; [done |]. 
    pose proof (inv_results _ I t) as Hres. by rewrite (k_events _ _ _ K) in Hres.
  - intros o x y [= -> -> _]. simpl in Eh. rewrite Eh. by apply Hh.
Qed.

Lemma between_next ℓ h a r e c :
  between ℓ h -> (forall o, c o = depth (Return a r e :: Call a :: h) o) ->
  between (set_count c (set_events (Return a r e :: Call a :: h) ℓ)) (Return a r e :: Call a :: h).
Proof. intros [[[] Hw Hch Hm] Hp He Hc] Hd. by repeat split. Qed.

(** A thread that is done holds every object as often as it has entered and not left it. *)
Definition balanced (σ : State * ghost) : Prop := forall o, count σ.1 t o = depth (events σ.1 t) o.

Lemma thread_program_spec fuel ops : forall ℓ h,
  between ℓ h -> Forall (op_ok objects tids) ops -> (forall o, depth h o + zlength ops < 2 ^ 31 - 1) ->
  triple t ℓ W (thread_program fuel t ops) (fun _ => balanced).
Proof.
  induction ops as [| a ops IH]; intros ℓ h B Hops Hb.
  - apply triple_value; [apply stable_world |]. intros σ _ K _ o.
    by rewrite (k_count _ _ _ K), (k_events _ _ _ K), (bt_count _ _ B), (bt_events _ _ B).
  - apply Forall_cons in Hops as [Ha Hops].
    assert (Hlen : zlength (a :: ops) = zlength ops + 1) by (cbn [length]; lia).
    assert (H0 : 0 <= zlength ops) by lia.
    eapply triple_seq; [by apply call_spec |]. apply triple_fact. intros Hnn.
    set (ℓ1 := set_events (Call a :: h) ℓ).
    eapply triple_chain with (R := fun r σ => performed t ℓ1 h a r σ /\ W σ).
    + eapply triple_before; [apply triple_frame; [intros; by eapply world_lasts |] | by intros σ _ _ HW].
      apply (perform_spec t ℓ1 a h fuel objects tids); try done; try apply B.
      * by destruct (bt_idle _ _ B) as [[] ? ? ?].
      * intros o. specialize (Hnn o). specialize (Hb o). lia.
    + intros r σ I [(e & c & K & Hr & Hd & Hh) HW].
      eapply (triple_seq t _ _ _ _ _ _ _ (return_spec ℓ h a r B e c Hr Hd)); [| done | exact K | done].
      eapply IH; [by apply between_next | done |]. intros o.
      pose proof (depth_grows a r e h o) as Hg. specialize (Hb o). lia.
Qed.
End program.

(** ** The start *)

Definition no_ghost : ghost := MkGhost (fun _ => ∅) (fun _ => ∅) (fun _ => []) (fun _ => None).

Definition local_start : local_state :=
  MkLocal kRunnable (fun _ => 0) [] ∅ ∅ ∅ None None None None None None false.

Section start.
Context (fuel : nat) (objects : list Z) (seed : Z) (programs : gmap tid (list op)).
Context (Hok : client_ok objects programs).

Let s0 := shared (initial fuel objects seed programs).

Lemma initial_thread t th : threads s0 !! t = Some th ->
  is_Some (programs !! t) /\ th = MkThread kRunnable 0 None None false None false None None.
Proof. simpl. rewrite lookup_fmap, fmap_Some. intros (ops & Hops & ->). split; [by exists ops | done]. Qed.

Lemma initial_word o w : lock_words s0 !! o = Some w -> w = Unlocked.
Proof.
  simpl. intros Hw%elem_of_list_to_map_2. apply list_elem_of_fmap in Hw as (x & [= -> ->] & _). done.
Qed.

Lemma initial_object o : o ∈ objects -> is_Some (lock_words s0 !! o).
Proof.
  intros Ho. apply not_eq_None_Some. simpl. intros H%not_elem_of_list_to_map_2. apply H.
  rewrite <- list_fmap_compose. apply list_elem_of_fmap. by exists o.
Qed.

Lemma initial_view o v : lock_view s0 o = Some v -> v = VUnlocked.
Proof. rewrite lock_view_Some. intros (w & ->%initial_word & <-). done. Qed.

Lemma initial_count t o : count s0 t o = 0.
Proof.
  rewrite count_view. destruct (lock_view s0 o) as [v |] eqn:E; [| done]. by apply initial_view in E as ->.
Qed.

Lemma initial_inv : Inv (s0, no_ghost).
Proof.
  split; try (by simpl); try (by intros; simpl in *; set_solver).
  - intros t th Hth. apply initial_thread in Hth as [[ops Hops] _]. by apply Hok in Hops as [? _].
  - intros o w ->%initial_word. constructor.
  - intros t th Hth. by apply initial_thread in Hth as [_ ->].
  - intros t (th & Hth & _). simpl. apply elem_of_dom. by apply initial_thread in Hth as [? _].
  - intros t o. change (s0, no_ghost).1 with s0. by rewrite initial_count.
  - intros m. constructor.
  - intros t th Hth. by apply initial_thread in Hth as [_ ->].
  - constructor.
Qed.

Lemma initial_knows t ops : programs !! t = Some ops -> knows t local_start (s0, no_ghost).
Proof.
  intros Hops. split; try (by simpl); try (by intros; simpl in *; set_solver).
  - eexists. split; [simpl; by rewrite lookup_fmap, Hops | done].
  - intros o. change (s0, no_ghost).1 with s0. by rewrite initial_count.
  - intros u th Hth. apply initial_thread in Hth as [_ ->]. done.
Qed.

Lemma initial_obeying :
  obeying Inv rely excused balanced (initial fuel objects seed programs).
Proof.
  exists no_ghost. split; [apply initial_inv |]. intros t p Hp. simpl in Hp.
  rewrite map_lookup_imap in Hp. apply bind_Some in Hp as (ops & Hops & [= <-]).
  destruct (Hok _ _ Hops) as (_ & Hlen & Hall).
  apply (thread_program_spec t objects (dom programs) fuel ops local_start []); try done.
  - apply initial_inv.
  - by eapply initial_knows.
  - split; [apply initial_object |]. intros u Hu%elem_of_dom. simpl. by rewrite lookup_fmap, fmap_is_Some.
Qed.
End start.
