(* ===== verification/MonitorTheorems.v ===== *)
(** * What locks promise

    The theorems about monitors, for any number of threads that perform any operations
    on any objects, under every schedule and every choice the runtime leaves open.  The
    history of a thread tells what it has asked for and what it was told; [depth] and
    [held] say from the history alone how often the thread is entitled to an object. *)

From S2P Require Import Prelude Concurrency LockWord Monitor MonitorInvariant MonitorSteps MonitorLogic MonitorClient.

(** ** Runs *)

(** The configuration after a schedule. *)
Definition after (schedule : list (tid * choice)) (σ : config State) : config State :=
  match run schedule σ with Ok σ' => σ' | Fault _ => σ end.

Lemma after_reachable schedule σ : reachable σ (after schedule σ).
Proof. unfold after. destruct (run schedule σ) eqn:E; [by eapply run_reachable | apply rtc_refl]. Qed.

(** [n] turns of thread [t]. *)
Definition turns (t : tid) (n : nat) : list (tid * choice) := replicate n (t, 0).

Section reachable_states.
Context {fuel : nat} {objects : list Z} {seed : Z} {programs : gmap tid (list op)} {σ : config State}.
Context (Hok : client_ok objects programs) (Hreach : reachable (initial fuel objects seed programs) σ).

Lemma reachable_obeying : obeying Inv rely excused balanced σ.
Proof. eapply wp_sound; [apply _ | by apply initial_obeying | done]. Qed.

Lemma reachable_inv : exists g, Inv (shared σ, g).
Proof. destruct reachable_obeying as (g & HInv & _). by exists g. Qed.
End reachable_states.

(** At most one thread has a count other than 0. *)
Lemma count_unique s t u o : 0 < count s t o -> 0 < count s u o -> t = u.
Proof.
  rewrite !count_view. destruct (lock_view s o) as [[| x c | m | |] |]; simpl; try done.
  - do 2 case_bool_decide; congruence || lia.
  - destruct (monitors s !! m) as [v |]; simpl; [| done]. unfold monitor_count.
    do 2 case_bool_decide; congruence || lia.
Qed.

(** ** Safety *)

(** C5: Mutual exclusion.  Whatever the threads do and however their actions interleave,
    thin locks, inflation while the owner is suspended, recursive entry, waiting,
    notification, interruption and deflation included, no two threads hold an object at
    the same time, where a thread holds what it has entered and has not left, unless it
    is waiting on it. *)
Theorem mutual_exclusion fuel objects seed programs σ t u o :
  client_ok objects programs -> reachable (initial fuel objects seed programs) σ ->
  0 < held (events (shared σ) t) o -> 0 < held (events (shared σ) u) o -> t = u.
Proof.
  intros Hok Hr Ht Hu. destruct (reachable_inv Hok Hr) as [g I].
  pose proof (inv_held _ I t o). pose proof (inv_held _ I u o). simpl in *.
  apply (count_unique (shared σ) t u o); lia.
Qed.

(** Two threads that compete for an object, ask for its hash code and leave it. *)
Definition rivals : gmap tid (list op) :=
  {[1 := [Enter 10; HashOf 10; Exit 10]; 2 := [Enter 10; HashOf 10; Exit 10]]}.
Definition rivalry : config State := initial 100 [10] 987654321 rivals.

Lemma rivals_ok : client_ok [10] rivals.
Proof. apply (bool_decide_unpack _). by vm_compute. Qed.

Lemma mutual_exclusion_witness :
  let σ := after (turns 1 5) rivalry in 0 < held (events (shared σ) 1) 10 /\ (1 = 1)%Z.
Proof.
  split; [by vm_compute |].
  apply (mutual_exclusion 100 [10] 987654321 rivals (after (turns 1 5) rivalry) 1 1 10 rivals_ok
    (after_reachable _ _)); by vm_compute.
Defined.



(** C12: The identity hash code of an object never changes: any two calls, of any threads,
    before or after the lock is inflated or deflated, return the same value, and it is
    not 0. *)
Theorem identity_hash_stable fuel objects seed programs σ t u o h h' e e' :
  client_ok objects programs -> reachable (initial fuel objects seed programs) σ ->
  Return (HashOf o) (Word h) e ∈ events (shared σ) t ->
  Return (HashOf o) (Word h') e' ∈ events (shared σ) u ->
  h = h' /\ h <> 0.
Proof.
  intros Hok Hr Ht Hu. destruct (reachable_inv Hok Hr) as [g I].
  destruct (inv_hashes _ I _ _ _ _ Ht) as [? <-]. destruct (inv_hashes _ I _ _ _ _ Hu) as [? <-]. done.
Qed.

Definition rivalry_over : config State :=
  after (turns 1 20 ++ turns 2 30 ++ turns 1 30 ++ turns 2 30 ++ turns 1 30 ++ turns 2 100) rivalry.

Lemma identity_hash_stable_witness : (987654321 = 987654321 /\ 987654321 <> 0)%Z.
Proof.
  apply (identity_hash_stable 100 [10] 987654321 rivals rivalry_over 1 2 10 987654321 987654321 None None rivals_ok
    (after_reachable _ _)); vm_compute; repeat (apply list_elem_of_here || apply list_elem_of_further).
Defined.

(** C13: The lock word of an object is well formed at all times: unlocked, thinly locked
    by a thread that exists, the id of a monitor that exists and belongs to this object,
    or a hash code.  In particular a monitor is never freed while an object refers to
    it. *)
Theorem lock_words_well_formed fuel objects seed programs σ o w :
  client_ok objects programs -> reachable (initial fuel objects seed programs) σ ->
  lock_words (shared σ) !! o = Some w -> word_ok (shared σ) o w.
Proof. intros Hok Hr Hw. destruct (reachable_inv Hok Hr) as [g I]. by apply (inv_words _ I). Qed.

Lemma lock_words_well_formed_witness : word_ok (shared rivalry_over) 10 (fat_word 0).
Proof.
  apply (lock_words_well_formed 100 [10] 987654321 rivals rivalry_over 10 (fat_word 0) rivals_ok (after_reachable _ _)).
  by vm_compute.
Defined.

(** A thread that has finished its program holds every object exactly as often as it
    has entered and not left it: what the lock word or the monitor says agrees with the
    history, so an object all threads have left is free. *)
Theorem finished_threads_balanced fuel objects seed programs σ t o :
  client_ok objects programs -> reachable (initial fuel objects seed programs) σ ->
  pool σ !! t = Some (Ret tt) -> count (shared σ) t o = depth (events (shared σ) t) o.
Proof.
  intros Hok Hr Hp. destruct (done_finally _ _ _ _ _ t (reachable_obeying Hok Hr) Hp) as (g & _ & Hb). apply Hb.
Qed.

Lemma finished_threads_balanced_witness : count (shared rivalry_over) 1 10 = depth (events (shared rivalry_over) 1) 10.
Proof.
  apply (finished_threads_balanced 100 [10] 987654321 rivals rivalry_over 1 10 rivals_ok (after_reachable _ _)).
  by vm_compute.
Defined.

(** ** Aborts *)


(** A thread leaves an object that another holds. *)
Definition intruders : gmap tid (list op) := {[1 := [Enter 10]; 2 := [Exit 10]]}.
Definition intrusion : config State := initial 100 [10] 987654321 intruders.

Lemma intruders_ok : client_ok [10] intruders.
Proof. apply (bool_decide_unpack _). by vm_compute. Qed.


(** Leaving an object that a running thread has thinly locked aborts the runtime
    instead of throwing IllegalMonitorStateException: MonitorExit looks the owner up with
    a function that insists that the thread is suspended. *)
Theorem illegal_exit_aborts : run (turns 1 5 ++ turns 2 3) intrusion = Fault CheckFailed.
Proof. by vm_compute. Qed.

(** ** Lost notifications and endless loops *)

(** Threads 1 and 2 wait; thread 3 interrupts thread 1 and then notifies one thread. *)
Definition sleepers : gmap tid (list op) :=
  {[1 := [Enter 10; WaitOn 10 0 0; Exit 10]; 2 := [Enter 10; WaitOn 10 0 0; Exit 10];
    3 := [Enter 10; InterruptThread 1; NotifyOne 10; Exit 10]]}.

Definition overslept : config State :=
  after (turns 1 100 ++ turns 2 100 ++ turns 3 100 ++ turns 1 100) (initial 100 [10] 987654321 sleepers).


(** C36: GenerateIdentityHashCode never returns once the 30 low bits of the seed are 0:
    it rejects the value before the compare-and-swap that would advance the seed. *)
Theorem hash_generation_hangs fuel s t σ :
  Z.land (seed s) kHashMask = 0 ->
  reachable (Config s {[t := (_ ← GenerateIdentityHashCode fuel; mret tt)]}) σ ->
  shared σ = s /\ pool σ !! t <> Some (Ret tt).
Proof.
  intros Hs Hr.
  assert (exists fuel', σ = Config s {[t := (_ ← GenerateIdentityHashCode fuel'; mret tt)]}) as [fuel' ->].
  { remember (Config s _) as σ0. revert fuel Heqσ0. induction Hr as [σ0 | σ0 σ1 σ2 Hturn Hr IH]; intros fuel E.
    - by exists fuel.
    - destruct Hturn as (u & c & Hact). subst σ0. unfold act in Hact. simpl in Hact.
      destruct (decide (u = t)) as [-> | Hu]; [| by rewrite lookup_singleton_ne in Hact].
      rewrite lookup_singleton_eq in Hact. destruct fuel as [| fuel]; [done |]. simpl in Hact.
      rewrite (proj2 (Z.eqb_eq _ _) Hs) in Hact. injection Hact as <-. rewrite insert_singleton_eq in IH. by eapply IH. }
  simpl. split; [done |]. rewrite lookup_singleton_eq. intros [= E].
  destruct fuel'; done.
Qed.

Lemma hash_generation_hangs_witness :
  let s := shared (initial 100 [10] (2 ^ 30) rivals) in
  shared (after (turns 1 50) (Config s {[1 := (_ ← GenerateIdentityHashCode 40; mret tt)]})) = s /\
  pool (after (turns 1 50) (Config s {[1 := (_ ← GenerateIdentityHashCode 40; mret tt)]})) !! 1 <> Some (Ret tt).
Proof. apply (hash_generation_hangs 40 _ 1 _); [by vm_compute | apply after_reachable]. Defined.
