(* ===== verification/MonitorSolo.v ===== *)
(** * A thread that is not disturbed

    What a thread does when the others are between operations: [solo p s Q] says that
    [p], started in [s], runs to its end if no other thread acts meanwhile, and ends in
    [Q].  Other than the theorems of MonitorTheorems, which hold whenever an operation
    returns, this says that it returns. *)

From S2P Require Import Prelude Concurrency LockWord Monitor MonitorInvariant MonitorSteps MonitorLogic MonitorPrograms.

Section solo.
Context {S : Type}.

(** The choices, such as the id of a new monitor, may be made in favour of the thread. *)
Fixpoint solo {A} (p : prog S A) (s : S) (Q : A -> S -> Prop) : Prop :=
  match p with
  | Ret a => Q a s
  | Act f k => exists c b s', f c s = Some (Ok (b, s')) /\ solo (k b) s' Q
  end.

Lemma solo_mono {A} (p : prog S A) s (Q Q' : A -> S -> Prop) :
  solo p s Q -> (forall a s', Q a s' -> Q' a s') -> solo p s Q'.
Proof.
  intros Hp HQ. revert s Hp. induction p as [a | B f k IH]; simpl; intros s; [apply HQ |].
  intros (c & b & s' & Hf & Hk). exists c, b, s'. eauto.
Qed.

Lemma solo_bind {A B} (p : prog S A) (k : A -> prog S B) s Q :
  solo p s (fun a s' => solo (k a) s' Q) -> solo (p ≫= k) s Q.
Proof.
  revert s. induction p as [a | C f j IH]; simpl; intros s; [done |].
  intros (c & b & s' & Hf & Hk). exists c, b, s'. split; [done |]. by apply IH.
Qed.

Lemma solo_seq {A B} (p : prog S A) (k : A -> prog S B) s R Q :
  solo p s R -> (forall a s', R a s' -> solo (k a) s' Q) -> solo (p ≫= k) s Q.
Proof. intros Hp Hk. apply solo_bind. by eapply solo_mono. Qed.

Section one_action.
Context {A B : Type} (k : A -> prog S B) (s : S) (Q : B -> S -> Prop).

Lemma solo_atomic (m : M S A) a s' :
  m s = Ok (a, s') -> solo (k a) s' Q -> solo (atomic m ≫= k) s Q.
Proof. intros Hm Hk. exists 0, a, s'. by rewrite Hm. Qed.

Lemma solo_choosing (m : choice -> M S A) a s' :
  m 0 s = Ok (a, s') -> solo (k a) s' Q -> solo (choosing m ≫= k) s Q.
Proof. intros Hm Hk. exists 0, a, s'. by rewrite Hm. Qed.

Lemma solo_awaiting c enabled (m : choice -> M S A) a s' :
  enabled c s = true -> m c s = Ok (a, s') -> solo (k a) s' Q -> solo (awaiting enabled m ≫= k) s Q.
Proof. intros He Hm Hk. exists c, a, s'. by rewrite He, Hm. Qed.

Lemma solo_local r a : r = Ok a -> solo (k a) s Q -> solo (local r ≫= k) s Q.
Proof. by intros ->. Qed.
End one_action.

(** An action at the end of a program. *)
Lemma solo_last {A} (p : prog S A) s Q : solo (p ≫= mret) s Q -> solo p s Q.
Proof.
  revert s. induction p as [a | B f k IH]; simpl; intros s; [done |].
  intros (c & b & s' & Hf & Hk). exists c, b, s'. eauto.
Qed.

(** The run of a thread that is not disturbed is a run. *)
Lemma solo_reachable {A} t (p : prog S A) (k : A -> prog S unit) (σ : config S) Q :
  pool σ !! t = Some (p ≫= k) -> solo p (shared σ) Q ->
  exists a s', Q a s' /\ reachable σ (Config s' (<[t := k a]> (pool σ))).
Proof.
  revert σ. induction p as [a | B f j IH]; simpl; intros [s ps] Hpool; simpl in *.
  - intros HQ. exists a, s. split; [done |]. rewrite insert_id by done. apply rtc_refl.
  - intros (c & b & s' & Hf & Hj).
    destruct (IH b (Config s' (<[t := j b ≫= k]> ps))) as (a & s'' & HQ & Hr); simpl;
      [by rewrite lookup_insert_eq | done |].
    exists a, s''. split; [done |]. simpl in Hr. rewrite insert_insert_eq in Hr. eapply rtc_l; [| exact Hr].
    exists t, c. unfold act. simpl. by rewrite Hpool, Hf.
Qed.

Lemma solo_continues {A} t (p : prog S A) (k : A -> prog S unit) s ps Q σ :
  reachable σ (Config s (<[t := p ≫= k]> ps)) -> solo p s Q ->
  exists a s', Q a s' /\ reachable σ (Config s' (<[t := k a]> ps)).
Proof.
  intros Hσ Hp. destruct (solo_reachable t p k (Config s (<[t := p ≫= k]> ps)) Q) as (a & s' & HQ & Hr);
    [apply lookup_insert_eq | done |].
  exists a, s'. split; [done |]. simpl in Hr. rewrite insert_insert_eq in Hr. by etrans.
Qed.

Lemma solo_ret {A} (a : A) s (Q : A -> S -> Prop) : Q a s -> solo (mret a) s Q.
Proof. done. Qed.

Lemma solo_eq {A} (p : prog S A) s s' Q : solo p s' Q -> s = s' -> solo p s Q.
Proof. by intros H ->. Qed.
End solo.

Arguments solo : simpl never.

(** ** Actions on the state of Monitor *)

Definition put_word (o w : Z) (s : State) : State := with_lock_words (<[o := w]> (lock_words s)) s.
Definition put_monitor (m : Z) (v : Monitor) (s : State) : State := with_monitors (<[m := v]> (monitors s)) s.
Definition put_thread (t : tid) (v : Thread) (s : State) : State := with_threads (<[t := v]> (threads s)) s.

Section actions.
Context (s : State).

Lemma exec_bind {A B} (m : M State A) (f : A -> M State B) a s1 r :
  m s = Ok (a, s1) -> f a s1 = Ok r -> (m ≫= f) s = Ok r.
Proof. intros Hm Hf. unfold mbind, M_bind. by rewrite Hm. Qed.

Lemma exec_check b : b = true -> lift (check b) s = Ok (tt, s).
Proof. by intros ->. Qed.

Lemma exec_set_word o w w' : lock_words s !! o = Some w -> set_word o w' s = Ok (tt, put_word o w' s).
Proof. apply set_word_eq. Qed.

Lemma exec_set_monitor m v : set_monitor m v s = Ok (tt, put_monitor m v s).
Proof. done. Qed.

Lemma exec_set_thread t v : set_thread t v s = Ok (tt, put_thread t v s).
Proof. done. Qed.

Lemma exec_on_monitor m v f : monitors s !! m = Some v -> on_monitor m f s = Ok (tt, put_monitor m (f v) s).
Proof. apply on_monitor_eq. Qed.

Lemma exec_on_thread t v f : threads s !! t = Some v -> on_thread t f s = Ok (tt, put_thread t (f v) s).
Proof. apply on_thread_eq. Qed.

Lemma exec_release t m v :
  monitors s !! m = Some v -> monitor_lock_ v = Some t ->
  release t m s = Ok (tt, put_monitor m (with_monitor_lock None v) s).
Proof. apply release_eq. Qed.

Lemma exec_wait_release t u v :
  threads s !! u = Some v -> wait_mutex_ v = Some t ->
  wait_release t u s = Ok (tt, put_thread u (with_wait_mutex None v) s).
Proof.
  intros Hv Hl. eapply exec_bind; [by apply get_thread_eq |].
  eapply exec_bind; [apply exec_check; by apply bool_decide_true | done].
Qed.

(** *** Programs of one action *)

Context {B : Type} (Q : B -> State -> Prop).

Lemma solo_GetLockWord o w k :
  lock_words s !! o = Some w -> solo (k w) s Q -> solo (GetLockWord o ≫= k) s Q.
Proof. intros Hw. by apply solo_atomic, get_word_eq. Qed.

Lemma solo_SetLockWord o w w' k :
  lock_words s !! o = Some w -> solo (k tt) (put_word o w' s) Q -> solo (SetLockWord o w' ≫= k) s Q.
Proof. intros Hw. by eapply solo_atomic, exec_set_word. Qed.

Lemma solo_Cas o w w' k :
  lock_words s !! o = Some w -> solo (k true) (put_word o w' s) Q -> solo (CasLockWordWeak o w w' ≫= k) s Q.
Proof.
  intros Hw. apply solo_choosing. eapply exec_bind; [by apply get_word_eq |].
  rewrite bool_decide_true by done. simpl. eapply exec_bind; [by eapply exec_set_word | done].
Qed.

Lemma solo_MutexLock t m v k :
  monitors s !! m = Some v -> monitor_lock_ v = None ->
  solo (k tt) (put_monitor m (with_monitor_lock (Some t) v) s) Q -> solo (MutexLock t m ≫= k) s Q.
Proof.
  intros Hv Hl. apply (solo_awaiting _ _ _ 0).
  - unfold mutex_free. rewrite Hv. by apply bool_decide_true.
  - by rewrite exec_on_monitor with (v := v).
Qed.

Lemma solo_MutexUnlock t m v k :
  monitors s !! m = Some v -> monitor_lock_ v = Some t ->
  solo (k tt) (put_monitor m (with_monitor_lock None v) s) Q -> solo (MutexUnlock t m ≫= k) s Q.
Proof. intros Hv Hl. by apply solo_atomic, exec_release. Qed.

Lemma solo_WaitMutexLock t u v k :
  threads s !! u = Some v -> wait_mutex_ v = None ->
  solo (k tt) (put_thread u (with_wait_mutex (Some t) v) s) Q -> solo (WaitMutexLock t u ≫= k) s Q.
Proof.
  intros Hv Hl. apply (solo_awaiting _ _ _ 0).
  - rewrite Hv. by apply bool_decide_true.
  - by rewrite exec_on_thread with (v := v).
Qed.

Lemma solo_WaitMutexUnlock t u v k :
  threads s !! u = Some v -> wait_mutex_ v = Some t ->
  solo (k tt) (put_thread u (with_wait_mutex None v) s) Q -> solo (WaitMutexUnlock t u ≫= k) s Q.
Proof. intros Hv Hl. by apply solo_atomic, exec_wait_release. Qed.
End actions.
