(* ===== verification/MonitorSequential.v ===== *)
(** * Locks without contention

    [call] is what Java says about locks when operations do not overlap: a map from
    objects to their holders and one to their hash codes.  [resting] relates it to a
    state of Monitor between operations, where an object may be locked by its lock word
    or by a monitor.  Every operation of [perform] that [call] allows runs to its end,
    returns what [call] says and leaves a state that rests again. *)

From S2P Require Import Prelude Concurrency LockWord Monitor MonitorInvariant MonitorSteps MonitorLogic MonitorPrograms MonitorClient MonitorSolo.

(** ** What locks are for *)

(** The thread that holds an object, with the number of times it has entered it; the
    hash codes that have been given out; the threads whose interruption is pending; the
    seed of the next hash code. *)
Record locks : Type := MkLocks {
  holders : gmap Z (tid * Z);
  hashes : gmap Z Z;
  interrupted : gset tid;
  next_seed : Z;
}.

Definition with_holders v A := MkLocks v (hashes A) (interrupted A) (next_seed A).
Definition with_interruptions v A := MkLocks (holders A) (hashes A) v (next_seed A).

Definition owns (A : locks) (t : tid) (o : Z) : bool :=
  match holders A !! o with Some (u, _) => bool_decide (u = t) | None => false end.

(** The hash code of the seed, and the seed after it. *)
Definition hash_from (n : Z) : Z := Z.land n kHashMask.
Definition seed_after (n : Z) : Z := uint32 (n * 1103515245 + 12345).

(** An operation of thread [t], which is [None] when it would have to wait for another
    thread or could not return: when it enters, leaves or asks for a new hash code of an
    object that another thread holds, waits without limit, deflates while other threads
    run, exceeds the count of a monitor or meets the seed without a hash code. *)
Definition call (tids : gset tid) (A : locks) (t : tid) (a : op) :
    option (locks * result * option exception) :=
  match a with
  | Enter o =>
      match holders A !! o with
      | None => Some (with_holders (<[o := (t, 1)]> (holders A)) A, Void, None)
      | Some (u, c) =>
          if bool_decide (u = t) && (c <? 2 ^ 31 - 1)
          then Some (with_holders (<[o := (t, c + 1)]> (holders A)) A, Void, None) else None
      end
  | Exit o =>
      match holders A !! o with
      | None => Some (A, Flag false, Some IllegalMonitorStateException)
      | Some (u, c) =>
          if bool_decide (u = t)
          then Some (with_holders (if c =? 1 then delete o (holders A)
                                   else <[o := (t, c - 1)]> (holders A)) A, Flag true, None)
          else None
      end
  | WaitOn o ms ns =>
      if owns A t o then
        if (ms <? 0) || (ns <? 0) || (999999 <? ns)
        then Some (A, Void, Some IllegalArgumentException)
        else if bool_decide (t ∈ interrupted A)
        then Some (with_interruptions (interrupted A ∖ {[t]}) A, Void, Some InterruptedException)
        else if (ms =? 0) && (ns =? 0) then None else Some (A, Void, None)
      else Some (A, Void, Some IllegalMonitorStateException)
  | NotifyOne o | NotifyEvery o =>
      Some (A, Void, if owns A t o then None else Some IllegalMonitorStateException)
  | HashOf o =>
      match hashes A !! o with
      | Some h => Some (A, Word h, None)
      | None =>
          let h := hash_from (next_seed A) in
          if (h =? 0) || negb (owns A t o || bool_decide (holders A !! o = None)) then None
          else Some (MkLocks (holders A) (<[o := h]> (hashes A)) (interrupted A)
                       (seed_after (next_seed A)), Word h, None)
      end
  | InterruptThread u => Some (with_interruptions ({[u]} ∪ interrupted A) A, Void, None)
  | SuspendCheck => Some (A, Void, None)
  | DeflateAll => if bool_decide (tids = {[t]}) then Some (A, Void, None) else None
  end.

(** ** States between operations *)

(** A monitor that nobody is using at the moment; [cs] may hold threads that no longer
    sleep. *)
Definition at_rest (cs : list tid) (o : Z) (hold : option (tid * Z)) (hash : option Z) : Monitor :=
  MkMonitor None cs 0 (fst <$> hold) (from_option (fun p => p.2 - 1) 0 hold) (Some o) None (default 0 hash).

(** A thread between operations. *)
Definition idle_thread (i : bool) (e : option exception) : Thread :=
  MkThread kRunnable 0 None None false None i None e.

Section sequential.
Context (objects : list Z) (tids : gset tid).

Definition hold_ok (hold : option (tid * Z)) : Prop :=
  match hold with Some (t, c) => t ∈ tids /\ 1 <= c < 2 ^ 31 | None => True end.
Definition hash_ok (hash : option Z) : Prop :=
  match hash with Some h => 0 < h <= kMaxHash | None => True end.

(** How the lock of [o] may be represented. *)
Inductive lock_rep (s : State) (o : Z) : option (tid * Z) -> option Z -> Prop :=
  | rep_unlocked : lock_words s !! o = Some Unlocked -> lock_rep s o None None
  | rep_thin t c :
      lock_words s !! o = Some (thin_word t c) -> t ∈ tids -> 0 <= c <= kThinLockMaxCount ->
      lock_rep s o (Some (t, c + 1)) None
  | rep_hash h : lock_words s !! o = Some (hash_word h) -> 0 < h <= kMaxHash -> lock_rep s o None (Some h)
  | rep_fat m cs hold hash :
      lock_words s !! o = Some (fat_word m) -> 0 <= m <= kMaxMonitorId ->
      monitors s !! m = Some (at_rest cs o hold hash) -> hold_ok hold -> hash_ok hash ->
      lock_rep s o hold hash.

Record locks_rep (A : locks) (s : State) : Prop := {
  lr_object o : o ∈ objects -> lock_rep s o (holders A !! o) (hashes A !! o);
  lr_monitor m v : monitors s !! m = Some v ->
    0 <= m <= kMaxMonitorId /\ exists o, o ∈ objects /\ obj_ v = Some o /\ lock_words s !! o = Some (fat_word m);
  lr_list m : m ∈ list_ s <-> is_Some (monitors s !! m);
  lr_nodup : NoDup (list_ s);
}.

Record threads_rep (A : locks) (t : tid) (e : option exception) (H : gmap tid (list event)) (s : State) : Prop := {
  tr_threads u : threads s !! u =
    if decide (u ∈ tids) then Some (idle_thread (bool_decide (u ∈ interrupted A)) (if decide (u = t) then e else None))
    else None;
  tr_allow : allow_new_monitors_ s = true;
  tr_exclusive : mutator_exclusive s = None;
  tr_shared : mutator_shared s = tids;
  tr_seed : seed s = next_seed A;
  tr_history : history s = H;
}.

(** No operation is in progress; thread [t] has [e] pending, and [H] is the history. *)
Definition resting (A : locks) (t : tid) (e : option exception) (H : gmap tid (list event)) (s : State) : Prop :=
  locks_rep A s /\ threads_rep A t e H s.

Lemma lock_rep_same s s' o hold hash :
  lock_words s' !! o = lock_words s !! o -> monitors s' = monitors s -> lock_rep s o hold hash -> lock_rep s' o hold hash.
Proof.
  intros Ew Em [| t c | h | m cs ? ?]; rewrite <- ?Ew, <- ?Em in *;
    [by apply rep_unlocked | by apply rep_thin | by apply rep_hash | by apply (rep_fat _ _ m cs)].
Qed.

Lemma locks_rep_same A A' s s' :
  lock_words s' = lock_words s -> monitors s' = monitors s -> list_ s' = list_ s ->
  holders A' = holders A -> hashes A' = hashes A -> locks_rep A s -> locks_rep A' s'.
Proof.
  intros Ew Em El Eh Ec []. split; rewrite ?Ew, ?Em, ?El, ?Eh, ?Ec; try done.
  intros o Ho. apply (lock_rep_same s); rewrite ?Ew; auto.
Qed.

(** ** Changing the lock of one object *)

Section update.
Context (A A' : locks) (s s' : State) (o : Z) (R : locks_rep A s) (Ho : o ∈ objects).
Context (Hholders : forall o1, o1 <> o -> holders A' !! o1 = holders A !! o1).
Context (Hhashes : forall o1, o1 <> o -> hashes A' !! o1 = hashes A !! o1).

Lemma locks_rep_update :
  (forall o1, o1 <> o -> lock_words s' !! o1 = lock_words s !! o1) ->
  (forall m v, obj_ v <> Some o -> monitors s' !! m = Some v <-> monitors s !! m = Some v) ->
  lock_rep s' o (holders A' !! o) (hashes A' !! o) ->
  (forall m v, monitors s' !! m = Some v -> obj_ v = Some o ->
    0 <= m <= kMaxMonitorId /\ lock_words s' !! o = Some (fat_word m)) ->
  (forall m, m ∈ list_ s' <-> is_Some (monitors s' !! m)) -> NoDup (list_ s') ->
  locks_rep A' s'.
Proof.
  intros Hw Hm Hrep Hback Hlist Hnd. split; [| | done..].
  - intros o1 Ho1. destruct (decide (o1 = o)) as [-> | Hne]; [done |].
    rewrite Hholders, Hhashes by done.
    destruct (lr_object _ _ R o1 Ho1) as [| t c | h | m cs hold hash]; rewrite <- Hw in * by done.
    + by apply rep_unlocked.
    + by apply rep_thin.
    + by apply rep_hash.
    + apply (rep_fat s' o1 m cs); try done. apply Hm; [| done]. simpl. congruence.
  - intros m v Hv. destruct (decide (obj_ v = Some o)) as [Hobj | Hobj].
    + destruct (Hback _ _ Hv Hobj). eauto.
    + apply Hm in Hv as Hv1; [| done]. destruct (lr_monitor _ _ R _ _ Hv1) as (Hid & o1 & Ho1 & Hobj1 & Hword).
      split; [done |]. exists o1. split_and!; [done.. |]. rewrite Hw; [done | congruence].
Qed.

(** The lock word changes, and is not that of a monitor before or after. *)
Lemma locks_rep_word w :
  (forall m, 0 <= m <= kMaxMonitorId -> lock_words s !! o <> Some (fat_word m)) ->
  lock_words s' = <[o := w]> (lock_words s) -> monitors s' = monitors s -> list_ s' = list_ s ->
  lock_rep s' o (holders A' !! o) (hashes A' !! o) -> locks_rep A' s'.
Proof.
  intros Hthin Hw Hm Hl Hrep. apply locks_rep_update; rewrite ?Hm, ?Hl; try done.
  - intros o1 Hne. by rewrite Hw, lookup_insert_ne.
  - intros m v Hv Hobj. destruct (lr_monitor _ _ R _ _ Hv) as (Hid & o1 & _ & Hobj1 & Hword).
    exfalso. apply (Hthin m Hid). congruence.
  - apply (lr_list _ _ R).
  - apply (lr_nodup _ _ R).
Qed.

(** The monitor of the object changes. *)
Lemma locks_rep_monitor m cs cs' :
  lock_words s !! o = Some (fat_word m) -> 0 <= m <= kMaxMonitorId ->
  monitors s !! m = Some (at_rest cs o (holders A !! o) (hashes A !! o)) ->
  hold_ok (holders A' !! o) -> hash_ok (hashes A' !! o) ->
  lock_words s' = lock_words s -> list_ s' = list_ s ->
  monitors s' = <[m := at_rest cs' o (holders A' !! o) (hashes A' !! o)]> (monitors s) ->
  locks_rep A' s'.
Proof.
  intros Hword Hid Hv Hh1 Hh2 Hw Hl Hm. apply locks_rep_update; rewrite ?Hw, ?Hl, ?Hm; try done.
  - intros m1 v1 Hobj. rewrite lookup_insert. case_decide; [| done]. subst m1. rewrite Hv.
    split; intros [= <-]; by destruct Hobj.
  - apply (rep_fat s' o m cs'); rewrite ?Hw, ?Hm, ?lookup_insert_eq; done.
  - intros m1 v1. rewrite lookup_insert. case_decide as Hc; [by subst |]. intros Hv1 Hobj.
    destruct (lr_monitor _ _ R _ _ Hv1) as (? & o1 & _ & Hobj1 & Hword1). split; congruence.
  - intros m1. rewrite (lr_list _ _ R). rewrite lookup_insert. case_decide; [| done]. subst. rewrite Hv. naive_solver.
  - apply (lr_nodup _ _ R).
Qed.

(** The object gets a monitor. *)
Lemma locks_rep_inflate m cs :
  (forall m, 0 <= m <= kMaxMonitorId -> lock_words s !! o <> Some (fat_word m)) -> 0 <= m <= kMaxMonitorId -> monitors s !! m = None ->
  hold_ok (holders A' !! o) -> hash_ok (hashes A' !! o) ->
  lock_words s' = <[o := fat_word m]> (lock_words s) -> list_ s' = m :: list_ s ->
  monitors s' = <[m := at_rest cs o (holders A' !! o) (hashes A' !! o)]> (monitors s) ->
  locks_rep A' s'.
Proof.
  intros Hthin Hid Hv Hh1 Hh2 Hw Hl Hm. apply locks_rep_update; rewrite ?Hw, ?Hl, ?Hm; try done.
  - intros o1 Hne. by rewrite lookup_insert_ne.
  - intros m1 v1 Hobj. rewrite lookup_insert. case_decide; [| done]. subst m1. rewrite Hv.
    split; [intros [= <-]; by destruct Hobj | done].
  - apply (rep_fat s' o m cs); rewrite ?Hw, ?Hm, ?lookup_insert_eq; done.
  - intros m1 v1. rewrite lookup_insert. case_decide as Hc; [subst; by rewrite lookup_insert_eq |]. intros Hv1 Hobj.
    destruct (lr_monitor _ _ R _ _ Hv1) as (Hid1 & o1 & _ & Hobj1 & Hword1).
    exfalso. apply (Hthin m1 Hid1). congruence.
  - intros m1. rewrite elem_of_cons, (lr_list _ _ R), lookup_insert. case_decide; naive_solver.
  - apply NoDup_cons. split; [| apply (lr_nodup _ _ R)]. rewrite (lr_list _ _ R), Hv. by intros [? ?].
Qed.

(** The object loses its monitor. *)
Lemma locks_rep_deflate m cs w :
  lock_words s !! o = Some (fat_word m) -> 0 <= m <= kMaxMonitorId ->
  monitors s !! m = Some (at_rest cs o (holders A !! o) (hashes A !! o)) ->
  lock_words s' = <[o := w]> (lock_words s) -> monitors s' = delete m (monitors s) ->
  list_ s' = filter (fun x => x <> m) (list_ s) ->
  lock_rep s' o (holders A' !! o) (hashes A' !! o) -> locks_rep A' s'.
Proof.
  intros Hword Hid Hv Hw Hm Hl Hrep. apply locks_rep_update; rewrite ?Hw, ?Hl, ?Hm; try done.
  - intros o1 Hne. by rewrite lookup_insert_ne.
  - intros m1 v1 Hobj. rewrite lookup_delete. case_decide; [| done]. subst m1. rewrite Hv.
    split; [done | intros [= <-]; by destruct Hobj].
  - intros m1 v1. rewrite lookup_delete. case_decide as Hc; [done |]. intros Hv1 Hobj.
    destruct (lr_monitor _ _ R _ _ Hv1) as (_ & o1 & _ & Hobj1 & Hword1).
    exfalso. apply Hc. assert (fat_word m = fat_word m1) as Heq by congruence. unfold fat_word in Heq. lia.
  - intros m1. rewrite list_elem_of_filter, (lr_list _ _ R), lookup_delete. case_decide; naive_solver.
  - apply NoDup_filter, (lr_nodup _ _ R).
Qed.
End update.
End sequential.
