(* ===== verification/MonitorUncontended.v ===== *)
(** * Every operation returns when nobody else wants the lock

    The operations of [perform], started between operations of other threads: each runs
    to its end as [call] of MonitorSequential says. *)

From S2P Require Import Prelude Concurrency LockWord Monitor MonitorInvariant MonitorSteps MonitorLogic MonitorPrograms MonitorClient MonitorSolo MonitorSequential.

(** ** Fresh monitor ids *)

Lemma free_id (l : list Z) : exists c, 0 <= c <= zlength l /\ c ∉ l.
Proof.
  destruct (decide (Forall (.∈ l) (seqZ 0 (zlength l + 1)))) as [Hall | Hall].
  - exfalso. rewrite Forall_forall in Hall.
    assert (seqZ 0 (zlength l + 1) ⊆+ l) as Hsub by (apply NoDup_submseteq; [apply NoDup_seqZ | done]).
    apply submseteq_length in Hsub. rewrite length_seqZ in Hsub. lia.
  - apply not_Forall_Exists, Exists_exists in Hall as (c & Hin & Hc); [| apply _].
    exists c. rewrite elem_of_seqZ in Hin. split; [lia | done].
Qed.

Lemma put_monitor_twice m v v' s : put_monitor m v' (put_monitor m v s) = put_monitor m v' s.
Proof. unfold put_monitor. destruct s. cbn. by rewrite insert_insert_eq. Qed.

Lemma put_thread_twice t v v' s : put_thread t v' (put_thread t v s) = put_thread t v' s.
Proof. unfold put_thread. destruct s. cbn. by rewrite insert_insert_eq. Qed.

Lemma put_thread_same t v s : threads s !! t = Some v -> put_thread t v s = s.
Proof. intros Hv. unfold put_thread. rewrite insert_id by done. by destruct s. Qed.

Lemma put_monitor_same m v s : monitors s !! m = Some v -> put_monitor m v s = s.
Proof. intros Hv. unfold put_monitor. rewrite insert_id by done. by destruct s. Qed.

Lemma put_word_same o w s : lock_words s !! o = Some w -> put_word o w s = s.
Proof. intros Hw. unfold put_word. rewrite insert_id by done. by destruct s. Qed.

Lemma put_monitor_thread m v t th s : put_monitor m v (put_thread t th s) = put_thread t th (put_monitor m v s).
Proof. done. Qed.

Lemma shared_thread X t th s : with_mutator_shared X (put_thread t th s) = put_thread t th (with_mutator_shared X s).
Proof. done. Qed.

Lemma shared_monitor X m v s : with_mutator_shared X (put_monitor m v s) = put_monitor m v (with_mutator_shared X s).
Proof. done. Qed.

Lemma shared_twice X Y s : with_mutator_shared X (with_mutator_shared Y s) = with_mutator_shared X s.
Proof. done. Qed.

Lemma shared_same s : with_mutator_shared (mutator_shared s) s = s.
Proof. by destruct s. Qed.

Lemma mutator_shared_thread t th s : mutator_shared (put_thread t th s) = mutator_shared s.
Proof. done. Qed.

Lemma mutator_shared_monitor m v s : mutator_shared (put_monitor m v s) = mutator_shared s.
Proof. done. Qed.

(** Brings a state into the form: a thread, then a monitor, then the mutator lock. *)
Ltac tidy :=
  repeat progress (rewrite ?put_monitor_thread, ?shared_thread, ?shared_monitor, ?put_thread_twice,
    ?put_monitor_twice, ?shared_twice, ?mutator_shared_thread, ?mutator_shared_monitor).

Ltac look := simpl; rewrite ?lookup_insert_eq; first [eassumption | done | reflexivity].

(** Computes the fields of monitors and threads. *)
Ltac fields :=
  cbn [monitor_lock_ monitor_contenders_ num_waiters_ owner_ lock_count_ obj_ wait_set_ hash_code_
       with_monitor_lock with_monitor_contenders with_num_waiters with_owner with_lock_count with_obj with_wait_set
       with_hash_code at_rest state suspend_count monitor_enter_object wait_mutex_ wait_cond_ wait_monitor_
       interrupted_ wait_next pending with_state with_suspend_count with_monitor_enter_object with_wait_mutex
       with_wait_cond with_wait_monitor with_interrupted with_wait_next with_pending idle_thread
       fmap option_fmap option_map from_option default id fst snd].

(** A computation on the state whose guards hold. *)
Ltac exec :=
  fields;
  lazymatch goal with
  | |- (_ ≫= _) _ = _ => eapply exec_bind; [exec |]; exec
  | |- get_thread _ _ = _ => apply get_thread_eq; look
  | |- get_monitor _ _ = _ => apply get_monitor_eq; look
  | |- get_word _ _ = _ => apply get_word_eq; look
  | |- lift (check _) _ = _ => apply exec_check; simpl; first [done | by rewrite bool_decide_true]
  | |- set_thread _ _ _ = _ => apply exec_set_thread
  | |- set_monitor _ _ _ = _ => apply exec_set_monitor
  | |- throw _ _ _ = _ => apply exec_on_thread; look
  | |- FailedUnlock _ _ = _ => apply exec_on_thread; look
  | |- on_thread _ _ _ = _ => apply exec_on_thread; look
  | |- on_monitor _ _ _ = _ => apply exec_on_monitor; look
  | |- release _ _ _ = _ => apply exec_release; [look | done]
  | |- wait_release _ _ _ = _ => apply exec_wait_release; [look | done]
  | |- _ => done
  end.

(** The next action of a thread that does not have to wait. *)
Ltac go :=
  lazymatch goal with
  | |- solo (atomic _ ≫= _) _ _ => eapply solo_atomic; [exec |]
  | |- solo (choosing _ ≫= _) _ _ => eapply solo_choosing; [exec |]
  | |- solo (MutexLock _ _ ≫= _) _ _ => eapply solo_MutexLock; [look | done |]
  | |- solo (MutexUnlock _ _ ≫= _) _ _ => eapply solo_MutexUnlock; [look | done |]
  | |- solo (WaitMutexLock _ _ ≫= _) _ _ => eapply solo_WaitMutexLock; [look | done |]
  | |- solo (WaitMutexUnlock _ _ ≫= _) _ _ => eapply solo_WaitMutexUnlock; [look | done |]
  | |- solo (GetLockWord _ ≫= _) _ _ => eapply solo_GetLockWord; [look |]
  | |- solo (mret _) _ _ => apply solo_ret
  end; cbn beta iota; tidy.

Section uncontended.
Context (objects : list Z) (tids : gset tid).
Context (Hids : forall t, t ∈ tids -> 0 < t <= kThinLockMaxOwner) (Hmany : zlength objects <= kMaxMonitorId).

Abbreviation locks_rep := (locks_rep objects tids).
Abbreviation threads_rep := (threads_rep tids).
Abbreviation resting := (resting objects tids).

Lemma fresh_monitor A s : locks_rep A s -> exists m, 0 <= m <= kMaxMonitorId /\ monitors s !! m = None.
Proof.
  intros R. destruct (free_id (list_ s)) as (m & Hm & Hout). exists m. split.
  - cut (zlength (list_ s) <= zlength objects); [lia |].
    set (object m := default 0 (monitors s !! m ≫= obj_)).
    assert (Hobj : forall m, m ∈ list_ s -> object m ∈ objects /\ lock_words s !! object m = Some (fat_word m)).
    { intros m1 Hin. apply (lr_list _ _ _ _ R) in Hin as [v Hv].
      destruct (lr_monitor _ _ _ _ R _ _ Hv) as (_ & o & Ho & Hobj & Hw).
      unfold object. rewrite Hv. simpl. by rewrite Hobj. }
    assert (object <$> list_ s ⊆+ objects) as Hsub.
    { apply NoDup_submseteq.
      - apply NoDup_fmap_2_strong; [| apply (lr_nodup _ _ _ _ R)]. intros m1 m2 H1 H2 Heq.
        apply Hobj in H1 as [_ H1]. apply Hobj in H2 as [_ H2]. rewrite Heq in H1.
        assert (fat_word m1 = fat_word m2) as Hf by congruence. unfold fat_word in Hf. lia.
      - intros o Hin. apply list_elem_of_fmap in Hin as (m1 & -> & Hin). by apply Hobj. }
    apply submseteq_length in Hsub. rewrite length_fmap in Hsub. lia.
  - apply eq_None_not_Some. by rewrite <- (lr_list _ _ _ _ R).
Qed.

(** ** Thread states *)

Section actions.
Context {B : Type} (s : State) (Q : B -> State -> Prop).

Lemma solo_to_suspended t v new k :
  threads s !! t = Some v -> state v = kRunnable -> new <> kRunnable ->
  solo (k tt) (with_mutator_shared (mutator_shared s ∖ {[t]}) (put_thread t (with_state new v) s)) Q ->
  solo (TransitionFromRunnableToSuspended t new ≫= k) s Q.
Proof.
  intros Hv Hst Hnew Hk. apply solo_bind. eapply solo_atomic.
  - run_step. rewrite bind_check by (by apply bool_decide_true). rewrite bind_check by (by apply bool_decide_true). done.
  - eapply solo_last, solo_atomic; [done |]. apply Hk.
Qed.

Lemma solo_to_runnable fuel t v k :
  fuel <> O -> threads s !! t = Some v -> state v <> kRunnable -> suspend_count v = 0 -> mutator_exclusive s = None ->
  solo (k tt) (put_thread t (with_state kRunnable v) (with_mutator_shared ({[t]} ∪ mutator_shared s) s)) Q ->
  solo (TransitionFromSuspendedToRunnable fuel t ≫= k) s Q.
Proof.
  intros Hf Hv Hst Hc Hx Hk. destruct fuel as [| fuel]; [done |]. apply solo_bind. cbn [TransitionFromSuspendedToRunnable].
  eapply (solo_awaiting _ _ _ 0).
  - rewrite Hv. by apply Z.eqb_eq.
  - run_step. apply exec_check. by apply bool_decide_true.
  - eapply (solo_awaiting _ _ _ 0); [by apply bool_decide_true | done |]. eapply solo_choosing.
    + cbn beta. rewrite (bind_eq _ _ _ _ _ (get_thread_eq (with_mutator_shared ({[t]} ∪ mutator_shared s) s) t v Hv)).
      rewrite Hc. simpl. by rewrite bind_set_thread.
    + exact Hk.
Qed.

End actions.

Section monitor_actions.
Context {B : Type} (s : State) (Q : B -> State -> Prop).

Lemma solo_Lock_free fuel t m v k :
  fuel <> O -> monitors s !! m = Some v -> monitor_lock_ v = None -> owner_ v = None -> lock_count_ v = 0 ->
  solo (k tt) (put_monitor m (with_owner (Some t) v) s) Q -> solo (Lock fuel t m ≫= k) s Q.
Proof.
  intros Hf Hv Hl Hown Hc Hk. destruct fuel as [| fuel]; [done |]. apply solo_bind. unfold Lock. cbn [Lock_loop].
  eapply solo_MutexLock; [done.. |].
  eapply solo_atomic with (a := true) (s' := put_monitor m (with_owner (Some t) (with_monitor_lock (Some t) v)) _).
  - unfold try_lock. rewrite (bind_eq _ _ _ _ _ (get_monitor_eq _ _ _ (lookup_insert_eq _ _ _))).
    cbn [owner_ with_monitor_lock lock_count_]. rewrite Hown, bind_check by (by rewrite Hc). by rewrite bind_set_monitor.
  - eapply solo_last, solo_MutexUnlock; [look | done |]. apply solo_ret. tidy.
    eapply solo_eq; [exact Hk |]. f_equal. destruct v; simpl in *; by subst.
Qed.

(** A wait that nobody disturbs ends by the timeout, or at once when the thread has been
    interrupted. *)
Lemma solo_sleep_on fuel t m v why i k :
  fuel <> O -> why <> kRunnable -> threads s !! t = Some (with_state why (idle_thread i None)) ->
  monitors s !! m = Some v -> monitor_lock_ v = Some t -> mutator_exclusive s = None ->
  (forall cs', solo (k i) (put_thread t (idle_thread i None)
     (put_monitor m (with_monitor_lock None (with_monitor_contenders cs' v))
     (with_mutator_shared ({[t]} ∪ mutator_shared s) s))) Q) ->
  solo (sleep_on fuel t m ≫= k) s Q.
Proof.
  intros Hf Hwhy Hth Hv Hl Hx Hk. apply solo_bind. unfold sleep_on.
  do 4 go. cbn [interrupted_ with_wait_monitor with_wait_mutex with_state idle_thread].
  set (s1 := put_thread t _ _).
  eapply solo_seq with (R := fun r s' => r = i /\ s' = s1).
  - destruct i; [done |]. unfold WaitConditionWait. apply solo_bind. go.
    eapply (solo_awaiting _ _ _ 1) with (a := tt); [look | cbn beta; exec |]. apply solo_last. go.
    go. apply solo_last. do 2 go. split; [done |]. subst s1. by tidy.
  - intros r s' [-> ->]. subst s1. go.
    eapply solo_to_runnable; [done | look | done | done | done |]. tidy. do 4 go. apply Hk.
Qed.

(** ** The monitor of an object *)

Context (t : tid) (m : Z) (cs : list tid) (o : Z) (hold : option (tid * Z)) (hash : option Z).
Context (Hv : monitors s !! m = Some (at_rest cs o hold hash)).

(** The thread can enter. *)
Definition enterable : Prop := hold = None \/ exists c, hold = Some (t, c) /\ 1 <= c < 2 ^ 31 - 1.

Lemma exec_try_lock s' :
  enterable -> monitors s' !! m = Some (with_monitor_lock (Some t) (at_rest cs o hold hash)) ->
  try_lock t m s' =
    Ok (true, put_monitor m (with_monitor_lock (Some t) (at_rest cs o (Some (t, from_option snd 0 hold + 1)) hash)) s').
Proof.
  intros Hent Hv'. unfold try_lock. rewrite (bind_eq _ _ _ _ _ (get_monitor_eq _ _ _ Hv')).
  destruct Hent as [-> | (c & -> & Hc)]; cbn -[put_monitor Z.add Z.sub Z.ltb].
  - done.
  - rewrite bool_decide_true by done. unfold increment_lock_count. cbn -[put_monitor Z.add Z.sub Z.ltb].
    rewrite (proj2 (Z.ltb_lt _ _)) by lia. cbn -[put_monitor Z.add Z.sub].
    replace (c - 1 + 1) with (c + 1 - 1) by lia. done.
Qed.

Lemma solo_Lock fuel k :
  fuel <> O -> enterable ->
  solo (k tt) (put_monitor m (at_rest cs o (Some (t, from_option snd 0 hold + 1)) hash) s) Q ->
  solo (Lock fuel t m ≫= k) s Q.
Proof.
  intros Hf Hent Hk. destruct fuel as [| fuel]; [done |]. apply solo_bind. unfold Lock. cbn [Lock_loop].
  eapply solo_MutexLock; [done.. |]. eapply solo_atomic; [apply exec_try_lock; [done | look] |].
  eapply solo_last, solo_MutexUnlock; [look | done |]. apply solo_ret. by rewrite !put_monitor_twice.
Qed.

Lemma solo_Unlock c :
  hold = Some (t, c) ->
  solo (Unlock t m) s (fun r s' => r = true /\ exists cs',
    s' = put_monitor m (at_rest cs' o (if c =? 1 then None else Some (t, c - 1)) hash) s).
Proof.
  intros Eh. unfold Unlock. eapply solo_MutexLock; [done.. |].
  set (s1 := put_monitor m _ s).
  set (cs' := if c =? 1 then monitor_contenders_ (signal 0 (at_rest cs o hold hash)) else cs).
  eapply solo_choosing with (a := true) (s' := put_monitor m (with_monitor_lock (Some t)
      (at_rest cs' o (if c =? 1 then None else Some (t, c - 1)) hash)) s1).
  - rewrite (bind_eq _ _ _ _ _ (get_monitor_eq _ _ _ (lookup_insert_eq _ _ _))).
    subst cs'. rewrite Eh. cbn -[put_monitor Z.eqb Z.sub signal delete]. rewrite bool_decide_true by done.
    replace (c - 1 =? 0) with (c =? 1) by lia. rewrite bind_set_monitor.
    destruct (c =? 1) eqn:Ec; [| done]. apply Z.eqb_eq in Ec as ->. done.
  - eapply solo_MutexUnlock; [look | done |]. apply solo_ret. split; [done |]. exists cs'.
    subst s1. by rewrite !put_monitor_twice.
Qed.

Lemma solo_Unlock_fails th :
  fst <$> hold <> Some t -> threads s !! t = Some th ->
  solo (Unlock t m) s (fun r s' => r = false /\ s' = put_thread t (with_pending (Some IllegalMonitorStateException) th) s).
Proof.
  intros Hno Hth. unfold Unlock. eapply solo_MutexLock; [done.. |].
  eapply solo_choosing with (a := false) (s' := put_thread t (with_pending (Some IllegalMonitorStateException) th) _).
  - rewrite (bind_eq _ _ _ _ _ (get_monitor_eq _ _ _ (lookup_insert_eq _ _ _))).
    rewrite bool_decide_false by done. unfold FailedUnlock, throw. 
    eapply exec_bind; [by apply exec_on_thread | done].
  - eapply solo_MutexUnlock; [look | done |]. apply solo_ret. split; [done |].
    by rewrite put_monitor_thread, put_monitor_twice, put_monitor_same.
Qed.
End monitor_actions.

(** ** Inflation *)

Section inflation.
Context (s : State) (t : tid) (m o w : Z) (hold : option (tid * Z)) (hash : option Z).
Context (Ht : t ∈ tids) (Hm : 0 <= m <= kMaxMonitorId) (Hw : lock_words s !! o = Some w).

(** The lock word says what the monitor will say. *)
Definition inflatable : Prop :=
  (exists c, w = thin_word t c /\ 0 <= c <= kThinLockMaxCount /\ hold = Some (t, c + 1)) \/
  (hold = None /\ exists h, hash = Some h /\ w = hash_word h /\ 0 < h <= kMaxHash).

Lemma inflatable_not_fat : w = fat_word m -> ~ inflatable.
Proof.
  intros Ew Hinf. pose proof (Hids _ Ht). assert (GetState w = kFatLocked) as E by (rewrite Ew; by apply fat_word_state).
  destruct Hinf as [(c & Hw' & Hc & _) | (_ & h & _ & Hw' & Hh)]; rewrite Hw' in E.
  - by rewrite thin_word_state in E by lia.
  - by rewrite hash_word_state in E by lia.
Qed.

Let v := MkMonitor None [] 0 (fst <$> hold) 0 (Some o) None (default 0 hash).

Lemma exec_propagate s1 :
  inflatable -> lock_words s1 !! o = Some w -> monitors s1 !! m = Some (with_monitor_lock (Some t) v) ->
  propagate t m s1 = Ok (Some (o, w), put_monitor m (with_monitor_lock (Some t) (at_rest [] o hold hash)) s1).
Proof.
  intros Hinf Hw1 Hv. pose proof (Hids _ Ht) as Hid. unfold propagate.
  rewrite (bind_eq _ _ _ _ _ (get_monitor_eq _ _ _ Hv)).
  destruct Hinf as [(c & -> & Hc & ->) | (-> & h & -> & -> & Hh)]; cbn -[put_monitor get_word GetState].
  - rewrite bool_decide_true by done. rewrite M_bind_ret. eapply exec_bind; [done |].
    rewrite (bind_eq _ _ _ _ _ (get_word_eq _ _ _ Hw1)), thin_word_state by lia.
    rewrite ThinLockOwner_ok, ThinLockCount_ok by lia. rewrite bind_lift with (a := t) by done.
    rewrite bind_check by (by apply bool_decide_true). rewrite bind_lift with (a := c) by done.
    rewrite bind_set_monitor. unfold at_rest. simpl. replace (c + 1 - 1) with c by lia. done.
  - rewrite M_bind_ret. eapply exec_bind; [done |].
    rewrite (bind_eq _ _ _ _ _ (get_word_eq _ _ _ Hw1)), hash_word_state by lia.
    rewrite GetHashCode_ok by lia. rewrite bind_lift with (a := h) by done.
    rewrite bind_check by (by apply Z.eqb_refl). rewrite (put_monitor_same m); [done |]. rewrite Hv. done.
Qed.

Lemma solo_Inflate {B} (Q : B -> State -> Prop) k :
  inflatable -> monitors s !! m = None -> allow_new_monitors_ s = true ->
  solo (k tt) (with_list (m :: list_ s) (put_monitor m (at_rest [] o hold hash) (put_word o (fat_word m) s))) Q ->
  solo (Inflate t (fst <$> hold) o (default 0 hash) ≫= k) s Q.
Proof.
  intros Hinf Hfresh Hallow Hk. apply solo_bind. unfold Inflate.
  eapply (solo_awaiting _ _ _ m) with (s' := put_monitor m v s).
  { by apply bool_decide_true. }
  { destruct Hinf as [(c & _ & _ & ->) | (-> & _)]; [| done].
    cbn -[put_monitor]. rewrite bool_decide_true by done. done. }
  apply solo_bind. unfold Install. eapply solo_MutexLock; [look | done |].
  eapply solo_atomic; [apply exec_propagate; [done | done | look] |].
  cbn [fst snd]. rewrite FromMonitor_ok by done. eapply solo_local; [done |].
  eapply solo_Cas; [done |]. eapply solo_MutexUnlock; [look | done |]. apply solo_ret.
  eapply (solo_awaiting _ _ _ 0); [done.. |]. eapply solo_GetLockWord; [look |].
  unfold has_state. rewrite fat_word_state, bool_decide_true by done.
  eapply solo_eq; [exact Hk |]. unfold put_monitor, put_word. cbn. by rewrite !insert_insert_eq.
Qed.
End inflation.

(** ** Waiting *)

Section waiting.
Context {B : Type} (s : State) (Q : B -> State -> Prop).
Context (t : tid) (m : Z) (cs : list tid) (o : Z) (hash : option Z).

Lemma exec_start_wait s1 c i :
  monitors s1 !! m = Some (with_monitor_lock (Some t) (at_rest cs o (Some (t, c)) hash)) ->
  threads s1 !! t = Some (idle_thread i None) ->
  start_wait t m s1 =
    Ok (c - 1, put_monitor m (MkMonitor (Some t) cs 1 None 0 (Some o) (Some t) (default 0 hash)) s1).
Proof.
  intros Hv Hth. unfold start_wait, AppendToWaitSet.
  etrans; [exec |]. by tidy.
Qed.

Lemma exec_end_wait s1 c i :
  monitors s1 !! m = Some (MkMonitor (Some t) cs 1 (Some t) 0 (Some o) (Some t) (default 0 hash)) ->
  threads s1 !! t = Some (idle_thread i None) ->
  end_wait t m (c - 1) s1 = Ok (tt, put_monitor m (with_monitor_lock (Some t) (at_rest cs o (Some (t, c)) hash)) s1).
Proof.
  intros Hv Hth. unfold end_wait, RemoveFromWaitSet. etrans.
  { eapply exec_bind; [exec |]. eapply exec_bind; [exec |]. eapply exec_bind; [exec |]. fields.
    rewrite bool_decide_true by done. exec. }
  tidy. by rewrite put_thread_same.
Qed.
End waiting.

Section wait.
Context {B : Type} (s : State) (Q : B -> State -> Prop).
Context (t : tid) (m : Z) (cs : list tid) (o : Z) (hash : option Z) (i : bool).
Context (Hth : threads s !! t = Some (idle_thread i None)).

Lemma solo_Monitor_Wait fuel c ms ns k :
  fuel <> O -> monitors s !! m = Some (at_rest cs o (Some (t, c)) hash) ->
  (ms <? 0) || (ns <? 0) || (999999 <? ns) = false -> mutator_exclusive s = None -> t ∈ mutator_shared s ->
  (forall cs', solo (k tt) (put_thread t (idle_thread false (if i then Some InterruptedException else None))
     (put_monitor m (at_rest cs' o (Some (t, c)) hash) s)) Q) ->
  solo (Monitor_Wait fuel t m ms ns true kTimedWaiting ≫= k) s Q.
Proof.
  intros Hf Hv Hargs Hx Hin Hk. apply solo_bind. unfold Monitor_Wait.
  eapply solo_local; [done |]. do 2 go. fields. rewrite bool_decide_true by done. cbn [negb]. rewrite Hargs.
  set (why := if _ && _ then _ else _).
  assert (why <> kRunnable) as Hwhy by (subst why; by destruct (_ && (_ && _))).
  eapply solo_atomic; [eapply exec_start_wait; look |]. tidy.
  eapply solo_to_suspended; [look | done | done |]. tidy.
  eapply solo_sleep_on; [done | done | look | look | done | done |]. intros cs'. tidy.
  cbn [mutator_shared with_mutator_shared]. rewrite <- union_difference_singleton_L, shared_same by done.
  eapply solo_Lock_free; [done | look | done.. |]. tidy. go.
  eapply solo_atomic; [eapply exec_end_wait; look |]. tidy. go. destruct i.
  - do 3 go. apply solo_last. do 2 go. apply Hk.
  - go. apply Hk.
Qed.
End wait.

(** ** Operations *)

(** The program ends with this result and in these locks. *)
Definition returns {R} (p : prog State R) (s : State) (r : R) (A' : locks) (t : tid) (e : option exception)
    (H : gmap tid (list event)) : Prop :=
  solo p s (fun r' s' => r' = r /\ resting A' t e H s').

(** The lock of [o] is a monitor. *)
Definition fat (A : locks) (o m : Z) (s : State) : Prop :=
  lock_words s !! o = Some (fat_word m) /\ 0 <= m <= kMaxMonitorId /\
  exists cs, monitors s !! m = Some (at_rest cs o (holders A !! o) (hashes A !! o)).

(** Fields that locking does not touch. *)
Definition elsewhere (s s' : State) : Prop :=
  threads s' = threads s /\ allow_new_monitors_ s' = allow_new_monitors_ s /\
  mutator_exclusive s' = mutator_exclusive s /\ mutator_shared s' = mutator_shared s /\
  seed s' = seed s /\ history s' = history s.

Lemma threads_rep_elsewhere A A' t e H s s' :
  threads_rep A t e H s -> elsewhere s s' -> interrupted A' = interrupted A -> next_seed A' = next_seed A ->
  threads_rep A' t e H s'.
Proof.
  intros [] (E1 & E2 & E3 & E4 & E5 & E6) Ei En. split; rewrite ?E1, ?E2, ?E3, ?E4, ?E5, ?E6, ?Ei, ?En; done.
Qed.

Section operation.
Context (A : locks) (t : tid) (H : gmap tid (list event)) (s : State).
Context (Ht : t ∈ tids) (R : resting A t None H s).

Let th := idle_thread (bool_decide (t ∈ interrupted A)) None.

Lemma resting_thread : threads s !! t = Some th.
Proof. by rewrite (tr_threads _ _ _ _ _ _ (proj2 R)), !decide_True. Qed.

(** Only one thread changes. *)
Lemma resting_put A' u e :
  u ∈ tids -> u = t \/ e = None -> holders A' = holders A -> hashes A' = hashes A -> next_seed A' = next_seed A ->
  (forall x, x <> u -> x ∈ interrupted A' <-> x ∈ interrupted A) ->
  resting A' t e H (put_thread u (idle_thread (bool_decide (u ∈ interrupted A')) e) s).
Proof.
  intros Hu He E1 E2 E3 Ei. destruct R as [RL RT]. split.
  - by apply (locks_rep_same objects tids A A' s).
  - split; rewrite ?E3; try apply RT. intros x. simpl. rewrite lookup_insert, (tr_threads _ _ _ _ _ _ RT).
    case_decide as Hx.
    + subst x. rewrite decide_True by done. destruct He as [-> | ->]; by case_decide.
    + rewrite (bool_decide_ext (x ∈ interrupted A') (x ∈ interrupted A)) by auto.
      destruct (decide (x = t)); [| done]. destruct He; by subst.
Qed.

Lemma resting_throw e : resting A t (Some e) H (put_thread t (with_pending (Some e) th) s).
Proof. apply resting_put; auto. Qed.

Lemma returns_throw {B} (r : B) e k :
  k tt = mret r -> returns (atomic (throw t e) ≫= k) s r A t (Some e) H.
Proof.
  intros Hk. eapply solo_atomic; [apply exec_on_thread, resting_thread |]. rewrite Hk.
  apply solo_ret. split; [done | apply resting_throw].
Qed.

(** *** Locks by lock word *)

Lemma resting_word A' o w :
  o ∈ objects -> (forall m, 0 <= m <= kMaxMonitorId -> lock_words s !! o <> Some (fat_word m)) ->
  (forall o1, o1 <> o -> holders A' !! o1 = holders A !! o1) ->
  (forall o1, o1 <> o -> hashes A' !! o1 = hashes A !! o1) ->
  interrupted A' = interrupted A -> next_seed A' = next_seed A ->
  lock_rep tids (put_word o w s) o (holders A' !! o) (hashes A' !! o) ->
  resting A' t None H (put_word o w s).
Proof.
  intros Ho Hthin Hh1 Hh2 Ei En Hrep. destruct R as [RL RT]. split.
  - by apply (locks_rep_word objects tids A A' s _ o RL Ho Hh1 Hh2 w).
  - by apply (threads_rep_elsewhere A A' t None H s).
Qed.

Lemma resting_monitor A' o m cs :
  o ∈ objects -> fat A o m s ->
  (forall o1, o1 <> o -> holders A' !! o1 = holders A !! o1) ->
  (forall o1, o1 <> o -> hashes A' !! o1 = hashes A !! o1) ->
  interrupted A' = interrupted A -> next_seed A' = next_seed A ->
  hold_ok tids (holders A' !! o) -> hash_ok (hashes A' !! o) ->
  resting A' t None H (put_monitor m (at_rest cs o (holders A' !! o) (hashes A' !! o)) s).
Proof.
  intros Ho (Hw & Hm & cs0 & Hv) Hh1 Hh2 Ei En Hok1 Hok2. destruct R as [RL RT]. split.
  - by apply (locks_rep_monitor objects tids A A' s _ o RL Ho Hh1 Hh2 m cs0 cs).
  - by apply (threads_rep_elsewhere A A' t None H s).
Qed.

Lemma resting_Inflate {B} (Q : B -> State -> Prop) k A' o w :
  o ∈ objects -> lock_words s !! o = Some w -> inflatable t w (holders A' !! o) (hashes A' !! o) ->
  holders A' = holders A -> (forall o1, o1 <> o -> hashes A' !! o1 = hashes A !! o1) ->
  interrupted A' = interrupted A -> next_seed A' = next_seed A -> hash_ok (hashes A' !! o) ->
  (forall m s', resting A' t None H s' -> fat A' o m s' -> solo (k tt) s' Q) ->
  solo (Inflate t (fst <$> holders A' !! o) o (default 0 (hashes A' !! o)) ≫= k) s Q.
Proof.
  intros Ho Hw Hinf Eh Hh2 Ei En Hok Hk. destruct R as [RL RT].
  destruct (fresh_monitor _ _ RL) as (m & Hm & Hfree).
  apply (solo_Inflate s t m o w _ _ Ht Hm Hw); [done | done | by apply RT |]. apply (Hk m).
  - split; [| by apply (threads_rep_elsewhere A A' t None H s)].
    apply (locks_rep_inflate objects tids A A' s _ o RL Ho) with (m := m) (cs := []); try done.
    + by rewrite Eh.
    + intros m1 Hm1. rewrite Hw. intros [= ->]. pose proof (Hids _ Ht). by eapply inflatable_not_fat.
    + destruct Hinf as [(c & _ & Hc & ->) | [-> _]]; [| done]. split; [done |]. lock_word_consts. lia.
  - split; [look | split; [done |]]. exists []. look.
Qed.
End operation.

(** *** Operations on a monitor *)

Section on_monitor.
Context (A : locks) (t : tid) (H : gmap tid (list event)) (s : State).
Context (Ht : t ∈ tids) (R : resting A t None H s).

Let th := idle_thread (bool_decide (t ∈ interrupted A)) None.

Context (o m : Z) (Ho : o ∈ objects) (F : fat A o m s).

Lemma lock_ok : hold_ok tids (holders A !! o) /\ hash_ok (hashes A !! o).
Proof.
  destruct (lr_object _ _ _ _ (proj1 R) o Ho) as [| u c _ Hu Hc | |]; try done.
  split; [| done]. split; [done |]. lock_word_consts. lia.
Qed.

Lemma enter_fat fuel :
  fuel <> O -> enterable t (holders A !! o) ->
  returns (Lock fuel t m) s tt (with_holders (<[o := (t, from_option snd 0 (holders A !! o) + 1)]> (holders A)) A) t None H.
Proof.
  intros Hf Hent. pose proof F as (_ & _ & cs & Hv). apply solo_last.
  apply (solo_Lock s _ t m cs o _ _ Hv fuel _ Hf Hent), solo_ret. split; [done |].
  set (A' := with_holders _ A). pose proof (resting_monitor A t H s R A' o m cs) as HR.
  simpl in HR. rewrite lookup_insert_eq in HR. apply HR; try done.
  - intros o1 Hne. by rewrite lookup_insert_ne.
  - split; [done |]. destruct Hent as [-> | (c & -> & Hc)]; simpl; lia.
  - apply lock_ok.
Qed.

Lemma exit_fat c :
  holders A !! o = Some (t, c) ->
  returns (Unlock t m) s true
    (with_holders (if c =? 1 then delete o (holders A) else <[o := (t, c - 1)]> (holders A)) A) t None H.
Proof.
  intros Hh. pose proof F as (_ & _ & cs & Hv). destruct lock_ok as [Hok1 Hok2].
  eapply solo_mono; [by apply (solo_Unlock s t m cs o _ _ Hv c) |].
  intros r s' [-> (cs' & ->)]. split; [done |]. set (A' := with_holders _ A).
  assert (holders A' !! o = if c =? 1 then None else Some (t, c - 1)) as <-.
  { simpl. destruct (c =? 1); [apply lookup_delete_eq | apply lookup_insert_eq]. }
  apply (resting_monitor A t H s R A'); try done.
  - intros o1 Hne. simpl. destruct (c =? 1); [by rewrite lookup_delete_ne | by rewrite lookup_insert_ne].
  - simpl. rewrite Hh in Hok1. destruct (c =? 1) eqn:E; [by rewrite lookup_delete_eq |].
    rewrite lookup_insert_eq. split; [done |]. destruct Hok1. lia.
Qed.

Lemma exit_fat_fails :
  owns A t o = false -> returns (Unlock t m) s false A t (Some IllegalMonitorStateException) H.
Proof.
  intros Hno. pose proof F as (_ & _ & cs & Hv).
  eapply solo_mono; [apply (solo_Unlock_fails s t m cs o _ _ Hv) with (th := th); [| by apply (resting_thread A t H s)] |].
  - unfold owns in Hno. destruct (holders A !! o) as [[u c] |]; [| done]. simpl. intros [= ->]. by rewrite bool_decide_true in Hno.
  - intros r s' [-> ->]. split; [done | by apply resting_throw].
Qed.

Lemma owner_owns : bool_decide (fst <$> holders A !! o = Some t) = owns A t o.
Proof.
  unfold owns. destruct (holders A !! o) as [[u c] |]; [| done]. apply bool_decide_ext. simpl. naive_solver.
Qed.

Lemma wait_fat_fails fuel ms ns e :
  (if owns A t o then (ms <? 0) || (ns <? 0) || (999999 <? ns) = true /\ e = IllegalArgumentException
   else e = IllegalMonitorStateException) ->
  returns (Monitor_Wait fuel t m ms ns true kTimedWaiting) s tt A t (Some e) H.
Proof.
  intros He. pose proof F as (_ & _ & cs & Hv). pose proof (resting_thread A t H s Ht R) as Hth. unfold returns, Monitor_Wait.
  eapply solo_local; [done |]. do 2 go.
  rewrite owner_owns.
  destruct (owns A t o).
  - destruct He as [Hargs ->]. cbn [negb]. rewrite Hargs. go. rewrite put_monitor_same by done.
    by apply solo_last, returns_throw.
  - subst e. cbn [negb]. go. rewrite put_monitor_same by done. by apply solo_last, returns_throw.
Qed.

Lemma wait_fat fuel ms ns :
  fuel <> O -> owns A t o = true -> (ms <? 0) || (ns <? 0) || (999999 <? ns) = false ->
  returns (Monitor_Wait fuel t m ms ns true kTimedWaiting) s tt
    (with_interruptions (interrupted A ∖ {[t]}) A) t
    (if bool_decide (t ∈ interrupted A) then Some InterruptedException else None) H.
Proof.
  intros Hf Hown Hargs. pose proof F as (_ & _ & cs & Hv). unfold owns in Hown.
  destruct (holders A !! o) as [[u c] |] eqn:Hh; [apply bool_decide_eq_true in Hown as -> | done].
  apply solo_last. destruct R as [RL RT]. eapply solo_Monitor_Wait; [by apply (resting_thread A t H s) | done | exact Hv | done | apply RT | |].
  - by rewrite (tr_shared _ _ _ _ _ _ RT).
  - intros cs'. apply solo_ret. split; [done |].
    pose proof (resting_monitor A t H s R A o m cs' Ho F) as HR. destruct lock_ok as [Hok1 Hok2]. rewrite Hh in HR, Hok1.
    pose proof (resting_put A t H _ (HR ltac:(done) ltac:(done) eq_refl eq_refl Hok1 Hok2)
      (with_interruptions (interrupted A ∖ {[t]}) A) t
      (if bool_decide (t ∈ interrupted A) then Some InterruptedException else None)) as HP.
    simpl in HP. rewrite (bool_decide_false (t ∈ _ ∖ _)) in HP by set_solver. apply HP; auto. set_solver.
Qed.

Lemma notify_fat fuel all :
  fuel <> O ->
  returns (Monitor_Notify fuel t m all) s tt A t (if owns A t o then None else Some IllegalMonitorStateException) H.
Proof.
  intros Hf. pose proof F as (_ & _ & cs & Hv). pose proof (resting_thread A t H s Ht R) as Hth. unfold returns, Monitor_Notify. go.
  destruct fuel as [| fuel]; [done |].
  set (r := put_monitor m _ s). 
  eapply solo_atomic with (a := owns A t o) (s' := if owns A t o then r else put_thread t (with_pending (Some IllegalMonitorStateException) th) r).
  - eapply exec_bind; [exec |]. fields. rewrite owner_owns.
    destruct (owns A t o); exec.
  - subst r. destruct (owns A t o); tidy.
    + cbn [notify_loop]. unfold pop_waiter. apply solo_bind. do 2 go. apply solo_last. do 2 go. split; [done |]. by rewrite put_monitor_same.
    + apply solo_bind. go. apply solo_last. do 2 go. split; [done |]. rewrite put_monitor_same by done. by apply resting_throw.
Qed.
End on_monitor.

(** *** Hash codes *)

Lemma hash_from_range n : hash_from n <> 0 -> 0 < hash_from n <= kMaxHash.
Proof.
  unfold hash_from. lock_word_consts. rewrite Z.land_ones by lia. pose proof (Z.mod_pos_bound n (2 ^ 30)). lia.
Qed.

Lemma solo_Generate {B} fuel s (Q : B -> State -> Prop) k :
  fuel <> O -> hash_from (seed s) <> 0 ->
  solo (k (hash_from (seed s))) (with_seed (seed_after (seed s)) s) Q ->
  solo (GenerateIdentityHashCode fuel ≫= k) s Q.
Proof.
  intros Hf Hh Hk. destruct fuel as [| fuel]; [done |]. apply solo_bind. cbn [GenerateIdentityHashCode].
  eapply solo_atomic; [done |]. cbn beta zeta. fold (hash_from (seed s)) (seed_after (seed s)).
  rewrite (proj2 (Z.eqb_neq _ _)) by done. eapply solo_choosing with (a := true); [| exact Hk].
  eapply exec_bind; [done |]. by rewrite bool_decide_true.
Qed.

(** The locks after a hash code has been drawn but not yet given to an object, and after. *)
Definition drawn (A : locks) : locks := MkLocks (holders A) (hashes A) (interrupted A) (seed_after (next_seed A)).
Definition hashed (o : Z) (A : locks) : locks :=
  MkLocks (holders A) (<[o := hash_from (next_seed A)]> (hashes A)) (interrupted A) (seed_after (next_seed A)).

Section hash.
Context (A : locks) (t : tid) (H : gmap tid (list event)) (s : State).
Context (Ht : t ∈ tids) (R : resting A t None H s) (o : Z) (Ho : o ∈ objects).

Lemma resting_drawn : resting (drawn A) t None H (with_seed (seed_after (next_seed A)) s).
Proof. destruct R as [RL []]. split; [by apply (locks_rep_same objects tids A _ s) | by split]. Qed.

Lemma hash_fat_known fuel m h :
  fuel <> O -> fat A o m s -> hashes A !! o = Some h -> returns (Monitor_GetHashCode fuel m) s h A t None H.
Proof.
  intros Hf F Hh. pose proof F as (_ & _ & cs & Hv). destruct (lock_ok A t H s R o Ho) as [_ Hok].
  rewrite Hh in Hv, Hok. simpl in Hok. unfold returns, Monitor_GetHashCode. destruct fuel as [| fuel]; [done |].
  assert (HasHashCode (at_rest cs o (holders A !! o) (Some h)) = true) as Hhas.
  { unfold HasHashCode. simpl. rewrite (proj2 (Z.eqb_neq _ _)) by lia. done. }
  apply solo_bind. cbn [Monitor_GetHashCode_loop].
  eapply solo_atomic; [eapply exec_bind; [by apply get_monitor_eq | done] |]. rewrite Hhas. apply solo_ret.
  eapply solo_last, solo_atomic; [| by apply solo_ret].
  eapply exec_bind; [by apply get_monitor_eq |]. by rewrite bind_check.
Qed.

Lemma hash_fat_new fuel m :
  (1 < fuel)%nat -> fat A o m s -> hashes A !! o = None -> hash_from (next_seed A) <> 0 ->
  returns (Monitor_GetHashCode fuel m) s (hash_from (next_seed A)) (hashed o A) t None H.
Proof.
  intros Hf F Hh Hnz. pose proof F as (Hw & Hm & cs & Hv). rewrite Hh in Hv.
  destruct (lock_ok A t H s R o Ho) as [Hok _].
  destruct fuel as [| fuel]; [lia |]. unfold returns, Monitor_GetHashCode.
  apply solo_bind. cbn [Monitor_GetHashCode_loop].
  eapply solo_atomic; [eapply exec_bind; [by apply get_monitor_eq | done] |]. cbn.
  pose proof (tr_seed _ _ _ _ _ _ (proj2 R)) as Es.
  apply solo_Generate; rewrite ?Es; [lia | done |].
  set (v := at_rest cs o (holders A !! o) (hashes (hashed o A) !! o)).
  eapply solo_choosing with (a := true) (s' := put_monitor m v (with_seed (seed_after (next_seed A)) s)).
  { eapply exec_bind; [by apply get_monitor_eq |]. cbn. subst v. simpl. by rewrite lookup_insert_eq. }
  apply solo_ret. eapply solo_last, solo_atomic.
  - eapply exec_bind; [apply get_monitor_eq; look |]. rewrite bind_check; [done |].
    unfold HasHashCode. subst v. simpl. rewrite lookup_insert_eq. simpl. by rewrite (proj2 (Z.eqb_neq _ _)).
  - apply solo_ret. split; [subst v; simpl; by rewrite lookup_insert_eq |].
    apply (resting_monitor (drawn A) t H _ resting_drawn (hashed o A) o m cs); try done.
    + intros o1 Hne. simpl. by rewrite lookup_insert_ne.
    + simpl. rewrite lookup_insert_eq. by apply hash_from_range.
Qed.
End hash.
End uncontended.
