(* ===== verification/MonitorReturns.v ===== *)
(** * Sequences of operations

    Every operation that [call] allows returns what [call] says, whatever the
    representation of the locks; so does every sequence of operations of several
    threads. *)

From S2P Require Import Prelude Concurrency LockWord Monitor MonitorInvariant MonitorSteps MonitorLogic MonitorPrograms MonitorClient MonitorSolo MonitorSequential MonitorUncontended.

Section returns.
Context (objects : list Z) (tids : gset tid).
Context (Hids : forall t, t ∈ tids -> 0 < t <= kThinLockMaxOwner) (Hmany : zlength objects <= kMaxMonitorId).

Abbreviation resting := (resting objects tids).
Abbreviation returns := (returns objects tids).

Lemma returns_void (p : prog State unit) s A' t e H :
  returns p s tt A' t e H -> returns (_ ← p; mret Void) s Void A' t e H.
Proof. intros Hp. eapply solo_seq; [exact Hp |]. intros r s' [_ HR]. by apply solo_ret. Qed.

Section object.
Context (A : locks) (t : tid) (H : gmap tid (list event)) (s : State).
Context (Ht : t ∈ tids) (R : resting A t None H s) (o : Z) (Ho : o ∈ objects).

Let Hid : 0 < t <= kThinLockMaxOwner := Hids t Ht.

(** What a lock word that is not that of a monitor says. *)
Lemma not_fat w : lock_words s !! o = Some w -> GetState w <> kFatLocked ->
  forall m, 0 <= m <= kMaxMonitorId -> lock_words s !! o <> Some (fat_word m).
Proof. intros Hw Hst m Hm. rewrite Hw. intros [= ->]. by apply Hst, fat_word_state. Qed.

(** The representations of the lock. *)
Lemma lock_cases (P : Prop) :
  (lock_words s !! o = Some Unlocked -> holders A !! o = None -> hashes A !! o = None -> P) ->
  (forall u c, lock_words s !! o = Some (thin_word u c) -> u ∈ tids -> 0 <= c <= kThinLockMaxCount ->
    holders A !! o = Some (u, c + 1) -> hashes A !! o = None -> P) ->
  (forall h, lock_words s !! o = Some (hash_word h) -> 0 < h <= kMaxHash ->
    holders A !! o = None -> hashes A !! o = Some h -> P) ->
  (forall m, fat A o m s -> P) -> P.
Proof.
  unfold fat. intros H1 H2 H3 H4.
  destruct (lr_object _ _ _ _ (proj1 R) o Ho) as [| u c | h | m cs hold hash]; [by eauto.. |].
  apply (H4 m). eauto.
Qed.

(** *** Enter *)

Definition entered : locks :=
  with_holders (<[o := (t, from_option snd 0 (holders A !! o) + 1)]> (holders A)) A.

Lemma resting_thin c :
  (forall m, 0 <= m <= kMaxMonitorId -> lock_words s !! o <> Some (fat_word m)) ->
  hashes A !! o = None -> 0 <= c <= kThinLockMaxCount ->
  resting (with_holders (<[o := (t, c + 1)]> (holders A)) A) t None H (put_word o (thin_word t c) s).
Proof.
  intros Hthin Hh Hc. apply (resting_word objects tids A); try done.
  - intros o1 Hne. simpl. by rewrite lookup_insert_ne.
  - simpl. rewrite lookup_insert_eq, Hh. apply rep_thin; [apply lookup_insert_eq | done..].
Qed.

Lemma solo_Inflate_thin {B} (Q : B -> State -> Prop) k A' c h :
  lock_words s !! o = Some (thin_word t c) -> 0 <= c <= kThinLockMaxCount -> holders A !! o = Some (t, c + 1) ->
  holders A' = holders A -> (forall o1, o1 <> o -> hashes A' !! o1 = hashes A !! o1) ->
  interrupted A' = interrupted A -> next_seed A' = next_seed A ->
  hash_ok (hashes A' !! o) -> default 0 (hashes A' !! o) = h ->
  (forall m s', resting A' t None H s' -> fat A' o m s' -> solo (k tt) s' Q) ->
  solo (Inflate t (Some t) o h ≫= k) s Q.
Proof.
  intros Hw Hc Hh E1 E2 E3 E4 Hok <- Hk. assert (fst <$> holders A' !! o = Some t) as Eo by (by rewrite E1, Hh). rewrite <- Eo.
  apply (resting_Inflate objects tids Hids Hmany A t H s Ht R _ _ A' o (thin_word t c)); try done.
  left. exists c. by rewrite E1.
Qed.

Lemma solo_InflateThinLocked {B} fuel (Q : B -> State -> Prop) k c h :
  0 <= c <= kThinLockMaxCount -> solo (Inflate t (Some t) o h ≫= k) s Q ->
  solo (InflateThinLocked fuel t o (thin_word t c) h ≫= k) s Q.
Proof.
  intros Hc Hk. unfold InflateThinLocked. rewrite ThinLockOwner_ok by lia. simpl. by rewrite bool_decide_true.
Qed.

Lemma solo_Inflate_hash {B} (Q : B -> State -> Prop) k h :
  lock_words s !! o = Some (hash_word h) -> 0 < h <= kMaxHash -> holders A !! o = None -> hashes A !! o = Some h ->
  (forall m s', resting A t None H s' -> fat A o m s' -> solo (k tt) s' Q) ->
  solo (Inflate t None o h ≫= k) s Q.
Proof.
  intros Hw Hh Eh Ec Hk. pose proof (resting_Inflate objects tids Hids Hmany A t H s Ht R Q k A o (hash_word h)) as HI.
  rewrite Eh, Ec in HI. apply HI; try done. right. split; [done |]. by exists h.
Qed.
End object.

Section enter.
Context (A : locks) (t : tid) (H : gmap tid (list event)) (s : State).
Context (Ht : t ∈ tids) (R : resting A t None H s) (o : Z) (Ho : o ∈ objects).

Lemma enter_loop_fat fuel cc m :
  (1 < fuel)%nat -> fat A o m s -> enterable t (holders A !! o) ->
  returns (MonitorEnter_loop fuel t o cc) s tt (entered A t o) t None H.
Proof.
  intros Hf F Hent. destruct fuel as [| fuel]; [lia |]. cbn [MonitorEnter_loop]. pose proof F as (Hw & Hm & _).
  eapply solo_GetLockWord; [done |]. rewrite fat_word_state, FatLockMonitor_ok by done.
  eapply solo_local; [done |]. eapply enter_fat; eauto. lia.
Qed.
End enter.

Section operations.
Context (A : locks) (t : tid) (H : gmap tid (list event)) (s : State).
Context (Ht : t ∈ tids) (R : resting A t None H s) (o : Z) (Ho : o ∈ objects).

Let Hid : 0 < t <= kThinLockMaxOwner := Hids t Ht.

Lemma enter_loop_returns fuel cc :
  (2 < fuel)%nat -> enterable t (holders A !! o) ->
  returns (MonitorEnter_loop fuel t o cc) s tt (entered A t o) t None H.
Proof.
  intros Hf Hent. apply (lock_cases A t H s R o Ho); [intros Hw Eh Ec | intros u c Hw Hu Hc Eh Ec | intros h Hw Hh Eh Ec | intros m F];
    [.. | by apply (enter_loop_fat A t H s Ht R o Ho _ _ m); [lia | |]];
    (destruct fuel as [| fuel]; [lia |]; cbn [MonitorEnter_loop]; eapply solo_GetLockWord; [done |]).
  - change (GetState Unlocked) with kUnlocked. cbn iota. unfold entered. rewrite Eh.
    rewrite FromThinLockId_ok by (lock_word_consts; lia). eapply solo_local; [done |].
    eapply solo_Cas; [done |]. apply solo_ret. split; [done |].
    apply (resting_thin A t H s Ht R o Ho 0); [by apply (not_fat s o _ Hw) | done | lock_word_consts; lia].
  - rewrite Eh in Hent. assert (u = t) as -> by (destruct Hent as [| (? & ? & _)]; congruence).
    rewrite thin_word_state, ThinLockOwner_ok, ThinLockCount_ok by lia. eapply solo_local; [done |].
    rewrite bool_decide_true by done. eapply solo_local; [done |]. cbn zeta.
    unfold uint32. rewrite wrapU_id by (unfold fitsU; lock_word_consts; lia).
    destruct (c + 1 <=? kThinLockMaxCount) eqn:Ecnt.
    + rewrite FromThinLockId_ok by lia. eapply solo_local; [done |].
      eapply solo_last, solo_SetLockWord; [done |]. apply solo_ret. split; [done |]. unfold entered. rewrite Eh.
      apply (resting_thin A t H s Ht R o Ho (c + 1)); [| done | lia].
      apply (not_fat s o _ Hw). by rewrite thin_word_state by lia.
    + apply solo_InflateThinLocked; [done.. |]. eapply (solo_Inflate_thin A t H s Ht R o Ho) with (A' := A); try done; [by rewrite Ec.. |].
      intros m s' R' F'. rewrite <- Eh in Hent. by apply (enter_loop_fat A t H s' Ht R' o Ho _ _ m); [lia | |].
  - rewrite hash_word_state, GetHashCode_ok by lia. eapply solo_local; [done |].
    apply (solo_Inflate_hash A t H s Ht R o Ho); [done.. |].
    intros m s' R' F'. by apply (enter_loop_fat A t H s' Ht R' o Ho _ _ m); [lia | |].
Qed.

Lemma enter_returns fuel A' r e :
  (2 < fuel)%nat -> call tids A t (Enter o) = Some (A', r, e) -> returns (perform fuel t (Enter o)) s r A' t e H.
Proof.
  intros Hf Hcall. destruct (lock_ok objects tids A t H s R o Ho) as [Hok _].
  assert (enterable t (holders A !! o) /\ A' = entered A t o /\ r = Void /\ e = None) as (Hent & -> & -> & ->).
  { simpl in Hcall. unfold entered, enterable. destruct (holders A !! o) as [[u c] |].
    - destruct (bool_decide (u = t) && (c <? 2 ^ 31 - 1)) eqn:E; [| done]. injection Hcall as <- <- <-.
      apply andb_true_iff in E as [->%bool_decide_eq_true E%Z.ltb_lt]. split_and!; try done.
      right. exists c. destruct Hok. split; [done | lia].
    - injection Hcall as <- <- <-. auto. }
  by apply returns_void, enter_loop_returns.
Qed.

Lemma returns_exit A' r e b :
  returns (MonitorExit t o) s b A' t e H -> r = Flag b -> returns (b ← MonitorExit t o; mret (Flag b)) s r A' t e H.
Proof. intros Hp ->. eapply solo_seq; [exact Hp |]. intros r s' [-> HR]. by apply solo_ret. Qed.

Lemma exit_thin c :
  lock_words s !! o = Some (thin_word t c) -> 0 <= c <= kThinLockMaxCount -> hashes A !! o = None ->
  returns (MonitorExit t o) s true
    (with_holders (if c + 1 =? 1 then delete o (holders A) else <[o := (t, c + 1 - 1)]> (holders A)) A) t None H.
Proof.
  intros Hw Hc Ec. eapply solo_GetLockWord; [done |].
  rewrite thin_word_state, ThinLockOwner_ok, ThinLockCount_ok by lia. eapply solo_local; [done |].
  rewrite bool_decide_false by naive_solver. eapply solo_local; [done |].
  assert (forall m, 0 <= m <= kMaxMonitorId -> lock_words s !! o <> Some (fat_word m)) as Hthin.
  { apply (not_fat s o _ Hw). by rewrite thin_word_state by lia. }
  replace (c + 1 =? 1) with (c =? 0) by lia. destruct (c =? 0) eqn:E; cbn [negb]; apply solo_bind.
  - eapply solo_last, solo_SetLockWord; [done |]. do 2 apply solo_ret. split; [done |].
    apply (resting_word objects tids A); try done.
    + intros o1 Hne. simpl. by rewrite lookup_delete_ne.
    + simpl. rewrite lookup_delete_eq, Ec. apply rep_unlocked. apply lookup_insert_eq.
  - rewrite FromThinLockId_ok by lia. eapply solo_local; [done |].
    eapply solo_last, solo_SetLockWord; [done |]. do 2 apply solo_ret. split; [done |].
    replace (c + 1 - 1) with (c - 1 + 1) by lia. apply (resting_thin A t H s Ht R o Ho (c - 1)); [done | done | lia].
Qed.

Lemma exit_fails : holders A !! o = None -> returns (MonitorExit t o) s false A t (Some IllegalMonitorStateException) H.
Proof.
  intros Eh.
  apply (lock_cases A t H s R o Ho); [intros Hw _ _ | intros u c _ _ _ Eh' | intros h Hw Hh _ _ | intros m F].
  - eapply solo_GetLockWord; [done |]. by apply returns_throw.
  - congruence.
  - eapply solo_GetLockWord; [done |]. rewrite hash_word_state by lia. by apply returns_throw.
  - pose proof F as (Hw & Hm & _). eapply solo_GetLockWord; [done |].
    rewrite fat_word_state, FatLockMonitor_ok by done. eapply solo_local; [done |].
    eapply exit_fat_fails; eauto. unfold owns. by rewrite Eh.
Qed.

Lemma exit_returns fuel A' r e :
  call tids A t (Exit o) = Some (A', r, e) -> returns (perform fuel t (Exit o)) s r A' t e H.
Proof.
  intros Hcall. simpl in Hcall. unfold perform. destruct (holders A !! o) as [[u c] |] eqn:Eh.
  - case_bool_decide; [subst u | done]. injection Hcall as <- <- <-. apply returns_exit with true; [| done].
    apply (lock_cases A t H s R o Ho); [congruence | intros u c' Hw Hu Hc Eh' Ec | congruence | intros m F].
    + rewrite Eh in Eh'. injection Eh' as <- ->. by apply exit_thin.
    + pose proof F as (Hw & Hm & _). eapply solo_GetLockWord; [done |].
      rewrite fat_word_state, FatLockMonitor_ok by done. eapply solo_local; [done |]. by eapply exit_fat.
  - injection Hcall as <- <- <-. apply returns_exit with false; [by apply exit_fails | done].
Qed.

(** *** Wait and notify *)

Lemma notify_returns fuel (all : bool) :
  fuel <> O ->
  returns (DoNotify fuel t o all) s tt A t (if owns A t o then None else Some IllegalMonitorStateException) H.
Proof.
  intros Hf. unfold returns, DoNotify.
  apply (lock_cases A t H s R o Ho); [intros Hw Eh Ec | intros u c Hw Hu Hc Eh Ec | intros h Hw Hh Eh Ec | intros m F].
  - eapply solo_GetLockWord; [done |]. unfold owns. rewrite Eh. by apply solo_last, returns_throw.
  - eapply solo_GetLockWord; [done |]. pose proof (Hids u Hu).
    rewrite thin_word_state, ThinLockOwner_ok by lia. eapply solo_local; [done |]. unfold owns. rewrite Eh.
    destruct (decide (u = t)) as [-> | Hne].
    + rewrite bool_decide_false, bool_decide_true by naive_solver. by apply solo_ret.
    + rewrite bool_decide_true, bool_decide_false by done. by apply solo_last, returns_throw.
  - eapply solo_GetLockWord; [done |]. rewrite hash_word_state by lia. unfold owns. rewrite Eh. by apply solo_last, returns_throw.
  - pose proof F as (Hw & Hm & _). eapply solo_GetLockWord; [done |].
    rewrite fat_word_state, FatLockMonitor_ok by done. eapply solo_local; [done |]. by eapply notify_fat.
Qed.
End operations.

Section waiting.
Context (A : locks) (t : tid) (H : gmap tid (list event)).
Context (Ht : t ∈ tids) (o : Z) (Ho : o ∈ objects).

Lemma wait_monitor_returns fuel s m ms ns A' r e :
  resting A t None H s -> fat A o m s -> fuel <> O -> call tids A t (WaitOn o ms ns) = Some (A', r, e) ->
  returns (Monitor_Wait fuel t m ms ns true kTimedWaiting) s tt A' t e H /\ r = Void.
Proof.
  intros R F Hf Hcall. simpl in Hcall. destruct (owns A t o) eqn:Hown.
  - destruct ((ms <? 0) || (ns <? 0) || (999999 <? ns)) eqn:Hargs.
    { injection Hcall as <- <- <-. split; [| done]. eapply wait_fat_fails; eauto. by rewrite Hown. }
    pose proof (wait_fat objects tids Hids Hmany A t H s Ht R o m Ho F fuel ms ns Hf Hown Hargs) as Hret.
    destruct (bool_decide (t ∈ interrupted A)) eqn:Hi.
    + injection Hcall as <- <- <-. by split.
    + destruct ((ms =? 0) && (ns =? 0)); [done |]. injection Hcall as <- <- <-. split; [| done].
      apply bool_decide_eq_false in Hi. rewrite difference_disjoint_L in Hret by set_solver. by destruct A.
  - injection Hcall as <- <- <-. split; [| done]. eapply wait_fat_fails; eauto. by rewrite Hown.
Qed.

Lemma wait_loop_fat fuel s m ms ns A' r e :
  resting A t None H s -> fat A o m s -> (1 < fuel)%nat -> call tids A t (WaitOn o ms ns) = Some (A', r, e) ->
  returns (Wait fuel t o ms ns true kTimedWaiting) s tt A' t e H.
Proof.
  intros R F Hf Hcall. destruct fuel as [| fuel]; [lia |]. pose proof F as (Hw & Hm & _). cbn [Wait].
  eapply solo_GetLockWord; [done |]. rewrite fat_word_state, FatLockMonitor_ok by done. eapply solo_local; [done |].
  eapply wait_monitor_returns; eauto. lia.
Qed.

Lemma wait_returns fuel s ms ns A' r e :
  resting A t None H s -> (2 < fuel)%nat -> call tids A t (WaitOn o ms ns) = Some (A', r, e) ->
  returns (perform fuel t (WaitOn o ms ns)) s r A' t e H.
Proof.
  intros R Hf Hcall. assert (r = Void) as ->.
  { simpl in Hcall. repeat case_match; by simplify_eq. }
  apply returns_void. assert (Hno : owns A t o = false -> A' = A /\ e = Some IllegalMonitorStateException).
  { intros E. simpl in Hcall. rewrite E in Hcall. by simplify_eq. }
  apply (lock_cases A t H s R o Ho); [intros Hw Eh Ec | intros u c Hw Hu Hc Eh Ec | intros h Hw Hh Eh Ec | intros m F];
    [.. | eapply wait_loop_fat; eauto; lia];
    (destruct fuel as [| fuel]; [lia |]; cbn [Wait]; eapply solo_GetLockWord; [done |]).
  - destruct Hno as [-> ->]; [unfold owns; by rewrite Eh |]. by apply solo_last, returns_throw.
  - pose proof (Hids u Hu). rewrite thin_word_state, ThinLockOwner_ok by lia. eapply solo_local; [done |].
    destruct (decide (u = t)) as [-> | Hne].
    + rewrite bool_decide_false by naive_solver.
      eapply (solo_Inflate_thin A t H s Ht R o Ho) with (A' := A); try done; [by rewrite Ec.. |].
      intros m s' R' F'. eapply wait_loop_fat; eauto. lia.
    + destruct Hno as [-> ->]; [unfold owns; rewrite Eh; by rewrite bool_decide_false |].
      rewrite bool_decide_true by done. by apply solo_last, returns_throw.
  - rewrite hash_word_state by lia. destruct Hno as [-> ->]; [unfold owns; by rewrite Eh |]. by apply solo_last, returns_throw.
Qed.
End waiting.

(** *** Hash codes *)

Section hash_codes.
Context (A : locks) (t : tid) (H : gmap tid (list event)) (s : State).
Context (Ht : t ∈ tids) (R : resting A t None H s) (o : Z) (Ho : o ∈ objects).

Let Hid : 0 < t <= kThinLockMaxOwner := Hids t Ht.

Lemma hash_known fuel h :
  (1 < fuel)%nat -> hashes A !! o = Some h -> returns (IdentityHashCode fuel t o) s h A t None H.
Proof.
  intros Hf Hh. destruct fuel as [| fuel]; [lia |]. cbn [IdentityHashCode].
  apply (lock_cases A t H s R o Ho); [congruence | congruence | intros h' Hw Hrange Eh Ec | intros m F].
  - eapply solo_GetLockWord; [done |]. rewrite hash_word_state, GetHashCode_ok by lia.
    assert (h' = h) as -> by congruence. by apply solo_last, solo_ret.
  - pose proof F as (Hw & Hm & _). eapply solo_GetLockWord; [done |].
    rewrite fat_word_state, FatLockMonitor_ok by done. eapply solo_local; [done |].
    eapply hash_fat_known; eauto. lia.
Qed.
End hash_codes.

Section new_hash_code.
Context (A : locks) (t : tid) (H : gmap tid (list event)) (s : State).
Context (Ht : t ∈ tids) (R : resting A t None H s) (o : Z) (Ho : o ∈ objects).
Context (Hnone : hashes A !! o = None) (Hnz : hash_from (next_seed A) <> 0).

Let Hid : 0 < t <= kThinLockMaxOwner := Hids t Ht.
Let h := hash_from (next_seed A).
Let s1 := with_seed (seed_after (next_seed A)) s.

Lemma solo_draw {B} fuel (Q : B -> State -> Prop) k :
  fuel <> O -> solo (k h) s1 Q -> solo (GenerateIdentityHashCode fuel ≫= k) s Q.
Proof.
  intros Hf Hk. pose proof (tr_seed _ _ _ _ _ _ (proj2 R)) as Es. apply solo_Generate; rewrite ?Es; done.
Qed.

Lemma hash_new fuel :
  (2 < fuel)%nat -> owns A t o || bool_decide (holders A !! o = None) = true ->
  returns (IdentityHashCode fuel t o) s h (hashed o A) t None H.
Proof.
  intros Hf Hfree. destruct fuel as [| fuel]; [lia |]. cbn [IdentityHashCode].
  pose proof (resting_drawn objects tids A t H s R) as RD. assert (0 < h <= kMaxHash) as Hrange by (by eapply hash_from_range).
  assert (hashes (hashed o A) !! o = Some h) as Hhash by apply lookup_insert_eq.
  assert (forall o1, o1 <> o -> hashes (hashed o A) !! o1 = hashes A !! o1) as Hothers.
  { intros o1 Hne. simpl. by rewrite lookup_insert_ne. }
  apply (lock_cases A t H s R o Ho); [intros Hw Eh Ec | intros u c Hw Hu Hc Eh Ec | intros h' _ _ _ Ec | intros m F].
  - eapply solo_GetLockWord; [done |]. change (GetState Unlocked) with kUnlocked. cbn iota. apply solo_draw; [lia |].
    rewrite FromHashCode_ok by lia. eapply solo_local; [done |].
    unfold has_state. rewrite hash_word_state, bool_decide_true, GetHashCode_ok by (done || lia).
    eapply solo_local; [done |]. eapply solo_Cas; [done |]. apply solo_last, solo_ret. split; [done |].
    apply (resting_word objects tids (drawn A) t H s1 RD); try done.
    + by apply (not_fat s1 o Unlocked).
    + rewrite Hhash. simpl. rewrite Eh. apply rep_hash; [apply lookup_insert_eq | done].
  - assert (u = t) as ->. { unfold owns in Hfree. rewrite Eh in Hfree. by do 2 case_bool_decide. }
    eapply solo_GetLockWord; [done |]. rewrite thin_word_state by lia. apply solo_draw; [lia |].
    apply solo_InflateThinLocked; [done.. |].
    eapply (solo_Inflate_thin (drawn A) t H s1 Ht RD o Ho) with (A' := hashed o A); try done; [by rewrite Hhash.. |].
    intros m s' R' F'. apply (hash_known (hashed o A) t H s'); [done.. | lia | done].
  - congruence.
  - pose proof F as (Hw & Hm & _). eapply solo_GetLockWord; [done |].
    rewrite fat_word_state, FatLockMonitor_ok by done. eapply solo_local; [done |].
    eapply hash_fat_new; eauto. lia.
Qed.
End new_hash_code.

Lemma hash_returns A t H s o fuel A' r e :
  t ∈ tids -> resting A t None H s -> o ∈ objects -> (2 < fuel)%nat ->
  call tids A t (HashOf o) = Some (A', r, e) -> returns (perform fuel t (HashOf o)) s r A' t e H.
Proof.
  intros Ht R Ho Hf Hcall. unfold perform.
  assert (Hword : forall h A1, returns (IdentityHashCode fuel t o) s h A1 t None H ->
    returns (h ← IdentityHashCode fuel t o; mret (Word h)) s (Word h) A1 t None H).
  { intros h A1 Hret. eapply solo_seq; [exact Hret |]. intros h1 s1 [-> HR]. by apply solo_ret. }
  simpl in Hcall. destruct (hashes A !! o) as [h |] eqn:Hh.
  - injection Hcall as <- <- <-. apply Hword, hash_known; (done || lia).
  - destruct (hash_from (next_seed A) =? 0) eqn:E; [done |]. apply Z.eqb_neq in E.
    destruct (owns A t o || bool_decide (holders A !! o = None)) eqn:Hfree; [| done].
    injection Hcall as <- <- <-. apply Hword, hash_new; done.
Qed.

(** *** Threads *)

Section threads.
Context (A : locks) (t : tid) (H : gmap tid (list event)) (s : State).
Context (Ht : t ∈ tids) (R : resting A t None H s).

Lemma interrupt_returns fuel u :
  u ∈ tids -> returns (perform fuel t (InterruptThread u)) s Void (with_interruptions ({[u]} ∪ interrupted A) A) t None H.
Proof.
  intros Hu. apply returns_void. unfold returns, Interrupt.
  set (i := bool_decide (u ∈ interrupted A)).
  assert (threads s !! u = Some (idle_thread i None)) as Hth.
  { rewrite (tr_threads _ _ _ _ _ _ (proj2 R)), decide_True by done. by case_decide. }
  go. eapply solo_atomic with (a := tt) (s' := put_thread u (with_wait_mutex (Some t) (idle_thread true None)) s).
  - eapply exec_bind; [exec |]. fields. destruct i; [done |]. unfold NotifyLocked. etrans.
    { eapply exec_bind; [exec |]. eapply exec_bind; [| exec]. eapply exec_bind; [exec |]. fields. by rewrite bool_decide_true. }
    by tidy.
  - apply solo_last. tidy. do 2 go. split; [done |].
    pose proof (resting_put objects tids A t H s R (with_interruptions ({[u]} ∪ interrupted A) A) u None) as HR.
    simpl in HR. rewrite bool_decide_true in HR by set_solver. apply HR; auto. set_solver.
Qed.

Lemma suspend_check_returns fuel : fuel <> O -> returns (perform fuel t SuspendCheck) s Void A t None H.
Proof.
  intros Hf. apply returns_void. unfold returns, FullSuspendCheck.
  pose proof (resting_thread objects tids A t H s Ht R) as Hth.
  eapply solo_to_suspended; [done | done | done |]. tidy. apply solo_last.
  eapply solo_to_runnable; [done | look | done | done | by apply R |]. tidy. apply solo_ret. split; [done |].
  cbn [mutator_shared with_mutator_shared]. rewrite <- union_difference_singleton_L, shared_same; [by rewrite put_thread_same |].
  by rewrite (tr_shared _ _ _ _ _ _ (proj2 R)).
Qed.
End threads.

(** *** Deflation *)

(** Every monitor is the one of an object, and at rest. *)
Lemma monitor_at_rest A s m v :
  locks_rep objects tids A s -> monitors s !! m = Some v ->
  exists o cs, o ∈ objects /\ lock_words s !! o = Some (fat_word m) /\ 0 <= m <= kMaxMonitorId /\
    v = at_rest cs o (holders A !! o) (hashes A !! o) /\ hold_ok tids (holders A !! o) /\ hash_ok (hashes A !! o).
Proof.
  intros RL Hv. destruct (lr_monitor _ _ _ _ RL _ _ Hv) as (Hm & o & Ho & Hobj & Hw).
  assert (GetState (fat_word m) = kFatLocked) as E by (by apply fat_word_state).
  pose proof (lr_object _ _ _ _ RL o Ho) as Hrep.
  remember (holders A !! o) as hold0 eqn:Eh. remember (hashes A !! o) as hash0 eqn:Eg.
  destruct Hrep as [Hw' | u c Hw' Hu Hc | h Hw' Hh | m' cs hold hash Hw' Hm' Hv' Hok1 Hok2];
    rewrite Hw in Hw'; injection Hw' as Hw'.
  - by rewrite Hw' in E.
  - pose proof (Hids u Hu). by rewrite Hw', thin_word_state in E by lia.
  - by rewrite Hw', hash_word_state in E by lia.
  - assert (m' = m) as -> by (unfold fat_word in Hw'; lia). assert (v = at_rest cs o hold hash) as -> by congruence.
    exists o, cs. by rewrite <- Eh, <- Eg.
Qed.

(** The lock word that replaces a monitor at rest, if there is one. *)
Definition deflated_word (hold : option (tid * Z)) (hash : option Z) : option Z :=
  match hold, hash with
  | None, None => Some Unlocked
  | None, Some h => Some (hash_word h)
  | Some (u, c), None => if c - 1 <=? kThinLockMaxCount then Some (thin_word u (c - 1)) else None
  | Some _, Some _ => None
  end.

Lemma exec_deflate t o m cs hold hash s w0 :
  monitors s !! m = Some (with_monitor_lock (Some t) (at_rest cs o hold hash)) -> lock_words s !! o = Some w0 ->
  hold_ok tids hold -> hash_ok hash ->
  deflate o m s = match deflated_word hold hash with
                  | None => Ok (false, s)
                  | Some w => Ok (true, put_monitor m (with_obj None (with_monitor_lock (Some t) (at_rest cs o hold hash)))
                                          (put_word o w s))
                  end.
Proof.
  intros Hv Hw Hok1 Hok2. unfold deflate. rewrite (bind_eq _ _ _ _ _ (get_monitor_eq _ _ _ Hv)). fields. cbn [Z.ltb Z.compare].
  assert (HasHashCode (with_monitor_lock (Some t) (at_rest cs o hold hash)) = bool_decide (hash <> None)) as ->.
  { unfold HasHashCode. fields. destruct hash as [h |]; simpl in *; [| done]. by rewrite (proj2 (Z.eqb_neq _ _)) by lia. }
  destruct hold as [[u c] |], hash as [h |]; simpl in Hok1, Hok2; cbn [fst snd deflated_word]; fields.
  - done.
  - rewrite bool_decide_false by naive_solver. destruct Hok1 as [Hu Hc]. pose proof (Hids u Hu).
    replace (kThinLockMaxCount <? c - 1) with (negb (c - 1 <=? kThinLockMaxCount)) by lia.
    destruct (c - 1 <=? kThinLockMaxCount) eqn:E; [| done]. cbn [negb].
    rewrite FromThinLockId_ok by lia. eapply exec_bind; [by eapply exec_bind |]. cbn beta iota.
    by rewrite (bind_eq _ _ _ _ _ (exec_set_word _ _ _ _ Hw)).
  - rewrite bool_decide_true by done. rewrite FromHashCode_ok by lia. eapply exec_bind; [by eapply exec_bind |]. cbn beta iota.
    by rewrite (bind_eq _ _ _ _ _ (exec_set_word _ _ _ _ Hw)).
  - rewrite bool_decide_false by naive_solver. eapply exec_bind; [done |]. cbn beta iota.
    by rewrite (bind_eq _ _ _ _ _ (exec_set_word _ _ _ _ Hw)).
Qed.

Section sweep.
Context (A : locks) (t : tid) (Q : unit -> State -> Prop).

(** What a step of the sweep leaves alone. *)
Definition swept (m : Z) (s s' : State) : Prop :=
  locks_rep objects tids A s' /\ elsewhere s s' /\ forall m', m' ∈ list_ s -> m' <> m -> m' ∈ list_ s'.

Lemma deflated_rep s o w hold hash :
  deflated_word hold hash = Some w -> hold_ok tids hold -> hash_ok hash ->
  lock_words s !! o = Some w -> lock_rep tids s o hold hash /\ GetState w <> kFatLocked.
Proof.
  intros Hw Hok1 Hok2 Hword. unfold deflated_word in Hw. destruct hold as [[u c] |], hash as [h |]; simpl in *.
  - done.
  - destruct Hok1 as [Hu Hc]. pose proof (Hids u Hu). destruct (c - 1 <=? kThinLockMaxCount) eqn:E; [| done]. injection Hw as <-.
    split; [| by rewrite thin_word_state by lia]. replace c with (c - 1 + 1) at 1 by lia. apply rep_thin; [done | done | lia].
  - injection Hw as <-. split; [by apply rep_hash | by rewrite hash_word_state by lia].
  - injection Hw as <-. by split; [apply rep_unlocked |].
Qed.

Section one.
Context (s : State) (m o : Z) (cs : list tid) (RL : locks_rep objects tids A s) (Ho : o ∈ objects).
Context (Hw : lock_words s !! o = Some (fat_word m)) (Hm : 0 <= m <= kMaxMonitorId).
Context (Hok1 : hold_ok tids (holders A !! o)) (Hok2 : hash_ok (hashes A !! o)).

Let v := at_rest cs o (holders A !! o) (hashes A !! o).
Context (Hv : monitors s !! m = Some v).

Lemma callback_returns :
  solo (MonitorDeflateCallback t o) s (fun r s' =>
    match deflated_word (holders A !! o) (hashes A !! o) with
    | None => r = Some o /\ s' = s
    | Some w => r = None /\ s' = put_monitor m (with_obj None v) (put_word o w s)
    end).
Proof.
  unfold MonitorDeflateCallback, Deflate. apply solo_bind. go.
  unfold has_state at 1. rewrite fat_word_state, bool_decide_true, FatLockMonitor_ok by done.
  eapply solo_local; [done |]. go.
  pose proof (exec_deflate t o m cs _ _ (put_monitor m (with_monitor_lock (Some t) v) s)
    (fat_word m) (lookup_insert_eq _ _ _) Hw Hok1 Hok2) as Hd.
  destruct (deflated_word (holders A !! o) (hashes A !! o)) as [w |] eqn:Ew; (eapply solo_atomic; [exact Hd |]); cbn beta iota.
  - do 3 go. unfold has_state.
    destruct (deflated_rep (put_word o w s) o w _ _ Ew Hok1 Hok2) as [_ Hst]; [apply lookup_insert_eq |].
    rewrite bool_decide_false by done. eapply solo_local; [done |]. apply solo_ret. split; [done |].
    change (put_word o w (put_monitor m ?x s)) with (put_monitor m x (put_word o w s)). by tidy.
  - do 3 go. split; [done |]. by rewrite put_monitor_same.
Qed.

(** The monitor is freed and taken off the list, when the lock word replaces it. *)
Lemma swept_deflated w :
  deflated_word (holders A !! o) (hashes A !! o) = Some w ->
  swept m s (with_list (filter (fun x => x <> m) (list_ s)) (with_monitors (delete m (monitors s)) (put_word o w s))).
Proof.
  intros Ew. set (s' := with_list _ _).
  destruct (deflated_rep s' o w _ _ Ew Hok1 Hok2) as [Hrep _]; [apply lookup_insert_eq |]. split_and!; [| done |].
  - by apply (locks_rep_deflate objects tids A A s s' o RL Ho ltac:(done) ltac:(done) m cs w).
  - intros m' Hin Hne. by apply list_elem_of_filter.
Qed.
End one.

Lemma solo_sweep_one s m rest :
  locks_rep objects tids A s -> m ∈ list_ s ->
  (forall s', swept m s s' -> solo (SweepMonitorList (MonitorDeflateCallback t) rest) s' Q) ->
  solo (SweepMonitorList (MonitorDeflateCallback t) (m :: rest)) s Q.
Proof.
  intros RL Hin Hrest. pose proof (proj1 (lr_list _ _ _ _ RL m) Hin) as [v Hv].
  destruct (monitor_at_rest A s m v RL Hv) as (o & cs & Ho & Hw & Hm & -> & Hok1 & Hok2).
  cbn [SweepMonitorList]. go. eapply solo_seq; [by eapply callback_returns |]. intros r s1 Hr.
  destruct (deflated_word (holders A !! o) (hashes A !! o)) as [w |] eqn:Ew; destruct Hr as [-> ->].
  - eapply solo_atomic; [| apply Hrest; by eapply swept_deflated].
    etrans; [unfold release_monitor; exec |]. cbn. by rewrite delete_insert_eq.
  - go. rewrite put_monitor_same by done. apply Hrest. by split_and!.
Qed.

Lemma elsewhere_trans s s1 s2 : elsewhere s s1 -> elsewhere s1 s2 -> elsewhere s s2.
Proof. unfold elsewhere. intros (? & ? & ? & ? & ? & ?) (? & ? & ? & ? & ? & ?). split_and!; congruence. Qed.

Lemma solo_sweep s l :
  locks_rep objects tids A s -> NoDup l -> (forall m, m ∈ l -> m ∈ list_ s) ->
  (forall s', locks_rep objects tids A s' -> elsewhere s s' -> Q tt s') ->
  solo (SweepMonitorList (MonitorDeflateCallback t) l) s Q.
Proof.
  revert s. induction l as [| m l IH]; intros s RL Hnd Hin HQ; [by apply solo_ret, HQ |].
  apply NoDup_cons in Hnd as [Hout Hnd]. apply solo_sweep_one; [done | apply Hin; left |].
  intros s1 (RL1 & E1 & Hlist). apply IH; [done | done | |].
  - intros m' Hm'. apply Hlist; [apply Hin; by right | by intros ->].
  - intros s2 RL2 E2. apply HQ; [done | by eapply elsewhere_trans].
Qed.
End sweep.

Lemma modify_others_alone t d s : dom (threads s) = {[t]} -> modify_others t d s = Ok (tt, s).
Proof.
  intros Hd. unfold modify_others. eapply exec_bind; [done |]. rewrite Hd, elements_singleton. simpl.
  by rewrite bool_decide_true.
Qed.

Section alone.
Context (A : locks) (t : tid) (H : gmap tid (list event)) (s : State).
Context (Ht : t ∈ tids) (Hone : tids = {[t]}) (R : resting A t None H s).

Let th := idle_thread (bool_decide (t ∈ interrupted A)) None.

(** While the world is stopped. *)
Definition stopped : State :=
  with_mutator_exclusive (Some t) (put_thread t (with_state kNative th) (with_mutator_shared (mutator_shared s ∖ {[t]}) s)).

Lemma dom_alone : dom (threads s) = {[t]}.
Proof.
  apply set_eq. intros u. rewrite <- Hone, elem_of_dom, (tr_threads _ _ _ _ _ _ (proj2 R)).
  destruct (decide (u ∈ tids)); split; [done | intros _; by eexists | by intros [? ?] | done].
Qed.

Lemma dom_put_alone v : dom (<[t := v]> (threads s)) = {[t]}.
Proof. rewrite dom_insert_L, dom_alone. set_solver. Qed.

Lemma solo_resume fuel s1 :
  fuel <> O -> locks_rep objects tids A s1 -> elsewhere stopped s1 ->
  returns (_ ← ResumeAll t; TransitionFromSuspendedToRunnable fuel t) s1 tt A t None H.
Proof.
  intros Hf RL (E1 & E2 & E3 & E4 & E5 & E6). destruct R as [_ RT]. unfold returns, ResumeAll. apply solo_bind.
  eapply solo_atomic.
  { eapply exec_bind; [done |]. rewrite E3. eapply exec_bind; [apply exec_check; by apply bool_decide_true | done]. }
  apply solo_last. eapply solo_atomic; [apply modify_others_alone; simpl; rewrite E1; apply dom_put_alone |].
  apply solo_ret, solo_last. eapply solo_to_runnable; [done | simpl; rewrite E1; look | done | done | done |].
  apply solo_ret. split; [done |]. split; [by apply (locks_rep_same objects tids A A s1) |].
  split; simpl; rewrite ?E2, ?E5, ?E6; try apply RT; [| done |].
  - intros u. rewrite E1. simpl. rewrite insert_insert_eq, insert_id by apply (resting_thread objects tids A t H s Ht R). apply RT.
  - rewrite E4. simpl. rewrite (tr_shared _ _ _ _ _ _ RT). by rewrite <- union_difference_singleton_L.
Qed.

Lemma deflate_returns fuel : fuel <> O -> returns (perform fuel t DeflateAll) s Void A t None H.
Proof.
  intros Hf. apply returns_void. unfold returns, DeflateInBackground.
  pose proof (resting_thread objects tids A t H s Ht R) as Hth. destruct R as [RL RT].
  eapply solo_to_suspended; [done | done | done |]. tidy. apply solo_bind. unfold SuspendAll. eapply solo_atomic.
  { do 2 (eapply exec_bind; [exec |]). apply modify_others_alone, dom_put_alone. }
  apply solo_last. eapply (solo_awaiting _ _ _ 0) with (s' := stopped); [| done |].
  { apply bool_decide_true. split; [apply RT |]. cbn. rewrite (tr_shared _ _ _ _ _ _ RT), Hone. set_solver. }
  apply solo_ret. unfold DeflateMonitors. apply solo_bind. eapply solo_atomic.
  { eapply exec_bind; [done |]. eapply exec_bind; [apply exec_check; by apply bool_decide_true | done]. }
  apply (solo_sweep A); [by apply (locks_rep_same objects tids A A s) | apply RL | done |].
  intros s1 RL1 E1. by apply solo_resume.
Qed.
End alone.

(** ** All operations *)

Lemma perform_returns fuel A t H s a A' r e :
  (2 < fuel)%nat -> t ∈ tids -> resting A t None H s -> op_ok objects tids a -> call tids A t a = Some (A', r, e) ->
  returns (perform fuel t a) s r A' t e H.
Proof.
  intros Hf Ht R Hok Hcall. assert (fuel <> O) as Hf' by lia. destruct a as [o | o | o ms ns | o | o | o | u | |]; simpl in Hok.
  - by apply (enter_returns A).
  - by apply (exit_returns A).
  - by apply (wait_returns A).
  - injection Hcall as <- <- <-. by apply returns_void, notify_returns.
  - injection Hcall as <- <- <-. by apply returns_void, notify_returns.
  - by apply (hash_returns A).
  - injection Hcall as <- <- <-. by apply interrupt_returns.
  - injection Hcall as <- <- <-. by apply suspend_check_returns.
  - simpl in Hcall. case_bool_decide; [| done]. injection Hcall as <- <- <-. by apply deflate_returns.
Qed.
End returns.
