(* ===== verification/MonitorRefinement.v ===== *)
(** * The locks of objects refine Java's

    Threads that take turns operation by operation: the runtime performs every sequence of
    operations that [run_calls] allows, and the results, the exceptions, the holders of
    objects and their hash codes are those of [run_calls], in which an object is just
    held or free. *)

From S2P Require Import Prelude Concurrency LockWord Monitor MonitorInvariant MonitorSteps MonitorLogic MonitorPrograms MonitorClient MonitorSolo MonitorSequential MonitorUncontended MonitorReturns.

(** ** Sequences of operations *)

(** The operations of thread [t], in their order. *)
Definition ops_of (t : tid) (calls : list (tid * op)) : list op :=
  snd <$> filter (fun c => c.1 = t) calls.

Definition programs_of (tids : gset tid) (calls : list (tid * op)) : gmap tid (list op) :=
  set_to_map (fun t => (t, ops_of t calls)) tids.

(** The history with one more operation of thread [t]. *)
Definition log (t : tid) (a : op) (r : result) (e : option exception) (H : gmap tid (list event)) :
    gmap tid (list event) :=
  <[t := Return a r e :: Call a :: default [] (H !! t)]> H.

(** The locks and the history after the operations, when Java allows all of them. *)
Fixpoint run_calls (tids : gset tid) (A : locks) (H : gmap tid (list event)) (calls : list (tid * op)) :
    option (locks * gmap tid (list event)) :=
  match calls with
  | [] => Some (A, H)
  | (t, a) :: rest =>
      match call tids A t a with
      | Some (A', r, e) => run_calls tids A' (log t a r e H) rest
      | None => None
      end
  end.

(** No object is held, no hash code given out. *)
Definition no_locks (seed : Z) : locks := MkLocks ∅ ∅ ∅ seed.

(** How often the thread holds the object. *)
Definition holds (A : locks) (t : tid) (o : Z) : Z :=
  match holders A !! o with Some (u, c) => if bool_decide (u = t) then c else 0 | None => 0 end.

Lemma programs_of_lookup tids calls t :
  programs_of tids calls !! t = if decide (t ∈ tids) then Some (ops_of t calls) else None.
Proof.
  unfold programs_of. case_decide as Ht.
  - apply lookup_set_to_map; [naive_solver |]. eauto.
  - apply eq_None_not_Some. intros [ops Hops]. apply lookup_set_to_map in Hops; naive_solver.
Qed.

Lemma dom_programs_of tids calls : dom (programs_of tids calls) = tids.
Proof.
  apply set_eq. intros u. rewrite elem_of_dom, programs_of_lookup. case_decide; split; (done || by intros [? ?]).
Qed.

Section sequences.
Context (objects : list Z) (tids : gset tid).
Context (Hids : forall t, t ∈ tids -> 0 < t <= kThinLockMaxOwner) (Hmany : zlength objects <= kMaxMonitorId).

Abbreviation resting := (resting objects tids).

(** What the lock words and monitors say. *)
Lemma resting_count A t0 e H s t o :
  resting A t0 e H s -> o ∈ objects -> count s t o = holds A t o /\ hash_of s o = default 0 (hashes A !! o).
Proof.
  intros [RL _] Ho. unfold count, hash_of, holds.
  destruct (lr_object _ _ _ _ RL o Ho) as [Hw | u c Hw Hu Hc | h Hw Hh | m cs hold hash Hw Hm Hv Hok _]; rewrite Hw; simpl.
  - done.
  - rewrite view_thin by (auto; apply Hids; done). simpl. done.
  - rewrite view_hash by lia. done.
  - rewrite view_fat by done. simpl. rewrite Hv. simpl. split; [| done]. unfold monitor_count. simpl.
    destruct hold as [[u c] |]; simpl; [| done]. 
    destruct (decide (u = t)) as [-> | Hne].
    + rewrite !bool_decide_true by done. lia.
    + rewrite !bool_decide_false by congruence. done.
Qed.

Lemma resting_anyone A t u H s : resting A t None H s -> resting A u None H s.
Proof. intros [RL []]. split; [done |]. split; try done. intros x. rewrite tr_threads. by repeat case_decide. Qed.

(** ** One operation *)

(** Between operations: the locks are [A], the history is [H], and every thread has the
    rest of its operations before it. *)
Record between_calls (fuel : nat) (A : locks) (H : gmap tid (list event)) (calls : list (tid * op)) (σ : config State) : Prop := {
  bc_resting t : resting A t None H (shared σ);
  bc_pool t : pool σ !! t = if decide (t ∈ tids) then Some (thread_program fuel t (ops_of t calls)) else None;
}.

Lemma resting_record A t e H s x :
  resting A t e H s ->
  record_event t x s = Ok (tt, with_history (<[t := x :: default [] (H !! t)]> H) s) /\
  resting A t e (<[t := x :: default [] (H !! t)]> H) (with_history (<[t := x :: default [] (H !! t)]> H) s).
Proof.
  intros [RL RT]. split; [unfold record_event, modify; by rewrite (tr_history _ _ _ _ _ _ RT) |].
  split; [by apply (locks_rep_same objects tids A A s) | destruct RT; by split].
Qed.

(** The thread catches the exception and records the return. *)
Lemma solo_return {B} A t a r e H s (Q : B -> State -> Prop) k :
  t ∈ tids -> resting A t e (<[t := Call a :: default [] (H !! t)]> H) s ->
  (forall s', resting A t None (log t a r e H) s' -> solo (k tt) s' Q) ->
  solo (atomic (th ← get_thread t; _ ← set_thread t (with_pending None th); record_event t (Return a r (pending th))) ≫= k) s Q.
Proof.
  intros Ht R Hk. 
  assert (threads s !! t = Some (idle_thread (bool_decide (t ∈ interrupted A)) e)) as Hth.
  { by rewrite (tr_threads _ _ _ _ _ _ (proj2 R)), !decide_True. }
  set (s1 := put_thread t (idle_thread (bool_decide (t ∈ interrupted A)) None) s).
  assert (resting A t None (<[t := Call a :: default [] (H !! t)]> H) s1) as R1.
  { destruct R as [RL RT]. split; [by apply (locks_rep_same objects tids A A s) |]. split; try apply RT.
    intros u. simpl. rewrite lookup_insert, (tr_threads _ _ _ _ _ _ RT). destruct (decide (t = u)) as [<- | Hne].
    - by rewrite !decide_True.
    - by rewrite !(decide_False (P := u = t)) by done. }
  destruct (resting_record _ _ _ _ _ (Return a r e) R1) as [Hrec R2].
  rewrite lookup_insert_eq, insert_insert_eq in R2, Hrec. simpl in R2, Hrec.
  eapply solo_atomic; [| apply Hk, R2]. do 2 (eapply exec_bind; [exec |]). apply Hrec.
Qed.

Lemma one_call fuel A H t a rest σ A' r e :
  (2 < fuel)%nat -> t ∈ tids -> op_ok objects tids a -> between_calls fuel A H ((t, a) :: rest) σ ->
  call tids A t a = Some (A', r, e) ->
  exists σ', reachable σ σ' /\ between_calls fuel A' (log t a r e H) rest σ'.
Proof.
  intros Hf Ht Hok [HR Hpool] Hcall. pose proof (Hpool t) as Hp. rewrite decide_True in Hp by done.
  unfold ops_of in Hp. rewrite filter_cons_True in Hp by done. rewrite fmap_cons in Hp. cbn [snd thread_program] in Hp.
  fold (ops_of t rest) in Hp.
  destruct (resting_record _ _ _ _ _ (Call a) (HR t)) as [Hrec R1].
  destruct (solo_reachable t _ _ σ (fun _ s => resting A t None (<[t := Call a :: default [] (H !! t)]> H) s) Hp) as (u1 & s1 & Rs1 & Hr1).
  { apply solo_last. eapply solo_atomic; [exact Hrec | by apply solo_ret]. }
  destruct (solo_continues _ _ _ _ _ _ _ Hr1 (perform_returns objects tids Hids Hmany fuel A t _ s1 a A' r e Hf Ht Rs1 Hok Hcall))
    as (r2 & s2 & [-> Rs2] & Hr2).
  destruct (solo_continues _ _ _ _ _ (fun _ => resting A' t None (log t a r e H)) _ Hr2) as (u3 & s3 & Rs3 & Hr3).
  { apply solo_last, (solo_return A' t a r e H s2); [done.. |]. intros s' Rs'. by apply solo_ret. }
  eexists. split; [exact Hr3 |]. split; [intros u; by eapply resting_anyone |].
  intros u. simpl. rewrite lookup_insert, Hpool. destruct (decide (t = u)) as [<- | Hne].
  - by rewrite decide_True.
  - unfold ops_of. by rewrite filter_cons_False.
Qed.

Lemma all_calls fuel A H calls σ A' H' :
  (2 < fuel)%nat -> Forall (fun c => c.1 ∈ tids /\ op_ok objects tids c.2) calls -> between_calls fuel A H calls σ ->
  run_calls tids A H calls = Some (A', H') -> exists σ', reachable σ σ' /\ between_calls fuel A' H' [] σ'.
Proof.
  intros Hf. revert A H σ. induction calls as [| [t a] rest IH]; intros A H σ Hall Hb Hrun; simpl in Hrun.
  - injection Hrun as <- <-. exists σ. split; [apply rtc_refl | done].
  - apply Forall_cons in Hall as [[Ht Hok] Hall]. destruct (call tids A t a) as [[[A1 r] e] |] eqn:Hcall; [| done].
    destruct (one_call fuel A H t a rest σ A1 r e) as (σ1 & Hr1 & Hb1); [done.. |].
    destruct (IH A1 _ σ1 Hall Hb1 Hrun) as (σ2 & Hr2 & Hb2). exists σ2. split; [by etrans | done].
Qed.
End sequences.

(** ** From the start *)

Lemma initial_between fuel objects tids seed calls :
  between_calls objects tids fuel (no_locks seed) ∅ calls (initial fuel objects seed (programs_of tids calls)).
Proof.
  split.
  - intros t. split.
    + split; simpl; try done; [| by intros m; rewrite lookup_empty; split; [set_solver | intros [? ?]] | constructor].
      intros o Ho. apply rep_unlocked. simpl.
      destruct (initial_object fuel objects seed (programs_of tids calls) o Ho) as [w Hw]. simpl in Hw.
      pose proof (initial_word fuel objects seed (programs_of tids calls) o w Hw) as ->. done.
    + split; simpl; try done.
      * intros u. rewrite lookup_fmap, programs_of_lookup. by destruct (decide (u ∈ tids)), (decide (u = t)).
      * apply dom_programs_of.
  - intros t. simpl. rewrite map_lookup_imap, programs_of_lookup. by case_decide.
Qed.


(** Two threads that lock an object in turn, one of them waits on it and is interrupted. *)
Definition taking_turns : list (tid * op) :=
  [(1, Enter 10); (1, Enter 10); (1, WaitOn 10 5 0); (1, Exit 10); (2, InterruptThread 1); (1, WaitOn 10 0 0);
   (1, HashOf 10); (1, Exit 10); (2, Exit 10); (2, Enter 10); (2, NotifyOne 10); (2, HashOf 10)].

