(* ===== verification/HashSet.v ===== *)
(** * Hash sets (runtime/base/hash_set.h)

    Models [HashSet]: elements in one array of buckets, found by linear probing from the
    bucket their hash code selects.  Removal moves later elements back instead of leaving
    a mark.  A set is the record of its fields; the array is a list.

    The element type, what makes an element empty, the hash function and the comparison
    with a key are parameters, as in the template.  A loop that need not terminate takes a
    bound; [OutOfFuel] is the loop that goes on. *)

From Stdlib Require Import SpecFloat.
From S2P Require Import Prelude Float.

(** ** Load factors *)

(** [static_cast<double>] of a size. *)
Definition double_of (n : Z) : spec_float := binary_normalize (prec double) (emax double) n 0 false.

(** [static_cast<size_t>(n * f)] and [static_cast<size_t>(n / f)]. *)
Definition scale_up (n : Z) (f : spec_float) : Z := truncate (SFmul (prec double) (emax double) (double_of n) f).
Definition scale_down (n : Z) (f : spec_float) : Z := truncate (SFdiv (prec double) (emax double) (double_of n) f).

(** The doubles 0.5 and 0.9. *)
Definition kDefaultMinLoadFactor : spec_float := S754_finite false 4503599627370496 (-53).
Definition kDefaultMaxLoadFactor : spec_float := S754_finite false 8106479329266893 (-53).

Lemma kDefaultMaxLoadFactor_literal :
  kDefaultMaxLoadFactor = SFdiv (prec double) (emax double) (double_of 9) (double_of 10).
Proof. by vm_compute. Qed.

Definition kMinBuckets : Z := 1000.

Record HashSet (T : Type) : Type := MkHashSet {
  num_elements_ : Z;
  num_buckets_ : Z;
  elements_until_expand_ : Z;
  data_ : list T;
  min_load_factor_ : spec_float;
  max_load_factor_ : spec_float;
}.
Arguments MkHashSet {T} _ _ _ _ _ _.
Arguments num_elements_ {T} _.
Arguments num_buckets_ {T} _.
Arguments elements_until_expand_ {T} _.
Arguments data_ {T} _.
Arguments min_load_factor_ {T} _.
Arguments max_load_factor_ {T} _.

Section hash_set.
Context {T : Type} (empty : T) (IsEmpty : T -> bool) (hashfn : T -> Z).
Implicit Types hs : HashSet T.

Definition with_num_elements (v : Z) hs : HashSet T := MkHashSet v (num_buckets_ hs) (elements_until_expand_ hs)
  (data_ hs) (min_load_factor_ hs) (max_load_factor_ hs).
Definition with_elements_until_expand (v : Z) hs : HashSet T := MkHashSet (num_elements_ hs) (num_buckets_ hs) v
  (data_ hs) (min_load_factor_ hs) (max_load_factor_ hs).
Definition with_data (v : list T) hs : HashSet T := MkHashSet (num_elements_ hs) (num_buckets_ hs)
  (elements_until_expand_ hs) v (min_load_factor_ hs) (max_load_factor_ hs).

(** ** Buckets *)

Definition ElementForIndex hs (index : Z) : res T :=
  _ ← check (index <? num_buckets_ hs); zget (data_ hs) index.

(** The remainder by 0 is undefined. *)
Definition IndexForHash hs (hash : Z) : res Z :=
  _ ← check (negb (num_buckets_ hs =? 0)); Ok (hash mod num_buckets_ hs).

Definition NextIndex hs (index : Z) : res Z :=
  if num_buckets_ hs <=? index + 1
  then _ ← check (index + 1 =? num_buckets_ hs); Ok 0
  else Ok (index + 1).

Definition IsFreeSlot hs (index : Z) : res bool :=
  e ← ElementForIndex hs index; Ok (IsEmpty e).

(** All buckets empty. *)
Definition AllocateStorage (num_buckets : Z) hs : HashSet T :=
  MkHashSet (num_elements_ hs) num_buckets (elements_until_expand_ hs)
    (replicate (Z.to_nat num_buckets) empty) (min_load_factor_ hs) (max_load_factor_ hs).

Fixpoint FirstAvailableSlot (fuel : nat) hs (index : Z) : res Z :=
  match fuel with
  | O => Fault OutOfFuel
  | S fuel =>
      e ← zget (data_ hs) index;
      if IsEmpty e then Ok index
      else index ← NextIndex hs index; FirstAvailableSlot fuel hs index
  end.

(** ** Construction *)

Definition Clear hs : HashSet T :=
  with_elements_until_expand 0 (with_num_elements 0 (AllocateStorage 1 hs)).

(** The default constructor. *)
Definition new_HashSet : HashSet T :=
  Clear (MkHashSet 0 0 0 [] kDefaultMinLoadFactor kDefaultMaxLoadFactor).

(** The assignment of a copy. *)
Definition assign (other hs : HashSet T) : HashSet T :=
  MkHashSet (num_elements_ other) (num_buckets_ other) (elements_until_expand_ other)
    (data_ other) (min_load_factor_ other) (max_load_factor_ other).

Definition Size hs : Z := num_elements_ hs.

(** ** Growth *)

(** The loop of [Resize] over the old buckets. *)
Fixpoint reinsert (fuel : nat) (old_data : list T) hs : res (HashSet T) :=
  match old_data with
  | [] => Ok hs
  | element :: rest =>
      if IsEmpty element then reinsert fuel rest hs
      else
        index ← IndexForHash hs (hashfn element);
        slot ← FirstAvailableSlot fuel hs index;
        data ← zset (data_ hs) slot element;
        reinsert fuel rest (with_data data hs)
  end.

Definition Resize (fuel : nat) (new_size : Z) hs : res (HashSet T) :=
  _ ← check (Size hs <=? new_size);
  reinsert fuel (data_ hs) (AllocateStorage new_size hs).

Definition Expand (fuel : nat) hs : res (HashSet T) :=
  let min_index := scale_down (Size hs) (min_load_factor_ hs) in
  let min_index := if min_index <? kMinBuckets then kMinBuckets else min_index in
  hs ← Resize fuel min_index hs;
  Ok (with_elements_until_expand (scale_up (num_buckets_ hs) (max_load_factor_ hs)) hs).

Definition ShrinkToMaximumLoad (fuel : nat) hs : res (HashSet T) :=
  Resize fuel (scale_down (Size hs) (max_load_factor_ hs)) hs.

(** ** Insertion *)

Definition InsertWithHash (fuel : nat) (element : T) (hash : Z) hs : res (HashSet T) :=
  _ ← check (hash =? hashfn element);
  hs ← (if elements_until_expand_ hs <=? num_elements_ hs then
          hs ← Expand fuel hs;
          _ ← check (num_elements_ hs <? elements_until_expand_ hs);
          Ok hs
        else Ok hs);
  ideal ← IndexForHash hs hash;
  index ← FirstAvailableSlot fuel hs ideal;
  data ← zset (data_ hs) index element;
  Ok (with_num_elements (num_elements_ hs + 1) (with_data data hs)).

Definition Insert (fuel : nat) (element : T) hs : res (HashSet T) :=
  InsertWithHash fuel element (hashfn element) hs.

(** ** Iteration.  An iterator is an index; the end is the number of buckets. *)

Fixpoint next_slot (fuel : nat) hs (index : Z) : res Z :=
  match fuel with
  | O => Fault OutOfFuel
  | S fuel =>
      let index := index + 1 in
      if index <? num_buckets_ hs then
        free ← IsFreeSlot hs index;
        if free : bool then next_slot fuel hs index else Ok index
      else Ok index
  end.

Definition NextNonEmptySlot hs (index : Z) : res Z :=
  _ ← check (index <? num_buckets_ hs);
  next_slot (Z.to_nat (num_buckets_ hs - index)) hs index.

Definition begin hs : res Z :=
  if negb (num_buckets_ hs =? 0) then
    free ← IsFreeSlot hs 0;
    if free : bool then NextNonEmptySlot hs 0 else Ok 0
  else Ok 0.

Definition Empty hs : res bool := i ← begin hs; Ok (i =? num_buckets_ hs).

(** ** Lookup *)

Section find.
Context {K : Type} (keyhash : K -> Z) (pred : T -> K -> bool).

Fixpoint probe (fuel : nat) hs (element : K) (index : Z) : res Z :=
  match fuel with
  | O => Fault OutOfFuel
  | S fuel =>
      slot ← ElementForIndex hs index;
      if IsEmpty slot then Ok (num_buckets_ hs)
      else if pred slot element then Ok index
      else index ← NextIndex hs index; probe fuel hs element index
  end.

Definition FindWithHash (fuel : nat) (element : K) (hash : Z) hs : res Z :=
  _ ← check (keyhash element =? hash);
  index ← IndexForHash hs hash;
  probe fuel hs element index.

Definition Find (fuel : nat) (element : K) hs : res Z := FindWithHash fuel element (keyhash element) hs.
End find.

(** ** Removal *)

(** The loop of [Erase]: the element at [next_index] moves to [empty_index] unless its
    ideal index lies between them. *)
Fixpoint erase_loop (fuel : nat) hs (empty_index next_index : Z) (filled : bool) :
    res (HashSet T * bool) :=
  match fuel with
  | O => Fault OutOfFuel
  | S fuel =>
      next_index ← NextIndex hs next_index;
      next_element ← ElementForIndex hs next_index;
      if IsEmpty next_element then
        data ← zset (data_ hs) empty_index empty;
        Ok (with_data data hs, filled)
      else
        next_ideal_index ← IndexForHash hs (hashfn next_element);
        let unwrapped_next_index :=
          if next_index <? empty_index then next_index + num_buckets_ hs else next_index in
        let unwrapped_next_ideal_index :=
          if next_ideal_index <? empty_index then next_ideal_index + num_buckets_ hs
          else next_ideal_index in
        if (unwrapped_next_ideal_index <=? empty_index)
             || (unwrapped_next_index <? unwrapped_next_ideal_index)
        then
          data ← zset (data_ hs) empty_index next_element;
          erase_loop fuel (with_data data hs) next_index next_index true
        else erase_loop fuel hs empty_index next_index filled
  end.

(** The set and the iterator behind the element. *)
Definition Erase (fuel : nat) (it : Z) hs : res (HashSet T * Z) :=
  free ← IsFreeSlot hs it;
  _ ← check (negb free);
  '(hs, filled) ← erase_loop fuel hs it it false;
  let hs := with_num_elements (num_elements_ hs - 1) hs in
  if filled : bool then Ok (hs, it)
  else it ← NextNonEmptySlot hs it; Ok (hs, it).

(** ** Self check *)

(** The number of elements from bucket [i] on that are not where an insertion would put
    them. *)
Fixpoint verify_loop (fuel n : nat) hs (i : Z) : res Z :=
  match n with
  | O => Ok 0
  | S n =>
      element ← zget (data_ hs) i;
      errors ← (if IsEmpty element then Ok 0
                else
                  data ← zset (data_ hs) i empty;
                  ideal ← IndexForHash hs (hashfn element);
                  first_slot ← FirstAvailableSlot fuel (with_data data hs) ideal;
                  Ok (if i =? first_slot then 0 else 1));
      rest ← verify_loop fuel n hs (i + 1);
      Ok (errors + rest)
  end.

Definition Verify (fuel : nat) hs : res Z := verify_loop fuel (Z.to_nat (num_buckets_ hs)) hs 0.
End hash_set.
