(* ===== verification/HashSetLoad.v ===== *)
(** * The load factors of hash sets

    Sizes are multiplied and divided as doubles.  The facts on rounding that are needed:
    a result of 53 bits is off by less than one unit in its last place, so the maximum
    load of a table is less than its size, and more than half of it. *)

From Stdlib Require Import SpecFloat.
From S2P Require Import Prelude Float HashSet.

(** ** Rounding *)

Lemma digits2_bounds p : 2 ^ (Z.pos (digits2_pos p) - 1) <= Z.pos p < 2 ^ Z.pos (digits2_pos p).
Proof.
  induction p as [p IH | p IH |]; [simpl digits2_pos.. | done];
    rewrite Pos2Z.inj_succ, Z.pow_succ_r by lia; replace (Z.succ (Z.pos (digits2_pos p)) - 1) with (Z.succ (Z.pos (digits2_pos p) - 1)) by lia;
    rewrite Z.pow_succ_r by lia; lia.
Qed.

Lemma shr_1_div x : 0 <= shr_m x -> shr_m (shr_1 x) = shr_m x / 2.
Proof.
  destruct x as [m r s]. simpl. intros Hm. destruct m as [| [p | p |] |]; simpl; try done.
  - by rewrite (Z.div_unique (Z.pos p~1) 2 (Z.pos p) 1) by lia.
  - by rewrite (Z.div_unique (Z.pos p~0) 2 (Z.pos p) 0) by lia.
Qed.

Lemma iter_shr_div p x : 0 <= shr_m x -> shr_m (SpecFloat.iter_pos shr_1 p x) = shr_m x / 2 ^ Z.pos p.
Proof.
  revert x. induction p as [p IH | p IH |]; intros x Hx; simpl SpecFloat.iter_pos; [| | by rewrite shr_1_div];
    assert (Hp : 0 < 2 ^ Z.pos p) by (by apply Z.pow_pos_nonneg).
  - assert (H1 : 0 <= shr_m (shr_1 x)) by (rewrite shr_1_div by done; by apply Z.div_pos).
    rewrite IH by (rewrite IH by done; by apply Z.div_pos).
    rewrite IH, shr_1_div, !Z.div_div by lia. f_equal.
    replace (Z.pos p~1) with (1 + Z.pos p + Z.pos p) by lia. rewrite !Z.pow_add_r by lia. lia.
  - rewrite IH by (rewrite IH by done; by apply Z.div_pos).
    rewrite IH, Z.div_div by lia. f_equal.
    replace (Z.pos p~0) with (Z.pos p + Z.pos p) by lia. by rewrite Z.pow_add_r by lia.
Qed.

Section rounding.
Context (m : positive) (e : Z) (He : -200 <= e <= 200).
Context (Hdig : Z.pos (digits2_pos m) <= 120).

Let k := Z.max 0 (Z.pos (digits2_pos m) - 53).

Lemma shr_fexp_div l :
  exists x, shr_fexp 53 1024 (Z.pos m) e l = (x, e + k) /\ shr_m x = Z.pos m / 2 ^ k.
Proof.
  unfold shr_fexp. change (Zdigits2 (Z.pos m)) with (Z.pos (digits2_pos m)).
  assert (Hm : shr_m (shr_record_of_loc (Z.pos m) l) = Z.pos m) by (by destruct l as [| []]).
  assert (Hk : fexp 53 1024 (Z.pos (digits2_pos m) + e) - e = Z.pos (digits2_pos m) - 53).
  { unfold fexp, emin. lia. }
  rewrite Hk. unfold shr. subst k. destruct (Z.pos (digits2_pos m) - 53) as [| p | p] eqn:E.
  - eexists. split; [f_equal; lia |]. rewrite Hm. by rewrite Z.div_1_r.
  - eexists. split; [f_equal; lia |]. rewrite iter_shr_div by (rewrite Hm; lia). by rewrite Hm, Z.max_r by lia.
  - eexists. split; [f_equal; lia |]. rewrite Hm, Z.max_l by lia. by rewrite Z.div_1_r.
Qed.
End rounding.

Lemma shr_fexp_small m e :
  -200 <= e <= 200 -> Z.pos (digits2_pos m) <= 53 ->
  shr_fexp 53 1024 (Z.pos m) e loc_Exact = (Build_shr_record (Z.pos m) false false, e).
Proof.
  intros He Hd. unfold shr_fexp. change (Zdigits2 (Z.pos m)) with (Z.pos (digits2_pos m)).
  assert (fexp 53 1024 (Z.pos (digits2_pos m) + e) - e = Z.pos (digits2_pos m) - 53) as -> by (unfold fexp, emin; lia).
  unfold shr. simpl. by destruct (Z.pos (digits2_pos m) - 53) eqn:E; [| lia |].
Qed.

(** A mantissa that fits is not rounded. *)
Lemma round_exact s m e :
  -200 <= e <= 200 -> Z.pos (digits2_pos m) <= 53 ->
  binary_round_aux 53 1024 s (Z.pos m) e loc_Exact = S754_finite s m e.
Proof.
  intros He Hd. unfold binary_round_aux. rewrite shr_fexp_small by done. simpl. rewrite shr_fexp_small by done. simpl.
  by rewrite (proj2 (Z.leb_le _ _)) by lia.
Qed.

Lemma digits2_le p n : 0 <= n -> Z.pos p < 2 ^ n -> Z.pos (digits2_pos p) <= n.
Proof.
  intros Hn Hp. pose proof (digits2_bounds p) as [Hlo _].
  destruct (Z.le_gt_cases (Z.pos (digits2_pos p)) n); [done |].
  pose proof (Z.pow_le_mono_r 2 n (Z.pos (digits2_pos p) - 1)). lia.
Qed.

(** A mantissa of at most 120 bits is off by less than the last bit kept. *)
Lemma round_near s m e l :
  -150 <= e <= 0 -> 53 <= Z.pos (digits2_pos m) <= 120 ->
  exists q f, binary_round_aux 53 1024 s (Z.pos m) e l = S754_finite s q f /\ e <= f /\
    let u := 2 ^ (Z.pos (digits2_pos m) - 53) in
    Z.pos m - u < Z.pos q * 2 ^ (f - e) <= Z.pos m + u /\ Z.pos m / u * u <= Z.pos q * 2 ^ (f - e).
Proof.
  intros He Hd. unfold binary_round_aux. set (k := Z.pos (digits2_pos m) - 53).
  destruct (shr_fexp_div m e ltac:(lia) l) as (x & -> & Hx). rewrite Z.max_r in Hx |- * by lia. fold k in Hx |- *.
  set (n := round_nearest_even (shr_m x) (loc_of_shr_record x)).
  assert (Hn : shr_m x <= n <= shr_m x + 1).
  { subst n. unfold round_nearest_even. destruct (loc_of_shr_record x) as [| []]; try case_match; lia. }
  pose proof (digits2_bounds m) as Hm. replace (Z.pos (digits2_pos m)) with (k + 53) in Hm by lia.
  replace (k + 53 - 1) with (k + 52) in Hm by lia. rewrite !Z.pow_add_r in Hm by lia.
  assert (Hu : 0 < 2 ^ k) by (apply Z.pow_pos_nonneg; lia).
  assert (Hq : 2 ^ 52 <= Z.pos m / 2 ^ k < 2 ^ 53).
  { split; [apply Z.div_le_lower_bound; lia | apply Z.div_lt_upper_bound; lia]. }
  pose proof (Z.div_mod (Z.pos m) (2 ^ k)). pose proof (Z.mod_pos_bound (Z.pos m) (2 ^ k)).
  destruct n as [| n | n]; [lia | | lia].
  destruct (decide (Z.pos n = 2 ^ 53)) as [E | Hne].
  - destruct (shr_fexp_div n (e + k) ltac:(lia) loc_Exact) as (y & -> & Hy).
    assert (Z.pos (digits2_pos n) = 54) as Hdn by (by injection E as ->).
    rewrite Hdn, E in Hy. change (2 ^ 53 / 2 ^ Z.max 0 (54 - 53)) with 4503599627370496 in Hy.
    rewrite Hy, Hdn. change (Z.max 0 (54 - 53)) with 1. rewrite (proj2 (Z.leb_le _ _)) by lia.
    exists 4503599627370496%positive, (e + k + 1). split; [done |]. split; [lia |]. cbn zeta.
    replace (e + k + 1 - e) with (k + 1) by lia. rewrite Z.pow_add_r by lia. nia.
  - rewrite shr_fexp_small by (lia || (apply digits2_le; lia)). simpl. rewrite (proj2 (Z.leb_le _ _)) by lia.
    exists n, (e + k). split; [done |]. split; [lia |]. cbn zeta. replace (e + k - e) with k by lia. nia.
Qed.

(** ** Sizes as doubles *)

Lemma iter_xO p x : Z.pos (Pos.iter xO p x) = Z.pos p * 2 ^ Z.pos x.
Proof.
  induction x as [| x IH] using Pos.peano_ind; [simpl; lia |].
  rewrite Pos.iter_succ, Pos2Z.inj_succ, Z.pow_succ_r by lia. lia.
Qed.

Lemma double_of_exact p :
  Z.pos p < 2 ^ 53 ->
  let d := 53 - Z.pos (digits2_pos p) in
  exists q, double_of (Z.pos p) = S754_finite false q (- d) /\ 0 <= d <= 52 /\ Z.pos q = Z.pos p * 2 ^ d.
Proof.
  intros Hp d. pose proof (digits2_le p 53 ltac:(lia) Hp) as Hd. unfold double_of, binary_normalize, binary_round. simpl prec. simpl emax.
  rewrite Z.add_0_r. assert (fexp 53 1024 (Z.pos (digits2_pos p)) = - d) as -> by (unfold fexp, emin; lia).
  assert (Hsh : exists q, shl_align p 0 (- d) = (q, - d) /\ Z.pos q = Z.pos p * 2 ^ d).
  { unfold shl_align. rewrite Z.sub_0_r. destruct d as [| x | x] eqn:Ed; [| | lia].
    - exists p. split; [done | lia].
    - exists (Pos.iter xO p x). split; [done | apply iter_xO]. }
  destruct Hsh as (q & -> & Hq). exists q. split; [| split; [lia | done]].
  apply round_exact; [lia |]. apply digits2_le; [lia |]. rewrite Hq.
  pose proof (digits2_bounds p) as [_ Hhi]. replace 53 with (Z.pos (digits2_pos p) + d) by lia.
  rewrite Z.pow_add_r by lia. apply Z.mul_lt_mono_pos_r; [apply Z.pow_pos_nonneg; lia | done].
Qed.

Lemma double_range p q d : Z.pos q = Z.pos p * 2 ^ d -> d = 53 - Z.pos (digits2_pos p) -> 0 <= d -> 2 ^ 52 <= Z.pos q < 2 ^ 53.
Proof.
  intros -> Ed Hd. pose proof (digits2_bounds p) as [Hlo Hhi].
  replace 52 with (Z.pos (digits2_pos p) - 1 + d) by lia. replace 53 with (Z.pos (digits2_pos p) + d) by lia.
  rewrite !Z.pow_add_r by lia. pose proof (Z.pow_pos_nonneg 2 d). nia.
Qed.

Lemma truncate_bounds q f d :
  - d <= f -> 0 <= d -> let t := truncate (S754_finite false q f) in
  t * 2 ^ d <= Z.pos q * 2 ^ (f + d) < (t + 1) * 2 ^ d.
Proof.
  intros Hf Hd. simpl. destruct (Z.leb_spec 0 f).
  - rewrite (Z.pow_add_r 2 f d) by lia. pose proof (Z.pow_pos_nonneg 2 d). nia.
  - pose proof (Z.pow_pos_nonneg 2 (- f)). pose proof (Z.pow_pos_nonneg 2 (f + d)).
    assert (2 ^ d = 2 ^ (- f) * 2 ^ (f + d)) as -> by (rewrite <- Z.pow_add_r by lia; f_equal; lia).
    pose proof (Z.div_mod (Z.pos q) (2 ^ (- f))). pose proof (Z.mod_pos_bound (Z.pos q) (2 ^ (- f))). nia.
Qed.

(** The maximum load of [n] buckets is nearly 0.9 of them. *)
Lemma scale_up_bounds n :
  0 < n < 2 ^ 53 -> let t := scale_up n kDefaultMaxLoadFactor in 8 * n < 10 * (t + 1) /\ t < n /\ 0 <= t.
Proof.
  intros Hn. destruct n as [| p |]; [lia | | lia].
  destruct (double_of_exact p ltac:(lia)) as (q & Eq & Hd & Hq). set (d := 53 - Z.pos (digits2_pos p)) in *.
  unfold scale_up. rewrite Eq. unfold kDefaultMaxLoadFactor, SFmul. simpl prec. simpl emax.
  set (m := (q * 8106479329266893)%positive).
  assert (Hm : Z.pos m = Z.pos p * 2 ^ d * 8106479329266893) by (subst m; rewrite Pos2Z.inj_mul, Hq; done).
  pose proof (double_range p q d Hq eq_refl ltac:(lia)) as Hqr. pose proof (digits2_bounds m) as Hdm.
  assert (105 <= Z.pos (digits2_pos m) <= 106) as Hdig.
  { split; [| apply digits2_le; lia]. destruct (Z.le_gt_cases 105 (Z.pos (digits2_pos m))) as [| Hlt]; [done |].
    pose proof (Z.pow_le_mono_r 2 (Z.pos (digits2_pos m)) 104). lia. }
  destruct (round_near (xorb false false) m (- d + -53) loc_Exact) as (r & f & -> & Hf & Hnear & _); [lia.. |].
  pose proof (truncate_bounds r f (d + 53) ltac:(lia) ltac:(lia)) as Ht. cbn zeta in Hnear, Ht |- *.
  change (xorb false false) with false. set (t := truncate _) in *. replace (f - (- d + -53)) with (f + (d + 53)) in Hnear by lia.
  set (W := Z.pos r * 2 ^ (f + (d + 53))) in *. clearbody W t. rewrite Z.pow_add_r in Ht by lia.
  set (u := 2 ^ (Z.pos (digits2_pos m) - 53)) in *.
  assert (Hu : u * 2 ^ 52 <= Z.pos m).
  { subst u. rewrite <- Z.pow_add_r by lia. replace (Z.pos (digits2_pos m) - 53 + 52) with (Z.pos (digits2_pos m) - 1) by lia. lia. }
  pose proof (Z.pow_pos_nonneg 2 d ltac:(lia) ltac:(lia)) as HX. set (X := 2 ^ d) in *. clearbody u X.
  assert (H1 : t * 2 ^ 105 <= Z.pos p * (8106479329266893 * (2 ^ 52 + 1))).
  { apply (Z.mul_le_mono_pos_r _ _ X); lia. }
  assert (H2 : Z.pos p * (8106479329266893 * (2 ^ 52 - 1)) < (t + 1) * 2 ^ 105).
  { apply (Z.mul_lt_mono_pos_r X); lia. }
  lia.
Qed.

(** Dividing by the minimum load factor doubles. *)
Lemma scale_down_half n : 0 <= n < 2 ^ 50 -> scale_down n kDefaultMinLoadFactor = 2 * n.
Proof.
  intros Hn. destruct n as [| p |]; [done | | lia].
  destruct (double_of_exact p ltac:(lia)) as (q & Eq & Hd & Hq). pose proof (digits2_le p 50 ltac:(lia) ltac:(lia)) as Hdp.
  set (d := 53 - Z.pos (digits2_pos p)) in *. pose proof (double_range p q d Hq eq_refl ltac:(lia)) as Hqr.
  unfold scale_down. rewrite Eq. unfold kDefaultMinLoadFactor, SFdiv, SFdiv_core_binary. simpl prec. simpl emax.
  assert (Z.pos (digits2_pos q) = 53) as Hdq.
  { pose proof (digits2_le q 53 ltac:(lia) ltac:(lia)). pose proof (digits2_bounds q) as [_ Hhi].
    destruct (Z.le_gt_cases 53 (Z.pos (digits2_pos q))) as [| Hlt]; [lia |].
    pose proof (Z.pow_le_mono_r 2 (Z.pos (digits2_pos q)) 52). lia. }
  assert (Z.pos (digits2_pos q~0) = 54) as Hd' by (simpl digits2_pos; lia).
  change (Zdigits2 (Z.pos q)) with (Z.pos (digits2_pos q)). rewrite Hdq. change (Zdigits2 4503599627370496) with 53.
  assert (Z.min (fexp 53 1024 (53 + - d - (53 + -53))) (- d - -53) = - d) as -> by (unfold fexp, emin; lia).
  replace (- d - -53 - - d) with 53 by lia.
  assert (Z.div_eucl (Z.shiftl (Z.pos q) 53) 4503599627370496 = (Z.pos q~0, 0)) as ->.
  { rewrite Z.shiftl_mul_pow2 by lia. rewrite (surjective_pairing (Z.div_eucl _ _)).
    change (Z.div_eucl ?a ?b).1 with (a / b). change (Z.div_eucl ?a ?b).2 with (a mod b).
    change (2 ^ 53) with (2 * 4503599627370496). rewrite Z.mul_assoc, Z.div_mul, Z.mod_mul by lia. f_equal. lia. }
  destruct (round_near (xorb false false) q~0 (- d) (new_location 4503599627370496 0)) as (r & f & -> & Hf & Hnear & Hlo); [lia | |].
  { rewrite Hd' . lia. }
  pose proof (truncate_bounds r f d ltac:(lia) ltac:(lia)) as Ht. cbn zeta in Hnear, Ht, Hlo.
  change (xorb false false) with false. set (t := truncate _) in *. replace (f - - d) with (f + d) in Hnear, Hlo by lia.
  set (W := Z.pos r * 2 ^ (f + d)) in *. clearbody W t. rewrite Hd' in Hnear, Hlo.
  change (2 ^ (54 - 53)) with 2 in *. replace (Z.pos q~0) with (Z.pos q * 2) in * by lia. rewrite Z.div_mul in Hlo by lia.
  assert (8 <= 2 ^ d) by (change 8 with (2 ^ 3); apply Z.pow_le_mono_r; lia). set (X := 2 ^ d) in *. clearbody X. nia.
Qed.
