(* ===== verification/HashSetProbing.v ===== *)
(** * Linear probing

    The buckets of a hash set form a circle.  [probing] is the invariant that the comment
    on [HashSet::Erase] states: there is no empty bucket between the ideal index of an
    element and the bucket it is in. *)

From S2P Require Import Prelude HashSet.

(** ** The circle of [n] buckets *)

Section circle.
Context (n : Z).

(** [d] buckets after [i], and the number of steps from [i] to [j]. *)
Definition cyc (i d : Z) : Z := if i + d <? n then i + d else i + d - n.
Definition dist (i j : Z) : Z := if i <=? j then j - i else j - i + n.
End circle.

Ltac circle := unfold cyc, dist in *; repeat (match goal with
  | |- context [?a <? ?b] => destruct (Z.ltb_spec a b)
  | |- context [?a <=? ?b] => destruct (Z.leb_spec a b)
  | H : context [?a <? ?b] |- _ => destruct (Z.ltb_spec a b)
  | H : context [?a <=? ?b] |- _ => destruct (Z.leb_spec a b)
  end); try lia.

Section positions.
Context {n : Z}.

Lemma cyc_range i d : 0 <= i < n -> 0 <= d < n -> 0 <= cyc n i d < n.
Proof. intros. circle. Qed.
Lemma dist_range i j : 0 <= i < n -> 0 <= j < n -> 0 <= dist n i j < n.
Proof. intros. circle. Qed.
Lemma cyc_dist i j : 0 <= i < n -> 0 <= j < n -> cyc n i (dist n i j) = j.
Proof. intros. circle. Qed.
Lemma dist_cyc i d : 0 <= i < n -> 0 <= d < n -> dist n i (cyc n i d) = d.
Proof. intros. circle. Qed.
Lemma cyc_inj i d d' : 0 <= i < n -> 0 <= d < n -> 0 <= d' < n -> cyc n i d = cyc n i d' -> d = d'.
Proof. intros. circle. Qed.
Lemma cyc_next i d : 0 <= i < n -> 0 < d < n -> cyc n (cyc n i 1) (d - 1) = cyc n i d.
Proof. intros. circle. Qed.

(** From a bucket on the way from [p] to [k], the rest of the way. *)
Lemma dist_split p d k : 0 <= p < n -> 0 <= k < n -> 0 <= d < dist n p k -> dist n p k = d + dist n (cyc n p d) k.
Proof. intros. circle. Qed.
Lemma cyc_add p d d' : 0 <= p < n -> 0 <= d -> 0 <= d' -> d + d' < n -> cyc n (cyc n p d) d' = cyc n p (d + d').
Proof. intros. circle. Qed.
End positions.

(** The first of [d] places that has a property. *)
Lemma first_such (P : Z -> bool) d :
  0 <= d -> P d = true -> exists d', 0 <= d' <= d /\ P d' = true /\ forall x, 0 <= x < d' -> P x = false.
Proof.
  intros Hd HP. destruct (Z_of_nat_complete d Hd) as [k ->]. clear Hd. induction k as [k IH] using lt_wf_ind.
  destruct (decide (Exists (fun y => P (Z.of_nat y) = true) (seq 0 k))) as [Hex | Hno].
  - apply Exists_exists in Hex as (y & Hy%elem_of_seq & HPy).
    destruct (IH y ltac:(lia) HPy) as (d' & ? & ? & ?). exists d'. split_and!; [lia.. | done | done].
  - exists (Z.of_nat k). split_and!; [lia.. | done |]. intros x Hx. apply not_true_is_false. intros HPx. apply Hno.
    apply Exists_exists. exists (Z.to_nat x). rewrite elem_of_seq, Z2Nat.id by lia. split; [lia | done].
Qed.

(** ** Buckets *)

Section buckets.
Context {T : Type} (empty : T) (IsEmpty : T -> bool) (hashfn : T -> Z).
Context (Hempty : IsEmpty empty = true).
Implicit Types data : list T.

Definition slot (data : list T) (i : Z) : T := default empty (data !! Z.to_nat i).
Definition full (data : list T) (i : Z) : bool := negb (IsEmpty (slot data i)).
Definition ideal (data : list T) (x : T) : Z := hashfn x mod zlength data.

(** No bucket from [i] up to [j] is empty. *)
Definition path_full (data : list T) (i j : Z) : Prop :=
  forall d, 0 <= d < dist (zlength data) i j -> full data (cyc (zlength data) i d) = true.

Definition probing (data : list T) : Prop :=
  forall j, 0 <= j < zlength data -> full data j = true -> path_full data (ideal data (slot data j)) j.

(** The elements, in the order of the buckets. *)
Definition contents (data : list T) : list T := filter (fun x => IsEmpty x = false) data.

Lemma full_true data i : full data i = true <-> IsEmpty (slot data i) = false.
Proof. apply negb_true_iff. Qed.
Lemma full_false data i : full data i = false <-> IsEmpty (slot data i) = true.
Proof. apply negb_false_iff. Qed.

Lemma ideal_range data x : 0 < zlength data -> 0 <= ideal data x < zlength data.
Proof. intros. by apply Z.mod_pos_bound. Qed.

Lemma zget_slot data i : 0 <= i < zlength data -> zget data i = Ok (slot data i).
Proof.
  intros Hi. destruct (zget_in_bounds data i Hi) as [a Ha]. rewrite Ha. apply zget_ok in Ha as [_ Ha].
  unfold slot. by rewrite Ha.
Qed.

Lemma slot_lookup data i : 0 <= i < zlength data -> data !! Z.to_nat i = Some (slot data i).
Proof. intros Hi. by apply zget_ok, zget_slot. Qed.

(** Putting an element into a bucket. *)
Definition put (data : list T) (i : Z) (x : T) : list T := <[Z.to_nat i := x]> data.

Lemma zset_put data i x : 0 <= i < zlength data -> zset data i x = Ok (put data i x).
Proof. apply zset_in_bounds. Qed.

Lemma put_length data i x : length (put data i x) = length data.
Proof. apply length_insert. Qed.

Lemma slot_put data i x j :
  0 <= i < zlength data -> 0 <= j -> slot (put data i x) j = if decide (i = j) then x else slot data j.
Proof.
  intros Hi Hj. unfold slot, put. case_decide.
  - subst. by rewrite list_lookup_insert_eq by lia.
  - by rewrite list_lookup_insert_ne by lia.
Qed.

Lemma full_put data i x j :
  0 <= i < zlength data -> 0 <= j -> full (put data i x) j = if decide (i = j) then negb (IsEmpty x) else full data j.
Proof. intros Hi Hj. unfold full. rewrite slot_put by done. by case_decide. Qed.

(** *** Contents *)

Lemma contents_put data i x :
  0 <= i < zlength data -> full data i = false -> IsEmpty x = false -> contents (put data i x) ≡ₚ x :: contents data.
Proof.
  intros Hi Hfull Hx. unfold contents, put. pose proof (slot_lookup data i Hi) as Hl.
  rewrite insert_take_drop by lia. rewrite <- (take_drop_middle data (Z.to_nat i) _ Hl) at 3.
  rewrite !filter_app, filter_cons_True by done. rewrite filter_cons_False; [by rewrite Permutation_middle |].
  unfold full in Hfull. by destruct (IsEmpty (slot data i)).
Qed.

Lemma contents_clear data i :
  0 <= i < zlength data -> full data i = true -> contents data ≡ₚ slot data i :: contents (put data i empty).
Proof.
  intros Hi Hfull. unfold contents, put. pose proof (slot_lookup data i Hi) as Hl.
  rewrite insert_take_drop by lia. rewrite <- (take_drop_middle data (Z.to_nat i) _ Hl) at 1.
  rewrite !filter_app, filter_cons_True, filter_cons_False; [by rewrite Permutation_middle | by rewrite Hempty |].
  unfold full in Hfull. by destruct (IsEmpty (slot data i)).
Qed.

Lemma elem_of_contents data x :
  x ∈ contents data <-> exists j, 0 <= j < zlength data /\ full data j = true /\ slot data j = x.
Proof.
  unfold contents. rewrite list_elem_of_filter, list_elem_of_lookup. split.
  - intros [Hx [i Hi]]. pose proof (lookup_lt_Some _ _ _ Hi). exists (Z.of_nat i).
    assert (slot data (Z.of_nat i) = x) as E by (unfold slot; by rewrite Nat2Z.id, Hi).
    unfold full. rewrite E, Hx. split; [lia | done].
  - intros (j & Hj & Hf & <-). split; [unfold full in Hf; by destruct (IsEmpty (slot data j)) |].
    exists (Z.to_nat j). by apply slot_lookup.
Qed.

(** A table that is not full has an empty bucket. *)
Lemma empty_bucket data :
  zlength (contents data) < zlength data -> exists j, 0 <= j < zlength data /\ full data j = false.
Proof.
  intros Hlt. assert (exists i, exists x, data !! i = Some x /\ IsEmpty x = true) as (i & x & Hi & Hx).
  { revert Hlt. unfold contents. induction data as [| x l IH]; [simpl; lia |]. rewrite filter_cons.
    destruct (IsEmpty x) eqn:Ex; [intros _; by exists 0%nat, x |]. rewrite decide_True by done. simpl. intros Hlt.
    destruct IH as (i & y & ? & ?); [lia |]. by exists (S i), y. }
  pose proof (lookup_lt_Some _ _ _ Hi). exists (Z.of_nat i). split; [lia |].
  unfold full, slot. rewrite Nat2Z.id, Hi. simpl. by rewrite Hx.
Qed.

(** The first empty bucket from [i] on. *)
Lemma first_empty data i :
  zlength (contents data) < zlength data -> 0 <= i < zlength data ->
  exists d, 0 <= d < zlength data /\ full data (cyc (zlength data) i d) = false /\
    forall x, 0 <= x < d -> full data (cyc (zlength data) i x) = true.
Proof.
  intros Hlt Hi. destruct (empty_bucket data Hlt) as (j & Hj & Hfree).
  pose proof (dist_range i j Hi Hj) as Hd.
  destruct (first_such (fun d => negb (full data (cyc (zlength data) i d))) (dist (zlength data) i j)) as (d & Hdd & Hn & Hall).
  - lia.
  - by rewrite cyc_dist, Hfree.
  - exists d. split_and!; [lia.. | by apply negb_true_iff | intros x Hx; by apply negb_false_iff, Hall].
Qed.

(** *** Insertion *)

Lemma put_probing data x d :
  probing data -> 0 < zlength data -> 0 <= d < zlength data -> IsEmpty x = false ->
  (forall y, 0 <= y < d -> full data (cyc (zlength data) (ideal data x) y) = true) ->
  probing (put data (cyc (zlength data) (ideal data x) d) x).
Proof.
  intros Hp Hn Hd Hx Hall. pose proof (ideal_range data x Hn) as Hi. set (i := cyc _ _ d).
  pose proof (cyc_range _ _ Hi Hd) as Hir. fold i in Hir.
  assert (Hmono : forall j, 0 <= j -> full data j = true -> full (put data i x) j = true).
  { intros j Hj Hf. rewrite full_put by done. case_decide; [by rewrite Hx | done]. }
  intros j Hj Hf. unfold path_full, ideal. rewrite put_length in *. rewrite slot_put by lia.
  case_decide as E.
  - subst j. unfold i at 1. fold (ideal data x). rewrite dist_cyc by done. intros y Hy. apply Hmono; [| by apply Hall].
    apply cyc_range; lia.
  - rewrite full_put, decide_False in Hf by lia || done. intros y Hy. fold (ideal data (slot data j)) in *.
    pose proof (ideal_range data (slot data j) Hn) as Hij. pose proof (dist_range _ _ Hij Hj).
    apply Hmono; [apply cyc_range; lia | by apply Hp].
Qed.
End buckets.
