(* ===== verification/HashSetInvariant.v ===== *)
(** * The invariant of hash sets

    [well_formed] relates the fields of a [HashSet].  It has an empty bucket, so every
    probe sequence ends; each operation returns, keeps it, and changes [contents], the
    elements of the set, the way it says. *)

From S2P Require Import Prelude HashSet HashSetLoad HashSetProbing.

(** The bound of all sizes, so that [2 * size] buckets can be counted exactly by a double. *)
Definition size_bound : Z := 2 ^ 50.

Section operations.
Context {T : Type} (empty : T) (IsEmpty : T -> bool) (hashfn : T -> Z).
Context (Hempty : IsEmpty empty = true).
Implicit Types hs : HashSet T.
Implicit Types data : list T.

#[local] Abbreviation slot := (slot empty).
#[local] Abbreviation full := (full empty IsEmpty).
#[local] Abbreviation ideal := (ideal hashfn).
#[local] Abbreviation probing := (probing empty IsEmpty hashfn).
#[local] Abbreviation contents := (contents IsEmpty).

(** The buckets fit: linear probing works on them. *)
Record sound_buckets hs : Prop := {
  sb_buckets : num_buckets_ hs = zlength (data_ hs);
  sb_probing : probing (data_ hs);
}.

Record well_formed hs : Prop := {
  wf_buckets : sound_buckets hs;
  wf_elements : num_elements_ hs = zlength (contents (data_ hs));
  wf_room : num_elements_ hs <= elements_until_expand_ hs;
  wf_spare : elements_until_expand_ hs < num_buckets_ hs;
  wf_min : min_load_factor_ hs = kDefaultMinLoadFactor;
  wf_max : max_load_factor_ hs = kDefaultMaxLoadFactor;
}.

(** ** Steps around the circle *)

Section bucket_steps.
Context hs (Hn : num_buckets_ hs = zlength (data_ hs)).
#[local] Abbreviation n := (zlength (data_ hs)).

Lemma NextIndex_cyc i : 0 <= i < n -> NextIndex hs i = Ok (cyc n i 1).
Proof.
  intros Hi. unfold NextIndex. rewrite Hn. unfold cyc.
  destruct (Z.leb_spec n (i + 1)), (Z.ltb_spec (i + 1) n); try lia; [| done].
  replace (i + 1 =? n) with true by (symmetry; apply Z.eqb_eq; lia). simpl. f_equal. lia.
Qed.

Lemma ElementForIndex_slot i : 0 <= i < n -> ElementForIndex hs i = Ok (slot (data_ hs) i).
Proof.
  intros Hi. unfold ElementForIndex. rewrite Hn, (proj2 (Z.ltb_lt i n)) by lia. simpl. by apply zget_slot.
Qed.

Lemma IndexForHash_ideal x : 0 < n -> IndexForHash hs (hashfn x) = Ok (ideal (data_ hs) x).
Proof. intros H. unfold IndexForHash. rewrite Hn. by rewrite (proj2 (Z.eqb_neq n 0)) by lia. Qed.

Lemma FirstAvailableSlot_first d : forall fuel i,
  0 <= i < n -> 0 <= d < n -> d < Z.of_nat fuel ->
  full (data_ hs) (cyc n i d) = false -> (forall y, 0 <= y < d -> full (data_ hs) (cyc n i y) = true) ->
  FirstAvailableSlot IsEmpty fuel hs i = Ok (cyc n i d).
Proof.
  intros fuel. revert d. induction fuel as [| fuel IH]; intros d i Hi Hd Hf Hfree Hall; [lia |].
  cbn [FirstAvailableSlot]. rewrite (zget_slot empty) by done. cbn [mbind res_bind].
  destruct (decide (d = 0)) as [-> | Hd0].
  - assert (Ei : cyc n i 0 = i) by circle. rewrite Ei in *. apply full_false in Hfree. by rewrite Hfree.
  - pose proof (Hall 0 ltac:(lia)) as H0. replace (cyc n i 0) with i in H0 by circle.
    apply full_true in H0. rewrite H0, NextIndex_cyc by done. cbn [mbind res_bind].
    pose proof (cyc_range i 1 Hi ltac:(lia)). rewrite (IH (d - 1) (cyc n i 1)); rewrite ?cyc_next by lia; try done; try lia.
    intros y Hy. rewrite cyc_add by lia. apply Hall. lia.
Qed.

End bucket_steps.

(** ** Placing an element *)

Lemma place hs x fuel :
  sound_buckets hs -> zlength (contents (data_ hs)) < zlength (data_ hs) <= Z.of_nat fuel -> IsEmpty x = false ->
  exists i data, IndexForHash hs (hashfn x) = Ok (ideal (data_ hs) x) /\
    FirstAvailableSlot IsEmpty fuel hs (ideal (data_ hs) x) = Ok i /\ zset (data_ hs) i x = Ok data /\
    length data = length (data_ hs) /\ probing data /\ contents data ≡ₚ x :: contents (data_ hs).
Proof.
  intros [Hn Hp] [Hlt Hfuel] Hx. assert (0 < zlength (data_ hs)) as Hpos by lia.
  pose proof (ideal_range hashfn (data_ hs) x Hpos) as Hi.
  destruct (first_empty empty IsEmpty (data_ hs) _ Hlt Hi) as (d & Hd & Hfree & Hall).
  pose proof (cyc_range _ _ Hi Hd) as Hr.
  exists (cyc (zlength (data_ hs)) (ideal (data_ hs) x) d), (put (data_ hs) (cyc (zlength (data_ hs)) (ideal (data_ hs) x) d) x).
  split_and!.
  - by apply IndexForHash_ideal.
  - apply FirstAvailableSlot_first; auto with lia.
  - by apply zset_put.
  - apply put_length.
  - by apply put_probing.
  - by eapply contents_put.
Qed.

(** ** Growth *)

Lemma reinsert_ok fuel old : forall hs,
  sound_buckets hs -> zlength (contents (data_ hs)) + zlength (contents old) <= zlength (data_ hs) <= Z.of_nat fuel ->
  exists data, reinsert IsEmpty hashfn fuel old hs = Ok (with_data data hs) /\
    length data = length (data_ hs) /\ probing data /\ contents data ≡ₚ contents old ++ contents (data_ hs).
Proof.
  induction old as [| x old IH]; intros hs Hs Hlen; cbn [reinsert].
  { exists (data_ hs). split_and!; [by destruct hs | done | apply Hs | done]. }
  unfold contents in Hlen |- *. rewrite filter_cons in Hlen |- *. destruct (IsEmpty x) eqn:Ex.
  { rewrite decide_False in Hlen |- * by done. by apply IH. }
  rewrite decide_True in Hlen |- * by done. cbn [length] in Hlen.
  destruct (place hs x fuel Hs) as (i & data & -> & H2 & H3 & H4 & H5 & H6); [unfold contents; lia | done |].
  cbn [mbind res_bind]. rewrite H2. cbn [mbind res_bind]. rewrite H3. cbn [mbind res_bind].
  destruct (IH (with_data data hs)) as (data' & -> & ? & ? & HC).
  - split; simpl; [destruct Hs; lia | done].
  - simpl. rewrite H6, H4. simpl. unfold contents. lia.
  - exists data'. split_and!; [done | simpl in *; lia | done |]. unfold contents in *. rewrite HC. simpl. rewrite H6.
    by rewrite <- Permutation_middle.
Qed.

Lemma replicate_full n i : full (replicate n empty) i = false.
Proof.
  apply full_false. unfold HashSetProbing.slot. destruct (replicate n empty !! Z.to_nat i) eqn:E; simpl; [| done].
  apply lookup_replicate in E as [-> _]. done.
Qed.

Lemma contents_replicate n : contents (replicate n empty) = [].
Proof.
  unfold contents. induction n; [done |]. simpl. rewrite filter_cons_False; [done |]. by rewrite Hempty.
Qed.

Lemma AllocateStorage_sound n hs : 0 <= n -> sound_buckets (AllocateStorage empty n hs).
Proof.
  intros. split; simpl; [rewrite length_replicate; lia |]. intros j _ Hf. by rewrite replicate_full in Hf.
Qed.

Lemma Resize_ok fuel n hs :
  num_elements_ hs = zlength (contents (data_ hs)) -> num_elements_ hs <= n <= Z.of_nat fuel ->
  exists hs', Resize empty IsEmpty hashfn fuel n hs = Ok hs' /\ sound_buckets hs' /\ num_buckets_ hs' = n /\
    contents (data_ hs') ≡ₚ contents (data_ hs) /\ num_elements_ hs' = num_elements_ hs /\
    elements_until_expand_ hs' = elements_until_expand_ hs /\
    min_load_factor_ hs' = min_load_factor_ hs /\ max_load_factor_ hs' = max_load_factor_ hs.
Proof.
  intros He Hn. unfold Resize, Size. rewrite (proj2 (Z.leb_le _ _)) by lia. cbn [mbind res_bind check].
  destruct (reinsert_ok fuel (data_ hs) (AllocateStorage empty n hs)) as (data & -> & Hlen & Hp & HC).
  - apply AllocateStorage_sound. lia.
  - simpl. rewrite contents_replicate, length_replicate. simpl. lia.
  - eexists. simpl in *. rewrite length_replicate in Hlen. rewrite contents_replicate, app_nil_r in HC.
    split_and!; [done | split; simpl; [lia | done] | done..].
Qed.

Lemma Expand_ok fuel hs :
  well_formed hs -> num_elements_ hs < size_bound -> 1000 + 2 * num_elements_ hs <= Z.of_nat fuel ->
  exists hs', Expand empty IsEmpty hashfn fuel hs = Ok hs' /\ well_formed hs' /\
    num_elements_ hs' < elements_until_expand_ hs' /\ num_elements_ hs' = num_elements_ hs /\
    num_buckets_ hs' <= 1000 + 2 * num_elements_ hs /\
    contents (data_ hs') ≡ₚ contents (data_ hs).
Proof.
  intros [Hs He Hr Hsp Hmin Hmax] Hb Hf. unfold Expand. rewrite Hmin.
  unfold size_bound in Hb. unfold Size. rewrite scale_down_half by lia. set (m := if _ <? _ then _ else _).
  assert (1000 <= m /\ 2 * num_elements_ hs <= m /\ m <= 1000 + 2 * num_elements_ hs) as (Hm & Hm2 & Hm3).
  { unfold m, kMinBuckets. destruct (Z.ltb_spec (2 * num_elements_ hs) 1000); lia. }
  destruct (Resize_ok fuel m hs) as (hs' & -> & H1 & H2 & H3 & H4 & H5 & H6 & H7); [done | lia |].
  cbn [mbind res_bind]. eexists. split; [done |]. rewrite H7, Hmax, H2.
  destruct (scale_up_bounds m ltac:(lia)) as (Hup & Hlt & Hz).
  split; [split; simpl; [by destruct H1; split | | lia.. | congruence | congruence] |].
  - rewrite H4, H3. done.
  - simpl. split_and!; [lia.. | done].
Qed.

(** ** Insertion *)

Lemma Insert_ok fuel x hs :
  well_formed hs -> num_elements_ hs < size_bound -> IsEmpty x = false ->
  1000 + 2 * num_elements_ hs <= Z.of_nat fuel -> num_buckets_ hs <= Z.of_nat fuel ->
  exists hs', Insert empty IsEmpty hashfn fuel x hs = Ok hs' /\ well_formed hs' /\
    num_buckets_ hs' <= Z.max (num_buckets_ hs) (1000 + 2 * num_elements_ hs) /\
    contents (data_ hs') ≡ₚ x :: contents (data_ hs).
Proof.
  intros Hw Hb Hx Hf Hf'. unfold Insert, InsertWithHash. rewrite Z.eqb_refl. cbn [mbind res_bind check].
  assert (exists hs1, (if elements_until_expand_ hs <=? num_elements_ hs then
          hs ← Expand empty IsEmpty hashfn fuel hs; _ ← check (num_elements_ hs <? elements_until_expand_ hs); Ok hs
        else Ok hs) = Ok hs1 /\ well_formed hs1 /\ num_elements_ hs1 < elements_until_expand_ hs1 /\
     num_elements_ hs1 = num_elements_ hs /\ num_buckets_ hs1 <= Z.max (num_buckets_ hs) (1000 + 2 * num_elements_ hs) /\
     contents (data_ hs1) ≡ₚ contents (data_ hs)) as (hs1 & E & Hw1 & Hlt & He & Hbu & HC).
  { destruct (Z.leb_spec (elements_until_expand_ hs) (num_elements_ hs)); [| exists hs; split_and!; auto with lia].
    destruct (Expand_ok fuel hs Hw Hb Hf) as (hs1 & -> & H1 & H2 & H3 & H4 & H5). exists hs1. cbn [mbind res_bind].
    rewrite (proj2 (Z.ltb_lt _ _)) by done. split_and!; auto with lia. }
  rewrite E. cbn [mbind res_bind]. destruct Hw1 as [Hs1 He1 Hr1 Hsp1 Hmin1 Hmax1].
  pose proof (sb_buckets _ Hs1). destruct (place hs1 x fuel Hs1) as (i & data & -> & H2 & H3 & H4 & H5 & H6); [lia | done |].
  cbn [mbind res_bind]. rewrite H2. cbn [mbind res_bind]. rewrite H3. cbn [mbind res_bind]. eexists. split; [done |].
  split; [split; simpl; [split; simpl; [lia | done] | | lia.. | done | done] | split; [done | simpl; by rewrite H6, HC]].
  rewrite H6. simpl. lia.
Qed.

Lemma spare_bucket hs : well_formed hs -> zlength (contents (data_ hs)) < zlength (data_ hs).
Proof. intros [[]]. lia. Qed.

(** ** Lookup *)

Section find.
Context {K : Type} (keyhash : K -> Z) (pred : T -> K -> bool).
Context (Hpred : forall x k, pred x k = true -> hashfn x = keyhash k).

(** Where a probe stops, for an element that is absent or at [d] buckets from the start. *)
Lemma probe_stops hs k : num_buckets_ hs = zlength (data_ hs) -> forall d fuel i,
  0 <= i < zlength (data_ hs) -> 0 <= d < zlength (data_ hs) -> d < Z.of_nat fuel ->
  (forall y, 0 <= y < d -> full (data_ hs) (cyc (zlength (data_ hs)) i y) = true /\
                         pred (slot (data_ hs) (cyc (zlength (data_ hs)) i y)) k = false) ->
  let j := cyc (zlength (data_ hs)) i d in
  (full (data_ hs) j = false -> probe IsEmpty pred fuel hs k i = Ok (num_buckets_ hs)) /\
  (full (data_ hs) j = true -> pred (slot (data_ hs) j) k = true -> probe IsEmpty pred fuel hs k i = Ok j).
Proof.
  intros Hn d fuel. set (n := zlength (data_ hs)). revert d.
  induction fuel as [| fuel IH]; intros d i Hi Hd Hf Hall j; [lia |]. cbn [probe].
  rewrite (ElementForIndex_slot hs Hn) by done. cbn [mbind res_bind].
  destruct (decide (d = 0)) as [-> | Hd0].
  - assert (j = i) as -> by (unfold j; circle). rewrite full_false, full_true. split; [by intros -> | by intros -> ->].
  - destruct (Hall 0 ltac:(lia)) as [H0 H0']. replace (cyc n i 0) with i in H0, H0' by circle. apply full_true in H0.
    rewrite H0, H0', NextIndex_cyc by done. cbn [mbind res_bind].
    assert (j = cyc n (cyc n i 1) (d - 1)) as -> by (symmetry; apply cyc_next; lia).
    apply IH; [apply cyc_range; lia | lia.. |]. intros y Hy. rewrite cyc_add by lia. apply Hall. lia.
Qed.

Lemma Find_ok hs k fuel :
  well_formed hs -> num_buckets_ hs <= Z.of_nat fuel ->
  exists i, Find IsEmpty keyhash pred fuel k hs = Ok i /\
    ((0 <= i < num_buckets_ hs /\ full (data_ hs) i = true /\ pred (slot (data_ hs) i) k = true) \/
     (i = num_buckets_ hs /\ Forall (fun x => pred x k = false) (contents (data_ hs)))).
Proof.
  intros Hw Hf. pose proof (spare_bucket hs Hw) as Hlt. destruct Hw as [[Hn Hp] _ _ _ _ _].
  unfold Find, FindWithHash. rewrite Z.eqb_refl. cbn [mbind res_bind check].
  unfold IndexForHash. rewrite (proj2 (Z.eqb_neq _ 0)) by lia. cbn [mbind res_bind check negb].
  set (n := zlength (data_ hs)) in *. rewrite Hn. set (i := keyhash k mod n).
  assert (0 <= i < n) as Hi by (apply Z.mod_pos_bound; lia).
  destruct (first_empty empty IsEmpty (data_ hs) i Hlt Hi) as (d & Hd & Hfree & Hall). fold n in Hd, Hfree, Hall.
  set (stop y := negb (full (data_ hs) (cyc n i y)) || pred (slot (data_ hs) (cyc n i y)) k).
  destruct (first_such stop d) as (d' & Hd' & Hstop & Hpass); [lia | unfold stop; by rewrite Hfree |].
  destruct (probe_stops hs k Hn d' fuel i) as [Habsent Hfound]; [done | lia | lia | |].
  { intros y Hy. specialize (Hpass y Hy). unfold stop in Hpass. by apply orb_false_iff in Hpass as [?%negb_false_iff ?]. }
  fold n in Habsent, Hfound. pose proof (cyc_range i d' Hi ltac:(lia)).
  destruct (full (data_ hs) (cyc n i d')) eqn:Ef.
  - unfold stop in Hstop. rewrite Ef in Hstop. exists (cyc n i d'). split; [by apply Hfound |]. by left.
  - exists (num_buckets_ hs). rewrite Hn in *. split; [by apply Habsent |]. right. split; [done |].
    apply Forall_forall. intros x Hx. apply (elem_of_contents empty) in Hx as (j & Hj & Hfj & <-).
    apply not_true_is_false. intros Hk. pose proof (Hp j Hj Hfj) as Hpath. unfold path_full in Hpath.
    assert (ideal (data_ hs) (slot (data_ hs) j) = i) as Hij by (unfold i, ideal; by rewrite (Hpred _ _ Hk)).
    rewrite Hij in Hpath. fold n in Hpath, Hj. pose proof (cyc_dist i j Hi Hj) as Ej. pose proof (dist_range i j Hi Hj).
    destruct (Z.lt_trichotomy (dist n i j) d') as [Hc | [Hc | Hc]].
    + specialize (Hpass (dist n i j) ltac:(lia)). unfold stop in Hpass. by rewrite Ej, Hk, orb_true_r in Hpass.
    + rewrite <- Hc, Ej in Ef. congruence.
    + rewrite Hpath in Ef by lia. done.
Qed.
End find.
End operations.
