(* ===== verification/HashSetErase.v ===== *)
(** * Removal from a hash set

    The loop of [HashSet::Erase] has a hole, the bucket that will become empty, and goes on
    to the next empty bucket.  It keeps linear probing intact for the set without the hole:
    an element behind the hole that is probed from before it moves into it.  The iterator it
    returns has not passed an element, so a loop over the set that removes elements sees
    all of them. *)

From S2P Require Import Prelude HashSet HashSetLoad HashSetProbing HashSetInvariant.

(** ** Ways around the circle *)

Section ways.
Context {n : Z}.

Lemma dist_same i : dist n i i = 0.
Proof. circle. Qed.

Lemma dist_zero i j : 0 <= i < n -> 0 <= j < n -> dist n i j = 0 -> i = j.
Proof. intros. circle. Qed.

(** A way from [p] that reaches [e] before [k] continues from [e] to [k]. *)
Lemma dist_through p e k :
  0 <= p < n -> 0 <= e < n -> 0 <= k < n -> dist n p e <= dist n p k -> dist n p k = dist n p e + dist n e k.
Proof. intros. circle. Qed.

Lemma dist_on_way p e k j :
  0 <= p < n -> 0 <= e < n -> 0 <= k < n -> 0 <= j < n ->
  dist n p e <= dist n p k -> dist n e j <= dist n e k -> dist n p j = dist n p e + dist n e j.
Proof. intros. circle. Qed.

Lemma dist_next i j : 0 <= i < n -> 0 <= j < n -> dist n i j + 1 < n -> dist n i (cyc n j 1) = dist n i j + 1.
Proof. intros. circle. Qed.

(** The condition of [Erase] for moving the element at [j], found from [p], to [e]. *)
Lemma erase_condition e j p :
  0 <= e < n -> 0 <= j < n -> 0 <= p < n -> e <> j ->
  ((if p <? e then p + n else p) <=? e) || ((if j <? e then j + n else j) <? (if p <? e then p + n else p)) =
  (dist n p e <? dist n p j).
Proof.
  intros. apply eq_iff_eq_true. rewrite orb_true_iff, Z.leb_le, !Z.ltb_lt. circle.
Qed.
End ways.

Section erase.
Context {T : Type} (empty : T) (IsEmpty : T -> bool) (hashfn : T -> Z).
Context (Hempty : IsEmpty empty = true).
Implicit Types hs : HashSet T.
Implicit Types data : list T.

#[local] Abbreviation slot := (slot empty).
#[local] Abbreviation full := (full empty IsEmpty).
#[local] Abbreviation ideal := (ideal hashfn).
#[local] Abbreviation probing := (probing empty IsEmpty hashfn).
#[local] Abbreviation contents := (contents IsEmpty).

(** Moving an element leaves the same buckets full, apart from the one it leaves. *)
Lemma full_put_full data i x k :
  0 <= i < zlength data -> 0 <= k -> full data i = true -> IsEmpty x = false -> full (put data i x) k = full data k.
Proof. intros Hi Hk Hf Hx. rewrite full_put by done. case_decide; [subst; by rewrite Hx, Hf | done]. Qed.

Lemma contents_move data e j :
  0 <= e < zlength data -> 0 <= j < zlength data -> e <> j -> full data j = true ->
  contents (put (put data e (slot data j)) j empty) ≡ₚ contents (put data e empty).
Proof.
  intros He Hj Hne Hf. assert (E : put (put data e (slot data j)) j empty = put (put data j empty) e (slot data j)).
  { unfold put. by rewrite list_insert_insert_ne by lia. }
  assert (E' : put (put data e empty) j empty = put (put data j empty) e empty).
  { unfold put. by rewrite list_insert_insert_ne by lia. }
  assert (Hi : put (put (put data j empty) e empty) e (slot data j) = put (put data j empty) e (slot data j)).
  { unfold put. by rewrite list_insert_insert_eq. }
  rewrite E, <- Hi. rewrite (contents_put empty).
  - rewrite <- E'. symmetry. etrans; [apply (contents_clear empty IsEmpty Hempty (put data e empty) j) |].
    + by rewrite put_length.
    + by rewrite full_put, decide_False by done || lia.
    + by rewrite slot_put, decide_False by done || lia.
  - by rewrite !put_length.
  - rewrite full_put by (rewrite ?put_length; lia). rewrite decide_True by done. by rewrite Hempty.
  - by apply full_true.
Qed.

(** ** The loop *)

Section loop.
Context (n it z : Z) (data0 : list T) (Hit : 0 <= it < n) (Hz : 0 <= z < n).

(** The hole is [e], and the loop has looked at the buckets up to [j]; [z] is empty. *)
Record hole (data : list T) (e j : Z) (filled : bool) : Prop := {
  h_length : zlength data = n;
  h_e : 0 <= e < n;
  h_j : 0 <= j < n;
  h_order : dist n it e <= dist n it j < dist n it z;
  h_empty : full data z = false;
  h_hole : full data e = true;
  h_path : forall k, 0 <= k < n -> k <> e -> full data k = true -> path_full empty IsEmpty data (ideal data (slot data k)) k;
  h_clear : forall k, 0 <= k < n -> k <> e -> full data k = true -> dist n e k <= dist n e j ->
    dist n (ideal data (slot data k)) k <= dist n (ideal data (slot data k)) e;
  h_contents : contents (put data e empty) ≡ₚ contents (put data0 it empty);
  h_from : forall k, 0 <= k < n -> k <> e -> full data k = true ->
    exists k0, 0 <= k0 < n /\ full data0 k0 = true /\ slot data k = slot data0 k0 /\ dist n it k <= dist n it k0;
  h_filled : if filled then full data it = true /\ e <> it else e = it;
}.

Lemma hole_ideal data e j filled x : hole data e j filled -> 0 <= ideal data x < n.
Proof. intros H. rewrite <- (h_length _ _ _ _ H). apply ideal_range. rewrite (h_length _ _ _ _ H). lia. Qed.

Lemma hole_start :
  zlength data0 = n -> probing data0 -> full data0 it = true -> full data0 z = false -> hole data0 it it false.
Proof.
  intros Hn Hp Hf Hfz. split; try done.
  - rewrite dist_same. assert (it <> z) by congruence. pose proof (dist_range it z Hit Hz).
    pose proof (dist_zero it z Hit Hz). lia.
  - intros k Hk _ Hfk. apply Hp; [lia | done].
  - intros k Hk Hne _ Hd. rewrite dist_same in Hd. pose proof (dist_range it k Hit Hk).
    destruct Hne. symmetry. apply (dist_zero it k Hit Hk). lia.
  - intros k Hk _ Hfk. exists k. done.
Qed.

Section step.
Context data e j filled (H : hole data e j filled).
#[local] Abbreviation j' := (cyc n j 1).

Lemma hole_next : 0 <= j' < n /\ j' <> e /\ dist n it j' = dist n it j + 1 /\ dist n e j' = dist n e j + 1.
Proof.
  destruct H as [_ He Hj Ho _ _ _ _ _ _ _]. pose proof (dist_range it z Hit Hz). pose proof (dist_range it j Hit Hj).
  assert (dist n it j' = dist n it j + 1) as E by (apply dist_next; lia || done).
  assert (0 <= j' < n) as Hj' by (apply cyc_range; lia).
  pose proof (dist_through it e j Hit He Hj ltac:(lia)). pose proof (dist_through it e j' Hit He Hj' ltac:(lia)).
  assert (dist n e j' = dist n e j + 1) as E' by lia. pose proof (dist_range e j He Hj).
  split; [done |]. split; [| done]. intros Ee. rewrite Ee, dist_same in E'. lia.
Qed.

(** The end: the next bucket is empty, and the hole becomes empty. *)
Lemma hole_end : full data j' = false -> probing (put data e empty).
Proof.
  intros Hfree. destruct hole_next as (Hj' & Hne & _ & Hd). pose proof H as [Hn He Hj _ _ _ Hp Hc _ _ _].
  intros k Hk Hfk. rewrite put_length, Hn in Hk. rewrite full_put in Hfk by lia. rewrite slot_put by lia.
  destruct (decide (e = k)) as [-> | Hek]; [by rewrite Hempty in Hfk |].
  specialize (Hp k Hk ltac:(done) Hfk). specialize (Hc k Hk ltac:(done) Hfk).
  pose proof (hole_ideal _ _ _ _ (slot data k) H) as Hi.
  unfold path_full, HashSetProbing.ideal in *. rewrite put_length. rewrite Hn in *. set (p := _ mod n) in *.
  assert (dist n p k <= dist n p e) as Hne'.
  { destruct (decide (dist n e k <= dist n e j)); [auto |]. destruct (Z.le_gt_cases (dist n p k) (dist n p e)); [done |].
    pose proof (dist_on_way p e k j' Hi He Hk Hj' ltac:(lia) ltac:(lia)) as Hw.
    pose proof (dist_through p e k Hi He Hk ltac:(lia)). pose proof (cyc_dist p j' Hi Hj') as Ej.
    pose proof (dist_range p j' Hi Hj'). assert (k <> j') by congruence.
    assert (dist n e k <> dist n e j') by (intros E; pose proof (cyc_dist e k He Hk); pose proof (cyc_dist e j' He Hj'); congruence).
    specialize (Hp (dist n p j') ltac:(lia)). congruence. }
  intros d Hd'. pose proof (dist_range p k Hi Hk). pose proof (cyc_range p d Hi ltac:(lia)).
  rewrite full_put by lia. rewrite decide_False; [by apply Hp |].
  intros E. pose proof (dist_cyc p d Hi ltac:(lia)) as Ed. rewrite <- E in Ed. lia.
Qed.

(** The element found on the way over the hole moves into it. *)
Lemma hole_move :
  full data j' = true -> dist n (ideal data (slot data j')) e < dist n (ideal data (slot data j')) j' ->
  hole (put data e (slot data j')) j' j' true.
Proof.
  intros Hf Hover. destruct hole_next as (Hj' & Hne & Ho' & Hd). pose proof H as [Hn He Hj Ho Hfz Hfe Hp Hc HC Hfrom Hfl].
  pose proof (hole_ideal _ _ _ _ (slot data j') H) as Hi. pose proof (proj1 (full_true empty IsEmpty data j') Hf) as Hne'.
  assert (Hsame : forall k, 0 <= k -> full (put data e (slot data j')) k = full data k).
  { intros k Hk. apply full_put_full; lia || done. }
  assert (Hid : forall x, ideal (put data e (slot data j')) x = ideal data x).
  { intros x. unfold HashSetProbing.ideal. by rewrite put_length. }
  assert (Hz' : j' <> z) by congruence. assert (dist n it j' <> dist n it z).
  { intros E. apply Hz'. by rewrite <- (cyc_dist it j' Hit Hj'), E, cyc_dist. }
  split.
  - by rewrite put_length.
  - done.
  - done.
  - lia.
  - by rewrite Hsame by lia.
  - by rewrite Hsame by lia.
  - intros k Hk Hkj Hfk d Hd'. rewrite Hsame in Hfk by lia. rewrite put_length, Hn in Hd' |- *. rewrite Hid in Hd' |- *.
    rewrite slot_put in Hd' |- * by lia. destruct (decide (e = k)) as [-> | Hek].
    + pose proof (Hp j' Hj' Hne Hf d) as Hpj. rewrite Hn in Hpj. pose proof (cyc_range _ d Hi ltac:(pose proof (dist_range _ k Hi He); lia)).
      rewrite Hsame by lia. apply Hpj. lia.
    + pose proof (hole_ideal _ _ _ _ (slot data k) H) as Hik. pose proof (dist_range _ k Hik Hk).
      pose proof (cyc_range _ d Hik ltac:(lia)). rewrite Hsame by lia.
      pose proof (Hp k Hk ltac:(done) Hfk d) as Hpk. rewrite Hn in Hpk. by apply Hpk.
  - intros k Hk Hkj _ Hd'. rewrite dist_same in Hd'. pose proof (dist_range j' k Hj' Hk).
    destruct Hkj. symmetry. apply (dist_zero j' k Hj' Hk). lia.
  - rewrite contents_move by (lia || done). done.
  - intros k Hk Hkj Hfk. rewrite Hsame in Hfk by lia. rewrite slot_put by lia. destruct (decide (e = k)) as [-> | Hek].
    + destruct (Hfrom j' Hj' Hne Hf) as (k0 & ? & ? & ? & ?). exists k0. split_and!; [lia.. | done | done | lia].
    + apply Hfrom; auto.
  - rewrite Hsame by lia. destruct filled; [destruct Hfl |]; split; try congruence. intros E.
    rewrite E, dist_same in Ho'. pose proof (dist_range it j Hit Hj). lia.
Qed.

Lemma hole_stay :
  full data j' = true -> dist n (ideal data (slot data j')) j' <= dist n (ideal data (slot data j')) e ->
  hole data e j' filled.
Proof.
  intros Hf Hover. destruct hole_next as (Hj' & Hne & Ho' & Hd). pose proof H as [Hn He Hj Ho Hfz Hfe Hp Hc HC Hfrom Hfl].
  assert (Hz' : j' <> z) by congruence. assert (dist n it j' <> dist n it z).
  { intros E. apply Hz'. by rewrite <- (cyc_dist it j' Hit Hj'), E, cyc_dist. }
  split; try done; [lia |]. intros k Hk Hke Hfk Hd'. destruct (decide (k = j')) as [-> |]; [done |].
  apply Hc; try done. destruct (decide (dist n e k = dist n e j')) as [E |]; [| lia].
  assert (k = j') by (by rewrite <- (cyc_dist e k He Hk), E, cyc_dist). done.
Qed.
End step.

(** What the loop leaves: the set without the element at [it]. *)
Record erased (data : list T) (filled : bool) : Prop := {
  er_length : zlength data = n;
  er_probing : probing data;
  er_contents : contents data ≡ₚ contents (put data0 it empty);
  er_from : forall k, 0 <= k < n -> full data k = true ->
    exists k0, 0 <= k0 < n /\ full data0 k0 = true /\ slot data k = slot data0 k0 /\ dist n it k <= dist n it k0;
  er_filled : full data it = filled;
}.

Lemma hole_erased data e j filled :
  hole data e j filled -> full data (cyc n j 1) = false -> erased (put data e empty) filled.
Proof.
  intros H Hfree. pose proof (hole_end _ _ _ _ H Hfree). destruct H as [Hn He _ _ _ _ _ _ HC Hfrom Hfl]. split; try done.
  - by rewrite put_length.
  - intros k Hk Hfk. rewrite full_put in Hfk by lia. rewrite slot_put by lia.
    destruct (decide (e = k)); [by rewrite Hempty in Hfk | by apply Hfrom].
  - rewrite full_put by lia. destruct filled, (decide (e = it)); try naive_solver. by rewrite Hempty.
Qed.

Lemma erase_loop_ok fuel : forall hs e j filled,
  num_buckets_ hs = n -> hole (data_ hs) e j filled -> dist n it z - dist n it j <= Z.of_nat fuel ->
  exists data filled', erase_loop empty IsEmpty hashfn fuel hs e j filled = Ok (with_data data hs, filled') /\
    erased data filled'.
Proof.
  induction fuel as [| fuel IH]; intros hs e j filled Hb H Hf; pose proof H as [Hn He Hj Ho _ _ _ _ _ _ _]; [lia |].
  destruct (hole_next _ _ _ _ H) as (Hj' & Hne & Ho' & _). rewrite Nat2Z.inj_succ in Hf.
  cbn [erase_loop]. rewrite NextIndex_cyc by congruence || lia. rewrite Hn. cbn [mbind res_bind].
  rewrite (ElementForIndex_slot empty) by congruence || lia. cbn [mbind res_bind].
  destruct (IsEmpty (slot (data_ hs) (cyc n j 1))) eqn:Ef.
  - rewrite zset_put by lia. cbn [mbind res_bind]. exists (put (data_ hs) e empty), filled. split; [done |].
    eapply hole_erased; [done |]. by apply full_false.
  - rewrite (IndexForHash_ideal hashfn) by congruence || lia. cbn [mbind res_bind]. rewrite Hb.
    apply full_true in Ef as Hfull. pose proof (hole_ideal _ _ _ _ (slot (data_ hs) (cyc n j 1)) H) as Hi.
    rewrite erase_condition by done. destruct (Z.ltb_spec (dist n (ideal (data_ hs) (slot (data_ hs) (cyc n j 1))) e)
      (dist n (ideal (data_ hs) (slot (data_ hs) (cyc n j 1))) (cyc n j 1))).
    + rewrite zset_put by lia. cbn [mbind res_bind].
      destruct (IH (with_data (put (data_ hs) e (slot (data_ hs) (cyc n j 1))) hs) (cyc n j 1) (cyc n j 1) true)
        as (data & f & E & ?); [done | by eapply hole_move | lia |]. exists data, f. by rewrite E.
    + apply IH; [done | by apply hole_stay | lia].
Qed.
End loop.

(** ** Iteration *)

Lemma next_slot_ok hs : num_buckets_ hs = zlength (data_ hs) -> forall fuel i,
  -1 <= i < num_buckets_ hs -> num_buckets_ hs - i <= Z.of_nat fuel ->
  exists i', next_slot IsEmpty fuel hs i = Ok i' /\ i < i' <= num_buckets_ hs /\
    (forall k, i < k < i' -> full (data_ hs) k = false) /\ (i' < num_buckets_ hs -> full (data_ hs) i' = true).
Proof.
  intros Hn fuel. induction fuel as [| fuel IH]; intros i Hi Hf; [lia |]. cbn [next_slot].
  destruct (Z.ltb_spec (i + 1) (num_buckets_ hs)).
  - unfold IsFreeSlot. rewrite (ElementForIndex_slot empty) by lia || done. cbn [mbind res_bind].
    destruct (IsEmpty (slot (data_ hs) (i + 1))) eqn:E.
    + destruct (IH (i + 1)) as (i' & -> & ? & Hk & ?); [lia.. |]. exists i'. split_and!; [done | lia.. | | done].
      intros k Hki. destruct (decide (k = i + 1)) as [-> |]; [by apply full_false | apply Hk; lia].
    + exists (i + 1). split_and!; [done | lia.. | by intros; apply full_true].
  - exists (i + 1). split_and!; [done | lia..].
Qed.

Lemma NextNonEmptySlot_ok hs i :
  num_buckets_ hs = zlength (data_ hs) -> 0 <= i < num_buckets_ hs ->
  exists i', NextNonEmptySlot IsEmpty hs i = Ok i' /\ i < i' <= num_buckets_ hs /\
    (forall k, i < k < i' -> full (data_ hs) k = false) /\ (i' < num_buckets_ hs -> full (data_ hs) i' = true).
Proof.
  intros Hn Hi. unfold NextNonEmptySlot. rewrite (proj2 (Z.ltb_lt _ _)) by lia. cbn [mbind res_bind check].
  apply next_slot_ok; lia || done.
Qed.

(** An iterator behind which all elements have been seen: the end or a full bucket. *)
Definition valid_iterator hs (i : Z) : Prop := 0 <= i <= num_buckets_ hs /\ (i < num_buckets_ hs -> full (data_ hs) i = true).

Lemma begin_ok hs :
  num_buckets_ hs = zlength (data_ hs) ->
  exists i, begin IsEmpty hs = Ok i /\ valid_iterator hs i /\ forall k, 0 <= k < i -> full (data_ hs) k = false.
Proof.
  intros Hn. unfold begin, valid_iterator. destruct (Z.eqb_spec (num_buckets_ hs) 0) as [E | E]; simpl.
  { exists 0. split_and!; [done | lia..]. }
  unfold IsFreeSlot. rewrite (ElementForIndex_slot empty) by lia. cbn [mbind res_bind].
  destruct (IsEmpty (slot (data_ hs) 0)) eqn:Ef.
  - destruct (NextNonEmptySlot_ok hs 0 Hn ltac:(lia)) as (i & -> & ? & Hk & ?). exists i. split_and!; [done | lia.. | done |].
    intros k Hki. destruct (decide (k = 0)) as [-> |]; [by apply full_false | apply Hk; lia].
  - exists 0. split_and!; [done | lia.. | by intros; apply full_true | lia].
Qed.

(** ** The operation *)

Lemma Erase_ok hs it fuel :
  well_formed empty IsEmpty hashfn hs -> 0 <= it < num_buckets_ hs -> full (data_ hs) it = true ->
  num_buckets_ hs <= Z.of_nat fuel ->
  exists hs' it', Erase empty IsEmpty hashfn fuel it hs = Ok (hs', it') /\ well_formed empty IsEmpty hashfn hs' /\
    num_buckets_ hs' = num_buckets_ hs /\
    contents (data_ hs) ≡ₚ slot (data_ hs) it :: contents (data_ hs') /\
    valid_iterator hs' it' /\ it <= it' /\
    forall k, 0 <= k < it' -> full (data_ hs') k = true ->
      exists k0, 0 <= k0 < it /\ full (data_ hs) k0 = true /\ slot (data_ hs') k = slot (data_ hs) k0.
Proof.
  intros Hw Hit Hfull Hf. pose proof (spare_bucket _ _ _ hs Hw) as Hlt. pose proof Hw as [[Hn Hp] He Hr Hsp Hmin Hmax].
  set (n := num_buckets_ hs) in *. unfold Erase, IsFreeSlot. rewrite (ElementForIndex_slot empty) by lia || done.
  cbn [mbind res_bind]. rewrite (proj1 (full_true _ _ _ _) Hfull). cbn [mbind res_bind check negb].
  destruct (empty_bucket empty IsEmpty (data_ hs) Hlt) as (z & Hz & Hfz). rewrite <- Hn in Hz.
  pose proof (hole_start n it z (data_ hs) Hit Hz (eq_sym Hn) Hp Hfull Hfz) as Hh.
  pose proof (dist_range it z Hit Hz). rewrite <- Hn in Hlt.
  destruct (erase_loop_ok n it z (data_ hs) Hit Hz fuel hs it it false eq_refl Hh) as (data & filled & -> & Her).
  { rewrite dist_same. lia. }
  destruct Her as [El Epr EC Efrom Efl]. cbn [mbind res_bind].
  pose proof (contents_clear empty IsEmpty Hempty (data_ hs) it ltac:(lia) Hfull) as HC. rewrite <- EC in HC.
  set (hs' := with_num_elements _ _).
  assert (Hw' : well_formed empty IsEmpty hashfn hs').
  { split; simpl; [split; simpl; [lia | done] | | lia.. | done | done]. rewrite He, HC. simpl. lia. }
  assert (Hlow : forall k, 0 <= k < it -> full data k = true ->
     exists k0, 0 <= k0 < it /\ full (data_ hs) k0 = true /\ slot data k = slot (data_ hs) k0).
  { intros k Hk Hfk. destruct (Efrom k ltac:(lia) Hfk) as (k0 & H0 & ? & ? & Hd). exists k0. split; [| done].
    revert Hd. clear -Hk Hit H0. circle. }
  destruct filled; cbn [mbind res_bind].
  - exists hs', it. split_and!; try done; []. split; simpl; [lia | done].
  - destruct (NextNonEmptySlot_ok hs' it) as (it' & -> & Hi' & Hskip & Hend); [apply Hw' | done |]. cbn [mbind res_bind].
    exists hs', it'. split_and!; try done; [by split; [lia |] | lia |]. intros k Hk Hfk. simpl in Hskip, Hfk.
    apply Hlow; [| done]. destruct (Z.lt_trichotomy k it) as [? | [-> | ?]]; [lia | congruence |].
    rewrite Hskip in Hfk by lia. done.
Qed.
End erase.
