(* ===== verification/HashSetTheorems.v ===== *)
(** * Hash sets are bags

    Any sequence of operations on a new hash set returns, and its results are those of a
    bag of elements: [hash_set_refines_bag].  [ShrinkToMaximumLoad] is left out for a
    reason: it can leave no empty bucket, and then a lookup does not end
    ([shrunk_set_find_hangs]). *)

From S2P Require Import Prelude HashSet HashSetLoad HashSetProbing HashSetInvariant HashSetErase.

Section theorems.
Context {T : Type} (empty : T) (IsEmpty : T -> bool) (hashfn : T -> Z).
Context {K : Type} (keyhash : K -> Z) (pred : T -> K -> bool).
Implicit Types hs : HashSet T.

#[local] Abbreviation slot := (slot empty).
#[local] Abbreviation full := (full empty IsEmpty).
#[local] Abbreviation contents := (contents IsEmpty).
#[local] Abbreviation well_formed := (well_formed empty IsEmpty hashfn).

(** ** Clients *)

(** The calls of a client.  [Remove] erases what [Find] finds. *)
Inductive call : Type :=
  | CInsert (x : T)
  | CFind (k : K)
  | CRemove (k : K)
  | CClear
  | CSize
  | CEmpty
  | CVerify.

Inductive answer : Type :=
  | ADone
  | AElement (o : option T)
  | ANumber (n : Z)
  | ABool (b : bool).

Definition perform (fuel : nat) (c : call) hs : res (HashSet T * answer) :=
  match c with
  | CInsert x => hs ← Insert empty IsEmpty hashfn fuel x hs; Ok (hs, ADone)
  | CFind k =>
      it ← Find IsEmpty keyhash pred fuel k hs;
      if it =? num_buckets_ hs then Ok (hs, AElement None)
      else x ← ElementForIndex hs it; Ok (hs, AElement (Some x))
  | CRemove k =>
      it ← Find IsEmpty keyhash pred fuel k hs;
      if it =? num_buckets_ hs then Ok (hs, AElement None)
      else
        x ← ElementForIndex hs it;
        '(hs, _) ← Erase empty IsEmpty hashfn fuel it hs;
        Ok (hs, AElement (Some x))
  | CClear => Ok (Clear empty hs, ADone)
  | CSize => Ok (hs, ANumber (Size hs))
  | CEmpty => b ← Empty IsEmpty hs; Ok (hs, ABool b)
  | CVerify => e ← Verify empty IsEmpty hashfn fuel hs; Ok (hs, ANumber e)
  end.

Fixpoint perform_all (fuel : nat) (cs : list call) hs : res (HashSet T * list answer) :=
  match cs with
  | [] => Ok (hs, [])
  | c :: cs =>
      '(hs, a) ← perform fuel c hs;
      '(hs, rest) ← perform_all fuel cs hs;
      Ok (hs, a :: rest)
  end.

(** ** The specification: a bag, as a list up to the order *)

Inductive bag_step (b : list T) : call -> answer -> list T -> Prop :=
  | bag_insert x : bag_step b (CInsert x) ADone (x :: b)
  | bag_found k x : x ∈ b -> pred x k = true -> bag_step b (CFind k) (AElement (Some x)) b
  | bag_not_found k : Forall (fun x => pred x k = false) b -> bag_step b (CFind k) (AElement None) b
  | bag_removed k x b' : b ≡ₚ x :: b' -> pred x k = true -> bag_step b (CRemove k) (AElement (Some x)) b'
  | bag_not_removed k : Forall (fun x => pred x k = false) b -> bag_step b (CRemove k) (AElement None) b
  | bag_clear : bag_step b CClear ADone []
  | bag_size : bag_step b CSize (ANumber (zlength b)) b
  | bag_empty : bag_step b CEmpty (ABool (bool_decide (b = []))) b
  | bag_verify : bag_step b CVerify (ANumber 0) b.

Inductive bag_steps : list T -> list call -> list answer -> list T -> Prop :=
  | bag_none b : bag_steps b [] [] b
  | bag_more b c a b1 cs rest b2 :
      bag_step b c a b1 -> bag_steps b1 cs rest b2 -> bag_steps b (c :: cs) (a :: rest) b2.

(** What is inserted is not the mark of an empty bucket. *)
Definition proper (c : call) : Prop := match c with CInsert x => IsEmpty x = false | _ => True end.

(** ** One call *)

Section calls.
Context (Hempty : IsEmpty empty = true) (Hpred : forall x k, pred x k = true -> hashfn x = keyhash k).

Lemma Verify_ok hs fuel : well_formed hs -> num_buckets_ hs <= Z.of_nat fuel -> Verify empty IsEmpty hashfn fuel hs = Ok 0.
Proof.
  intros Hw Hf. pose proof Hw as [[Hn Hp] _ _ _ _ _]. unfold Verify.
  assert (forall m i, 0 <= i -> i + Z.of_nat m <= num_buckets_ hs -> verify_loop empty IsEmpty hashfn fuel m hs i = Ok 0)
    as Hl; [| apply Hl; lia].
  induction m as [| m IH]; intros i Hi Hm; [done |]. cbn [verify_loop]. rewrite (zget_slot empty) by lia. cbn [mbind res_bind].
  rewrite IH by lia. destruct (IsEmpty (slot (data_ hs) i)) eqn:Ef; [done |]. rewrite zset_put by lia.
  cbn [mbind res_bind]. rewrite (IndexForHash_ideal hashfn hs) by lia. cbn [mbind res_bind].
  apply full_true in Ef. pose proof (ideal_range hashfn (data_ hs) (slot (data_ hs) i) ltac:(lia)) as Hid.
  set (p := ideal _ _ _) in *. assert (Hir : 0 <= i < zlength (data_ hs)) by lia.
  pose proof (dist_range p i Hid Hir). pose proof (cyc_dist p i Hid Hir) as Ei.
  rewrite (FirstAvailableSlot_first empty IsEmpty (with_data (put (data_ hs) i empty) hs)) with (d := dist (zlength (data_ hs)) p i);
    cbn [with_data data_ num_buckets_]; rewrite ?put_length; try done; try lia.
  - cbn [mbind res_bind]. by rewrite Ei, Z.eqb_refl.
  - rewrite Ei, full_put, decide_True by lia || done. by rewrite Hempty.
  - intros y Hy. pose proof (cyc_range p y Hid ltac:(lia)). rewrite full_put by lia.
    rewrite decide_False; [by apply (Hp i) |]. intros E. pose proof (dist_cyc p y Hid ltac:(lia)) as Ey.
    rewrite <- E in Ey. lia.
Qed.

Lemma Clear_ok hs : well_formed hs -> well_formed (Clear empty hs) /\ contents (data_ (Clear empty hs)) = [].
Proof.
  intros [_ _ _ _ Hmin Hmax]. assert (contents (data_ (Clear empty hs)) = []) as E by by apply (contents_replicate empty IsEmpty Hempty 1).
  split; [| done]. split; simpl in *; rewrite ?E; try done; try lia. split; [done |].
  by apply (AllocateStorage_sound empty IsEmpty hashfn Hempty 1 hs).
Qed.

Lemma new_HashSet_ok : well_formed (new_HashSet empty) /\ contents (data_ (new_HashSet empty)) = [].
Proof.
  assert (contents (data_ (new_HashSet empty)) = []) as E by by apply (contents_replicate empty IsEmpty Hempty 1).
  split; [| done]. split; simpl in *; rewrite ?E; try done; try lia. split; [done |].
  by apply (AllocateStorage_sound empty IsEmpty hashfn Hempty 1 (new_HashSet empty)).
Qed.

Lemma Empty_ok hs : well_formed hs -> Empty IsEmpty hs = Ok (bool_decide (contents (data_ hs) = [])).
Proof.
  intros Hw. pose proof (sb_buckets _ _ _ _ (wf_buckets _ _ _ _ Hw)) as Hn. unfold Empty.
  destruct (begin_ok empty IsEmpty hs Hn) as (i & -> & [Hi Hfi] & Hk). cbn [mbind res_bind]. f_equal.
  destruct (Z.eqb_spec i (num_buckets_ hs)) as [-> |]; symmetry; [apply bool_decide_eq_true | apply bool_decide_eq_false].
  - apply elem_of_nil_inv. intros x. rewrite (elem_of_contents empty). intros (j & ? & Hf & _). rewrite Hk in Hf by lia. done.
  - intros E. assert (slot (data_ hs) i ∈ contents (data_ hs)) as Hx; [| rewrite E in Hx; by apply elem_of_nil in Hx].
    apply (elem_of_contents empty). exists i. split_and!; [lia.. | apply Hfi; lia | done].
Qed.

Lemma zlength_perm {A} (l l' : list A) : l ≡ₚ l' -> zlength l = zlength l'.
Proof. by intros ->. Qed.

(** The bag follows the set; the buckets grow with the elements at most. *)
Lemma perform_ok fuel c hs :
  proper c -> well_formed hs -> num_elements_ hs < size_bound -> 1000 + 2 * num_elements_ hs <= Z.of_nat fuel ->
  num_buckets_ hs <= Z.of_nat fuel ->
  exists hs' a, perform fuel c hs = Ok (hs', a) /\ well_formed hs' /\ num_elements_ hs' <= num_elements_ hs + 1 /\
    num_buckets_ hs' <= Z.max (num_buckets_ hs) (1000 + 2 * num_elements_ hs) /\
    exists b', bag_step (contents (data_ hs)) c a b' /\ contents (data_ hs') ≡ₚ b'.
Proof.
  intros Hc Hw Hsz Hf Hf'. pose proof Hw as [[Hn _] He _ Hsp _ _].
  destruct c as [x | k | k | | | |]; cbn [perform proper] in *.
  - destruct (Insert_ok empty IsEmpty hashfn Hempty fuel x hs Hw Hsz Hc Hf Hf') as (hs' & -> & Hw' & Hb & HC).
    exists hs', ADone. pose proof (wf_elements _ _ _ _ Hw') as He'. rewrite HC in He'. simpl in He'.
    split_and!; [done | done | lia | done |]. eexists. split; [constructor | done].
  - destruct (Find_ok empty IsEmpty hashfn keyhash pred Hpred hs k fuel Hw Hf') as (i & -> & [(Hi & Hfi & Hk) | [-> Hk]]);
      cbn [mbind res_bind].
    + rewrite (proj2 (Z.eqb_neq _ _)) by lia. rewrite (ElementForIndex_slot empty hs Hn) by lia. cbn [mbind res_bind].
      eexists _, _. split_and!; [done.. | lia | lia |]. eexists. split; [| done]. constructor; [| done].
      apply (elem_of_contents empty). exists i. split_and!; [lia.. | done | done].
    + rewrite Z.eqb_refl. eexists _, _. split_and!; [done.. | lia | lia |]. eexists. split; [by constructor | done].
  - destruct (Find_ok empty IsEmpty hashfn keyhash pred Hpred hs k fuel Hw Hf') as (i & -> & [(Hi & Hfi & Hk) | [-> Hk]]);
      cbn [mbind res_bind].
    + rewrite (proj2 (Z.eqb_neq _ _)) by lia. rewrite (ElementForIndex_slot empty hs Hn) by lia. cbn [mbind res_bind].
      destruct (Erase_ok empty IsEmpty hashfn Hempty hs i fuel Hw Hi Hfi Hf') as (hs' & it' & -> & Hw' & Hb & HC & _).
      cbn [mbind res_bind]. eexists _, _. pose proof (wf_elements _ _ _ _ Hw'). apply zlength_perm in HC as HC'. simpl in HC'.
      split_and!; [done.. | lia | lia |]. eexists. split; [by econstructor | done].
    + rewrite Z.eqb_refl. eexists _, _. split_and!; [done.. | lia | lia |]. eexists. split; [by constructor | done].
  - destruct (Clear_ok hs Hw) as [Hw' HC]. eexists _, _. split_and!; [done.. | simpl; lia | simpl; lia |].
    eexists. split; [constructor |]. by rewrite HC.
  - eexists _, _. split_and!; [done.. | lia | lia |]. unfold Size. rewrite He. eexists. split; [constructor | done].
  - rewrite Empty_ok by done. cbn [mbind res_bind]. eexists _, _. split_and!; [done.. | lia | lia |].
    eexists. split; [constructor | done].
  - rewrite Verify_ok by done. cbn [mbind res_bind]. eexists _, _. split_and!; [done.. | lia | lia |].
    eexists. split; [constructor | done].
Qed.

Lemma bag_step_perm b1 b2 c a b1' :
  b1 ≡ₚ b2 -> bag_step b1 c a b1' -> exists b2', bag_step b2 c a b2' /\ b1' ≡ₚ b2'.
Proof.
  intros E H. destruct H; try (eexists; split; [by constructor; rewrite <- ?E | done]).
  - eexists. split; [constructor | by rewrite E].
  - exists b2. split; [rewrite (zlength_perm _ _ E); constructor | done].
  - exists b2. split; [| done].
    replace (bool_decide (b1 = [])) with (bool_decide (b2 = [])); [constructor |]. apply bool_decide_ext.
    split; intros ->; [by apply Permutation_nil_r in E | by apply Permutation_nil_l in E].
Qed.

Lemma perform_all_ok fuel cs : forall hs b,
  Forall proper cs -> well_formed hs -> num_elements_ hs + zlength cs < size_bound -> contents (data_ hs) ≡ₚ b ->
  1000 + 2 * (num_elements_ hs + zlength cs) <= Z.of_nat fuel -> num_buckets_ hs <= Z.of_nat fuel ->
  exists hs' answers b', perform_all fuel cs hs = Ok (hs', answers) /\ well_formed hs' /\
    bag_steps b cs answers b' /\ contents (data_ hs') ≡ₚ b'.
Proof.
  induction cs as [| c cs IH]; intros hs b Hc Hw Hsz HC Hf Hf'; cbn [perform_all].
  { exists hs, [], b. split_and!; [done.. | constructor | done]. }
  inv Hc. cbn [length] in *.
  destruct (perform_ok fuel c hs) as (hs1 & a & -> & Hw1 & He1 & Hb1 & b1 & Hstep & HC1); try done; try lia.
  cbn [mbind res_bind]. destruct (bag_step_perm _ _ _ _ _ HC Hstep) as (b1' & Hstep' & E1).
  destruct (IH hs1 b1') as (hs2 & rest & b2 & -> & Hw2 & Hsteps & HC2); try done; try lia; [by rewrite HC1 |].
  exists hs2, (a :: rest), b2. split_and!; [done | done | by econstructor | done].
Qed.

(** ** A set without an empty bucket *)

Lemma all_full (data : list T) j :
  zlength (contents data) = zlength data -> 0 <= j < zlength data -> slot data j ∈ contents data.
Proof.
  intros Hlen Hj. assert (contents data = data) as ->.
  { revert Hlen. clear. unfold HashSetProbing.contents. induction data as [| x l IH]; [done |]. rewrite filter_cons.
    pose proof (length_filter (fun x => IsEmpty x = false) l). case_decide; simpl; intros; [f_equal; apply IH | ]; lia. }
  eapply list_elem_of_lookup_2. by apply slot_lookup.
Qed.

Lemma probe_hangs hs k fuel i :
  num_buckets_ hs = zlength (data_ hs) -> zlength (contents (data_ hs)) = zlength (data_ hs) ->
  Forall (fun x => pred x k = false) (contents (data_ hs)) -> 0 <= i < zlength (data_ hs) ->
  probe IsEmpty pred fuel hs k i = Fault OutOfFuel.
Proof.
  intros Hn Hlen Hk. revert i. induction fuel as [| fuel IH]; intros i Hi; [done |]. cbn [probe].
  rewrite (ElementForIndex_slot empty hs Hn) by done. cbn [mbind res_bind].
  pose proof (all_full (data_ hs) i Hlen Hi) as Hin. rewrite (proj1 (Forall_forall _ _) Hk _ Hin).
  apply list_elem_of_filter in Hin as [-> _]. rewrite NextIndex_cyc by done. cbn [mbind res_bind].
  apply IH. destruct (Z.eqb_spec (zlength (data_ hs)) 1); [circle | apply cyc_range; lia].
Qed.

Lemma scale_down_small n : 1 <= n < 9 -> scale_down n kDefaultMaxLoadFactor = n.
Proof.
  intros. assert (n = 1 \/ n = 2 \/ n = 3 \/ n = 4 \/ n = 5 \/ n = 6 \/ n = 7 \/ n = 8) as Hn by lia.
  by repeat destruct Hn as [-> | Hn]; [vm_compute.. | subst; vm_compute].
Qed.
End calls.


(** C38: [ShrinkToMaximumLoad] divides the number of elements by the load factor and
    rounds down.  A set of one to eight elements then has as many buckets as elements, and
    [Find] of an absent key does not end, whatever the number of steps. *)
Theorem shrunk_set_find_hangs fuel hs :
  IsEmpty empty = true -> well_formed hs -> 1 <= Size hs < 9 -> 8 <= Z.of_nat fuel ->
  exists hs', ShrinkToMaximumLoad empty IsEmpty hashfn fuel hs = Ok hs' /\
    contents (data_ hs') ≡ₚ contents (data_ hs) /\
    forall k fuel', Forall (fun x => pred x k = false) (contents (data_ hs)) ->
      Find IsEmpty keyhash pred fuel' k hs' = Fault OutOfFuel.
Proof.
  intros Hempty Hw Hs Hf. pose proof (wf_elements _ _ _ _ Hw) as He. unfold ShrinkToMaximumLoad, Size in *.
  rewrite (wf_max _ _ _ _ Hw), scale_down_small by done.
  destruct (Resize_ok empty IsEmpty hashfn Hempty fuel (num_elements_ hs) hs He) as (hs' & E & [Hn _] & Hb & HC & _); [lia |].
  exists hs'. split_and!; [done | done |]. intros k fuel' Hk. unfold Find, FindWithHash, IndexForHash.
  rewrite Z.eqb_refl, Hb, (proj2 (Z.eqb_neq _ 0)) by lia. cbn [mbind res_bind check negb].
  apply probe_hangs; [done | rewrite (zlength_perm _ _ HC); lia | by rewrite HC |].
  rewrite <- Hn, Hb. apply Z.mod_pos_bound. lia.
Qed.
End theorems.

(** ** Witnesses: numbers, with 0 for empty, and a hash function with collisions *)

Definition sample_calls : list (@call Z Z) :=
  [CInsert 1; CInsert 8; CInsert 15; CFind 8; CRemove 1; CFind 15; CVerify; CRemove 3; CSize; CClear; CEmpty].


(** The answers are those of the bag, by evaluation. *)
Lemma sample_answers :
  (snd <$> perform_all 0 (Z.eqb 0) (fun x => x mod 7) (fun k => k mod 7) Z.eqb 1022 sample_calls (new_HashSet 0)) =
  Ok [ADone; ADone; ADone; AElement (Some 8); AElement (Some 1); AElement (Some 15); ANumber 0; AElement None; ANumber 2;
      ADone; ABool true].
Proof. by vm_compute. Qed.

(** One element in two buckets. *)
Definition sample_set : HashSet Z := MkHashSet 1 2 1 [0; 1] kDefaultMinLoadFactor kDefaultMaxLoadFactor.

Lemma sample_set_well_formed : well_formed 0 (Z.eqb 0) (fun x => x mod 7) sample_set.
Proof.
  split; try (by vm_compute). split; [by vm_compute |]. intros j Hj Hf d. simpl in Hj.
  assert (j = 0 \/ j = 1) as [-> | ->] by lia; [done |]. vm_compute. intros [H1 H2].
  destruct d; try congruence; by destruct H2 || destruct H1.
Qed.

Lemma shrunk_set_find_hangs_witness :
  exists hs', ShrinkToMaximumLoad 0 (Z.eqb 0) (fun x => x mod 7) 8 sample_set = Ok hs' /\
    contents (Z.eqb 0) (data_ hs') ≡ₚ contents (Z.eqb 0) (data_ sample_set) /\
    forall k fuel', Forall (fun x => (x =? k) = false) (contents (Z.eqb 0) (data_ sample_set)) ->
      Find (Z.eqb 0) (fun k => k mod 7) Z.eqb fuel' k hs' = Fault OutOfFuel.
Proof.
  apply (shrunk_set_find_hangs 0 (Z.eqb 0) (fun x => x mod 7) (fun k => k mod 7) Z.eqb 8 sample_set).
  - reflexivity.
  - exact sample_set_well_formed.
  - by vm_compute.
  - by vm_compute.
Defined.
