(* ===== verification/Utf.v ===== *)
(** * Modified UTF-8 (runtime/utf.{h,cc}, runtime/utf-inl.h)

    Conversion between UTF-16 strings and the zero-terminated strings of dex files, which
    encode every UTF-16 unit by one to three bytes and the zero unit by two; counting,
    hashing and comparison.  A pointer to characters is the list of values from it to the
    end of the buffer; reading past the end is the fault [OutOfBounds].  A character is
    its value as [uint8_t]; the code that reads a [char] with its sign masks the bits that
    differ. *)

From S2P Require Import Prelude Leb128.

(** [*ptr] and [ptr + n] *)
Definition deref (ptr : list Z) : res Z := zget ptr 0.
Definition advance (n : nat) (ptr : list Z) : res (list Z) :=
  if (n <=? length ptr)%nat then Ok (drop n ptr) else Fault OutOfBounds.

Definition two_byte_value (one two : Z) : Z := Z.lor (Z.shiftl (Z.land one 0x1f) 6) (Z.land two 0x3f).
Definition three_byte_value (one two three : Z) : Z :=
  Z.lor (Z.lor (Z.shiftl (Z.land one 0x0f) 12) (Z.shiftl (Z.land two 0x3f) 6)) (Z.land three 0x3f).

Definition GetUtf16FromUtf8 (utf8_data_in : list Z) : res (Z * list Z) :=
  '(one, p) ← next_byte utf8_data_in;
  if Z.land one 0x80 =? 0 then Ok (one, p)
  else
    '(two, p) ← next_byte p;
    if Z.land one 0x20 =? 0 then Ok (two_byte_value one two, p)
    else
      '(three, p) ← next_byte p;
      Ok (three_byte_value one two three, p).

(** The loop of [CountModifiedUtf8Chars]; an iteration reads at least one byte. *)
Fixpoint count_chars (fuel : nat) (utf8 : list Z) (len : Z) : res Z :=
  match fuel with
  | O => Fault OutOfFuel
  | S fuel =>
      '(ic, utf8) ← next_byte utf8;
      if ic =? 0 then Ok len
      else if Z.land ic 0x80 =? 0 then count_chars fuel utf8 (len + 1)
      else
        utf8 ← advance 1 utf8;
        if Z.land ic 0x20 =? 0 then count_chars fuel utf8 (len + 1)
        else utf8 ← advance 1 utf8; count_chars fuel utf8 (len + 1)
  end.
Definition CountModifiedUtf8Chars (utf8 : list Z) : res Z := count_chars (S (length utf8)) utf8 0.

(** The units that [ConvertModifiedUtf8ToUtf16] writes. *)
Fixpoint convert_loop (fuel : nat) (utf8_data_in : list Z) : res (list Z) :=
  match fuel with
  | O => Fault OutOfFuel
  | S fuel =>
      c ← deref utf8_data_in;
      if c =? 0 then Ok []
      else
        '(ch, p) ← GetUtf16FromUtf8 utf8_data_in;
        rest ← convert_loop fuel p;
        Ok (ch :: rest)
  end.
Definition ConvertModifiedUtf8ToUtf16 (utf8_data_in : list Z) : res (list Z) :=
  convert_loop (S (length utf8_data_in)) utf8_data_in.

(** The bytes of one unit. *)
Definition utf8_bytes (ch : Z) : list Z :=
  if (0 <? ch) && (ch <=? 0x7f) then [uint8 ch]
  else if 0x07ff <? ch then
    [uint8 (Z.lor (Z.shiftr ch 12) 0xe0); uint8 (Z.lor (Z.land (Z.shiftr ch 6) 0x3f) 0x80);
     uint8 (Z.lor (Z.land ch 0x3f) 0x80)]
  else [uint8 (Z.lor (Z.shiftr ch 6) 0xc0); uint8 (Z.lor (Z.land ch 0x3f) 0x80)].

(** The bytes that [ConvertUtf16ToModifiedUtf8] writes. *)
Fixpoint ConvertUtf16ToModifiedUtf8 (utf16_in : list Z) (char_count : nat) : res (list Z) :=
  match char_count with
  | O => Ok []
  | S char_count =>
      '(ch, utf16_in) ← next_byte utf16_in;
      rest ← ConvertUtf16ToModifiedUtf8 utf16_in char_count;
      Ok (utf8_bytes ch ++ rest)
  end.

Fixpoint CountUtf8Bytes (chars : list Z) (char_count : nat) : res Z :=
  match char_count with
  | O => Ok 0
  | S char_count =>
      '(ch, chars) ← next_byte chars;
      rest ← CountUtf8Bytes chars char_count;
      Ok ((if (0 <? ch) && (ch <=? 0x7f) then 1 else if 0x7ff <? ch then 3 else 2) + rest)
  end.

Fixpoint hash_loop (hash : Z) (chars : list Z) (char_count : nat) : res Z :=
  match char_count with
  | O => Ok hash
  | S char_count =>
      '(ch, chars) ← next_byte chars;
      hash_loop (uint32 (hash * 31 + ch)) chars char_count
  end.
Definition ComputeUtf16Hash (chars : list Z) (char_count : nat) : res Z :=
  hash ← hash_loop 0 chars char_count; Ok (int32 hash).

(** ** Comparison *)

(** The value that starts with the byte [c], the pointer being behind it, and the pointer
    behind the value, for values of two or three bytes. *)
Definition long_value (c : Z) (p : list Z) : res (Z * list Z) :=
  if Z.land c 0x20 =? 0 then
    b0 ← deref p; p ← advance 1 p; Ok (two_byte_value c b0, p)
  else
    b0 ← deref p; b1 ← zget p 1; p ← advance 2 p; Ok (three_byte_value c b0 b1, p).

(** An iteration of the loop: a result, or the two pointers to continue with. *)
Definition compare_step (utf8_1 utf8_2 : list Z) : res (Z + list Z * list Z) :=
  c1 ← deref utf8_1;
  c2 ← deref utf8_2;
  if c1 =? 0 then Ok (inl (if c2 =? 0 then 0 else -1))
  else if c2 =? 0 then Ok (inl 1)
  else
    utf8_1 ← advance 1 utf8_1;
    utf8_2 ← advance 1 utf8_2;
    if (Z.land c1 0x80 =? 0) && (c1 =? c2) then Ok (inr (utf8_1, utf8_2))
    else if Z.land c1 0x80 =? 0 then
      '(c2, _) ← (if Z.land c2 0x80 =? 0 then Ok (c2, utf8_2) else long_value c2 utf8_2);
      Ok (inl (c1 - c2))
    else
      '(c1, utf8_1) ← long_value c1 utf8_1;
      '(c2, utf8_2) ← (if Z.land c2 0x80 =? 0 then Ok (c2, utf8_2) else long_value c2 utf8_2);
      if c1 =? c2 then Ok (inr (utf8_1, utf8_2)) else Ok (inl (c1 - c2)).

Fixpoint compare_loop (fuel : nat) (utf8_1 utf8_2 : list Z) : res Z :=
  match fuel with
  | O => Fault OutOfFuel
  | S fuel =>
      r ← compare_step utf8_1 utf8_2;
      match r with
      | inl result => Ok result
      | inr (utf8_1, utf8_2) => compare_loop fuel utf8_1 utf8_2
      end
  end.
Definition CompareModifiedUtf8ToModifiedUtf8AsUtf16CodePointValues (utf8_1 utf8_2 : list Z) : res Z :=
  compare_loop (S (length utf8_1)) utf8_1 utf8_2.

(** The comparison with a UTF-16 string does not advance [utf8_2]. *)
Fixpoint compare_utf16_loop (fuel : nat) (utf8_1 utf8_2 : list Z) : res Z :=
  match fuel with
  | O => Fault OutOfFuel
  | S fuel =>
      b1 ← deref utf8_1;
      b2 ← deref utf8_2;
      if b1 =? 0 then Ok (if b2 =? 0 then 0 else -1)
      else if b2 =? 0 then Ok 1
      else
        '(c1, utf8_1) ← GetUtf16FromUtf8 utf8_1;
        c2 ← deref utf8_2;
        if negb (c1 =? c2) then Ok (if c2 <? c1 then 1 else -1)
        else compare_utf16_loop fuel utf8_1 utf8_2
  end.
Definition CompareModifiedUtf8ToUtf16AsCodePointValues (utf8_1 utf8_2 : list Z) : res Z :=
  compare_utf16_loop (S (length utf8_1)) utf8_1 utf8_2.

(** ** Bytes *)

Lemma small_cases (P : Z -> bool) n :
  forallb P (Z.of_nat <$> seq 0 n) = true -> forall b, 0 <= b < Z.of_nat n -> P b = true.
Proof.
  intros H b Hb. rewrite forallb_forall in H. apply H. apply list_elem_of_In, list_elem_of_fmap.
  exists (Z.to_nat b). rewrite elem_of_seq. lia.
Qed.

Lemma lead2 x : 0 <= x < 32 ->
  uint8 (Z.lor x 0xc0) = 192 + x /\ (Z.land (192 + x) 0x80 =? 0) = false /\ (Z.land (192 + x) 0x20 =? 0) = true /\
  Z.land (192 + x) 0x1f = x.
Proof.
  intros H. pose proof (small_cases (fun x => (uint8 (Z.lor x 0xc0) =? 192 + x) && negb (Z.land (192 + x) 0x80 =? 0) &&
    (Z.land (192 + x) 0x20 =? 0) && (Z.land (192 + x) 0x1f =? x)) 32 ltac:(by vm_compute) x H) as E. cbv beta in E.
  rewrite !andb_true_iff, negb_true_iff, !Z.eqb_eq in E. rewrite Z.eqb_eq. tauto.
Qed.

Lemma lead3 x : 0 <= x < 16 ->
  uint8 (Z.lor x 0xe0) = 224 + x /\ (Z.land (224 + x) 0x80 =? 0) = false /\ (Z.land (224 + x) 0x20 =? 0) = false /\
  Z.land (224 + x) 0x0f = x.
Proof.
  intros H. pose proof (small_cases (fun x => (uint8 (Z.lor x 0xe0) =? 224 + x) && negb (Z.land (224 + x) 0x80 =? 0) &&
    negb (Z.land (224 + x) 0x20 =? 0) && (Z.land (224 + x) 0x0f =? x)) 16 ltac:(by vm_compute) x H) as E. cbv beta in E.
  rewrite !andb_true_iff, !negb_true_iff, !Z.eqb_eq in E. tauto.
Qed.

Lemma continuation x : 0 <= x < 64 -> uint8 (Z.lor x 0x80) = 128 + x /\ Z.land (128 + x) 0x3f = x.
Proof.
  intros H. pose proof (small_cases (fun x => (uint8 (Z.lor x 0x80) =? 128 + x) && (Z.land (128 + x) 0x3f =? x)) 64
    ltac:(by vm_compute) x H) as E. cbv beta in E. by rewrite !andb_true_iff, !Z.eqb_eq in E.
Qed.

Lemma ascii x : 0 <= x < 128 -> (Z.land x 0x80 =? 0) = true.
Proof. apply (small_cases (fun x => Z.land x 0x80 =? 0) 128). by vm_compute. Qed.

(** The bytes of a unit, with the unit as their value. *)
Inductive encodes : Z -> list Z -> Prop :=
  | encodes1 b : 0 < b < 128 -> encodes b [b]
  | encodes2 a b : 0 <= a < 32 -> 0 <= b < 64 -> encodes (two_byte_value (192 + a) (128 + b)) [192 + a; 128 + b]
  | encodes3 a b c : 0 <= a < 16 -> 0 <= b < 64 -> 0 <= c < 64 ->
      encodes (three_byte_value (224 + a) (128 + b) (128 + c)) [224 + a; 128 + b; 128 + c].

Definition utf16_unit (ch : Z) : Prop := 0 <= ch < 65536.

Lemma two_byte_sum a b : 0 <= a < 32 -> 0 <= b < 64 -> two_byte_value (192 + a) (128 + b) = a * 64 + b.
Proof.
  intros Ha Hb. destruct (lead2 a Ha) as (_ & _ & _ & E), (continuation b Hb) as [_ E'].
  unfold two_byte_value. rewrite E, E', Z.lor_comm, lor_low_high by lia. lia.
Qed.

Lemma three_byte_sum a b c :
  0 <= a < 16 -> 0 <= b < 64 -> 0 <= c < 64 ->
  three_byte_value (224 + a) (128 + b) (128 + c) = a * 4096 + b * 64 + c.
Proof.
  intros Ha Hb Hc. destruct (lead3 a Ha) as (_ & _ & _ & E), (continuation b Hb) as [_ Eb], (continuation c Hc) as [_ Ec].
  unfold three_byte_value. rewrite E, Eb, Ec, (Z.lor_comm (Z.lor _ _)), (Z.lor_comm (Z.shiftl a 12)).
  replace (Z.lor (Z.shiftl b 6) (Z.shiftl a 12)) with (Z.shiftl (Z.lor b (Z.shiftl a 6)) 6)
    by (rewrite Z.shiftl_lor, Z.shiftl_shiftl by lia; done).
  rewrite (lor_low_high b a 6), lor_low_high by lia. lia.
Qed.

Lemma utf8_bytes_encodes ch : utf16_unit ch -> encodes ch (utf8_bytes ch).
Proof.
  unfold utf16_unit, utf8_bytes. intros Hch. destruct ((0 <? ch) && (ch <=? 0x7f)) eqn:E1.
  { replace (uint8 ch) with ch by int_lia. constructor. lia. }
  assert (ch = 0 \/ 128 <= ch) as Hr by lia. clear E1. rewrite !land_0x3f, !Z.shiftr_div_pow2 by lia.
  pose proof (Z.mod_pos_bound ch 64 ltac:(lia)) as Hm. destruct (continuation _ Hm) as [-> _].
  destruct (Z.ltb_spec 0x7ff ch).
  - assert (0 <= ch / 2 ^ 12 < 16) as Ha by (Z.div_mod_to_equations; lia). destruct (lead3 _ Ha) as (-> & _).
    pose proof (Z.mod_pos_bound (ch / 2 ^ 6) 64 ltac:(lia)) as Hb. destruct (continuation _ Hb) as [-> _].
    assert (three_byte_value (224 + ch / 2 ^ 12) (128 + ch / 2 ^ 6 mod 64) (128 + ch mod 64) = ch) as E.
    { rewrite three_byte_sum by done. Z.div_mod_to_equations; lia. }
    rewrite <- E at 1. by constructor.
  - assert (0 <= ch / 2 ^ 6 < 32) as Ha by (Z.div_mod_to_equations; lia). destruct (lead2 _ Ha) as (-> & _).
    assert (two_byte_value (192 + ch / 2 ^ 6) (128 + ch mod 64) = ch) as E.
    { rewrite two_byte_sum by done. Z.div_mod_to_equations; lia. }
    rewrite <- E at 1. by constructor.
Qed.

(** An encoded unit starts with a byte other than zero, and the decoder reads it. *)
Lemma encodes_start ch bs : encodes ch bs -> exists b rest, bs = b :: rest /\ (b =? 0) = false.
Proof. intros []; eexists _, _; (split; [done |]); lia. Qed.

Lemma encodes_decoded ch bs rest : encodes ch bs -> GetUtf16FromUtf8 (bs ++ rest) = Ok (ch, rest).
Proof.
  intros []; unfold GetUtf16FromUtf8; cbn [next_byte app mbind res_bind].
  - by rewrite ascii by lia.
  - destruct (lead2 a) as (_ & -> & -> & _); [done |]. done.
  - destruct (lead3 a) as (_ & -> & -> & _); [done |]. done.
Qed.

Lemma encodes_counted fuel ch bs rest len :
  encodes ch bs -> count_chars (S fuel) (bs ++ rest) len = count_chars fuel rest (len + 1).
Proof.
  intros []; cbn [count_chars next_byte app mbind res_bind]; rewrite (proj2 (Z.eqb_neq _ 0)) by lia.
  - by rewrite ascii by lia.
  - destruct (lead2 a) as (_ & -> & -> & _); [done |]. done.
  - destruct (lead3 a) as (_ & -> & -> & _); [done |]. done.
Qed.

(** *** Strings *)

Definition encoded (us : list Z) : list Z := us ≫= utf8_bytes.

Lemma ConvertUtf16_encoded us rest : ConvertUtf16ToModifiedUtf8 (us ++ rest) (length us) = Ok (encoded us).
Proof. induction us as [| u us IH]; [done |]. cbn [length ConvertUtf16ToModifiedUtf8 app next_byte mbind res_bind]. by rewrite IH. Qed.

Lemma CountUtf8Bytes_encoded us rest : CountUtf8Bytes (us ++ rest) (length us) = Ok (zlength (encoded us)).
Proof.
  induction us as [| u us IH]; [done |]. cbn [length CountUtf8Bytes app next_byte mbind res_bind]. rewrite IH. cbn [mbind res_bind].
  f_equal. unfold encoded. rewrite bind_cons, length_app, Nat2Z.inj_add. f_equal. unfold utf8_bytes. by repeat case_match.
Qed.

Lemma encoded_cons u us : encoded (u :: us) = utf8_bytes u ++ encoded us.
Proof. done. Qed.

Lemma Count_encoded us rest : Forall utf16_unit us -> forall fuel len, (length us < fuel)%nat ->
  count_chars fuel (encoded us ++ 0 :: rest) len = Ok (len + zlength us).
Proof.
  induction 1 as [| u us Hu _ IH]; intros fuel len Hf; (destruct fuel as [| fuel]; [simpl in Hf; lia |]).
  - simpl. f_equal. lia.
  - rewrite encoded_cons, <- app_assoc, (encodes_counted fuel u) by by apply utf8_bytes_encodes.
    simpl in Hf. rewrite IH by lia. simpl. f_equal. lia.
Qed.

Lemma Convert_encoded us rest : Forall utf16_unit us -> forall fuel, (length us < fuel)%nat ->
  convert_loop fuel (encoded us ++ 0 :: rest) = Ok us.
Proof.
  induction 1 as [| u us Hu _ IH]; intros fuel Hf; (destruct fuel as [| fuel]; [simpl in Hf; lia |]); [done |].
  rewrite encoded_cons, <- app_assoc. pose proof (utf8_bytes_encodes u Hu) as He. cbn [convert_loop].
  destruct (encodes_start _ _ He) as (b & r & E & Eb). simpl in Hf.
  assert (deref (utf8_bytes u ++ encoded us ++ 0 :: rest) = Ok b) as -> by by rewrite E.
  cbn [mbind res_bind]. rewrite Eb, (encodes_decoded u) by done. cbn [mbind res_bind]. by rewrite IH by lia.
Qed.

Lemma encoded_length us : Forall utf16_unit us -> (length us <= length (encoded us))%nat.
Proof.
  induction 1 as [| u us Hu _ IH]; [done |]. rewrite encoded_cons, length_app. simpl.
  destruct (encodes_start _ _ (utf8_bytes_encodes u Hu)) as (b & r & -> & _). simpl. lia.
Qed.

Lemma encoded_bytes us : Forall utf16_unit us -> Forall (fun b => 0 < b < 256) (encoded us).
Proof.
  induction 1 as [| u us Hu _ IH]; [constructor |]. rewrite encoded_cons. apply Forall_app. split; [| done].
  destruct (utf8_bytes_encodes u Hu); repeat constructor; lia.
Qed.

(** C29: Modified UTF-8 is a faithful encoding of UTF-16 strings.  The bytes that
    [ConvertUtf16ToModifiedUtf8] writes are as many as [CountUtf8Bytes] says and contain
    no zero; from them, with a zero behind, [ConvertModifiedUtf8ToUtf16] writes the string
    again, as many units as [CountModifiedUtf8Chars] says. *)
Theorem modified_utf8_roundtrip (us rest tail : list Z) :
  Forall utf16_unit us ->
  exists bytes, ConvertUtf16ToModifiedUtf8 (us ++ rest) (length us) = Ok bytes /\
    CountUtf8Bytes (us ++ rest) (length us) = Ok (zlength bytes) /\
    Forall (fun b => 0 < b < 256) bytes /\
    ConvertModifiedUtf8ToUtf16 (bytes ++ 0 :: tail) = Ok us /\
    CountModifiedUtf8Chars (bytes ++ 0 :: tail) = Ok (zlength us).
Proof.
  intros Hus. pose proof (encoded_length us Hus). exists (encoded us).
  split_and!; [apply ConvertUtf16_encoded | apply CountUtf8Bytes_encoded | | |].
  - by apply encoded_bytes.
  - apply Convert_encoded; [done |]. rewrite length_app. simpl. lia.
  - unfold CountModifiedUtf8Chars. rewrite Count_encoded; [f_equal; lia | done |]. rewrite length_app. simpl. lia.
Qed.

Lemma modified_utf8_roundtrip_witness :
  exists bytes, ConvertUtf16ToModifiedUtf8 [0; 0x61; 0xe9; 0xd83d; 0xde00; 7] 5 = Ok bytes /\
    CountUtf8Bytes [0; 0x61; 0xe9; 0xd83d; 0xde00; 7] 5 = Ok (zlength bytes) /\
    Forall (fun b => 0 < b < 256) bytes /\
    ConvertModifiedUtf8ToUtf16 (bytes ++ [0; 9]) = Ok [0; 0x61; 0xe9; 0xd83d; 0xde00] /\
    CountModifiedUtf8Chars (bytes ++ [0; 9]) = Ok 5.
Proof.
  apply (modified_utf8_roundtrip [0; 0x61; 0xe9; 0xd83d; 0xde00] [7] [9]).
  repeat constructor; vm_compute; congruence.
Defined.

(** ** Bytes that encode nothing *)

Lemma count_convert fuel : forall p len,
  count_chars fuel p len = (fun us => len + zlength us) <$> convert_loop fuel p.
Proof.
  induction fuel as [| fuel IH]; intros p len; [done |]. cbn [count_chars convert_loop].
  destruct p as [| b p]; [done |]. change (deref (b :: p)) with (Ok b). unfold GetUtf16FromUtf8.
  cbn [next_byte mbind res_bind]. destruct (b =? 0); [simpl; f_equal; lia |].
  assert (Hnext : forall u p, count_chars fuel p (len + 1) =
    (fun us => len + zlength us) <$> (rest ← convert_loop fuel p; Ok (u :: rest))).
  { intros u p'. rewrite IH. destruct (convert_loop fuel p'); simpl; f_equal. lia. }
  destruct (Z.land b 0x80 =? 0); [apply Hnext |]. destruct p as [| two p]; [done |]. cbn [next_byte mbind res_bind].
  destruct (Z.land b 0x20 =? 0); [apply Hnext |]. destruct p as [| three p]; [done |]. apply Hnext.
Qed.

(** ** Comparison *)

(** The order of UTF-16 strings: the first difference, or the shorter string first. *)
Fixpoint utf16_compare (us vs : list Z) : Z :=
  match us, vs with
  | [], [] => 0
  | [], _ => -1
  | _, [] => 1
  | u :: us, v :: vs => if u =? v then utf16_compare us vs else u - v
  end.

(** Reading a value of two or three bytes. *)
Lemma long_value2 a b p :
  0 <= a < 32 -> 0 <= b < 64 -> long_value (192 + a) (128 + b :: p) = Ok (two_byte_value (192 + a) (128 + b), p).
Proof. intros Ha Hb. unfold long_value. by destruct (lead2 a Ha) as (_ & _ & -> & _). Qed.
Lemma long_value3 a b c p :
  0 <= a < 16 -> 0 <= b < 64 -> 0 <= c < 64 ->
  long_value (224 + a) (128 + b :: 128 + c :: p) = Ok (three_byte_value (224 + a) (128 + b) (128 + c), p).
Proof. intros Ha Hb Hc. unfold long_value. by destruct (lead3 a Ha) as (_ & _ & -> & _). Qed.

(** The value behind a first byte, as the loop reads it. *)
Lemma encodes_value u bs p :
  encodes u bs -> exists b r, bs = b :: r /\ (b =? 0) = false /\ 
    (if Z.land b 0x80 =? 0 then Ok (b, r ++ p) else long_value b (r ++ p)) = Ok (u, p) /\
    (if Z.land b 0x80 =? 0 then u = b /\ r = [] else True).
Proof.
  intros [b Hb | a b Ha Hb | a b c Ha Hb Hc]; eexists _, _; (split; [done |]); (split; [lia |]).
  - by rewrite ascii by lia.
  - destruct (lead2 a Ha) as (_ & -> & _). by rewrite <- long_value2.
  - destruct (lead3 a Ha) as (_ & -> & _). by rewrite <- long_value3.
Qed.

Lemma encoded_nil : encoded [] = [].
Proof. done. Qed.
Lemma deref_cons b p : deref (b :: p) = Ok b.
Proof. done. Qed.
Lemma advance_cons b p : advance 1 (b :: p) = Ok p.
Proof. done. Qed.

Lemma compare_step_units u v p1 p2 :
  utf16_unit u -> utf16_unit v ->
  compare_step (utf8_bytes u ++ p1) (utf8_bytes v ++ p2) = Ok (if u =? v then inr (p1, p2) else inl (u - v)).
Proof.
  intros Hu Hv. destruct (encodes_value u _ p1 (utf8_bytes_encodes u Hu)) as (b1 & r1 & E1 & Hb1 & V1 & S1).
  destruct (encodes_value v _ p2 (utf8_bytes_encodes v Hv)) as (b2 & r2 & E2 & Hb2 & V2 & S2).
  unfold compare_step. rewrite E1, E2. cbn [app]. rewrite !deref_cons. cbn [mbind res_bind]. rewrite Hb1, Hb2, !advance_cons.
  cbn [mbind res_bind]. destruct (Z.land b1 0x80 =? 0) eqn:L1; cbn [andb].
  - destruct S1 as [-> ->]. destruct (Z.eqb_spec b1 b2) as [<- | Hne].
    + rewrite L1 in S2. destruct S2 as [-> ->]. by rewrite Z.eqb_refl.
    + rewrite V2. cbn [mbind res_bind]. destruct (Z.eqb_spec b1 v) as [<- |]; [congruence | done].
  - rewrite V1. cbn [mbind res_bind]. rewrite V2. cbn [mbind res_bind]. by destruct (u =? v).
Qed.

Lemma compare_encoded us : forall vs fuel p1 p2,
  Forall utf16_unit us -> Forall utf16_unit vs -> (length us < fuel)%nat ->
  compare_loop fuel (encoded us ++ 0 :: p1) (encoded vs ++ 0 :: p2) = Ok (utf16_compare us vs).
Proof.
  induction us as [| u us IH]; intros vs fuel p1 p2 Hus Hvs Hf; (destruct fuel as [| fuel]; [simpl in Hf; lia |]); cbn [compare_loop].
  - destruct Hvs as [| v vs Hv _]; [done |]. rewrite encoded_nil, encoded_cons. unfold compare_step. cbn [app]. rewrite deref_cons. cbn [mbind res_bind].
    destruct (encodes_start _ _ (utf8_bytes_encodes v Hv)) as (b & r & -> & Hb). cbn [app mbind res_bind]. rewrite deref_cons.
    cbn [mbind res_bind]. by rewrite Hb.
  - inv Hus. destruct Hvs as [| v vs Hv Hvs].
    + rewrite encoded_nil, encoded_cons. unfold compare_step.
      destruct (encodes_start u _ (utf8_bytes_encodes u ltac:(done))) as (b & r & -> & Hb). cbn [app mbind res_bind]. rewrite !deref_cons.
      cbn [mbind res_bind]. by rewrite Hb.
    + rewrite !encoded_cons, <- !app_assoc, compare_step_units by done. cbn [mbind res_bind utf16_compare].
      simpl in Hf. destruct (u =? v); [apply IH; auto with lia | done].
Qed.

Lemma Compare_encoded us vs p1 p2 :
  Forall utf16_unit us -> Forall utf16_unit vs ->
  CompareModifiedUtf8ToModifiedUtf8AsUtf16CodePointValues (encoded us ++ 0 :: p1) (encoded vs ++ 0 :: p2) =
  Ok (utf16_compare us vs).
Proof.
  intros Hus Hvs. apply compare_encoded; [done.. |]. pose proof (encoded_length us Hus). rewrite length_app. simpl. lia.
Qed.

(** *** [utf16_compare] is a total order *)

Lemma utf16_compare_eq us vs : utf16_compare us vs = 0 <-> us = vs.
Proof.
  revert vs. induction us as [| u us IH]; intros [| v vs]; simpl; try done.
  destruct (Z.eqb_spec u v) as [-> |]; [rewrite IH; split; congruence | split; [lia | congruence]].
Qed.

Lemma utf16_compare_anti us vs : utf16_compare us vs < 0 <-> 0 < utf16_compare vs us.
Proof.
  revert vs. induction us as [| u us IH]; intros [| v vs]; simpl; try lia. rewrite (Z.eqb_sym v u).
  destruct (Z.eqb_spec u v); [apply IH | lia].
Qed.

Lemma utf16_compare_trans us vs ws : utf16_compare us vs < 0 -> utf16_compare vs ws < 0 -> utf16_compare us ws < 0.
Proof.
  revert vs ws. induction us as [| u us IH]; intros [| v vs] [| w ws]; simpl; try lia.
  destruct (Z.eqb_spec u v), (Z.eqb_spec v w), (Z.eqb_spec u w); subst; try lia. apply IH.
Qed.

(** *** The comparison with a UTF-16 string *)

(** It compares every unit with the first one, and finds no equal string but the empty one. *)
Lemma compare_utf16_stuck us : forall fuel p v vs, Forall utf16_unit us -> v <> 0 -> (length us < fuel)%nat ->
  exists r, compare_utf16_loop fuel (encoded us ++ 0 :: p) (v :: vs) = Ok r /\ r <> 0.
Proof.
  induction us as [| u us IH]; intros fuel p v vs Hus Hv Hf; (destruct fuel as [| fuel]; [simpl in Hf; lia |]); cbn [compare_utf16_loop].
  - rewrite encoded_nil. cbn [app]. rewrite !deref_cons. cbn [mbind res_bind]. rewrite (proj2 (Z.eqb_neq v 0)) by done. by exists (-1).
  - inv Hus. rewrite encoded_cons, <- app_assoc. pose proof (utf8_bytes_encodes u ltac:(done)) as He.
    destruct (encodes_start _ _ He) as (b & r & E & Hb). 
    assert (deref (utf8_bytes u ++ encoded us ++ 0 :: p) = Ok b) as -> by by rewrite E.
    rewrite !deref_cons. cbn [mbind res_bind]. rewrite Hb, (proj2 (Z.eqb_neq v 0)), (encodes_decoded u) by done. cbn [mbind res_bind]. simpl in Hf.
    destruct (u =? v); cbn [negb]; [apply IH; auto with lia |]. destruct (v <? u); by eexists.
Qed.
