(* ===== verification/DexLookup.v ===== *)
(** * Lookup in a dex file (runtime/dex_file.{h,cc}, dex_file-inl.h)

    The identifiers of strings, types, prototypes, fields and methods of a dex file are
    sorted; the runtime finds them by binary search.  A [DexFile] has the arrays of
    identifiers and the bytes that their offsets refer to.  A pointer to an identifier is
    its index, [None] the null pointer. *)

From S2P Require Import Prelude Memory Leb128 Utf.

Record ProtoId : Type := MkProtoId {
  shorty_idx_ : Z;
  return_type_idx_ : Z;
  parameters_off_ : Z;
}.
Record FieldId : Type := MkFieldId { f_class_idx_ : Z; f_type_idx_ : Z; f_name_idx_ : Z }.
Record MethodId : Type := MkMethodId { m_class_idx_ : Z; m_proto_idx_ : Z; m_name_idx_ : Z }.

(** A string id is its [string_data_off_], a type id its [descriptor_idx_], a class
    definition its [class_idx_]. *)
Record DexFile : Type := MkDexFile {
  begin_ : list Z;
  string_ids_ : list Z;
  type_ids_ : list Z;
  proto_ids_ : list ProtoId;
  field_ids_ : list FieldId;
  method_ids_ : list MethodId;
  class_defs_ : list Z;
}.

(** ** Identifiers *)

Definition NumStringIds (d : DexFile) : Z := zlength (string_ids_ d).
Definition GetStringId (d : DexFile) (idx : Z) : res Z := zget (string_ids_ d) idx.

Definition GetStringDataAndUtf16Length (d : DexFile) (string_data_off : Z) : res (Z * list Z) :=
  _ ← check ((0 <=? string_data_off) && (string_data_off <=? zlength (begin_ d)));
  DecodeUnsignedLeb128 (drop (Z.to_nat string_data_off) (begin_ d)).
Definition GetStringData (d : DexFile) (string_id : Z) : res (list Z) :=
  '(_, ptr) ← GetStringDataAndUtf16Length d string_id; Ok ptr.

(** [DexFileParameterIterator]: the number of parameters, and the type of one. *)
Definition parameters_size (d : DexFile) (proto : ProtoId) : res Z :=
  if parameters_off_ proto =? 0 then Ok 0 else load 4 (begin_ d) (parameters_off_ proto).
Definition GetTypeIdx (d : DexFile) (proto : ProtoId) (pos : Z) : res Z :=
  load 2 (begin_ d) (parameters_off_ proto + 4 + 2 * pos).

(** ** Binary search *)

(** The loop that all lookups share: [compare mid] compares what is looked for with the
    element at [mid].  The sum of the bounds must not overflow. *)
Fixpoint binary_search (fuel : nat) (compare : Z -> res Z) (lo hi : Z) : res (option Z) :=
  match fuel with
  | O => Fault OutOfFuel
  | S fuel =>
      if hi <? lo then Ok None
      else
        _ ← check (int32 (hi + lo) =? hi + lo);
        let mid := Z.quot (hi + lo) 2 in
        c ← compare mid;
        if 0 <? c then binary_search fuel compare (mid + 1) hi
        else if c <? 0 then binary_search fuel compare lo (mid - 1)
        else Ok (Some mid)
  end.

Definition FindStringId (d : DexFile) (string : list Z) : res (option Z) :=
  binary_search (S (length (string_ids_ d))) (fun mid =>
    str_id ← GetStringId d mid;
    str ← GetStringData d str_id;
    CompareModifiedUtf8ToModifiedUtf8AsUtf16CodePointValues string str) 0 (int32 (NumStringIds d - 1)).

(** The overload for a UTF-16 string. *)
Definition FindStringId_utf16 (d : DexFile) (string : list Z) : res (option Z) :=
  binary_search (S (length (string_ids_ d))) (fun mid =>
    str_id ← GetStringId d mid;
    str ← GetStringData d str_id;
    CompareModifiedUtf8ToUtf16AsCodePointValues str string) 0 (int32 (NumStringIds d - 1)).

(** The sign by which the nested conditions of a lookup go on. *)
Definition side (x y : Z) (equal : Z) : Z := if y <? x then 1 else if x <? y then -1 else equal.

Definition FindTypeId (d : DexFile) (string_idx : Z) : res (option Z) :=
  binary_search (S (length (type_ids_ d))) (fun mid =>
    descriptor_idx ← zget (type_ids_ d) mid;
    Ok (side string_idx descriptor_idx 0)) 0 (int32 (zlength (type_ids_ d) - 1)).

Definition FindFieldId (d : DexFile) (class_idx name_idx type_idx : Z) : res (option Z) :=
  binary_search (S (length (field_ids_ d))) (fun mid =>
    field ← zget (field_ids_ d) mid;
    Ok (side class_idx (f_class_idx_ field) (side name_idx (f_name_idx_ field) (side type_idx (f_type_idx_ field) 0))))
    0 (int32 (zlength (field_ids_ d) - 1)).

Definition FindMethodId (d : DexFile) (class_idx name_idx proto_idx : Z) : res (option Z) :=
  binary_search (S (length (method_ids_ d))) (fun mid =>
    method ← zget (method_ids_ d) mid;
    Ok (side class_idx (m_class_idx_ method)
          (side name_idx (m_name_idx_ method) (side proto_idx (m_proto_idx_ method) 0))))
    0 (int32 (zlength (method_ids_ d) - 1)).

(** The loop over the parameters: the comparison, and the position it stops at. *)
Fixpoint compare_parameters (d : DexFile) (proto : ProtoId) (size pos : Z) (idxs : list Z) : res Z :=
  match idxs with
  | [] => Ok (if pos <? size then -1 else 0)
  | idx :: idxs =>
      if pos <? size then
        type_idx ← GetTypeIdx d proto pos;
        let compare := idx - type_idx in
        if compare =? 0 then compare_parameters d proto size (pos + 1) idxs else Ok compare
      else Ok 1
  end.

Definition compare_proto (d : DexFile) (return_type_idx : Z) (signature_type_idxs : list Z) (proto : ProtoId) : res Z :=
  let compare := return_type_idx - return_type_idx_ proto in
  if compare =? 0 then
    size ← parameters_size d proto;
    compare_parameters d proto size 0 signature_type_idxs
  else Ok compare.

Definition FindProtoId (d : DexFile) (return_type_idx : Z) (signature_type_idxs : list Z) : res (option Z) :=
  binary_search (S (length (proto_ids_ d))) (fun mid =>
    proto ← zget (proto_ids_ d) mid;
    compare_proto d return_type_idx signature_type_idxs proto) 0 (int32 (zlength (proto_ids_ d) - 1)).

(** The linear search for a class definition; [GetClassDef] takes a 16-bit index. *)
Fixpoint find_class_def (n : nat) (d : DexFile) (i type_idx : Z) : res (option Z) :=
  match n with
  | O => Ok None
  | S n =>
      class_idx ← zget (class_defs_ d) (uint16 i);
      if class_idx =? type_idx then Ok (Some (uint16 i)) else find_class_def n d (i + 1) type_idx
  end.
Definition FindClassDef (d : DexFile) (type_idx : Z) : res (option Z) :=
  find_class_def (length (class_defs_ d)) d 0 type_idx.

(** ** Signatures *)

(** [GetIndexForTypeId], with its check. *)
Definition GetIndexForTypeId (type_id : Z) : res Z := _ ← check (type_id <? 65536); Ok (uint16 type_id).

(** The characters that [CreateTypeList] tells apart. *)
Definition ch_open : Z := 40.       (**r '(' *)
Definition ch_close : Z := 41.      (**r ')' *)
Definition ch_array : Z := 91.      (**r '[' *)
Definition ch_class : Z := 76.      (**r 'L' *)
Definition ch_semicolon : Z := 59.  (**r ';' *)

(** The loop while [c] is a bracket: the offset and the character behind an array prefix; [None] is
    [return false]. *)
Fixpoint array_prefix (fuel : nat) (signature : list Z) (offset c : Z) : res (option (Z * Z)) :=
  match fuel with
  | O => Fault OutOfFuel
  | S fuel =>
      if c =? ch_array then
        if zlength signature <=? offset then Ok None
        else c ← zget signature offset; array_prefix fuel signature (offset + 1) c
      else Ok (Some (offset, c))
  end.

(** [do ... while (c != ';')]: the offset behind a class name. *)
Fixpoint class_name (fuel : nat) (signature : list Z) (offset : Z) : res (option Z) :=
  match fuel with
  | O => Fault OutOfFuel
  | S fuel =>
      if zlength signature <=? offset then Ok None
      else
        c ← zget signature offset;
        if negb (c =? ch_semicolon) then class_name fuel signature (offset + 1) else Ok (Some (offset + 1))
  end.

(** The end of the descriptor whose first character [c] is before [offset]. *)
Definition descriptor_end (signature : list Z) (offset c : Z) : res (option Z) :=
  p ← array_prefix (S (length signature)) signature offset c;
  match p with
  | None => Ok None
  | Some (offset, c) =>
      if c =? ch_class then class_name (S (length signature)) signature offset else Ok (Some offset)
  end.

(** The type of a descriptor: a zero-terminated copy is looked up. *)
Definition type_of_descriptor (d : DexFile) (descriptor : list Z) : res (option Z) :=
  string_id ← FindStringId d (descriptor ++ [0]);
  match string_id with
  | None => Ok None
  | Some string_idx =>
      type_id ← FindTypeId d string_idx;
      match type_id with
      | None => Ok None
      | Some type_id => type_idx ← GetIndexForTypeId type_id; Ok (Some type_idx)
      end
  end.

(** The loop of [CreateTypeList]: the parameters and the return type, or [None] for
    [return false]. *)
Fixpoint type_list_loop (fuel : nat) (d : DexFile) (signature : list Z) (offset : Z) (process_return : bool)
    (param_type_idxs : list Z) : res (option (list Z * Z)) :=
  match fuel with
  | O => Fault OutOfFuel
  | S fuel =>
      if offset <? zlength signature then
        let start_offset := offset in
        c ← zget signature offset;
        let offset := offset + 1 in
        if c =? ch_close then type_list_loop fuel d signature offset true param_type_idxs
        else
          descriptor_offset ← descriptor_end signature offset c;
          match descriptor_offset with
          | None => Ok None
          | Some offset =>
              let descriptor := take (Z.to_nat (offset - start_offset)) (drop (Z.to_nat start_offset) signature) in
              type_idx ← type_of_descriptor d descriptor;
              match type_idx with
              | None => Ok None
              | Some type_idx =>
                  if negb process_return
                  then type_list_loop fuel d signature offset process_return (param_type_idxs ++ [type_idx])
                  else Ok (if offset =? zlength signature then Some (param_type_idxs, type_idx) else None)
              end
          end
      else Ok None
  end.

Definition CreateTypeList (d : DexFile) (signature : list Z) : res (option (list Z * Z)) :=
  c ← zget signature 0;
  if negb (c =? ch_open) then Ok None
  else type_list_loop (S (length signature)) d signature 1 false [].

(** The prototype of the signature, [None] for [Signature::NoSignature]. *)
Definition CreateSignature (d : DexFile) (signature : list Z) : res (option Z) :=
  types ← CreateTypeList d signature;
  match types with
  | None => Ok None
  | Some (param_type_indices, return_type_idx) => FindProtoId d return_type_idx param_type_indices
  end.
