(* ===== verification/DexLookupTheorems.v ===== *)
(** * Lookups find what is there

    The binary search of the dex file lookups is correct on sorted arrays that are not
    longer than 2^30.  The lookup of a UTF-16 string is different: it finds nothing. *)

From S2P Require Import Prelude Memory Leb128 Utf DexLookup.

(** ** Binary search *)

Section search.
Context (n : Z) (c : Z -> Z) (compare : Z -> res Z).
Context (Hn : n <= 2 ^ 30) (Hcompare : forall i, 0 <= i < n -> compare i = Ok (c i)).
(** What is looked for is behind what it is greater than, and before what it is less than. *)
Context (Hsorted : forall i j, 0 <= i < j -> j < n -> (0 <= c j -> 0 < c i) /\ (c i <= 0 -> c j < 0)).

Lemma binary_search_from fuel : forall lo hi,
  0 <= lo <= hi + 1 -> hi < n -> hi - lo + 1 < Z.of_nat fuel ->
  (forall i, 0 <= i < lo -> 0 < c i) -> (forall i, hi < i < n -> c i < 0) ->
  exists r, binary_search fuel compare lo hi = Ok r /\
    match r with Some i => 0 <= i < n /\ c i = 0 | None => forall i, 0 <= i < n -> c i <> 0 end.
Proof.
  induction fuel as [| fuel IH]; intros lo hi Hlo Hhi Hf Hbelow Habove; cbn [binary_search].
  { lia. }
  destruct (Z.ltb_spec hi lo).
  { exists None. split; [done |]. intros i Hi. destruct (Z.lt_ge_cases i lo); [specialize (Hbelow i) | specialize (Habove i)]; lia. }
  rewrite (proj2 (Z.eqb_eq _ _)) by int_lia. cbn [mbind res_bind check]. rewrite Z.quot_div_nonneg by lia.
  set (mid := (hi + lo) / 2). assert (lo <= mid <= hi) as Hmid by (unfold mid; Z.div_mod_to_equations; lia).
  rewrite Hcompare by lia. cbn [mbind res_bind]. destruct (Z.ltb_spec 0 (c mid)); [| destruct (Z.ltb_spec (c mid) 0)].
  - apply IH; try lia; [| done]. intros i Hi. destruct (Z.lt_ge_cases i mid).
    + destruct (Hsorted i mid); lia.
    + by replace i with mid by lia.
  - apply IH; try lia; [done |]. intros i Hi. destruct (Z.lt_ge_cases mid i).
    + destruct (Hsorted mid i); lia.
    + by replace i with mid by lia.
  - exists (Some mid). split; [done |]. lia.
Qed.

(** The index of the element that compares equal, if there is one. *)
Lemma binary_search_correct fuel :
  0 <= n < Z.of_nat fuel ->
  exists r, binary_search fuel compare 0 (int32 (n - 1)) = Ok r /\
    forall i, r = Some i <-> 0 <= i < n /\ c i = 0.
Proof.
  intros Hf. replace (int32 (n - 1)) with (n - 1) by int_lia.
  destruct (binary_search_from fuel 0 (n - 1)) as (r & E & Hr); try lia. exists r. split; [done |].
  destruct r as [j |]; intros i; split; try done.
  - by intros [= <-].
  - intros [Hi Hc]. f_equal. destruct (Z.lt_trichotomy i j) as [? | [? | ?]]; [| done |].
    + destruct (Hsorted i j); lia.
    + destruct (Hsorted j i); lia.
  - intros [Hi Hc]. by apply Hr in Hc.
Qed.
End search.

(** ** Arrays sorted by a total order *)

Class TotalCompare {A} (cmp : A -> A -> Z) : Prop := {
  cmp_eq a b : cmp a b = 0 <-> a = b;
  cmp_anti a b : cmp a b < 0 <-> 0 < cmp b a;
  cmp_trans a b c : cmp a b < 0 -> cmp b c < 0 -> cmp a c < 0;
}.

Definition ascending {A} (cmp : A -> A -> Z) (l : list A) : Prop :=
  forall i j a b, (i < j)%nat -> l !! i = Some a -> l !! j = Some b -> cmp a b < 0.

Lemma sorted_search {A} cmp `{!TotalCompare cmp} (l : list A) (x : A) (compare : Z -> res Z) :
  zlength l <= 2 ^ 30 -> ascending cmp l ->
  (forall i a, l !! i = Some a -> compare (Z.of_nat i) = Ok (cmp x a)) ->
  exists r, binary_search (S (length l)) compare 0 (int32 (zlength l - 1)) = Ok r /\
    forall i, r = Some i <-> 0 <= i /\ l !! Z.to_nat i = Some x.
Proof.
  intros Hn Hasc Hcompare. set (c i := cmp x (default x (l !! Z.to_nat i))).
  assert (Hl : forall i, 0 <= i < zlength l -> exists a, l !! Z.to_nat i = Some a).
  { intros i Hi. apply lookup_lt_is_Some_2. lia. }
  destruct (binary_search_correct (zlength l) c compare) with (fuel := S (length l)) as (r & E & Hr).
  - done.
  - intros i Hi. destruct (Hl i Hi) as [a Ha]. pose proof (Hcompare _ _ Ha) as Hx.
    rewrite Z2Nat.id in Hx by lia. unfold c. by rewrite Ha.
  - intros i j Hi Hj. destruct (Hl i ltac:(lia)) as [a Ha], (Hl j ltac:(lia)) as [b Hb].
    pose proof (Hasc (Z.to_nat i) (Z.to_nat j) a b ltac:(lia) Ha Hb) as Hab.
    unfold c. rewrite Ha, Hb. simpl. split.
    + intros H. destruct (Z.eq_dec (cmp x b) 0) as [->%cmp_eq | ?]; [by apply cmp_anti |].
      apply cmp_anti, (cmp_trans _ b); [done |]. apply cmp_anti. lia.
    + intros H. destruct (Z.eq_dec (cmp x a) 0) as [->%cmp_eq | ?]; [done |]. apply (cmp_trans _ a); [lia | done].
  - lia.
  - exists r. split; [exact E |]. intros i. rewrite Hr. unfold c. split.
    + intros [Hi Hc]. destruct (Hl i Hi) as [a Ea]. rewrite Ea in Hc |- *. simpl in Hc. apply cmp_eq in Hc as ->. split; [lia | done].
    + intros [Hi Hx]. rewrite Hx. simpl. split; [| by apply cmp_eq]. pose proof (lookup_lt_Some _ _ _ Hx). lia.
Qed.

#[export] Instance utf16_order : TotalCompare utf16_compare :=
  {| cmp_eq := utf16_compare_eq; cmp_anti := utf16_compare_anti; cmp_trans := utf16_compare_trans |}.

(** ** Strings *)

(** The strings of the file: encoded, zero-terminated, in ascending order. *)
Record string_table (d : DexFile) (strings : list (list Z)) : Prop := {
  st_size : length strings = length (string_ids_ d);
  st_bound : NumStringIds d <= 2 ^ 30;
  st_units : Forall (Forall utf16_unit) strings;
  st_data : forall i s, strings !! i = Some s ->
    exists off tail, string_ids_ d !! i = Some off /\ GetStringData d off = Ok (encoded s ++ 0 :: tail);
  st_sorted : ascending utf16_compare strings;
}.

Lemma string_table_data d strings i s :
  string_table d strings -> strings !! i = Some s ->
  exists off tail, Forall utf16_unit s /\ GetStringId d (Z.of_nat i) = Ok off /\ GetStringData d off = Ok (encoded s ++ 0 :: tail).
Proof.
  intros [_ _ Hu Hd _] Hs. destruct (Hd _ _ Hs) as (off & tail & Ho & E). exists off, tail.
  split_and!; [by eapply Forall_lookup_1 | | done]. unfold GetStringId. apply zget_ok. rewrite Nat2Z.id. split; [lia | done].
Qed.

Lemma FindStringId_found d strings s tail :
  string_table d strings -> Forall utf16_unit s ->
  exists r, FindStringId d (encoded s ++ 0 :: tail) = Ok r /\
    forall i, r = Some i <-> 0 <= i /\ strings !! Z.to_nat i = Some s.
Proof.
  intros Ht Hs. pose proof Ht as [Hsz Hb _ _ Hasc]. unfold FindStringId, NumStringIds in *. rewrite <- Hsz in *.
  apply (sorted_search utf16_compare); [done.. |]. intros i a Ha.
  destruct (string_table_data _ _ _ _ Ht Ha) as (off & tl & Hu & -> & Ed). cbn [mbind res_bind]. rewrite Ed.
  by apply Compare_encoded.
Qed.

(** C18: In a dex file whose strings are encoded and sorted, [FindStringId] returns, and it
    returns the index of the string it is given, or null if the file has no such
    string. *)
Theorem FindStringId_correct d strings s tail :
  string_table d strings -> Forall utf16_unit s ->
  exists r, FindStringId d (encoded s ++ 0 :: tail) = Ok r /\
    forall i, r = Some i <-> 0 <= i /\ strings !! Z.to_nat i = Some s.
Proof. apply FindStringId_found. Qed.

Lemma binary_search_misses fuel compare : forall lo hi,
  0 <= lo <= hi + 1 -> hi < 2 ^ 30 -> hi - lo + 1 < Z.of_nat fuel ->
  (forall i, lo <= i <= hi -> exists c, compare i = Ok c /\ c <> 0) ->
  binary_search fuel compare lo hi = Ok None.
Proof.
  induction fuel as [| fuel IH]; intros lo hi Hlo Hhi Hf Hc; [lia |]. cbn [binary_search].
  destruct (Z.ltb_spec hi lo); [done |].
  rewrite (proj2 (Z.eqb_eq _ _)) by int_lia. cbn [mbind res_bind check]. rewrite Z.quot_div_nonneg by lia.
  set (mid := (hi + lo) / 2). assert (lo <= mid <= hi) as Hmid by (unfold mid; Z.div_mod_to_equations; lia).
  destruct (Hc mid Hmid) as (c & -> & Hne). cbn [mbind res_bind].
  destruct (Z.ltb_spec 0 c); [apply IH; try lia; intros; apply Hc; lia |].
  destruct (Z.ltb_spec c 0); [apply IH; try lia; intros; apply Hc; lia | lia].
Qed.

(** C37: The lookup of a UTF-16 string finds no string but an empty one, whether the file
    has it or not: the comparison it uses does not advance in the UTF-16 string, and never
    says that two strings are equal. *)
Theorem FindStringId_utf16_never_finds d strings v vs :
  string_table d strings -> v <> 0 -> FindStringId_utf16 d (v :: vs) = Ok None.
Proof.
  intros Ht Hv. pose proof Ht as [Hsz Hb _ _ _]. unfold FindStringId_utf16, NumStringIds in *. rewrite <- Hsz in *.
  replace (int32 (zlength strings - 1)) with (zlength strings - 1) by int_lia. apply binary_search_misses; try lia.
  intros i Hi. destruct (lookup_lt_is_Some_2 strings (Z.to_nat i) ltac:(lia)) as [s Hs].
  destruct (string_table_data _ _ _ _ Ht Hs) as (off & tl & Hu & Eo & Ed). rewrite Z2Nat.id in Eo by lia.
  rewrite Eo. cbn [mbind res_bind]. rewrite Ed. cbn [mbind res_bind]. apply compare_utf16_stuck; [done.. |].
  pose proof (encoded_length s Hu). rewrite length_app. simpl. lia.
Qed.

(** ** Types, fields, methods and prototypes *)

Definition index_compare (x y : Z) : Z := side x y 0.

Definition member_compare (a b : Z * Z * Z) : Z :=
  let '(c1, n1, t1) := a in
  let '(c2, n2, t2) := b in side c1 c2 (side n1 n2 (side t1 t2 0)).

Ltac sides := unfold side in *; repeat match goal with
  | |- context [?a <? ?b] => destruct (Z.ltb_spec a b)
  | H : context [?a <? ?b] |- _ => destruct (Z.ltb_spec a b)
  end; try lia.

#[export] Instance index_order : TotalCompare index_compare.
Proof. split; unfold index_compare; intros; sides. Qed.

#[export] Instance member_order : TotalCompare member_compare.
Proof.
  split; [intros [[c1 n1] t1] [[c2 n2] t2] | intros [[c1 n1] t1] [[c2 n2] t2] | intros [[c1 n1] t1] [[c2 n2] t2] [[c3 n3] t3]];
    unfold member_compare.
  - split; [intros H; sides; repeat f_equal; lia | intros [= -> -> ->]; sides].
  - sides.
  - sides.
Qed.

Definition field_key (f : FieldId) : Z * Z * Z := (f_class_idx_ f, f_name_idx_ f, f_type_idx_ f).
Definition method_key (m : MethodId) : Z * Z * Z := (m_class_idx_ m, m_name_idx_ m, m_proto_idx_ m).

Lemma zget_lookup {A} (l : list A) i a : l !! i = Some a -> zget l (Z.of_nat i) = Ok a.
Proof. intros H. apply zget_ok. rewrite Nat2Z.id. split; [lia | done]. Qed.

Lemma FindTypeId_found d string_idx :
  zlength (type_ids_ d) <= 2 ^ 30 -> ascending index_compare (type_ids_ d) ->
  exists r, FindTypeId d string_idx = Ok r /\ forall i, r = Some i <-> 0 <= i /\ type_ids_ d !! Z.to_nat i = Some string_idx.
Proof.
  intros Hn Hasc. apply (sorted_search index_compare); [done.. |]. intros i a Ha. by rewrite (zget_lookup _ _ _ Ha).
Qed.

(** In a dex file whose fields and methods are sorted by class, name, and type or
    prototype, [FindFieldId] and [FindMethodId] return, and they return the index of the
    member they are given, or null if the file has no such member. *)
Theorem member_lookup_correct d class_idx name_idx idx :
  zlength (field_ids_ d) <= 2 ^ 30 -> ascending member_compare (field_key <$> field_ids_ d) ->
  zlength (method_ids_ d) <= 2 ^ 30 -> ascending member_compare (method_key <$> method_ids_ d) ->
  exists f m, FindFieldId d class_idx name_idx idx = Ok f /\ FindMethodId d class_idx name_idx idx = Ok m /\
    (forall i, f = Some i <-> 0 <= i /\ field_key <$> field_ids_ d !! Z.to_nat i = Some (class_idx, name_idx, idx)) /\
    (forall i, m = Some i <-> 0 <= i /\ method_key <$> method_ids_ d !! Z.to_nat i = Some (class_idx, name_idx, idx)).
Proof.
  intros Hfn Hf Hmn Hm.
  destruct (sorted_search member_compare (field_key <$> field_ids_ d) (class_idx, name_idx, idx) (fun mid =>
    field ← zget (field_ids_ d) mid;
    Ok (side class_idx (f_class_idx_ field) (side name_idx (f_name_idx_ field) (side idx (f_type_idx_ field) 0)))))
    as (f & Ef & Hf').
  { by rewrite length_fmap. } { done. }
  { intros i a (x & -> & Hx)%list_lookup_fmap_Some. by rewrite (zget_lookup _ _ _ Hx). }
  destruct (sorted_search member_compare (method_key <$> method_ids_ d) (class_idx, name_idx, idx) (fun mid =>
    method ← zget (method_ids_ d) mid;
    Ok (side class_idx (m_class_idx_ method) (side name_idx (m_name_idx_ method) (side idx (m_proto_idx_ method) 0)))))
    as (m & Em & Hm').
  { by rewrite length_fmap. } { done. }
  { intros i a (x & -> & Hx)%list_lookup_fmap_Some. by rewrite (zget_lookup _ _ _ Hx). }
  rewrite !length_fmap in Ef. rewrite !length_fmap in Em. exists f, m. setoid_rewrite <- list_lookup_fmap. done.
Qed.

(** *** Prototypes *)

(** The prototypes as lists: the return type, then the parameters. *)
Record proto_table (d : DexFile) (protos : list (list Z)) : Prop := {
  pt_size : length protos = length (proto_ids_ d);
  pt_bound : zlength protos <= 2 ^ 30;
  pt_data : forall i key, protos !! i = Some key ->
    exists p ps, proto_ids_ d !! i = Some p /\ key = return_type_idx_ p :: ps /\
      parameters_size d p = Ok (zlength ps) /\ forall j x, ps !! j = Some x -> GetTypeIdx d p (Z.of_nat j) = Ok x;
  pt_sorted : ascending utf16_compare protos;
}.

Lemma compare_parameters_ok d p ps idxs : forall k,
  (forall j x, ps !! j = Some x -> GetTypeIdx d p (Z.of_nat j) = Ok x) ->
  (k <= length ps)%nat ->
  compare_parameters d p (zlength ps) (Z.of_nat k) idxs = Ok (utf16_compare idxs (drop k ps)).
Proof.
  induction idxs as [| x idxs IH]; intros k Hps Hk; cbn [compare_parameters].
  - destruct (Z.ltb_spec (Z.of_nat k) (zlength ps)).
    + destruct (lookup_lt_is_Some_2 ps k ltac:(lia)) as [y Hy]. by rewrite (drop_S _ _ _ Hy).
    + by rewrite drop_ge by lia.
  - destruct (Z.ltb_spec (Z.of_nat k) (zlength ps)).
    + destruct (lookup_lt_is_Some_2 ps k ltac:(lia)) as [y Hy]. rewrite (drop_S _ _ _ Hy), (Hps _ _ Hy). cbn [mbind res_bind utf16_compare].
      destruct (Z.eqb_spec (x - y) 0), (Z.eqb_spec x y); try lia; [| done].
      replace (Z.of_nat k + 1) with (Z.of_nat (S k)) by lia. apply IH; [done | lia].
    + by rewrite drop_ge by lia.
Qed.

Lemma FindProtoId_found d protos ret params :
  proto_table d protos ->
  exists r, FindProtoId d ret params = Ok r /\ forall i, r = Some i <-> 0 <= i /\ protos !! Z.to_nat i = Some (ret :: params).
Proof.
  intros [Hsz Hb Hd Hasc]. unfold FindProtoId. rewrite <- Hsz. apply (sorted_search utf16_compare); [done.. |].
  intros i a Ha. destruct (Hd _ _ Ha) as (p & ps & Hp & -> & Hsize & Hps). rewrite (zget_lookup _ _ _ Hp). cbn [mbind res_bind].
  unfold compare_proto. cbn [utf16_compare]. destruct (Z.eqb_spec (ret - return_type_idx_ p) 0), (Z.eqb_spec ret (return_type_idx_ p)); try lia; [| done].
  rewrite Hsize. cbn [mbind res_bind]. apply (compare_parameters_ok d p ps params 0); [done | lia].
Qed.

(** ** Signatures *)

(** Type descriptors. *)
Inductive descriptor : list Z -> Prop :=
  | d_primitive c : c <> ch_close -> c <> ch_array -> c <> ch_class -> descriptor [c]
  | d_class name : ch_semicolon ∉ name -> descriptor (ch_class :: name ++ [ch_semicolon])
  | d_array t : descriptor t -> descriptor (ch_array :: t).

Lemma zget_middle {A} (pre : list A) x post : zget (pre ++ x :: post) (zlength pre) = Ok x.
Proof. apply zget_ok. rewrite Nat2Z.id. split; [lia | by apply list_lookup_middle]. Qed.

Lemma zlength_snoc {A} (l : list A) x : zlength (l ++ [x]) = zlength l + 1.
Proof. rewrite length_app. simpl. lia. Qed.

Lemma class_name_ok name : forall pre post fuel,
  ch_semicolon ∉ name -> (length name < fuel)%nat ->
  class_name fuel (pre ++ name ++ ch_semicolon :: post) (zlength pre) = Ok (Some (zlength pre + zlength name + 1)).
Proof.
  induction name as [| x name IH]; intros pre post fuel Hn Hf; (destruct fuel as [| fuel]; [simpl in Hf; lia |]); cbn [class_name].
  - rewrite (proj2 (Z.leb_gt _ _)) by (rewrite !length_app; simpl; lia). simpl app. rewrite zget_middle. simpl. repeat f_equal. lia.
  - apply not_elem_of_cons in Hn as [Hx Hn]. rewrite (proj2 (Z.leb_gt _ _)) by (rewrite !length_app; simpl; lia).
    simpl app. rewrite zget_middle. cbn [mbind res_bind]. rewrite (proj2 (Z.eqb_neq _ _)) by done. cbn [negb].
    specialize (IH (pre ++ [x]) post fuel Hn). rewrite <- app_assoc, zlength_snoc in IH. simpl in IH, Hf.
    rewrite IH by lia. do 2 f_equal. simpl. lia.
Qed.

Lemma descriptor_end_from t : descriptor t -> forall pre post fuel,
  (length t <= fuel)%nat ->
  exists c r, t = c :: r /\ c <> ch_close /\
  (p ← array_prefix fuel (pre ++ t ++ post) (zlength pre + 1) c;
   match p with
   | None => Ok None
   | Some (offset, c) =>
       if c =? ch_class then class_name (S (length (pre ++ t ++ post))) (pre ++ t ++ post) offset else Ok (Some offset)
   end) = Ok (Some (zlength pre + zlength t)).
Proof.
  induction 1 as [c Hc Ha Hl | name Hs | t Ht IH]; intros pre post fuel Hf; (destruct fuel as [| fuel]; [simpl in Hf; lia |]);
    eexists _, _; (split; [done |]); (split; [done |]); cbn [array_prefix].
  - rewrite (proj2 (Z.eqb_neq c ch_array)) by done. cbn [mbind res_bind]. rewrite (proj2 (Z.eqb_neq c ch_class)) by done.
    repeat f_equal.
  - assert (pre ++ (ch_class :: name ++ [ch_semicolon]) ++ post = (pre ++ [ch_class]) ++ name ++ ch_semicolon :: post) as ->
      by (simpl; by rewrite <- !app_assoc).
    simpl Z.eqb. cbn [mbind res_bind]. rewrite Z.eqb_refl, <- (zlength_snoc pre ch_class), class_name_ok;
      [| done | rewrite !length_app; lia].
    do 2 f_equal. rewrite zlength_snoc. simpl. rewrite length_app. simpl. lia.
  - rewrite Z.eqb_refl. destruct (IH (pre ++ [ch_array]) post fuel) as (c & r & Et & Hc & E); [simpl in Hf; lia |].
    rewrite (proj2 (Z.leb_gt _ _)); [| rewrite !length_app; rewrite Et; simpl; lia].
    rewrite <- !app_assoc, zlength_snoc in E. simpl in E |- *.
    assert (zget (pre ++ ch_array :: t ++ post) (zlength pre + 1) = Ok c) as ->.
    { pose proof (zget_middle (pre ++ [ch_array]) c (r ++ post)) as Hg. rewrite zlength_snoc, <- app_assoc in Hg.
      rewrite Et. exact Hg. }
    cbn [mbind res_bind]. rewrite E. do 2 f_equal. lia.
Qed.

(** The descriptor [D] names the type [t]. *)
Definition type_named (d : DexFile) (strings : list (list Z)) (D : list Z) (t : Z) : Prop :=
  descriptor D /\ 0 <= t /\ exists string_idx s, Forall utf16_unit s /\ D = encoded s /\
    type_ids_ d !! Z.to_nat t = Some string_idx /\ 0 <= string_idx /\ strings !! Z.to_nat string_idx = Some s.

(** A dex file whose strings, types and prototypes are sorted. *)
Record sorted_file (d : DexFile) (strings protos : list (list Z)) : Prop := {
  sf_strings : string_table d strings;
  sf_types : ascending index_compare (type_ids_ d);
  sf_types_bound : zlength (type_ids_ d) <= 65536;
  sf_protos : proto_table d protos;
}.

Section signatures.
Context d strings protos (Hfile : sorted_file d strings protos).

Lemma type_of_descriptor_ok D t : type_named d strings D t -> type_of_descriptor d D = Ok (Some t).
Proof.
  intros (_ & Ht & idx & s & Hs & -> & Htype & Hidx & Hstring). unfold type_of_descriptor.
  pose proof (lookup_lt_Some _ _ _ Htype). pose proof (sf_types_bound _ _ _ Hfile).
  destruct (FindStringId_found d strings s [] (sf_strings _ _ _ Hfile) Hs) as (r & -> & Hr).
  rewrite (proj2 (Hr idx)) by done. cbn [mbind res_bind].
  destruct (FindTypeId_found d idx) as (r' & -> & Hr'); [lia | apply Hfile |].
  rewrite (proj2 (Hr' t)) by done. cbn [mbind res_bind]. unfold GetIndexForTypeId.
  rewrite (proj2 (Z.ltb_lt _ _)) by lia. cbn [mbind res_bind check]. replace (uint16 t) with t by int_lia. done.
Qed.

(** An iteration of the loop over a descriptor. *)
Lemma type_list_step fuel pre D post t ret acc :
  type_named d strings D t ->
  type_list_loop (S fuel) d (pre ++ D ++ post) (zlength pre) ret acc =
  if ret then Ok (if zlength pre + zlength D =? zlength (pre ++ D ++ post) then Some (acc, t) else None)
  else type_list_loop fuel d (pre ++ D ++ post) (zlength (pre ++ D)) false (acc ++ [t]).
Proof.
  intros Ht. cbn [type_list_loop]. pose proof (proj1 Ht) as HD.
  destruct (descriptor_end_from D HD pre post (S (length (pre ++ D ++ post)))) as (c & r & ED & Hc & E).
  { rewrite !length_app. lia. }
  rewrite (proj2 (Z.ltb_lt _ _)) by (rewrite !length_app, ED; simpl; lia).
  assert (zget (pre ++ D ++ post) (zlength pre) = Ok c) as -> by (rewrite ED; apply zget_middle).
  cbn [mbind res_bind]. rewrite (proj2 (Z.eqb_neq c ch_close)) by done. fold (descriptor_end (pre ++ D ++ post) (zlength pre + 1) c) in E.
  rewrite E. cbn [mbind res_bind].
  assert (take (Z.to_nat (zlength pre + zlength D - zlength pre)) (drop (Z.to_nat (zlength pre)) (pre ++ D ++ post)) = D) as ->.
  { rewrite Nat2Z.id, drop_app_length. replace (Z.to_nat _) with (length D) by lia. by rewrite take_app_length. }
  rewrite (type_of_descriptor_ok D t Ht). cbn [mbind res_bind]. destruct ret; [done |]. by rewrite (length_app pre D), Nat2Z.inj_add.
Qed.

Lemma type_list_params params idxs : Forall2 (type_named d strings) params idxs -> forall fuel pre post acc,
  type_list_loop (length params + fuel) d (pre ++ concat params ++ post) (zlength pre) false acc =
  type_list_loop fuel d (pre ++ concat params ++ post) (zlength (pre ++ concat params)) false (acc ++ idxs).
Proof.
  induction 1 as [| D t params idxs HD _ IH]; intros fuel pre post acc; cbn [concat length Nat.add].
  - by rewrite !app_nil_r.
  - rewrite <- (app_assoc D), (type_list_step _ pre D (concat params ++ post) t false acc HD).
    rewrite !(app_assoc pre D), IH. by rewrite <- (app_assoc acc).
Qed.

Lemma type_list_close fuel pre post ret acc :
  type_list_loop (S fuel) d (pre ++ ch_close :: post) (zlength pre) ret acc =
  type_list_loop fuel d (pre ++ ch_close :: post) (zlength (pre ++ [ch_close])) true acc.
Proof.
  cbn [type_list_loop]. rewrite (proj2 (Z.ltb_lt _ _)) by (rewrite length_app; simpl; lia).
  rewrite zget_middle. cbn [mbind res_bind]. by rewrite zlength_snoc.
Qed.

Lemma descriptor_nonempty D : descriptor D -> (0 < length D)%nat.
Proof. intros []; simpl; lia. Qed.

Lemma type_names_length params idxs : Forall2 (type_named d strings) params idxs -> (length params <= length (concat params))%nat.
Proof.
  induction 1 as [| D t params idxs HD _ IH]; [done |]. simpl. rewrite length_app. pose proof (descriptor_nonempty D (proj1 HD)). lia.
Qed.

Lemma CreateTypeList_ok params idxs ret t :
  Forall2 (type_named d strings) params idxs -> type_named d strings ret t ->
  CreateTypeList d (ch_open :: concat params ++ ch_close :: ret) = Ok (Some (idxs, t)).
Proof.
  intros Hp Hr. unfold CreateTypeList.
  assert (zget (ch_open :: concat params ++ ch_close :: ret) 0 = Ok ch_open) as -> by done. cbn [mbind res_bind].
  rewrite Z.eqb_refl. cbn [negb]. pose proof (type_names_length _ _ Hp).
  pose proof (type_list_params params idxs Hp) as Hloop.
  set (sig := ch_open :: concat params ++ ch_close :: ret). 
  assert (exists k, S (length sig) = (length params + S (S k))%nat) as [k ->].
  { exists (S (length sig) - length params - 2)%nat. unfold sig. simpl. rewrite length_app. simpl. lia. }
  specialize (Hloop (S (S k)) [ch_open] (ch_close :: ret) []). simpl app in Hloop. simpl length in Hloop.
  change (Z.of_nat 1) with 1 in Hloop. fold sig in Hloop. rewrite Hloop. clear Hloop.
  set (pre := ch_open :: concat params). assert (sig = pre ++ ch_close :: ret) as Esig by done.
  rewrite Esig. change (zlength (ch_open :: concat params)) with (zlength pre). rewrite type_list_close.
  assert (pre ++ ch_close :: ret = (pre ++ [ch_close]) ++ ret ++ []) as -> by (rewrite <- app_assoc, app_nil_r; done).
  rewrite (type_list_step k (pre ++ [ch_close]) ret [] t true idxs Hr).
  rewrite (proj2 (Z.eqb_eq _ _)); [done |]. rewrite !length_app. simpl. lia.
Qed.
End signatures.

(** C17: In a dex file whose strings, types and prototypes are sorted, [CreateSignature]
    applied to the descriptors of parameters in parentheses and of a return type returns
    the prototype that has these types, or none if the file has no such prototype. *)
Theorem CreateSignature_correct d strings protos params idxs ret t :
  sorted_file d strings protos -> Forall2 (type_named d strings) params idxs -> type_named d strings ret t ->
  exists r, CreateSignature d (ch_open :: concat params ++ ch_close :: ret) = Ok r /\
    forall i, r = Some i <-> 0 <= i /\ protos !! Z.to_nat i = Some (t :: idxs).
Proof.
  intros Hfile Hp Hr. unfold CreateSignature. rewrite (CreateTypeList_ok d strings protos Hfile params idxs ret t Hp Hr).
  apply FindProtoId_found, Hfile.
Qed.

(** ** Witnesses: a file with three strings, all of them types, and the prototypes of
    methods without parameters and with two *)

Definition sample_strings : list (list Z) := [[73]; [76; 65; 59]; [86]].
Definition sample_protos : list (list Z) := [[2]; [2; 0; 1]].
Definition sample_file : DexFile := {|
  begin_ := [1; 73; 0; 3; 76; 65; 59; 0; 1; 86; 0; 2; 0; 0; 0; 0; 0; 1; 0];
  string_ids_ := [0; 3; 8];
  type_ids_ := [0; 1; 2];
  proto_ids_ := [MkProtoId 2 2 0; MkProtoId 2 2 11];
  field_ids_ := [MkFieldId 1 0 0; MkFieldId 1 2 2];
  method_ids_ := [MkMethodId 1 0 0; MkMethodId 1 1 0; MkMethodId 1 0 2];
  class_defs_ := [1];
|}.

Ltac by_position := intros; repeat match goal with
  | H : ?l !! ?i = Some _ |- _ => is_var i; destruct i as [| i]; simpl in H; simplify_eq
  end; try done; try lia.

Lemma sample_string_table : string_table sample_file sample_strings.
Proof.
  split; [done | done | repeat constructor; done | |].
  - intros i s Hi. destruct i as [| [| [| i]]]; simpl in Hi; simplify_eq; eexists _, _; (split; [done |]); by vm_compute.
  - intros i j a b Hij Ha Hb. unfold sample_strings in *. by_position.
Qed.

Lemma sample_sorted_file : sorted_file sample_file sample_strings sample_protos.
Proof.
  split; [apply sample_string_table | | done |].
  - intros i j a b Hij Ha Hb. by_position.
  - split; [done | done | |].
    + intros i key Hi. destruct i as [| [| i]]; simpl in Hi; simplify_eq; eexists _, _; (split; [done |]); (split; [done |]);
        (split; [by vm_compute |]); intros j x Hj; by_position.
    + intros i j a b Hij Ha Hb. unfold sample_protos in *. by_position.
Qed.

Lemma FindStringId_correct_witness :
  exists r, FindStringId sample_file (encoded [76; 65; 59] ++ [0]) = Ok r /\
    forall i, r = Some i <-> 0 <= i /\ sample_strings !! Z.to_nat i = Some [76; 65; 59].
Proof.
  apply (FindStringId_correct sample_file sample_strings [76; 65; 59] []).
  - exact sample_string_table.
  - repeat constructor; done.
Defined.

(** The string is there. *)
Lemma FindStringId_utf16_never_finds_witness :
  FindStringId sample_file [76; 65; 59; 0] = Ok (Some 1) /\ FindStringId_utf16 sample_file [76; 65; 59; 0] = Ok None.
Proof.
  split; [by vm_compute |].
  apply (FindStringId_utf16_never_finds sample_file sample_strings); [exact sample_string_table | done].
Defined.

Lemma member_lookup_correct_witness :
  exists f m, FindFieldId sample_file 1 2 2 = Ok f /\ FindMethodId sample_file 1 2 2 = Ok m /\
    (forall i, f = Some i <-> 0 <= i /\ field_key <$> field_ids_ sample_file !! Z.to_nat i = Some (1, 2, 2)) /\
    (forall i, m = Some i <-> 0 <= i /\ method_key <$> method_ids_ sample_file !! Z.to_nat i = Some (1, 2, 2)).
Proof.
  apply (member_lookup_correct sample_file 1 2 2); [done | | done |].
  - intros i j a b Hij Ha Hb. by_position.
  - intros i j a b Hij Ha Hb. by_position.
Defined.

Lemma CreateSignature_correct_witness :
  exists r, CreateSignature sample_file [40; 73; 76; 65; 59; 41; 86] = Ok r /\
    forall i, r = Some i <-> 0 <= i /\ sample_protos !! Z.to_nat i = Some [2; 0; 1].
Proof.
  apply (CreateSignature_correct sample_file sample_strings sample_protos [[73]; [76; 65; 59]] [0; 1] [86] 2).
  - exact sample_sorted_file.
  - constructor; [| constructor; [| constructor]].
    + split; [by constructor | split; [done |]]. exists 0, [73]. split_and!; try done. repeat constructor; done.
    + split; [apply (d_class [65]); by intros ?%list_elem_of_singleton | split; [done |]]. exists 1, [76; 65; 59].
      split_and!; try done. repeat constructor; done.
  - split; [by constructor | split; [done |]]. exists 2, [86]. split_and!; try done. repeat constructor; done.
Defined.

Lemma sample_signature : CreateSignature sample_file [40; 73; 76; 65; 59; 41; 86] = Ok (Some 1).
Proof. by vm_compute. Qed.
