(* ===== verification/InternTable.v ===== *)
(** * Interned strings (runtime/intern_table.{h,cc}, mirror/string.cc, transaction.cc)

    The table of strong and weak interned strings, each a pair of hash sets, and the log
    by which a transaction undoes its changes.  A string is the reference of its object, 0
    the null pointer.  Its characters are [string_of] of the reference; the objects of the
    heap are not changed by what is modelled here, and a collector that moves a string
    gives it a new reference with the same characters.

    The lock of the table is held by every operation, so an operation is a function of the
    table.  A caller of [Insert] waits while new interns are not allowed: the function
    does not return, which is [OutOfFuel]. *)

From S2P Require Import Prelude HashSet Utf DexLookup.

(** ** Strings *)

Section strings.
Context (string_of : Z -> list Z).

(** The hash code a string computes and caches. *)
Definition GetHashCode (s : Z) : Z := int32 (foldl (fun hash ch => uint32 (hash * 31 + ch)) 0 (string_of s)).

(** The loop of [Equals] over two strings of the same length. *)
Fixpoint chars_equal (a b : list Z) : bool :=
  match a, b with
  | c :: a, c' :: b => if negb (c =? c') then false else chars_equal a b
  | _, _ => true
  end.

Definition Equals (this that : Z) : bool :=
  if this =? that then true
  else if that =? 0 then false
  else if negb (zlength (string_of this) =? zlength (string_of that)) then false
  else chars_equal (string_of this) (string_of that).

Definition ToModifiedUtf8 (s : Z) : res (list Z) :=
  ConvertUtf16ToModifiedUtf8 (string_of s) (length (string_of s)).

(** [StringHashEquals]: the hash code as a [size_t]. *)
Definition string_hash (root : Z) : Z := uint64 (GetHashCode root).

(** [GcRootEmptyFn::IsEmpty]. *)
Definition IsNull (root : Z) : bool := root =? 0.
End strings.

Abbreviation UnorderedSet := (HashSet Z).

Record Table : Type := MkTable {
  pre_zygote_table_ : UnorderedSet;
  post_zygote_table_ : UnorderedSet;
}.

Record InternTable : Type := MkInternTable {
  image_added_to_intern_table_ : bool;
  log_new_roots_ : bool;
  allow_new_interns_ : bool;
  strong_interns_ : Table;
  new_strong_intern_roots_ : list Z;
  weak_interns_ : Table;
}.

(** ** The log of a transaction *)

Inductive StringKind : Type := kStrongString | kWeakString.
Inductive StringOp : Type := kInsert | kRemove.
Record InternStringLog : Type := MkInternStringLog {
  str_ : Z;
  string_kind_ : StringKind;
  string_op_ : StringOp;
}.

(** The table, and the log of the active transaction, if there is one. *)
Record Interning : Type := MkInterning {
  intern_table : InternTable;
  intern_string_logs_ : option (list InternStringLog);
}.

(** ** The image: dex caches with their dex files and the strings that are resolved *)

Record DexCache : Type := MkDexCache {
  dex_file : DexFile;
  resolved_strings : list Z;
}.
Definition GetResolvedString (c : DexCache) (string_idx : Z) : res Z := zget (resolved_strings c) string_idx.

Definition with_table (t : InternTable) (st : Interning) : Interning := MkInterning t (intern_string_logs_ st).
Definition with_strong (v : Table) (t : InternTable) : InternTable :=
  MkInternTable (image_added_to_intern_table_ t) (log_new_roots_ t) (allow_new_interns_ t) v
    (new_strong_intern_roots_ t) (weak_interns_ t).
Definition with_weak (v : Table) (t : InternTable) : InternTable :=
  MkInternTable (image_added_to_intern_table_ t) (log_new_roots_ t) (allow_new_interns_ t) (strong_interns_ t)
    (new_strong_intern_roots_ t) v.
Definition with_new_roots (v : list Z) (t : InternTable) : InternTable :=
  MkInternTable (image_added_to_intern_table_ t) (log_new_roots_ t) (allow_new_interns_ t) (strong_interns_ t)
    v (weak_interns_ t).
Definition with_log_new_roots (v : bool) (t : InternTable) : InternTable :=
  MkInternTable (image_added_to_intern_table_ t) v (allow_new_interns_ t) (strong_interns_ t)
    (new_strong_intern_roots_ t) (weak_interns_ t).
Definition with_allow (v : bool) (t : InternTable) : InternTable :=
  MkInternTable (image_added_to_intern_table_ t) (log_new_roots_ t) v (strong_interns_ t)
    (new_strong_intern_roots_ t) (weak_interns_ t).
Definition with_image_added (v : bool) (t : InternTable) : InternTable :=
  MkInternTable v (log_new_roots_ t) (allow_new_interns_ t) (strong_interns_ t)
    (new_strong_intern_roots_ t) (weak_interns_ t).

Section operations.
Context (string_of : Z -> list Z) (fuel : nat).

#[local] Abbreviation Find := (HashSet.Find IsNull (string_hash string_of) (Equals string_of) fuel).
#[local] Abbreviation Erase := (HashSet.Erase 0 IsNull (string_hash string_of) fuel).

(** ** [InternTable::Table] *)

(** What [Find] of one of the sets returns, read through the iterator. *)
Definition find_in (s : Z) (set : UnorderedSet) : res (option Z) :=
  it ← Find s set;
  if it =? num_buckets_ set then Ok None else r ← ElementForIndex set it; Ok (Some r).

Definition Table_Find (s : Z) (t : Table) : res Z :=
  r ← find_in s (pre_zygote_table_ t);
  match r with
  | Some r => Ok r
  | None =>
      r ← find_in s (post_zygote_table_ t);
      match r with Some r => Ok r | None => Ok 0 end
  end.

Definition Table_Insert (s : Z) (t : Table) : res Table :=
  post ← HashSet.Insert 0 IsNull (string_hash string_of) fuel s (post_zygote_table_ t);
  Ok (MkTable (pre_zygote_table_ t) post).

Definition Table_Remove (s : Z) (t : Table) : res Table :=
  it ← Find s (post_zygote_table_ t);
  if negb (it =? num_buckets_ (post_zygote_table_ t)) then
    '(post, _) ← Erase it (post_zygote_table_ t);
    Ok (MkTable (pre_zygote_table_ t) post)
  else
    it ← Find s (pre_zygote_table_ t);
    _ ← check (negb (it =? num_buckets_ (pre_zygote_table_ t)));
    '(pre, _) ← Erase it (pre_zygote_table_ t);
    Ok (MkTable pre (post_zygote_table_ t)).

Definition Table_SwapPostZygoteWithPreZygote (t : Table) : res Table :=
  e ← Empty IsNull (pre_zygote_table_ t);
  _ ← check e;
  Ok (MkTable (post_zygote_table_ t) (pre_zygote_table_ t)).

Definition Table_Size (t : Table) : Z := Size (pre_zygote_table_ t) + Size (post_zygote_table_ t).

(** The loop that visits a set: [callback] gives a root its new value. *)
Fixpoint visit_set (n : nat) (callback : Z -> Z) (set : UnorderedSet) (it : Z) : res UnorderedSet :=
  match n with
  | O => Fault OutOfFuel
  | S n =>
      if it =? num_buckets_ set then Ok set
      else
        root ← ElementForIndex set it;
        data ← zset (data_ set) it (callback root);
        let set := with_data data set in
        it ← NextNonEmptySlot IsNull set it;
        visit_set n callback set it
  end.

Definition Table_VisitRoots (callback : Z -> Z) (t : Table) : res Table :=
  it ← begin IsNull (pre_zygote_table_ t);
  pre ← visit_set fuel callback (pre_zygote_table_ t) it;
  it ← begin IsNull (post_zygote_table_ t);
  post ← visit_set fuel callback (post_zygote_table_ t) it;
  Ok (MkTable pre post).

(** The loop that sweeps a set: [callback] gives a marked string its new reference, null
    if it is not marked. *)
Fixpoint sweep_set (n : nat) (callback : Z -> Z) (set : UnorderedSet) (it : Z) : res UnorderedSet :=
  match n with
  | O => Fault OutOfFuel
  | S n =>
      if it =? num_buckets_ set then Ok set
      else
        object ← ElementForIndex set it;
        let new_object := callback object in
        if new_object =? 0 then
          '(set, it) ← Erase it set;
          sweep_set n callback set it
        else
          data ← zset (data_ set) it new_object;
          let set := with_data data set in
          it ← NextNonEmptySlot IsNull set it;
          sweep_set n callback set it
  end.

Definition SweepWeaks (callback : Z -> Z) (set : UnorderedSet) : res UnorderedSet :=
  it ← begin IsNull set; sweep_set fuel callback set it.

Definition Table_SweepWeaks (callback : Z -> Z) (t : Table) : res Table :=
  pre ← SweepWeaks callback (pre_zygote_table_ t);
  post ← SweepWeaks callback (post_zygote_table_ t);
  Ok (MkTable pre post).

(** ** [InternTable] *)

#[local] Abbreviation im := (M Interning).
Definition get_table : im InternTable := gets intern_table.
Definition set_table (f : InternTable -> InternTable) : im unit := modify (fun st => with_table (f (intern_table st)) st).

Definition IsActiveTransaction : im bool := gets (fun st => bool_decide (is_Some (intern_string_logs_ st))).

(** [Transaction::LogInternedString] of the entry that the [Record] functions make. *)
Definition RecordString (s : Z) (kind : StringKind) (op : StringOp) : im unit :=
  lift (check (negb (s =? 0)));;
  modify (fun st => MkInterning (intern_table st)
    (match intern_string_logs_ st with
     | Some logs => Some (MkInternStringLog s kind op :: logs)
     | None => None
     end)).

Definition LookupStrong (s : Z) : im Z := t ← get_table; lift (Table_Find s (strong_interns_ t)).
Definition LookupWeak (s : Z) : im Z := t ← get_table; lift (Table_Find s (weak_interns_ t)).

Definition InsertStrong (s : Z) : im Z :=
  active ← IsActiveTransaction;
  (if active : bool then RecordString s kStrongString kInsert else mret tt);;
  t ← get_table;
  (if log_new_roots_ t then set_table (with_new_roots (new_strong_intern_roots_ t ++ [s])) else mret tt);;
  strong ← lift (Table_Insert s (strong_interns_ t));
  set_table (with_strong strong);;
  mret s.

Definition InsertWeak (s : Z) : im Z :=
  active ← IsActiveTransaction;
  (if active : bool then RecordString s kWeakString kInsert else mret tt);;
  t ← get_table;
  weak ← lift (Table_Insert s (weak_interns_ t));
  set_table (with_weak weak);;
  mret s.

Definition RemoveStrong (s : Z) : im unit :=
  t ← get_table;
  strong ← lift (Table_Remove s (strong_interns_ t));
  set_table (with_strong strong).

Definition RemoveWeak (s : Z) : im unit :=
  active ← IsActiveTransaction;
  (if active : bool then RecordString s kWeakString kRemove else mret tt);;
  t ← get_table;
  weak ← lift (Table_Remove s (weak_interns_ t));
  set_table (with_weak weak).

(** The operations by which a transaction undoes changes. *)
Definition not_active : im unit := active ← IsActiveTransaction; lift (check (negb active)).
Definition InsertStrongFromTransaction (s : Z) : im Z := not_active;; InsertStrong s.
Definition InsertWeakFromTransaction (s : Z) : im Z := not_active;; InsertWeak s.
Definition RemoveStrongFromTransaction (s : Z) : im unit := not_active;; RemoveStrong s.
Definition RemoveWeakFromTransaction (s : Z) : im unit := not_active;; RemoveWeak s.

(** ** The image *)

Section image.
Context (image : option (list DexCache)).

Fixpoint lookup_caches (utf8 : list Z) (dex_caches : list DexCache) : res Z :=
  match dex_caches with
  | [] => Ok 0
  | dex_cache :: rest =>
      string_id ← FindStringId (dex_file dex_cache) (utf8 ++ [0]);
      match string_id with
      | None => lookup_caches utf8 rest
      | Some string_idx =>
          image_string ← GetResolvedString dex_cache string_idx;
          if negb (image_string =? 0) then Ok image_string else lookup_caches utf8 rest
      end
  end.

Definition LookupStringFromImage (s : Z) : im Z :=
  t ← get_table;
  if image_added_to_intern_table_ t then mret 0
  else
    match image with
    | None => mret 0
    | Some dex_caches => utf8 ← lift (ToModifiedUtf8 string_of s); lift (lookup_caches utf8 dex_caches)
    end.

(** The loop over the strings of a dex cache. *)
Fixpoint add_strings (dex_cache : DexCache) (num_strings : nat) (j : Z) : im unit :=
  match num_strings with
  | O => mret tt
  | S num_strings =>
      image_string ← lift (GetResolvedString dex_cache j);
      (if negb (image_string =? 0) then
         found ← LookupStrong image_string;
         if found =? 0 then InsertStrong image_string;; mret tt
         else lift (check (found =? image_string))
       else mret tt);;
      add_strings dex_cache num_strings (j + 1)
  end.

Fixpoint add_caches (dex_caches : list DexCache) : im unit :=
  match dex_caches with
  | [] => mret tt
  | dex_cache :: rest =>
      add_strings dex_cache (Z.to_nat (NumStringIds (dex_file dex_cache))) 0;;
      add_caches rest
  end.

Definition AddImageStringsToTable : im unit :=
  dex_caches ← lift (match image with Some dex_caches => Ok dex_caches | None => Fault CheckFailed end);
  t ← get_table;
  if negb (image_added_to_intern_table_ t) then
    add_caches dex_caches;;
    set_table (with_image_added true)
  else mret tt.

(** ** Interning *)

Definition Insert (s : Z) (is_strong : bool) : im Z :=
  if s =? 0 then mret 0
  else
    t ← get_table;
    lift (if allow_new_interns_ t then Ok tt else Fault OutOfFuel);;
    strong ← LookupStrong s;
    if negb (strong =? 0) then mret strong
    else
      image ← LookupStringFromImage s;
      if negb (image =? 0) then (if is_strong then InsertStrong image else InsertWeak image)
      else
        weak ← LookupWeak s;
        if negb (weak =? 0) then
          (if is_strong then RemoveWeak weak;; InsertStrong weak else mret weak)
        else if is_strong then InsertStrong s else InsertWeak s.

Definition InternStrong (s : Z) : im Z := Insert s true.
Definition InternWeak (s : Z) : im Z := Insert s false.
End image.

Definition ContainsWeak (s : Z) : im bool := weak ← LookupWeak s; mret (weak =? s).

Definition AllowNewInterns : im unit := set_table (with_allow true).
Definition DisallowNewInterns : im unit := set_table (with_allow false).

Definition SwapPostZygoteWithPreZygote : im unit :=
  t ← get_table;
  weak ← lift (Table_SwapPostZygoteWithPreZygote (weak_interns_ t));
  set_table (with_weak weak);;
  strong ← lift (Table_SwapPostZygoteWithPreZygote (strong_interns_ t));
  set_table (with_strong strong).

Definition SweepInternTableWeaks (callback : Z -> Z) : im unit :=
  t ← get_table;
  weak ← lift (Table_SweepWeaks callback (weak_interns_ t));
  set_table (with_weak weak).

(** The loop of [VisitRoots] over the log of new roots: a root that has moved changes in
    the table too. *)
Fixpoint visit_new_roots (callback : Z -> Z) (roots : list Z) : im (list Z) :=
  match roots with
  | [] => mret []
  | old_ref :: roots =>
      let new_ref := callback old_ref in
      (if negb (new_ref =? old_ref) then
         t ← get_table;
         strong ← lift (Table_Remove old_ref (strong_interns_ t));
         strong ← lift (Table_Insert new_ref strong);
         set_table (with_strong strong)
       else mret tt);;
      rest ← visit_new_roots callback roots;
      mret (new_ref :: rest)
  end.

(** The bits of [VisitRootFlags]. *)
Record VisitRootFlags : Type := MkVisitRootFlags {
  kVisitRootFlagAllRoots : bool;
  kVisitRootFlagNewRoots : bool;
  kVisitRootFlagStartLoggingNewRoots : bool;
  kVisitRootFlagStopLoggingNewRoots : bool;
  kVisitRootFlagClearRootLog : bool;
}.

Definition VisitRoots (callback : Z -> Z) (flags : VisitRootFlags) : im unit :=
  (if kVisitRootFlagAllRoots flags then
     t ← get_table;
     strong ← lift (Table_VisitRoots callback (strong_interns_ t));
     set_table (with_strong strong)
   else if kVisitRootFlagNewRoots flags then
     t ← get_table;
     roots ← visit_new_roots callback (new_strong_intern_roots_ t);
     set_table (with_new_roots roots)
   else mret tt);;
  (if kVisitRootFlagClearRootLog flags then set_table (with_new_roots []) else mret tt);;
  (if kVisitRootFlagStartLoggingNewRoots flags then set_table (with_log_new_roots true)
   else if kVisitRootFlagStopLoggingNewRoots flags then set_table (with_log_new_roots false)
   else mret tt).

(** ** Rollback *)

Definition Undo (log : InternStringLog) : im unit :=
  match string_op_ log, string_kind_ log with
  | kInsert, kStrongString => RemoveStrongFromTransaction (str_ log)
  | kInsert, kWeakString => RemoveWeakFromTransaction (str_ log)
  | kRemove, kStrongString => InsertStrongFromTransaction (str_ log);; mret tt
  | kRemove, kWeakString => InsertWeakFromTransaction (str_ log);; mret tt
  end.

Fixpoint undo_all (logs : list InternStringLog) : im unit :=
  match logs with
  | [] => mret tt
  | log :: logs => Undo log;; undo_all logs
  end.

(** The end of a transaction that is aborted: it is not active any more, and the log is
    undone from the most recent entry. *)
Definition UndoInternStringTableModifications : im unit :=
  logs ← gets (fun st => default [] (intern_string_logs_ st));
  modify (fun st => MkInterning (intern_table st) None);;
  undo_all logs.
End operations.

(** The constructor. *)
Definition new_Table : Table := MkTable (new_HashSet 0) (new_HashSet 0).
Definition new_InternTable : InternTable := MkInternTable false false true new_Table [] new_Table.
