(* ===== verification/InternTableFacts.v ===== *)
(** * Sets of interned strings

    What the sets of an intern table do, for strings with a hash code computed from their
    characters: lookup and removal go by the characters, and sweeping keeps the strings
    that are marked, with their new references. *)

From S2P Require Import Prelude HashSet HashSetLoad HashSetProbing HashSetInvariant HashSetErase HashSetTheorems Leb128 Utf DexLookup InternTable.

Section facts.
Context (string_of : Z -> list Z).

#[local] Abbreviation slot := (slot 0).
#[local] Abbreviation full := (full 0 IsNull).
#[local] Abbreviation contents := (contents IsNull).
#[local] Abbreviation hash := (string_hash string_of).
#[local] Abbreviation well_formed := (well_formed 0 IsNull hash).

(** ** Equality and hash codes of strings *)

Lemma chars_equal_spec a b : length a = length b -> chars_equal a b = true <-> a = b.
Proof.
  revert b. induction a as [| c a IH]; intros [| c' b]; simpl; try done. intros [= Hl].
  destruct (Z.eqb_spec c c') as [-> |]; simpl; [rewrite IH by done; split; congruence | split; [done | congruence]].
Qed.

Lemma Equals_spec a b : b <> 0 -> Equals string_of a b = true <-> string_of a = string_of b.
Proof.
  intros Hb. unfold Equals. destruct (Z.eqb_spec a b) as [-> |]; [done |].
  rewrite (proj2 (Z.eqb_neq b 0)) by done. destruct (Z.eqb_spec (zlength (string_of a)) (zlength (string_of b))); simpl.
  - apply chars_equal_spec. lia.
  - split; [done | intros E; by rewrite E in *].
Qed.

Lemma Equals_hash a b : Equals string_of a b = true -> hash a = hash b.
Proof.
  unfold Equals. destruct (Z.eqb_spec a b) as [-> |]; [done |]. destruct (Z.eqb_spec b 0) as [-> | Hb]; [done |].
  intros E. assert (string_of a = string_of b) as Es.
  { apply (Equals_spec a b Hb). unfold Equals. by rewrite (proj2 (Z.eqb_neq a b)), (proj2 (Z.eqb_neq b 0)) by done. }
  unfold string_hash, GetHashCode. by rewrite Es.
Qed.

Lemma string_hash_eq a b : string_of a = string_of b -> hash a = hash b.
Proof. intros E. unfold string_hash, GetHashCode. by rewrite E. Qed.

(** The hash code is what [ComputeUtf16Hash] computes. *)
Lemma GetHashCode_computed s rest :
  ComputeUtf16Hash (string_of s ++ rest) (length (string_of s)) = Ok (GetHashCode string_of s).
Proof.
  unfold ComputeUtf16Hash, GetHashCode.
  assert (forall us h, hash_loop h (us ++ rest) (length us) = Ok (foldl (fun hash ch => uint32 (hash * 31 + ch)) h us)) as ->; [| done].
  induction us as [| u us IH]; intros h; [done |]. cbn [length hash_loop app next_byte mbind res_bind foldl]. apply IH.
Qed.

Lemma contents_nonzero x (data : list Z) : x ∈ contents data -> x <> 0.
Proof. unfold HashSetProbing.contents. rewrite list_elem_of_filter. intros [?%Z.eqb_neq _]. done. Qed.

(** ** Changing an element in place *)

Lemma replace_contents (data : list Z) i x :
  0 <= i < zlength data -> full data i = true -> x <> 0 ->
  contents data ≡ₚ slot data i :: contents (put data i 0) /\ contents (put data i x) ≡ₚ x :: contents (put data i 0).
Proof.
  intros Hi Hf Hx. split; [by apply (contents_clear 0 IsNull eq_refl) |].
  assert (put data i x = put (put data i 0) i x) as -> by (unfold put; by rewrite list_insert_insert_eq).
  apply (contents_put 0); [by rewrite put_length | | by apply Z.eqb_neq].
  by rewrite full_put, decide_True by lia || done.
Qed.

Lemma replace_well_formed hs i x :
  well_formed hs -> 0 <= i < num_buckets_ hs -> full (data_ hs) i = true -> x <> 0 ->
  string_of x = string_of (slot (data_ hs) i) -> well_formed (with_data (put (data_ hs) i x) hs).
Proof.
  intros [[Hn Hp] He Hr Hsp Hmin Hmax] Hi Hf Hx Hs.
  destruct (replace_contents (data_ hs) i x ltac:(lia) Hf Hx) as [HC HC'].
  split; simpl; try done; [split; simpl; [by rewrite put_length |] |].
  - intros j Hj Hfj d Hd. rewrite put_length in *.
    assert (Hsame : forall k, 0 <= k -> full (put (data_ hs) i x) k = full (data_ hs) k).
    { intros k Hk. rewrite full_put by lia. case_decide; [| done]. subst. rewrite Hf. by apply negb_true_iff, Z.eqb_neq. }
    rewrite Hsame in Hfj by lia. pose proof (ideal_range hash (data_ hs) (slot (data_ hs) j) ltac:(lia)) as Hid.
    assert (Eid : ideal hash (put (data_ hs) i x) (slot (put (data_ hs) i x) j) = ideal hash (data_ hs) (slot (data_ hs) j)).
    { unfold ideal. rewrite put_length, slot_put by lia. case_decide; [subst; by rewrite (string_hash_eq _ _ Hs) | done]. }
    rewrite Eid in *. pose proof (dist_range _ j Hid Hj). pose proof (cyc_range _ d Hid ltac:(lia)).
    rewrite Hsame by lia. by apply (Hp j Hj Hfj).
  - rewrite (zlength_perm _ _ HC'). rewrite (zlength_perm _ _ HC) in He. simpl in *. lia.
Qed.

(** ** Sweeping *)

(** What becomes of a string. *)
Definition live (callback : Z -> Z) (x : Z) : option Z := if callback x =? 0 then None else Some (callback x).

Lemma omap_cons_eq {A B} (f : A -> option B) x l :
  omap f (x :: l) = match f x with Some y => y :: omap f l | None => omap f l end.
Proof. done. Qed.

Section sweep.
Context (callback : Z -> Z).
Context (Hsame : forall x, callback x <> 0 -> string_of (callback x) = string_of x).
(** A string that has been marked and moved stays where it is. *)
Context (Hidem : forall x, callback x <> 0 -> callback (callback x) = callback x).

Lemma live_fixed (l : list Z) : Forall (fun x => x <> 0 /\ callback x = x) l -> omap (live callback) l = l.
Proof.
  induction 1 as [| x l [Hx Hc] _ IH]; [done |]. rewrite omap_cons_eq, IH. unfold live. by rewrite Hc, (proj2 (Z.eqb_neq x 0)) by done.
Qed.

Lemma sweep_set_ok hfuel n : forall hs it,
  well_formed hs -> num_buckets_ hs <= Z.of_nat hfuel -> valid_iterator 0 IsNull hs it ->
  (forall k, 0 <= k < it -> full (data_ hs) k = true -> callback (slot (data_ hs) k) = slot (data_ hs) k) ->
  num_elements_ hs + num_buckets_ hs - it < Z.of_nat n ->
  exists hs', sweep_set string_of hfuel n callback hs it = Ok hs' /\ well_formed hs' /\ num_buckets_ hs' = num_buckets_ hs /\
    contents (data_ hs') ≡ₚ omap (live callback) (contents (data_ hs)).
Proof.
  induction n as [| n IH]; intros hs it Hw Hf [Hit Hfull] Hseen Hn.
  { pose proof (wf_elements _ _ _ _ Hw). lia. }
  cbn [sweep_set]. pose proof (sb_buckets _ _ _ _ (wf_buckets _ _ _ _ Hw)) as Hb.
  destruct (Z.eqb_spec it (num_buckets_ hs)) as [-> | Hne].
  { exists hs. split_and!; [done.. |]. rewrite live_fixed; [done |]. apply Forall_forall. intros x Hx.
    pose proof (contents_nonzero _ _ Hx). apply (elem_of_contents 0) in Hx as (j & Hj & Hfj & <-). split; [done |]. apply Hseen; [lia | done]. }
  specialize (Hfull ltac:(lia)). rewrite (ElementForIndex_slot 0 hs Hb) by lia. cbn [mbind res_bind].
  destruct (Z.eqb_spec (callback (slot (data_ hs) it)) 0) as [Hdead | Hlive].
  - destruct (Erase_ok 0 IsNull hash eq_refl hs it hfuel Hw ltac:(lia) Hfull Hf) as (hs' & it' & -> & Hw' & Hb' & HC & Hit' & Hle & Hfrom).
    cbn [mbind res_bind]. pose proof (wf_elements _ _ _ _ Hw) as He. pose proof (wf_elements _ _ _ _ Hw') as He'.
    rewrite (zlength_perm _ _ HC) in He. simpl in He. destruct (IH hs' it') as (hs2 & -> & Hw2 & Hb2 & HC2); [done | lia | done | | lia |].
    + intros k Hk Hfk. destruct (Hfrom k Hk Hfk) as (k0 & Hk0 & Hf0 & ->). by apply Hseen.
    + exists hs2. split_and!; [done | done | lia |]. rewrite HC2, HC, omap_cons_eq. unfold live at 2. by rewrite Hdead.
  - destruct (replace_contents (data_ hs) it _ ltac:(lia) Hfull Hlive) as [HC HC'].
    set (x' := callback (slot (data_ hs) it)) in *. rewrite zset_put by lia. cbn [mbind res_bind].
    pose proof (replace_well_formed hs it x' Hw ltac:(lia) Hfull Hlive (Hsame _ Hlive)) as Hw'.
    set (hs' := with_data _ hs) in *. destruct (NextNonEmptySlot_ok 0 IsNull hs' it) as (it' & -> & Hle & Hskip & Hend).
    { apply Hw'. } { simpl. lia. }
    cbn [mbind res_bind]. simpl in Hle. pose proof (wf_elements _ _ _ _ Hw'). simpl in *.
    destruct (IH hs' it') as (hs2 & -> & Hw2 & Hb2 & HC2); [done | done | split; [simpl; lia | done] | | simpl; lia |].
    + intros k Hk Hfk. simpl in Hfk |- *. rewrite slot_put by lia. destruct (decide (it = k)) as [-> | Hne']; [by apply Hidem |].
      destruct (Z.lt_ge_cases k it).
      * apply Hseen; [lia |]. by rewrite full_put, decide_False in Hfk by lia || done.
      * rewrite Hskip in Hfk by lia. done.
    + exists hs2. split_and!; [done | done | done |]. rewrite HC2. simpl. rewrite HC', HC, !omap_cons_eq.
      assert (live callback (slot (data_ hs) it) = Some x') as -> by (unfold live; fold x'; by rewrite (proj2 (Z.eqb_neq x' 0))).
      assert (live callback x' = Some x') as -> by (unfold live, x'; rewrite (Hidem _ Hlive); fold x'; by rewrite (proj2 (Z.eqb_neq x' 0))).
      done.
Qed.
End sweep.

(** ** Visiting roots *)

Section visit.
Context (callback : Z -> Z).
Context (Hroot : forall x, x <> 0 -> callback x <> 0 /\ string_of (callback x) = string_of x).


(** A bucket with its root visited. *)
Definition visited (x : Z) : Z := if IsNull x then x else callback x.

Lemma slot_of_lookup (data : list Z) i x : data !! i = Some x -> slot data (Z.of_nat i) = x.
Proof. intros H. unfold HashSetProbing.slot. by rewrite Nat2Z.id, H. Qed.

Lemma visit_set_ok n : forall hs it,
  well_formed hs -> valid_iterator 0 IsNull hs it -> num_buckets_ hs - it < Z.of_nat n ->
  exists hs', visit_set n callback hs it = Ok hs' /\ well_formed hs' /\ num_buckets_ hs' = num_buckets_ hs /\
    forall i, data_ hs' !! i = (if Z.of_nat i <? it then id else visited) <$> data_ hs !! i.
Proof.
  induction n as [| n IH]; intros hs it Hw [Hit Hfull] Hn; [lia |].
  cbn [visit_set]. pose proof (sb_buckets _ _ _ _ (wf_buckets _ _ _ _ Hw)) as Hb.
  destruct (Z.eqb_spec it (num_buckets_ hs)) as [-> | Hne].
  { exists hs. split_and!; [done.. |]. intros i. destruct (data_ hs !! i) eqn:E; [| done].
    apply lookup_lt_Some in E. by rewrite (proj2 (Z.ltb_lt _ _)) by lia. }
  specialize (Hfull ltac:(lia)). rewrite (ElementForIndex_slot 0 hs Hb) by lia. cbn [mbind res_bind].
  destruct (Hroot (slot (data_ hs) it)) as [Hx Hs]; [by apply full_true, Z.eqb_neq in Hfull |]. rewrite zset_put by lia. cbn [mbind res_bind].
  pose proof (replace_well_formed hs it _ Hw ltac:(lia) Hfull Hx Hs) as Hw'.
  set (hs1 := with_data _ hs) in *. destruct (NextNonEmptySlot_ok 0 IsNull hs1 it) as (it' & -> & Hle & Hskip & Hend).
  { apply Hw'. } { simpl. lia. }
  cbn [mbind res_bind]. destruct (IH hs1 it') as (hs2 & -> & Hw2 & Hb2 & Hd); [done | split; [simpl in *; lia | done] | simpl in *; lia |].
  exists hs2. split_and!; [done | done | done |]. intros i. rewrite Hd. simpl in Hskip, Hle |- *. unfold put.
  destruct (decide (i = Z.to_nat it)) as [-> |].
  - rewrite list_lookup_insert_eq by lia. rewrite (slot_lookup 0) by lia. rewrite (proj2 (Z.ltb_lt _ _)), (proj2 (Z.ltb_ge _ _)) by lia.
    simpl. unfold visited. apply full_true in Hfull. by rewrite Hfull.
  - rewrite list_lookup_insert_ne by done. destruct (data_ hs !! i) as [x |] eqn:E; [| done]. simpl.
    destruct (Z.ltb_spec (Z.of_nat i) it), (Z.ltb_spec (Z.of_nat i) it'); try lia; try done.
    specialize (Hskip (Z.of_nat i) ltac:(lia)). rewrite full_put, decide_False in Hskip by lia.
    apply full_false in Hskip. rewrite (slot_of_lookup _ _ _ E) in Hskip. unfold visited. by rewrite Hskip.
Qed.

Lemma contents_visited (data : list Z) : contents (visited <$> data) = callback <$> contents data.
Proof.
  unfold HashSetProbing.contents. induction data as [| x l IH]; [done |]. rewrite fmap_cons, !filter_cons, IH.
  assert (IsNull (visited x) = IsNull x) as Hv.
  { unfold visited. destruct (IsNull x) eqn:E; [done |]. by apply Z.eqb_neq, Hroot, Z.eqb_neq. }
  destruct (decide (IsNull (visited x) = false)), (decide (IsNull x = false)) as [E | ?]; try congruence.
  unfold visited. rewrite E. done.
Qed.

Lemma VisitRoots_set_ok n hs :
  well_formed hs -> num_buckets_ hs < Z.of_nat n ->
  exists hs', (it ← begin IsNull hs; visit_set n callback hs it) = Ok hs' /\ well_formed hs' /\
    num_buckets_ hs' = num_buckets_ hs /\ contents (data_ hs') = callback <$> contents (data_ hs).
Proof.
  intros Hw Hn. pose proof (sb_buckets _ _ _ _ (wf_buckets _ _ _ _ Hw)) as Hb.
  destruct (begin_ok 0 IsNull hs Hb) as (i & -> & Hi & Hk). cbn [mbind res_bind].
  destruct (visit_set_ok n hs i Hw Hi) as (hs' & -> & Hw' & Hb' & Hd); [destruct Hi; lia |].
  exists hs'. split_and!; [done.. |]. rewrite <- contents_visited. f_equal. apply list_eq. intros j.
  rewrite Hd, list_lookup_fmap. destruct (data_ hs !! j) as [x |] eqn:E; [| done]. simpl.
  destruct (Z.ltb_spec (Z.of_nat j) i); [| done]. specialize (Hk (Z.of_nat j) ltac:(lia)).
  apply full_false in Hk. rewrite (slot_of_lookup _ _ _ E) in Hk. unfold visited. by rewrite Hk.
Qed.
End visit.

Section sweep_sets.
Context (callback : Z -> Z).
Context (Hsame : forall x, callback x <> 0 -> string_of (callback x) = string_of x).
Context (Hidem : forall x, callback x <> 0 -> callback (callback x) = callback x).

Lemma SweepWeaks_ok fuel hs :
  well_formed hs -> num_elements_ hs + num_buckets_ hs < Z.of_nat fuel ->
  exists hs', SweepWeaks string_of fuel callback hs = Ok hs' /\ well_formed hs' /\ num_buckets_ hs' = num_buckets_ hs /\
    contents (data_ hs') ≡ₚ omap (live callback) (contents (data_ hs)).
Proof.
  intros Hw Hn. pose proof (sb_buckets _ _ _ _ (wf_buckets _ _ _ _ Hw)) as Hb. pose proof (wf_elements _ _ _ _ Hw).
  unfold SweepWeaks. destruct (begin_ok 0 IsNull hs Hb) as (i & -> & Hi & Hk). cbn [mbind res_bind].
  apply sweep_set_ok; try done; [lia | | destruct Hi; lia]. intros k Hk' Hf. rewrite Hk in Hf by done. done.
Qed.
End sweep_sets.

(** ** Tables

    [N] bounds the number of strings in a set; the loops of the sets have enough steps for
    it. *)

Section tables.
Context (fuel : nat) (N : Z) (HN : 0 <= N < size_bound) (Hfuel : 1001 + 3 * N <= Z.of_nat fuel).

(** A set with room for [k] more strings. *)
Record set_fits (k : Z) (hs : HashSet Z) : Prop := {
  fit_wf : well_formed hs;
  fit_elements : num_elements_ hs + k <= N;
  fit_buckets : num_buckets_ hs <= 1000 + 2 * N;
}.
Definition table_fits (k : Z) (t : Table) : Prop := set_fits k (pre_zygote_table_ t) /\ set_fits k (post_zygote_table_ t).

Definition strings (t : Table) : list Z := contents (data_ (pre_zygote_table_ t)) ++ contents (data_ (post_zygote_table_ t)).

Lemma strings_nonzero t x : x ∈ strings t -> x <> 0.
Proof. unfold strings. rewrite elem_of_app. intros [H | H]; by eapply contents_nonzero. Qed.

Lemma set_fits_le k k' hs : set_fits k hs -> k' <= k -> set_fits k' hs.
Proof. clear HN Hfuel. intros [] ?. split; try done. lia. Qed.
Lemma table_fits_le k k' t : table_fits k t -> k' <= k -> table_fits k' t.
Proof. clear HN Hfuel. intros [] ?. split; by eapply set_fits_le. Qed.

#[local] Abbreviation absent s l := (Forall (fun x => Equals string_of x s = false) l).

Lemma Find_set_ok k s hs :
  set_fits k hs -> 
  exists i, Find IsNull hash (Equals string_of) fuel s hs = Ok i /\
    ((0 <= i < num_buckets_ hs /\ full (data_ hs) i = true /\ Equals string_of (slot (data_ hs) i) s = true) \/
     (i = num_buckets_ hs /\ absent s (contents (data_ hs)))).
Proof.
  intros [Hw Hf Hb]. apply (Find_ok 0 IsNull hash hash (Equals string_of) Equals_hash); [done |].
  pose proof (wf_elements _ _ _ _ Hw). lia.
Qed.

Lemma find_in_ok k s hs :
  set_fits k hs -> exists r, find_in string_of fuel s hs = Ok r /\
    match r with
    | Some x => x ∈ contents (data_ hs) /\ Equals string_of x s = true
    | None => absent s (contents (data_ hs))
    end.
Proof.
  intros Hfit. unfold find_in. pose proof (sb_buckets _ _ _ _ (wf_buckets _ _ _ _ (fit_wf _ _ Hfit))) as Hb.
  destruct (Find_set_ok k s hs Hfit) as (i & -> & [(Hi & Hf & He) | [-> Ha]]); cbn [mbind res_bind].
  - rewrite (proj2 (Z.eqb_neq _ _)) by lia. rewrite (ElementForIndex_slot 0 hs Hb) by lia. eexists. split; [done |].
    split; [| done]. apply (elem_of_contents 0). exists i. split_and!; [lia.. | done | done].
  - rewrite Z.eqb_refl. by exists None.
Qed.

Lemma Table_Find_ok k s t :
  table_fits k t -> exists r, Table_Find string_of fuel s t = Ok r /\
    ((r <> 0 /\ r ∈ strings t /\ Equals string_of r s = true) \/ (r = 0 /\ absent s (strings t))).
Proof.
  intros [Hpre Hpost]. unfold Table_Find, strings.
  destruct (find_in_ok k s _ Hpre) as (r & -> & Hr). cbn [mbind res_bind]. destruct r as [x |].
  { destruct Hr as [Hx He]. pose proof (contents_nonzero _ _ Hx). exists x. split; [done |]. left. rewrite elem_of_app. auto. }
  destruct (find_in_ok k s _ Hpost) as (r & -> & Hr'). cbn [mbind res_bind]. destruct r as [x |].
  { destruct Hr' as [Hx He]. pose proof (contents_nonzero _ _ Hx). exists x. split; [done |]. left. rewrite elem_of_app. auto. }
  exists 0. split; [done |]. right. split; [done |]. by apply Forall_app.
Qed.

Lemma Table_Insert_ok k s t :
  table_fits k t -> 1 <= k -> s <> 0 ->
  exists t', Table_Insert string_of fuel s t = Ok t' /\ table_fits (k - 1) t' /\ strings t' ≡ₚ s :: strings t.
Proof.
  intros [Hpre [Hw He Hb]] Hk Hs. unfold Table_Insert. pose proof (wf_elements _ _ _ _ Hw) as Hel.
  destruct (Insert_ok 0 IsNull hash eq_refl fuel s (post_zygote_table_ t)) as (hs' & -> & Hw' & Hb' & HC); try done; try lia.
  { by apply Z.eqb_neq. }
  cbn [mbind res_bind]. eexists. split; [done |]. pose proof (wf_elements _ _ _ _ Hw') as He'.
  rewrite (zlength_perm _ _ HC) in He'. simpl in He'. split; [split; simpl; [eapply set_fits_le; [done | lia] | split; [done | lia | lia]] |].
  unfold strings. simpl. rewrite HC. by rewrite Permutation_middle.
Qed.

Lemma Erase_set_ok k hs i :
  set_fits k hs -> 0 <= i < num_buckets_ hs -> full (data_ hs) i = true ->
  exists hs' i', Erase 0 IsNull hash fuel i hs = Ok (hs', i') /\ set_fits (k + 1) hs' /\
    contents (data_ hs) ≡ₚ slot (data_ hs) i :: contents (data_ hs').
Proof.
  intros [Hw He Hb] Hi Hf. pose proof (wf_elements _ _ _ _ Hw) as Hel.
  destruct (Erase_ok 0 IsNull hash eq_refl hs i fuel Hw Hi Hf ltac:(lia)) as (hs' & i' & -> & Hw' & Hb' & HC & _).
  exists hs', i'. split; [done |]. split; [| done]. pose proof (wf_elements _ _ _ _ Hw') as He'.
  rewrite (zlength_perm _ _ HC) in Hel. simpl in Hel. split; [done | lia | lia].
Qed.

(** Removal takes out one string equal to the one given. *)
Lemma Table_Remove_ok k s t x :
  table_fits k t -> x ∈ strings t -> Equals string_of x s = true ->
  exists t' y, Table_Remove string_of fuel s t = Ok t' /\ table_fits k t' /\
    Equals string_of y s = true /\ strings t ≡ₚ y :: strings t'.
Proof.
  intros [Hpre Hpost] Hx He. unfold Table_Remove, strings in *.
  destruct (Find_set_ok k s _ Hpost) as (i & -> & [(Hi & Hf & Hy) | [-> Ha]]); cbn [mbind res_bind].
  - rewrite (proj2 (Z.eqb_neq _ _)) by lia. cbn [negb].
    destruct (Erase_set_ok k _ i Hpost Hi Hf) as (hs' & i' & -> & Hfit & HC). cbn [mbind res_bind].
    eexists _, _. split; [done |]. split; [split; [done | eapply set_fits_le; [done | lia]] |]. split; [done |].
    simpl. rewrite HC. by rewrite Permutation_middle.
  - rewrite Z.eqb_refl. cbn [negb].
    destruct (Find_set_ok k s _ Hpre) as (i & -> & [(Hi & Hf & Hy) | [-> Ha']]); cbn [mbind res_bind].
    + rewrite (proj2 (Z.eqb_neq _ _)) by lia. cbn [negb check mbind res_bind].
      destruct (Erase_set_ok k _ i Hpre Hi Hf) as (hs' & i' & -> & Hfit & HC). cbn [mbind res_bind].
      eexists _, _. split; [done |]. split; [split; [eapply set_fits_le; [done | lia] | done] |]. split; [done |].
      simpl. by rewrite HC.
    + exfalso. apply elem_of_app in Hx as [Hx | Hx]; rewrite Forall_forall in Ha, Ha'; [apply Ha' in Hx | apply Ha in Hx]; congruence.
Qed.

Lemma Table_SweepWeaks_ok k callback t :
  (forall x, callback x <> 0 -> string_of (callback x) = string_of x) ->
  (forall x, callback x <> 0 -> callback (callback x) = callback x) ->
  table_fits k t -> 0 <= k ->
  exists t', Table_SweepWeaks string_of fuel callback t = Ok t' /\ table_fits k t' /\
    strings t' ≡ₚ omap (live callback) (strings t).
Proof.
  intros Hsame Hidem Ht Hk.
  assert (forall hs, set_fits k hs -> exists hs', SweepWeaks string_of fuel callback hs = Ok hs' /\ set_fits k hs' /\
    contents (data_ hs') ≡ₚ omap (live callback) (contents (data_ hs))) as Hsweep.
  { intros hs [Hw He Hb]. destruct (SweepWeaks_ok callback Hsame Hidem fuel hs Hw ltac:(lia)) as (hs' & -> & Hw' & Hb' & HC).
    exists hs'. split; [done |]. split; [| done]. split; [done | | lia].
    rewrite (wf_elements _ _ _ _ Hw'), (zlength_perm _ _ HC). rewrite (wf_elements _ _ _ _ Hw) in He.
    assert (length (omap (live callback) (contents (data_ hs))) <= length (contents (data_ hs)))%nat; [| lia].
    clear. induction (contents (data_ hs)) as [| x l IH]; [done |]. rewrite omap_cons_eq. destruct (live callback x); simpl; lia. }
  destruct Ht as [Hpre Hpost]. unfold Table_SweepWeaks, strings.
  destruct (Hsweep _ Hpre) as (pre & -> & Hpre' & HC). cbn [mbind res_bind].
  destruct (Hsweep _ Hpost) as (post & -> & Hpost' & HC'). cbn [mbind res_bind].
  eexists. split; [done |]. split; [by split |]. simpl. by rewrite HC, HC', omap_app.
Qed.

Lemma Table_VisitRoots_ok k callback t :
  (forall x, x <> 0 -> callback x <> 0 /\ string_of (callback x) = string_of x) ->
  table_fits k t -> exists t', Table_VisitRoots fuel callback t = Ok t' /\ table_fits k t' /\ strings t' = callback <$> strings t.
Proof.
  intros Hroot Ht.
  assert (forall hs, set_fits k hs -> exists hs', (it ← begin IsNull hs; visit_set fuel callback hs it) = Ok hs' /\ set_fits k hs' /\
    contents (data_ hs') = callback <$> contents (data_ hs)) as Hvisit.
  { intros hs [Hw He Hb]. pose proof (wf_elements _ _ _ _ Hw) as Hel.
    destruct (VisitRoots_set_ok callback Hroot fuel hs Hw ltac:(lia)) as (hs' & -> & Hw' & Hb' & HC).
    exists hs'. split; [done |]. split; [| done]. split; [done | | lia].
    rewrite (wf_elements _ _ _ _ Hw'), HC, length_fmap. lia. }
  destruct Ht as [Hpre Hpost]. unfold Table_VisitRoots, strings.
  destruct (Hvisit _ Hpre) as (pre & E & Hpre' & HC). destruct (Hvisit _ Hpost) as (post & E' & Hpost' & HC').
  destruct (begin IsNull (pre_zygote_table_ t)) as [i |]; [| done]. simpl in E |- *. rewrite E. cbn [mbind res_bind].
  destruct (begin IsNull (post_zygote_table_ t)) as [i' |]; [| done]. simpl in E' |- *. rewrite E'. cbn [mbind res_bind].
  eexists. split; [done |]. split; [by split |]. simpl. by rewrite HC, HC', fmap_app.
Qed.

Lemma new_Table_ok : table_fits N new_Table /\ strings new_Table = [].
Proof.
  clear Hfuel. destruct (new_HashSet_ok 0 IsNull hash eq_refl) as [Hw HC]. assert (set_fits N (new_HashSet 0)) as Hfit by (split; [done | simpl; lia..]).
  split; [by split |]. done.
Qed.
End tables.
End facts.
