(* ===== verification/InternTableTheorems.v ===== *)
(** * Interning is canonical

    The intern table implements a map from the characters of a string to one reference,
    strong or weak: [interning_refines_map].  A transaction that interns strings and is
    aborted leaves the tables as it found them: [interning_rolls_back]. *)

From S2P Require Import Prelude HashSet HashSetLoad HashSetProbing HashSetInvariant HashSetTheorems Leb128 Utf DexLookup DexLookupTheorems InternTable InternTableFacts.

Section interning.
Context (string_of : Z -> list Z) (Hunits : forall s, Forall utf16_unit (string_of s)).
Context (fuel : nat) (N : Z) (HN : 0 <= N < size_bound) (Hfuel : 1001 + 3 * N <= Z.of_nat fuel).
Context (image : option (list DexCache)) (added : bool).

#[local] Abbreviation table_fits := (table_fits string_of N).
#[local] Abbreviation Equals := (Equals string_of).

(** ** Strings of the image *)

(** The strings of a dex cache have the characters that the dex file has for them. *)
Definition cache_wf (c : DexCache) : Prop :=
  exists strings, string_table (dex_file c) strings /\ length (resolved_strings c) = length strings /\
    forall i r u, resolved_strings c !! i = Some r -> strings !! i = Some u -> r <> 0 -> string_of r = u.
Definition image_wf : Prop := match image with Some caches => Forall cache_wf caches | None => True end.

Context (Himage : image_wf).

Lemma lookup_caches_ok u caches :
  Forall utf16_unit u -> Forall cache_wf caches ->
  exists r, lookup_caches (encoded u) caches = Ok r /\ (r <> 0 -> string_of r = u).
Proof.
  intros Hu. induction 1 as [| c caches Hc _ IH]; cbn [lookup_caches]; [by exists 0 |].
  destruct Hc as (strings & Ht & Hlen & Hres). destruct (FindStringId_found _ _ u [] Ht Hu) as (o & -> & Ho). cbn [mbind res_bind].
  destruct o as [i |]; [| done]. destruct (proj1 (Ho i) eq_refl) as [Hi Hl]. unfold GetResolvedString.
  destruct (lookup_lt_is_Some_2 (resolved_strings c) (Z.to_nat i)) as [r Hr]; [rewrite Hlen; by eapply lookup_lt_Some |].
  assert (zget (resolved_strings c) i = Ok r) as -> by (by apply zget_ok). cbn [mbind res_bind].
  destruct (Z.eqb_spec r 0); cbn [negb]; [done |]. exists r. split; [done |]. intros _. by eapply Hres.
Qed.

(** The reference the image has for a string. *)
Definition image_ref (u : list Z) : option Z :=
  match image with
  | Some caches =>
      if added then None
      else match lookup_caches (encoded u) caches with
           | Ok r => if r =? 0 then None else Some r
           | Fault _ => None
           end
  | None => None
  end.

Lemma image_ref_ok u r : Forall utf16_unit u -> image_ref u = Some r -> string_of r = u /\ r <> 0.
Proof.
  unfold image_ref. intros Hu. pose proof Himage as Hi. unfold image_wf in Hi. destruct image as [caches |]; [| done].
  destruct added; [done |]. destruct (lookup_caches_ok u caches Hu Hi) as (x & -> & Hx).
  destruct (Z.eqb_spec x 0); [done |]. intros [= <-]. auto.
Qed.

Lemma LookupStringFromImage_ok s st :
  image_added_to_intern_table_ (intern_table st) = added ->
  LookupStringFromImage string_of image s st = Ok (default 0 (image_ref (string_of s)), st).
Proof.
  intros Ha. unfold LookupStringFromImage, get_table, image_ref. rewrite M_bind_gets, Ha. pose proof Himage as Hi. unfold image_wf in Hi.
  destruct added; [by destruct image |]. destruct image as [caches |]; [| done].
  assert (ToModifiedUtf8 string_of s = Ok (encoded (string_of s))) as E.
  { unfold ToModifiedUtf8. pose proof (ConvertUtf16_encoded (string_of s) []) as E. by rewrite app_nil_r in E. }
  rewrite E, M_bind_Ok. destruct (lookup_caches_ok (string_of s) caches (Hunits s) Hi) as (r & -> & _).
  unfold lift. simpl. by destruct (Z.eqb_spec r 0) as [-> |].
Qed.

(** ** What an operation does to the lists of strings *)

(** The table has room for [k] strings, the strong strings [S] and the weak strings [W],
    and a transaction has the log [L]. *)
Record holds (st : Interning) (k : Z) (S W : list Z) (L : option (list InternStringLog)) : Prop := {
  h_strong : table_fits k (strong_interns_ (intern_table st));
  h_weak : table_fits k (weak_interns_ (intern_table st));
  h_S : strings (strong_interns_ (intern_table st)) ≡ₚ S;
  h_W : strings (weak_interns_ (intern_table st)) ≡ₚ W;
  h_log : intern_string_logs_ st = L;
  h_allow : allow_new_interns_ (intern_table st) = true;
  h_added : image_added_to_intern_table_ (intern_table st) = added;
}.

Definition log_entry (s : Z) (kind : StringKind) (op : StringOp) (L : option (list InternStringLog)) :=
  cons (MkInternStringLog s kind op) <$> L.

Lemma holds_le st k k' S W L : holds st k S W L -> k' <= k -> holds st k' S W L.
Proof. intros [] ?. split; try done; by eapply table_fits_le. Qed.

Lemma holds_perm st k S S' W W' L : holds st k S W L -> S ≡ₚ S' -> W ≡ₚ W' -> holds st k S' W' L.
Proof. intros [] E E'. split; try done; by etrans. Qed.

Lemma holds_S_nonzero st k S W L x : holds st k S W L -> x ∈ S -> x <> 0.
Proof. intros H Hx. rewrite <- (h_S _ _ _ _ _ H) in Hx. by eapply strings_nonzero. Qed.
Lemma holds_W_nonzero st k S W L x : holds st k S W L -> x ∈ W -> x <> 0.
Proof. intros H Hx. rewrite <- (h_W _ _ _ _ _ H) in Hx. by eapply strings_nonzero. Qed.

Lemma LookupStrong_ok st k S W L s :
  holds st k S W L -> exists r, LookupStrong string_of fuel s st = Ok (r, st) /\
    ((r <> 0 /\ r ∈ S /\ Equals r s = true) \/ (r = 0 /\ Forall (fun x => Equals x s = false) S)).
Proof.
  intros H. unfold LookupStrong, get_table. rewrite M_bind_gets.
  destruct (Table_Find_ok string_of fuel N HN Hfuel k s _ (h_strong _ _ _ _ _ H)) as (r & -> & Hr). exists r. split; [done |].
  by rewrite (h_S _ _ _ _ _ H) in Hr.
Qed.

Lemma LookupWeak_ok st k S W L s :
  holds st k S W L -> exists r, LookupWeak string_of fuel s st = Ok (r, st) /\
    ((r <> 0 /\ r ∈ W /\ Equals r s = true) \/ (r = 0 /\ Forall (fun x => Equals x s = false) W)).
Proof.
  intros H. unfold LookupWeak, get_table. rewrite M_bind_gets.
  destruct (Table_Find_ok string_of fuel N HN Hfuel k s _ (h_weak _ _ _ _ _ H)) as (r & -> & Hr). exists r. split; [done |].
  by rewrite (h_W _ _ _ _ _ H) in Hr.
Qed.

Lemma record_step {A} s kind op (rest : M Interning A) st :
  s <> 0 ->
  (active ← IsActiveTransaction; (if active : bool then RecordString s kind op else mret tt);; rest) st =
  rest (MkInterning (intern_table st) (log_entry s kind op (intern_string_logs_ st))).
Proof.
  intros Hs. unfold IsActiveTransaction, RecordString. rewrite M_bind_gets. destruct st as [t [logs |]]; simpl; [| done].
  unfold mbind, M_bind, lift, modify. by rewrite (proj2 (Z.eqb_neq s 0)) by done.
Qed.

Lemma InsertStrong_ok st k S W L s :
  holds st k S W L -> 1 <= k -> s <> 0 ->
  exists st', InsertStrong string_of fuel s st = Ok (s, st') /\ holds st' (k - 1) (s :: S) W (log_entry s kStrongString kInsert L).
Proof.
  intros [Hst Hwk HS HW HL Hal Had] Hk Hs. unfold InsertStrong, get_table, set_table. rewrite record_step by done.
  rewrite M_bind_gets. cbn [intern_table].
  destruct (Table_Insert_ok string_of fuel N HN Hfuel k s _ Hst Hk Hs) as (t' & E & Ht' & HC).
  assert (table_fits (k - 1) (weak_interns_ (intern_table st))) by (eapply table_fits_le; [exact Hwk | lia]).
  destruct (log_new_roots_ (intern_table st)); rewrite ?M_bind_modify, ?M_bind_ret; rewrite E, M_bind_Ok, M_bind_modify;
    (eexists; split; [reflexivity |]); split; simpl; try done; rewrite ?HL, ?HC, ?HS; done.
Qed.

Lemma InsertWeak_ok st k S W L s :
  holds st k S W L -> 1 <= k -> s <> 0 ->
  exists st', InsertWeak string_of fuel s st = Ok (s, st') /\ holds st' (k - 1) S (s :: W) (log_entry s kWeakString kInsert L).
Proof.
  intros [Hst Hwk HS HW HL Hal Had] Hk Hs. unfold InsertWeak, get_table, set_table. rewrite record_step by done.
  rewrite M_bind_gets. cbn [intern_table].
  destruct (Table_Insert_ok string_of fuel N HN Hfuel k s _ Hwk Hk Hs) as (t' & E & Ht' & HC).
  assert (table_fits (k - 1) (strong_interns_ (intern_table st))) by (eapply table_fits_le; [exact Hst | lia]).
  rewrite E, M_bind_Ok, M_bind_modify. eexists; split; [reflexivity |]. split; simpl; try done; rewrite ?HL, ?HC, ?HW; done.
Qed.

Lemma RemoveStrong_ok st k S W L s x :
  holds st k S W L -> x ∈ S -> Equals x s = true ->
  exists st' y S', RemoveStrong string_of fuel s st = Ok (tt, st') /\ Equals y s = true /\ S ≡ₚ y :: S' /\ holds st' k S' W L.
Proof.
  intros [Hst Hwk HS HW HL Hal Had] Hx He. unfold RemoveStrong, get_table, set_table. rewrite M_bind_gets. rewrite <- HS in Hx.
  destruct (Table_Remove_ok string_of fuel N HN Hfuel k s _ x Hst Hx He) as (t' & y & E & Ht' & Hy & HC).
  rewrite E, M_bind_Ok. eexists _, y, (strings t'). split; [reflexivity |]. split_and!; [done | by rewrite <- HS |].
  by split.
Qed.

Lemma RemoveWeak_ok st k S W L s x :
  holds st k S W L -> s <> 0 -> x ∈ W -> Equals x s = true ->
  exists st' y W', RemoveWeak string_of fuel s st = Ok (tt, st') /\ Equals y s = true /\ W ≡ₚ y :: W' /\
    holds st' k S W' (log_entry s kWeakString kRemove L).
Proof.
  intros [Hst Hwk HS HW HL Hal Had] Hs Hx He. unfold RemoveWeak, get_table, set_table. rewrite record_step by done.
  rewrite M_bind_gets. cbn [intern_table]. rewrite <- HW in Hx.
  destruct (Table_Remove_ok string_of fuel N HN Hfuel k s _ x Hwk Hx He) as (t' & y & E & Ht' & Hy & HC).
  rewrite E, M_bind_Ok. eexists _, y, (strings t'). split; [reflexivity |]. split_and!; [done | by rewrite <- HW |].
  split; simpl; try done. by rewrite HL.
Qed.

(** ** Interning *)

(** The four ways of [Insert]: a strong string, a string of the image, a weak string, a
    new string. *)
Inductive interned (s : Z) (S W : list Z) : bool -> Z -> list Z -> list Z -> list InternStringLog -> Prop :=
  | in_strong b r : r ∈ S -> string_of r = string_of s -> interned s S W b r S W []
  | in_image b r :
      (forall x, x ∈ S -> string_of x <> string_of s) -> image_ref (string_of s) = Some r ->
      interned s S W b r (if b then r :: S else S) (if b then W else r :: W)
        [MkInternStringLog r (if b then kStrongString else kWeakString) kInsert]
  | in_weak r :
      (forall x, x ∈ S -> string_of x <> string_of s) -> image_ref (string_of s) = None -> r ∈ W ->
      string_of r = string_of s -> interned s S W false r S W []
  | in_promoted r y W' :
      (forall x, x ∈ S -> string_of x <> string_of s) -> image_ref (string_of s) = None -> r ∈ W ->
      string_of r = string_of s -> W ≡ₚ y :: W' -> string_of y = string_of s ->
      interned s S W true r (r :: S) W' [MkInternStringLog r kStrongString kInsert; MkInternStringLog r kWeakString kRemove]
  | in_new b :
      (forall x, x ∈ S -> string_of x <> string_of s) -> image_ref (string_of s) = None ->
      (forall x, x ∈ W -> string_of x <> string_of s) ->
      interned s S W b s (if b then s :: S else S) (if b then W else s :: W)
        [MkInternStringLog s (if b then kStrongString else kWeakString) kInsert].

Lemma absent_strings s l : s <> 0 -> Forall (fun x => Equals x s = false) l -> forall x, x ∈ l -> string_of x <> string_of s.
Proof. intros Hs Ha x Hx E. apply (proj1 (Forall_forall _ _) Ha) in Hx. apply (Equals_spec string_of x s Hs) in E. congruence. Qed.

Lemma Intern_Insert_ok st k S W L s b :
  holds st k S W L -> 1 <= k -> s <> 0 ->
  exists r st' S' W' logs, Insert string_of fuel image s b st = Ok (r, st') /\ interned s S W b r S' W' logs /\
    holds st' (k - 1) S' W' (app logs <$> L).
Proof.
  intros H Hk Hs. unfold Insert. rewrite (proj2 (Z.eqb_neq s 0)) by done. unfold get_table. rewrite M_bind_gets, (h_allow _ _ _ _ _ H), M_bind_Ok.
  assert (Hkeep : holds st (k - 1) S W (app [] <$> L)).
  { replace (app [] <$> L) with L by (by destruct L). eapply holds_le; [done | lia]. }
  destruct (LookupStrong_ok st k S W L s H) as (r & E & [(Hr & Hin & He) | [-> Habs]]); rewrite (M_bind_step _ _ _ _ _ E).
  { rewrite (proj2 (Z.eqb_neq r 0)) by done. apply (Equals_spec string_of r s Hs) in He.
    exists r, st, S, W, []. split_and!; [done | by constructor | done]. }
  cbn [Z.eqb negb]. pose proof (absent_strings s S Hs Habs) as HabsS.
  rewrite (M_bind_step _ _ _ _ _ (LookupStringFromImage_ok s st (h_added _ _ _ _ _ H))).
  destruct (image_ref (string_of s)) as [r |] eqn:Ei; cbn [from_option id].
  { destruct (image_ref_ok _ _ (Hunits s) Ei) as [_ Hr]. rewrite (proj2 (Z.eqb_neq r 0)) by done. cbn [negb].
    pose proof (in_image s S W b r HabsS Ei) as Hin.
    destruct b; [destruct (InsertStrong_ok st k S W L r H Hk Hr) as (st' & E' & H') | destruct (InsertWeak_ok st k S W L r H Hk Hr) as (st' & E' & H')];
      eexists r, st', _, _, _; (split; [done |]); (split; [exact Hin |]); done. }
  cbn [Z.eqb negb].
  destruct (LookupWeak_ok st k S W L s H) as (r & E' & [(Hr & Hin & He) | [-> HabsW]]); rewrite (M_bind_step _ _ _ _ _ E').
  - rewrite (proj2 (Z.eqb_neq r 0)) by done. cbn [negb]. apply (Equals_spec string_of r s Hs) in He.
    destruct b; [| exists r, st, S, W, []; split_and!; [done | by constructor | done]].
    destruct (RemoveWeak_ok st k S W L r r H Hr Hin) as (st1 & y & W' & E1 & Hy & HW' & H1); [by apply Equals_spec |].
    apply (Equals_spec string_of y r Hr) in Hy. rewrite (M_bind_step _ _ _ _ _ E1).
    destruct (InsertStrong_ok st1 k S W' _ r H1 Hk Hr) as (st' & E2 & H2).
    exists r, st', (r :: S), W', [MkInternStringLog r kStrongString kInsert; MkInternStringLog r kWeakString kRemove].
    split_and!; [done | econstructor; try done; congruence |]. by destruct L.
  - cbn [Z.eqb negb]. pose proof (in_new s S W b HabsS Ei (absent_strings s W Hs HabsW)) as Hin.
    destruct b; [destruct (InsertStrong_ok st k S W L s H Hk Hs) as (st' & E2 & H') | destruct (InsertWeak_ok st k S W L s H Hk Hs) as (st' & E2 & H')];
      eexists s, st', _, _, _; (split; [done |]); (split; [exact Hin |]); done.
Qed.

(** ** Rollback *)

(** Weak strings with the same characters are the same string, that of the image if the
    image has one. *)
Record canonical (W : list Z) : Prop := {
  can_unique : forall x y, x ∈ W -> y ∈ W -> string_of x = string_of y -> x = y;
  can_image : forall x r, x ∈ W -> image_ref (string_of x) = Some r -> x = r;
}.

Lemma interned_canonical s S W b r S' W' logs : interned s S W b r S' W' logs -> canonical W -> canonical W'.
Proof.
  intros Hin [Hu Hi]. destruct Hin as [| [] r HS Himg | | r y W' HS Himg Hr Er HW Ey | [] HS Himg HW]; try done.
  - destruct (image_ref_ok _ _ (Hunits s) Himg) as [Er _]. split.
    + intros x y [-> | Hx]%elem_of_cons [-> | Hy]%elem_of_cons E; auto; [symmetry |]; apply Hi; congruence.
    + intros x r' [-> | Hx]%elem_of_cons E; [congruence | auto].
  - assert (forall x, x ∈ W' -> x ∈ W) as Hsub by (intros x Hx; rewrite HW; by right). split; intros; [apply Hu | apply Hi]; auto.
  - split.
    + intros x y [-> | Hx]%elem_of_cons [-> | Hy]%elem_of_cons E; auto; [by destruct (HW y) | by destruct (HW x)].
    + intros x r' [-> | Hx]%elem_of_cons E; [congruence | auto].
Qed.

(** Undoing the log takes the strings back to [S0] and [W0]. *)
Definition undoes (logs : list InternStringLog) (S W S0 W0 : list Z) : Prop :=
  forall st k, holds st k S W None -> zlength logs <= k ->
    exists st', undo_all string_of fuel logs st = Ok (tt, st') /\ holds st' (k - zlength logs) S0 W0 None.

Lemma undoes_perm logs S S' W W' S0 W0 : S ≡ₚ S' -> W ≡ₚ W' -> undoes logs S W S0 W0 -> undoes logs S' W' S0 W0.
Proof. intros E E' H st k Hst Hk. apply H; [| done]. by eapply holds_perm. Qed.

(** The first entry is undone, then the others. *)
Lemma undoes_step log logs S W S1 W1 S0 W0 :
  (forall st k, holds st k S W None -> 1 <= k ->
     exists st', Undo string_of fuel log st = Ok (tt, st') /\ holds st' (k - 1) S1 W1 None) ->
  undoes logs S1 W1 S0 W0 -> undoes (log :: logs) S W S0 W0.
Proof.
  intros Hstep Hrest st k Hst Hk. cbn [undo_all length] in *. destruct (Hstep st k Hst ltac:(lia)) as (st1 & E & H1).
  rewrite (M_bind_step _ _ _ _ _ E). destruct (Hrest st1 (k - 1) H1 ltac:(lia)) as (st' & E' & H'). exists st'. split; [done |].
  eapply holds_le; [done | lia].
Qed.

Lemma not_active_ok {A} (m : M Interning A) st : intern_string_logs_ st = None -> (not_active;; m) st = m st.
Proof. intros H. unfold not_active, IsActiveTransaction. rewrite M_bind_assoc, M_bind_gets, H. done. Qed.

Lemma undo_strong_insertion r logs S W S0 W0 :
  r <> 0 -> (forall x, x ∈ S -> string_of x <> string_of r) -> undoes logs S W S0 W0 ->
  undoes (MkInternStringLog r kStrongString kInsert :: logs) (r :: S) W S0 W0.
Proof.
  intros Hr Habs. apply undoes_step. intros st k Hst Hk. unfold Undo. cbn [string_op_ string_kind_ str_]. unfold RemoveStrongFromTransaction. rewrite not_active_ok by apply Hst.
  destruct (RemoveStrong_ok st k (r :: S) W None r r Hst) as (st' & y & S' & E & Hy & HS & H'); [by left | by apply Equals_spec |].
  apply (Equals_spec string_of y r Hr) in Hy. assert (y ∈ r :: S) as [-> | Hin]%elem_of_cons by (rewrite HS; by left); [| by apply Habs in Hy].
  apply Permutation_cons_inv in HS. exists st'. split; [done |]. eapply holds_le; [by eapply holds_perm | lia].
Qed.

Lemma undo_weak_insertion r logs S W S0 W0 :
  r <> 0 -> canonical (r :: W) -> undoes logs S W S0 W0 ->
  undoes (MkInternStringLog r kWeakString kInsert :: logs) S (r :: W) S0 W0.
Proof.
  intros Hr Hcan. apply undoes_step. intros st k Hst Hk. unfold Undo. cbn [string_op_ string_kind_ str_]. unfold RemoveWeakFromTransaction. rewrite not_active_ok by apply Hst.
  destruct (RemoveWeak_ok st k S (r :: W) None r r Hst Hr) as (st' & y & W' & E & Hy & HW & H'); [by left | by apply Equals_spec |].
  apply (Equals_spec string_of y r Hr) in Hy. assert (y = r) as ->.
  { apply (can_unique _ Hcan); [rewrite HW; by left | by left | done]. }
  apply Permutation_cons_inv in HW. exists st'. split; [done |]. eapply holds_le; [by eapply holds_perm | lia].
Qed.

Lemma undo_weak_removal r logs S W S0 W0 :
  r <> 0 -> undoes logs S (r :: W) S0 W0 -> undoes (MkInternStringLog r kWeakString kRemove :: logs) S W S0 W0.
Proof.
  intros Hr. apply undoes_step. intros st k Hst Hk. unfold Undo. cbn [string_op_ string_kind_ str_]. unfold InsertWeakFromTransaction.
  destruct (InsertWeak_ok st k S W None r Hst Hk Hr) as (st' & E & H'). exists st'. split; [| done].
  rewrite (M_bind_step _ _ _ r st'); [done |]. by rewrite not_active_ok by apply Hst.
Qed.

Lemma interned_undo s S W b r S' W' logs L S0 W0 :
  interned s S W b r S' W' logs -> s <> 0 -> canonical W -> (forall x, x ∈ W -> x <> 0) ->
  undoes L S W S0 W0 -> undoes (logs ++ L) S' W' S0 W0.
Proof.
  intros Hin Hs Hcan Hnz HL. pose proof (interned_canonical _ _ _ _ _ _ _ _ Hin Hcan) as Hcan'.
  destruct Hin as [| [] r HS Himg | | r y W' HS Himg Hr Er HW Ey | [] HS Himg HW]; simpl in *; try done.
  - destruct (image_ref_ok _ _ (Hunits s) Himg) as [Er Hr]. apply undo_strong_insertion; [done | | done]. by rewrite Er.
  - destruct (image_ref_ok _ _ (Hunits s) Himg) as [Er Hr]. by apply undo_weak_insertion.
  - assert (y = r) as -> by (apply (can_unique _ Hcan); [rewrite HW; by left | done | congruence]).
    apply undo_strong_insertion; [auto | by rewrite Er |]. apply undo_weak_removal; [auto |]. by eapply undoes_perm.
  - by apply undo_strong_insertion.
  - by apply undo_weak_insertion.
Qed.

(** A sequence of calls of [InternStrong] and [InternWeak]. *)
Fixpoint intern_all (calls : list (Z * bool)) : M Interning (list Z) :=
  match calls with
  | [] => mret []
  | (s, is_strong) :: calls =>
      r ← Insert string_of fuel image s is_strong;
      rest ← intern_all calls;
      mret (r :: rest)
  end.

Lemma Insert_null b st : Insert string_of fuel image 0 b st = Ok (0, st).
Proof. done. Qed.

Lemma intern_all_undone calls : forall st k S W L S0 W0,
  holds st k S W (Some L) -> zlength calls <= k -> canonical W -> undoes L S W S0 W0 ->
  exists results st' S' W' L', intern_all calls st = Ok (results, st') /\ holds st' (k - zlength calls) S' W' (Some L') /\
    undoes L' S' W' S0 W0 /\ zlength L' <= zlength L + 2 * zlength calls.
Proof.
  induction calls as [| [s b] calls IH]; intros st k S W L S0 W0 Hst Hk Hcan Hun; cbn [intern_all length] in *.
  { exists [], st, S, W, L. split_and!; [done | eapply holds_le; [done | lia] | done | lia]. }
  assert (exists r st1 S1 W1 L1, Insert string_of fuel image s b st = Ok (r, st1) /\ holds st1 (k - 1) S1 W1 (Some L1) /\
    canonical W1 /\ undoes L1 S1 W1 S0 W0 /\ zlength L1 <= zlength L + 2) as (r & st1 & S1 & W1 & L1 & E & H1 & Hcan1 & Hun1 & HL1).
  { destruct (decide (s = 0)) as [-> | Hs].
    - exists 0, st, S, W, L. split_and!; [done | eapply holds_le; [done | lia] | done | done | lia].
    - destruct (Intern_Insert_ok st k S W (Some L) s b Hst ltac:(lia) Hs) as (r & st1 & S1 & W1 & logs & E & Hin & H1).
      exists r, st1, S1, W1, (logs ++ L). split_and!; [done | done | by eapply interned_canonical | |].
      + eapply interned_undo; try done. intros x Hx. exact (holds_W_nonzero _ _ _ _ _ _ Hst Hx).
      + rewrite length_app. destruct Hin; simpl; lia. }
  rewrite (M_bind_step _ _ _ _ _ E).
  destruct (IH st1 (k - 1) S1 W1 L1 S0 W0 H1 ltac:(lia) Hcan1 Hun1) as (rs & st' & S' & W' & L' & E' & H' & Hun' & HL').
  rewrite (M_bind_step _ _ _ _ _ E'). exists (r :: rs), st', S', W', L'. split_and!; [done | eapply holds_le; [done | lia] | done | lia].
Qed.

(** ** The specification: a map from characters to a reference *)

(** The reference of a string and whether it is strong. *)
Abbreviation intern_map := (gmap (list Z) (Z * bool)).

Definition map_intern (m : intern_map) (s : Z) (is_strong : bool) : Z * intern_map :=
  if s =? 0 then (0, m)
  else
    let u := string_of s in
    match m !! u with
    | Some (r, b) => (r, <[u := (r, b || is_strong)]> m)
    | None => let r := default s (image_ref u) in (r, <[u := (r, is_strong)]> m)
    end.

(** Weak strings that are not marked go; the others get their new reference. *)
Definition map_sweep (callback : Z -> Z) (m : intern_map) : intern_map :=
  omap (fun e : Z * bool => if snd e then Some e else (fun r => (r, false)) <$> live callback (fst e)) m.
(** Strong strings get their new reference. *)
Definition map_visit (callback : Z -> Z) (m : intern_map) : intern_map :=
  (fun e : Z * bool => if snd e then (callback (fst e), true) else e) <$> m.

(** The strings of the tables are those of the map.  A string of the image may be weak as
    well as strong, and more than once. *)
Record represents (S W : list Z) (m : intern_map) : Prop := {
  rep_strong r : r ∈ S -> m !! string_of r = Some (r, true);
  rep_weak r : r ∈ W -> exists b, m !! string_of r = Some (r, b) /\ (b = true -> image_ref (string_of r) = Some r);
  rep_map u r (b : bool) : m !! u = Some (r, b) -> r ∈ (if b then S else W) /\ string_of r = u /\ (forall r', image_ref u = Some r' -> r' = r);
  rep_once : NoDup (filter (fun r => image_ref (string_of r) = None) W);
}.

Lemma represents_perm S S' W W' m : S ≡ₚ S' -> W ≡ₚ W' -> represents S W m -> represents S' W' m.
Proof.
  intros ES EW [H1 H2 H3 H4]. split.
  - intros r. rewrite <- ES. apply H1.
  - intros r. rewrite <- EW. apply H2.
  - intros u r b Hm. destruct b; [rewrite <- ES | rewrite <- EW]; apply (H3 _ _ _ Hm).
  - by rewrite <- EW.
Qed.


(** Changing or adding the entry of the characters [u]. *)
Lemma represents_insert S W S' W' m u r b :
  represents S W m -> string_of r = u ->
  (forall r', image_ref u = Some r' -> r' = r) ->
  r ∈ (if b : bool then S' else W') ->
  (forall x, x ∈ S' -> string_of x = u -> x = r /\ b = true) ->
  (forall x, x ∈ W' -> string_of x = u -> x = r /\ (b = true -> image_ref u = Some r)) ->
  (forall x, string_of x <> u -> (x ∈ S' <-> x ∈ S) /\ (x ∈ W' <-> x ∈ W)) ->
  NoDup (filter (fun r => image_ref (string_of r) = None) W') ->
  represents S' W' (<[u := (r, b)]> m).
Proof.
  intros [H1 H2 H3 H4] Hu Himg Hr HS HW Hother Hdup. split; [| | | done].
  - intros x Hx. destruct (decide (string_of x = u)) as [E | E].
    + destruct (HS x Hx E) as [-> ->]. by rewrite E, lookup_insert_eq.
    + rewrite lookup_insert_ne by done. by apply H1, Hother.
  - intros x Hx. destruct (decide (string_of x = u)) as [E | E].
    + destruct (HW x Hx E) as [-> ?]. exists b. by rewrite E, lookup_insert_eq.
    + rewrite lookup_insert_ne by done. by apply H2, Hother.
  - intros u' x b' [[<- [= <- <-]] | [Hne Hm]]%lookup_insert_Some; [done |].
    destruct (H3 _ _ _ Hm) as (Hx & Ex & Hi). split; [| done]. subst u'. destruct b'; by apply Hother.
Qed.

Lemma represents_strong_entry S W m s r b :
  represents S W m -> m !! string_of s = Some (r, b) -> (forall x, x ∈ S -> string_of x <> string_of s) -> b = false.
Proof. intros H Hm Habs. destruct (rep_map _ _ _ H _ _ _ Hm) as (Hr & Er & _). destruct b; [by apply Habs in Hr | done]. Qed.

Section one_string.
Context (s : Z) (S W : list Z) (m : intern_map) (Hs : s <> 0) (H : represents S W m).
#[local] Abbreviation u := (string_of s).

Lemma weak_entry x : x ∈ W -> string_of x = u -> exists b, m !! u = Some (x, b) /\ (b = true -> image_ref u = Some x).
Proof. intros Hx E. destruct (rep_weak _ _ _ H x Hx) as (b & Hm & Hb). rewrite E in *. by exists b. Qed.

Lemma represents_image b r :
  (forall x, x ∈ S -> string_of x <> u) -> image_ref u = Some r ->
  fst (map_intern m s b) = r /\ represents (if b then r :: S else S) (if b then W else r :: W) (snd (map_intern m s b)).
Proof.
  intros HS Himg. destruct (image_ref_ok _ _ (Hunits s) Himg) as [Er Hrz].
  assert (map_intern m s b = (r, <[u := (r, b)]> m)) as ->.
  { unfold map_intern. rewrite (proj2 (Z.eqb_neq s 0)) by done.
    destruct (m !! u) as [[r' b'] |] eqn:Em; [| by rewrite Himg]. pose proof (represents_strong_entry _ _ _ _ _ _ H Em HS) as ->.
    destruct (rep_map _ _ _ H _ _ _ Em) as (_ & _ & Hi). by rewrite (Hi r Himg). }
  split; [done |]. eapply represents_insert; try done.
  - intros r' E. congruence.
  - destruct b; by left.
  - intros x Hx Ex. destruct b; [apply elem_of_cons in Hx as [-> | Hx]; [done |] |]; by apply HS in Hx.
  - intros x Hx Ex. destruct b; [| apply elem_of_cons in Hx as [-> | Hx]; [done |]];
      destruct (weak_entry x Hx Ex) as (b' & Hm & _); destruct (rep_map _ _ _ H _ _ _ Hm) as (_ & _ & Hi);
      (split; [symmetry; by apply Hi | done]).
  - intros x Hx. destruct b; rewrite ?elem_of_cons; naive_solver.
  - destruct b; [apply H |]. rewrite filter_cons_False; [apply H |]. rewrite Er. congruence.
Qed.

Lemma weak_entry_unique x r :
  image_ref u = None -> x ∈ W -> string_of x = u -> m !! u = Some (r, false) -> x = r.
Proof. intros Himg Hx Ex Hm. destruct (weak_entry x Hx Ex) as (b & Hm' & _). congruence. Qed.

Lemma represents_promoted r y W' :
  (forall x, x ∈ S -> string_of x <> u) -> image_ref u = None -> m !! u = Some (r, false) -> string_of r = u ->
  W ≡ₚ y :: W' -> string_of y = u -> represents (r :: S) W' (<[u := (r, true)]> m).
Proof.
  intros HS Himg Hm Er HW Ey.
  assert (y = r) as -> by (apply weak_entry_unique; try done; rewrite HW; by left).
  pose proof (rep_once _ _ _ H) as Hdup. rewrite HW in Hdup. rewrite filter_cons_True in Hdup by (by rewrite Er).
  apply NoDup_cons in Hdup as [Hnot Hdup]. eapply represents_insert; try done.
  - congruence.
  - by left.
  - intros x [-> | Hx]%elem_of_cons Ex; [done | by apply HS in Hx].
  - intros x Hx Ex. destruct Hnot. assert (x = r) as <- by (apply weak_entry_unique; try done; rewrite HW; by right).
    apply list_elem_of_filter. by rewrite Er.
  - intros x Hx. rewrite HW, !elem_of_cons. split; naive_solver.
Qed.

Lemma represents_new b :
  (forall x, x ∈ S -> string_of x <> u) -> image_ref u = None -> (forall x, x ∈ W -> string_of x <> u) ->
  fst (map_intern m s b) = s /\ represents (if b then s :: S else S) (if b then W else s :: W) (snd (map_intern m s b)).
Proof.
  intros HS Himg HW. assert (map_intern m s b = (s, <[u := (s, b)]> m)) as ->.
  { unfold map_intern. rewrite (proj2 (Z.eqb_neq s 0)) by done.
    destruct (m !! u) as [[r' b'] |] eqn:Em; [| by rewrite Himg]. pose proof (represents_strong_entry _ _ _ _ _ _ H Em HS) as ->.
    destruct (rep_map _ _ _ H _ _ _ Em) as (Hr & Er & _). by apply HW in Hr. }
  split; [done |]. eapply represents_insert; try done.
  - congruence.
  - destruct b; by left.
  - intros x Hx Ex. destruct b; [apply elem_of_cons in Hx as [-> | Hx]; [done |] |]; by apply HS in Hx.
  - intros x Hx Ex. destruct b; [| apply elem_of_cons in Hx as [-> | Hx]; [done |]]; by apply HW in Hx.
  - intros x Hx. destruct b; rewrite ?elem_of_cons; naive_solver.
  - destruct b; [apply H |]. rewrite filter_cons_True by done. apply NoDup_cons. split; [| apply H].
    intros [_ Hx]%list_elem_of_filter. by apply HW in Hx.
Qed.

Lemma represents_interned b r S' W' logs :
  interned s S W b r S' W' logs -> fst (map_intern m s b) = r /\ represents S' W' (snd (map_intern m s b)).
Proof.
  destruct 1 as [b r Hr Er | b r HS Himg | r HS Himg Hr Er | r y W' HS Himg Hr Er HW Ey | b HS Himg HW].
  - pose proof (rep_strong _ _ _ H r Hr) as Hm. rewrite Er in Hm. unfold map_intern. rewrite (proj2 (Z.eqb_neq s 0)), Hm by done.
    simpl. by rewrite insert_id.
  - by apply represents_image.
  - destruct (weak_entry r Hr Er) as (b' & Hm & Hb). unfold map_intern. rewrite (proj2 (Z.eqb_neq s 0)), Hm by done. simpl.
    destruct b'; [specialize (Hb eq_refl); congruence |]. by rewrite insert_id.
  - destruct (weak_entry r Hr Er) as (b' & Hm & Hb). unfold map_intern. rewrite (proj2 (Z.eqb_neq s 0)), Hm by done. simpl.
    destruct b'; [specialize (Hb eq_refl); congruence |]. split; [done |]. by eapply represents_promoted.
  - by apply represents_new.
Qed.
End one_string.

(** ** Collections *)

(** A callback keeps the characters, and the strings of the image where they are. *)
Record sweeping (callback : Z -> Z) : Prop := {
  sw_same x : callback x <> 0 -> string_of (callback x) = string_of x;
  sw_again x : callback x <> 0 -> callback (callback x) = callback x;
  sw_image u r : image_ref u = Some r -> callback r = r;
}.
Record moving (callback : Z -> Z) : Prop := {
  mv_root x : x <> 0 -> callback x <> 0 /\ string_of (callback x) = string_of x;
  mv_image u r : image_ref u = Some r -> callback r = r;
}.

Lemma live_some callback x y : live callback x = Some y <-> callback x <> 0 /\ y = callback x.
Proof. unfold live. destruct (Z.eqb_spec (callback x) 0); naive_solver. Qed.

Lemma NoDup_omap (f : Z -> option Z) (l : list Z) :
  (forall x x' y, x ∈ l -> x' ∈ l -> f x = Some y -> f x' = Some y -> x = x') -> NoDup l -> NoDup (omap f l).
Proof.
  induction l as [| x l IH]; intros Hinj Hdup; [constructor |]. apply NoDup_cons in Hdup as [Hx Hdup]. rewrite omap_cons_eq.
  assert (NoDup (omap f l)) by (apply IH; [intros; eapply Hinj; try done; by right | done]).
  destruct (f x) as [y |] eqn:Ey; [| done]. apply NoDup_cons. split; [| done]. intros (x' & Hx' & Ey')%list_elem_of_omap.
  assert (x' = x) as -> by (eapply Hinj; try done; [by right | by left]). done.
Qed.

Lemma filter_omap_live callback (W : list Z) : sweeping callback ->
  filter (fun r => image_ref (string_of r) = None) (omap (live callback) W) =
  omap (live callback) (filter (fun r => image_ref (string_of r) = None) W).
Proof.
  intros Hcb. induction W as [| x W IH]; [done |]. rewrite filter_cons, omap_cons_eq.
  destruct (live callback x) as [y |] eqn:Ey.
  - rewrite filter_cons, IH. apply live_some in Ey as Ey'. destruct Ey' as [Hx ->]. pose proof (sw_same _ Hcb x Hx) as E.
    destruct (decide (image_ref (string_of (callback x)) = None)), (decide (image_ref (string_of x) = None)); try congruence.
    by rewrite omap_cons_eq, Ey.
  - rewrite IH. destruct (decide _); [by rewrite omap_cons_eq, Ey | done].
Qed.

Lemma represents_sweep S W m callback :
  represents S W m -> sweeping callback -> represents S (omap (live callback) W) (map_sweep callback m).
Proof.
  intros [H1 H2 H3 H4] Hcb. unfold map_sweep. split.
  - intros r Hr. by rewrite lookup_omap, (H1 r Hr).
  - intros y (x & Hx & [Hc ->]%live_some)%list_elem_of_omap. destruct (H2 x Hx) as (b & Hm & Hb).
    rewrite (sw_same _ Hcb x Hc), lookup_omap, Hm. destruct b; simpl.
    + specialize (Hb eq_refl). exists true. by rewrite (sw_image _ Hcb _ _ Hb).
    + exists false. assert (live callback x = Some (callback x)) as -> by by apply live_some. done.
  - intros u r b. rewrite lookup_omap. intros ([r0 b0] & Hm & E)%bind_Some. destruct (H3 _ _ _ Hm) as (Hr & Er & Hi). destruct b0; simpl in *.
    + by injection E as <- <-.
    + apply fmap_Some in E as (y & Ey & [= -> ->]). apply live_some in Ey as Ey'. destruct Ey' as [Hc ->]. split_and!.
      * apply list_elem_of_omap. by exists r0.
      * by rewrite (sw_same _ Hcb r0 Hc).
      * intros r' Hr'. pose proof (Hi r' Hr') as ->. by rewrite (sw_image _ Hcb _ _ Hr').
  - rewrite filter_omap_live by done. apply NoDup_omap; [| done].
    intros x x' y [_ Hx]%list_elem_of_filter [_ Hx']%list_elem_of_filter [Hc ->]%live_some [Hc' E]%live_some.
    assert (string_of x = string_of x') as Es by (rewrite <- (sw_same _ Hcb x Hc), <- (sw_same _ Hcb x' Hc'); congruence).
    destruct (H2 x Hx) as (b & Hm & _), (H2 x' Hx') as (b' & Hm' & _). rewrite Es in Hm. congruence.
Qed.

Lemma represents_visit S W m callback :
  represents S W m -> (forall x, x ∈ S -> x <> 0) -> moving callback -> represents (callback <$> S) W (map_visit callback m).
Proof.
  intros [H1 H2 H3 H4] Hnz Hcb. unfold map_visit. split; [| | | done].
  - intros y (x & -> & Hx)%list_elem_of_fmap. destruct (mv_root _ Hcb x (Hnz x Hx)) as [_ E]. rewrite E, lookup_fmap, (H1 x Hx). done.
  - intros x Hx. destruct (H2 x Hx) as (b & Hm & Hb). exists b. rewrite lookup_fmap, Hm. split; [| done]. destruct b; simpl; [| done].
    by rewrite (mv_image _ Hcb _ _ (Hb eq_refl)).
  - intros u r b. rewrite lookup_fmap. intros ([r0 b0] & Hm & E)%fmap_Some. destruct (H3 _ _ _ Hm) as (Hr & Er & Hi). destruct b0; simpl in *.
    + injection E as -> ->. destruct (mv_root _ Hcb r0 (Hnz r0 Hr)) as [_ Es]. split_and!; [by apply list_elem_of_fmap_2 | congruence |].
      intros r' Hr'. pose proof (Hi r' Hr') as ->. by rewrite (mv_image _ Hcb _ _ Hr').
    + by injection E as -> ->.
Qed.

(** ** Clients *)

Inductive intern_call : Type :=
  | CIntern (s : Z) (is_strong : bool)
  | CSweep (callback : Z -> Z)
  | CVisit (callback : Z -> Z).

Definition visit_all_flags : VisitRootFlags := MkVisitRootFlags true false false false false.

(** The reference that [InternStrong] and [InternWeak] return; a collection returns none. *)
Definition intern_perform (c : intern_call) : M Interning Z :=
  match c with
  | CIntern s is_strong => Insert string_of fuel image s is_strong
  | CSweep callback => SweepInternTableWeaks string_of fuel callback;; mret 0
  | CVisit callback => VisitRoots string_of fuel callback visit_all_flags;; mret 0
  end.

Fixpoint intern_perform_all (cs : list intern_call) : M Interning (list Z) :=
  match cs with
  | [] => mret []
  | c :: cs => r ← intern_perform c; rest ← intern_perform_all cs; mret (r :: rest)
  end.

Definition map_perform (m : intern_map) (c : intern_call) : Z * intern_map :=
  match c with
  | CIntern s is_strong => map_intern m s is_strong
  | CSweep callback => (0, map_sweep callback m)
  | CVisit callback => (0, map_visit callback m)
  end.

Fixpoint map_perform_all (m : intern_map) (cs : list intern_call) : list Z * intern_map :=
  match cs with
  | [] => ([], m)
  | c :: cs =>
      let '(r, m) := map_perform m c in
      let '(rest, m) := map_perform_all m cs in (r :: rest, m)
  end.

Definition proper_call (c : intern_call) : Prop :=
  match c with CIntern _ _ => True | CSweep callback => sweeping callback | CVisit callback => moving callback end.

Lemma intern_perform_ok st k S W L m c :
  holds st k S W L -> 1 <= k -> represents S W m -> proper_call c ->
  exists st' S' W' L', intern_perform c st = Ok (fst (map_perform m c), st') /\ holds st' (k - 1) S' W' L' /\
    represents S' W' (snd (map_perform m c)).
Proof.
  intros Hst Hk Hrep Hc. destruct c as [s b | callback | callback]; cbn [intern_perform map_perform proper_call fst snd] in *.
  - destruct (decide (s = 0)) as [-> | Hs].
    + exists st, S, W, L. split_and!; [done | eapply holds_le; [done | lia] | done].
    + destruct (Intern_Insert_ok st k S W L s b Hst Hk Hs) as (r & st' & S' & W' & logs & E & Hin & H').
      destruct (represents_interned s S W m Hs Hrep b r S' W' logs Hin) as [-> Hrep']. by exists st', S', W', (app logs <$> L).
  - destruct Hst as [Hst Hwk HS HW HL Hal Had]. unfold SweepInternTableWeaks, get_table, set_table. rewrite M_bind_assoc, M_bind_gets.
    destruct (Table_SweepWeaks_ok string_of fuel N Hfuel k callback _ (sw_same _ Hc) (sw_again _ Hc) Hwk ltac:(lia)) as (t' & E & Ht' & HC).
    rewrite M_bind_assoc, E, M_bind_Ok, M_bind_modify. eexists _, S, (omap (live callback) W), L. split; [reflexivity |].
    split; [| by apply represents_sweep]. split; simpl; try done.
    + by eapply table_fits_le; [exact Hst | lia].
    + by eapply table_fits_le; [exact Ht' | lia].
    + by rewrite HC, HW.
  - assert (forall x, x ∈ S -> x <> 0) as Hnz by (intros x; by apply (holds_S_nonzero st k S W L)). destruct Hst as [Hst Hwk HS HW HL Hal Had].
    unfold VisitRoots, get_table, set_table. cbn [visit_all_flags kVisitRootFlagAllRoots kVisitRootFlagClearRootLog kVisitRootFlagStartLoggingNewRoots kVisitRootFlagStopLoggingNewRoots].
    destruct (Table_VisitRoots_ok string_of fuel N HN Hfuel k callback _ (mv_root _ Hc) Hst) as (t' & E & Ht' & HC).
    rewrite !M_bind_assoc, M_bind_gets, M_bind_assoc, E, M_bind_Ok, M_bind_modify. eexists _, (callback <$> S), W, L. split; [reflexivity |].
    split; [| by apply represents_visit]. split; simpl; try done.
    + by eapply table_fits_le; [exact Ht' | lia].
    + by eapply table_fits_le; [exact Hwk | lia].
    + by rewrite HC, HS.
Qed.

Lemma intern_perform_all_ok cs : forall st k S W L m,
  holds st k S W L -> zlength cs <= k -> represents S W m -> Forall proper_call cs ->
  exists st' S' W' L', intern_perform_all cs st = Ok (fst (map_perform_all m cs), st') /\ holds st' (k - zlength cs) S' W' L' /\
    represents S' W' (snd (map_perform_all m cs)).
Proof.
  induction cs as [| c cs IH]; intros st k S W L m Hst Hk Hrep Hcs; cbn [intern_perform_all map_perform_all length] in *.
  { exists st, S, W, L. split_and!; [done | eapply holds_le; [done | lia] | done]. }
  inv Hcs. destruct (intern_perform_ok st k S W L m c Hst) as (st1 & S1 & W1 & L1 & E & H1' & Hrep1); try done; [lia |].
  rewrite (M_bind_step _ _ _ _ _ E). destruct (map_perform m c) as [r m1]. simpl in *.
  destruct (IH st1 (k - 1) S1 W1 L1 m1 H1') as (st' & S' & W' & L' & E' & H' & Hrep'); try done; [lia |].
  rewrite (M_bind_step _ _ _ _ _ E'). destruct (map_perform_all m1 cs) as [rest m2]. simpl in *.
  exists st', S', W', L'. split_and!; [done | eapply holds_le; [done | lia] | done].
Qed.

(** C14: The intern table is a map from the characters of a string to one reference.  A
    sequence of [InternStrong], [InternWeak], visits of the roots and sweeps returns, and
    each call returns the reference the map gives: the one interned before for the same
    characters, moved as the collector moved it, the one of the image, or the string
    itself if there is none.  Interned strings are forgotten by a sweep only, when they
    are weak and not marked.  It is relied on that the dex caches of the image hold the
    strings of their sorted dex files, and that a collector keeps the characters of what
    it moves and does not move it twice. *)
Theorem interning_refines_map st S W L m cs :
  holds st (zlength cs) S W L -> represents S W m -> Forall proper_call cs ->
  exists st' S' W' L', intern_perform_all cs st = Ok (fst (map_perform_all m cs), st') /\ holds st' 0 S' W' L' /\
    represents S' W' (snd (map_perform_all m cs)).
Proof.
  intros Hst Hrep Hcs. destruct (intern_perform_all_ok cs st _ S W L m Hst) as (st' & S' & W' & L' & E & H' & Hrep'); try done.
  exists st', S', W', L'. rewrite Z.sub_diag in H'. done.
Qed.

(** C15: Interning is undone with the transaction that does it: after a sequence of
    [InternStrong] and [InternWeak] in a transaction, undoing the log gives the strong
    and the weak table the strings they had, and neither fails. *)
Theorem interning_rolls_back st S W calls :
  holds st (3 * zlength calls) S W (Some []) -> canonical W ->
  exists results st1 st2, intern_all calls st = Ok (results, st1) /\
    UndoInternStringTableModifications string_of fuel st1 = Ok (tt, st2) /\
    strings (strong_interns_ (intern_table st2)) ≡ₚ S /\ strings (weak_interns_ (intern_table st2)) ≡ₚ W /\
    intern_string_logs_ st2 = None.
Proof.
  intros Hst Hcan. assert (undoes [] S W S W) as Hun.
  { intros st' k H' _. exists st'. split; [done |]. eapply holds_le; [done | simpl; lia]. }
  destruct (intern_all_undone calls st _ S W [] S W Hst ltac:(lia) Hcan Hun) as (rs & st1 & S' & W' & L' & E & H1 & Hun' & HL).
  unfold UndoInternStringTableModifications.
  destruct (Hun' (MkInterning (intern_table st1) None) (3 * zlength calls - zlength calls)) as (st2 & E2 & H2).
  { destruct H1. by split. } { simpl in HL. lia. }
  exists rs, st1, st2. rewrite M_bind_gets, M_bind_modify, (h_log _ _ _ _ _ H1). split_and!; [done | exact E2 | apply H2..].
Qed.

(** The image is looked at before the weak table: [InternWeak] inserts a string of the
    image again at every call. *)
Theorem image_string_inserted_again st k S W L s r :
  holds st k S W L -> 1 <= k -> s <> 0 -> (forall x, x ∈ S -> string_of x <> string_of s) -> image_ref (string_of s) = Some r ->
  exists st' L', InternWeak string_of fuel image s st = Ok (r, st') /\ holds st' (k - 1) S (r :: W) L'.
Proof.
  intros Hst Hk Hs HS Himg. destruct (Intern_Insert_ok st k S W L s false Hst Hk Hs) as (r' & st' & S' & W' & logs & E & Hin & H').
  remember false as b eqn:Eb. destruct Hin; subst; try congruence; [by apply HS in H |].
  assert (r0 = r) as -> by congruence. by eexists _, _.
Qed.
End interning.

(** A string found in the image is one that a dex cache has resolved. *)
Lemma lookup_caches_resolved utf8 caches r :
  lookup_caches utf8 caches = Ok r -> r <> 0 -> exists c, c ∈ caches /\ r ∈ resolved_strings c.
Proof.
  induction caches as [| c caches IH]; cbn [lookup_caches]; [congruence |]. intros E Hr.
  destruct (FindStringId (dex_file c) (utf8 ++ [0])) as [[i |] |]; cbn [mbind res_bind] in E; [| | done].
  - unfold GetResolvedString in E. destruct (zget (resolved_strings c) i) as [x |] eqn:Ex; cbn [mbind res_bind] in E; [| done].
    destruct (Z.eqb_spec x 0); cbn [negb] in E.
    + destruct (IH E Hr) as (c' & ? & ?). exists c'. split; [by right | done].
    + injection E as ->. exists c. split; [by left |]. apply zget_ok in Ex as [_ Ex]. by eapply list_elem_of_lookup_2.
  - destruct (IH E Hr) as (c' & ? & ?). exists c'. split; [by right | done].
Qed.

(** ** Witnesses: strings 1 and 2 have the same characters, and so have 10, which is in the
    image, and 11 *)

Definition sample_string (s : Z) : list Z :=
  if (s =? 1) || (s =? 2) then [97] else if (s =? 10) || (s =? 11) then [86] else [98; s mod 7].
Definition sample_image : option (list DexCache) := Some [MkDexCache sample_file [0; 0; 10]].
(** A sweep that keeps the string of the image. *)
Definition sample_marked (s : Z) : Z := if s =? 10 then 10 else 0.

Lemma sample_units s : Forall utf16_unit (sample_string s).
Proof.
  unfold sample_string. pose proof (Z.mod_pos_bound s 7 ltac:(lia)). destruct (_ || _); [| destruct (_ || _)];
    repeat constructor; unfold utf16_unit; lia.
Qed.

Lemma sample_image_wf : image_wf sample_string sample_image.
Proof.
  constructor; [| constructor]. exists sample_strings. split; [apply sample_string_table |]. split; [done |].
  intros i r u Hr Hu. by destruct i as [| [| [| i]]]; simpl in *; simplify_eq.
Qed.

Lemma sample_sweeping : sweeping sample_string sample_image false sample_marked.
Proof.
  split.
  - intros x. unfold sample_marked. by destruct (Z.eqb_spec x 10) as [-> |].
  - intros x. unfold sample_marked. by destruct (Z.eqb_spec x 10) as [-> |].
  - intros u r. unfold image_ref, sample_image. destruct (lookup_caches _ _) as [x |] eqn:E; [| done].
    destruct (Z.eqb_spec x 0); [done |]. intros [= <-]. destruct (lookup_caches_resolved _ _ _ E) as (c & Hc & Hx); [done |].
    apply list_elem_of_singleton in Hc as ->. simpl in Hx. rewrite !elem_of_cons, elem_of_nil in Hx.
    destruct Hx as [? | [? | [-> | []]]]; done.
Qed.

Lemma sample_holds k L :
  0 <= k <= 300 -> holds sample_string 300 false (MkInterning new_InternTable L) k [] [] L.
Proof.
  intros Hk. destruct (new_Table_ok sample_string 300) as [Ht _]; [unfold size_bound; lia |].
  split; simpl; try done; (eapply table_fits_le; [exact Ht | lia]).
Qed.

Definition sample_intern_calls : list intern_call :=
  [CIntern 1 false; CIntern 2 true; CIntern 3 false; CIntern 11 false; CSweep sample_marked; CIntern 1 false; CIntern 11 true].

Lemma interning_refines_map_witness :
  fst (map_perform_all sample_string sample_image false ∅ sample_intern_calls) = [1; 1; 3; 10; 0; 1; 10] /\
  exists st' S' W' L',
    intern_perform_all sample_string 2000 sample_image sample_intern_calls (MkInterning new_InternTable None) =
      Ok (fst (map_perform_all sample_string sample_image false ∅ sample_intern_calls), st') /\
    holds sample_string 300 false st' 0 S' W' L' /\
    represents sample_string sample_image false S' W' (snd (map_perform_all sample_string sample_image false ∅ sample_intern_calls)).
Proof.
  split; [by vm_compute |].
  apply (interning_refines_map sample_string sample_units 2000 300 ltac:(unfold size_bound; lia) ltac:(lia) sample_image false
    sample_image_wf (MkInterning new_InternTable None) [] [] None ∅ sample_intern_calls).
  - apply sample_holds. simpl. lia.
  - split; try done; try (by intros ? ?%elem_of_nil). constructor.
  - repeat constructor; apply sample_sweeping.
Defined.

Lemma interning_rolls_back_witness :
  exists results st1 st2,
    intern_all sample_string 2000 sample_image [(1, false); (2, true); (3, false); (0, true); (11, false)]
      (MkInterning new_InternTable (Some [])) = Ok (results, st1) /\
    UndoInternStringTableModifications sample_string 2000 st1 = Ok (tt, st2) /\
    strings (strong_interns_ (intern_table st2)) ≡ₚ [] /\ strings (weak_interns_ (intern_table st2)) ≡ₚ [] /\
    intern_string_logs_ st2 = None.
Proof.
  apply (interning_rolls_back sample_string sample_units 2000 300 ltac:(unfold size_bound; lia) ltac:(lia) sample_image false
    sample_image_wf (MkInterning new_InternTable (Some [])) [] [] [(1, false); (2, true); (3, false); (0, true); (11, false)]).
  - apply sample_holds. simpl. lia.
  - split; by intros ? ? ?%elem_of_nil.
Defined.
